(* ===== verification/_CoqProject ===== *)
-Q . S2P
Prelude.v
Chain.v
State.v
ReadyQueue.v
ReadyQueueProofs.v
WaitQueue.v
WaitQueueProofs.v
Urgency.v
UrgencyProofs.v
Scheduler.v
SchedulerSpec.v
Local.v
SchedulerProofs.v
DispatchProofs.v
PickProofs.v
Switch.v
Waking.v
Waits.v
Mutex.v
Sync.v
Channel.v
SemaphoreSystem.v
RoadProofs.v
SwitchProofs.v
Cores.v
ExitProofs.v
Checks.v
Kernel.v
WakeProofs.v
MutexProofs.v
MutexOps.v
Modes.v
WaitingProofs.v
SweepProofs.v
SyncProofs.v
SemaphoreSpec.v
SemaphoreProofs.v
ChannelProofs.v
TraceLog.v
TraceLogProofs.v
Stream.v
TraceProperties.v
Time.v
TimeProofs.v
Simulation.v
TimeProperties.v
Chrono.v
ChronoSpec.v
ChronoProofs.v
Diagnostics.v
Scenario.v
MutexScenario.v
SemaphoreScenario.v
MutexProperties.v
SyncProperties.v
ChronoProperties.v
DiagnosticsProperties.v
StructureProperties.v
Properties.v
KernelProperties.v
PortMasks.v
PortProperties.v
Spinlock.v
SpinlockProperties.v
Mtime.v
MtimeProperties.v
ArmSwitch.v
ArmSwitchProperties.v
Systick.v
SystickProperties.v
Rv32Switch.v
Rv32SwitchProperties.v
Function.v
FunctionProperties.v
SparcSwitch.v
SparcWindows.v
SparcTraps.v
SparcSwitchProperties.v
CoopSwitch.v
CoopSwitchProperties.v
