(* ===== verification/Prelude.v ===== *)
(** * Cyros: its kernel, time drivers, user library and ports' contracts, verified

    Cyros is a kernel for several cores: threads pinned each to a core, a
    scheduler per core, mutexes with priority inheritance, waits with one
    protocol for everything that blocks, timers, and on top of them semaphores,
    event flags, condition variables and channels.  This development models the
    C++ under src/src (kernel/, time/, userlib/ and, of port/, the masks, the
    switching of the M profile, of RV32, of SPARC V8 and of the cooperative Linux
    port, and the time sources) function by function as executable definitions
    over an explicit state, and proves what makes each part correct.

    ** How the parts interact

    A thread's control block is the object that every part reads.  The scheduler
    of a core files its ready threads in a matrix of queues, or, while they hold
    mutexes, in a list of holders whose urgency is computed anew at each pick by
    the fold over the mutexes they hold.  Anything that makes a thread ready
    goes through [global_ready_thread]: on the thread's own core it files the
    thread at once, from any other it posts the thread on that core's intake and
    interrupts it.  A core leaves a thread by one of three roads: its own
    departure (yield, park, exit), the reschedule handler, and an interrupt's
    wake.  A wait arms a node on a wait queue, polls, and parks unless a wake
    came first; every primitive is a poll and some wakes over that protocol.
    The time drivers keep tables of callbacks and are asked for nothing but
    those; the trace is written from the kernel's trace points and read out by
    the stream.  Under all of it is the port: it masks interrupts and defers
    preemption, which the spinlocks and the kernel's regions are made of, it
    carries out the switches the kernel decides, and it counts the time and
    fires the one-shot that the drivers arm.

    ** Conventions

    - Prelude.v: outcomes ([Ok] or the failed check, [Panic]), the state monad
      with [let*], machine integers ([u8], [u32], [u64], [wrap]), generic lemmas
      on lists and maps, and the Hoare rules [wp] with the tactic [wp_step].
      [Panic] also stands for following a dangling pointer and for fuel that ran
      out, so a theorem that a program is [Ok] excludes both.
    - An object is its address, a number; an array or heap of objects is a
      finite map.  Intrusive lists are links in the objects (Chain.v).
    - What runs under one spinlock, or with interrupts masked on one core, or in
      one atomic access, is one step.  Nothing else is.  Operations that another
      thread may run in the middle of are cut there: the wait engine, the
      mutex's lock, the semaphore's release.  Memory order is not modelled:
      accesses are taken one at a time, in one order that all cores agree on.
    - A call to the port (an interrupt sent, a reschedule pended, a timer armed)
      is recorded in the state ([calls], [time_calls]); a context switch is the
      change of the core's current thread.  What a port does with such a call is
      modelled in files of its own, with the kernel's choices as arguments.
    - A loop over a list carries fuel of one more than the size of the heap it
      walks, which the theorems show is enough; loops over counters recurse on
      the counter.  PendSV's program ends within seventeen steps, and SPARC's walk
      over the register windows within as many laps as there are windows.  The register
      accesses of the SysTick source take as long as the state's [pace] says.
      [drain_intake] and [await_intake_link] would wait for a
      producer half way through a push; no step leaves one there.

    ** The files

    The kernel's data and structures:
    - State.v: thread_control_block, scheduler, wait_node, wait_queue,
      base_mutex, cancel_signal and the rest as records; the kernel state and
      its accessors.
    - ReadyQueue.v, WaitQueue.v: thread_ready_queue, thread_ready_matrix and
      wait_queue, with ReadyQueueProofs.v and WaitQueueProofs.v: they refine
      lists of levels and a list ordered by priority.
    - Urgency.v, UrgencyProofs.v: the inheritance fold of waitable.cpp and
      base_mutex.cpp, its bounds, and a reference it never falls under and
      equals on short chains.
    Scheduling:
    - Scheduler.v (make_ready, the pick), Switch.v (intake, departures, the
      three roads, wakes from anywhere, suspend and resume's switch, exit).
    - SchedulerSpec.v: the abstract core, lists of levels and of holders, and
      [core_inv], what every core keeps; Local.v reasons about one core's step
      while the others are framed; SchedulerProofs.v, DispatchProofs.v,
      PickProofs.v, RoadProofs.v, SwitchProofs.v, Cores.v and WakeProofs.v prove
      the operations keep it and refine the abstract switch.
    - ExitProofs.v: a thread retired, its joiners woken.  Kernel.v: initialise,
      placement, registration, the thread API.
    Waiting:
    - Waking.v (wake_one, wake_all, wake_all_where, transfers), Waits.v
      (wait_engine::run in its steps, waiter_record, cancel_signal, join).
      The class [Waitable] is what a primitive gives the engine: its poll.
    - Mutex.v, MutexProofs.v, MutexOps.v: base_mutex and the four records of
      ownership kept in step ([accounts]).
    - Modes.v: a thread as a wait sees it, awake, going to sleep or asleep; no
      switch changes a mode and a wake changes one.  WaitingProofs.v: arming,
      disarming and waking on the whole kernel ([stirred]).  SweepProofs.v:
      wake_all_where in its batches ([swept]).
    The user library:
    - Sync.v: semaphore, handoff_semaphore, event_flags, condition_variable.
      SemaphoreSystem.v interleaves the steps of threads and handlers on one
      semaphore with switches and wakes of the kernel; SemaphoreSpec.v is the
      abstract system and its invariant, which counts the wakes owed against
      the tokens; SemaphoreProofs.v is the simulation.  SyncProofs.v serves the
      properties of the other three.
    - Channel.v, ChannelProofs.v: the ring against a bounded list.
    - Function.v: function, the callable of any type, over the heap it allocates
      from and a log of the callables it makes and destroys.
    - Chrono.v: alarms, sleeps, the timed waits and round robin, over the class
      [TimeDriver].  ChronoSpec.v: the laws chrono needs of a driver, as the
      class [TimeDriverLaws], and that the periodic and the tickless driver keep
      them.  ChronoProofs.v: the abstract alarm, and that alarms refine it
      ([tracks]).
    Time and trace:
    - Time.v, TimeProofs.v: the timetable, the periodic and tickless drivers.
      Simulation.v: the simulated clock and its pump.
    - TraceLog.v, TraceLogProofs.v, Stream.v: a core's log and
      the packets the stream makes of it.
    - Diagnostics.v: the blocking-chain query, over a
      history of the kernel's states since it takes no lock.
    The ports:
    - PortMasks.v: the two masking grades of the seven cores
      as instances of the class [Masks]; the class [MasksLaws], an abstract
      machine of two depths, states the contract of port_core.h.
    - Spinlock.v: the spinlock and the critical sections, over
      the masks of any port, an access at a time on several cores.
    - ArmSwitch.v: PendSV's switching on the M profile, with
      the interrupts that nest in it.
    - Rv32Switch.v: the RV32 core's traps, calls and exits, register by
      register.
    - SparcSwitch.v: SPARC V8's window traps, trap entry and exit and dispatch,
      over the ring of register windows; SparcWindows.v: what is in the ring and
      what on the stacks, through each window trap ([holds], [rep]);
      SparcTraps.v: the same through a trap, its C and the traps that nest in it.
    - CoopSwitch.v: the cooperative Linux port's contexts and the jumps between
      them, over any contexts that keep the laws of Boost's (the class
      [Fcontext]); and its idle against pokes, over any mutex and condition
      variable that keep POSIX's (the class [Pthread]).
    - Mtime.v: the time source on an MTIME timer.  Systick.v: both time
      sources on SysTick, over the counter clock by clock.
    Instances and results:
    - Checks.v decides the invariants; Scenario.v, MutexScenario.v and
      SemaphoreScenario.v are concrete kernels, on which the witnesses run.
    - The properties: SyncProperties.v, ChronoProperties.v,
      DiagnosticsProperties.v, Properties.v (scheduling), KernelProperties.v,
      MutexProperties.v, StructureProperties.v, TimeProperties.v,
      TraceProperties.v, PortProperties.v, SpinlockProperties.v,
      ArmSwitchProperties.v, Rv32SwitchProperties.v, SparcSwitchProperties.v,
      CoopSwitchProperties.v, FunctionProperties.v, MtimeProperties.v and SystickProperties.v.

    ** What the theorems show

    - A semaphore loses no wake, whatever the interleaving, and refines a
      counter; event flags wake exactly whom they satisfy; a handoff semaphore
      gives or counts each token; a condition variable's waits end when notified
      and only then; a channel is a bounded FIFO.
    - A thread that parks never parks on a wake already posted; every road into
      a switch keeps each core's invariant, refines the abstract switch and runs
      a most urgent thread; a wake made on its thread's core leaves the thread
      awake, and one made elsewhere is on that core's intake, whose next draining
      leaves it awake ([awake_on]: no wait under way, and running or filed);
      intakes are served in order; yields rotate and preemption keeps a thread's turn.
    - The urgency fold is exact within its bounds and never under.
    - A mutex's unlock hands over, its records of ownership stay in step, and
      misuse is refused before anything changes.
    - An alarm goes off at the first interrupt at or after its time, wakes its
      waiters and nobody else, and its disarm never waits for its callback.
    - A function owns at most one callable: moves hand it over, and nothing is
      leaked, destroyed twice or used after.
    - Timers fire once, when due, and the tickless one-shot is armed for the
      earliest; conversions never shorten a sleep.
    - The trace log is a bounded queue that counts what it drops, and what the
      stream writes decodes to what was logged.
    - The blocking-chain query is exact on a state that stands still; a standing
      deadlock is always reported; a false report takes a hop that left and came
      back between two readings, and there is one.
    - Every port's masks keep the contract, for the priority widths a port
      supports and depths below 2^32; a PRIGROUP of 7 and a GIC of two priority
      bits do not.
    - A spinlock excludes, and a core's interrupts are masked while it is in a
      lock's section; but on several cores whose token is the saved mask, the
      token read after the flag is dropped may be another core's
      ([unlock_restores_anothers_token]).
    - On the Mainline port of the M profile PendSV makes an owed switch before
      the kernel's reschedule handler runs, never loses or mixes up a context,
      and leaves no request undecided; on the Baseline port an interrupt inside
      PendSV can break the first two, and on either a request made before a
      switch is owed is dropped with it.
    - On RV32 a thread goes on where it was left, on its own stack and with
      every register its way out held, whatever frame it was left with and
      whichever exit takes it up; its first frame and its guard are where they
      should be, or the stack is refused.
    - On SPARC V8 a thread goes on where it was left with all its windows, be
      they in the register file or on its stack, however deep the calls and
      whatever nests in them, and no trap is met with traps off.
    - On the cooperative Linux port every context goes on where it was left and
      every handle is in its place, no spent one jumped to; misuse is refused; a
      core that idles misses no poke.
    - The MTIME source counts whole periods however late its interrupt, and its
      one-shot and SysTick's honour the earliest deadline, never early.  SysTick's
      extended time never runs ahead or back and loses a bounded time at each
      restart, if the accesses are quick enough ([fits]) and no reading or arm
      comes between a reading that saw an interval's end and that end's
      interrupt ([is_fresh]); a reading that does is short by that one interval,
      and an arm that does loses it for good ([arm_loses_an_interval]).  The two
      words of a count can be read torn from another core, which is shown of both
      sources.

    ** What is not modelled

    - Of the ports: faults, thread-local storage and start-up; contexts, stack
      guards and exception entries, and the switches themselves, but for RV32's,
      SPARC V8's (of one core, without floating point), the cooperative Linux
      port's and the M profile's choice of what to switch to, which are assembly
      and device registers; the preemptive Linux port's timers and signals.  What the hardware does is
      taken from the comments that say so: when an interrupt is let in, and how
      SysTick's counter reloads.
    - The reporting of failed checks.
    - Memory order weaker than sequential consistency, so the fences that
      [may_have_waiters] and the intake rely on are taken to do their work.
    - Alarms over the simulated clock, whose callbacks may run on another core
      while a disarm waits for them; the condition variable's overloads that
      loop on a predicate of the caller.
    - The semaphore's system has the threads it starts with: none is created or
      exits while it runs, and their priorities do not change while they wait. *)

From stdpp Require Export base numbers sorting gmap list.

(** ** Outcomes

    A cyros function either finishes or stops the system: [CYROS_ASSERT],
    [CYROS_REQUIRE] and [CYROS_FATAL] all end in [panic].  Two more ways not to
    finish are kept apart from the checks, so that a theorem that an operation
    is [Ok] excludes them as well: following a pointer to nothing, and a loop
    the model's fuel does not cover. *)
Inductive check :=
  | assert_failed     (* CYROS_ASSERT *)
  | require_failed    (* CYROS_REQUIRE *)
  | fatal_failed      (* CYROS_FATAL *)
  | bad_pointer       (* a null or dangling pointer was followed *)
  | out_of_fuel.      (* the loop did not end within the model's fuel *)

#[global] Instance check_eq_dec : EqDecision check.
Proof. solve_decision. Defined.

Inductive outcome (A : Type) :=
  | Ok (a : A)
  | Panic (c : check).
Arguments Ok {A} a.
Arguments Panic {A} c.

Definition obind {A B} (m : outcome A) (k : A -> outcome B) : outcome B :=
  match m with Ok a => k a | Panic c => Panic c end.

Definition ensure (c : check) (b : bool) : outcome unit :=
  if b then Ok tt else Panic c.

Definition is_ok {A} (m : outcome A) : bool :=
  match m with Ok _ => true | Panic _ => false end.

Declare Scope cyros_scope.
Delimit Scope cyros_scope with cyros.
Notation "'let!' x ':=' m 'in' k" := (obind m (fun x => k))
  (at level 10, x name, m at level 200, k at level 200,
   format "'[v' 'let!'  x  ':='  m  'in' '/' k ']'") : cyros_scope.
Notation "'let!' ' p ':=' m 'in' k" := (obind m (fun p => k))
  (at level 10, p strict pattern, m at level 200, k at level 200) : cyros_scope.
Notation "m ';;!' k" := (obind m (fun _ => k))
  (at level 199, right associativity) : cyros_scope.
Open Scope cyros_scope.

(** [ok m Q]: [m] finishes, and what it returns satisfies [Q]. *)
Definition ok {A} (m : outcome A) (Q : A -> Prop) : Prop :=
  match m with Ok a => Q a | Panic _ => False end.

Section outcome_lemmas.
Context {A B : Type}.
Implicit Types (m : outcome A) (k : A -> outcome B).

Lemma ok_bind m k Q : ok m (fun a => ok (k a) Q) -> ok (obind m k) Q.
Proof. destruct m; auto. Qed.

Lemma ok_mono m (Q R : A -> Prop) : ok m Q -> (forall a, Q a -> R a) -> ok m R.
Proof. destruct m; simpl; auto. Qed.

Lemma ok_ensure c b (Q : unit -> Prop) : b = true -> Q tt -> ok (ensure c b) Q.
Proof. intros ->; auto. Qed.

Lemma ok_elim m Q : ok m Q -> exists a, m = Ok a /\ Q a.
Proof. destruct m; simpl; [eauto | contradiction]. Qed.

Lemma ok_intro m Q a : m = Ok a -> Q a -> ok m Q.
Proof. intros ->; auto. Qed.

Lemma obind_ok m k a : m = Ok a -> obind m k = k a.
Proof. intros ->; reflexivity. Qed.

Lemma obind_inv m k b : obind m k = Ok b -> exists a, m = Ok a /\ k a = Ok b.
Proof. destruct m; simpl; [eauto | discriminate]. Qed.

Lemma ensure_inv c b u : ensure c b = Ok u -> b = true.
Proof. destruct b; [auto | discriminate]. Qed.
End outcome_lemmas.

(** ** Memory

    An intrusive structure lives in a heap: addresses to records.  [None] is
    the null pointer. *)
Abbreviation ptr := (option nat) (only parsing).

Section memory.
Context {V : Type}.
Implicit Types (h : gmap nat V).

Definition deref h (a : nat) : outcome V :=
  match h !! a with Some v => Ok v | None => Panic bad_pointer end.

Definition store (a : nat) (f : V -> V) h : outcome (gmap nat V) :=
  match h !! a with Some v => Ok (<[a := f v]> h) | None => Panic bad_pointer end.

Definition nonnull (p : ptr) : outcome nat :=
  match p with Some a => Ok a | None => Panic bad_pointer end.

Lemma deref_ok h a v : h !! a = Some v -> deref h a = Ok v.
Proof. unfold deref; intros ->; reflexivity. Qed.

Lemma store_ok h a f v : h !! a = Some v -> store a f h = Ok (<[a := f v]> h).
Proof. unfold store; intros ->; reflexivity. Qed.
End memory.

(** ** Machine integers *)

(** The value of [z] in an unsigned integer of [w] bits. *)
Definition wrap (w : Z) (z : Z) : Z := (z mod 2 ^ w)%Z.

Definition u8  := wrap 8.
Definition u32 := wrap 32.
Definition u64 := wrap 64.

Lemma wrap_small w z : (0 <= z < 2 ^ w)%Z -> wrap w z = z.
Proof. apply Z.mod_small. Qed.

Lemma wrap_range w z : (0 <= w)%Z -> (0 <= wrap w z < 2 ^ w)%Z.
Proof. intros Hw. apply Z.mod_pos_bound. pose proof (Z.pow_pos_nonneg 2 w). lia. Qed.

Lemma u32_small z : (0 <= z < 2 ^ 32)%Z -> u32 z = z.
Proof. apply wrap_small. Qed.

Lemma wrap_wrap w z : (0 <= w)%Z -> wrap w (wrap w z) = wrap w z.
Proof. intros Hw. apply wrap_small, wrap_range; assumption. Qed.

(** [1u << n]. *)
Definition bit (n : nat) : Z := Z.shiftl 1 (Z.of_nat n).

(** [std::countr_zero] of a [w]-bit integer: the lowest set bit, or [w]. *)
Fixpoint pos_countr_zero (p : positive) : nat :=
  match p with
  | xO q => S (pos_countr_zero q)
  | _ => 0
  end.

Definition countr_zero (w : nat) (z : Z) : nat :=
  match z with Zpos p => pos_countr_zero p | _ => w end.

Section bits.
Local Open Scope Z_scope.

Lemma testbit_bit n k : Z.testbit (bit n) (Z.of_nat k) = bool_decide (n = k).
Proof.
  unfold bit. rewrite Z.shiftl_1_l, Z.pow2_bits_eqb by lia.
  case_bool_decide as E; [subst; apply Z.eqb_refl | apply Z.eqb_neq; lia].
Qed.

Lemma bit_pos n : 0 < bit n.
Proof. unfold bit. rewrite Z.shiftl_1_l. apply Z.pow_pos_nonneg; lia. Qed.

Lemma testbit_high z w k : 0 <= z < 2 ^ w -> (w <= k) -> Z.testbit z k = false.
Proof.
  intros Hz Hk. destruct (decide (z = 0)) as [-> | Hnz]; [apply Z.bits_0 |].
  apply Z.bits_above_log2; [lia |].
  assert (Z.log2 z < w); [| lia]. apply Z.log2_lt_pow2; lia.
Qed.

(** Bounds of a [w]-bit value from its bits. *)
Lemma bounded_by_bits z w : 0 <= w -> 0 <= z ->
  (forall k, w <= k -> Z.testbit z k = false) -> 0 <= z < 2 ^ w.
Proof.
  intros Hw Hz Hb. split; [assumption |].
  destruct (decide (z = 0)) as [-> | Hnz]; [apply Z.pow_pos_nonneg; lia |].
  apply Z.log2_lt_pow2; [lia |].
  destruct (decide (Z.log2 z < w)) as [| Hge]; [assumption |].
  pose proof (Z.bit_log2 z ltac:(lia)) as Hbit.
  rewrite Hb in Hbit by lia. discriminate.
Qed.

Lemma pos_countr_zero_spec p :
  Z.testbit (Zpos p) (Z.of_nat (pos_countr_zero p)) = true /\
  (forall k, (k < pos_countr_zero p)%nat -> Z.testbit (Zpos p) (Z.of_nat k) = false).
Proof.
  induction p as [p IH | p IH |]; cbn [pos_countr_zero].
  - split; [reflexivity | intros; lia].
  - rewrite Pos2Z.inj_xO, Nat2Z.inj_succ. split.
    + rewrite Z.double_bits_succ. apply IH.
    + intros [| k] Hk; [apply Z.testbit_even_0 |].
      rewrite Nat2Z.inj_succ, Z.double_bits_succ. apply IH. lia.
  - split; [reflexivity | intros; lia].
Qed.

(** [countr_zero] is the least set bit. *)
Lemma countr_zero_spec w z : 0 < z ->
  Z.testbit z (Z.of_nat (countr_zero w z)) = true /\
  (forall k, (k < countr_zero w z)%nat -> Z.testbit z (Z.of_nat k) = false).
Proof. intros Hz. destruct z; try lia. apply pos_countr_zero_spec. Qed.

Lemma countr_zero_unique w z n : 0 < z ->
  Z.testbit z (Z.of_nat n) = true ->
  (forall k, (k < n)%nat -> Z.testbit z (Z.of_nat k) = false) ->
  countr_zero w z = n.
Proof.
  intros Hz Hn Hlt. destruct (countr_zero_spec w z Hz) as [Hc Hcl].
  destruct (lt_eq_lt_dec (countr_zero w z) n) as [[H | H] | H]; [| assumption |].
  - rewrite Hlt in Hc by assumption. discriminate.
  - rewrite Hcl in Hn by assumption. discriminate.
Qed.

Lemma land_low_mask_zero z p : 0 <= z ->
  Z.land z (bit p - 1) = 0 <->
  (forall k, (k < p)%nat -> Z.testbit z (Z.of_nat k) = false).
Proof.
  intros Hz.
  assert (Hm : bit p - 1 = Z.ones (Z.of_nat p)).
  { unfold bit. rewrite Z.shiftl_1_l, Z.ones_equiv. lia. }
  rewrite Hm. split.
  - intros H k Hk.
    assert (Hb : Z.testbit (Z.land z (Z.ones (Z.of_nat p))) (Z.of_nat k) = false)
      by (rewrite H; apply Z.bits_0).
    rewrite Z.land_spec, Z.ones_spec_low, andb_true_r in Hb by lia. assumption.
  - intros H. apply Z.bits_inj'. intros k Hk.
    rewrite Z.bits_0, Z.land_spec.
    destruct (decide (k < Z.of_nat p)) as [Hlt | Hge].
    + rewrite <- (Z2Nat.id k) by lia. rewrite H by lia. reflexivity.
    + rewrite Z.ones_spec_high by lia. apply andb_false_r.
Qed.

Lemma nonzero_has_bit z : 0 < z -> exists k, Z.testbit z (Z.of_nat k) = true.
Proof. intros Hz. exists (countr_zero 32 z). apply countr_zero_spec, Hz. Qed.
End bits.

(** A [w]-bit flag word: the operations [m |= 1u << n] and [m &= ~(1u << n)]. *)
Definition set_bit (m : Z) (n : nat) : Z := Z.lor m (bit n).
Definition clear_bit (w : Z) (m : Z) (n : nat) : Z := Z.land m (wrap w (Z.lnot (bit n))).

Section flag_words.
Local Open Scope Z_scope.

Lemma testbit_set_bit m n k :
  Z.testbit (set_bit m n) (Z.of_nat k) = Z.testbit m (Z.of_nat k) || bool_decide (n = k).
Proof. unfold set_bit. rewrite Z.lor_spec, testbit_bit. reflexivity. Qed.

Lemma testbit_clear_bit w m n k : 0 <= m < 2 ^ w -> 0 <= w ->
  Z.testbit (clear_bit w m n) (Z.of_nat k) =
  Z.testbit m (Z.of_nat k) && negb (bool_decide (n = k)).
Proof.
  intros Hm Hw. unfold clear_bit, wrap. rewrite Z.land_spec.
  destruct (decide (Z.of_nat k < w)) as [Hk | Hk].
  - rewrite Z.mod_pow2_bits_low by lia.
    rewrite Z.lnot_spec, testbit_bit by lia. reflexivity.
  - rewrite (testbit_high m w) by lia. reflexivity.
Qed.

Lemma set_bit_range w m n : 0 <= m < 2 ^ w -> Z.of_nat n < w -> 0 <= set_bit m n < 2 ^ w.
Proof.
  intros Hm Hn. apply bounded_by_bits; [lia | |].
  - unfold set_bit. apply Z.lor_nonneg. split; [lia |]. pose proof (bit_pos n). lia.
  - intros k Hk. unfold set_bit. rewrite Z.lor_spec, (testbit_high m w) by lia.
    unfold bit. rewrite Z.shiftl_1_l, Z.pow2_bits_eqb by lia.
    apply Z.eqb_neq. lia.
Qed.

Lemma clear_bit_range w m n : 0 <= m < 2 ^ w -> 0 <= w -> 0 <= clear_bit w m n < 2 ^ w.
Proof.
  intros Hm Hw. apply bounded_by_bits; [lia | |].
  - unfold clear_bit. apply Z.land_nonneg. lia.
  - intros k Hk. unfold clear_bit. rewrite Z.land_spec, (testbit_high m w) by lia.
    reflexivity.
Qed.

Lemma flag_word_zero m : 0 <= m ->
  m = 0 <-> (forall k, Z.testbit m (Z.of_nat k) = false).
Proof.
  intros Hm. split; [intros ->; intros; apply Z.bits_0 |].
  intros H. apply Z.bits_inj'. intros k Hk.
  rewrite Z.bits_0, <- (Z2Nat.id k) by lia. apply H.
Qed.
End flag_words.

(** ** Lists *)

Lemma filter_keep_all {A} (P : A -> Prop) `{!forall x, Decision (P x)} (l : list A) :
  (forall x, x ∈ l -> P x) -> filter P l = l.
Proof.
  intros HP. induction l as [| x l IH]; [reflexivity |].
  rewrite filter_cons_True by (apply HP; left). f_equal. apply IH. set_solver.
Qed.

Lemma StronglySorted_weaken {A} (R S : A -> A -> Prop) (l : list A) :
  (forall a b, R a b -> S a b) -> StronglySorted R l -> StronglySorted S l.
Proof.
  intros HRS Hl. induction Hl as [| a l _ IH Ha]; constructor; [exact IH |].
  eapply Forall_impl; [exact Ha | auto].
Qed.

Lemma StronglySorted_app_remove {A} (R : A -> A -> Prop) (l1 l2 : list A) x :
  StronglySorted R (l1 ++ x :: l2) -> StronglySorted R (l1 ++ l2).
Proof.
  induction l1 as [| y l1 IH]; simpl; intros Hs; apply StronglySorted_inv in Hs as [Hs Hy]; [exact Hs |].
  constructor; [auto |]. rewrite Forall_app, Forall_cons in Hy. rewrite Forall_app. tauto.
Qed.

(** ** Stateful operations: a state that can be stopped by a check *)

Definition M (S A : Type) := S -> outcome (A * S).

Section monad.
Context {S : Type}.

Definition kret {A} (a : A) : M S A := fun s => Ok (a, s).
Definition kbind {A B} (m : M S A) (k : A -> M S B) : M S B :=
  fun s => match m s with Ok (a, s') => k a s' | Panic c => Panic c end.
Definition kensure (c : check) (b : bool) : M S unit :=
  fun s => if b then Ok (tt, s) else Panic c.
Definition kget {A} (f : S -> A) : M S A := fun s => Ok (f s, s).
Definition kmodify (f : S -> S) : M S unit := fun s => Ok (tt, f s).
Definition klift {A} (m : outcome A) : M S A :=
  fun s => match m with Ok a => Ok (a, s) | Panic c => Panic c end.
End monad.

Notation "'let*' x ':=' m 'in' k" := (kbind m (fun x => k))
  (at level 10, x name, m at level 200, k at level 200,
   format "'[v' 'let*'  x  ':='  m  'in' '/' k ']'") : cyros_scope.
Notation "'let*' ' p ':=' m 'in' k" := (kbind m (fun p => k))
  (at level 10, p strict pattern, m at level 200, k at level 200) : cyros_scope.
Notation "m ';;*' k" := (kbind m (fun _ => k))
  (at level 199, right associativity) : cyros_scope.

(** [wp m Q s]: [m] run in [s] finishes, no check failing on the way, with a
    result and a state in [Q]. *)
Definition wp {S A} (m : M S A) (Q : A -> S -> Prop) (s : S) : Prop :=
  match m s with Ok (a, s') => Q a s' | Panic _ => False end.

Section wp.
Context {S A B : Type}.
Implicit Types (s : S) (Q : A -> S -> Prop).

Lemma wp_ret (a : A) Q s : Q a s -> wp (kret a) Q s.
Proof. auto. Qed.

Lemma wp_bind (m : M S A) (k : A -> M S B) R s :
  wp m (fun a => wp (k a) R) s -> wp (kbind m k) R s.
Proof. unfold wp, kbind. destruct (m s) as [[a s'] |]; auto. Qed.

Lemma wp_mono (m : M S A) Q R s :
  wp m Q s -> (forall a s', Q a s' -> R a s') -> wp m R s.
Proof. unfold wp. destruct (m s) as [[a s'] |]; auto. Qed.

Lemma wp_ensure c b (R : unit -> S -> Prop) s :
  b = true -> R tt s -> wp (kensure c b) R s.
Proof. intros ->. auto. Qed.

Lemma wp_get (f : S -> A) Q s : Q (f s) s -> wp (kget f) Q s.
Proof. auto. Qed.

Lemma wp_modify f (R : unit -> S -> Prop) s :
  R tt (f s) -> wp (kmodify f) R s.
Proof. auto. Qed.

Lemma wp_lift (m : outcome A) Q s : ok m (fun a => Q a s) -> wp (klift m) Q s.
Proof. unfold wp, klift. destruct m; auto. Qed.

Lemma wp_and (m : M S A) Q R s : wp m Q s -> wp m R s -> wp m (fun a s' => Q a s' /\ R a s') s.
Proof. unfold wp. destruct (m s) as [[a s'] |]; auto. Qed.

Lemma wp_elim (m : M S A) Q s : wp m Q s -> exists a s', m s = Ok (a, s') /\ Q a s'.
Proof. unfold wp. destruct (m s) as [[a s'] |]; [eauto | contradiction]. Qed.
End wp.
