(* ===== verification/Chain.v ===== *)
(** * Intrusive lists in a heap

    The thread ready queue, the holder list, the intake stack and the wait
    queue are all singly linked through a field of the records they hold.
    This file relates such a structure to a Rocq list, once, for any link
    field: [lseg link h p l q] says that following [link] from the pointer [p]
    visits exactly the addresses [l] and arrives at [q]. *)

From S2P Require Import Prelude.

Section chain.
Context {V : Type} (link : V -> option nat).
Implicit Types (h : gmap nat V) (l : list nat) (p q : option nat) (v : V).

Fixpoint lseg h p l q : Prop :=
  match l with
  | [] => p = q
  | x :: l' => p = Some x /\ exists v, h !! x = Some v /\ lseg h (link v) l' q
  end.

(** The list at [p], ended by the null pointer. *)
Definition chain h p l : Prop := lseg h p l None.

Lemma lseg_app h p l1 l2 q :
  lseg h p (l1 ++ l2) q <-> exists m, lseg h p l1 m /\ lseg h m l2 q.
Proof.
  revert p. induction l1 as [| x l1 IH]; intros p; simpl.
  - split; [intros H; exists p; auto | intros (m & -> & H); assumption].
  - split.
    + intros [-> (v & Hv & H)]. apply IH in H as (m & H1 & H2). eauto 8.
    + intros (m & [-> (v & Hv & H1)] & H2). split; [reflexivity |].
      exists v. split; [assumption |]. apply IH. eauto.
Qed.

Lemma lseg_in_heap h p l q x : lseg h p l q -> x ∈ l -> exists v, h !! x = Some v.
Proof.
  revert p. induction l as [| y l IH]; intros p H Hx; [inversion Hx |].
  destruct H as [-> (v & Hv & H)]. apply elem_of_cons in Hx as [-> | Hx]; eauto.
Qed.

(** Only the links of the members matter. *)
Lemma lseg_frame h h' p l q :
  (forall x, x ∈ l -> link <$> h' !! x = link <$> h !! x) ->
  lseg h p l q -> lseg h' p l q.
Proof.
  revert p. induction l as [| x l IH]; intros p Heq H; [assumption |].
  destruct H as [-> (v & Hv & H)]. split; [reflexivity |].
  pose proof (Heq x ltac:(left)) as Hx. rewrite Hv in Hx.
  destruct (h' !! x) as [v' |] eqn:Hv'; [| discriminate].
  injection Hx as Hx. exists v'. split; [reflexivity |].
  rewrite Hx. apply IH; [| assumption]. intros y Hy. apply Heq. right. assumption.
Qed.

Lemma lseg_insert_ne h p l q x v : x ∉ l -> lseg h p l q -> lseg (<[x := v]> h) p l q.
Proof.
  intros Hx. apply lseg_frame. intros y Hy.
  rewrite lookup_insert_ne; [reflexivity | congruence].
Qed.

(** A list ended by null is determined by where it starts. *)
Lemma chain_det h p l1 l2 : chain h p l1 -> chain h p l2 -> l1 = l2.
Proof.
  unfold chain. revert p l2. induction l1 as [| x l1 IH]; intros p [| y l2]; simpl.
  - reflexivity.
  - intros -> [H _]. discriminate.
  - intros [H _] ->. discriminate.
  - intros [-> (v & Hv & H1)] [[= ->] (v' & Hv' & H2)].
    rewrite Hv in Hv'. injection Hv' as ->. f_equal. eauto.
Qed.

(** ... and so has no cycle. *)
Lemma chain_NoDup h p l : chain h p l -> NoDup l.
Proof.
  unfold chain. revert p. induction l as [| x l IH]; intros p H; [constructor |].
  constructor.
  - intros Hx. apply list_elem_of_split in Hx as (l1 & l2 & ->).
    pose proof H as H'. simpl in H. destruct H as [-> (v & Hv & H)].
    apply lseg_app in H as (m & _ & H). assert (Hm : m = Some x) by apply H. subst m.
    pose proof (chain_det h (Some x) _ _ H' H) as E.
    apply (f_equal length) in E. simpl in E. rewrite length_app in E. simpl in E. lia.
  - destruct H as [_ (v & _ & H)]. eauto.
Qed.

Lemma lseg_length h p l q : NoDup l -> lseg h p l q -> length l <= size h.
Proof.
  intros Hnd H.
  assert (Hs : list_to_set l ⊆@{gset nat} dom h).
  { intros x Hx. apply elem_of_list_to_set in Hx.
    destruct (lseg_in_heap _ _ _ _ _ H Hx) as [v Hv]. apply elem_of_dom. eauto. }
  apply subseteq_size in Hs. rewrite size_list_to_set, size_dom in Hs by assumption.
  assumption.
Qed.

Lemma chain_length h p l : chain h p l -> length l <= size h.
Proof. intros H. eapply lseg_length; [eapply chain_NoDup |]; exact H. Qed.

Lemma lseg_snoc_inv h p l x q : lseg h p (l ++ [x]) q ->
  exists v, h !! x = Some v /\ link v = q /\ lseg h p l (Some x).
Proof.
  intros H. apply lseg_app in H as (m & H1 & -> & v & Hv & <-). eauto.
Qed.

(** Pointing the last member elsewhere. *)
Lemma lseg_relink_last h p l x q v' :
  NoDup (l ++ [x]) -> lseg h p (l ++ [x]) q ->
  lseg (<[x := v']> h) p (l ++ [x]) (link v').
Proof.
  intros Hnd H. apply lseg_snoc_inv in H as (v & Hv & Hq & H).
  apply lseg_app. exists (Some x). split.
  - apply lseg_insert_ne; [| assumption].
    apply NoDup_app in Hnd as (_ & Hd & _). intros Hx. apply (Hd x Hx). left.
  - simpl. split; [reflexivity |]. exists v'. rewrite lookup_insert_eq. auto.
Qed.

(** A new member at the front. *)
Lemma chain_push_front h p l x v :
  x ∉ l -> link v = p -> chain h p l -> chain (<[x := v]> h) (Some x) (x :: l).
Proof.
  intros Hx <- H. split; [reflexivity |]. exists v. rewrite lookup_insert_eq.
  split; [reflexivity |]. apply lseg_insert_ne; assumption.
Qed.

(** A new member at the back. *)
Lemma chain_push_back h p l t x vt vx :
  x ∉ l ++ [t] -> link vx = None -> link vt = Some x ->
  chain h p (l ++ [t]) ->
  chain (<[t := vt]> (<[x := vx]> h)) p ((l ++ [t]) ++ [x]).
Proof.
  intros Hx Hvx Hvt H. pose proof (chain_NoDup _ _ _ H) as Hnd.
  apply lseg_app. exists (Some x). split.
  - rewrite <- Hvt. eapply lseg_relink_last; [assumption |].
    apply lseg_insert_ne; [assumption | exact H].
  - simpl. split; [reflexivity |]. exists vx.
    rewrite lookup_insert_ne; [| set_solver]. rewrite lookup_insert_eq. auto.
Qed.

(** Taking a member out from behind its predecessor. *)
Lemma chain_unlink h p l1 y x l2 vx vy :
  chain h p (l1 ++ y :: x :: l2) -> h !! x = Some vx -> link vy = link vx ->
  chain (<[y := vy]> h) p (l1 ++ y :: l2).
Proof.
  intros H Hx Hvy. pose proof (chain_NoDup _ _ _ H) as Hnd.
  replace (l1 ++ y :: x :: l2) with ((l1 ++ [y]) ++ x :: l2) in * by (rewrite <- app_assoc; reflexivity).
  replace (l1 ++ y :: l2) with ((l1 ++ [y]) ++ l2) by (rewrite <- app_assoc; reflexivity).
  apply NoDup_app in Hnd as (Hnd1 & Hd & Hnd2).
  apply lseg_app in H as (m & H1 & [-> (v & Hv & H2)]).
  rewrite Hx in Hv. injection Hv as <-.
  apply lseg_app. exists (link vy). split.
  - eapply lseg_relink_last; eassumption.
  - rewrite Hvy. apply lseg_insert_ne; [| exact H2].
    intros Hy. apply (Hd y); [set_solver | right; assumption].
Qed.

(** A new member behind one already there. *)
Lemma chain_insert_after h p l1 x l2 n vx vx' vn :
  n ∉ l1 ++ x :: l2 -> h !! x = Some vx -> link vn = link vx -> link vx' = Some n ->
  chain h p (l1 ++ x :: l2) ->
  chain (<[x := vx']> (<[n := vn]> h)) p (l1 ++ x :: n :: l2).
Proof.
  intros Hn Hx Hvn Hvx H. pose proof (chain_NoDup _ _ _ H) as Hnd.
  replace (l1 ++ x :: l2) with ((l1 ++ [x]) ++ l2) in * by (rewrite <- app_assoc; reflexivity).
  replace (l1 ++ x :: n :: l2) with ((l1 ++ [x]) ++ n :: l2) by (rewrite <- app_assoc; reflexivity).
  apply lseg_app in H as (m & H1 & H2).
  assert (Hm : m = link vx).
  { apply lseg_snoc_inv in H1 as (v & Hv & <- & _). congruence. }
  apply NoDup_app in Hnd as (Hnd1 & Hd & Hnd2). apply lseg_app. exists (Some n). split.
  - rewrite <- Hvx. apply lseg_relink_last with m; [assumption |].
    apply lseg_insert_ne; [set_solver | assumption].
  - split; [reflexivity |]. exists vn. rewrite lookup_insert_ne by set_solver.
    rewrite lookup_insert_eq. split; [reflexivity |].
    rewrite Hvn, <- Hm. apply lseg_insert_ne; [| apply lseg_insert_ne; [set_solver | exact H2]].
    intros Hx2. apply (Hd x); [set_solver | assumption].
Qed.

Lemma chain_head h p l : chain h p l -> p = head l.
Proof. destruct l; simpl; [auto | intros [-> _]; reflexivity]. Qed.

(** Reading the head, and what is left. *)
Lemma chain_cons_inv h a l p : chain h p (a :: l) ->
  p = Some a /\ exists v, h !! a = Some v /\ chain h (link v) l.
Proof. intros H. exact H. Qed.

(** *** A list with a tail pointer *)
Definition tailed h (hd tl : option nat) l : Prop := chain h hd l /\ tl = last l.

Lemma tailed_nil h hd tl : tailed h hd tl [] <-> hd = None /\ tl = None.
Proof. unfold tailed, chain; simpl. tauto. Qed.

Lemma tailed_empty h hd tl l : tailed h hd tl l -> hd = None <-> l = [].
Proof.
  intros [H _]. split; [intros ->; destruct l; [reflexivity | destruct H; discriminate] |].
  intros ->. exact H.
Qed.

Lemma tailed_frame h h' hd tl l :
  (forall x, x ∈ l -> link <$> h' !! x = link <$> h !! x) ->
  tailed h hd tl l -> tailed h' hd tl l.
Proof. intros Hf [H Ht]. split; [eapply lseg_frame; eassumption | assumption]. Qed.
End chain.
