(* ===== verification/State.v ===== *)
(** * The kernel's data

    The records of threading_subsystem.hpp, waitable.hpp, base_mutex.hpp,
    scheduler.hpp and kernel.cpp, one field per member the operations use, and
    the state monad the operations are written in.  Thread control blocks,
    wait nodes and mutexes live in heaps, addresses to records, because the
    code links them by pointer.  Not represented: a thread's stack, entry
    function and saved port context, and the locks themselves, which bound
    each atomic step instead. *)

From S2P Require Import Prelude.

(** ** Configuration: config/config.hpp, checked by validate_config.cpp *)
Class Config := {
  cores : nat;
  max_priorities : nat;
  trace_records_per_core : nat;
  port_core_count : nat;    (* CYROS_PORT_CORE_COUNT, the port's *)
  cores_valid : 1 <= cores <= port_core_count;
  max_priorities_valid : 1 <= max_priorities < 32;
  trace_records_valid :
    Z.land (Z.of_nat trace_records_per_core) (Z.of_nat trace_records_per_core - 1) = 0%Z
}.

(** The values config/config.hpp ships with. *)
#[export] Program Instance default_config : Config :=
  {| cores := 4; max_priorities := 31; trace_records_per_core := 0;
     port_core_count := 4 |}.
Next Obligation. lia. Qed.
Next Obligation. lia. Qed.
Next Obligation. reflexivity. Qed.

(** ** Threads *)
Module ThreadState.
Inductive thread_state := created | ready | running | blocked | terminated.
#[global] Instance thread_state_eq_dec : EqDecision thread_state.
Proof. solve_decision. Defined.
End ThreadState.
Export (notations) ThreadState.
Abbreviation thread_state := ThreadState.thread_state.

Module ThreadDisposition.
Inductive thread_disposition := none | prepared | terminating.
#[global] Instance thread_disposition_eq_dec : EqDecision thread_disposition.
Proof. solve_decision. Defined.
End ThreadDisposition.
Abbreviation thread_disposition := ThreadDisposition.thread_disposition.

Module ThreadRequest.
Inductive thread_request := make_ready.
End ThreadRequest.
Abbreviation thread_request := ThreadRequest.thread_request.

Module ReschedulePolicy.
Inductive reschedule_policy := automatic | never | always.
#[global] Instance reschedule_policy_eq_dec : EqDecision reschedule_policy.
Proof. solve_decision. Defined.
End ReschedulePolicy.
Abbreviation reschedule_policy := ReschedulePolicy.reschedule_policy.

Module ScheduleHint.
Inductive schedule_hint := unwarranted | warranted | rescheduled.
#[global] Instance schedule_hint_eq_dec : EqDecision schedule_hint.
Proof. solve_decision. Defined.
End ScheduleHint.
Abbreviation schedule_hint := ScheduleHint.schedule_hint.

Module DepartureReason.
Inductive departure_reason := yielded | preempted | parked | exited.
#[global] Instance departure_reason_eq_dec : EqDecision departure_reason.
Proof. solve_decision. Defined.
End DepartureReason.
Abbreviation departure_reason := DepartureReason.departure_reason.

Definition max_held_per_thread : nat := 4.

(** A [wait_queue]: the head of its list of wait nodes. *)
Record wait_queue := WaitQueue {
  wq_head : option nat
}.

Definition set_wq_head (x : option nat) (r : wait_queue) : wait_queue :=
  WaitQueue x.

(** A [cancel_signal]: its own queue and the level it raises. *)
Record cancel_signal := CancelSignal {
  cs_queue : wait_queue;
  raised_flag : bool
}.

Definition set_cs_queue (x : wait_queue) (r : cancel_signal) : cancel_signal :=
  CancelSignal x (raised_flag r).
Definition set_raised_flag (x : bool) (r : cancel_signal) : cancel_signal :=
  CancelSignal (cs_queue r) x.

(** A [wait_queue::wait_node], on its waiter's stack. *)
Record wait_node := WaitNode {
  node_owner : nat;
  node_next : option nat
}.

Definition set_node_owner (x : nat) (r : wait_node) : wait_node :=
  WaitNode x (node_next r).
Definition set_node_next (x : option nat) (r : wait_node) : wait_node :=
  WaitNode (node_owner r) x.

(** An [inheritance_cache]: the best waiter's base priority, and whether a waiter may hold something. *)
Record inheritance_cache := InheritanceCache {
  top_priority : nat;
  may_have_bridges : bool
}.

Definition set_top_priority (x : nat) (r : inheritance_cache) : inheritance_cache :=
  InheritanceCache x (may_have_bridges r).
Definition set_may_have_bridges (x : bool) (r : inheritance_cache) : inheritance_cache :=
  InheritanceCache (top_priority r) x.

(** A [base_mutex]. Its [pi_wait_queue] is the pair of [mutex_queue] and [mutex_pi]. *)
Record base_mutex := BaseMutex {
  mutex_queue : wait_queue;
  mutex_pi : inheritance_cache;
  owner : option nat;
  ceiling_priority : nat;
  held_slot : nat
}.

Definition set_mutex_queue (x : wait_queue) (r : base_mutex) : base_mutex :=
  BaseMutex x (mutex_pi r) (owner r) (ceiling_priority r) (held_slot r).
Definition set_mutex_pi (x : inheritance_cache) (r : base_mutex) : base_mutex :=
  BaseMutex (mutex_queue r) x (owner r) (ceiling_priority r) (held_slot r).
Definition set_owner (x : option nat) (r : base_mutex) : base_mutex :=
  BaseMutex (mutex_queue r) (mutex_pi r) x (ceiling_priority r) (held_slot r).
Definition set_ceiling_priority (x : nat) (r : base_mutex) : base_mutex :=
  BaseMutex (mutex_queue r) (mutex_pi r) (owner r) x (held_slot r).
Definition set_held_slot (x : nat) (r : base_mutex) : base_mutex :=
  BaseMutex (mutex_queue r) (mutex_pi r) (owner r) (ceiling_priority r) x.

(** A [thread_control_block]. A link field that points at its own block is not linked. *)
Record thread_control_block := ThreadControlBlock {
  state : thread_state;
  disposition : thread_disposition;
  next : option nat;
  thread_id : Z;
  base_priority : nat;
  pinned_core : nat;
  affinity : Z;
  held_slots : list (option nat);
  held_mask : Z;
  blocked_on : option nat;
  pending_requests : Z;
  resume_token : bool;
  intake_next : option nat;
  holder_next : option nat;
  termination : cancel_signal;
  wait_record : option nat
}.

Definition set_state (x : thread_state) (r : thread_control_block) : thread_control_block :=
  ThreadControlBlock x (disposition r) (next r) (thread_id r) (base_priority r) (pinned_core r) (affinity r) (held_slots r) (held_mask r) (blocked_on r) (pending_requests r) (resume_token r) (intake_next r) (holder_next r) (termination r) (wait_record r).
Definition set_disposition (x : thread_disposition) (r : thread_control_block) : thread_control_block :=
  ThreadControlBlock (state r) x (next r) (thread_id r) (base_priority r) (pinned_core r) (affinity r) (held_slots r) (held_mask r) (blocked_on r) (pending_requests r) (resume_token r) (intake_next r) (holder_next r) (termination r) (wait_record r).
Definition set_next (x : option nat) (r : thread_control_block) : thread_control_block :=
  ThreadControlBlock (state r) (disposition r) x (thread_id r) (base_priority r) (pinned_core r) (affinity r) (held_slots r) (held_mask r) (blocked_on r) (pending_requests r) (resume_token r) (intake_next r) (holder_next r) (termination r) (wait_record r).
Definition set_thread_id (x : Z) (r : thread_control_block) : thread_control_block :=
  ThreadControlBlock (state r) (disposition r) (next r) x (base_priority r) (pinned_core r) (affinity r) (held_slots r) (held_mask r) (blocked_on r) (pending_requests r) (resume_token r) (intake_next r) (holder_next r) (termination r) (wait_record r).
Definition set_base_priority (x : nat) (r : thread_control_block) : thread_control_block :=
  ThreadControlBlock (state r) (disposition r) (next r) (thread_id r) x (pinned_core r) (affinity r) (held_slots r) (held_mask r) (blocked_on r) (pending_requests r) (resume_token r) (intake_next r) (holder_next r) (termination r) (wait_record r).
Definition set_pinned_core (x : nat) (r : thread_control_block) : thread_control_block :=
  ThreadControlBlock (state r) (disposition r) (next r) (thread_id r) (base_priority r) x (affinity r) (held_slots r) (held_mask r) (blocked_on r) (pending_requests r) (resume_token r) (intake_next r) (holder_next r) (termination r) (wait_record r).
Definition set_affinity (x : Z) (r : thread_control_block) : thread_control_block :=
  ThreadControlBlock (state r) (disposition r) (next r) (thread_id r) (base_priority r) (pinned_core r) x (held_slots r) (held_mask r) (blocked_on r) (pending_requests r) (resume_token r) (intake_next r) (holder_next r) (termination r) (wait_record r).
Definition set_held_slots (x : list (option nat)) (r : thread_control_block) : thread_control_block :=
  ThreadControlBlock (state r) (disposition r) (next r) (thread_id r) (base_priority r) (pinned_core r) (affinity r) x (held_mask r) (blocked_on r) (pending_requests r) (resume_token r) (intake_next r) (holder_next r) (termination r) (wait_record r).
Definition set_held_mask (x : Z) (r : thread_control_block) : thread_control_block :=
  ThreadControlBlock (state r) (disposition r) (next r) (thread_id r) (base_priority r) (pinned_core r) (affinity r) (held_slots r) x (blocked_on r) (pending_requests r) (resume_token r) (intake_next r) (holder_next r) (termination r) (wait_record r).
Definition set_blocked_on (x : option nat) (r : thread_control_block) : thread_control_block :=
  ThreadControlBlock (state r) (disposition r) (next r) (thread_id r) (base_priority r) (pinned_core r) (affinity r) (held_slots r) (held_mask r) x (pending_requests r) (resume_token r) (intake_next r) (holder_next r) (termination r) (wait_record r).
Definition set_pending_requests (x : Z) (r : thread_control_block) : thread_control_block :=
  ThreadControlBlock (state r) (disposition r) (next r) (thread_id r) (base_priority r) (pinned_core r) (affinity r) (held_slots r) (held_mask r) (blocked_on r) x (resume_token r) (intake_next r) (holder_next r) (termination r) (wait_record r).
Definition set_resume_token (x : bool) (r : thread_control_block) : thread_control_block :=
  ThreadControlBlock (state r) (disposition r) (next r) (thread_id r) (base_priority r) (pinned_core r) (affinity r) (held_slots r) (held_mask r) (blocked_on r) (pending_requests r) x (intake_next r) (holder_next r) (termination r) (wait_record r).
Definition set_intake_next (x : option nat) (r : thread_control_block) : thread_control_block :=
  ThreadControlBlock (state r) (disposition r) (next r) (thread_id r) (base_priority r) (pinned_core r) (affinity r) (held_slots r) (held_mask r) (blocked_on r) (pending_requests r) (resume_token r) x (holder_next r) (termination r) (wait_record r).
Definition set_holder_next (x : option nat) (r : thread_control_block) : thread_control_block :=
  ThreadControlBlock (state r) (disposition r) (next r) (thread_id r) (base_priority r) (pinned_core r) (affinity r) (held_slots r) (held_mask r) (blocked_on r) (pending_requests r) (resume_token r) (intake_next r) x (termination r) (wait_record r).
Definition set_termination (x : cancel_signal) (r : thread_control_block) : thread_control_block :=
  ThreadControlBlock (state r) (disposition r) (next r) (thread_id r) (base_priority r) (pinned_core r) (affinity r) (held_slots r) (held_mask r) (blocked_on r) (pending_requests r) (resume_token r) (intake_next r) (holder_next r) x (wait_record r).
Definition set_wait_record (x : option nat) (r : thread_control_block) : thread_control_block :=
  ThreadControlBlock (state r) (disposition r) (next r) (thread_id r) (base_priority r) (pinned_core r) (affinity r) (held_slots r) (held_mask r) (blocked_on r) (pending_requests r) (resume_token r) (intake_next r) (holder_next r) (termination r) x.

(** ** Per-core state *)

(** A [thread_ready_queue]. *)
Record thread_ready_queue := ThreadReadyQueue {
  rq_head : option nat;
  rq_tail : option nat
}.

Definition set_rq_head (x : option nat) (r : thread_ready_queue) : thread_ready_queue :=
  ThreadReadyQueue x (rq_tail r).
Definition set_rq_tail (x : option nat) (r : thread_ready_queue) : thread_ready_queue :=
  ThreadReadyQueue (rq_head r) x.

(** A [thread_ready_matrix]: a queue per priority and a bitmap of the non-empty ones. *)
Record thread_ready_matrix := ThreadReadyMatrix {
  matrix : list thread_ready_queue;
  bitmap : Z
}.

Definition set_matrix (x : list thread_ready_queue) (r : thread_ready_matrix) : thread_ready_matrix :=
  ThreadReadyMatrix x (bitmap r).
Definition set_bitmap (x : Z) (r : thread_ready_matrix) : thread_ready_matrix :=
  ThreadReadyMatrix (matrix r) x.

(** A [scheduler]. Every field belongs to its own core, [intake_head] apart. *)
Record scheduler := Scheduler {
  core_id : nat;
  pinned_thread_counter : Z;
  current_thread : option nat;
  idle_thread : option nat;
  ready_matrix : thread_ready_matrix;
  intake_head : option nat;
  holders_head : option nat;
  holders_tail : option nat;
  tie_rotor : Z
}.

Definition set_core_id (x : nat) (r : scheduler) : scheduler :=
  Scheduler x (pinned_thread_counter r) (current_thread r) (idle_thread r) (ready_matrix r) (intake_head r) (holders_head r) (holders_tail r) (tie_rotor r).
Definition set_pinned_thread_counter (x : Z) (r : scheduler) : scheduler :=
  Scheduler (core_id r) x (current_thread r) (idle_thread r) (ready_matrix r) (intake_head r) (holders_head r) (holders_tail r) (tie_rotor r).
Definition set_current_thread (x : option nat) (r : scheduler) : scheduler :=
  Scheduler (core_id r) (pinned_thread_counter r) x (idle_thread r) (ready_matrix r) (intake_head r) (holders_head r) (holders_tail r) (tie_rotor r).
Definition set_idle_thread (x : option nat) (r : scheduler) : scheduler :=
  Scheduler (core_id r) (pinned_thread_counter r) (current_thread r) x (ready_matrix r) (intake_head r) (holders_head r) (holders_tail r) (tie_rotor r).
Definition set_ready_matrix (x : thread_ready_matrix) (r : scheduler) : scheduler :=
  Scheduler (core_id r) (pinned_thread_counter r) (current_thread r) (idle_thread r) x (intake_head r) (holders_head r) (holders_tail r) (tie_rotor r).
Definition set_intake_head (x : option nat) (r : scheduler) : scheduler :=
  Scheduler (core_id r) (pinned_thread_counter r) (current_thread r) (idle_thread r) (ready_matrix r) x (holders_head r) (holders_tail r) (tie_rotor r).
Definition set_holders_head (x : option nat) (r : scheduler) : scheduler :=
  Scheduler (core_id r) (pinned_thread_counter r) (current_thread r) (idle_thread r) (ready_matrix r) (intake_head r) x (holders_tail r) (tie_rotor r).
Definition set_holders_tail (x : option nat) (r : scheduler) : scheduler :=
  Scheduler (core_id r) (pinned_thread_counter r) (current_thread r) (idle_thread r) (ready_matrix r) (intake_head r) (holders_head r) x (tie_rotor r).
Definition set_tie_rotor (x : Z) (r : scheduler) : scheduler :=
  Scheduler (core_id r) (pinned_thread_counter r) (current_thread r) (idle_thread r) (ready_matrix r) (intake_head r) (holders_head r) (holders_tail r) x.

(** ** What the kernel asks of the port, and what it traces *)

Module Trace.
(** [trace::event]. *)
Inductive event :=
  | thread_created | thread_ready | thread_running | thread_blocked
  | thread_terminated | remote_wake | mutex_acquired | mutex_released | user.
End Trace.

(** One call out of the kernel. Each names the core it is made on. *)
Inductive port_call :=
  | port_pend_reschedule (core : nat)
  | port_send_reschedule_ipi (core target : nat)
  | port_direct_switch (core prev next : nat)
  | port_owe_switch (core prev next : nat)
  | port_switch (core : nat) (capture : option nat) (next : nat)
  | port_thread_yield (core : nat)
  | port_start_first (core first : nat)
  | port_context_destroy (tcb : nat)
  | port_init
  | port_start_cores (count : nat)
  | trace_lifecycle_begins
  | trace_point (what : Trace.event) (tcb : nat).

(** [kernel_state] of kernel.cpp, the heaps its objects live in, and the calls made to the port so far, the latest first. *)
Record kernel_state := KernelState {
  tcbs : gmap nat thread_control_block;
  nodes : gmap nat wait_node;
  mutexes : gmap nat base_mutex;
  waitables : gmap nat wait_queue;
  signals : gmap nat cancel_signal;
  schedulers : list scheduler;
  initialised : bool;
  running : bool;
  active_threads : Z;
  thread_id_generator : Z;
  calls : list port_call
}.

Definition set_tcbs (x : gmap nat thread_control_block) (r : kernel_state) : kernel_state :=
  KernelState x (nodes r) (mutexes r) (waitables r) (signals r) (schedulers r) (initialised r) (running r) (active_threads r) (thread_id_generator r) (calls r).
Definition set_nodes (x : gmap nat wait_node) (r : kernel_state) : kernel_state :=
  KernelState (tcbs r) x (mutexes r) (waitables r) (signals r) (schedulers r) (initialised r) (running r) (active_threads r) (thread_id_generator r) (calls r).
Definition set_mutexes (x : gmap nat base_mutex) (r : kernel_state) : kernel_state :=
  KernelState (tcbs r) (nodes r) x (waitables r) (signals r) (schedulers r) (initialised r) (running r) (active_threads r) (thread_id_generator r) (calls r).
Definition set_waitables (x : gmap nat wait_queue) (r : kernel_state) : kernel_state :=
  KernelState (tcbs r) (nodes r) (mutexes r) x (signals r) (schedulers r) (initialised r) (running r) (active_threads r) (thread_id_generator r) (calls r).
Definition set_signals (x : gmap nat cancel_signal) (r : kernel_state) : kernel_state :=
  KernelState (tcbs r) (nodes r) (mutexes r) (waitables r) x (schedulers r) (initialised r) (running r) (active_threads r) (thread_id_generator r) (calls r).
Definition set_schedulers (x : list scheduler) (r : kernel_state) : kernel_state :=
  KernelState (tcbs r) (nodes r) (mutexes r) (waitables r) (signals r) x (initialised r) (running r) (active_threads r) (thread_id_generator r) (calls r).
Definition set_initialised (x : bool) (r : kernel_state) : kernel_state :=
  KernelState (tcbs r) (nodes r) (mutexes r) (waitables r) (signals r) (schedulers r) x (running r) (active_threads r) (thread_id_generator r) (calls r).
Definition set_running (x : bool) (r : kernel_state) : kernel_state :=
  KernelState (tcbs r) (nodes r) (mutexes r) (waitables r) (signals r) (schedulers r) (initialised r) x (active_threads r) (thread_id_generator r) (calls r).
Definition set_active_threads (x : Z) (r : kernel_state) : kernel_state :=
  KernelState (tcbs r) (nodes r) (mutexes r) (waitables r) (signals r) (schedulers r) (initialised r) (running r) x (thread_id_generator r) (calls r).
Definition set_thread_id_generator (x : Z) (r : kernel_state) : kernel_state :=
  KernelState (tcbs r) (nodes r) (mutexes r) (waitables r) (signals r) (schedulers r) (initialised r) (running r) (active_threads r) x (calls r).
Definition set_calls (x : list port_call) (r : kernel_state) : kernel_state :=
  KernelState (tcbs r) (nodes r) (mutexes r) (waitables r) (signals r) (schedulers r) (initialised r) (running r) (active_threads r) (thread_id_generator r) x.

(** ** The kernel's monad: [M] on the kernel's state *)

Abbreviation K := (M kernel_state).

(** Reading and writing the objects of the heaps. *)
Definition get_tcb (t : nat) : K thread_control_block :=
  fun s => match tcbs s !! t with Some v => Ok (v, s) | None => Panic bad_pointer end.
Definition modify_tcb (t : nat) (f : thread_control_block -> thread_control_block) : K unit :=
  fun s => match tcbs s !! t with
           | Some v => Ok (tt, set_tcbs (<[t := f v]> (tcbs s)) s)
           | None => Panic bad_pointer
           end.
Definition get_mutex (m : nat) : K base_mutex :=
  fun s => match mutexes s !! m with Some v => Ok (v, s) | None => Panic bad_pointer end.
Definition modify_mutex (m : nat) (f : base_mutex -> base_mutex) : K unit :=
  fun s => match mutexes s !! m with
           | Some v => Ok (tt, set_mutexes (<[m := f v]> (mutexes s)) s)
           | None => Panic bad_pointer
           end.
(** The wait queues and cancel signals that are objects of their own; a mutex's
    queue and a thread's termination are members of their records. *)
Definition get_waitable (w : nat) : K wait_queue :=
  fun s => match waitables s !! w with Some v => Ok (v, s) | None => Panic bad_pointer end.
Definition modify_waitable (w : nat) (f : wait_queue -> wait_queue) : K unit :=
  fun s => match waitables s !! w with
           | Some v => Ok (tt, set_waitables (<[w := f v]> (waitables s)) s)
           | None => Panic bad_pointer
           end.
Definition get_signal (x : nat) : K cancel_signal :=
  fun s => match signals s !! x with Some v => Ok (v, s) | None => Panic bad_pointer end.
Definition modify_signal (x : nat) (f : cancel_signal -> cancel_signal) : K unit :=
  fun s => match signals s !! x with
           | Some v => Ok (tt, set_signals (<[x := f v]> (signals s)) s)
           | None => Panic bad_pointer
           end.
Definition get_node (n : nat) : K wait_node :=
  fun s => match nodes s !! n with Some v => Ok (v, s) | None => Panic bad_pointer end.
Definition modify_node (n : nat) (f : wait_node -> wait_node) : K unit :=
  fun s => match nodes s !! n with
           | Some v => Ok (tt, set_nodes (<[n := f v]> (nodes s)) s)
           | None => Panic bad_pointer
           end.
(** [k.schedulers[c]]. *)
Definition get_scheduler (c : nat) : K scheduler :=
  fun s => match schedulers s !! c with Some v => Ok (v, s) | None => Panic bad_pointer end.
Definition modify_scheduler (c : nat) (f : scheduler -> scheduler) : K unit :=
  fun s => match schedulers s !! c with
           | Some v => Ok (tt, set_schedulers (<[c := f v]> (schedulers s)) s)
           | None => Panic bad_pointer
           end.
Definition emit (e : port_call) : K unit := kmodify (fun s => set_calls (e :: calls s) s).

(** *** Total correctness of the heap operations *)

Lemma wp_emit e (R : unit -> kernel_state -> Prop) s :
  R tt (set_calls (e :: calls s) s) -> wp (emit e) R s.
Proof. auto. Qed.

Lemma wp_get_tcb t v Q s : tcbs s !! t = Some v -> Q v s -> wp (get_tcb t) Q s.
Proof. unfold wp, get_tcb. intros ->. auto. Qed.
Lemma wp_modify_tcb t f v (Q : unit -> kernel_state -> Prop) s :
  tcbs s !! t = Some v -> Q tt (set_tcbs (<[t := f v]> (tcbs s)) s) ->
  wp (modify_tcb t f) Q s.
Proof. unfold wp, modify_tcb. intros ->. auto. Qed.
Lemma wp_get_mutex m v Q s : mutexes s !! m = Some v -> Q v s -> wp (get_mutex m) Q s.
Proof. unfold wp, get_mutex. intros ->. auto. Qed.
Lemma wp_modify_mutex m f v (Q : unit -> kernel_state -> Prop) s :
  mutexes s !! m = Some v -> Q tt (set_mutexes (<[m := f v]> (mutexes s)) s) ->
  wp (modify_mutex m f) Q s.
Proof. unfold wp, modify_mutex. intros ->. auto. Qed.
Lemma wp_get_waitable w v Q s : waitables s !! w = Some v -> Q v s -> wp (get_waitable w) Q s.
Proof. unfold wp, get_waitable. intros ->. auto. Qed.
Lemma wp_modify_waitable w f v (Q : unit -> kernel_state -> Prop) s :
  waitables s !! w = Some v -> Q tt (set_waitables (<[w := f v]> (waitables s)) s) ->
  wp (modify_waitable w f) Q s.
Proof. unfold wp, modify_waitable. intros ->. auto. Qed.
Lemma wp_get_signal x v Q s : signals s !! x = Some v -> Q v s -> wp (get_signal x) Q s.
Proof. unfold wp, get_signal. intros ->. auto. Qed.
Lemma wp_modify_signal x f v (Q : unit -> kernel_state -> Prop) s :
  signals s !! x = Some v -> Q tt (set_signals (<[x := f v]> (signals s)) s) ->
  wp (modify_signal x f) Q s.
Proof. unfold wp, modify_signal. intros ->. auto. Qed.
Lemma wp_get_node n v Q s : nodes s !! n = Some v -> Q v s -> wp (get_node n) Q s.
Proof. unfold wp, get_node. intros ->. auto. Qed.
Lemma wp_modify_node n f v (Q : unit -> kernel_state -> Prop) s :
  nodes s !! n = Some v -> Q tt (set_nodes (<[n := f v]> (nodes s)) s) ->
  wp (modify_node n f) Q s.
Proof. unfold wp, modify_node. intros ->. auto. Qed.
Lemma wp_get_scheduler c v Q s : schedulers s !! c = Some v -> Q v s -> wp (get_scheduler c) Q s.
Proof. unfold wp, get_scheduler. intros ->. auto. Qed.
Lemma wp_modify_scheduler c f v (Q : unit -> kernel_state -> Prop) s :
  schedulers s !! c = Some v -> Q tt (set_schedulers (<[c := f v]> (schedulers s)) s) ->
  wp (modify_scheduler c f) Q s.
Proof. unfold wp, modify_scheduler. intros ->. auto. Qed.

(** Peel one monadic step off a [wp] goal. *)
Ltac wp_step :=
  lazymatch goal with
  | |- wp (kbind _ _) _ _ => apply wp_bind
  | |- wp (kret _) _ _ => apply wp_ret
  | |- wp (kget _) _ _ => apply wp_get
  | |- wp (kmodify _) _ _ => apply wp_modify
  | |- wp (emit _) _ _ => apply wp_emit
  | |- wp (kensure _ _) _ _ => apply wp_ensure
  | |- wp (klift _) _ _ => apply wp_lift
  | |- wp (get_tcb _) _ _ => eapply wp_get_tcb
  | |- wp (modify_tcb _ _) _ _ => eapply wp_modify_tcb
  | |- wp (get_mutex _) _ _ => eapply wp_get_mutex
  | |- wp (modify_mutex _ _) _ _ => eapply wp_modify_mutex
  | |- wp (get_waitable _) _ _ => eapply wp_get_waitable
  | |- wp (modify_waitable _ _) _ _ => eapply wp_modify_waitable
  | |- wp (get_signal _) _ _ => eapply wp_get_signal
  | |- wp (modify_signal _ _) _ _ => eapply wp_modify_signal
  | |- wp (get_node _) _ _ => eapply wp_get_node
  | |- wp (modify_node _ _) _ _ => eapply wp_modify_node
  | |- wp (get_scheduler _) _ _ => eapply wp_get_scheduler
  | |- wp (modify_scheduler _ _) _ _ => eapply wp_modify_scheduler
  end.
