(* ===== verification/ReadyQueue.v ===== *)
(** * The ready structures: thread_ready_queue and thread_ready_matrix

    The operations of threading_subsystem.hpp and threading_subsystem.cpp on
    the heap of thread control blocks, as the code writes them, and their
    refinement to lists: a queue is a list of threads, and a matrix is one
    list per priority level. *)

From S2P Require Import Prelude Chain State.

Abbreviation heap := (gmap nat thread_control_block).

(** ** Predicates of a thread control block *)

Definition is_enqueued (t : nat) (v : thread_control_block) : bool :=
  negb (bool_decide (next v = Some t)).

Definition is_listed_holder (t : nat) (v : thread_control_block) : bool :=
  negb (bool_decide (holder_next v = Some t)).

Definition holds_nothing (v : thread_control_block) : bool := (held_mask v =? 0)%Z.

(** ** thread_ready_queue *)
Module ReadyQueue.
Definition empty (q : thread_ready_queue) : bool := bool_decide (rq_head q = None).

Definition push_back (t : nat) (q : thread_ready_queue) (h : heap) :
    outcome (thread_ready_queue * heap) :=
  let! v := deref h t in
  ensure assert_failed (negb (is_enqueued t v)) ;;!
  let! h := store t (set_next None) h in
  let! '(q, h) :=
    match rq_tail q with
    | Some tl => let! h := store tl (set_next (Some t)) h in Ok (q, h)
    | None => Ok (set_rq_head (Some t) q, h)
    end in
  Ok (set_rq_tail (Some t) q, h).

Definition push_front (t : nat) (q : thread_ready_queue) (h : heap) :
    outcome (thread_ready_queue * heap) :=
  let! v := deref h t in
  ensure assert_failed (negb (is_enqueued t v)) ;;!
  let! h := store t (set_next (rq_head q)) h in
  let q := set_rq_head (Some t) q in
  let q := match rq_tail q with None => set_rq_tail (Some t) q | Some _ => q end in
  Ok (q, h).

Definition pop_front (q : thread_ready_queue) (h : heap) :
    outcome (option nat * thread_ready_queue * heap) :=
  match rq_head q with
  | None => Ok (None, q, h)
  | Some t =>
      let! v := deref h t in
      let after := next v in
      let! h := store t (set_next (Some t)) h in
      let q := set_rq_head after q in
      let q := match after with None => set_rq_tail None q | Some _ => q end in
      Ok (Some t, q, h)
  end.

(** The loop of [remove], at the node [cur] behind [prev]. *)
Fixpoint remove_from (fuel : nat) (t : nat) (prev cur : option nat)
    (q : thread_ready_queue) (h : heap) : outcome (bool * thread_ready_queue * heap) :=
  match cur with
  | None => Ok (false, q, h)
  | Some c =>
      match fuel with
      | O => Panic out_of_fuel
      | S fuel =>
          let! v := deref h c in
          if negb (bool_decide (c = t)) then remove_from fuel t (Some c) (next v) q h
          else
            let! '(q, h) :=
              match prev with
              | Some p => let! h := store p (set_next (next v)) h in Ok (q, h)
              | None => Ok (set_rq_head (next v) q, h)
              end in
            let q := if bool_decide (rq_tail q = cur) then set_rq_tail prev q else q in
            let! h := store t (set_next (Some t)) h in
            Ok (true, q, h)
      end
  end.

(** A list has at most as many members as the heap has blocks. *)
Definition remove (t : nat) (q : thread_ready_queue) (h : heap) :
    outcome (bool * thread_ready_queue * heap) :=
  remove_from (S (size h)) t None (rq_head q) q h.
End ReadyQueue.

(** ** thread_ready_matrix *)
Module ReadyMatrix.
Section matrix.
Context `{Config}.

(** [constexpr thread_ready_matrix() = default]. *)
Definition initial : thread_ready_matrix :=
  ThreadReadyMatrix (replicate max_priorities (ThreadReadyQueue None None)) 0%Z.

Definition has_more_urgent_than (m : thread_ready_matrix) (priority : nat) : bool :=
  negb (Z.land (bitmap m) (u32 (bit priority - 1)) =? 0)%Z.

Definition best_priority (m : thread_ready_matrix) : Z :=
  if (bitmap m =? 0)%Z then (-1)%Z else Z.of_nat (countr_zero 32 (bitmap m)).

Definition empty (m : thread_ready_matrix) : bool := (bitmap m =? 0)%Z.

(** [matrix[priority]], which is undefined past the end. *)
Definition queue_at (m : thread_ready_matrix) (priority : nat) : outcome thread_ready_queue :=
  match matrix m !! priority with Some q => Ok q | None => Panic bad_pointer end.

Definition enqueue_thread (t : nat) (m : thread_ready_matrix) (h : heap) :
    outcome (thread_ready_matrix * heap) :=
  let! v := deref h t in
  let priority := base_priority v in
  ensure assert_failed (priority <? max_priorities) ;;!
  ensure assert_failed (bool_decide (state v = ThreadState.ready)) ;;!
  let! q := queue_at m priority in
  let! '(q, h) := ReadyQueue.push_back t q h in
  Ok (ThreadReadyMatrix (<[priority := q]> (matrix m)) (set_bit (bitmap m) priority), h).

Definition enqueue_thread_front (t : nat) (m : thread_ready_matrix) (h : heap) :
    outcome (thread_ready_matrix * heap) :=
  let! v := deref h t in
  let priority := base_priority v in
  ensure assert_failed (priority <? max_priorities) ;;!
  ensure assert_failed (bool_decide (state v = ThreadState.ready)) ;;!
  let! q := queue_at m priority in
  let! '(q, h) := ReadyQueue.push_front t q h in
  Ok (ThreadReadyMatrix (<[priority := q]> (matrix m)) (set_bit (bitmap m) priority), h).

Definition pop_best_thread (m : thread_ready_matrix) (h : heap) :
    outcome (option nat * thread_ready_matrix * heap) :=
  if (bitmap m =? 0)%Z then Ok (None, m, h)
  else
    let priority := countr_zero 32 (bitmap m) in
    let! level := queue_at m priority in
    let! '(tcb, level, h) := ReadyQueue.pop_front level h in
    let bits := if ReadyQueue.empty level then clear_bit 32 (bitmap m) priority
                else bitmap m in
    Ok (tcb, ThreadReadyMatrix (<[priority := level]> (matrix m)) bits, h).

Definition remove_thread (t : nat) (m : thread_ready_matrix) (h : heap) :
    outcome (thread_ready_matrix * heap) :=
  let! v := deref h t in
  let priority := base_priority v in
  ensure assert_failed (priority <? max_priorities) ;;!
  let! q := queue_at m priority in
  let! '(removed, q, h) := ReadyQueue.remove t q h in
  ensure assert_failed removed ;;!
  let bits := if ReadyQueue.empty q then clear_bit 32 (bitmap m) priority
              else bitmap m in
  Ok (ThreadReadyMatrix (<[priority := q]> (matrix m)) bits, h).
End matrix.
End ReadyMatrix.

(** ** Specification: one list of threads per level *)
Module Levels.
Abbreviation levels := (list (list nat)).

Definition level (L : levels) (p : nat) : list nat := default [] (L !! p).

Definition push_back (p t : nat) (L : levels) : levels := <[p := level L p ++ [t]]> L.
Definition push_front (p t : nat) (L : levels) : levels := <[p := t :: level L p]> L.
Definition remove (p t : nat) (L : levels) : levels := 
  <[p := filter (fun x => x <> t) (level L p)]> L.

(** The most urgent level with a thread in it. *)
Fixpoint best (L : levels) : option nat :=
  match L with
  | [] => None
  | [] :: L => S <$> best L
  | (_ :: _) :: _ => Some 0
  end.

(** The first thread of the most urgent non-empty level, and the rest. *)
Fixpoint pop (L : levels) : option (nat * levels) :=
  match L with
  | [] => None
  | [] :: L => match pop L with Some (t, L) => Some (t, [] :: L) | None => None end
  | (t :: l) :: L => Some (t, l :: L)
  end.
End Levels.

(** ** Representation *)

(** [h'] is [h] with only [next] links changed. *)
Definition erase_next : thread_control_block -> thread_control_block := set_next None.
Definition same_but_next (h h' : heap) : Prop := erase_next <$> h = erase_next <$> h'.

#[export] Instance same_but_next_equiv : Equivalence same_but_next.
Proof.
  unfold same_but_next. split; [intros ? | intros ? ? ? | intros ? ? ? -> ->]; auto.
Qed.

Definition queue_repr (h : heap) (q : thread_ready_queue) (l : list nat) : Prop :=
  tailed next h (rq_head q) (rq_tail q) l.

Record matrix_repr (h : heap) (m : thread_ready_matrix) (L : Levels.levels) : Prop := {
  mr_queues : Forall2 (queue_repr h) (matrix m) L;
  mr_range : (0 <= bitmap m < 2 ^ 32)%Z;
  mr_bits : forall p, Z.testbit (bitmap m) (Z.of_nat p) = negb (bool_decide (Levels.level L p = []));
  mr_filed : forall p t, t ∈ Levels.level L p ->
    exists v, h !! t = Some v /\ base_priority v = p
}.
