(* ===== verification/ReadyQueueProofs.v ===== *)
(** * The ready structures refine lists

    Each operation of [ReadyQueue] and [ReadyMatrix], on a heap where the
    structure represents a list (or one list per level), finishes without a
    failed check and leaves a heap where it represents what the list
    operation gives, having changed nothing but [next] links of members. *)

From S2P Require Import Prelude Chain State ReadyQueue.

(** ** Changing links only *)

(** Only [next] links of [l] differ. *)
Definition relinks (l : list nat) (h h' : heap) : Prop :=
  same_but_next h h' /\ (forall x, x ∉ l -> h' !! x = h !! x).

Lemma relinks_refl l h : relinks l h h.
Proof. split; [reflexivity | auto]. Qed.

Lemma relinks_trans l h1 h2 h3 : relinks l h1 h2 -> relinks l h2 h3 -> relinks l h1 h3.
Proof.
  intros [S1 F1] [S2 F2]. split; [etransitivity; eassumption |].
  intros x Hx. rewrite F2, F1; auto.
Qed.

Lemma relinks_weaken l l' h h' : l ⊆ l' -> relinks l h h' -> relinks l' h h'.
Proof. intros Hl [S F]. split; [assumption |]. intros x Hx. apply F. set_solver. Qed.

Lemma relinks_store l h t v p : t ∈ l -> h !! t = Some v ->
  relinks l h (<[t := set_next p v]> h).
Proof.
  intros Ht Hv. split.
  - unfold same_but_next. rewrite fmap_insert. symmetry. apply insert_id.
    rewrite lookup_fmap, Hv. reflexivity.
  - intros x Hx. apply lookup_insert_ne. congruence.
Qed.

(** What a relinked block keeps. *)
Lemma relinks_lookup l h h' t v : relinks l h h' -> h !! t = Some v ->
  exists p, h' !! t = Some (set_next p v).
Proof.
  intros [HS _] Hv. assert (E : (erase_next <$> h) !! t = (erase_next <$> h') !! t) by (rewrite HS; reflexivity).
  rewrite !lookup_fmap, Hv in E. destruct (h' !! t) as [v' |]; [| discriminate].
  exists (next v'). f_equal. destruct v, v'. injection E. intros. subst. reflexivity.
Qed.

Lemma relinks_lookup_inv l h h' t v' : relinks l h h' -> h' !! t = Some v' ->
  exists v, h !! t = Some v /\ v' = set_next (next v') v.
Proof.
  intros [HS _] Hv. assert (E : (erase_next <$> h) !! t = (erase_next <$> h') !! t) by (rewrite HS; reflexivity).
  rewrite !lookup_fmap, Hv in E. destruct (h !! t) as [v |]; [| discriminate].
  exists v. split; [reflexivity |]. destruct v, v'. injection E. intros. subst. reflexivity.
Qed.

Lemma relinks_size l h h' : relinks l h h' -> size h' = size h.
Proof.
  intros [HS _]. rewrite <- (map_size_fmap erase_next h), <- (map_size_fmap erase_next h').
  rewrite HS. reflexivity.
Qed.

(** A member of a null-terminated list is not its own successor. *)
Lemma chain_member_enqueued h p l t v :
  chain next h p l -> t ∈ l -> h !! t = Some v -> is_enqueued t v = true.
Proof.
  intros H Ht Hv. unfold is_enqueued. apply negb_true_iff, bool_decide_eq_false. intros E.
  apply list_elem_of_split in Ht as (l1 & l2 & ->).
  apply lseg_app in H as (m & _ & -> & v' & Hv' & H).
  rewrite Hv in Hv'. injection Hv' as <-. rewrite E in H.
  assert (Hd : l2 = t :: l2).
  { apply (chain_det next h (Some t)); [exact H |]. split; [reflexivity |].
    exists v. rewrite E. auto. }
  apply (f_equal length) in Hd. simpl in Hd. lia.
Qed.

Lemma not_enqueued_next t v : is_enqueued t v = false -> next v = Some t.
Proof. unfold is_enqueued. intros H. apply negb_false_iff, bool_decide_eq_true in H. exact H. Qed.

Lemma queue_repr_frame h h' q l :
  (forall x, x ∈ l -> h' !! x = h !! x) -> queue_repr h q l -> queue_repr h' q l.
Proof.
  intros Hf. apply tailed_frame. intros x Hx. rewrite Hf; auto.
Qed.

Lemma last_snoc_inv {A} (l : list A) x : last l = Some x -> exists l', l = l' ++ [x].
Proof. intros H. apply last_Some in H. exact H. Qed.

(** ** thread_ready_queue *)

Section queue.
Implicit Types (h : heap) (q : thread_ready_queue) (l : list nat) (t : nat)
  (v : thread_control_block).

Lemma empty_ok h q l : queue_repr h q l -> ReadyQueue.empty q = bool_decide (l = []).
Proof.
  intros H. apply tailed_empty in H. unfold ReadyQueue.empty.
  apply bool_decide_ext. exact H.
Qed.

Lemma push_back_ok h q l t v :
  queue_repr h q l -> h !! t = Some v -> is_enqueued t v = false -> t ∉ l ->
  ok (ReadyQueue.push_back t q h)
     (fun '(q', h') => queue_repr h' q' (l ++ [t]) /\ relinks (t :: l) h h').
Proof.
  intros [Hc Htl] Hv Hn Ht. unfold ReadyQueue.push_back.
  rewrite (deref_ok _ _ _ Hv); simpl. rewrite Hn; simpl.
  rewrite (store_ok _ _ _ _ Hv); simpl. rewrite Htl.
  destruct (last l) as [tl |] eqn:Hl; simpl.
  - apply last_snoc_inv in Hl as [l' ->].
    destruct (lseg_in_heap next _ _ _ _ tl Hc ltac:(set_solver)) as [vt Hvt].
    assert (tl <> t) by set_solver.
    rewrite (store_ok _ _ _ vt) by (rewrite lookup_insert_ne; auto). simpl. split.
    + split; simpl.
      * eapply chain_push_back; eauto.
      * rewrite last_snoc. reflexivity.
    + eapply relinks_trans; [apply (relinks_store _ _ t v None); [left | assumption] |].
      apply relinks_store; [set_solver | rewrite lookup_insert_ne; auto].
  - apply last_None in Hl as ->. simpl in *. split.
    + split; simpl; [| reflexivity]. unfold chain; simpl. split; [reflexivity |].
      eexists. rewrite lookup_insert_eq. split; reflexivity.
    + apply (relinks_store _ _ t v None); [left | assumption].
Qed.

Lemma push_front_ok h q l t v :
  queue_repr h q l -> h !! t = Some v -> is_enqueued t v = false -> t ∉ l ->
  ok (ReadyQueue.push_front t q h)
     (fun '(q', h') => queue_repr h' q' (t :: l) /\ relinks (t :: l) h h').
Proof.
  intros [Hc Htl] Hv Hn Ht. unfold ReadyQueue.push_front.
  rewrite (deref_ok _ _ _ Hv); simpl. rewrite Hn; simpl.
  rewrite (store_ok _ _ _ _ Hv); simpl.
  split; [| apply relinks_store; [left | assumption]].
  destruct (rq_tail q) as [tl |] eqn:E; (split; [eapply chain_push_front; eauto; reflexivity |]); simpl.
  - destruct l as [| y l]; [discriminate |]. rewrite E. exact Htl.
  - symmetry in Htl. apply last_None in Htl as ->. reflexivity.
Qed.

Lemma pop_front_ok h q t l :
  queue_repr h q (t :: l) ->
  ok (ReadyQueue.pop_front q h)
     (fun '(r, q', h') => r = Some t /\ queue_repr h' q' l /\ relinks [t] h h' /\
        exists v, h' !! t = Some v /\ is_enqueued t v = false).
Proof.
  intros [Hc Htl]. pose proof (chain_NoDup _ _ _ _ Hc) as Hnd.
  apply NoDup_cons in Hnd as [Ht _].
  destruct Hc as [Hh (v & Hv & Hc)].
  unfold ReadyQueue.pop_front. rewrite Hh, (deref_ok _ _ _ Hv); simpl.
  rewrite (store_ok _ _ _ _ Hv); simpl. split_and!.
  - reflexivity.
  - assert (E : rq_tail q = last (t :: l)) by exact Htl.
    pose proof (chain_head _ _ _ _ Hc) as Hn. split.
    + destruct (next v) eqn:E'; (eapply lseg_insert_ne; [exact Ht |]); simpl; rewrite <- E'; rewrite E'; exact Hc.
    + destruct l as [| y l]; simpl in *; rewrite Hn; simpl; [reflexivity |].
      rewrite E. reflexivity.
  - apply relinks_store; [left | assumption].
  - eexists. rewrite lookup_insert_eq. split; [reflexivity |].
    unfold is_enqueued; simpl. apply negb_false_iff, bool_decide_eq_true. reflexivity.
Qed.

Lemma pop_front_empty h q : queue_repr h q [] -> ReadyQueue.pop_front q h = Ok (None, q, h).
Proof. intros [H _]. unfold ReadyQueue.pop_front. simpl in H. rewrite H. reflexivity. Qed.
End queue.

Lemma filter_remove_split (l1 l2 : list nat) t : NoDup (l1 ++ t :: l2) ->
  filter (fun x => x <> t) (l1 ++ t :: l2) = l1 ++ l2.
Proof.
  intros H. apply NoDup_app in H as (_ & H1 & H2). apply NoDup_cons in H2 as [H2 _].
  rewrite filter_app, filter_cons_False by tauto.
  rewrite !filter_keep_all; [reflexivity | |]; intros x Hx ->; [contradiction |].
  apply (H1 t Hx). left.
Qed.

Section queue_remove.
Implicit Types (h : heap) (q : thread_ready_queue) (l : list nat) (t : nat).

(** Unlinking the node the loop has found, behind [done]. *)
Lemma remove_found h q done rest t v :
  queue_repr h q (done ++ t :: rest) -> h !! t = Some v ->
  ok (let! '(q, h) :=
        match last done with
        | Some p => let! h := store p (set_next (next v)) h in Ok (q, h)
        | None => Ok (set_rq_head (next v) q, h)
        end in
      let q := if bool_decide (rq_tail q = Some t) then set_rq_tail (last done) q else q in
      let! h := store t (set_next (Some t)) h in
      Ok (true, q, h))
     (fun '(b, q', h') => b = true /\ queue_repr h' q' (done ++ rest) /\
        relinks (done ++ t :: rest) h h' /\
        exists v', h' !! t = Some v' /\ is_enqueued t v' = false).
Proof.
  intros [Hc Htl] Hv. pose proof (chain_NoDup _ _ _ _ Hc) as Hnd.
  pose proof Hnd as Hnd'. apply NoDup_app in Hnd' as (_ & Hd & Hr).
  apply NoDup_cons in Hr as [Hr _].
  assert (Htail : forall q', rq_tail q' = rq_tail q ->
    rq_tail (if bool_decide (rq_tail q' = Some t) then set_rq_tail (last done) q' else q')
    = last (done ++ rest)).
  { intros q' Eq. rewrite Eq, Htl, last_app, last_cons. destruct rest as [| y rest].
    - rewrite bool_decide_true by reflexivity. rewrite app_nil_r. reflexivity.
    - rewrite last_app, !last_cons.
      assert (Hz : last rest = Some t \/ y = t -> False).
      { intros [E | ->]; apply Hr; [right; apply last_Some_elem_of; assumption | left]. }
      destruct (last rest) as [z |] eqn:El;
        rewrite bool_decide_false by (intros [= ->]; auto);
        rewrite Eq, Htl, last_app, !last_cons, El; reflexivity. }
  assert (Hself : forall (v' : thread_control_block), is_enqueued t (set_next (Some t) v') = false).
  { intros v'. unfold is_enqueued; simpl. rewrite bool_decide_true by reflexivity. reflexivity. }
  destruct (last done) as [p |] eqn:Hlast; simpl.
  - apply last_snoc_inv in Hlast as [d ->].
    destruct (lseg_in_heap next _ _ _ _ p Hc ltac:(set_solver)) as [vp Hvp].
    assert (p <> t) by (intros ->; apply (Hd t); set_solver).
    rewrite (store_ok _ _ _ vp) by assumption; simpl.
    rewrite (store_ok _ _ _ v) by (rewrite lookup_insert_ne; auto); simpl.
    split_and!; [reflexivity | split | |].
    + replace (rq_head _) with (rq_head q) by (case_bool_decide; reflexivity).
      apply lseg_insert_ne; [set_solver |]. rewrite <- !app_assoc in *. simpl in *.
      eapply chain_unlink; eauto; reflexivity.
    + apply Htail. reflexivity.
    + eapply relinks_trans; [apply (relinks_store _ _ p vp (next v)); [set_solver | assumption] |].
      apply relinks_store; [set_solver | rewrite lookup_insert_ne; auto].
    + eexists. rewrite lookup_insert_eq. auto.
  - apply last_None in Hlast as ->. simpl in *. destruct Hc as [Hh (v0 & Hv0 & Hc)].
    rewrite Hv in Hv0. injection Hv0 as <-.
    rewrite (store_ok _ _ _ v) by assumption; simpl.
    split_and!; [reflexivity | split | |].
    + replace (rq_head _) with (next v) by (case_bool_decide; reflexivity).
      apply lseg_insert_ne; assumption.
    + apply (Htail (set_rq_head (next v) q)). reflexivity.
    + apply relinks_store; [left | assumption].
    + eexists. rewrite lookup_insert_eq. auto.
Qed.

Lemma remove_from_ok fuel h q rest done t :
  queue_repr h q (done ++ rest) -> t ∉ done -> t ∈ rest -> length rest <= fuel ->
  ok (ReadyQueue.remove_from fuel t (last done) (head rest) q h)
     (fun '(b, q', h') => b = true /\
        queue_repr h' q' (filter (fun x => x <> t) (done ++ rest)) /\
        relinks (done ++ rest) h h' /\
        exists v', h' !! t = Some v' /\ is_enqueued t v' = false).
Proof.
  revert done fuel. induction rest as [| c rest IH]; intros done fuel Hq Hd Hr Hf; [inversion Hr |].
  destruct fuel as [| fuel]; simpl in Hf; [lia |]. simpl.
  destruct (lseg_in_heap next h _ _ _ c (proj1 Hq) ltac:(set_solver)) as [v Hv].
  rewrite (deref_ok _ _ _ Hv); simpl.
  destruct (decide (c = t)) as [-> | Hne].
  - rewrite bool_decide_true by reflexivity. simpl.
    pose proof (chain_NoDup _ _ _ _ (proj1 Hq)) as Hnd.
    rewrite filter_remove_split by assumption. apply remove_found; assumption.
  - rewrite bool_decide_false by assumption. simpl.
    replace (done ++ c :: rest) with ((done ++ [c]) ++ rest) in * by (rewrite <- app_assoc; reflexivity).
    assert (Hn : next v = head rest).
    { destruct Hq as [Hc _]. rewrite <- app_assoc in Hc. apply lseg_app in Hc as (m & _ & -> & v' & Hv' & Hc).
      rewrite Hv in Hv'. injection Hv' as <-. eapply chain_head; exact Hc. }
    rewrite Hn, <- (last_snoc c done). apply IH; [assumption | set_solver | set_solver | lia].
Qed.

Lemma remove_ok h q l t :
  queue_repr h q l -> t ∈ l ->
  ok (ReadyQueue.remove t q h)
     (fun '(b, q', h') => b = true /\
        queue_repr h' q' (filter (fun x => x <> t) l) /\ relinks l h h' /\
        exists v', h' !! t = Some v' /\ is_enqueued t v' = false).
Proof.
  intros Hq Ht. unfold ReadyQueue.remove.
  rewrite (chain_head _ _ _ _ (proj1 Hq)).
  apply (remove_from_ok (S (size h)) h q l [] t); [assumption | set_solver | assumption |].
  pose proof (chain_length _ _ _ _ (proj1 Hq)). lia.
Qed.

Lemma remove_from_absent fuel h q rest done t :
  queue_repr h q (done ++ rest) -> t ∉ rest -> length rest <= fuel ->
  ReadyQueue.remove_from fuel t (last done) (head rest) q h = Ok (false, q, h).
Proof.
  revert done fuel. induction rest as [| c rest IH]; intros done fuel Hq Hr Hf; [destruct fuel; reflexivity |].
  destruct fuel as [| fuel]; simpl in Hf; [lia |]. simpl.
  destruct (lseg_in_heap next h _ _ _ c (proj1 Hq) ltac:(set_solver)) as [v Hv].
  rewrite (deref_ok _ _ _ Hv); simpl.
  rewrite bool_decide_false by set_solver. simpl.
  replace (done ++ c :: rest) with ((done ++ [c]) ++ rest) in * by (rewrite <- app_assoc; reflexivity).
  assert (Hn : next v = head rest).
  { destruct Hq as [Hc _]. rewrite <- app_assoc in Hc. apply lseg_app in Hc as (m & _ & -> & v' & Hv' & Hc).
    rewrite Hv in Hv'. injection Hv' as <-. eapply chain_head; exact Hc. }
  rewrite Hn, <- (last_snoc c done). apply IH; [assumption | set_solver | lia].
Qed.

(** The bool [remove] returns says whether the thread was in the queue. *)
Lemma remove_absent h q l t : queue_repr h q l -> t ∉ l -> ReadyQueue.remove t q h = Ok (false, q, h).
Proof.
  intros Hq Ht. unfold ReadyQueue.remove. rewrite (chain_head _ _ _ _ (proj1 Hq)).
  apply (remove_from_absent (S (size h)) h q l [] t); [assumption | assumption |].
  pose proof (chain_length _ _ _ _ (proj1 Hq)). lia.
Qed.
End queue_remove.

(** ** Levels *)

Section levels.
Implicit Types (L : Levels.levels).

Lemma level_insert L p k l : p < length L ->
  Levels.level (<[p := l]> L) k = if decide (k = p) then l else Levels.level L k.
Proof.
  intros Hp. unfold Levels.level. case_decide as E.
  - subst. rewrite list_lookup_insert_eq by assumption. reflexivity.
  - rewrite list_lookup_insert_ne by congruence. reflexivity.
Qed.

Lemma level_nonempty_lt L p : Levels.level L p <> [] -> p < length L.
Proof.
  unfold Levels.level. intros H. apply lookup_lt_is_Some.
  destruct (L !! p); [eauto | contradiction].
Qed.

Lemma level_lookup L p : p < length L -> L !! p = Some (Levels.level L p).
Proof. intros H. unfold Levels.level. destruct (lookup_lt_is_Some_2 L p H) as [l ->]. reflexivity. Qed.

Lemma best_spec L p : Levels.best L = Some p <->
  Levels.level L p <> [] /\ forall k, k < p -> Levels.level L k = [].
Proof.
  revert p. induction L as [| [| t l] L IH]; intros p; simpl.
  - split; [discriminate | intros [H _]; contradiction].
  - split.
    + destruct (Levels.best L) as [q |] eqn:E; simpl; [| discriminate].
      intros [= <-]. destruct (proj1 (IH q) eq_refl) as [Hq Hl]. split; [exact Hq |].
      intros [| k] Hk; [reflexivity | apply Hl; lia].
    + intros [Hp Hl]. destruct p as [| p]; [contradiction |].
      rewrite (proj2 (IH p)); [reflexivity |]. split; [exact Hp |].
      intros k Hk. apply (Hl (S k)). lia.
  - split.
    + intros [= <-]. split; [discriminate | intros; lia].
    + intros [_ Hl]. destruct p as [| p]; [reflexivity |].
      specialize (Hl 0 ltac:(lia)). discriminate.
Qed.

Lemma best_none L : Levels.best L = None <-> forall k, Levels.level L k = [].
Proof.
  split.
  - induction L as [| [| t l] L IH]; simpl; intros H k; [reflexivity | | discriminate].
    destruct (Levels.best L); [discriminate |]. destruct k; [reflexivity | apply IH; reflexivity].
  - intros H. destruct (Levels.best L) as [p |] eqn:E; [| reflexivity].
    apply best_spec in E as [Hp _]. rewrite H in Hp. contradiction.
Qed.

Lemma pop_best L p : Levels.best L = Some p ->
  exists t l, Levels.level L p = t :: l /\ Levels.pop L = Some (t, <[p := l]> L).
Proof.
  revert p. induction L as [| [| t l] L IH]; intros p; simpl; [discriminate | |].
  - destruct (Levels.best L) as [q |]; simpl; [| discriminate]. intros [= <-].
    destruct (IH q eq_refl) as (t & l & Hl & ->). eauto.
  - intros [= <-]. exists t, l. auto.
Qed.

Lemma pop_none L : Levels.best L = None -> Levels.pop L = None.
Proof.
  induction L as [| [| t l] L IH]; simpl; [reflexivity | | discriminate].
  destruct (Levels.best L); [discriminate |]. intros _. rewrite IH; reflexivity.
Qed.
End levels.

(** ** thread_ready_matrix *)

Section matrix.
Context `{Config}.
Implicit Types (h : heap) (m : thread_ready_matrix) (L : Levels.levels) (t p : nat).

Lemma mr_length h m L : matrix_repr h m L -> length (matrix m) = length L.
Proof. intros Hm. eapply Forall2_length, mr_queues, Hm. Qed.

Lemma mr_queue h m L p : matrix_repr h m L -> p < length L ->
  exists q, matrix m !! p = Some q /\ queue_repr h q (Levels.level L p).
Proof.
  intros Hm Hp. destruct (Forall2_lookup_r _ _ _ _ _ (mr_queues _ _ _ Hm) (level_lookup L p Hp)) as (q & Hq & Hr).
  eauto.
Qed.

Lemma mr_not_filed h m L t v : matrix_repr h m L -> h !! t = Some v ->
  is_enqueued t v = false -> forall p, t ∉ Levels.level L p.
Proof.
  intros Hm Hv Hn p Ht.
  destruct (mr_queue h m L p Hm) as (q & _ & Hq & _).
  { apply level_nonempty_lt. intros E. rewrite E in Ht. inversion Ht. }
  rewrite (chain_member_enqueued _ _ _ _ _ Hq Ht Hv) in Hn. discriminate.
Qed.

Lemma mr_NoDup h m L p : matrix_repr h m L -> NoDup (Levels.level L p).
Proof.
  intros Hm. destruct (decide (Levels.level L p = [])) as [-> | Hp]; [constructor |].
  destruct (mr_queue h m L p Hm (level_nonempty_lt _ _ Hp)) as (q & _ & Hq & _).
  eapply chain_NoDup; exact Hq.
Qed.

(** The bitmap word, read as numbers. *)
Lemma mr_bitmap_zero h m L : matrix_repr h m L -> (bitmap m =? 0)%Z = bool_decide (Levels.best L = None).
Proof.
  intros Hm. apply eq_bool_prop_intro. rewrite !Is_true_true, bool_decide_eq_true, Z.eqb_eq, best_none.
  rewrite flag_word_zero by apply (mr_range _ _ _ Hm).
  split; intros Hb p; specialize (Hb p); rewrite (mr_bits _ _ _ Hm) in *;
    apply negb_false_iff in Hb || apply negb_false_iff; [apply bool_decide_eq_true in Hb | apply bool_decide_eq_true]; exact Hb.
Qed.

Lemma mr_countr_zero h m L p : matrix_repr h m L -> Levels.best L = Some p ->
  countr_zero 32 (bitmap m) = p.
Proof.
  intros Hm Hp. pose proof (mr_bitmap_zero h m L Hm) as Hz.
  rewrite Hp, bool_decide_false in Hz by discriminate. apply Z.eqb_neq in Hz.
  pose proof (mr_range _ _ _ Hm). apply best_spec in Hp as [Hp Hlt].
  apply countr_zero_unique; [lia | |].
  - rewrite (mr_bits _ _ _ Hm), bool_decide_false by assumption. reflexivity.
  - intros k Hk. rewrite (mr_bits _ _ _ Hm), Hlt, bool_decide_true by auto. reflexivity.
Qed.

(** Replacing one level. *)
Lemma matrix_update h h' m L p q' l' bits touched :
  matrix_repr h m L -> relinks touched h h' -> p < length L ->
  (forall x, x ∈ touched -> exists v, h !! x = Some v /\ base_priority v = p) ->
  queue_repr h' q' l' -> l' ⊆ touched -> (0 <= bits < 2 ^ 32)%Z ->
  (forall k, Z.testbit bits (Z.of_nat k) =
     if decide (k = p) then negb (bool_decide (l' = [])) else Z.testbit (bitmap m) (Z.of_nat k)) ->
  matrix_repr h' (ThreadReadyMatrix (<[p := q']> (matrix m)) bits) (<[p := l']> L).
Proof.
  intros Hm Hr Hp Ht Hq Hl Hrange Hbits. split; simpl.
  - apply Forall2_same_length_lookup. rewrite !length_insert.
    split; [apply (mr_length _ _ _ Hm) |]. intros k q l Hk1 Hk2.
    destruct (decide (k = p)) as [-> | Hne].
    + rewrite list_lookup_insert_eq in Hk1 by (rewrite (mr_length _ _ _ Hm); assumption).
      rewrite list_lookup_insert_eq in Hk2 by assumption. congruence.
    + rewrite list_lookup_insert_ne in Hk1 by congruence. rewrite list_lookup_insert_ne in Hk2 by congruence.
      pose proof (Forall2_lookup_lr _ _ _ _ _ _ (mr_queues _ _ _ Hm) Hk1 Hk2) as Hqk.
      apply queue_repr_frame with h; [| assumption]. intros x Hx. apply Hr. intros Hxt.
      destruct (Ht x Hxt) as (v & Hv & Hpv).
      destruct (mr_filed _ _ _ Hm k x) as (v' & Hv' & Hkv').
      { unfold Levels.level. rewrite Hk2. exact Hx. }
      congruence.
  - assumption.
  - intros k. rewrite Hbits, level_insert by assumption. case_decide; [reflexivity |].
    apply (mr_bits _ _ _ Hm).
  - intros k x Hx. rewrite level_insert in Hx by assumption. case_decide as Ek.
    + subst k. destruct (Ht x (Hl x Hx)) as (v & Hv & Hpv).
      destruct (relinks_lookup _ _ _ _ _ Hr Hv) as [n Hn]. eexists. split; [exact Hn | exact Hpv].
    + destruct (mr_filed _ _ _ Hm k x Hx) as (v & Hv & Hpv).
      destruct (relinks_lookup _ _ _ _ _ Hr Hv) as [n Hn]. eexists. split; [exact Hn | exact Hpv].
Qed.

Lemma queue_at_ok m p q : matrix m !! p = Some q -> ReadyMatrix.queue_at m p = Ok q.
Proof. unfold ReadyMatrix.queue_at. intros ->. reflexivity. Qed.

Lemma level_member_prio h m L p t v x : matrix_repr h m L -> h !! t = Some v ->
  base_priority v = p -> x ∈ t :: Levels.level L p ->
  exists vx, h !! x = Some vx /\ base_priority vx = p.
Proof.
  intros Hm Hv Hp Hx. apply elem_of_cons in Hx as [-> | Hx]; [eauto |].
  apply (mr_filed _ _ _ Hm p x Hx).
Qed.

(** Filing a thread, at either end of its level. *)
Lemma enqueue_ok (front : bool) h m L t v :
  matrix_repr h m L -> length L = max_priorities -> h !! t = Some v ->
  state v = ThreadState.ready -> base_priority v < max_priorities ->
  is_enqueued t v = false ->
  ok ((if front then ReadyMatrix.enqueue_thread_front else ReadyMatrix.enqueue_thread) t m h)
     (fun '(m', h') =>
        matrix_repr h' m' ((if front then Levels.push_front else Levels.push_back)
                             (base_priority v) t L) /\
        relinks (t :: Levels.level L (base_priority v)) h h').
Proof.
  intros Hm HL Hv Hs Hp Hn. set (p := base_priority v) in *.
  destruct (mr_queue h m L p Hm ltac:(lia)) as (q & Hq & Hrepr).
  pose proof (mr_not_filed _ _ _ _ _ Hm Hv Hn p) as Ht.
  pose proof max_priorities_valid as Hmax.
  assert (Hbits : forall l' : list nat, l' <> [] -> forall k, Z.testbit (set_bit (bitmap m) p) (Z.of_nat k) =
     if decide (k = p) then negb (bool_decide (l' = [])) else Z.testbit (bitmap m) (Z.of_nat k)).
  { intros l' Hl' k. rewrite testbit_set_bit. case_decide as E.
    - subst k. rewrite !bool_decide_true, bool_decide_false by auto. apply orb_true_r.
    - rewrite bool_decide_false by congruence. apply orb_false_r. }
  destruct front; unfold ReadyMatrix.enqueue_thread, ReadyMatrix.enqueue_thread_front;
    rewrite (deref_ok _ _ _ Hv); simpl; fold p;
    rewrite (proj2 (Nat.ltb_lt _ _) Hp), bool_decide_true by assumption; simpl;
    rewrite (queue_at_ok _ _ _ Hq); simpl.
  - apply ok_bind. eapply ok_mono; [eapply push_front_ok; eassumption |].
    intros [q' h'] [Hq' Hr]; simpl. split; [| exact Hr].
    eapply matrix_update;
      [exact Hm | exact Hr | lia | eauto using level_member_prio | exact Hq' | set_solver | |].
    + apply set_bit_range; [apply (mr_range _ _ _ Hm) | lia].
    + apply Hbits. discriminate.
  - apply ok_bind. eapply ok_mono; [eapply push_back_ok; eassumption |].
    intros [q' h'] [Hq' Hr]; simpl. split; [| exact Hr].
    eapply matrix_update;
      [exact Hm | exact Hr | lia | eauto using level_member_prio | exact Hq' | set_solver | |].
    + apply set_bit_range; [apply (mr_range _ _ _ Hm) | lia].
    + apply Hbits. intros E. apply (f_equal length) in E. rewrite length_app in E. simpl in E. lia.
Qed.

Lemma clear_or_keep_bits h m L p (l' : list nat) q' : matrix_repr h m L -> Levels.level L p <> [] ->
  (ReadyQueue.empty q' = bool_decide (l' = [])) ->
  let bits := if ReadyQueue.empty q' then clear_bit 32 (bitmap m) p else bitmap m in
  (0 <= bits < 2 ^ 32)%Z /\
  (forall k, Z.testbit bits (Z.of_nat k) =
     if decide (k = p) then negb (bool_decide (l' = [])) else Z.testbit (bitmap m) (Z.of_nat k)).
Proof.
  intros Hm Hp -> bits. subst bits. pose proof (mr_range _ _ _ Hm). case_bool_decide as E.
  - split; [apply clear_bit_range; lia |]. intros k. rewrite testbit_clear_bit by lia.
    case_decide.
    + subst k. rewrite bool_decide_true by reflexivity. apply andb_false_r.
    + rewrite bool_decide_false by congruence. apply andb_true_r.
  - split; [assumption |]. intros k. case_decide as Ek; [| reflexivity].
    subst k. rewrite (mr_bits _ _ _ Hm), bool_decide_false by assumption. reflexivity.
Qed.

(** Taking the best thread. *)
Lemma pop_best_ok h m L : matrix_repr h m L ->
  ok (ReadyMatrix.pop_best_thread m h)
     (fun '(r, m', h') =>
        match Levels.pop L with
        | None => r = None /\ m' = m /\ h' = h
        | Some (t, L') => r = Some t /\ matrix_repr h' m' L' /\ relinks [t] h h' /\
            exists v, h' !! t = Some v /\ is_enqueued t v = false
        end).
Proof.
  intros Hm. unfold ReadyMatrix.pop_best_thread. rewrite (mr_bitmap_zero _ _ _ Hm).
  destruct (Levels.best L) as [p |] eqn:E; [| rewrite (pop_none _ E); simpl; auto].
  destruct (pop_best _ _ E) as (t & l & Hl & ->).
  rewrite bool_decide_false by discriminate. rewrite (mr_countr_zero _ _ _ _ Hm E).
  apply best_spec in E as [Hne _]. pose proof (level_nonempty_lt _ _ Hne) as Hp.
  destruct (mr_queue _ _ _ _ Hm Hp) as (q & Hq & Hrepr). rewrite (queue_at_ok _ _ _ Hq); simpl.
  rewrite Hl in Hrepr. apply ok_bind. eapply ok_mono; [apply pop_front_ok, Hrepr |].
  intros [[r q'] h'] (-> & Hq' & Hr & Hv); simpl. split_and!; try assumption; [reflexivity |].
  pose proof (clear_or_keep_bits _ _ _ _ l q' Hm Hne (empty_ok _ _ _ Hq')) as [Hb1 Hb2].
  assert (Hr' : relinks (t :: l) h h') by (eapply relinks_weaken; [| exact Hr]; set_solver).
  eapply matrix_update;
    [exact Hm | exact Hr' | exact Hp | | exact Hq' | set_solver | exact Hb1 | exact Hb2].
  intros x Hx. rewrite <- Hl in Hx. apply (mr_filed _ _ _ Hm p x Hx).
Qed.

(** Unfiling a thread. *)
Lemma remove_thread_ok h m L t v : matrix_repr h m L -> length L = max_priorities ->
  h !! t = Some v -> t ∈ Levels.level L (base_priority v) ->
  ok (ReadyMatrix.remove_thread t m h)
     (fun '(m', h') => matrix_repr h' m' (Levels.remove (base_priority v) t L) /\
        relinks (Levels.level L (base_priority v)) h h' /\
        exists v', h' !! t = Some v' /\ is_enqueued t v' = false).
Proof.
  intros Hm HL Hv Ht. set (p := base_priority v) in *.
  assert (Hne : Levels.level L p <> []) by (intros E; rewrite E in Ht; inversion Ht).
  pose proof (level_nonempty_lt _ _ Hne) as Hp.
  destruct (mr_queue _ _ _ _ Hm Hp) as (q & Hq & Hrepr).
  unfold ReadyMatrix.remove_thread. rewrite (deref_ok _ _ _ Hv); simpl; fold p.
  rewrite (proj2 (Nat.ltb_lt _ _)) by lia. simpl.
  rewrite (queue_at_ok _ _ _ Hq); simpl. apply ok_bind.
  eapply ok_mono; [apply remove_ok; eassumption |].
  intros [[b q'] h'] (-> & Hq' & Hr & Hv'); simpl. split_and!; try assumption.
  pose proof (clear_or_keep_bits _ _ _ _ _ q' Hm Hne (empty_ok _ _ _ Hq')) as [Hb1 Hb2].
  eapply matrix_update;
    [exact Hm | exact Hr | exact Hp | apply (mr_filed _ _ _ Hm) | exact Hq' | | exact Hb1 | exact Hb2].
  intros x Hx. apply list_elem_of_filter in Hx. tauto.
Qed.
End matrix.
