(* ===== verification/WaitQueue.v ===== *)
(** * wait_queue: the list of parked waiters

    The list half of wait_queue in waitable.cpp: [link], [unlink], [arm],
    [disarm], [refresh_top] and the pop every wake begins with.  Each runs
    under the queue's lock, so each is one step.  [key] reads a waiter's base
    priority from its thread, which never changes.  The specification is a
    list of nodes ordered by base priority, first come first served among
    equals. *)

From S2P Require Import Prelude Chain State ReadyQueue.

Abbreviation node_heap := (gmap nat wait_node).

Module WaitQueue.
(** [inheritance_cache::no_waiter]. *)
Definition no_waiter : nat := 255.

(** The priority a node is filed under: [node.owner->base_priority]. *)
Definition key (h : heap) (ns : node_heap) (n : nat) : outcome nat :=
  let! v := deref ns n in
  let! o := deref h (node_owner v) in
  Ok (base_priority o).

(** The scan of [link]: the last node whose successor is missing or less
    urgent than [priority]. *)
Fixpoint scan (fuel : nat) (h : heap) (ns : node_heap) (priority before : nat) : outcome nat :=
  match fuel with
  | O => Panic out_of_fuel
  | S fuel =>
      let! v := deref ns before in
      match node_next v with
      | None => Ok before
      | Some n =>
          let! k := key h ns n in
          if k <=? priority then scan fuel h ns priority n else Ok before
      end
  end.

Definition link (h : heap) (node : nat) (q : wait_queue) (ns : node_heap) :
    outcome (wait_queue * node_heap) :=
  let! priority := key h ns node in
  let! at_front :=
    match wq_head q with
    | None => Ok true
    | Some first => let! k := key h ns first in Ok (priority <? k)
    end in
  if at_front : bool then
    let! ns := store node (set_node_next (wq_head q)) ns in
    Ok (set_wq_head (Some node) q, ns)
  else
    let! first := nonnull (wq_head q) in
    let! before := scan (S (size ns)) h ns priority first in
    let! b := deref ns before in
    let! ns := store node (set_node_next (node_next b)) ns in
    let! ns := store before (set_node_next (Some node)) ns in
    Ok (q, ns).

(** The loop of [unlink]: find the node whose successor is [node]. *)
Fixpoint unlink_from (fuel : nat) (node : nat) (before : option nat) (ns : node_heap) :
    outcome (bool * node_heap) :=
  match before with
  | None => Ok (false, ns)
  | Some b =>
      match fuel with
      | O => Panic out_of_fuel
      | S fuel =>
          let! v := deref ns b in
          if bool_decide (node_next v = Some node) then
            let! n := deref ns node in
            let! ns := store b (set_node_next (node_next n)) ns in
            let! ns := store node (set_node_next None) ns in
            Ok (true, ns)
          else unlink_from fuel node (node_next v) ns
      end
  end.

Definition unlink (node : nat) (q : wait_queue) (ns : node_heap) :
    outcome (bool * wait_queue * node_heap) :=
  if bool_decide (wq_head q = Some node) then
    let! v := deref ns node in
    let! ns := store node (set_node_next None) ns in
    Ok (true, set_wq_head (node_next v) q, ns)
  else
    let! '(found, ns) := unlink_from (S (size ns)) node (wq_head q) ns in
    Ok (found, q, ns).

(** A null [inheritance_cache*] is [None]: nothing to maintain. *)
Definition refresh_top (h : heap) (q : wait_queue) (ns : node_heap)
    (pi : option inheritance_cache) : outcome (option inheritance_cache) :=
  match pi with
  | None => Ok None
  | Some pi =>
      let! top := match wq_head q with
                  | Some first => key h ns first
                  | None => Ok no_waiter
                  end in
      let pi := set_top_priority top pi in
      Ok (Some (if bool_decide (wq_head q = None) then set_may_have_bridges false pi else pi))
  end.

Definition arm (h : heap) (node : nat) (q : wait_queue) (ns : node_heap)
    (pi : option inheritance_cache) :
    outcome (wait_queue * node_heap * option inheritance_cache) :=
  let! v := deref ns node in
  ensure assert_failed (bool_decide (node_next v = None)) ;;!
  let! '(q, ns) := link h node q ns in
  let! o := deref h (node_owner v) in
  let pi := match pi with
            | Some pi => Some (if negb (holds_nothing o) then set_may_have_bridges true pi else pi)
            | None => None
            end in
  let! pi := refresh_top h q ns pi in
  Ok (q, ns, pi).

Definition disarm (h : heap) (node : nat) (q : wait_queue) (ns : node_heap)
    (pi : option inheritance_cache) :
    outcome (bool * wait_queue * node_heap * option inheritance_cache) :=
  let! '(found, q, ns) := unlink node q ns in
  if negb found then Ok (false, q, ns, pi)
  else
    let! pi := refresh_top h q ns pi in
    Ok (true, q, ns, pi).

(** What every wake does first, under the lock: take the head node, and
    learn whose it is. *)
Definition pop (h : heap) (q : wait_queue) (ns : node_heap) (pi : option inheritance_cache) :
    outcome (option nat * wait_queue * node_heap * option inheritance_cache) :=
  match wq_head q with
  | None => Ok (None, q, ns, pi)
  | Some node =>
      let! v := deref ns node in
      let q := set_wq_head (node_next v) q in
      let! ns := store node (set_node_next None) ns in
      let! pi := refresh_top h q ns pi in
      Ok (Some (node_owner v), q, ns, pi)
  end.

Definition empty (q : wait_queue) : bool := bool_decide (wq_head q = None).

(** ** Specification *)

(** Behind every waiter as urgent or more. *)
Fixpoint insert (prio : nat -> nat) (n : nat) (l : list nat) : list nat :=
  match l with
  | [] => [n]
  | y :: l => if prio n <? prio y then n :: y :: l else y :: insert prio n l
  end.

(** The best waiter's priority, or [no_waiter]. *)
Definition best (prio : nat -> nat) (l : list nat) : nat :=
  match l with [] => no_waiter | n :: _ => prio n end.

(** [key] as a total function, for specifications. *)
Definition prio (h : heap) (ns : node_heap) (n : nat) : nat :=
  match key h ns n with Ok k => k | Panic _ => 0 end.

(** A queue's waiters: the list at its head, every node with a live owner,
    most urgent first. *)
Record repr (h : heap) (ns : node_heap) (q : wait_queue) (l : list nat) : Prop := {
  wr_chain : chain node_next ns (wq_head q) l;
  wr_live : forall n, n ∈ l -> is_ok (key h ns n) = true;
  wr_sorted : StronglySorted (fun a b => prio h ns a <= prio h ns b) l
}.

(** A cache that is exact, and a bridge hint that misses none of the waiters
    that hold something, the resource's own [owner] apart. *)
Record cache_ok (h : heap) (ns : node_heap) (owner : option nat) (l : list nat)
    (pi : inheritance_cache) : Prop := {
  co_top : top_priority pi = best (prio h ns) l;
  co_bridges : may_have_bridges pi = false ->
    forall n v o, n ∈ l -> ns !! n = Some v -> h !! node_owner v = Some o ->
      Some (node_owner v) <> owner -> holds_nothing o = true
}.
End WaitQueue.
