(* ===== verification/WaitQueueProofs.v ===== *)
(** * wait_queue refines a priority-ordered list *)

From S2P Require Import Prelude Chain State ReadyQueue ReadyQueueProofs WaitQueue.

Section key.
Implicit Types (h : heap) (ns : node_heap).
Local Abbreviation prio := WaitQueue.prio.

Lemma key_ok h ns n : is_ok (WaitQueue.key h ns n) = true ->
  WaitQueue.key h ns n = Ok (prio h ns n).
Proof. unfold WaitQueue.prio. destruct (WaitQueue.key h ns n); [reflexivity | discriminate]. Qed.

Lemma key_live h ns n v o : ns !! n = Some v -> h !! node_owner v = Some o ->
  WaitQueue.key h ns n = Ok (base_priority o).
Proof. intros Hn Ho. unfold WaitQueue.key. rewrite (deref_ok _ _ _ Hn); simpl. rewrite (deref_ok _ _ _ Ho). reflexivity. Qed.

Lemma key_inv h ns n : is_ok (WaitQueue.key h ns n) = true ->
  exists v o, ns !! n = Some v /\ h !! node_owner v = Some o /\ prio h ns n = base_priority o.
Proof.
  unfold WaitQueue.prio, WaitQueue.key, deref.
  destruct (ns !! n) as [v |] eqn:E; [| discriminate]. simpl.
  destruct (h !! node_owner v) as [o |] eqn:E'; [| discriminate]. simpl. eauto 6.
Qed.

(** Relinking nodes moves no key. *)
Lemma key_relink h ns n v p x : ns !! n = Some v ->
  WaitQueue.key h (<[n := set_node_next p v]> ns) x = WaitQueue.key h ns x.
Proof.
  intros Hv. unfold WaitQueue.key, deref. destruct (decide (x = n)) as [-> | Hne].
  - rewrite lookup_insert_eq, Hv. reflexivity.
  - rewrite lookup_insert_ne by congruence. reflexivity.
Qed.

Lemma prio_relink h ns n v p x : ns !! n = Some v ->
  prio h (<[n := set_node_next p v]> ns) x = prio h ns x.
Proof. intros Hv. unfold WaitQueue.prio. rewrite (key_relink _ _ _ _ _ _ Hv). reflexivity. Qed.
End key.

(** ** The specification's own facts *)

Section insert_spec.
Context (prio : nat -> nat).

Lemma insert_before n y l : prio n < prio y -> WaitQueue.insert prio n (y :: l) = n :: y :: l.
Proof. intros Hlt. simpl. rewrite (proj2 (Nat.ltb_lt _ _) Hlt). reflexivity. Qed.

Lemma insert_behind n y l : prio y <= prio n ->
  WaitQueue.insert prio n (y :: l) = y :: WaitQueue.insert prio n l.
Proof. intros Hle. simpl. rewrite (proj2 (Nat.ltb_ge _ _) Hle). reflexivity. Qed.

Lemma insert_perm n l : WaitQueue.insert prio n l ≡ₚ n :: l.
Proof.
  induction l as [| y l IH]; simpl; [reflexivity |].
  destruct (prio n <? prio y); [reflexivity |]. rewrite IH. apply Permutation_swap.
Qed.

Lemma insert_elem n l x : x ∈ WaitQueue.insert prio n l <-> x = n \/ x ∈ l.
Proof. rewrite insert_perm, elem_of_cons. reflexivity. Qed.

Lemma insert_sorted n l : StronglySorted (fun a b => prio a <= prio b) l ->
  StronglySorted (fun a b => prio a <= prio b) (WaitQueue.insert prio n l).
Proof.
  induction l as [| y l IH]; simpl; intros Hs; [repeat constructor |].
  apply StronglySorted_inv in Hs as [Hs Hy]. destruct (Nat.ltb_spec (prio n) (prio y)).
  - constructor; [constructor; assumption |]. constructor; [lia |].
    eapply Forall_impl; [exact Hy |]. simpl. intros. lia.
  - constructor; [auto |]. apply Forall_forall. intros x Hx.
    apply insert_elem in Hx as [-> | Hx]; [lia |]. rewrite Forall_forall in Hy. apply Hy, Hx.
Qed.

(** Nothing already queued is overtaken by an equal: the newcomer stands
    behind everything as urgent as itself and ahead of the rest. *)
Lemma insert_split n l : StronglySorted (fun a b => prio a <= prio b) l ->
  exists l1 l2, l = l1 ++ l2 /\ WaitQueue.insert prio n l = l1 ++ n :: l2 /\
    (forall x, x ∈ l1 -> prio x <= prio n) /\ (forall x, x ∈ l2 -> prio n < prio x).
Proof.
  induction l as [| y l IH]; simpl; intros Hs.
  - exists [], []. split_and!; try reflexivity; intros x Hx; inversion Hx.
  - apply StronglySorted_inv in Hs as [Hs Hy]. rewrite Forall_forall in Hy.
    destruct (Nat.ltb_spec (prio n) (prio y)).
    + exists [], (y :: l). split_and!; try reflexivity; [intros x Hx; inversion Hx |].
      intros x Hx. apply elem_of_cons in Hx as [-> | Hx]; [assumption |].
      specialize (Hy x Hx). lia.
    + destruct (IH Hs) as (l1 & l2 & -> & -> & H1 & H2). exists (y :: l1), l2.
      split_and!; try reflexivity; [| exact H2].
      intros x Hx. apply elem_of_cons in Hx as [-> | Hx]; auto.
Qed.

Lemma best_insert n l : StronglySorted (fun a b => prio a <= prio b) l ->
  (forall x, x ∈ n :: l -> prio x <= WaitQueue.no_waiter) ->
  WaitQueue.best prio (WaitQueue.insert prio n l) = prio n `min` WaitQueue.best prio l.
Proof.
  intros Hs Hb. destruct l as [| y l]; simpl.
  - pose proof (Hb n ltac:(left)). lia.
  - destruct (Nat.ltb_spec (prio n) (prio y)); simpl; lia.
Qed.

Lemma best_le l n : StronglySorted (fun a b => prio a <= prio b) l -> n ∈ l ->
  WaitQueue.best prio l <= prio n.
Proof.
  intros Hs Hn. destruct l as [| y l]; [inversion Hn |]. simpl.
  apply StronglySorted_inv in Hs as [_ Hy]. rewrite Forall_forall in Hy.
  apply elem_of_cons in Hn as [-> | Hn]; [reflexivity | auto].
Qed.
End insert_spec.

(** ** Representation *)

Section repr.
Implicit Types (h : heap) (ns : node_heap) (q : wait_queue) (l : list nat) (n : nat).
Local Abbreviation prio := WaitQueue.prio.

(** [ns'] differs from [ns] in links of [l] only. *)
Definition renodes (l : list nat) (ns ns' : node_heap) : Prop :=
  (set_node_next None <$> ns) = (set_node_next None <$> ns') /\
  (forall x, x ∉ l -> ns' !! x = ns !! x).

Lemma renodes_refl l ns : renodes l ns ns.
Proof. split; auto. Qed.

Lemma renodes_trans l m1 m2 m3 : renodes l m1 m2 -> renodes l m2 m3 -> renodes l m1 m3.
Proof. intros [E1 F1] [E2 F2]. split; [congruence |]. intros x Hx. rewrite F2, F1; auto. Qed.

Lemma renodes_store l ns n v p : n ∈ l -> ns !! n = Some v ->
  renodes l ns (<[n := set_node_next p v]> ns).
Proof.
  intros Hn Hv. split.
  - rewrite fmap_insert. symmetry. apply insert_id. rewrite lookup_fmap, Hv. reflexivity.
  - intros x Hx. apply lookup_insert_ne. congruence.
Qed.

Lemma renodes_lookup l ns ns' n v : renodes l ns ns' -> ns !! n = Some v ->
  exists p, ns' !! n = Some (set_node_next p v).
Proof.
  intros [E _] Hv. assert (En : (set_node_next None <$> ns) !! n = (set_node_next None <$> ns') !! n) by congruence.
  rewrite !lookup_fmap, Hv in En. destruct (ns' !! n) as [v' |]; [| discriminate].
  exists (node_next v'). destruct v, v'. injection En as ->. reflexivity.
Qed.

Lemma renodes_lookup_inv l ns ns' n v' : renodes l ns ns' -> ns' !! n = Some v' ->
  exists v, ns !! n = Some v /\ node_owner v' = node_owner v.
Proof.
  intros [E _] Hv. assert (En : (set_node_next None <$> ns) !! n = (set_node_next None <$> ns') !! n) by congruence.
  rewrite !lookup_fmap, Hv in En. destruct (ns !! n) as [v |]; [| discriminate].
  exists v. destruct v, v'. injection En as ->. auto.
Qed.

Lemma renodes_key l h ns ns' x : renodes l ns ns' -> WaitQueue.key h ns' x = WaitQueue.key h ns x.
Proof.
  intros Hr. unfold WaitQueue.key, deref. destruct (ns !! x) as [v |] eqn:E.
  - destruct (renodes_lookup _ _ _ _ _ Hr E) as [p ->]. reflexivity.
  - destruct (ns' !! x) as [v' |] eqn:E'; [| reflexivity].
    destruct (renodes_lookup_inv _ _ _ _ _ Hr E') as (v & Hv & _). congruence.
Qed.

Lemma renodes_prio l h ns ns' x : renodes l ns ns' -> prio h ns' x = prio h ns x.
Proof. intros Hr. unfold WaitQueue.prio. rewrite (renodes_key _ _ _ _ _ Hr). reflexivity. Qed.

Lemma wr_NoDup h ns q l : WaitQueue.repr h ns q l -> NoDup l.
Proof. intros Hr. eapply chain_NoDup, WaitQueue.wr_chain, Hr. Qed.

Lemma wr_empty h ns q l : WaitQueue.repr h ns q l -> WaitQueue.empty q = bool_decide (l = []).
Proof.
  intros Hr. unfold WaitQueue.empty. apply bool_decide_ext.
  pose proof (WaitQueue.wr_chain _ _ _ _ Hr) as Hc. unfold chain in Hc.
  destruct l; simpl in Hc; [tauto |]. destruct Hc as [-> _]. split; discriminate.
Qed.

Lemma renodes_weaken l l' ns ns' : l ⊆ l' -> renodes l ns ns' -> renodes l' ns ns'.
Proof. intros Hl [E F]. split; [exact E |]. intros x Hx. apply F. set_solver. Qed.

(** Rebuilding a representation after relinking. *)
Lemma repr_intro h ns ns' q' l' touched :
  renodes touched ns ns' -> chain node_next ns' (wq_head q') l' ->
  (forall n, n ∈ l' -> is_ok (WaitQueue.key h ns n) = true) ->
  StronglySorted (fun a b => prio h ns a <= prio h ns b) l' ->
  WaitQueue.repr h ns' q' l'.
Proof.
  intros Hr Hc Hl Hs. split; [exact Hc | |].
  - intros n Hn. rewrite (renodes_key _ _ _ _ _ Hr). auto.
  - eapply StronglySorted_weaken; [| exact Hs]. simpl. intros a b.
    rewrite !(renodes_prio _ _ _ _ _ Hr). auto.
Qed.

(** ** link *)

Lemma scan_ok fuel h ns n b l :
  chain node_next ns (Some b) (b :: l) -> length l < fuel ->
  (forall x, x ∈ b :: l -> is_ok (WaitQueue.key h ns x) = true) ->
  prio h ns b <= prio h ns n ->
  exists l1 x l2, b :: l = l1 ++ x :: l2 /\
    WaitQueue.scan fuel h ns (prio h ns n) b = Ok x /\
    WaitQueue.insert (prio h ns) n (b :: l) = l1 ++ x :: n :: l2.
Proof.
  revert b fuel. induction l as [| c l IH]; intros b [| fuel] Hc Hf Hl Hb; simpl in Hf; try lia;
    destruct Hc as [_ (v & Hv & Hc)]; cbn [WaitQueue.scan]; rewrite (deref_ok _ _ _ Hv); cbn [obind].
  - simpl in Hc. rewrite Hc. exists [], b, []. rewrite insert_behind by exact Hb. auto.
  - assert (Hnext : node_next v = Some c) by apply Hc. rewrite Hnext in Hc |- *.
    rewrite key_ok by (apply Hl; set_solver). cbn [obind].
    rewrite insert_behind by exact Hb. destruct (Nat.leb_spec (prio h ns c) (prio h ns n)) as [Hcn | Hcn].
    + destruct (IH c fuel Hc ltac:(lia)) as (l1 & x & l2 & E & -> & E'); [set_solver | exact Hcn |].
      exists (b :: l1), x, l2. rewrite E', E. auto.
    + exists [], b, (c :: l). rewrite insert_before by exact Hcn. auto.
Qed.

Lemma link_ok h ns q l n v :
  WaitQueue.repr h ns q l -> ns !! n = Some v -> is_ok (WaitQueue.key h ns n) = true -> n ∉ l ->
  ok (WaitQueue.link h n q ns)
     (fun '(q', ns') => WaitQueue.repr h ns' q' (WaitQueue.insert (prio h ns) n l) /\
        renodes (n :: l) ns ns').
Proof.
  intros Hq Hv Hk Hn. unfold WaitQueue.link. remember (S (size ns)) as fuel eqn:Hfuel.
  rewrite key_ok by assumption. cbn [obind].
  pose proof (WaitQueue.wr_chain _ _ _ _ Hq) as Hc. pose proof (chain_head _ _ _ _ Hc) as Hh.
  assert (Hsorted : StronglySorted (fun a b => prio h ns a <= prio h ns b)
            (WaitQueue.insert (prio h ns) n l)) by (apply insert_sorted, Hq).
  assert (Hlive : forall x, x ∈ WaitQueue.insert (prio h ns) n l -> is_ok (WaitQueue.key h ns x) = true).
  { intros x Hx. apply insert_elem in Hx as [-> | Hx]; [assumption | apply Hq, Hx]. }
  assert (Hfront : WaitQueue.insert (prio h ns) n l = n :: l ->
    ok (let! ns := store n (set_node_next (wq_head q)) ns in Ok (set_wq_head (Some n) q, ns))
       (fun '(q', ns') => WaitQueue.repr h ns' q' (WaitQueue.insert (prio h ns) n l) /\
          renodes (n :: l) ns ns')).
  { intros E. rewrite (store_ok _ _ _ _ Hv); simpl.
    assert (Hr : renodes (n :: l) ns (<[n := set_node_next (wq_head q) v]> ns)) by (apply renodes_store; [left | assumption]).
    split; [| exact Hr]. eapply repr_intro; [exact Hr | | exact Hlive | exact Hsorted].
    rewrite E. eapply chain_push_front; [assumption | reflexivity | exact Hc]. }
  destruct l as [| y l]; rewrite Hh in Hfront |- *;
    cbn [obind head] in Hfront |- *; [apply Hfront; reflexivity |].
  rewrite key_ok by (apply Hq; left). cbn [obind].
  destruct (Nat.ltb_spec (prio h ns n) (prio h ns y)) as [Hlt | Hge].
  - apply Hfront, insert_before, Hlt.
  - clear Hfront. cbn [nonnull obind]. rewrite Hh in Hc. cbn [head] in Hc.
    destruct (scan_ok (S (size ns)) h ns n y l Hc) as (l1 & x & l2 & E & Hscan & Eins); [| apply Hq | assumption |].
    { pose proof (chain_length _ _ _ _ Hc). simpl in *. lia. }
    rewrite Hfuel, Hscan; cbn [obind].
    assert (Hx : x ∈ y :: l) by (rewrite E; set_solver).
    destruct (lseg_in_heap node_next ns _ _ _ x Hc Hx) as [vx Hvx].
    rewrite (deref_ok _ _ _ Hvx). cbn [obind]. rewrite (store_ok _ _ _ _ Hv). cbn [obind].
    assert (x <> n) by (intros ->; contradiction).
          rewrite (store_ok _ _ _ vx) by (rewrite lookup_insert_ne; auto); cbn [obind ok].
    assert (Hr : renodes (n :: y :: l) ns
      (<[x := set_node_next (Some n) vx]> (<[n := set_node_next (node_next vx) v]> ns))).
    { eapply renodes_trans; [apply renodes_store; [left | exact Hv] |].
      apply renodes_store; [right; exact Hx | rewrite lookup_insert_ne; auto]. }
    split; [| exact Hr]. eapply repr_intro; [exact Hr | | exact Hlive | exact Hsorted].
    rewrite Eins, Hh.
    eapply chain_insert_after; [rewrite <- E; exact Hn | exact Hvx | reflexivity | reflexivity |].
    rewrite <- E. exact Hc.
Qed.

(** ** unlink *)

Lemma unlink_from_ok fuel ns p n l1 b l2 :
  chain node_next ns p (l1 ++ b :: l2) -> n ∈ l2 -> length l2 < fuel ->
  ok (WaitQueue.unlink_from fuel n (Some b) ns)
     (fun '(found, ns') => found = true /\
        chain node_next ns' p (filter (fun x => x <> n) (l1 ++ b :: l2)) /\
        renodes (b :: l2) ns ns' /\
        exists v, ns' !! n = Some v /\ node_next v = None).
Proof.
  revert fuel l1 b. induction l2 as [| c l2 IH]; intros [| fuel] l1 b Hc Hn Hf; simpl in Hf;
    try lia; [inversion Hn |].
  pose proof (chain_NoDup _ _ _ _ Hc) as Hnd.
  pose proof Hc as Hc'. apply lseg_app in Hc' as (m & Hm & -> & vb & Hvb & Hc').
  destruct Hc' as [Hnb (vc & Hvc & _)]. cbn [WaitQueue.unlink_from].
  rewrite (deref_ok _ _ _ Hvb); simpl. rewrite Hnb. destruct (decide (c = n)) as [-> | Hne].
  - rewrite bool_decide_true by reflexivity.
    assert (Hbn : b <> n).
    { apply NoDup_app in Hnd as (_ & _ & Hnd). apply NoDup_cons in Hnd as [Hnd _]. set_solver. }
    rewrite (deref_ok _ _ _ Hvc); simpl. rewrite (store_ok _ _ _ _ Hvb); simpl.
    rewrite (store_ok _ _ _ vc) by (rewrite lookup_insert_ne; auto); simpl.
    split_and!; [reflexivity | | |].
    + replace (l1 ++ b :: n :: l2) with ((l1 ++ [b]) ++ n :: l2) in * by (rewrite <- app_assoc; reflexivity).
      rewrite filter_remove_split by assumption. rewrite <- !app_assoc in *. simpl in *.
      apply lseg_insert_ne; [| eapply chain_unlink; eauto; reflexivity].
      replace (l1 ++ b :: n :: l2) with ((l1 ++ [b]) ++ n :: l2) in Hnd by (rewrite <- app_assoc; reflexivity).
      replace (l1 ++ b :: l2) with ((l1 ++ [b]) ++ l2) by (rewrite <- app_assoc; reflexivity).
      apply NoDup_app in Hnd as (_ & Hd & Hnd). apply NoDup_cons in Hnd as [Hnd _].
      intros Hx. apply elem_of_app in Hx as [Hx | Hx]; [apply (Hd n Hx); left | contradiction].
    + eapply renodes_trans; [apply renodes_store; [left | exact Hvb] |].
      apply renodes_store; [right; left | rewrite lookup_insert_ne; auto].
    + eexists. rewrite lookup_insert_eq. auto.
  - rewrite bool_decide_false by congruence.
    replace (l1 ++ b :: c :: l2) with ((l1 ++ [b]) ++ c :: l2) in * by (rewrite <- app_assoc; reflexivity).
    eapply ok_mono; [apply (IH fuel (l1 ++ [b]) c Hc); [set_solver | lia] |].
    intros [found ns'] (-> & H1 & H2 & H3). split_and!; auto.
    eapply renodes_weaken; [| exact H2]. set_solver.
Qed.

Lemma unlink_from_absent fuel ns p n l :
  chain node_next ns p l -> (forall y, y ∈ tail l -> y <> n) -> length l <= fuel ->
  WaitQueue.unlink_from fuel n p ns = Ok (false, ns).
Proof.
  revert fuel p. induction l as [| b l IH]; intros fuel p Hc Hn Hf.
  - simpl in Hc. rewrite Hc. destruct fuel; reflexivity.
  - destruct Hc as [-> (v & Hv & Hc)]. destruct fuel as [| fuel]; simpl in Hf; [lia |]. simpl.
    rewrite (deref_ok _ _ _ Hv); simpl. simpl in Hn. pose proof (chain_head _ _ _ _ Hc) as Hh.
    rewrite bool_decide_false.
    + apply IH; [exact Hc | | lia]. intros y Hy. apply Hn. destruct l; [inversion Hy | right; exact Hy].
    + rewrite Hh. destruct l as [| c l]; simpl; [discriminate |]. intros [= ->]. apply (Hn n); [left | reflexivity].
Qed.

Lemma unlink_ok h ns q l n :
  WaitQueue.repr h ns q l -> n ∈ l ->
  ok (WaitQueue.unlink n q ns)
     (fun '(found, q', ns') => found = true /\
        WaitQueue.repr h ns' q' (filter (fun x => x <> n) l) /\ renodes l ns ns' /\
        exists v, ns' !! n = Some v /\ node_next v = None).
Proof.
  intros Hq Hn. pose proof (WaitQueue.wr_chain _ _ _ _ Hq) as Hc.
  pose proof (chain_NoDup _ _ _ _ Hc) as Hnd. pose proof (chain_head _ _ _ _ Hc) as Hh.
  assert (Hsub : forall x, x ∈ filter (fun x => x <> n) l -> is_ok (WaitQueue.key h ns x) = true).
  { intros x Hx. apply list_elem_of_filter in Hx. apply Hq, Hx. }
  assert (Hsorted : StronglySorted (fun a b => prio h ns a <= prio h ns b) (filter (fun x => x <> n) l)).
  { pose proof (WaitQueue.wr_sorted _ _ _ _ Hq) as Hs. apply list_elem_of_split in Hn as (l1 & l2 & ->).
    rewrite filter_remove_split by assumption. eapply StronglySorted_app_remove; exact Hs. }
  unfold WaitQueue.unlink. destruct l as [| y l]; [inversion Hn |]. simpl in Hh. rewrite Hh.
  destruct (decide (y = n)) as [-> | Hne].
  - rewrite bool_decide_true by reflexivity.
    destruct Hc as [_ (v & Hv & Hc)]. rewrite (deref_ok _ _ _ Hv); simpl. rewrite (store_ok _ _ _ _ Hv); simpl.
    assert (Hr : renodes (n :: l) ns (<[n := set_node_next None v]> ns)) by (apply renodes_store; [left | assumption]).
    split_and!; [reflexivity | | exact Hr | eexists; rewrite lookup_insert_eq; auto].
    eapply repr_intro; [exact Hr | | exact Hsub | exact Hsorted].
    pose proof (filter_remove_split [] l n Hnd) as E. simpl in E. rewrite E. simpl.
    apply lseg_insert_ne; [| exact Hc]. apply NoDup_cons in Hnd. tauto.
  - rewrite bool_decide_false by congruence. apply ok_bind.
    eapply ok_mono; [apply (unlink_from_ok (S (size ns)) ns (wq_head q) n [] y l) |].
    + exact Hc.
    + set_solver.
    + pose proof (chain_length _ _ _ _ Hc). simpl in *. lia.
    + intros [found ns'] (-> & H1 & H2 & H3). simpl. split_and!; auto.
      eapply repr_intro; [exact H2 | exact H1 | exact Hsub | exact Hsorted].
Qed.

Lemma unlink_absent h ns q l n :
  WaitQueue.repr h ns q l -> n ∉ l -> WaitQueue.unlink n q ns = Ok (false, q, ns).
Proof.
  intros Hq Hn. pose proof (WaitQueue.wr_chain _ _ _ _ Hq) as Hc. unfold WaitQueue.unlink.
  rewrite bool_decide_false.
  - rewrite (unlink_from_absent _ _ _ _ _ Hc); [reflexivity | |].
    + intros y Hy ->. apply Hn. destruct l; [inversion Hy | right; exact Hy].
    + pose proof (chain_length _ _ _ _ Hc). lia.
  - rewrite (chain_head _ _ _ _ Hc). destruct l; simpl; [discriminate |]. intros [= ->]. apply Hn. left.
Qed.
End repr.

(** ** The operations, with their cache *)

Section operations.
Implicit Types (h : heap) (ns : node_heap) (q : wait_queue) (l : list nat) (n : nat)
  (excl : option nat) (pi : option inheritance_cache).
Local Abbreviation prio := WaitQueue.prio.

(** The hint half of [cache_ok]. *)
Definition hint_ok h ns excl l (pi : inheritance_cache) : Prop :=
  may_have_bridges pi = false ->
  forall n v o, n ∈ l -> ns !! n = Some v -> h !! node_owner v = Some o ->
    Some (node_owner v) <> excl -> holds_nothing o = true.

(** What an operation leaves of the optional cache it was given. *)
Definition cached h ns excl l pi : Prop :=
  match pi with Some pi => WaitQueue.cache_ok h ns excl l pi | None => True end.
Definition hinted h ns excl l pi : Prop :=
  match pi with Some pi => hint_ok h ns excl l pi | None => True end.

Lemma hinted_renodes h ns ns' excl l l' touched pi :
  renodes touched ns ns' -> l' ⊆ l -> hinted h ns excl l pi -> hinted h ns' excl l' pi.
Proof.
  intros Hr Hl. destruct pi as [pi |]; [| auto]. intros Hh Hm n v o Hn Hv Ho Hx.
  destruct (renodes_lookup_inv _ _ _ _ _ Hr Hv) as (v0 & Hv0 & Eo). rewrite Eo in Ho, Hx.
  eapply Hh; eauto.
Qed.

Lemma cached_hinted h ns excl l pi : cached h ns excl l pi -> hinted h ns excl l pi.
Proof. destruct pi as [pi |]; [| auto]. intros [_ Hc]. exact Hc. Qed.

Lemma refresh_top_ok h ns q l pi excl :
  WaitQueue.repr h ns q l -> hinted h ns excl l pi ->
  ok (WaitQueue.refresh_top h q ns pi)
     (fun pi' => cached h ns excl l pi' /\ (pi' = None <-> pi = None)).
Proof.
  intros Hq Hh. destruct pi as [pi |]; simpl; [| auto].
  pose proof (chain_head _ _ _ _ (WaitQueue.wr_chain _ _ _ _ Hq)) as E.
  destruct l as [| n l]; simpl in E; rewrite E; simpl.
  - split; [| split; discriminate]. split; [reflexivity |]. intros _ n v o Hn. inversion Hn.
  - rewrite key_ok by (apply Hq; left). simpl. split; [| split; discriminate].
    split; [reflexivity | exact Hh].
Qed.

Lemma pop_ok h ns q n l pi excl :
  WaitQueue.repr h ns q (n :: l) -> hinted h ns excl (n :: l) pi ->
  ok (WaitQueue.pop h q ns pi)
     (fun '(r, q', ns', pi') => (exists v, ns !! n = Some v /\ r = Some (node_owner v)) /\
        WaitQueue.repr h ns' q' l /\ renodes [n] ns ns' /\ cached h ns' excl l pi' /\
        (pi' = None <-> pi = None) /\ exists v, ns' !! n = Some v /\ node_next v = None).
Proof.
  intros Hq Hh. pose proof (wr_NoDup _ _ _ _ Hq) as Hnd. apply NoDup_cons in Hnd as [Hn _].
  destruct (WaitQueue.wr_chain _ _ _ _ Hq) as [E (v & Hv & Hc)].
  unfold WaitQueue.pop. rewrite E, (deref_ok _ _ _ Hv). cbn [obind].
  rewrite (store_ok _ _ _ _ Hv). cbn [obind].
  assert (Hr : renodes [n] ns (<[n := set_node_next None v]> ns)) by (apply renodes_store; [left | assumption]).
  assert (Hq' : WaitQueue.repr h (<[n := set_node_next None v]> ns) (set_wq_head (node_next v) q) l).
  { eapply repr_intro; [exact Hr | | |].
    - apply lseg_insert_ne; assumption.
    - intros x Hx. apply Hq. right. exact Hx.
    - apply (StronglySorted_inv (WaitQueue.wr_sorted _ _ _ _ Hq)). }
  apply ok_bind. eapply ok_mono.
  - apply refresh_top_ok with (excl := excl); [exact Hq' |].
    eapply hinted_renodes; [exact Hr | | exact Hh]. set_solver.
  - simpl. intros pi' [Hc' Hn']. split_and!; eauto. eexists. rewrite lookup_insert_eq. auto.
Qed.

Lemma pop_empty h ns q pi : WaitQueue.repr h ns q [] -> WaitQueue.pop h q ns pi = Ok (None, q, ns, pi).
Proof. intros Hq. unfold WaitQueue.pop. rewrite (WaitQueue.wr_chain _ _ _ _ Hq). reflexivity. Qed.

Lemma arm_ok h ns q l n v o pi excl :
  WaitQueue.repr h ns q l -> hinted h ns excl l pi ->
  ns !! n = Some v -> node_next v = None -> h !! node_owner v = Some o -> n ∉ l ->
  ok (WaitQueue.arm h n q ns pi)
     (fun '(q', ns', pi') => WaitQueue.repr h ns' q' (WaitQueue.insert (prio h ns) n l) /\
        renodes (n :: l) ns ns' /\
        cached h ns' excl (WaitQueue.insert (prio h ns) n l) pi' /\ (pi' = None <-> pi = None)).
Proof.
  intros Hq Hh Hv Hnx Ho Hn. unfold WaitQueue.arm. rewrite (deref_ok _ _ _ Hv). cbn [obind].
  rewrite bool_decide_true by assumption. cbn [ensure obind]. apply ok_bind.
  eapply ok_mono; [eapply link_ok; [exact Hq | exact Hv | | exact Hn]; rewrite (key_live _ _ _ _ _ Hv Ho); reflexivity |].
  intros [q' ns'] [Hq' Hr]. rewrite (deref_ok _ _ _ Ho). cbn [obind]. apply ok_bind.
  set (pi1 := match pi with Some pi => _ | None => None end).
  assert (Hh' : hinted h ns' excl (WaitQueue.insert (prio h ns) n l) pi1).
  { subst pi1. destruct pi as [pi |]; [| exact I]. intros Hm x vx ox Hx Hvx Hox Hex.
    destruct (renodes_lookup_inv _ _ _ _ _ Hr Hvx) as (v0 & Hv0 & Eo). rewrite Eo in Hox, Hex.
    destruct (holds_nothing o) eqn:Eh; simpl in Hm; [| discriminate].
    apply insert_elem in Hx as [-> | Hx]; [congruence | eapply Hh; eauto]. }
  eapply ok_mono; [apply refresh_top_ok with (excl := excl); [exact Hq' | exact Hh'] |].
  simpl. intros pi' [Hc E]. split_and!; auto. rewrite E. subst pi1. destruct pi; split; discriminate || auto.
Qed.

Lemma disarm_ok h ns q l n pi excl :
  WaitQueue.repr h ns q l -> cached h ns excl l pi -> n ∈ l ->
  ok (WaitQueue.disarm h n q ns pi)
     (fun '(found, q', ns', pi') => found = true /\
        WaitQueue.repr h ns' q' (filter (fun x => x <> n) l) /\ renodes l ns ns' /\
        cached h ns' excl (filter (fun x => x <> n) l) pi' /\ (pi' = None <-> pi = None) /\
        exists v, ns' !! n = Some v /\ node_next v = None).
Proof.
  intros Hq Hc Hn. unfold WaitQueue.disarm. apply ok_bind.
  eapply ok_mono; [apply (unlink_ok _ _ _ _ _ Hq Hn) |].
  intros [[found q'] ns'] (-> & Hq' & Hr & Hv). cbn [negb]. apply ok_bind.
  eapply ok_mono; [apply refresh_top_ok with (excl := excl); [exact Hq' |] |].
  - eapply hinted_renodes; [exact Hr | | apply cached_hinted, Hc].
    intros x Hx. apply list_elem_of_filter in Hx. tauto.
  - simpl. intros pi' [Hc' E]. split_and!; auto.
Qed.

Lemma disarm_absent h ns q l n pi :
  WaitQueue.repr h ns q l -> n ∉ l -> WaitQueue.disarm h n q ns pi = Ok (false, q, ns, pi).
Proof. intros Hq Hn. unfold WaitQueue.disarm. rewrite (unlink_absent _ _ _ _ _ Hq Hn). reflexivity. Qed.
End operations.
