(* ===== verification/Urgency.v ===== *)
(** * Urgency: priority inheritance, folded from truth

    [urgency] of scheduler.hpp and the fold it takes through waitable.cpp and
    base_mutex.cpp: a thread's urgency is the least of its base priority and
    what every mutex it holds contributes, a mutex contributes its best
    waiter (and its ceiling), and a waiter that itself holds something is
    asked for its own urgency, to a depth that bounds the walk.  The fold
    reads the heaps and writes nothing. *)

From S2P Require Import Prelude Chain State ReadyQueue WaitQueue.

(** What the fold reads of a control block. *)
Definition urgency_view (v : thread_control_block) := (base_priority v, held_slots v, held_mask v).

Module Urgency.
Definition max_inheritance_depth : nat := 8.
(** [max_snapshot] of [wait_queue::top]. *)
Definition max_snapshot : nat := 4.
Definition no_ceiling : nat := 255.

Definition uses_ceiling (m : base_mutex) : bool := negb (ceiling_priority m =? no_ceiling).

Section fold.
Context (h : heap) (ns : node_heap) (ms : gmap nat base_mutex).

(** The walk of [wait_queue::top] under the queue lock, from the node [n]:
    the waiters that hold something, the resource's owner apart, up to
    [max_snapshot] of them; and whether there were more. *)
Fixpoint snapshot (fuel : nat) (holder : option nat) (n : option nat) (found : list nat) :
    outcome (list nat * bool) :=
  match n with
  | None => Ok (found, false)
  | Some n =>
      match fuel with
      | O => Panic out_of_fuel
      | S fuel =>
          let! v := deref ns n in
          let! o := deref h (node_owner v) in
          if holds_nothing o then snapshot fuel holder (node_next v) found
          else if bool_decide (Some (node_owner v) = holder) then
            snapshot fuel holder (node_next v) found
          else if length found =? max_snapshot then Ok (found, true)
          else snapshot fuel holder (node_next v) (found ++ [node_owner v])
      end
  end.

(** The loop over the snapshot. *)
Fixpoint best_bridge (rec : nat -> outcome nat) (bridges : list nat) (best : nat) : outcome nat :=
  match bridges with
  | [] => Ok best
  | b :: bridges => let! u := rec b in best_bridge rec bridges (best `min` u)
  end.

(** [wait_queue::top]. [rec] is [urgency_at] one level down, and [None]
    when the budget is spent. *)
Definition top (rec : option (nat -> outcome nat)) (m : base_mutex) : outcome nat :=
  let cached := top_priority (mutex_pi m) in
  if negb (may_have_bridges (mutex_pi m)) then Ok cached
  else
    match rec with
    | None => Ok 0
    | Some rec =>
        let! '(bridges, overflow) :=
          snapshot (S (size ns)) (owner m) (wq_head (mutex_queue m)) [] in
        if overflow : bool then Ok 0 else best_bridge rec bridges cached
    end.

Definition urgency_contribution (rec : option (nat -> outcome nat)) (m : base_mutex) :
    outcome nat :=
  let! from_queue := top rec m in
  Ok (if uses_ceiling m then ceiling_priority m `min` from_queue else from_queue).

(** The loop of [donated_floor] over the set bits of [held_mask]. *)
Fixpoint fold_slots (fuel : nat) (rec : option (nat -> outcome nat)) (mask : Z)
    (slots : list (option nat)) (floor : nat) : outcome nat :=
  if (mask =? 0)%Z then Ok floor
  else
    match fuel with
    | O => Panic out_of_fuel
    | S fuel =>
        let slot := countr_zero 8 mask in
        let mask := Z.land mask (u8 (mask - 1)) in
        match slots !! slot with
        | None => Panic bad_pointer
        | Some None => fold_slots fuel rec mask slots floor
        | Some (Some held) =>
            let! m := deref ms held in
            let! c := urgency_contribution rec m in
            fold_slots fuel rec mask slots (c `min` floor)
        end
    end.

(** A byte has eight bits to visit. *)
Definition donated_floor (rec : option (nat -> outcome nat)) (target : nat) : outcome nat :=
  let! v := deref h target in
  if (held_mask v =? 0)%Z then Ok (base_priority v)
  else fold_slots 8 rec (held_mask v) (held_slots v) (base_priority v).

Fixpoint urgency_at (depth : nat) (tcb : nat) {struct depth} : outcome nat :=
  donated_floor (match depth with O => None | S depth => Some (urgency_at depth) end) tcb.

Definition urgency (tcb : nat) : outcome nat :=
  let! v := deref h tcb in
  if (held_mask v =? 0)%Z then Ok (base_priority v)
  else urgency_at max_inheritance_depth tcb.
End fold.

(** ** Specification: who a thread is holding up *)
Section spec.
Context (h : heap) (ns : node_heap) (ms : gmap nat base_mutex).

(** [t] has [m] filed in its held slots. *)
Definition holds (t m : nat) : Prop :=
  exists v i, h !! t = Some v /\ Z.testbit (held_mask v) (Z.of_nat i) = true /\
    held_slots v !! i = Some (Some m).

(** [u] is armed on [m]'s queue, and is not the owner passing through. *)
Definition waits (u m : nat) : Prop :=
  exists mx l n v, ms !! m = Some mx /\ WaitQueue.repr h ns (mutex_queue mx) l /\
    n ∈ l /\ ns !! n = Some v /\ node_owner v = u /\ Some u <> owner mx.

(** [t] holds what [u] waits for. *)
Definition holds_up (t u : nat) : Prop := exists m, holds t m /\ waits u m.

(** [u] is [t], or is behind it in the wait-for graph. *)
Definition behind : nat -> nat -> Prop := rtc holds_up.

(** The priorities [t] is entitled to: its own and its transitive
    waiters' base priorities, and the ceilings of what these hold. *)
Definition entitled (t p : nat) : Prop :=
  exists u v, behind t u /\ h !! u = Some v /\
    (base_priority v = p \/
     exists m mx, holds u m /\ ms !! m = Some mx /\ uses_ceiling mx = true /\
       ceiling_priority mx = p).

Record wf : Prop := {
  wf_slots : forall t v, h !! t = Some v ->
    length (held_slots v) = max_held_per_thread /\ (0 <= held_mask v < 16)%Z /\
    base_priority v <= 255;
  wf_held : forall t m, holds t m -> exists mx, ms !! m = Some mx /\ owner mx = Some t;
  wf_mutex : forall m mx, ms !! m = Some mx ->
    exists l, WaitQueue.repr h ns (mutex_queue mx) l /\
      WaitQueue.cache_ok h ns (owner mx) l (mutex_pi mx)
}.

(** The waiters of a mutex that hold something. *)
Definition bridges (mx : base_mutex) (l : list nat) : list nat :=
  omap (fun n => match ns !! n with
                 | Some v => match h !! node_owner v with
                             | Some o => if holds_nothing o || bool_decide (Some (node_owner v) = owner mx)
                                         then None else Some (node_owner v)
                             | None => None
                             end
                 | None => None
                 end) l.

(** The donation tree behind [t] is within the fold's two bounds: at most
    [max_snapshot] bridges on each queue, and no bridge left to follow
    once [depth] links have been. *)
Fixpoint fits (depth t : nat) : Prop :=
  match depth with
  | O => forall m mx, holds t m -> ms !! m = Some mx -> may_have_bridges (mutex_pi mx) = false
  | S depth => forall m mx l, holds t m -> ms !! m = Some mx ->
      WaitQueue.repr h ns (mutex_queue mx) l ->
      length (bridges mx l) <= max_snapshot /\ forall u, u ∈ bridges mx l -> fits depth u
  end.
End spec.
End Urgency.
