(* ===== verification/UrgencyProofs.v ===== *)
(** * The urgency fold is never under the truth, and equal to it on short chains *)

From S2P Require Import Prelude Chain State ReadyQueue WaitQueue WaitQueueProofs Urgency.

Import Urgency.

(** The slots a mask selects, lowest bit first. *)
Definition selected (mask : Z) (slots : list (option nat)) : list (option nat) :=
  omap (fun i => if Z.testbit mask (Z.of_nat i) then slots !! i else None) (seq 0 4).

Section fold_slots.
Context (h : heap) (ns : node_heap) (ms : gmap nat base_mutex).

Fixpoint fold_held (rec : option (nat -> outcome nat)) (ps : list (option nat)) (floor : nat) :
    outcome nat :=
  match ps with
  | [] => Ok floor
  | None :: ps => fold_held rec ps floor
  | Some held :: ps =>
      let! m := deref ms held in
      let! c := urgency_contribution h ns rec m in
      fold_held rec ps (c `min` floor)
  end.

(** The bit-scan loop visits exactly the selected slots, in order, and its
    eight units of fuel are enough. *)
Lemma fold_slots_selected rec mask slots floor :
  length slots = 4 -> (0 <= mask < 16)%Z ->
  fold_slots h ns ms 8 rec mask slots floor = fold_held rec (selected mask slots) floor.
Proof.
  intros Hl Hm. destruct slots as [| s0 [| s1 [| s2 [| s3 [|]]]]]; try discriminate Hl.
  assert (Hc : exists k, (k < 16)%nat /\ mask = Z.of_nat k) by (exists (Z.to_nat mask); lia).
  destruct Hc as (k & Hk & ->).
  do 16 (destruct k as [| k]; [reflexivity |]). lia.
Qed.
End fold_slots.

(** What is selected is what is held, and the other way around. *)
Lemma selected_elem mask slots m : length slots = 4 -> (0 <= mask < 16)%Z ->
  Some m ∈ selected mask slots <->
  exists i, Z.testbit mask (Z.of_nat i) = true /\ slots !! i = Some (Some m).
Proof.
  intros Hl Hm. unfold selected. rewrite list_elem_of_omap. split.
  - intros (i & _ & E). destruct (Z.testbit mask (Z.of_nat i)) eqn:Eb; [eauto | discriminate].
  - intros (i & Hb & Hi). exists i. rewrite Hb. split; [| exact Hi].
    apply lookup_lt_Some in Hi. rewrite elem_of_seq. lia.
Qed.

Section snapshot.
Context (h : heap) (ns : node_heap).

Lemma bridges_cons mx n l v o : ns !! n = Some v -> h !! node_owner v = Some o ->
  bridges h ns mx (n :: l) =
  (if holds_nothing o || bool_decide (Some (node_owner v) = owner mx) then [] else [node_owner v])
  ++ bridges h ns mx l.
Proof. intros Hv Ho. unfold bridges. simpl. rewrite Hv, Ho. destruct (_ || _); reflexivity. Qed.

(** The walk finds the bridges in queue order, and overflows past four. *)
Lemma snapshot_ok mx fuel p l found :
  chain node_next ns p l -> (forall n, n ∈ l -> is_ok (WaitQueue.key h ns n) = true) ->
  length l < fuel -> length found <= max_snapshot ->
  let all := found ++ bridges h ns mx l in
  snapshot h ns fuel (owner mx) p found =
  Ok (take max_snapshot all, negb (length all <=? max_snapshot)).
Proof.
  revert p fuel found. induction l as [| n l IH]; intros p fuel found Hc Hk Hf Hfound; cbn zeta.
  - cbn [bridges omap list_omap]. unfold chain in Hc. simpl in Hc. subst p. rewrite app_nil_r, take_ge by lia.
    rewrite (proj2 (Nat.leb_le _ _)) by exact Hfound. destruct fuel; reflexivity.
  - destruct Hc as [-> (v & Hv & Hc)]. destruct fuel as [| fuel]; simpl in Hf; [lia |].
    destruct (key_inv h ns n (Hk n ltac:(left))) as (v' & o & Hv' & Ho & _).
    rewrite Hv in Hv'. injection Hv' as <-.
    cbn [snapshot]. rewrite (deref_ok _ _ _ Hv). cbn [obind]. rewrite (deref_ok _ _ _ Ho). cbn [obind].
    rewrite (bridges_cons mx n l v o Hv Ho).
    assert (IH' : forall f, length f <= max_snapshot ->
      snapshot h ns fuel (owner mx) (node_next v) f =
      Ok (take max_snapshot (f ++ bridges h ns mx l),
          negb (length (f ++ bridges h ns mx l) <=? max_snapshot))).
    { intros f Hlf. apply IH; [exact Hc | intros; apply Hk; right; assumption | lia | exact Hlf]. }
    destruct (holds_nothing o); cbn [orb app]; [apply IH', Hfound |].
    case_bool_decide; cbn [app]; [apply IH', Hfound |].
    destruct (Nat.eqb_spec (length found) max_snapshot) as [E | E].
    + rewrite take_app_le, take_ge by lia. do 2 f_equal. symmetry. apply negb_true_iff, Nat.leb_gt.
      rewrite length_app. simpl. lia.
    + rewrite IH' by (rewrite length_app; simpl; lia). rewrite <- app_assoc. reflexivity.
Qed.

Lemma bridges_elem mx l u : u ∈ bridges h ns mx l <->
  exists n v o, n ∈ l /\ ns !! n = Some v /\ h !! node_owner v = Some o /\ node_owner v = u /\
    holds_nothing o = false /\ Some u <> owner mx.
Proof.
  unfold bridges. rewrite list_elem_of_omap. split.
  - intros (n & Hn & E). destruct (ns !! n) as [v |] eqn:Hv; [| discriminate].
    destruct (h !! node_owner v) as [o |] eqn:Ho; [| discriminate].
    destruct (holds_nothing o) eqn:Eh; simpl in E; [discriminate |].
    case_bool_decide; [discriminate |]. injection E as <-. exists n, v, o. auto 7.
  - intros (n & v & o & Hn & Hv & Ho & <- & Eh & Hx). exists n. split; [exact Hn |].
    rewrite Hv, Ho, Eh. simpl. rewrite bool_decide_false by exact Hx. reflexivity.
Qed.
End snapshot.

(** The two minimum loops, by what the elements answer. *)
Section minima.
Lemma best_bridge_ok (rec : nat -> outcome nat) (P : nat -> nat -> Prop) bs best :
  (forall b, b ∈ bs -> ok (rec b) (P b)) ->
  ok (best_bridge rec bs best) (fun r => r <= best /\
    (forall b, b ∈ bs -> exists p, P b p /\ r <= p) /\
    (r = best \/ exists b, b ∈ bs /\ P b r)).
Proof.
  revert best. induction bs as [| b bs IH]; intros best Hb; cbn [best_bridge].
  - simpl. split_and!; [lia | intros b Hb'; inversion Hb' | auto].
  - apply ok_bind. eapply ok_mono; [apply Hb; left |]. intros u Hu. cbn beta.
    eapply ok_mono; [apply IH; intros; apply Hb; right; assumption |].
    intros r (H1 & H2 & H3). split_and!.
    + lia.
    + intros b' Hb'. apply elem_of_cons in Hb' as [-> | Hb']; [exists u; split; [exact Hu | lia] | auto].
    + destruct H3 as [-> | (b' & Hb' & HP)]; [| right; exists b'; split; [right |]; assumption].
      destruct (Nat.min_spec best u) as [[_ ->] | [_ ->]]; [auto | right; exists b; split; [left | exact Hu]].
Qed.

Context (h : heap) (ns : node_heap) (ms : gmap nat base_mutex).

Lemma fold_held_ok rec (P : nat -> nat -> Prop) ps floor :
  (forall m, Some m ∈ ps -> exists mx, ms !! m = Some mx /\ ok (urgency_contribution h ns rec mx) (P m)) ->
  ok (fold_held h ns ms rec ps floor) (fun r => r <= floor /\
    (forall m, Some m ∈ ps -> exists c, P m c /\ r <= c) /\
    (r = floor \/ exists m, Some m ∈ ps /\ P m r /\ r < floor)).
Proof.
  revert floor. induction ps as [| [m |] ps IH]; intros floor Hm; cbn [fold_held].
  - simpl. split_and!; [lia | intros m Hm'; inversion Hm' | auto].
  - destruct (Hm m ltac:(left)) as (mx & Hmx & Hc). rewrite (deref_ok _ _ _ Hmx). cbn [obind].
    apply ok_bind. eapply ok_mono; [exact Hc |]. intros c HP. cbn beta.
    eapply ok_mono; [apply IH; intros; apply Hm; right; assumption |].
    intros r (H1 & H2 & H3). split_and!.
    + lia.
    + intros m' Hm'. apply elem_of_cons in Hm' as [[= ->] | Hm']; [exists c; split; [exact HP | lia] | auto].
    + destruct H3 as [-> | (m' & Hm' & HP' & Hlt)];
        [| right; exists m'; split_and!; [right; assumption | assumption | lia]].
      destruct (Nat.min_spec c floor) as [[? ->] | [_ ->]]; [| auto].
      right. exists m. split_and!; [left | exact HP | assumption].
  - eapply ok_mono; [apply IH; intros; apply Hm; right; assumption |].
    intros r (H1 & H2 & H3). split_and!; [exact H1 | |].
    + intros m Hm'. apply elem_of_cons in Hm' as [[=] | Hm']. auto.
    + destruct H3 as [-> | (m & Hm' & HP)]; [auto | right; exists m; split; [right; assumption | exact HP]].
Qed.
End minima.

Section urgency.
Context (h : heap) (ns : node_heap) (ms : gmap nat base_mutex).
Local Abbreviation holds := (holds h).
Local Abbreviation waits := (waits h ns ms).
Local Abbreviation entitled := (entitled h ns ms).
Local Abbreviation fits := (fits h ns ms).

Lemma repr_det q l1 l2 : WaitQueue.repr h ns q l1 -> WaitQueue.repr h ns q l2 -> l1 = l2.
Proof. intros H1 H2. eapply chain_det; [apply (WaitQueue.wr_chain _ _ _ _ H1) | apply H2]. Qed.

Lemma entitled_base t v : h !! t = Some v -> entitled t (base_priority v).
Proof. intros Hv. exists t, v. split; [apply rtc_refl | auto]. Qed.

Lemma entitled_ceiling t m mx : holds t m -> ms !! m = Some mx -> uses_ceiling mx = true ->
  entitled t (ceiling_priority mx).
Proof.
  intros Hm Hmx Hc. pose proof Hm as (v & _ & Hv & _). exists t, v.
  split; [apply rtc_refl |]. split; [exact Hv |]. right. eauto 6.
Qed.

Lemma entitled_behind t m u q : holds t m -> waits u m -> entitled u q -> entitled t q.
Proof.
  intros Hm Hw (w & v & Hb & H). exists w, v. split; [| exact H].
  eapply rtc_l; [exists m; split; [exact Hm | exact Hw] | exact Hb].
Qed.

Lemma entitled_inv t q : entitled t q ->
  (exists v, h !! t = Some v /\ q = base_priority v) \/
  (exists m mx, holds t m /\ ms !! m = Some mx /\ uses_ceiling mx = true /\ q = ceiling_priority mx) \/
  (exists m u, holds t m /\ waits u m /\ entitled u q).
Proof.
  intros (u & v & Hb & Hv & Hq). inversion Hb as [| ? w ? (m & Hm & Hw) Hb']; subst.
  - destruct Hq as [<- | (m & mx & H1 & H2 & H3 & <-)]; [left; eauto | right; left; exists m, mx; auto].
  - right; right. exists m, w. split_and!; [exact Hm | exact Hw |]. exists u, v. auto.
Qed.

Lemma entitled_holds_nothing u v q : h !! u = Some v -> holds_nothing v = true ->
  entitled u q -> q = base_priority v.
Proof.
  intros Hv Hn Hq. assert (Hno : forall m, ~ holds u m).
  { intros m (v' & i & Hv' & Hb & _). rewrite Hv in Hv'. injection Hv' as <-.
    apply Z.eqb_eq in Hn. rewrite Hn, Z.bits_0 in Hb. discriminate. }
  apply entitled_inv in Hq as [(v' & Hv' & ->) | [(m & mx & Hm & _) | (m & w & Hm & _)]];
    [congruence | destruct (Hno m Hm) ..].
Qed.

Context (Hwf : wf h ns ms).

(** What the fold promises of a thread: never above anything the thread is
    entitled to, and itself one of those, unless [excused] and zero. *)
Definition answers (excused : Prop) (t p : nat) : Prop :=
  (forall q, entitled t q -> p <= q) /\ ((excused /\ p = 0) \/ entitled t p).

Section contribution.
Context (excused : Prop) (t m : nat) (mx : base_mutex) (l : list nat).
Context (Hm : holds t m) (Hmx : ms !! m = Some mx) (Hq : WaitQueue.repr h ns (mutex_queue mx) l)
  (Hc : WaitQueue.cache_ok h ns (owner mx) l (mutex_pi mx)).

Definition from_waiters (c : nat) : Prop :=
  (forall u q, waits u m -> entitled u q -> c <= q) /\
  ((excused /\ c = 0) \/ c = WaitQueue.no_waiter \/ entitled t c).

Lemma waits_node u : waits u m -> exists n v o, n ∈ l /\ ns !! n = Some v /\
  node_owner v = u /\ h !! u = Some o /\ WaitQueue.prio h ns n = base_priority o /\
  Some u <> owner mx.
Proof.
  intros (mx' & l' & n & v & Hmx' & Hq' & Hn & Hv & <- & Hx). rewrite Hmx in Hmx'. injection Hmx' as <-.
  rewrite (repr_det _ _ _ Hq' Hq) in Hn.
  destruct (key_inv h ns n (WaitQueue.wr_live _ _ _ _ Hq n Hn)) as (v' & o & Hv' & Ho & Hp).
  rewrite Hv in Hv'. injection Hv' as <-. exists n, v, o. auto 8.
Qed.

Lemma cached_le u o : waits u m -> h !! u = Some o -> top_priority (mutex_pi mx) <= base_priority o.
Proof.
  intros Hw Ho. destruct (waits_node u Hw) as (n & v & o' & Hn & Hv & E & Ho' & Hp & _).
  rewrite Ho in Ho'. injection Ho' as <-. rewrite (WaitQueue.co_top _ _ _ _ _ Hc), <- Hp.
  apply best_le; [apply (WaitQueue.wr_sorted _ _ _ _ Hq) | exact Hn].
Qed.

Lemma cached_origin : top_priority (mutex_pi mx) = WaitQueue.no_waiter \/
  entitled t (top_priority (mutex_pi mx)).
Proof.
  rewrite (WaitQueue.co_top _ _ _ _ _ Hc). destruct l as [| n l'] eqn:El; [left; reflexivity |].
  right. simpl. destruct (key_inv h ns n (WaitQueue.wr_live _ _ _ _ Hq n ltac:(left))) as (v & o & Hv & Ho & ->).
  destruct (decide (Some (node_owner v) = owner mx)) as [E | E].
  - destruct (wf_held _ _ _ Hwf t m Hm) as (mx' & Hmx' & Eo). rewrite Hmx in Hmx'. injection Hmx' as <-.
    rewrite Eo in E. injection E as E. rewrite E in Ho. apply entitled_base. exact Ho.
  - eapply entitled_behind; [exact Hm | | apply entitled_base; exact Ho].
    exists mx, (n :: l'), n, v. split_and!; auto. left.
Qed.

Lemma top_ok rec :
  excused \/ may_have_bridges (mutex_pi mx) = false \/
    (rec <> None /\ length (bridges h ns mx l) <= max_snapshot) ->
  (forall f u, rec = Some f -> u ∈ bridges h ns mx l -> ok (f u) (answers excused u)) ->
  ok (top h ns rec mx) from_waiters.
Proof.
  intros Hex Hrec. unfold top. destruct (may_have_bridges (mutex_pi mx)) eqn:Eb; cbn [negb].
  2: { split; [| right; apply cached_origin]. intros u q Hw He.
       destruct (waits_node u Hw) as (n & v & o & Hn & Hv & E & Ho & _ & Hx).
       rewrite (entitled_holds_nothing u o q Ho); [apply cached_le with u; assumption | | exact He].
       subst u. exact (WaitQueue.co_bridges _ _ _ _ _ Hc Eb n v o Hn Hv Ho Hx). }
  destruct rec as [f |].
  2: { destruct Hex as [Hex | [Hex | [Hex _]]]; [| discriminate | contradiction].
       split; [intros; lia | auto]. }
  rewrite (snapshot_ok h ns mx _ _ l []); [| apply Hq | apply Hq | | simpl; unfold max_snapshot; lia].
  2: { pose proof (chain_length _ _ _ _ (WaitQueue.wr_chain _ _ _ _ Hq)). lia. }
  cbn [obind app]. destruct (Nat.leb_spec (length (bridges h ns mx l)) max_snapshot) as [Hle | Hgt]; cbn [negb].
  2: { destruct Hex as [Hex | [Hex | [_ Hex]]]; [split; [intros; lia | auto] | discriminate | lia]. }
  rewrite take_ge by exact Hle. eapply ok_mono.
  - apply best_bridge_ok with (P := answers excused). intros b Hb. apply Hrec; [reflexivity | exact Hb].
  - intros r (H1 & H2 & H3). split.
    + intros u q Hw He. destruct (waits_node u Hw) as (n & v & o & Hn & Hv & E & Ho & _ & Hx).
      destruct (holds_nothing o) eqn:Eh.
      * rewrite (entitled_holds_nothing u o q Ho Eh He). pose proof (cached_le u o Hw Ho). lia.
      * destruct (H2 u) as (p & [Hp _] & Hr); [| specialize (Hp q He); lia].
        apply bridges_elem. exists n, v, o. subst u. auto 7.
    + destruct H3 as [-> | (b & Hb & [_ [[Hx ->] | He]])]; [right; apply cached_origin | auto |].
      right; right. apply bridges_elem in Hb as (n & v & o & Hn & Hv & Ho & <- & Eh & Hx).
      eapply entitled_behind; [exact Hm | | exact He]. exists mx, l, n, v. auto 8.
Qed.

Lemma contribution_ok rec : ok (top h ns rec mx) from_waiters ->
  ok (urgency_contribution h ns rec mx)
     (fun c => from_waiters c /\ (uses_ceiling mx = true -> c <= ceiling_priority mx)).
Proof.
  intros Ht. unfold urgency_contribution. apply ok_bind. eapply ok_mono; [exact Ht |].
  intros c [H1 H2]. simpl. destruct (uses_ceiling mx) eqn:Eu; [| split; [split; assumption | discriminate]].
  split; [| lia]. split; [intros u q Hw He; specialize (H1 u q Hw He); lia |].
  destruct (Nat.min_spec (ceiling_priority mx) c) as [[_ ->] | [_ ->]]; [| exact H2].
  right; right. eapply entitled_ceiling; eassumption.
Qed.
End contribution.

(** One level of the fold, from what the level below answers. *)
Lemma donated_floor_ok excused rec t v : h !! t = Some v ->
  (forall m mx l, holds t m -> ms !! m = Some mx -> WaitQueue.repr h ns (mutex_queue mx) l ->
     (excused \/ may_have_bridges (mutex_pi mx) = false \/
      (rec <> None /\ length (bridges h ns mx l) <= max_snapshot)) /\
     (forall f u, rec = Some f -> u ∈ bridges h ns mx l -> ok (f u) (answers excused u))) ->
  ok (donated_floor h ns ms rec t) (answers excused t).
Proof.
  intros Hv Hrec. unfold donated_floor. rewrite (deref_ok _ _ _ Hv). cbn [obind].
  destruct (wf_slots _ _ _ Hwf t v Hv) as (Hl & Hmask & Hbase).
  destruct (Z.eqb_spec (held_mask v) 0) as [E | E].
  - assert (Hn : holds_nothing v = true) by (apply Z.eqb_eq; exact E). split.
    + intros q Hq. rewrite (entitled_holds_nothing t v q Hv Hn Hq). reflexivity.
    + right. apply entitled_base, Hv.
  - rewrite fold_slots_selected by assumption.
    assert (Hheld : forall m, Some m ∈ selected (held_mask v) (held_slots v) <-> holds t m).
    { intros m. rewrite selected_elem by assumption. unfold Urgency.holds. split.
      - intros (i & H1 & H2). eauto 6.
      - intros (v' & i & Hv' & H1 & H2). rewrite Hv in Hv'. injection Hv' as <-. eauto. }
    eapply ok_mono.
    + apply fold_held_ok with (P := fun m c => exists mx, ms !! m = Some mx /\ from_waiters excused t m c /\
        (uses_ceiling mx = true -> c <= ceiling_priority mx)).
      intros m Hm. apply Hheld in Hm. destruct (wf_held _ _ _ Hwf t m Hm) as (mx & Hmx & Ho).
      destruct (wf_mutex _ _ _ Hwf m mx Hmx) as (l & Hq & Hc). exists mx. split; [exact Hmx |].
      destruct (Hrec m mx l Hm Hmx Hq) as [H1 H2].
      eapply ok_mono; [eapply contribution_ok; try eassumption; eapply top_ok; eassumption |]. intros c [H3 H4]. eauto.
    + intros r (H1 & H2 & H3). split.
      * intros q Hq. apply entitled_inv in Hq as [(v' & Hv' & ->) | [(m & mx & Hm & Hmx & Hu & ->) | (m & u & Hm & Hw & He)]].
        -- rewrite Hv in Hv'. injection Hv' as <-. exact H1.
        -- destruct (H2 m (proj2 (Hheld m) Hm)) as (c & (mx' & Hmx' & _ & Hc) & Hr).
           rewrite Hmx in Hmx'. injection Hmx' as <-. specialize (Hc Hu). lia.
        -- destruct (H2 m (proj2 (Hheld m) Hm)) as (c & (mx' & _ & [Hc _] & _) & Hr).
           specialize (Hc u q Hw He). lia.
      * destruct H3 as [-> | (m & Hm & (mx & _ & [_ H4] & _) & Hlt)]; [right; apply entitled_base, Hv |].
        destruct H4 as [H4 | [-> | H4]]; auto. unfold WaitQueue.no_waiter in Hlt. lia.
Qed.

Lemma urgency_at_ok excused depth t v : h !! t = Some v -> excused \/ fits depth t ->
  ok (urgency_at h ns ms depth t) (answers excused t).
Proof.
  revert t v. induction depth as [| depth IH]; intros t v Hv Hex; cbn [urgency_at];
    (eapply donated_floor_ok; [exact Hv |]); intros m mx l Hm Hmx Hq.
  - split; [destruct Hex as [Hex | Hex]; [auto | right; left; exact (Hex m mx Hm Hmx)] | discriminate].
  - destruct Hex as [Hex | Hex].
    + split; [auto |]. intros f u [= <-] Hu. apply bridges_elem in Hu as (n & vn & o & _ & _ & Ho & <- & _).
      eapply IH; [exact Ho | auto].
    + destruct (Hex m mx l Hm Hmx Hq) as [H1 H2]. split; [right; right; split; [discriminate | exact H1] |].
      intros f u [= <-] Hu. specialize (H2 u Hu).
      apply bridges_elem in Hu as (n & vn & o & _ & _ & Ho & <- & _). eapply IH; [exact Ho | auto].
Qed.

Lemma urgency_ok excused t v : h !! t = Some v -> excused \/ fits max_inheritance_depth t ->
  ok (urgency h ns ms t) (answers excused t).
Proof.
  intros Hv Hex. unfold urgency. rewrite (deref_ok _ _ _ Hv). cbn [obind].
  destruct (Z.eqb_spec (held_mask v) 0) as [E | E]; [| eapply urgency_at_ok; eassumption].
  assert (Hn : holds_nothing v = true) by (apply Z.eqb_eq; exact E). split.
  - intros q Hq. rewrite (entitled_holds_nothing t v q Hv Hn Hq). reflexivity.
  - right. apply entitled_base, Hv.
Qed.
End urgency.

(** ** What urgency depends on

    The fold reads three members of a control block, so nothing the scheduler
    writes can move anyone's urgency. *)
Section frame.
Context (h h' : heap) (Hview : urgency_view <$> h = urgency_view <$> h').

Lemma view_lookup t : urgency_view <$> h !! t = urgency_view <$> h' !! t.
Proof. rewrite <- !lookup_fmap, Hview. reflexivity. Qed.

Lemma view_transfer t v : h !! t = Some v -> exists v', h' !! t = Some v' /\
  base_priority v' = base_priority v /\ held_slots v' = held_slots v /\ held_mask v' = held_mask v.
Proof.
  intros Hv. pose proof (view_lookup t) as E. rewrite Hv in E.
  destruct (h' !! t) as [v' |]; [| discriminate]. injection E as E1 E2 E3. eauto 6.
Qed.

Lemma deref_view {A} t (k k' : thread_control_block -> outcome A) :
  (forall v v', base_priority v = base_priority v' -> held_slots v = held_slots v' ->
     held_mask v = held_mask v' -> k v = k' v') ->
  obind (deref h t) k = obind (deref h' t) k'.
Proof.
  intros Hk. pose proof (view_lookup t) as E. unfold deref.
  destruct (h !! t) as [v |], (h' !! t) as [v' |]; simpl in *; try discriminate; [| reflexivity].
  injection E as E1 E2 E3. auto.
Qed.

Lemma key_frame ns n : WaitQueue.key h ns n = WaitQueue.key h' ns n.
Proof.
  unfold WaitQueue.key. destruct (deref ns n) as [v |]; [| reflexivity]. simpl.
  apply deref_view. intros v1 v2 -> _ _. reflexivity.
Qed.

Lemma prio_frame ns n : WaitQueue.prio h ns n = WaitQueue.prio h' ns n.
Proof. unfold WaitQueue.prio. rewrite key_frame. reflexivity. Qed.

Lemma repr_frame ns q l : WaitQueue.repr h ns q l -> WaitQueue.repr h' ns q l.
Proof.
  intros [H1 H2 H3]. split; [exact H1 | |].
  - intros n Hn. rewrite <- key_frame. auto.
  - eapply StronglySorted_weaken; [| exact H3]. intros a b. simpl. rewrite !prio_frame. auto.
Qed.

Lemma snapshot_frame ns fuel holder n found :
  snapshot h ns fuel holder n found = snapshot h' ns fuel holder n found.
Proof.
  revert n found. induction fuel as [| fuel IH]; intros [n |] found; simpl; try reflexivity.
  destruct (deref ns n) as [v |]; [| reflexivity]. simpl. apply deref_view.
  intros v1 v2 _ _ E. unfold holds_nothing. rewrite E, !IH. reflexivity.
Qed.

Lemma top_frame ns rec rec' mx :
  match rec, rec' with
  | Some f, Some f' => forall u, f u = f' u
  | None, None => True
  | _, _ => False
  end -> top h ns rec mx = top h' ns rec' mx.
Proof.
  intros Hrec. unfold top. destruct (may_have_bridges _); [| reflexivity]. cbn [negb].
  destruct rec as [f |], rec' as [f' |]; try contradiction; [| reflexivity].
  rewrite snapshot_frame. destruct (snapshot _ _ _ _ _ _) as [[bs [|]] |]; try reflexivity. simpl.
  generalize (top_priority (mutex_pi mx)). induction bs as [| b bs IH]; intros best; simpl; [reflexivity |].
  rewrite Hrec. destruct (f' b); simpl; [apply IH | reflexivity].
Qed.

Lemma fold_slots_frame ns ms fuel rec rec' mask slots floor :
  (forall mx, top h ns rec mx = top h' ns rec' mx) ->
  fold_slots h ns ms fuel rec mask slots floor = fold_slots h' ns ms fuel rec' mask slots floor.
Proof.
  intros Ht. revert mask floor. induction fuel as [| fuel IH]; intros mask floor; simpl;
    (destruct (mask =? 0)%Z; [reflexivity |]); [reflexivity |].
  destruct (slots !! _) as [[held |] |]; [| apply IH | reflexivity].
  destruct (deref ms held) as [mx |]; [| reflexivity]. simpl.
  unfold urgency_contribution. rewrite Ht. destruct (top h' ns rec' mx); simpl; [apply IH | reflexivity].
Qed.

Lemma urgency_at_frame ns ms depth t :
  urgency_at h ns ms depth t = urgency_at h' ns ms depth t.
Proof.
  revert t. induction depth as [| depth IH]; intros t; cbn [urgency_at]; unfold donated_floor;
    apply deref_view; intros v v' -> -> ->; (destruct (_ =? 0)%Z; [reflexivity |]);
    apply fold_slots_frame; intros mx; apply top_frame; auto.
Qed.

Lemma urgency_frame ns ms t : urgency h ns ms t = urgency h' ns ms t.
Proof.
  unfold urgency. apply deref_view. intros v v' -> _ ->. rewrite urgency_at_frame. reflexivity.
Qed.
End frame.

Lemma wf_frame h h' ns ms : urgency_view <$> h = urgency_view <$> h' -> wf h ns ms -> wf h' ns ms.
Proof.
  intros Hview [H1 H2 H3]. split.
  - intros t v Hv. destruct (view_transfer h' h (eq_sym Hview) t v Hv) as (v' & Hv' & <- & <- & <-). eauto.
  - intros t m (v & i & Hv & Hb & Hi).
    destruct (view_transfer h' h (eq_sym Hview) t v Hv) as (v' & Hv' & E1 & E2 & E3).
    apply H2. exists v', i. rewrite E2, E3. auto.
  - intros m mx Hm. destruct (H3 m mx Hm) as (l & Hq & [Hc1 Hc2]). exists l.
    split; [eapply repr_frame; eassumption |]. split.
    + rewrite Hc1. unfold WaitQueue.best. destruct l; [reflexivity |]. apply prio_frame, Hview.
    + intros Hb n v o Hn Hv Ho Hx.
      destruct (view_transfer h' h (eq_sym Hview) _ o Ho) as (o' & Ho' & E1 & E2 & E3).
      unfold holds_nothing. rewrite <- E3. eapply Hc2; eauto.
Qed.
