(* ===== verification/Scheduler.v ===== *)
(** * The scheduler: scheduler.hpp and scheduler.cpp

    Every operation of a core's scheduler, and the two of kernel.cpp it calls
    back into ([global_ready_thread], [unregister_thread]).  An operation runs
    to its end as one step, because the code runs it with this core's
    interrupts masked and reaches other cores only through their intakes
    (the file Intake takes those apart).  A call that switches threads ends,
    in the model, with the port call that switches: what the code does after
    it belongs to whenever the thread runs again. *)

From S2P Require Import Prelude Chain State ReadyQueue WaitQueue Urgency.

(** What the port answers about the context a call is made from. *)
Record cpu := Cpu {
  this_core : nat;                     (* cyros_port_get_core_id() *)
  masked_from_baseline : bool;         (* cyros_port_masked_from_baseline(mask) *)
  interrupted_at_baseline : bool       (* cyros_port_interrupted_at_baseline() *)
}.

(** [thread_control_block::request_bit]. *)
Definition request_bit (r : thread_request) : Z :=
  match r with ThreadRequest.make_ready => bit 0 end.

(** A queue operation of the ready matrix, on the core's own matrix. *)
Definition on_matrix (c : nat)
    (f : thread_ready_matrix -> heap -> outcome (thread_ready_matrix * heap)) : K unit :=
  let* sc := get_scheduler c in
  let* h := kget tcbs in
  let* '(m, h) := klift (f (ready_matrix sc) h) in
  kmodify (set_tcbs h) ;;*
  modify_scheduler c (set_ready_matrix m).

(** [urgency] of scheduler.hpp, on the kernel's heaps. *)
Definition urgency (t : nat) : K nat :=
  let* s := kget id in
  klift (Urgency.urgency (tcbs s) (nodes s) (mutexes s) t).

Section scheduler.
Context `{Config}.

Definition pop_best_thread (c : nat) : K (option nat) :=
  let* sc := get_scheduler c in
  let* h := kget tcbs in
  let* '(t, m, h) := klift (ReadyMatrix.pop_best_thread (ready_matrix sc) h) in
  kmodify (set_tcbs h) ;;*
  modify_scheduler c (set_ready_matrix m) ;;*
  kret t.

Definition current_thread_urgency (c : nat) : K nat :=
  let* sc := get_scheduler c in
  match current_thread sc with
  | Some t => urgency t
  | None => kret 0
  end.

Definition current_thread_id (c : nat) : K Z :=
  let* sc := get_scheduler c in
  match current_thread sc with
  | Some t => let* v := get_tcb t in kret (thread_id v)
  | None => kret 0%Z
  end.

Definition get_current_thread (c : nat) : K nat :=
  let* sc := get_scheduler c in
  kensure assert_failed (negb (bool_decide (current_thread sc = None))) ;;*
  klift (nonnull (current_thread sc)).

Definition pin_thread (c t : nat) : K unit :=
  let* sc := get_scheduler c in
  kensure assert_failed (core_id sc <? port_core_count) ;;*
  modify_tcb t (set_pinned_core (core_id sc)) ;;*
  modify_scheduler c (fun sc => set_pinned_thread_counter (u32 (pinned_thread_counter sc + 1)) sc).

(** ** The holder list *)

Definition link_holder (c t : nat) : K unit :=
  let* sc := get_scheduler c in
  let* v := get_tcb t in
  kensure assert_failed (pinned_core v =? core_id sc) ;;*
  if is_listed_holder t v then kret tt
  else
    modify_tcb t (set_holder_next None) ;;*
    (match holders_tail sc with
     | None => modify_scheduler c (set_holders_head (Some t))
     | Some tl => modify_tcb tl (set_holder_next (Some t))
     end) ;;*
    modify_scheduler c (set_holders_tail (Some t)).

(** The search of [unlink_holder]: [current] behind [previous]. *)
Fixpoint find_holder (fuel : nat) (t : nat) (previous current : option nat) :
    K (option nat * option nat) :=
  match current with
  | None => kret (previous, None)
  | Some c =>
      if bool_decide (c = t) then kret (previous, Some c)
      else
        match fuel with
        | O => klift (Panic out_of_fuel)
        | S fuel => let* v := get_tcb c in find_holder fuel t (Some c) (holder_next v)
        end
  end.

Definition unlink_holder (c t : nat) : K unit :=
  let* sc := get_scheduler c in
  let* v := get_tcb t in
  kensure assert_failed (pinned_core v =? core_id sc) ;;*
  if negb (is_listed_holder t v) then kret tt
  else
    let* h := kget tcbs in
    let* '(previous, current) := find_holder (S (size h)) t None (holders_head sc) in
    kensure assert_failed (bool_decide (current = Some t)) ;;*
    (match previous with
     | None => modify_scheduler c (set_holders_head (holder_next v))
     | Some p => modify_tcb p (set_holder_next (holder_next v))
     end) ;;*
    (if bool_decide (holders_tail sc = Some t)
     then modify_scheduler c (set_holders_tail previous) else kret tt) ;;*
    modify_tcb t (set_holder_next (Some t)).

(** ** Filing a thread *)

Definition admit_thread (c t : nat) (at_front : bool) : K unit :=
  modify_tcb t (set_state ThreadState.ready) ;;*
  emit (trace_point Trace.thread_ready t) ;;*
  let* sc := get_scheduler c in
  if bool_decide (idle_thread sc = Some t) then kret tt
  else
    let* v := get_tcb t in
    if holds_nothing v then
      if at_front then on_matrix c (ReadyMatrix.enqueue_thread_front t)
      else on_matrix c (ReadyMatrix.enqueue_thread t)
    else link_holder c t.

(** [urgency(tcb) < current_thread_urgency()]. *)
Definition hint_for (c t : nat) : K schedule_hint :=
  let* u := urgency t in
  let* cu := current_thread_urgency c in
  kret (if u <? cu then ScheduleHint.warranted else ScheduleHint.unwarranted).

Definition is_finished (v : thread_control_block) : bool :=
  bool_decide (state v = ThreadState.terminated) ||
  bool_decide (disposition v = ThreadDisposition.terminating).

Definition make_ready (c t : nat) : K schedule_hint :=
  let* v := get_tcb t in
  if is_finished v then kret ScheduleHint.unwarranted
  else if is_enqueued t v || is_listed_holder t v then
    kensure assert_failed (bool_decide (state v = ThreadState.ready)) ;;*
    if is_enqueued t v && negb (holds_nothing v) then
      on_matrix c (ReadyMatrix.remove_thread t) ;;*
      link_holder c t ;;*
      hint_for c t
    else kret ScheduleHint.unwarranted
  else
    admit_thread c t false ;;*
    hint_for c t.

Definition set_thread_running (c t : nat) : K unit :=
  let* sc := get_scheduler c in
  let* v := get_tcb t in
  kensure assert_failed (pinned_core v =? core_id sc) ;;*
  kensure assert_failed (bool_decide (state v = ThreadState.ready)) ;;*
  modify_tcb t (set_state ThreadState.running) ;;*
  modify_scheduler c (set_current_thread (Some t)) ;;*
  emit (trace_point Trace.thread_running t).

Definition set_thread_blocked (c t : nat) : K unit :=
  let* sc := get_scheduler c in
  let* v := get_tcb t in
  kensure assert_failed (pinned_core v =? core_id sc) ;;*
  kensure assert_failed (bool_decide (state v = ThreadState.running)) ;;*
  kensure assert_failed (bool_decide (disposition v = ThreadDisposition.prepared)) ;;*
  kensure assert_failed (negb (is_enqueued t v)) ;;*
  modify_tcb t (set_disposition ThreadDisposition.none) ;;*
  modify_tcb t (set_state ThreadState.blocked) ;;*
  emit (trace_point Trace.thread_blocked t).

(** ** The pick *)

(** The loop of [pick_with_holders]: the first holder of the best urgency. *)
Fixpoint best_holder (fuel : nat) (h : option nat) (best : option nat) (best_urgency : nat) :
    K (option nat * nat) :=
  match h with
  | None => kret (best, best_urgency)
  | Some t =>
      match fuel with
      | O => klift (Panic out_of_fuel)
      | S fuel =>
          let* u := urgency t in
          let* v := get_tcb t in
          if u <? best_urgency then best_holder fuel (holder_next v) (Some t) u
          else best_holder fuel (holder_next v) best best_urgency
      end
  end.

Definition pick_with_holders (c : nat) : K (option nat) :=
  let* sc := get_scheduler c in
  let best_base := ReadyMatrix.best_priority (ready_matrix sc) in
  let* h := kget tcbs in
  let* '(best, best_holder_urgency) := best_holder (S (size h)) (holders_head sc) None 255 in
  match best with
  | None => pop_best_thread c
  | Some holder =>
      let take_holder := (unlink_holder c holder ;;* kret (Some holder)) in
      if (0 <=? best_base)%Z then
        let base := Z.to_nat best_base in
        if base <? best_holder_urgency then pop_best_thread c
        else if base =? best_holder_urgency then
          let b := bit base in
          modify_scheduler c (fun sc => set_tie_rotor (Z.lxor (tie_rotor sc) b) sc) ;;*
          let* sc := get_scheduler c in
          if (Z.land (tie_rotor sc) b =? 0)%Z then pop_best_thread c else take_holder
        else take_holder
      else take_holder
  end.

Definition pick_next (c : nat) : K (option nat) :=
  let* sc := get_scheduler c in
  if bool_decide (holders_head sc = None) then pop_best_thread c else pick_with_holders c.

Definition run_next (c : nat) : K nat :=
  let* next := pick_next c in
  let* sc := get_scheduler c in
  let* next := klift (nonnull (match next with Some t => Some t | None => idle_thread sc end)) in
  set_thread_running c next ;;*
  kret next.
End scheduler.
