(* ===== verification/SchedulerSpec.v ===== *)
(** * What a scheduler promises

    The abstract state of a core: a list of threads per priority level, the
    list of ready holders, and which thread runs.  [core_ok] relates it to a
    core's scheduler and its threads' control blocks; [pick] is the choice the
    core makes, on the lists alone. *)

From S2P Require Import Prelude Chain State ReadyQueue WaitQueue Urgency Scheduler.

(** ** Frames *)

(** [h'] is [h] with only the two scheduling links changed. *)
Definition erase_links (v : thread_control_block) : thread_control_block :=
  set_next None (set_holder_next None v).
Definition same_but_links (h h' : heap) : Prop := erase_links <$> h = erase_links <$> h'.

#[export] Instance same_but_links_equiv : Equivalence same_but_links.
Proof. unfold same_but_links. split; [intros ? | intros ? ? ? | intros ? ? ? -> ->]; auto. Qed.

(** Blocks of other cores' threads are as they were. *)
Definition others_kept (c : nat) (h h' : heap) : Prop :=
  forall t v, pinned_core v <> c -> h !! t = Some v <-> h' !! t = Some v.

#[export] Instance others_kept_equiv c : Equivalence (others_kept c).
Proof.
  split; [intros h t v _; reflexivity | intros h h' Ho t v Hp; symmetry; auto |].
  intros h1 h2 h3 H1 H2 t v Hp. rewrite (H1 t v Hp). auto.
Qed.

(** From [s] to [s'], core [c] touched nothing but its own scheduler, the
    scheduling of its own threads, and the port. *)
Record local (c : nat) (s s' : kernel_state) : Prop := {
  lc_urgency : urgency_view <$> tcbs s = urgency_view <$> tcbs s';
  lc_others : others_kept c (tcbs s) (tcbs s');
  lc_nodes : nodes s' = nodes s;
  lc_mutexes : mutexes s' = mutexes s;
  lc_waitables : waitables s' = waitables s;
  lc_signals : signals s' = signals s;
  lc_schedulers : forall c', c' <> c -> schedulers s' !! c' = schedulers s !! c';
  lc_cores : length (schedulers s') = length (schedulers s);
  lc_running : running s' = running s;
  lc_active : active_threads s' = active_threads s
}.

Section spec.
Context `{Config}.

(** ** The structures and their members *)

Definition listed (L : Levels.levels) (H : list nat) (t : nat) : Prop :=
  (exists p, t ∈ Levels.level L p) \/ t ∈ H.

(** [L] and [H] are what core [c]'s ready matrix and holder list hold, and
    each link's sentinel tells the truth about its structure. *)
Record filed (c : nat) (h : heap) (sc : scheduler) (L : Levels.levels) (Hs : list nat) : Prop := {
  fl_matrix : matrix_repr h (ready_matrix sc) L;
  fl_levels : length L = max_priorities;
  fl_holders : tailed holder_next h (holders_head sc) (holders_tail sc) Hs;
  fl_enqueued : forall t v, h !! t = Some v -> pinned_core v = c ->
    is_enqueued t v = true -> t ∈ Levels.level L (base_priority v);
  fl_listed : forall t v, h !! t = Some v -> pinned_core v = c ->
    is_listed_holder t v = true -> t ∈ Hs
}.

(** Who may be in them, and in what state: the ready threads and no others,
    each once, the idle thread never; and [run], if any, is the core's one
    running thread. *)
Record status (c : nat) (h : heap) (L : Levels.levels) (Hs : list nat) (idle run : option nat) : Prop := {
  st_listed : forall t, listed L Hs t -> exists v, h !! t = Some v /\ pinned_core v = c /\
    state v = ThreadState.ready /\ idle <> Some t;
  st_once : forall p t, t ∈ Levels.level L p -> t ∉ Hs;
  st_ready : forall t v, h !! t = Some v -> pinned_core v = c ->
    state v = ThreadState.ready -> idle <> Some t -> listed L Hs t;
  st_running : forall t v, h !! t = Some v -> pinned_core v = c ->
    state v = ThreadState.running -> run = Some t;
  st_run : forall t, run = Some t -> exists v, h !! t = Some v /\ pinned_core v = c /\
    state v = ThreadState.running;
  st_idle : exists i v, idle = Some i /\ h !! i = Some v /\ pinned_core v = c /\
    (state v = ThreadState.ready \/ state v = ThreadState.running) /\ holds_nothing v = true;
  st_priority : forall t v, h !! t = Some v -> pinned_core v = c -> base_priority v < max_priorities
}.

Record core_ok (c : nat) (sc : scheduler) (h : heap) (L : Levels.levels) (Hs : list nat)
    (run : option nat) : Prop := {
  co_id : core_id sc = c;
  co_filed : filed c h sc L Hs;
  co_status : status c h L Hs (idle_thread sc) run;
  co_current : forall t, current_thread sc = Some t -> exists v, h !! t = Some v /\ pinned_core v = c;
  co_run : forall t, run = Some t -> current_thread sc = Some t
}.

(** Core [c] of [s], in full. *)
Definition core (c : nat) (s : kernel_state) (L : Levels.levels) (Hs : list nat) (run : option nat) : Prop :=
  exists sc, schedulers s !! c = Some sc /\ core_ok c sc (tcbs s) L Hs run.

(** ** The intake *)

(** [I] is what core [c]'s intake holds, the latest request first, and a
    thread has a request outstanding exactly when it is there. *)
Record intake_ok (c : nat) (h : heap) (sc : scheduler) (I : list nat) : Prop := {
  in_chain : chain intake_next h (intake_head sc) I;
  in_claimed : forall t, t ∈ I -> exists v, h !! t = Some v /\ pinned_core v = c /\
    pending_requests v = request_bit ThreadRequest.make_ready;
  in_free : forall t v, h !! t = Some v -> pinned_core v = c -> t ∉ I -> pending_requests v = 0%Z
}.

(** A thread's urgency, and the running thread's, as numbers. *)
Definition urg (s : kernel_state) (h : heap) (t : nat) : nat :=
  match Urgency.urgency h (nodes s) (mutexes s) t with Ok u => u | Panic _ => 255 end.

Definition current_urg (s : kernel_state) (sc : scheduler) (h : heap) : nat :=
  match current_thread sc with Some t => urg s h t | None => 0 end.

(** Core [c] of [s], between two switches: [sc] is its scheduler, which
    files [L] and [Hs], runs [run] and has [I] on its intake. *)
Record core_inv (c : nat) (s : kernel_state) (sc : scheduler) (L : Levels.levels) (Hs : list nat)
    (run : option nat) (I : list nat) : Prop := {
  ci_scheduler : schedulers s !! c = Some sc;
  ci_core : core_ok c sc (tcbs s) L Hs run;
  ci_urgency : Urgency.wf (tcbs s) (nodes s) (mutexes s);
  ci_intake : intake_ok c (tcbs s) sc I;
  ci_single : cores = 1 -> I = []
}.

(** ** Filing a thread *)

(** Whether readying [t] puts it somewhere it was not. *)
Definition moves (t : nat) (v : thread_control_block) (L : Levels.levels) (Hs : list nat) : bool :=
  negb (is_finished v) &&
  (if bool_decide (t ∈ Levels.level L (base_priority v)) then negb (holds_nothing v)
   else negb (bool_decide (t ∈ Hs))).

Definition ready_hint (s : kernel_state) (sc : scheduler) (h : heap) (t : nat)
    (v : thread_control_block) (L : Levels.levels) (Hs : list nat) : schedule_hint :=
  if moves t v L Hs && (urg s h t <? current_urg s sc h) then ScheduleHint.warranted
  else ScheduleHint.unwarranted.

(** The lists once [t], whose block is [v], is filed: the idle thread
    nowhere, a holder behind the holders, anyone else at its own level. *)
Definition admitted (idle : option nat) (front : bool) (t : nat) (v : thread_control_block)
    (L : Levels.levels) (Hs : list nat) : Levels.levels * list nat :=
  if bool_decide (idle = Some t) then (L, Hs)
  else if holds_nothing v then
    ((if front then Levels.push_front else Levels.push_back) (base_priority v) t L, Hs)
  else (L, Hs ++ [t]).

(** The lists once [t] is made ready: unchanged if it is finished or filed
    already, except that a thread that came to hold something while filed in
    the matrix moves to the holders. *)
Definition made_ready (idle : option nat) (t : nat) (v : thread_control_block)
    (L : Levels.levels) (Hs : list nat) : Levels.levels * list nat :=
  if is_finished v then (L, Hs)
  else if bool_decide (t ∈ Levels.level L (base_priority v)) then
    if holds_nothing v then (L, Hs) else (Levels.remove (base_priority v) t L, Hs ++ [t])
  else if bool_decide (t ∈ Hs) then (L, Hs)
  else admitted idle false t v L Hs.

(** The running thread, once [t] no longer is. *)
Definition stopped (t : nat) (run : option nat) : option nat :=
  if bool_decide (run = Some t) then None else run.

(** Where a departing thread is filed, and how its block is left. *)
Definition departed (idle : option nat) (reason : departure_reason) (t : nat) (v : thread_control_block)
    (L : Levels.levels) (Hs : list nat) : Levels.levels * list nat :=
  match reason with
  | DepartureReason.yielded => admitted idle false t v L Hs
  | DepartureReason.preempted => admitted idle true t v L Hs
  | DepartureReason.parked | DepartureReason.exited => (L, Hs)
  end.

Definition departed_block (reason : departure_reason) (v : thread_control_block) : thread_control_block :=
  match reason with
  | DepartureReason.yielded | DepartureReason.preempted => set_state ThreadState.ready v
  | DepartureReason.parked => set_state ThreadState.blocked (set_disposition ThreadDisposition.none v)
  | DepartureReason.exited => set_state ThreadState.terminated v
  end.

(** The core's lists and running thread once the threads of [ts], whose
    blocks are [h]'s, have been made ready in that order. *)
Fixpoint arrivals (idle : option nat) (h : heap) (ts : list nat) (L : Levels.levels) (Hs : list nat)
    (run : option nat) : Levels.levels * list nat * option nat :=
  match ts with
  | [] => (L, Hs, run)
  | t :: ts =>
      match h !! t with
      | Some v =>
          let '(L, Hs) := made_ready idle t v L Hs in
          arrivals idle h ts L Hs (if is_finished v then run else stopped t run)
      | None => arrivals idle h ts L Hs run
      end
  end.

(** A block once its thread's request has been serviced. *)
Definition serviced (v : thread_control_block) : thread_control_block :=
  let v := set_pending_requests 0%Z (set_intake_next None v) in
  if bool_decide (disposition v = ThreadDisposition.terminating) then v
  else
    let v := set_disposition ThreadDisposition.none v in
    if is_finished v then v else set_state ThreadState.ready v.

(** ** The pick *)

(** The first of [l] whose urgency none beats, with it. *)
Fixpoint first_best (u : nat -> nat) (l : list nat) (best : option nat) (best_urgency : nat) :
    option nat * nat :=
  match l with
  | [] => (best, best_urgency)
  | t :: l => if u t <? best_urgency then first_best u l (Some t) (u t)
              else first_best u l best best_urgency
  end.

Inductive side := from_matrix | from_holders (t : nat).

(** Which side the next thread comes from, and the rotor after choosing. *)
Definition choose (u : nat -> nat) (L : Levels.levels) (Hs : list nat) (rotor : Z) : side * Z :=
  match first_best u Hs None 255, Levels.best L with
  | (None, _), _ => (from_matrix, rotor)
  | (Some t, _), None => (from_holders t, rotor)
  | (Some t, ut), Some p =>
      if p <? ut then (from_matrix, rotor)
      else if p =? ut then
        let rotor := Z.lxor rotor (bit p) in
        (if (Z.land rotor (bit p) =? 0)%Z then from_matrix else from_holders t, rotor)
      else (from_holders t, rotor)
  end.

(** The urgency a filed thread competes with: its level, or its own. *)
Definition competes (u : nat -> nat) (L : Levels.levels) (Hs : list nat) (t e : nat) : Prop :=
  t ∈ Levels.level L e \/ (t ∈ Hs /\ u t = e).

(** No thread is filed twice. *)
Record distinct (L : Levels.levels) (Hs : list nat) : Prop := {
  ds_level : forall p, NoDup (Levels.level L p);
  ds_levels : forall p q t, t ∈ Levels.level L p -> t ∈ Levels.level L q -> p = q;
  ds_holders : NoDup Hs;
  ds_once : forall p t, t ∈ Levels.level L p -> t ∉ Hs
}.

(** The thread picked, and the core's lists and rotor without it. *)
Definition pick (u : nat -> nat) (L : Levels.levels) (Hs : list nat) (rotor : Z) :
    option nat * Levels.levels * list nat * Z :=
  let '(from, rotor) := choose u L Hs rotor in
  match from with
  | from_holders t => (Some t, L, filter (fun x => x <> t) Hs, rotor)
  | from_matrix =>
      match Levels.pop L with
      | Some (t, L) => (Some t, L, Hs, rotor)
      | None => (None, L, Hs, rotor)
      end
  end.

(** A switch, on the lists: the intake taken in arrival order, the running
    thread filed by why it departs unless its own wake was among them, and
    the pick, or the idle thread, made running. *)
Definition switched (u : nat -> nat) (idle : option nat) (rotor : Z) (h : heap) (I : list nat)
    (reason : departure_reason) (prev : nat) (L : Levels.levels) (Hs : list nat) :
    option nat * Levels.levels * list nat * Z :=
  let '(L, Hs, run) := arrivals idle h (reverse I) L Hs (Some prev) in
  let '(L, Hs) :=
    match run, h !! prev with
    | Some _, Some v => departed idle reason prev v L Hs
    | _, _ => (L, Hs)
    end in
  let '(next, L, Hs, rotor) := pick u L Hs rotor in
  (match next with Some t => Some t | None => idle end, L, Hs, rotor).

(** What the handler's road takes the running thread's departure for, once
    the intake is in: a preemption if a thread at a more urgent level is ready
    and no holder is about, and otherwise a rotation. *)
Definition preempts (L : Levels.levels) (Hs : list nat) (v : thread_control_block) : bool :=
  match Levels.best L with Some p => p <? base_priority v | None => false end &&
  bool_decide (Hs = []) && holds_nothing v.

Definition handler_reason (idle : option nat) (h : heap) (I : list nat) (prev : nat) (v : thread_control_block)
    (L : Levels.levels) (Hs : list nat) : departure_reason :=
  let '(L, Hs, _) := arrivals idle h (reverse I) L Hs (Some prev) in
  if preempts L Hs v then DepartureReason.preempted else DepartureReason.yielded.

(** What a switch of core [c] for [reason], away from [prev], leaves: the
    thread it runs is at least as urgent as every thread filed. *)
Definition switch_outcome (c : nat) (s : kernel_state) (sc : scheduler) (L : Levels.levels) (Hs I : list nat)
    (reason : departure_reason) (prev : nat) (s' : kernel_state) : Prop :=
  exists next sc' L' Hs' rotor',
    switched (urg s (tcbs s)) (idle_thread sc) (tie_rotor sc) (tcbs s) I reason prev L Hs =
      (Some next, L', Hs', rotor') /\
    core_inv c s' sc' L' Hs' (Some next) [] /\
    idle_thread sc' = idle_thread sc /\ tie_rotor sc' = rotor' /\
    (forall x e, competes (urg s' (tcbs s')) L' Hs' x e -> urg s' (tcbs s') next <= e) /\
    local c s s'.
End spec.
