(* ===== verification/Local.v ===== *)
(** * Reasoning about one core at a time

    Most of what a scheduler does touches its own [scheduler] record, the
    control blocks and the port.  [put] is a kernel state with just those
    three replaced, and [lwp] the total-correctness judgement for operations
    that keep to them: the rest of the state is a fixed frame. *)

From S2P Require Import Prelude State ReadyQueue Urgency Scheduler SchedulerSpec.

Definition put (c : nat) (sc : scheduler) (h : heap) (es : list port_call) (s : kernel_state) : kernel_state :=
  set_calls es (set_schedulers (<[c := sc]> (schedulers s)) (set_tcbs h s)).

(** [m], from core [c]'s scheduler [sc], the blocks [h] and the calls [es] in
    the frame [s], finishes with a result and three such in [Q]. *)
Definition lwp {A} (c : nat) (s : kernel_state) (m : K A)
    (Q : A -> scheduler -> heap -> list port_call -> Prop)
    (sc : scheduler) (h : heap) (es : list port_call) : Prop :=
  wp m (fun a s' => exists sc' h' es', s' = put c sc' h' es' s /\ Q a sc' h' es') (put c sc h es s).

Section lwp.
Context (c : nat) (s : kernel_state) (Hc : c < length (schedulers s)).
Implicit Types (sc : scheduler) (h : heap) (es : list port_call).

Lemma put_scheduler sc h es : schedulers (put c sc h es s) !! c = Some sc.
Proof. apply list_lookup_insert_eq. exact Hc. Qed.

Lemma put_put sc h es sc' h' es' : put c sc' h' es' (put c sc h es s) = put c sc' h' es' s.
Proof. unfold put. simpl. unfold set_calls, set_schedulers, set_tcbs; simpl. rewrite list_insert_insert_eq. reflexivity. Qed.

Lemma put_id sc : schedulers s !! c = Some sc -> put c sc (tcbs s) (calls s) s = s.
Proof.
  intros Hsc. unfold put, set_calls, set_schedulers, set_tcbs. simpl.
  rewrite list_insert_id by exact Hsc. destruct s. reflexivity.
Qed.

Lemma lwp_ret {A} (a : A) Q sc h es : Q a sc h es -> lwp c s (kret a) Q sc h es.
Proof. intros HQ. exists sc, h, es. auto. Qed.

Lemma lwp_bind {A B} (m : K A) (k : A -> K B) Q sc h es :
  lwp c s m (fun a => lwp c s (k a) Q) sc h es -> lwp c s (kbind m k) Q sc h es.
Proof.
  intros Hm. apply wp_bind. eapply wp_mono; [exact Hm |].
  intros a s' (sc' & h' & es' & -> & Hk). exact Hk.
Qed.

Lemma lwp_mono {A} (m : K A) (Q R : A -> scheduler -> heap -> list port_call -> Prop) sc h es :
  lwp c s m Q sc h es -> (forall a sc' h' es', Q a sc' h' es' -> R a sc' h' es') -> lwp c s m R sc h es.
Proof.
  intros Hm HR. eapply wp_mono; [exact Hm |]. intros a s' (sc' & h' & es' & -> & HQ). eauto 7.
Qed.

Lemma lwp_ensure e b (Q : unit -> _) sc h es : b = true -> Q tt sc h es -> lwp c s (kensure e b) Q sc h es.
Proof. intros Hb HQ. apply wp_ensure; [exact Hb |]. exists sc, h, es. auto. Qed.

Lemma lwp_lift {A} (m : outcome A) Q sc h es : ok m (fun a => Q a sc h es) -> lwp c s (klift m) Q sc h es.
Proof. intros Hm. apply wp_lift. eapply ok_mono; [exact Hm |]. intros a HQ. exists sc, h, es. auto. Qed.

Lemma lwp_emit e (Q : unit -> _) sc h es : Q tt sc h (e :: es) -> lwp c s (emit e) Q sc h es.
Proof. intros HQ. apply wp_emit. exists sc, h, (e :: es). split; [reflexivity | exact HQ]. Qed.

Lemma lwp_get_tcbs Q sc h es : Q h sc h es -> lwp c s (kget tcbs) Q sc h es.
Proof. intros HQ. exists sc, h, es. auto. Qed.

Lemma lwp_set_tcbs h' (Q : unit -> _) sc h es : Q tt sc h' es -> lwp c s (kmodify (set_tcbs h')) Q sc h es.
Proof. intros HQ. exists sc, h', es. auto. Qed.

Lemma lwp_get_tcb t v Q sc h es : h !! t = Some v -> Q v sc h es -> lwp c s (get_tcb t) Q sc h es.
Proof. intros Hv HQ. eapply wp_get_tcb; [exact Hv |]. exists sc, h, es. auto. Qed.

Lemma lwp_modify_tcb t f v (Q : unit -> _) sc h es : h !! t = Some v -> Q tt sc (<[t := f v]> h) es ->
  lwp c s (modify_tcb t f) Q sc h es.
Proof. intros Hv HQ. eapply wp_modify_tcb; [exact Hv |]. exists sc, (<[t := f v]> h), es. auto. Qed.

Lemma lwp_get_scheduler Q sc h es : Q sc sc h es -> lwp c s (get_scheduler c) Q sc h es.
Proof. intros HQ. eapply wp_get_scheduler; [apply put_scheduler |]. exists sc, h, es. auto. Qed.

Lemma lwp_modify_scheduler f (Q : unit -> _) sc h es : Q tt (f sc) h es ->
  lwp c s (modify_scheduler c f) Q sc h es.
Proof.
  intros HQ. eapply wp_modify_scheduler; [apply put_scheduler |].
  exists (f sc), h, es. split; [| exact HQ].
  unfold put, set_calls, set_schedulers, set_tcbs. simpl. rewrite list_insert_insert_eq. reflexivity.
Qed.

Lemma lwp_urgency t Q sc h es :
  ok (Urgency.urgency h (nodes s) (mutexes s) t) (fun u => Q u sc h es) ->
  lwp c s (urgency t) Q sc h es.
Proof.
  intros Hu. unfold urgency. apply lwp_bind. exists sc, h, es. split; [reflexivity |].
  apply lwp_lift. exact Hu.
Qed.

(** From a judgement to the kernel's. *)
Lemma lwp_wp {A} (m : K A) Q sc : schedulers s !! c = Some sc ->
  lwp c s m Q sc (tcbs s) (calls s) ->
  wp m (fun a s' => exists sc' h' es', s' = put c sc' h' es' s /\ Q a sc' h' es') s.
Proof. intros Hsc Hm. unfold lwp in Hm. rewrite put_id in Hm by exact Hsc. exact Hm. Qed.

Lemma lwp_elim {A} (m : K A) Q sc h es : lwp c s m Q sc h es ->
  wp m (fun a s' => exists sc' h' es', s' = put c sc' h' es' s /\ Q a sc' h' es') (put c sc h es s).
Proof. auto. Qed.

(** [put] changes nothing of the frame. *)
Lemma put_local sc h es :
  urgency_view <$> tcbs s = urgency_view <$> h -> others_kept c (tcbs s) h ->
  local c s (put c sc h es s).
Proof.
  intros H1 H2. split; simpl; auto.
  - intros c' Hc'. apply list_lookup_insert_ne. congruence.
  - apply length_insert.
Qed.
End lwp.

(** Peel one step off an [lwp] goal; [Hc : c < length (schedulers s)]. *)
Ltac lwp_step :=
  lazymatch goal with
  | |- lwp _ _ (kbind _ _) _ _ _ _ => apply lwp_bind
  | |- lwp _ _ (kret _) _ _ _ _ => apply lwp_ret
  | |- lwp _ _ (kensure _ _) _ _ _ _ => apply lwp_ensure
  | |- lwp _ _ (klift _) _ _ _ _ => apply lwp_lift
  | |- lwp _ _ (emit _) _ _ _ _ => apply lwp_emit
  | |- lwp _ _ (kget tcbs) _ _ _ _ => apply lwp_get_tcbs
  | |- lwp _ _ (kmodify (set_tcbs _)) _ _ _ _ => apply lwp_set_tcbs
  | |- lwp _ _ (get_tcb _) _ _ _ _ => eapply lwp_get_tcb
  | |- lwp _ _ (modify_tcb _ _) _ _ _ _ => eapply lwp_modify_tcb
  | |- lwp _ _ (get_scheduler _) _ _ _ _ => apply lwp_get_scheduler; [assumption |]
  | |- lwp _ _ (modify_scheduler _ _) _ _ _ _ => apply lwp_modify_scheduler; [assumption |]
  end.
