(* ===== verification/SchedulerProofs.v ===== *)
(** * A core's own operations keep its invariant

    First the structures (the ready matrix and the holder list, [filed]), then
    the operations of [Scheduler] in the monad, each with the lists it leaves. *)

From S2P Require Import Prelude Chain State ReadyQueue ReadyQueueProofs WaitQueue WaitQueueProofs Urgency UrgencyProofs Scheduler SchedulerSpec Local.

(** ** Link changes *)

Section frames.
Implicit Types (h : heap) (l : list nat).

Lemma relinks_field {A} (f : thread_control_block -> A) l h h' x :
  (forall v p, f (set_next p v) = f v) -> relinks l h h' -> f <$> h' !! x = f <$> h !! x.
Proof.
  intros Hf Hr. destruct (h !! x) as [v |] eqn:E.
  - destruct (relinks_lookup _ _ _ _ _ Hr E) as [p ->]. simpl. rewrite Hf. reflexivity.
  - destruct (h' !! x) as [v' |] eqn:E'; [| reflexivity].
    destruct (relinks_lookup_inv _ _ _ _ _ Hr E') as (v & Hv & _). congruence.
Qed.

Lemma same_links_field {A} (f : thread_control_block -> A) h h' x :
  (forall v, f (erase_links v) = f v) -> same_but_links h h' -> f <$> h' !! x = f <$> h !! x.
Proof.
  intros Hf Hs. assert (E : (erase_links <$> h) !! x = (erase_links <$> h') !! x) by (rewrite Hs; reflexivity).
  rewrite !lookup_fmap in E. destruct (h !! x) as [v |], (h' !! x) as [v' |]; simpl in *; try discriminate; [| reflexivity].
  apply (inj Some) in E. rewrite <- (Hf v), <- (Hf v'), E. reflexivity.
Qed.

Lemma same_links_lookup h h' t v : same_but_links h h' -> h !! t = Some v ->
  exists v', h' !! t = Some v' /\ erase_links v' = erase_links v.
Proof.
  intros Hs Hv. pose proof (same_links_field erase_links h h' t) as E.
  rewrite Hv in E. destruct (h' !! t) as [v' |] eqn:Hv'.
  - exists v'. split; [reflexivity |]. specialize (E ltac:(intros []; reflexivity) Hs). simpl in E. congruence.
  - specialize (E ltac:(intros []; reflexivity) Hs). discriminate.
Qed.

Lemma relinks_same_links l h h' : relinks l h h' -> same_but_links h h'.
Proof.
  intros Hr. apply map_eq. intros x. rewrite !lookup_fmap.
  pose proof (relinks_field (fun v => set_next None v) l h h' x ltac:(intros []; reflexivity) Hr) as E.
  destruct (h !! x) as [v |], (h' !! x) as [v' |]; simpl in *; try discriminate; [| reflexivity].
  apply (inj Some) in E. f_equal. destruct v, v'. injection E. intros. subst. reflexivity.
Qed.

Lemma relinks_others c l h h' : relinks l h h' ->
  (forall x, x ∈ l -> exists v, h !! x = Some v /\ pinned_core v = c) -> others_kept c h h'.
Proof.
  intros Hr Hl t v Hv. destruct (decide (t ∈ l)) as [Ht | Ht]; [| rewrite (proj2 Hr t Ht); reflexivity].
  destruct (Hl t Ht) as (w & Hw & Hc).
  pose proof (relinks_field pinned_core l h h' t ltac:(intros []; reflexivity) Hr) as E. rewrite Hw in E |- *.
  split; [congruence |]. intros Hv'. rewrite Hv' in E. injection E. congruence.
Qed.

Lemma relinks_enqueued l h h' t v' : relinks l h h' -> t ∉ l -> h' !! t = Some v' -> h !! t = Some v'.
Proof. intros [_ Hf] Ht Hv. rewrite <- Hf; assumption. Qed.
End frames.

Section structures.
Context `{Config}.
Implicit Types (h : heap) (sc : scheduler) (L : Levels.levels) (Hs : list nat) (t c : nat).

Lemma filed_relinked c h h' sc m' L L' Hs touched :
  filed c h sc L Hs -> relinks touched h h' -> matrix_repr h' m' L' -> length L' = length L ->
  (forall x v, h !! x = Some v -> pinned_core v = c -> x ∉ touched ->
     x ∈ Levels.level L (base_priority v) -> x ∈ Levels.level L' (base_priority v)) ->
  (forall x v', x ∈ touched -> h' !! x = Some v' -> pinned_core v' = c -> is_enqueued x v' = true ->
     x ∈ Levels.level L' (base_priority v')) ->
  filed c h' (set_ready_matrix m' sc) L' Hs.
Proof.
  intros Hf Hr Hm Hlen Hout Hin. split; simpl.
  - exact Hm.
  - rewrite Hlen. apply Hf.
  - eapply tailed_frame; [| apply Hf]. intros x _. eapply relinks_field; [intros []; reflexivity | exact Hr].
  - intros t v' Hv' Hc He. destruct (decide (t ∈ touched)) as [Ht | Ht]; [eauto |].
    pose proof (relinks_enqueued _ _ _ _ _ Hr Ht Hv') as Hv.
    apply Hout; auto. eapply fl_enqueued; eauto.
  - intros t v' Hv' Hc Hl. destruct (relinks_lookup_inv _ _ _ _ _ Hr Hv') as (v & Hv & E).
    eapply fl_listed; [exact Hf | exact Hv | |].
    + rewrite E in Hc. exact Hc.
    + rewrite E in Hl. exact Hl.
Qed.

Lemma enqueue_filed (front : bool) c h sc L Hs t v :
  filed c h sc L Hs -> (forall x, listed L Hs x -> exists v, h !! x = Some v /\ pinned_core v = c) ->
  h !! t = Some v -> pinned_core v = c -> state v = ThreadState.ready ->
  base_priority v < max_priorities -> is_enqueued t v = false ->
  ok ((if front then ReadyMatrix.enqueue_thread_front else ReadyMatrix.enqueue_thread) t (ready_matrix sc) h)
     (fun '(m', h') =>
        filed c h' (set_ready_matrix m' sc)
          ((if front then Levels.push_front else Levels.push_back) (base_priority v) t L) Hs /\
        same_but_links h h' /\ others_kept c h h').
Proof.
  intros Hf Hpin Hv Hc Hst Hp Hn. set (p := base_priority v) in *.
  eapply ok_mono; [eapply (enqueue_ok front); try eassumption; apply Hf |].
  intros [m' h'] [Hm Hr]. pose proof (fl_levels _ _ _ _ _ Hf) as Hlen. split_and!.
  - eapply filed_relinked; [exact Hf | exact Hr | exact Hm | | |].
    + destruct front; apply length_insert.
    + intros x vx Hx Hcx Hout Hin.
      assert (Hne : base_priority vx <> p) by (intros E; apply Hout; rewrite E in Hin; set_solver).
      unfold Levels.push_front, Levels.push_back.
      destruct front; rewrite level_insert by lia; rewrite decide_False by assumption; exact Hin.
    + intros x v' Hx Hv' Hc' He. destruct (relinks_lookup_inv _ _ _ _ _ Hr Hv') as (v0 & Hv0 & E).
      assert (Hb : base_priority v' = p).
      { rewrite E. cbn. apply elem_of_cons in Hx as [-> | Hx];
          [rewrite Hv in Hv0; injection Hv0 as <-; reflexivity |].
        destruct (mr_filed _ _ _ (fl_matrix _ _ _ _ _ Hf) _ _ Hx) as (v1 & Hv1 & Hp1).
        rewrite Hv0 in Hv1. injection Hv1 as ->. exact Hp1. }
      rewrite Hb. unfold Levels.push_front, Levels.push_back.
      destruct front; rewrite level_insert by lia; rewrite decide_True by reflexivity; set_solver.
  - eapply relinks_same_links, Hr.
  - eapply relinks_others; [exact Hr |]. intros x Hx. apply elem_of_cons in Hx as [-> | Hx]; [eauto |].
    apply Hpin. left. eauto.
Qed.

Lemma pop_filed c h sc L Hs :
  filed c h sc L Hs -> (forall x, listed L Hs x -> exists v, h !! x = Some v /\ pinned_core v = c) ->
  ok (ReadyMatrix.pop_best_thread (ready_matrix sc) h)
     (fun '(r, m', h') => match Levels.pop L with
        | None => r = None /\ m' = ready_matrix sc /\ h' = h
        | Some (t, L') => r = Some t /\ filed c h' (set_ready_matrix m' sc) L' Hs /\
            same_but_links h h' /\ others_kept c h h'
        end).
Proof.
  intros Hf Hpin. eapply ok_mono; [apply pop_best_ok, Hf |]. intros [[r m'] h'].
  destruct (Levels.best L) as [p |] eqn:Eb; [| rewrite (pop_none _ Eb); auto].
  destruct (pop_best _ _ Eb) as (t & l & Hl & ->). intros (-> & Hm & Hr & v' & Hv' & Hn).
  assert (Hp : p < length L) by (apply level_nonempty_lt; rewrite Hl; discriminate).
  assert (Htp : t ∈ Levels.level L p) by (rewrite Hl; left).
  split_and!; [reflexivity | | eapply relinks_same_links, Hr |].
  - eapply filed_relinked; [exact Hf | exact Hr | exact Hm | apply length_insert | |].
    + intros x v Hv Hc Hx Hin. rewrite level_insert by exact Hp. case_decide as E; [| exact Hin].
      rewrite E, Hl in Hin. set_solver.
    + intros x v Hx Hv Hc He. assert (x = t) as -> by set_solver. congruence.
  - eapply relinks_others; [exact Hr |]. intros x Hx. assert (x = t) as -> by set_solver.
    apply Hpin. left. eauto.
Qed.

Lemma remove_filed c h sc L Hs t v :
  filed c h sc L Hs -> (forall x, listed L Hs x -> exists v, h !! x = Some v /\ pinned_core v = c) ->
  h !! t = Some v -> t ∈ Levels.level L (base_priority v) ->
  ok (ReadyMatrix.remove_thread t (ready_matrix sc) h)
     (fun '(m', h') => filed c h' (set_ready_matrix m' sc) (Levels.remove (base_priority v) t L) Hs /\
        same_but_links h h' /\ others_kept c h h').
Proof.
  intros Hf Hpin Hv Ht. set (p := base_priority v) in *.
  assert (Hp : p < length L) by (apply level_nonempty_lt; intros E; rewrite E in Ht; inversion Ht).
  eapply ok_mono; [eapply remove_thread_ok; try eassumption; apply Hf |].
  intros [m' h'] (Hm & Hr & v' & Hv' & Hn). fold p in Hr, Hm. split_and!.
  - eapply filed_relinked; [exact Hf | exact Hr | exact Hm | apply length_insert | |].
    + intros x vx Hx Hcx Hout Hin. unfold Levels.remove. rewrite level_insert by exact Hp.
      case_decide as E; [rewrite E in Hin; contradiction | exact Hin].
    + intros x vx Hx Hvx Hcx He. destruct (mr_filed _ _ _ (fl_matrix _ _ _ _ _ Hf) _ _ Hx) as (v0 & Hv0 & Hp0).
      destruct (relinks_lookup_inv _ _ _ _ _ Hr Hvx) as (v1 & Hv1 & E). rewrite Hv0 in Hv1. injection Hv1 as <-.
      rewrite E. cbn. rewrite Hp0. unfold Levels.remove. rewrite level_insert by exact Hp.
      rewrite decide_True by reflexivity. apply list_elem_of_filter. split; [| exact Hx].
      intros ->. congruence.
  - eapply relinks_same_links, Hr.
  - eapply relinks_others; [exact Hr |]. intros x Hx. apply Hpin. left. eauto.
Qed.
End structures.

(** ** What each half of the invariant reads of a block *)

Definition link_view (v : thread_control_block) :=
  (next v, holder_next v, base_priority v, pinned_core v).

Lemma view_field {A B} (f : thread_control_block -> A) (g : A -> B) (h h' : heap) x :
  f <$> h = f <$> h' -> (g ∘ f) <$> h' !! x = (g ∘ f) <$> h !! x.
Proof.
  intros E. assert (E' : (f <$> h) !! x = (f <$> h') !! x) by (rewrite E; reflexivity).
  rewrite !lookup_fmap in E'. destruct (h !! x), (h' !! x); simpl in *; congruence.
Qed.

Lemma view_back {A} (f : thread_control_block -> A) (h h' : heap) x v' :
  f <$> h = f <$> h' -> h' !! x = Some v' -> exists v, h !! x = Some v /\ f v = f v'.
Proof.
  intros E Hv. assert (E' : (f <$> h) !! x = (f <$> h') !! x) by (rewrite E; reflexivity).
  rewrite !lookup_fmap, Hv in E'. destruct (h !! x); simpl in *; [| discriminate].
  injection E' as E'. eauto.
Qed.

Lemma view_insert {A} (f : thread_control_block -> A) (h : heap) t v v' :
  h !! t = Some v -> f v' = f v -> f <$> h = f <$> <[t := v']> h.
Proof. intros Hv E. rewrite fmap_insert, E. symmetry. apply insert_id. rewrite lookup_fmap, Hv. reflexivity. Qed.

Lemma view_weaken {A B} (f : thread_control_block -> A) (g : A -> B) (h h' : heap) :
  f <$> h = f <$> h' -> (g ∘ f) <$> h = (g ∘ f) <$> h'.
Proof. intros E. rewrite !map_fmap_compose, E. reflexivity. Qed.

(** ... of which the matrix reads two members. *)
Definition matrix_view (v : thread_control_block) := (next v, base_priority v).

Section views.
Context `{Config}.
Implicit Types (h : heap) (sc : scheduler) (L : Levels.levels) (Hs : list nat).

Lemma matrix_repr_view h h' m L : matrix_view <$> h = matrix_view <$> h' -> matrix_repr h m L -> matrix_repr h' m L.
Proof.
  intros Hv [H1 H2 H3 H4]. split; auto.
  - eapply Forall2_impl; [exact H1 |]. intros q l. apply tailed_frame. intros x _.
    apply (view_field matrix_view fst). exact Hv.
  - intros p t Ht. destruct (H4 p t Ht) as (v & Ev & Hp).
    destruct (view_back matrix_view h' h t v (eq_sym Hv) Ev) as (v' & Ev' & E). exists v'. split; [exact Ev' |].
    unfold matrix_view in E. congruence.
Qed.

Lemma filed_view c h h' sc L Hs : link_view <$> h = link_view <$> h' -> filed c h sc L Hs -> filed c h' sc L Hs.
Proof.
  intros Hv [H1 H2 H3 H4 H5]. split; auto.
  - eapply matrix_repr_view; [| exact H1]. apply (view_weaken link_view (fun w => (w.1.1.1, w.1.2))), Hv.
  - eapply tailed_frame; [| exact H3]. intros x _. apply (view_field link_view (fun w => w.1.1.2)). exact Hv.
  - intros t v' Ev' Hc He. destruct (view_back link_view h h' t v' Hv Ev') as (v & Ev & E).
    injection E as E1 E2 E3 E4. rewrite <- E3. apply (H4 t v Ev); [congruence |].
    unfold is_enqueued in *. rewrite E1. exact He.
  - intros t v' Ev' Hc He. destruct (view_back link_view h h' t v' Hv Ev') as (v & Ev & E).
    injection E as E1 E2 E3 E4. apply (H5 t v Ev); [congruence |].
    unfold is_listed_holder in *. rewrite E2. exact He.
Qed.

Lemma filed_scheduler c h sc sc' L Hs :
  ready_matrix sc' = ready_matrix sc -> holders_head sc' = holders_head sc ->
  holders_tail sc' = holders_tail sc -> filed c h sc L Hs -> filed c h sc' L Hs.
Proof. intros E1 E2 E3 [H1 H2 H3 H4 H5]. split; rewrite ?E1, ?E2, ?E3; auto. Qed.

Lemma same_links_back h h' x v' : same_but_links h h' -> h' !! x = Some v' ->
  exists v, h !! x = Some v /\ erase_links v = erase_links v'.
Proof. apply view_back. Qed.

Lemma status_links c h h' L Hs idle run :
  same_but_links h h' -> status c h L Hs idle run -> status c h' L Hs idle run.
Proof.
  intros Hl [H1 H2 H3 H4 H5 H6 H7].
  assert (Hfwd : forall t v, h !! t = Some v -> exists v', h' !! t = Some v' /\
    state v' = state v /\ pinned_core v' = pinned_core v /\ holds_nothing v' = holds_nothing v).
  { intros t v Hv. destruct (same_links_lookup _ _ _ _ Hl Hv) as (v' & Hv' & E). exists v'.
    destruct v, v'. injection E. intros. subst. auto. }
  assert (Hbwd : forall t v', h' !! t = Some v' -> exists v, h !! t = Some v /\
    state v' = state v /\ pinned_core v' = pinned_core v /\ base_priority v' = base_priority v).
  { intros t v' Hv'. destruct (same_links_back _ _ _ _ Hl Hv') as (v & Hv & E). exists v.
    destruct v, v'. injection E. intros. subst. auto. }
  split; auto.
  - intros t Ht. destruct (H1 t Ht) as (v & Hv & Hc & Hst & Hi).
    destruct (Hfwd t v Hv) as (v' & Hv' & E1 & E2 & _). exists v'. split_and!; congruence.
  - intros t v' Hv' Hc Hst. destruct (Hbwd t v' Hv') as (v & Hv & E1 & E2 & _). apply (H3 t v); congruence.
  - intros t v' Hv' Hc Hst. destruct (Hbwd t v' Hv') as (v & Hv & E1 & E2 & _). apply (H4 t v); congruence.
  - intros t Ht. destruct (H5 t Ht) as (v & Hv & Hc & Hst).
    destruct (Hfwd t v Hv) as (v' & Hv' & E1 & E2 & _). exists v'. split_and!; congruence.
  - destruct H6 as (i & v & Hi & Hv & Hc & Hst & Hn). destruct (Hfwd i v Hv) as (v' & Hv' & E1 & E2 & E3).
    exists i, v'. split_and!; [congruence.. | rewrite E1; exact Hst | congruence].
  - intros t v' Hv' Hc. destruct (Hbwd t v' Hv') as (v & Hv & _ & E2 & ->). apply (H7 t v); congruence.
Qed.

(** A member of neither list is in neither structure. *)
Lemma not_listed_sentinels c h sc L Hs t v :
  filed c h sc L Hs -> h !! t = Some v -> pinned_core v = c -> ~ listed L Hs t ->
  is_enqueued t v = false /\ is_listed_holder t v = false.
Proof.
  intros Hf Hv Hc Hn. split; apply not_true_is_false; intros E; apply Hn.
  - left. eexists. eapply fl_enqueued; eauto.
  - right. eapply fl_listed; eauto.
Qed.

(** ... and the sentinels tell a member which structure it is in. *)
Lemma level_sentinel c h sc L Hs t v p :
  filed c h sc L Hs -> h !! t = Some v -> t ∈ Levels.level L p ->
  is_enqueued t v = true /\ base_priority v = p.
Proof.
  intros Hf Hv Ht. split.
  - destruct (is_enqueued t v) eqn:E; [reflexivity |].
    destruct (mr_not_filed _ _ _ _ _ (fl_matrix _ _ _ _ _ Hf) Hv E p Ht).
  - destruct (mr_filed _ _ _ (fl_matrix _ _ _ _ _ Hf) p t Ht) as (v' & Hv' & Hp). congruence.
Qed.

Lemma holder_sentinel h hd tl Hs t v : tailed holder_next h hd tl Hs ->
  h !! t = Some v -> t ∈ Hs -> is_listed_holder t v = true.
Proof.
  intros [Hch _] Hv Ht. unfold is_listed_holder. apply negb_true_iff, bool_decide_eq_false. intros E.
  apply list_elem_of_split in Ht as (l1 & l2 & ->). apply lseg_app in Hch as (m & _ & -> & v' & Hv' & Hch).
  rewrite Hv in Hv'. injection Hv' as <-. rewrite E in Hch.
  assert (Hd : l2 = t :: l2).
  { apply (chain_det holder_next h (Some t)); [exact Hch |]. split; [reflexivity |]. exists v. rewrite E. auto. }
  apply (f_equal length) in Hd. simpl in Hd. lia.
Qed.

(** The sentinels, as membership. *)
Lemma enqueued_iff c h sc L Hs t v : filed c h sc L Hs -> h !! t = Some v -> pinned_core v = c ->
  is_enqueued t v = bool_decide (t ∈ Levels.level L (base_priority v)).
Proof.
  intros Hf Hv Hp. case_bool_decide as E.
  - eapply level_sentinel; eauto.
  - apply not_true_is_false. intros Ht. apply E. eapply fl_enqueued; eauto.
Qed.

Lemma listed_iff c h sc L Hs t v : filed c h sc L Hs -> h !! t = Some v -> pinned_core v = c ->
  is_listed_holder t v = bool_decide (t ∈ Hs).
Proof.
  intros Hf Hv Hp. case_bool_decide as E.
  - eapply holder_sentinel; [apply (fl_holders _ _ _ _ _ Hf) | eassumption | exact E].
  - apply not_true_is_false. intros Ht. apply E. eapply fl_listed; eauto.
Qed.
End views.

(** ** The holder list *)

(** What the holder list's operations leave alone. *)
Record same_registers (sc sc' : scheduler) : Prop := {
  sr_core : core_id sc' = core_id sc;
  sr_pinned : pinned_thread_counter sc' = pinned_thread_counter sc;
  sr_current : current_thread sc' = current_thread sc;
  sr_idle : idle_thread sc' = idle_thread sc;
  sr_intake : intake_head sc' = intake_head sc;
  sr_rotor : tie_rotor sc' = tie_rotor sc
}.

Lemma same_registers_trans sc1 sc2 sc3 : same_registers sc1 sc2 -> same_registers sc2 sc3 -> same_registers sc1 sc3.
Proof. intros [] []. split; congruence. Qed.

Section holders.
Context `{Config} (c : nat) (s : kernel_state) (Hc : c < length (schedulers s)).
Implicit Types (h : heap) (sc : scheduler) (L : Levels.levels) (Hs : list nat).

Lemma set_holder_next_links h t v p : h !! t = Some v -> same_but_links h (<[t := set_holder_next p v]> h).
Proof. intros Hv. eapply (view_insert erase_links); [exact Hv | reflexivity]. Qed.

Lemma set_holder_next_matrix h t v p : h !! t = Some v -> matrix_view <$> h = matrix_view <$> <[t := set_holder_next p v]> h.
Proof. intros Hv. eapply view_insert; [exact Hv | reflexivity]. Qed.

Lemma others_insert h t v v' : h !! t = Some v -> pinned_core v = c -> pinned_core v' = c ->
  others_kept c h (<[t := v']> h).
Proof.
  intros Hv Hp Hp' x vx Hx. destruct (decide (t = x)) as [-> | Hne]; [| rewrite lookup_insert_ne by exact Hne; reflexivity].
  rewrite lookup_insert_eq. split; congruence.
Qed.

(** Relinking the holder list keeps the matrix half of [filed]. *)
Lemma filed_holders h h' sc sc' L Hs Hs' :
  filed c h sc L Hs -> same_but_links h h' -> matrix_view <$> h = matrix_view <$> h' ->
  ready_matrix sc' = ready_matrix sc ->
  tailed holder_next h' (holders_head sc') (holders_tail sc') Hs' ->
  (forall t v, h' !! t = Some v -> pinned_core v = c -> is_listed_holder t v = true -> t ∈ Hs') ->
  filed c h' sc' L Hs'.
Proof.
  intros Hf Hl Hm Esc Ht Hin. split; rewrite ?Esc.
  - eapply matrix_repr_view; [exact Hm | apply Hf].
  - apply Hf.
  - exact Ht.
  - intros t v' Hv' Hp He. destruct (view_back _ _ _ _ _ Hm Hv') as (v & Hv & E). injection E as E1 E2.
    destruct (same_links_back _ _ _ _ Hl Hv') as (v0 & Hv0 & E0). rewrite Hv in Hv0. injection Hv0 as <-.
    rewrite <- E2. eapply fl_enqueued; [exact Hf | exact Hv | |].
    + destruct v, v'. injection E0. intros. subst. reflexivity.
    + unfold is_enqueued in *. rewrite E1. exact He.
  - exact Hin.
Qed.

Lemma link_holder_ok h sc L Hs es t v :
  filed c h sc L Hs -> (forall x, x ∈ Hs -> exists v, h !! x = Some v /\ pinned_core v = c) ->
  core_id sc = c -> h !! t = Some v -> pinned_core v = c -> is_listed_holder t v = false ->
  lwp c s (link_holder c t)
    (fun _ sc' h' es' => es' = es /\ same_registers sc sc' /\ filed c h' sc' L (Hs ++ [t]) /\
       same_but_links h h' /\ others_kept c h h') sc h es.
Proof.
  intros Hf Hpin Hid Hv Hp Hn. unfold link_holder. repeat (lwp_step; try exact Hv).
  { apply Nat.eqb_eq. congruence. }
  rewrite Hn. pose proof (fl_holders _ _ _ _ _ Hf) as Ht. pose proof Ht as [Hch Htl].
  assert (Hnot : t ∉ Hs).
  { intros Hin. rewrite (holder_sentinel _ _ _ _ _ _ Ht Hv Hin) in Hn. discriminate. }
  lwp_step. eapply lwp_modify_tcb; [exact Hv |]. lwp_step.
  set (h1 := <[t := set_holder_next None v]> h).
  assert (Hl1 : same_but_links h h1) by (apply set_holder_next_links, Hv).
  assert (Hm1 : matrix_view <$> h = matrix_view <$> h1) by (apply set_holder_next_matrix, Hv).
  destruct (holders_tail sc) as [tl |] eqn:Etl.
  - symmetry in Htl. apply last_Some in Htl as [l ->].
    destruct (Hpin tl ltac:(set_solver)) as (vt & Hvt & Hpt).
    assert (Hne : t <> tl) by set_solver.
    assert (Hvt1 : h1 !! tl = Some vt) by (subst h1; rewrite lookup_insert_ne; assumption).
    eapply lwp_modify_tcb; [exact Hvt1 |]. apply lwp_modify_scheduler; [exact Hc |].
    assert (Hl2 : same_but_links h (<[tl := set_holder_next (Some t) vt]> h1))
      by (etransitivity; [exact Hl1 | apply set_holder_next_links, Hvt1]).
    split_and!; [reflexivity | split; reflexivity | | exact Hl2 |].
    + eapply filed_holders; [exact Hf | exact Hl2 | | reflexivity | |].
      * etransitivity; [exact Hm1 | apply set_holder_next_matrix, Hvt1].
      * split; simpl; [| rewrite last_snoc; reflexivity].
        apply chain_push_back; [set_solver | reflexivity | reflexivity | exact Hch].
      * intros x vx Hx Hpx Hlx. destruct (decide (x = t)) as [-> | Hxt]; [set_solver |].
        destruct (decide (x = tl)) as [-> | Hxl]; [set_solver |].
        subst h1. rewrite !lookup_insert_ne in Hx by congruence.
        pose proof (fl_listed _ _ _ _ _ Hf x vx Hx Hpx Hlx). set_solver.
    + transitivity h1; [apply (others_insert h t v); assumption | apply (others_insert h1 tl vt); assumption].
  - symmetry in Htl. apply last_None in Htl as ->.
    apply lwp_modify_scheduler; [exact Hc |]. apply lwp_modify_scheduler; [exact Hc |].
    split_and!; [reflexivity | split; reflexivity | | exact Hl1 | apply (others_insert h t v); assumption].
    eapply filed_holders; [exact Hf | exact Hl1 | exact Hm1 | reflexivity | |].
    + split; [| reflexivity]. split; [reflexivity |]. eexists. unfold h1. rewrite lookup_insert_eq. split; reflexivity.
    + intros x vx Hx Hpx Hlx. destruct (decide (x = t)) as [-> | Hxt]; [left |].
      unfold h1 in Hx. rewrite lookup_insert_ne in Hx by congruence.
      pose proof (fl_listed _ _ _ _ _ Hf x vx Hx Hpx Hlx). set_solver.
Qed.

Lemma find_holder_ok h sc es t rest : forall fuel done hd,
  chain holder_next h hd (done ++ rest) -> t ∈ rest -> length rest <= fuel ->
  lwp c s (find_holder fuel t (last done) (head rest))
    (fun r sc' h' es' => es' = es /\ sc' = sc /\ h' = h /\
       exists l1 l2, done ++ rest = l1 ++ t :: l2 /\ r = (last l1, Some t)) sc h es.
Proof.
  induction rest as [| y rest IH]; intros fuel done hd Hch Ht Hf; [inversion Ht |].
  destruct (lseg_in_heap holder_next h _ _ _ y Hch ltac:(set_solver)) as [v Hv].
  assert (Hstep : find_holder fuel t (last done) (head (y :: rest)) =
    if bool_decide (y = t) then kret (last done, Some y)
    else match fuel with
         | O => klift (Panic out_of_fuel)
         | S fuel => let* v := get_tcb y in find_holder fuel t (Some y) (holder_next v)
         end) by (destruct fuel; reflexivity).
  rewrite Hstep. case_bool_decide as E.
  - lwp_step. split_and!; auto. exists done, rest. subst. auto.
  - destruct fuel as [| fuel]; [simpl in Hf; lia |]. lwp_step. eapply lwp_get_tcb; [exact Hv |].
    replace (done ++ y :: rest) with ((done ++ [y]) ++ rest) in * by (rewrite <- app_assoc; reflexivity).
    assert (Hn : holder_next v = head rest).
    { apply lseg_app in Hch as (m & H1 & H2). apply lseg_snoc_inv in H1 as (v' & Hv' & E' & _).
      rewrite Hv in Hv'. injection Hv' as <-. rewrite E'. eapply chain_head; exact H2. }
    rewrite Hn, <- (last_snoc y done). apply IH with hd; [exact Hch | set_solver | simpl in Hf; lia].
Qed.

(** Taking [t] out from between [l1] and [l2]. *)
Lemma holders_without h hd tl l1 t l2 v p vp :
  tailed holder_next h hd tl (l1 ++ t :: l2) -> h !! t = Some v -> last l1 = Some p -> h !! p = Some vp ->
  tailed holder_next (<[t := set_holder_next (Some t) v]> (<[p := set_holder_next (holder_next v) vp]> h)) hd
    (if bool_decide (tl = Some t) then Some p else tl) (l1 ++ l2).
Proof.
  intros [Hch Htl] Hv Hl1 Hvp. apply last_Some in Hl1 as [d ->].
  pose proof (chain_NoDup _ _ _ _ Hch) as Hnd. rewrite <- app_assoc in *. simpl in *.
  assert (Hnt : t ∉ d ++ p :: l2).
  { rewrite (Permutation_app_comm d) in *. simpl in *. intros Hin.
    replace (p :: t :: l2) with ([p] ++ t :: l2) in Hnd by reflexivity.
    apply NoDup_cons in Hnd as [Hnd1 Hnd]. apply NoDup_cons in Hnd as [Hnd2 _].
    apply elem_of_cons in Hin as [-> | Hin]; [apply Hnd1; left | apply Hnd2; exact Hin]. }
  split.
  - apply lseg_insert_ne; [exact Hnt |]. eapply chain_unlink; [exact Hch | exact Hv | reflexivity].
  - rewrite Htl. rewrite !last_app, !last_cons. case_bool_decide as E.
    + destruct (last l2) as [z |] eqn:El; [| reflexivity].
      injection E as ->. apply last_Some_elem_of in El. set_solver.
    + destruct (last l2) as [z |]; [reflexivity | contradiction].
Qed.

Lemma holders_without_first h hd tl t l2 v :
  tailed holder_next h hd tl (t :: l2) -> h !! t = Some v ->
  tailed holder_next (<[t := set_holder_next (Some t) v]> h) (holder_next v)
    (if bool_decide (tl = Some t) then None else tl) l2.
Proof.
  intros [Hch Htl] Hv. pose proof (chain_NoDup _ _ _ _ Hch) as Hnd. apply NoDup_cons in Hnd as [Hnt _].
  destruct Hch as [_ (v' & Hv' & Hch)]. rewrite Hv in Hv'. injection Hv' as <-. split.
  - apply lseg_insert_ne; assumption.
  - rewrite Htl, last_cons. destruct (last l2) as [z |] eqn:El.
    + rewrite bool_decide_false; [reflexivity |]. intros [= ->]. apply last_Some_elem_of in El. contradiction.
    + rewrite bool_decide_true by reflexivity. reflexivity.
Qed.

Lemma self_not_listed t v : is_listed_holder t (set_holder_next (Some t) v) = false.
Proof. unfold is_listed_holder. simpl. rewrite bool_decide_true by reflexivity. reflexivity. Qed.

Lemma unlink_holder_ok h sc L Hs es t v :
  filed c h sc L Hs -> (forall x, x ∈ Hs -> exists v, h !! x = Some v /\ pinned_core v = c) ->
  core_id sc = c -> h !! t = Some v -> t ∈ Hs ->
  lwp c s (unlink_holder c t)
    (fun _ sc' h' es' => es' = es /\ same_registers sc sc' /\
       filed c h' sc' L (filter (fun x => x <> t) Hs) /\ same_but_links h h' /\ others_kept c h h') sc h es.
Proof.
  intros Hf Hpin Hid Hv Ht. pose proof (fl_holders _ _ _ _ _ Hf) as Htl. pose proof Htl as [Hch _].
  destruct (Hpin t Ht) as (v' & Hv' & Hp). rewrite Hv in Hv'. injection Hv' as <-.
  unfold unlink_holder. do 4 (lwp_step; try exact Hv). lwp_step. lwp_step; [apply Nat.eqb_eq; congruence |].
  rewrite (holder_sentinel _ _ _ _ _ _ Htl Hv Ht). cbn [negb]. do 3 lwp_step.
  eapply lwp_mono.
  { rewrite (chain_head _ _ _ _ Hch). apply (find_holder_ok h sc es t Hs _ [] (holders_head sc)); [exact Hch | exact Ht |].
    pose proof (chain_length _ _ _ _ Hch). lia. }
  intros r sc0 h0 es0 (-> & -> & -> & l1 & l2 & E & ->). simpl in E. subst Hs. cbn beta iota.
  lwp_step. lwp_step; [apply bool_decide_eq_true; reflexivity |].
  rewrite filter_remove_split by (eapply chain_NoDup; exact Hch).
  assert (Hlisted : forall h' x vx, (forall y, y ∉ l1 ++ t :: l2 -> h' !! y = h !! y) ->
    (exists v', h' !! t = Some v' /\ is_listed_holder t v' = false) ->
    h' !! x = Some vx -> pinned_core vx = c -> is_listed_holder x vx = true -> x ∈ l1 ++ l2).
  { intros h' x vx Hout (v' & Hv' & Hn) Hx Hpx Hlx. destruct (decide (x = t)) as [-> | Hne]; [congruence |].
    destruct (decide (x ∈ l1 ++ t :: l2)) as [Hin | Hnin]; [set_solver |].
    rewrite (Hout x Hnin) in Hx. pose proof (fl_listed _ _ _ _ _ Hf x vx Hx Hpx Hlx). set_solver. }
  apply lwp_bind. destruct (last l1) as [p |] eqn:El1.
  - assert (Hpl : p ∈ l1) by (apply last_Some_elem_of; exact El1).
    destruct (Hpin p ltac:(set_solver)) as (vp & Hvp & Hpp).
    assert (Hne : p <> t).
    { intros ->. pose proof (chain_NoDup _ _ _ _ Hch) as Hnd. apply NoDup_app in Hnd as (_ & Hd & _).
      apply (Hd t Hpl). left. }
    pose proof (holders_without _ _ _ _ _ _ _ _ _ Htl Hv El1 Hvp) as Hres.
    eapply lwp_modify_tcb; [exact Hvp |]. set (h1 := <[p := _]> h) in *.
    assert (Hv1 : h1 !! t = Some v) by (unfold h1; rewrite lookup_insert_ne; assumption).
    assert (Hl : same_but_links h (<[t := set_holder_next (Some t) v]> h1)).
    { etransitivity; [apply (set_holder_next_links h p vp (holder_next v)), Hvp | apply set_holder_next_links, Hv1]. }
    assert (Hm : matrix_view <$> h = matrix_view <$> <[t := set_holder_next (Some t) v]> h1).
    { etransitivity; [apply (set_holder_next_matrix h p vp (holder_next v)), Hvp | apply set_holder_next_matrix, Hv1]. }
    lwp_step.
    assert (Hend : forall sc', same_registers sc sc' -> ready_matrix sc' = ready_matrix sc ->
      holders_head sc' = holders_head sc ->
      holders_tail sc' = (if bool_decide (holders_tail sc = Some t) then Some p else holders_tail sc) ->
      lwp c s (modify_tcb t (set_holder_next (Some t))) (fun _ sc' h' es' => es' = es /\ same_registers sc sc' /\
         filed c h' sc' L (l1 ++ l2) /\ same_but_links h h' /\ others_kept c h h') sc' h1 es).
    { intros sc' Hsr E1 E2 E3. eapply lwp_modify_tcb; [exact Hv1 |]. split_and!; [reflexivity | exact Hsr | | exact Hl |].
      - eapply filed_holders; [exact Hf | exact Hl | exact Hm | exact E1 | rewrite E2, E3; exact Hres |].
        intros x vx. apply Hlisted.
        + intros y Hy. unfold h1. rewrite !lookup_insert_ne by set_solver. reflexivity.
        + eexists. rewrite lookup_insert_eq. split; [reflexivity | apply self_not_listed].
      - transitivity h1; [apply (others_insert h p vp); assumption | apply (others_insert h1 t v); assumption]. }
    case_bool_decide as Etl; [lwp_step | lwp_step]; apply Hend; auto; split; reflexivity.
  - apply last_None in El1 as ->. simpl in *.
    pose proof (holders_without_first _ _ _ _ _ _ Htl Hv) as Hres.
    assert (Hl : same_but_links h (<[t := set_holder_next (Some t) v]> h)) by (apply set_holder_next_links, Hv).
    assert (Hm : matrix_view <$> h = matrix_view <$> <[t := set_holder_next (Some t) v]> h) by (apply set_holder_next_matrix, Hv).
    lwp_step. lwp_step.
    assert (Hend : forall sc', same_registers sc sc' -> ready_matrix sc' = ready_matrix sc ->
      holders_head sc' = holder_next v ->
      holders_tail sc' = (if bool_decide (holders_tail sc = Some t) then None else holders_tail sc) ->
      lwp c s (modify_tcb t (set_holder_next (Some t))) (fun _ sc' h' es' => es' = es /\ same_registers sc sc' /\
         filed c h' sc' L l2 /\ same_but_links h h' /\ others_kept c h h') sc' h es).
    { intros sc' Hsr E1 E2 E3. eapply lwp_modify_tcb; [exact Hv |]. split_and!; [reflexivity | exact Hsr | | exact Hl |].
      - eapply filed_holders; [exact Hf | exact Hl | exact Hm | exact E1 | rewrite E2, E3; exact Hres |].
        intros x vx. apply Hlisted.
        + intros y Hy. rewrite !lookup_insert_ne by set_solver. reflexivity.
        + eexists. rewrite lookup_insert_eq. split; [reflexivity | apply self_not_listed].
      - apply (others_insert h t v); assumption. }
    case_bool_decide as Etl; [lwp_step | lwp_step]; apply Hend; auto; split; reflexivity.
Qed.
End holders.

(** ** Filing and running threads *)

Lemma same_links_fmap {A} (f : thread_control_block -> A) h h' :
  (forall v, f (erase_links v) = f v) -> same_but_links h h' -> f <$> h = f <$> h'.
Proof. intros Hf Hs. apply map_eq. intros x. rewrite !lookup_fmap. symmetry. apply same_links_field; assumption. Qed.

Section status.
Context `{Config}.
Implicit Types (h : heap) (sc : scheduler) (L : Levels.levels) (Hs : list nat).

Lemma status_pinned c h L Hs idle run x : status c h L Hs idle run -> listed L Hs x ->
  exists v, h !! x = Some v /\ pinned_core v = c.
Proof. intros Hst Hx. destruct (st_listed _ _ _ _ _ _ Hst x Hx) as (v & Hv & Hp & _). eauto. Qed.

Lemma listed_push (front : bool) L Hs p t x : p < length L ->
  listed ((if front then Levels.push_front else Levels.push_back) p t L) Hs x <-> listed L Hs x \/ x = t.
Proof.
  intros Hp. unfold listed, Levels.push_front, Levels.push_back. split.
  - intros [[q Hq] | Hx]; [| auto]. destruct front; rewrite level_insert in Hq by exact Hp;
      (case_decide as E; [subst q; set_solver | left; left; eauto]).
  - intros [[[q Hq] | Hx] | ->]; [left; exists q | auto | left; exists p];
      destruct front; rewrite level_insert by exact Hp; case_decide; subst; set_solver.
Qed.

Lemma level_push (front : bool) L p q t x : p < length L ->
  x ∈ Levels.level ((if front then Levels.push_front else Levels.push_back) p t L) q ->
  x = t \/ x ∈ Levels.level L q.
Proof.
  intros Hp. unfold Levels.push_front, Levels.push_back.
  destruct front; rewrite level_insert by exact Hp; case_decide; subst; set_solver.
Qed.

(** Setting [t]'s state, filed or not as that asks. *)
Lemma status_set_state c h L Hs L' Hs' idle run run' t v st :
  status c h L Hs idle run -> h !! t = Some v -> pinned_core v = c ->
  (forall x, x <> t -> listed L' Hs' x <-> listed L Hs x) ->
  (listed L' Hs' t <-> st = ThreadState.ready /\ idle <> Some t) ->
  (forall p x, x ∈ Levels.level L' p -> x ∉ Hs') ->
  (idle = Some t -> st = ThreadState.ready \/ st = ThreadState.running) ->
  run' = (if bool_decide (st = ThreadState.running) then Some t else stopped t run) ->
  (st = ThreadState.running -> stopped t run = None) ->
  status c (<[t := set_state st v]> h) L' Hs' idle run'.
Proof.
  intros Hst Hv Hp Hother Hself Honce Hidle -> Hrun. split.
  - intros x Hx. destruct (decide (x = t)) as [-> | Hne].
    + apply Hself in Hx as [-> Hi]. exists (set_state ThreadState.ready v). rewrite lookup_insert_eq. auto.
    + apply Hother in Hx; [| exact Hne]. rewrite lookup_insert_ne by congruence. apply Hst, Hx.
  - exact Honce.
  - intros x vx Hx Hpx Hsx Hix. destruct (decide (x = t)) as [-> | Hne].
    + rewrite lookup_insert_eq in Hx. injection Hx as <-. apply Hself. auto.
    + rewrite lookup_insert_ne in Hx by congruence. apply Hother; [exact Hne |]. eapply st_ready; eauto.
  - intros x vx Hx Hpx Hsx. destruct (decide (x = t)) as [-> | Hne].
    + rewrite lookup_insert_eq in Hx. injection Hx as <-. simpl in Hsx. rewrite bool_decide_true by assumption. reflexivity.
    + rewrite lookup_insert_ne in Hx by congruence. pose proof (st_running _ _ _ _ _ _ Hst x vx Hx Hpx Hsx) as E.
      assert (Es : stopped t run = run) by (unfold stopped; rewrite bool_decide_false; congruence).
      case_bool_decide; [specialize (Hrun ltac:(assumption)) |]; congruence.
  - intros x Hx. case_bool_decide as Es.
    + injection Hx as <-. exists (set_state st v). rewrite lookup_insert_eq. auto.
    + unfold stopped in Hx. case_bool_decide; [discriminate |].
      rewrite lookup_insert_ne by congruence. apply Hst, Hx.
  - destruct (st_idle _ _ _ _ _ _ Hst) as (i & vi & Hi & Hvi & Hpi & Hsi & Hni).
    destruct (decide (i = t)) as [-> | Hne].
    + rewrite Hv in Hvi. injection Hvi as <-. exists t, (set_state st v). rewrite lookup_insert_eq. auto 8.
    + exists i, vi. rewrite lookup_insert_ne by congruence. auto 8.
  - intros x vx Hx Hpx. destruct (decide (x = t)) as [-> | Hne].
    + rewrite lookup_insert_eq in Hx. injection Hx as <-. exact (st_priority _ _ _ _ _ _ Hst t v Hv Hp).
    + rewrite lookup_insert_ne in Hx by congruence. eapply (st_priority _ _ _ _ _ _ Hst); eauto.
Qed.
End status.

Section rebuild.
Context `{Config}.

Lemma stopped_inv t run x : stopped t run = Some x -> run = Some x.
Proof. unfold stopped. case_bool_decide; [discriminate | auto]. Qed.

(** The invariant after a change of links and of standings. *)
Lemma core_ok_next c sc h L Hs run sc' h' L' Hs' run' :
  core_ok c sc h L Hs run -> same_registers sc sc' -> pinned_core <$> h = pinned_core <$> h' ->
  filed c h' sc' L' Hs' -> status c h' L' Hs' (idle_thread sc) run' ->
  (forall x, run' = Some x -> run = Some x) -> core_ok c sc' h' L' Hs' run'.
Proof.
  intros [Hid _ _ Hcur Hrun] Hsr Hp Hf Hst Hr. destruct Hsr as [E1 E2 E3 E4 E5 E6].
  split; rewrite ?E1, ?E3, ?E4; auto.
  intros t Ht. destruct (Hcur t Ht) as (v & Hv & Hpv).
  destruct (view_back pinned_core h' h t v (eq_sym Hp) Hv) as (v' & Hv' & E). exists v'. split; congruence.
Qed.

Lemma same_links_pinned h h' : same_but_links h h' -> pinned_core <$> h = pinned_core <$> h'.
Proof. apply same_links_fmap. reflexivity. Qed.
End rebuild.

Section filing.
Context `{Config} (c : nat) (s : kernel_state) (Hc : c < length (schedulers s)).
Implicit Types (h : heap) (sc : scheduler) (L : Levels.levels) (Hs : list nat).

Lemma lwp_on_matrix f (Q : unit -> _) sc h es :
  ok (f (ready_matrix sc) h) (fun '(m, h') => Q tt (set_ready_matrix m sc) h' es) ->
  lwp c s (on_matrix c f) Q sc h es.
Proof.
  intros Hok. unfold on_matrix. repeat lwp_step. eapply ok_mono; [exact Hok |].
  intros [m h'] HQ. cbn beta iota. do 2 lwp_step. lwp_step. exact HQ.
Qed.

Lemma set_state_links h t v st : h !! t = Some v -> link_view <$> h = link_view <$> <[t := set_state st v]> h.
Proof. intros Hv. eapply view_insert; [exact Hv | reflexivity]. Qed.

Lemma admit_thread_ok front h sc L Hs run es t v :
  core_ok c sc h L Hs run -> h !! t = Some v -> pinned_core v = c -> ~ listed L Hs t ->
  lwp c s (admit_thread c t front)
    (fun _ sc' h' es' =>
       (let '(L', Hs') := admitted (idle_thread sc) front t v L Hs in
        core_ok c sc' h' L' Hs' (stopped t run)) /\
       same_registers sc sc' /\ same_but_links (<[t := set_state ThreadState.ready v]> h) h' /\
       others_kept c h h' /\ es' = trace_point Trace.thread_ready t :: es) sc h es.
Proof.
  intros Hok Hv Hp Hn. pose proof Hok as [Hid Hf Hst _ _]. unfold admit_thread. set (v1 := set_state ThreadState.ready v).
  set (h1 := <[t := v1]> h). assert (Hv1 : h1 !! t = Some v1) by apply lookup_insert_eq.
  assert (Hf1 : filed c h1 sc L Hs) by (eapply filed_view; [apply set_state_links, Hv | exact Hf]).
  destruct (not_listed_sentinels _ _ _ _ _ _ _ Hf Hv Hp Hn) as [He Hl].
  assert (Hoth : others_kept c h h1) by (apply (others_insert c h t v); assumption).
  assert (Hpin1 : forall x, listed L Hs x -> exists v, h1 !! x = Some v /\ pinned_core v = c).
  { intros x Hx. destruct (status_pinned _ _ _ _ _ _ x Hst Hx) as (vx & Hvx & Hpx).
    exists vx. unfold h1. rewrite lookup_insert_ne by congruence. auto. }
  assert (Hst1 : forall L' Hs', (forall x, x <> t -> listed L' Hs' x <-> listed L Hs x) ->
    (listed L' Hs' t <-> idle_thread sc <> Some t) -> (forall p x, x ∈ Levels.level L' p -> x ∉ Hs') ->
    status c h1 L' Hs' (idle_thread sc) (stopped t run)).
  { intros L' Hs' H1 H2 H3. eapply status_set_state; eauto; [| discriminate]. rewrite H2. tauto. }
  assert (Hpin : forall h', same_but_links h1 h' -> pinned_core <$> h = pinned_core <$> h').
  { intros h' Hl'. etransitivity; [| apply same_links_pinned, Hl']. eapply view_insert; [exact Hv | reflexivity]. }
  lwp_step. eapply lwp_modify_tcb; [exact Hv |]. do 2 lwp_step. lwp_step. lwp_step. unfold admitted.
  case_bool_decide as Ei.
  { lwp_step. split_and!; [| split; reflexivity | reflexivity | exact Hoth | reflexivity].
    eapply core_ok_next; [exact Hok | split; reflexivity | apply Hpin; reflexivity | exact Hf1 | | apply stopped_inv].
    apply Hst1; [reflexivity | tauto | apply Hst]. }
  lwp_step. eapply lwp_get_tcb; [exact Hv1 |]. change (holds_nothing v1) with (holds_nothing v).
  destruct (holds_nothing v) eqn:Eh.
  - assert (Hpr : base_priority v < max_priorities) by (eapply (st_priority _ _ _ _ _ _ Hst); eauto).
    pose proof (enqueue_filed front c h1 sc L Hs t v1 Hf1 Hpin1 Hv1 Hp eq_refl Hpr He) as Hq.
    assert (Hlen : base_priority v < length L) by (rewrite (fl_levels _ _ _ _ _ Hf); exact Hpr).
    assert (Hres : ok ((if front then ReadyMatrix.enqueue_thread_front else ReadyMatrix.enqueue_thread) t (ready_matrix sc) h1)
      (fun '(m', h') => core_ok c (set_ready_matrix m' sc) h'
         ((if front then Levels.push_front else Levels.push_back) (base_priority v) t L) Hs (stopped t run) /\
         same_registers sc (set_ready_matrix m' sc) /\ same_but_links h1 h' /\ others_kept c h h' /\
         trace_point Trace.thread_ready t :: es = trace_point Trace.thread_ready t :: es)).
    { eapply ok_mono; [exact Hq |]. intros [m' h'] (H1 & H2 & H3).
      split_and!; [| split; reflexivity | exact H2 | etransitivity; eassumption | reflexivity].
      eapply core_ok_next; [exact Hok | split; reflexivity | apply Hpin, H2 | exact H1 | | apply stopped_inv].
      eapply status_links; [exact H2 |]. apply Hst1.
      - intros x Hx. rewrite listed_push by exact Hlen. tauto.
      - rewrite listed_push by exact Hlen. tauto.
      - intros p x Hx Hxs. apply level_push in Hx as [-> | Hx]; [| eapply st_once; eauto | exact Hlen].
        apply Hn. right. exact Hxs. }
    destruct front; apply lwp_on_matrix; (eapply ok_mono; [exact Hres |]); intros [m' h']; auto.
  - eapply lwp_mono; [apply (link_holder_ok c s Hc h1 sc L Hs) with (v := v1); [exact Hf1 | | exact Hid | exact Hv1 | exact Hp | exact Hl] |].
    { intros x Hx. apply Hpin1. right. exact Hx. }
    intros _ sc' h' es' (-> & Hsr & Hf' & Hl' & Ho').
    split_and!; [| exact Hsr | exact Hl' | etransitivity; eassumption | reflexivity].
    eapply core_ok_next; [exact Hok | exact Hsr | apply Hpin, Hl' | exact Hf' | | apply stopped_inv]. eapply status_links; [exact Hl' |]. apply Hst1.
    + intros x Hx. unfold listed. rewrite elem_of_app. set_solver.
    + unfold listed. rewrite elem_of_app. set_solver.
    + intros p x Hx. rewrite elem_of_app. intros [Hxs | Hxt]; [eapply st_once; eauto |].
      assert (x = t) as -> by set_solver. apply Hn. left. eauto.
Qed.
End filing.
