(* ===== verification/DispatchProofs.v ===== *)
(** * Readying, picking and running a thread *)

From S2P Require Import Prelude Chain State ReadyQueue ReadyQueueProofs WaitQueue WaitQueueProofs Urgency UrgencyProofs Scheduler SchedulerSpec Local SchedulerProofs.

Section dispatch.
Context `{Config} (c : nat) (s : kernel_state) (Hc : c < length (schedulers s)).
Implicit Types (h : heap) (sc : scheduler) (L : Levels.levels) (Hs : list nat).
Local Abbreviation wf h := (Urgency.wf h (nodes s) (mutexes s)).

Lemma urg_ok h t v : wf h -> h !! t = Some v ->
  Urgency.urgency h (nodes s) (mutexes s) t = Ok (urg s h t).
Proof.
  intros Hwf Hv. unfold urg. pose proof (urgency_ok h (nodes s) (mutexes s) Hwf True t v Hv (or_introl I)) as Hok.
  destruct (Urgency.urgency h (nodes s) (mutexes s) t); [reflexivity | contradiction].
Qed.

Lemma urg_view h h' t : urgency_view <$> h = urgency_view <$> h' -> urg s h t = urg s h' t.
Proof. intros Hv. unfold urg. rewrite (urgency_frame h h' Hv). reflexivity. Qed.

Lemma links_view h h' : same_but_links h h' -> urgency_view <$> h = urgency_view <$> h'.
Proof. apply same_links_fmap. reflexivity. Qed.

Lemma state_view h t v st : h !! t = Some v -> urgency_view <$> h = urgency_view <$> <[t := set_state st v]> h.
Proof. intros Hv. eapply view_insert; [exact Hv | reflexivity]. Qed.

Lemma lwp_urg t v (Q : nat -> scheduler -> heap -> list port_call -> Prop) sc h es : wf h -> h !! t = Some v ->
  Q (urg s h t) sc h es -> lwp c s (urgency t) Q sc h es.
Proof. intros Hwf Hv HQ. apply lwp_urgency. rewrite (urg_ok h t v Hwf Hv). exact HQ. Qed.

Lemma hint_for_ok (Q : schedule_hint -> scheduler -> heap -> list port_call -> Prop) sc h es t v :
  wf h -> h !! t = Some v -> (forall x, current_thread sc = Some x -> exists v, h !! x = Some v) ->
  Q (if urg s h t <? current_urg s sc h then ScheduleHint.warranted else ScheduleHint.unwarranted) sc h es ->
  lwp c s (hint_for c t) Q sc h es.
Proof.
  intros Hwf Hv Hcur HQ. unfold hint_for, current_thread_urgency, current_urg in *.
  lwp_step. eapply lwp_urg; [exact Hwf | exact Hv |]. lwp_step. lwp_step. lwp_step.
  destruct (current_thread sc) as [x |] eqn:Ex.
  - destruct (Hcur x eq_refl) as [vx Hvx]. eapply lwp_urg; [exact Hwf | exact Hvx |]. lwp_step. exact HQ.
  - lwp_step. lwp_step. exact HQ.
Qed.

(** What [make_ready] leaves. *)
Definition readied sc h L Hs run t v (r : schedule_hint) sc' h' : Prop :=
  (let '(L', Hs') := made_ready (idle_thread sc) t v L Hs in
   core_ok c sc' h' L' Hs' (if is_finished v then run else stopped t run)) /\
  same_registers sc sc' /\ others_kept c h h' /\
  same_but_links (<[t := set_state (if is_finished v then state v else ThreadState.ready) v]> h) h' /\
  r = ready_hint s sc h t v L Hs.

Lemma insert_same_state h t v st : h !! t = Some v -> state v = st -> <[t := set_state st v]> h = h.
Proof. intros Hv <-. apply insert_id. rewrite Hv. destruct v. reflexivity. Qed.

Lemma readied_unmoved sc h L Hs run t v :
  core_ok c sc h L Hs run -> h !! t = Some v -> moves t v L Hs = false ->
  (is_finished v = true \/ state v = ThreadState.ready) ->
  readied sc h L Hs run t v ScheduleHint.unwarranted sc h.
Proof.
  intros Hok Hv Hm Hst. unfold readied, ready_hint. rewrite Hm. cbn [andb].
  assert (E : made_ready (idle_thread sc) t v L Hs = (L, Hs)).
  { unfold made_ready, moves in *. destruct (is_finished v), (bool_decide (t ∈ Levels.level _ _)), (holds_nothing v), (bool_decide (t ∈ Hs));
      auto; discriminate. }
  rewrite E. split_and!; [| split; reflexivity | reflexivity | | reflexivity].
  - destruct (is_finished v) eqn:Ef; [exact Hok |]. destruct Hst as [| Hst]; [discriminate |].
    unfold stopped. case_bool_decide as Er; [| exact Hok].
    destruct (st_run _ _ _ _ _ _ (co_status _ _ _ _ _ _ Hok) t Er) as (v' & Hv' & _ & Hr). congruence.
  - destruct (is_finished v); rewrite insert_same_state; auto; [reflexivity | reflexivity |].
    destruct Hst; [discriminate | assumption].
Qed.

(** The thread's block and the current one, across a change of links. *)
Lemma current_alive sc h L Hs run sc' h' h1 : core_ok c sc h L Hs run -> same_registers sc sc' ->
  pinned_core <$> h = pinned_core <$> h1 -> same_but_links h1 h' ->
  forall x, current_thread sc' = Some x -> exists v, h' !! x = Some v.
Proof.
  intros Hok Hsr Hp Hl x Hx. rewrite (sr_current _ _ Hsr) in Hx.
  destruct (co_current _ _ _ _ _ _ Hok x Hx) as (v & Hv & _).
  destruct (view_back pinned_core h1 h x v (eq_sym Hp) Hv) as (v1 & Hv1 & _).
  destruct (same_links_lookup _ _ _ _ Hl Hv1) as (v' & Hv' & _). eauto.
Qed.

(** A thread that came to hold something while filed in the matrix. *)
Lemma reroute_ok sc h L Hs run es t v :
  core_ok c sc h L Hs run -> wf h -> h !! t = Some v -> pinned_core v = c ->
  is_finished v = false -> is_enqueued t v = true -> holds_nothing v = false -> state v = ThreadState.ready ->
  lwp c s (on_matrix c (ReadyMatrix.remove_thread t) ;;* link_holder c t ;;* hint_for c t)
    (fun r sc' h' es' => readied sc h L Hs run t v r sc' h' /\ exists new, es' = new ++ es) sc h es.
Proof.
  intros Hok Hwf Hv Hp Hnf He Hh Hrd. pose proof Hok as [Hid Hf Hst Hcur _].
  pose proof (fl_enqueued _ _ _ _ _ Hf t v Hv Hp He) as Hlev.
  assert (Hlisted : is_listed_holder t v = false).
  { apply not_true_is_false. intros E. apply (st_once _ _ _ _ _ _ Hst _ _ Hlev). eapply fl_listed; eauto. }
  lwp_step. apply lwp_on_matrix; [exact Hc |]. eapply ok_mono.
  { apply (remove_filed c h sc L Hs t v Hf); [intros x Hx; eapply status_pinned; eauto | exact Hv | exact Hlev]. }
  intros [m1 h1] (Hf1 & Hl1 & Ho1). destruct (same_links_lookup _ _ _ _ Hl1 Hv) as (v1 & Hv1 & E1).
  assert (Hp1 : pinned_core v1 = c) by (destruct v, v1; injection E1; intros; subst; reflexivity).
  assert (Hlev1 : forall p x, x ∈ Levels.level (Levels.remove (base_priority v) t L) p ->
    x ∈ Levels.level L p /\ (p = base_priority v -> x <> t)).
  { intros p x. unfold Levels.remove. rewrite level_insert
      by (apply level_nonempty_lt; intros En; rewrite En in Hlev; inversion Hlev).
    case_decide as Ep; [| tauto]. rewrite list_elem_of_filter. subst p. tauto. }
  assert (Hpin1 : forall x, x ∈ Hs -> exists v, h1 !! x = Some v /\ pinned_core v = c).
  { intros x Hx. destruct (status_pinned _ _ _ _ _ _ x Hst (or_intror Hx)) as (vx & Hvx & Hpx).
    destruct (same_links_lookup _ _ _ _ Hl1 Hvx) as (vx' & Hvx' & Ex). exists vx'. split; [exact Hvx' |].
    destruct vx, vx'. injection Ex. intros. subst. assumption. }
  assert (Hl1h : is_listed_holder t v1 = false).
  { apply not_true_is_false. intros E. apply (st_once _ _ _ _ _ _ Hst _ _ Hlev).
    eapply fl_listed; [exact Hf1 | exact Hv1 | exact Hp1 | exact E]. }
  lwp_step. eapply lwp_mono;
    [apply (link_holder_ok c s Hc h1 (set_ready_matrix m1 sc) _ Hs es t v1 Hf1 Hpin1 Hid Hv1 Hp1 Hl1h) |].
  intros _ sc2 h2 es2 (-> & Hsr & Hf2 & Hl2 & Ho2).
  assert (Hsr' : same_registers sc sc2) by (destruct Hsr; split; assumption).
  assert (Hl : same_but_links h h2) by (etransitivity; eassumption).
  destruct (same_links_lookup _ _ _ _ Hl Hv) as (v2 & Hv2 & _).
  assert (Hview : urgency_view <$> h = urgency_view <$> h2) by (apply links_view, Hl).
  eapply hint_for_ok; [eapply wf_frame; eassumption | exact Hv2 | |].
  { eapply current_alive; [exact Hok | exact Hsr' | reflexivity | exact Hl]. }
  split; [| exists []; reflexivity]. unfold readied. unfold ready_hint, moves, made_ready.
  rewrite (enqueued_iff _ _ _ _ _ _ _ Hf Hv Hp) in He. rewrite Hnf, He, Hh. clear He. cbn [negb andb]. split_and!; [| exact Hsr' | etransitivity; eassumption | |].
  - assert (Hstop : stopped t run = run).
    { unfold stopped. case_bool_decide as Er; [| reflexivity].
      destruct (st_run _ _ _ _ _ _ Hst t Er) as (v' & Hv' & _ & Hr'). congruence. }
    rewrite Hstop. eapply core_ok_next; [exact Hok | exact Hsr' | apply same_links_pinned, Hl | exact Hf2 | | auto].
    eapply status_links; [exact Hl |].
    assert (Hsame : forall x, listed (Levels.remove (base_priority v) t L) (Hs ++ [t]) x <-> listed L Hs x).
    { intros x. unfold listed. rewrite elem_of_app, list_elem_of_singleton. split.
      - intros [[p Hx] | [Hx | ->]]; [left; exists p; apply Hlev1, Hx | auto | left; eauto].
      - intros [[p Hx] | Hx]; [| auto]. destruct (decide (x = t)) as [-> | Hne]; [auto |].
        left. exists p. unfold Levels.remove.
        rewrite level_insert by (apply level_nonempty_lt; intros En; rewrite En in Hlev; inversion Hlev).
        case_decide as Ep; [| exact Hx]. subst p. apply list_elem_of_filter. auto. }
    destruct Hst as [S1 S2 S3 S4 S5 S6 S7]. split; auto.
    + intros x Hx. apply S1, Hsame, Hx.
    + intros p x Hx Hxs. apply Hlev1 in Hx as [Hx Hne]. rewrite elem_of_app, list_elem_of_singleton in Hxs.
      destruct Hxs as [Hxs | ->]; [exact (S2 p x Hx Hxs) |].
      apply Hne; [| reflexivity]. apply (level_sentinel _ _ _ _ _ _ _ _ Hf Hv) in Hx. symmetry. apply Hx.
    + intros x vx Hx Hpx Hsx Hix. apply Hsame. eauto.
  - rewrite insert_same_state by assumption. exact Hl.
  - unfold current_urg. rewrite (sr_current _ _ Hsr'), <- (urg_view h h2 t Hview).
    destruct (current_thread sc) as [x |]; [rewrite <- (urg_view h h2 x Hview) |]; reflexivity.
Qed.

Lemma make_ready_ok sc h L Hs run es t v :
  core_ok c sc h L Hs run -> wf h -> h !! t = Some v -> pinned_core v = c ->
  lwp c s (make_ready c t)
    (fun r sc' h' es' => readied sc h L Hs run t v r sc' h' /\ exists new, es' = new ++ es) sc h es.
Proof.
  intros Hok Hwf Hv Hp. pose proof Hok as [Hid Hf Hst _ _]. unfold make_ready.
  lwp_step. eapply lwp_get_tcb; [exact Hv |].
  destruct (is_finished v) eqn:Hnf.
  { lwp_step. split; [| exists []; reflexivity]. apply readied_unmoved; auto. unfold moves. rewrite Hnf. reflexivity. }
  pose proof (enqueued_iff _ _ _ _ _ _ _ Hf Hv Hp) as Ee. pose proof (listed_iff _ _ _ _ _ _ _ Hf Hv Hp) as Elh.
  destruct (is_enqueued t v || is_listed_holder t v) eqn:El.
  - assert (Hrd : state v = ThreadState.ready).
    { assert (Hli : listed L Hs t).
      { apply orb_true_iff in El as [E | E]; [left; eexists; eapply fl_enqueued | right; eapply fl_listed]; eauto. }
      destruct (st_listed _ _ _ _ _ _ Hst t Hli) as (v' & Hv' & _ & Hr & _). congruence. }
    lwp_step. lwp_step; [apply bool_decide_eq_true; exact Hrd |].
    destruct (is_enqueued t v) eqn:He; cbn [andb].
    + destruct (holds_nothing v) eqn:Hh; cbn [negb]; [| apply reroute_ok; assumption].
      lwp_step. split; [| exists []; reflexivity]. apply readied_unmoved; auto.
      unfold moves. rewrite <- Ee, Hnf, Hh. reflexivity.
    + simpl in El. lwp_step. split; [| exists []; reflexivity]. apply readied_unmoved; auto.
      unfold moves. rewrite <- Ee, <- Elh, Hnf, El. reflexivity.
  - apply orb_false_iff in El as [He Hl].
    assert (Hnl : ~ listed L Hs t).
    { intros [[p Hx] | Hx].
      - destruct (level_sentinel _ _ _ _ _ _ _ _ Hf Hv Hx). congruence.
      - rewrite (holder_sentinel _ _ _ _ _ _ (fl_holders _ _ _ _ _ Hf) Hv Hx) in Hl. discriminate. }
    lwp_step. eapply lwp_mono; [apply (admit_thread_ok c s Hc false h sc L Hs run es t v Hok Hv Hp Hnl) |].
    intros _ sc1 h1 es1 (Hok1 & Hsr & Hl1 & Ho1 & ->).
    assert (Hview : urgency_view <$> h = urgency_view <$> h1).
    { etransitivity; [eapply state_view, Hv | apply links_view, Hl1]. }
    destruct (same_links_lookup _ _ t (set_state ThreadState.ready v) Hl1 (lookup_insert_eq _ _ _)) as (v1 & Hv1 & _).
    eapply hint_for_ok; [eapply wf_frame; eassumption | exact Hv1 | |].
    { eapply current_alive; [exact Hok | exact Hsr | | exact Hl1]. eapply view_insert; [exact Hv | reflexivity]. }
    split; [| eexists [_]; reflexivity]. unfold readied, ready_hint, moves, made_ready. rewrite <- Ee, <- Elh, Hnf, ?He, ?Hl.
    cbn [negb andb]. split_and!; auto.
    unfold current_urg. rewrite (sr_current _ _ Hsr), <- (urg_view h h1 t Hview).
    destruct (current_thread sc) as [x |]; [rewrite <- (urg_view h h1 x Hview) |]; reflexivity.
Qed.
End dispatch.
