(* ===== verification/PickProofs.v ===== *)
(** * The pick *)

From S2P Require Import Prelude Chain State ReadyQueue ReadyQueueProofs WaitQueue WaitQueueProofs Urgency UrgencyProofs Scheduler SchedulerSpec Local SchedulerProofs DispatchProofs.

Section matrix_queries.
Context `{Config}.

Lemma best_priority_ok h m L : matrix_repr h m L ->
  ReadyMatrix.best_priority m = match Levels.best L with Some p => Z.of_nat p | None => (-1)%Z end.
Proof.
  intros Hm. unfold ReadyMatrix.best_priority. rewrite (mr_bitmap_zero _ _ _ Hm).
  destruct (Levels.best L) as [p |] eqn:E; simpl; [rewrite (mr_countr_zero _ _ _ _ Hm E) |]; reflexivity.
Qed.

Lemma has_more_urgent_ok h m L p : matrix_repr h m L -> p <= 31 ->
  ReadyMatrix.has_more_urgent_than m p = true <-> exists k, k < p /\ Levels.level L k <> [].
Proof.
  intros Hm Hp. pose proof (mr_range _ _ _ Hm) as Hr. unfold ReadyMatrix.has_more_urgent_than.
  assert (Hu : u32 (bit p - 1) = (bit p - 1)%Z).
  { apply wrap_small. unfold bit. rewrite Z.shiftl_1_l.
    pose proof (Z.pow_pos_nonneg 2 (Z.of_nat p) ltac:(lia) ltac:(lia)).
    pose proof (Z.pow_le_mono_r 2 (Z.of_nat p) 32 ltac:(lia) ltac:(lia)). lia. }
  rewrite Hu, negb_true_iff, Z.eqb_neq, land_low_mask_zero by lia. split.
  - intros Hn. destruct (Levels.best L) as [q |] eqn:E.
    + apply best_spec in E as [Hq Hlt]. exists q. split; [| exact Hq].
      destruct (decide (q < p)) as [| Hge]; [assumption |]. exfalso. apply Hn. intros k Hk.
      rewrite (mr_bits _ _ _ Hm), Hlt by lia. reflexivity.
    + exfalso. apply Hn. intros k Hk. rewrite (mr_bits _ _ _ Hm), (proj1 (best_none L) E k). reflexivity.
  - intros (k & Hk & Hne) Hall. specialize (Hall k Hk). rewrite (mr_bits _ _ _ Hm), bool_decide_false in Hall by exact Hne.
    discriminate.
Qed.
End matrix_queries.

Section pick.
Context `{Config} (c : nat) (s : kernel_state) (Hc : c < length (schedulers s)).
Implicit Types (h : heap) (sc : scheduler) (L : Levels.levels) (Hs : list nat).
Local Abbreviation wf h := (Urgency.wf h (nodes s) (mutexes s)).

(** What a pick leaves, of the structures and of the rest. *)
Definition taken sc h (L' : Levels.levels) Hs' rotor' sc' h' : Prop :=
  filed c h' sc' L' Hs' /\ same_but_links h h' /\ others_kept c h h' /\
  tie_rotor sc' = rotor' /\ same_registers (set_tie_rotor rotor' sc) sc'.

Lemma pop_best_thread_ok h sc L Hs run es :
  core_ok c sc h L Hs run ->
  lwp c s (pop_best_thread c)
    (fun r sc' h' es' => es' = es /\
       match Levels.pop L with
       | Some (t, L') => r = Some t /\ taken sc h L' Hs (tie_rotor sc) sc' h'
       | None => r = None /\ taken sc h L Hs (tie_rotor sc) sc' h'
       end) sc h es.
Proof.
  intros [Hid Hf Hst _ _]. unfold pop_best_thread. repeat lwp_step. eapply ok_mono.
  { apply (pop_filed c h sc L Hs Hf). intros x Hx. eapply status_pinned; eauto. }
  intros [[r m'] h'] Hr. cbn beta iota. do 2 lwp_step. do 2 lwp_step. lwp_step. split; [reflexivity |].
  unfold taken. destruct (Levels.pop L) as [[t L'] |].
  - destruct Hr as (-> & H1 & H2 & H3). split_and!; auto. split; reflexivity.
  - destruct Hr as (-> & -> & ->). split_and!; try reflexivity; [| split; reflexivity].
    eapply filed_scheduler; [.. | exact Hf]; reflexivity.
Qed.

(** Another rotor, the same core. *)
Lemma core_ok_rotor sc h L Hs run rotor : core_ok c sc h L Hs run -> core_ok c (set_tie_rotor rotor sc) h L Hs run.
Proof.
  intros [H1 H2 H3 H4 H5]. split; auto. eapply filed_scheduler; [.. | exact H2]; reflexivity.
Qed.

Lemma best_holder_ok h sc es : wf h -> forall Hs fuel hd best bu,
  chain holder_next h hd Hs -> length Hs <= fuel ->
  lwp c s (best_holder fuel hd best bu)
    (fun r sc' h' es' => r = first_best (urg s h) Hs best bu /\ sc' = sc /\ h' = h /\ es' = es) sc h es.
Proof.
  intros Hwf. induction Hs as [| t Hs IH]; intros fuel hd best bu Hch Hf.
  - unfold chain in Hch. simpl in Hch. subst hd. destruct fuel; apply lwp_ret; auto.
  - destruct Hch as [-> (v & Hv & Hch)]. destruct fuel as [| fuel]; simpl in Hf; [lia |]. cbn [best_holder first_best].
    lwp_step. eapply lwp_urg; [exact Hwf | exact Hv |]. lwp_step. eapply lwp_get_tcb; [exact Hv |].
    destruct (urg s h t <? bu); apply IH; auto; lia.
Qed.

Lemma first_best_in (u : nat -> nat) Hs best bu t n : first_best u Hs best bu = (Some t, n) -> best = Some t \/ t ∈ Hs.
Proof.
  revert best bu. induction Hs as [| x Hs IH]; intros best bu; simpl; [intros [= ->]; auto |].
  destruct (u x <? bu); intros E; apply IH in E as [E | E]; [| right; right; exact E | auto | right; right; exact E].
  injection E as ->. right. left.
Qed.

Lemma take_holder_ok h sc L Hs run es t rotor0 :
  core_ok c sc h L Hs run -> t ∈ Hs -> same_registers (set_tie_rotor (tie_rotor sc) rotor0) sc ->
  lwp c s (unlink_holder c t ;;* kret (Some t))
    (fun r sc' h' es' => es' = es /\ r = Some t /\
       taken rotor0 h L (filter (fun x => x <> t) Hs) (tie_rotor sc) sc' h') sc h es.
Proof.
  intros Hok Ht Hsr. pose proof Hok as [Hid Hf Hst _ _].
  destruct (status_pinned _ _ _ _ _ _ t Hst (or_intror Ht)) as (v & Hv & Hp).
  lwp_step. eapply lwp_mono; [apply (unlink_holder_ok c s Hc h sc L Hs es t v Hf); auto |].
  { intros x Hx. eapply status_pinned; [exact Hst | right; exact Hx]. }
  intros _ sc' h' es' (-> & Hsr' & Hf' & Hl & Ho). lwp_step. split_and!; auto. unfold taken. split_and!; auto.
  - apply Hsr'.
  - eapply same_registers_trans; [exact Hsr | exact Hsr'].
Qed.

(** [pick_next] makes the abstract choice. *)
Lemma pick_next_ok h sc L Hs run es :
  core_ok c sc h L Hs run -> wf h ->
  lwp c s (pick_next c)
    (fun r sc' h' es' => es' = es /\
       let '(r', L', Hs', rotor') := pick (urg s h) L Hs (tie_rotor sc) in
       r = r' /\ taken sc h L' Hs' rotor' sc' h') sc h es.
Proof.
  intros Hok Hwf. pose proof Hok as [Hid Hf Hst _ _]. pose proof (fl_holders _ _ _ _ _ Hf) as Htl.
  unfold pick_next. lwp_step. lwp_step.
  assert (Hpop : forall Hs', (Hs' = Hs) -> forall u, choose u L Hs' (tie_rotor sc) = (from_matrix, tie_rotor sc) ->
    lwp c s (pop_best_thread c) (fun r sc' h' es' => es' = es /\
       let '(r', L', Hs', rotor') := pick u L Hs (tie_rotor sc) in
       r = r' /\ taken sc h L' Hs' rotor' sc' h') sc h es).
  { intros Hs' -> u Ech. eapply lwp_mono; [apply (pop_best_thread_ok h sc L Hs run es Hok) |].
    intros r sc' h' es' [-> Hr]. split; [reflexivity |]. unfold pick. rewrite Ech.
    destruct (Levels.pop L) as [[t L'] |]; exact Hr. }
  case_bool_decide as Eh.
  { apply (tailed_empty _ _ _ _ _ Htl) in Eh. apply (Hpop []); [auto |]. reflexivity. }
  unfold pick_with_holders. do 4 lwp_step. lwp_step.
  eapply lwp_mono.
  { apply (best_holder_ok h sc es Hwf Hs); [apply Htl |].
    destruct Htl as [Hch _]. pose proof (chain_length _ _ _ _ Hch). lia. }
  intros [best bu] sc0 h0 es0 (E & -> & -> & ->). cbn beta iota.
  rewrite (best_priority_ok _ _ _ (fl_matrix _ _ _ _ _ Hf)).
  assert (Ech : forall rotor, choose (urg s h) L Hs rotor = match best, Levels.best L with
    | None, _ => (from_matrix, rotor)
    | Some t, None => (from_holders t, rotor)
    | Some t, Some p => if p <? bu then (from_matrix, rotor)
        else if p =? bu then
          (if (Z.land (Z.lxor rotor (bit p)) (bit p) =? 0)%Z then from_matrix else from_holders t, Z.lxor rotor (bit p))
        else (from_holders t, rotor) end) by (intros; unfold choose; rewrite <- E; destruct best; reflexivity).
  assert (Hholder : forall t rotor, best = Some t ->
    choose (urg s h) L Hs (tie_rotor sc) = (from_holders t, rotor) ->
    lwp c s (unlink_holder c t ;;* kret (Some t)) (fun r sc' h' es' => es' = es /\
       let '(r', L', Hs', rotor') := pick (urg s h) L Hs (tie_rotor sc) in
       r = r' /\ taken sc h L' Hs' rotor' sc' h') (set_tie_rotor rotor sc) h es).
  { intros t rotor -> E1. eapply lwp_mono.
    - apply (take_holder_ok h (set_tie_rotor rotor sc) L Hs run es t sc); [apply core_ok_rotor, Hok | | split; reflexivity].
      destruct (first_best_in _ _ _ _ _ _ (eq_sym E)) as [| Hin]; [discriminate | exact Hin].
    - intros r sc' h' es' (-> & -> & Htk). split; [reflexivity |]. unfold pick. rewrite E1. split; [reflexivity | exact Htk]. }
  assert (Hsame : set_tie_rotor (tie_rotor sc) sc = sc) by (destruct sc; reflexivity).
  destruct best as [t |]; [| apply (Hpop Hs eq_refl); rewrite Ech; reflexivity].
  destruct (Levels.best L) as [p |] eqn:Eb.
  - rewrite (proj2 (Z.leb_le _ _)), Nat2Z.id by lia. specialize (Ech (tie_rotor sc)).
    destruct (p <? bu); [apply (Hpop Hs eq_refl); exact Ech |].
    destruct (p =? bu).
    + lwp_step. apply lwp_modify_scheduler; [exact Hc |]. lwp_step. lwp_step. simpl.
      destruct (Z.land _ _ =? 0)%Z eqn:Er.
      * eapply lwp_mono; [eapply (pop_best_thread_ok h _ L Hs run es); apply core_ok_rotor, Hok |].
        intros r sc' h' es' [-> Hr]. split; [reflexivity |]. unfold pick. rewrite Ech. unfold taken in *. simpl in Hr.
        destruct (Levels.pop L) as [[t' L'] |]; exact Hr.
      * apply (Hholder t); [reflexivity | exact Ech].
    + pose proof (Hholder t (tie_rotor sc) eq_refl Ech) as Hx. rewrite Hsame in Hx. exact Hx.
  - pose proof (Hholder t (tie_rotor sc) eq_refl (Ech (tie_rotor sc))) as Hx. rewrite Hsame in Hx. exact Hx.
Qed.
End pick.

(** ** The choice, on the lists *)

Lemma first_best_ext u u' Hs best bu : (forall x, u x = u' x) -> first_best u Hs best bu = first_best u' Hs best bu.
Proof.
  intros Hu. revert best bu. induction Hs as [| t Hs IH]; intros best bu; simpl; [reflexivity |].
  rewrite Hu. destruct (u' t <? bu); apply IH.
Qed.

Lemma pick_ext u u' L Hs rotor : (forall x, u x = u' x) -> pick u L Hs rotor = pick u' L Hs rotor.
Proof. intros Hu. unfold pick, choose. rewrite (first_best_ext u u') by exact Hu. reflexivity. Qed.

Section choice.
Context (u : nat -> nat).
Implicit Types (L : Levels.levels) (Hs : list nat).

(** The loop keeps the least urgency seen, and the first holder with it. *)
Lemma first_best_spec Hs best bu t n :
  first_best u Hs best bu = (Some t, n) ->
  n <= bu /\ (forall x, x ∈ Hs -> n <= u x) /\
  ((best = Some t /\ n = bu /\ forall x, x ∈ Hs -> bu <= u x) \/
   (exists l1 l2, Hs = l1 ++ t :: l2 /\ u t = n /\ n < bu /\ forall x, x ∈ l1 -> n < u x)).
Proof.
  revert best bu. induction Hs as [| y Hs IH]; intros best bu; cbn [first_best].
  - intros [= -> ->]. split_and!; [lia | intros x Hx; inversion Hx |]. left. split_and!; auto. intros x Hx. inversion Hx.
  - destruct (Nat.ltb_spec (u y) bu) as [Hlt | Hge]; intros E; apply IH in E as (H1 & H2 & H3).
    + split_and!; [lia | |].
      { intros x Hx. apply elem_of_cons in Hx as [-> | Hx]; [lia | auto]. }
      right. destruct H3 as [([= ->] & -> & H3) | (l1 & l2 & -> & Hu & Hn & H3)].
      * exists [], Hs. split_and!; auto. intros x Hx. inversion Hx.
      * exists (y :: l1), l2. split_and!; [reflexivity | exact Hu | lia |].
        intros x Hx. apply elem_of_cons in Hx as [-> | Hx]; [lia | auto].
    + split_and!; [lia | |].
      { intros x Hx. apply elem_of_cons in Hx as [-> | Hx]; [lia | auto]. }
      destruct H3 as [(-> & -> & H3) | (l1 & l2 & -> & Hu & Hn & H3)].
      * left. split_and!; auto. intros x Hx. apply elem_of_cons in Hx as [-> | Hx]; [lia | auto].
      * right. exists (y :: l1), l2. split_and!; [reflexivity | exact Hu | lia |].
        intros x Hx. apply elem_of_cons in Hx as [-> | Hx]; [lia | auto].
Qed.

Lemma first_best_none Hs best bu n : first_best u Hs best bu = (None, n) ->
  best = None /\ forall x, x ∈ Hs -> bu <= u x.
Proof.
  revert best bu. induction Hs as [| y Hs IH]; intros best bu; cbn [first_best].
  - intros [= -> ->]. split; [reflexivity |]. intros x Hx. inversion Hx.
  - destruct (Nat.ltb_spec (u y) bu) as [Hlt | Hge]; intros E; apply IH in E as [H1 H2]; [discriminate |].
    split; [exact H1 |]. intros x Hx. apply elem_of_cons in Hx as [-> | Hx]; [lia | auto].
Qed.

(** Either side's winner: the first of its most urgent. *)
Lemma choose_spec L Hs rotor from rotor' : (forall x, x ∈ Hs -> u x < 255) ->
  choose u L Hs rotor = (from, rotor') ->
  match from with
  | from_matrix => forall x e, competes u L Hs x e -> exists p, Levels.best L = Some p /\ p <= e
  | from_holders t => exists l1 l2, Hs = l1 ++ t :: l2 /\ (forall x, x ∈ l1 -> u t < u x) /\
      forall x e, competes u L Hs x e -> u t <= e
  end.
Proof.
  intros Hu. unfold choose. destruct (first_best u Hs None 255) as [best bu] eqn:Ef.
  assert (Hmat : forall p x e, Levels.best L = Some p -> x ∈ Levels.level L e -> p <= e).
  { intros p x e Hb Hx. apply best_spec in Hb as [_ Hlt]. destruct (decide (e < p)) as [Hep |]; [| lia].
    rewrite (Hlt e Hep) in Hx. inversion Hx. }
  destruct best as [t |].
  - apply first_best_spec in Ef as (H1 & H2 & [(H3 & _) | (l1 & l2 & Hl & Hut & Hn & H3)]); [discriminate |].
    assert (Hhold : (forall x e, x ∈ Levels.level L e -> bu <= e) -> exists l1 l2, Hs = l1 ++ t :: l2 /\
      (forall x, x ∈ l1 -> u t < u x) /\ forall x e, competes u L Hs x e -> u t <= e).
    { intros Hle. exists l1, l2. rewrite Hut. split_and!; auto. intros x e [Hx | [Hx <-]]; eauto. }
    destruct (Levels.best L) as [p |] eqn:Eb.
    + destruct (Nat.ltb_spec p bu) as [Hlt | Hge].
      * intros [= <- <-] x e [Hx | [Hx <-]]; exists p; [eauto |]. split; [reflexivity |]. specialize (H2 x Hx). lia.
      * destruct (Nat.eqb_spec p bu) as [-> | Hne].
        -- destruct (Z.land _ _ =? 0)%Z; intros [= <- <-].
           ++ intros x e [Hx | [Hx <-]]; exists bu; [eauto |]. split; [reflexivity | auto].
           ++ apply Hhold. eauto.
        -- intros [= <- <-]. apply Hhold. intros x e Hx. specialize (Hmat p x e eq_refl Hx). lia.
    + intros [= <- <-]. apply Hhold. intros x e Hx. rewrite (proj1 (best_none L) Eb e) in Hx. inversion Hx.
  - apply first_best_none in Ef as [_ Hn]. intros [= <- <-] x e [Hx | [Hx _]].
    + destruct (Levels.best L) as [p |] eqn:Eb; [eauto |].
      rewrite (proj1 (best_none L) Eb e) in Hx. inversion Hx.
    + specialize (Hn x Hx). specialize (Hu x Hx). lia.
Qed.

(** The pick takes one filed thread out, and it is first among the most
    urgent of its side. *)
Lemma pick_some L Hs rotor t L' Hs' rotor' :
  distinct L Hs -> (forall x, x ∈ Hs -> u x < 255) -> pick u L Hs rotor = (Some t, L', Hs', rotor') ->
  listed L Hs t /\ ~ listed L' Hs' t /\ (forall x, x <> t -> listed L' Hs' x <-> listed L Hs x) /\
  distinct L' Hs' /\ (forall x e, competes u L' Hs' x e -> competes u L Hs x e) /\
  exists e, competes u L Hs t e /\ forall x ex, competes u L Hs x ex -> e <= ex.
Proof.
  intros Hd Hu. unfold pick. destruct (choose u L Hs rotor) as [from r] eqn:Ech.
  pose proof (choose_spec _ _ _ _ _ Hu Ech) as Hc. destruct Hd as [D1 D2 D3 D4]. destruct from as [| t'].
  - destruct (Levels.best L) as [p |] eqn:Eb; [| rewrite (pop_none _ Eb); discriminate].
    destruct (pop_best _ _ Eb) as (t' & l & Hl & ->). intros [= -> <- <- <-].
    assert (Hp : p < length L) by (apply level_nonempty_lt; rewrite Hl; discriminate).
    assert (Htl : t ∈ Levels.level L p) by (rewrite Hl; left).
    assert (Hnd : t ∉ l /\ NoDup l) by (apply NoDup_cons; rewrite <- Hl; apply D1).
    assert (Hlev : forall q x, x ∈ Levels.level (<[p:=l]> L) q <-> x <> t /\ x ∈ Levels.level L q).
    { intros q x. rewrite level_insert by exact Hp. case_decide as Eq.
      - subst q. rewrite Hl, elem_of_cons. split; [| tauto]. intros Hx. split; [| auto]. intros ->. tauto.
      - split; [| tauto]. intros Hx. split; [| exact Hx]. intros ->. apply Eq. eapply D2; eassumption. }
    split_and!; [left; eauto | | | | |].
    + intros [[q Hx] | Hx]; [apply Hlev in Hx; tauto | exact (D4 p t Htl Hx)].
    + intros x Hx. unfold listed. setoid_rewrite Hlev. split; intros [[q Hq] | ?]; [left; exists q; tauto | auto | left; exists q; tauto | auto].
    + split; auto.
      * intros q. rewrite level_insert by exact Hp. case_decide; [tauto | apply D1].
      * intros q1 q2 x Hx1 Hx2. apply Hlev in Hx1, Hx2. eapply D2; [apply Hx1 | apply Hx2].
      * intros q x Hx. apply Hlev in Hx. eapply D4. apply Hx.
    + intros x e [Hx | Hx]; [left; apply Hlev, Hx | right; exact Hx].
    + exists p. split; [left; exact Htl |]. intros x ex Hx. destruct (Hc x ex Hx) as (p' & E & Hle). congruence.
  - intros [= -> <- <- <-]. destruct Hc as (l1 & l2 & El & _ & Hmin).
    assert (Ht : t ∈ Hs) by (rewrite El; set_solver).
    split_and!; [right; exact Ht | | | | |].
    + intros [[q Hx] | Hx]; [exact (D4 q t Hx Ht) |]. apply list_elem_of_filter in Hx. tauto.
    + intros x Hx. unfold listed. rewrite list_elem_of_filter. tauto.
    + split; auto; [apply NoDup_filter, D3 |]. intros p x Hx. rewrite list_elem_of_filter. intros [_ Hxs]. eapply D4; eauto.
    + intros x e [Hx | [Hx Ex]]; [left; exact Hx | right]. apply list_elem_of_filter in Hx. tauto.
    + exists (u t). split; [right; auto | exact Hmin].
Qed.

Lemma pick_none L Hs rotor L' Hs' rotor' : (forall x, x ∈ Hs -> u x < 255) ->
  pick u L Hs rotor = (None, L', Hs', rotor') -> L' = L /\ Hs' = Hs /\ forall x, ~ listed L Hs x.
Proof.
  intros Hu. unfold pick. destruct (choose u L Hs rotor) as [from r] eqn:Ech.
  pose proof (choose_spec _ _ _ _ _ Hu Ech) as Hc. destruct from as [| t']; [| discriminate].
  destruct (Levels.best L) as [p |] eqn:Eb; [destruct (pop_best _ _ Eb) as (t' & l & _ & ->); discriminate |].
  rewrite (pop_none _ Eb). intros [= <- <- <-]. split_and!; auto. intros x [[e Hx] | Hx].
  - destruct (Hc x e (or_introl Hx)) as (p & E & _). discriminate.
  - destruct (Hc x (u x) (or_intror (conj Hx eq_refl))) as (p & E & _). discriminate.
Qed.
End choice.
