(* ===== verification/Switch.v ===== *)
(** * Switching threads: the intake, the departures and the roads

    The rest of scheduler.cpp and scheduler.hpp, with the part of kernel.cpp
    and waitable.cpp it goes through: a wake reaches a thread on another core
    through that core's intake, a departure may retire a thread and raise its
    termination, and a switch is one decision with three roads into it. *)

From S2P Require Import Prelude Chain State ReadyQueue WaitQueue Urgency Scheduler.

Module Switch.
Section switch.
Context `{Config} (cx : cpu).

(** ** The intake *)

(** Push [t] on [c]'s intake; whether it was empty. *)
Definition push_intake (c t : nat) : K bool :=
modify_tcb t (set_intake_next (Some t)) ;;*
let* sc := get_scheduler c in
let prev := intake_head sc in
modify_scheduler c (set_intake_head (Some t)) ;;*
modify_tcb t (set_intake_next prev) ;;*
kret (bool_decide (prev = None)).

Definition post_intake (c t : nat) (request : thread_request) : K unit :=
let* v := get_tcb t in
let old := pending_requests v in
modify_tcb t (set_pending_requests (u8 (Z.lor old (request_bit request)))) ;;*
if negb (old =? 0)%Z then kret tt
else
  let* first := push_intake c t in
  if first : bool then
    let* sc := get_scheduler c in
    emit (port_send_reschedule_ipi (this_core cx) (core_id sc))
  else kret tt.

Definition intake_pending (c : nat) : K bool :=
let* sc := get_scheduler c in
kret (negb (bool_decide (intake_head sc = None))).

(** [set_thread_ready], whose two ways to switch are given: the thread's
  road and the interrupt's. *)
Definition set_thread_ready_on (direct interrupt : K unit) (c t : nat) (policy : reschedule_policy) :
  K schedule_hint :=
let* sc := get_scheduler c in
let* v := get_tcb t in
kensure assert_failed (pinned_core v =? core_id sc) ;;*
let* hint := make_ready c t in
if bool_decide (hint = ScheduleHint.warranted) && negb (bool_decide (policy = ReschedulePolicy.never)) then
  if masked_from_baseline cx then direct ;;* kret ScheduleHint.rescheduled
  else if interrupted_at_baseline cx then interrupt ;;* kret ScheduleHint.rescheduled
  else kret hint
else kret hint.

(** Under [reschedule_policy::never] neither road is taken, and a switch,
  which is what readies threads this way, needs none. *)
Definition set_thread_ready_never (c t : nat) : K schedule_hint :=
set_thread_ready_on (klift (Panic fatal_failed)) (klift (Panic fatal_failed)) c t ReschedulePolicy.never.

Definition service_intake (c t : nat) (bits : Z) : K unit :=
if negb (Z.land bits (request_bit ThreadRequest.make_ready) =? 0)%Z then
  let* v := get_tcb t in
  (if bool_decide (disposition v = ThreadDisposition.terminating) then kret tt
   else modify_tcb t (set_disposition ThreadDisposition.none)) ;;*
  set_thread_ready_never c t ;;*
  kret tt
else kret tt.

(** [await_intake_link]: no producer is mid-push between two steps, so a
  link still unpublished would be waited for forever. *)
Definition await_intake_link (node : nat) : K (option nat) :=
let* v := get_tcb node in
if bool_decide (intake_next v = Some node) then klift (Panic out_of_fuel)
else kret (intake_next v).

(** The first loop of [drain_intake]: arrival order restored. *)
Fixpoint restore_arrival (fuel : nat) (node fifo : option nat) : K (option nat) :=
match node with
| None => kret fifo
| Some n =>
    match fuel with
    | O => klift (Panic out_of_fuel)
    | S fuel =>
        let* next := await_intake_link n in
        modify_tcb n (set_intake_next fifo) ;;*
        restore_arrival fuel next (Some n)
    end
end.

(** The second: each request taken, then serviced. *)
Fixpoint service_all (fuel : nat) (c : nat) (fifo : option nat) : K unit :=
match fifo with
| None => kret tt
| Some t =>
    match fuel with
    | O => klift (Panic out_of_fuel)
    | S fuel =>
        let* v := get_tcb t in
        modify_tcb t (set_intake_next None) ;;*
        modify_tcb t (set_pending_requests 0%Z) ;;*
        service_intake c t (pending_requests v) ;;*
        service_all fuel c (intake_next v)
    end
end.

Definition drain_intake (c : nat) : K unit :=
let* sc := get_scheduler c in
let node := intake_head sc in
modify_scheduler c (set_intake_head None) ;;*
if bool_decide (node = None) then kret tt
else
  let* h := kget tcbs in
  let fuel := S (size h) in
  let* fifo := restore_arrival fuel node None in
  service_all fuel c fifo.

(** ** Waking a thread from anywhere: [global_ready_thread] of kernel.cpp *)

Definition global_ready_thread_on (ready : nat -> nat -> reschedule_policy -> K schedule_hint)
  (t : nat) (policy : reschedule_policy) : K schedule_hint :=
let* v := get_tcb t in
if is_finished v then kret ScheduleHint.unwarranted
else
  let c := pinned_core v in
  kensure assert_failed (c <? cores) ;;*
  if (1 <? cores) && negb (this_core cx =? c) then
    emit (trace_point Trace.remote_wake t) ;;*
    post_intake c t ThreadRequest.make_ready ;;*
    kret ScheduleHint.unwarranted
  else
    modify_tcb t (set_disposition ThreadDisposition.none) ;;*
    if bool_decide (state v = ThreadState.running) then kret ScheduleHint.unwarranted
    else ready c t policy.

Definition global_ready_thread_never (t : nat) : K schedule_hint :=
global_ready_thread_on (fun c t _ => set_thread_ready_never c t) t ReschedulePolicy.never.

Definition apply_reschedule_policy (policy : reschedule_policy) (hint : schedule_hint) : K unit :=
if bool_decide (policy = ReschedulePolicy.never) || bool_decide (hint = ScheduleHint.rescheduled)
then kret tt
else if bool_decide (policy = ReschedulePolicy.always) || bool_decide (hint = ScheduleHint.warranted)
then emit (port_pend_reschedule (this_core cx))
else kret tt.

(** ** A cancel signal: one of its own, or a thread's termination *)

Inductive signal_ref := own_signal (x : nat) | termination_of (t : nat).

Definition read_signal (x : signal_ref) : K cancel_signal :=
match x with
| own_signal x => get_signal x
| termination_of t => let* v := get_tcb t in kret (termination v)
end.

Definition write_signal (x : signal_ref) (f : cancel_signal -> cancel_signal) : K unit :=
match x with
| own_signal x => modify_signal x f
| termination_of t => modify_tcb t (fun v => set_termination (f (termination v)) v)
end.

(** The loop of [wait_queue::raise_all] over the nodes it took. *)
Fixpoint ready_nodes (fuel : nat) (node : option nat) (aggregate : schedule_hint) : K schedule_hint :=
match node with
| None => kret aggregate
| Some n =>
    match fuel with
    | O => klift (Panic out_of_fuel)
    | S fuel =>
        let* v := get_node n in
        modify_node n (set_node_next None) ;;*
        let* hint := global_ready_thread_never (node_owner v) in
        ready_nodes fuel (node_next v)
          (if bool_decide (hint = ScheduleHint.warranted) then ScheduleHint.warranted else aggregate)
    end
end.

Definition raise_all (x : signal_ref) (policy : reschedule_policy) : K unit :=
write_signal x (set_raised_flag true) ;;*
let* sg := read_signal x in
let node := wq_head (cs_queue sg) in
write_signal x (set_cs_queue (set_wq_head None (cs_queue sg))) ;;*
let* ns := kget nodes in
let* hint := ready_nodes (S (size ns)) node ScheduleHint.unwarranted in
apply_reschedule_policy policy hint.

(** [cancel_signal::raise]. *)
Definition raise (x : signal_ref) (policy : reschedule_policy) : K unit := raise_all x policy.

(** ** Departures *)

(** [thread_registry::unregister_thread]. *)
Definition unregister_thread (t : nat) : K unit :=
let* v := get_tcb t in
kensure assert_failed (bool_decide (state v = ThreadState.terminated)) ;;*
let* registered := kget active_threads in
kmodify (set_active_threads (u32 (registered - 1))) ;;*
kensure assert_failed (negb (registered =? 0)%Z).

Definition set_thread_terminated (c t : nat) : K unit :=
let* sc := get_scheduler c in
let* v := get_tcb t in
kensure assert_failed (pinned_core v =? core_id sc) ;;*
kensure assert_failed (bool_decide (state v = ThreadState.running)) ;;*
kensure assert_failed (bool_decide (disposition v = ThreadDisposition.terminating)) ;;*
kensure assert_failed (negb (bool_decide (idle_thread sc = Some t))) ;;*
kensure assert_failed (negb (is_enqueued t v)) ;;*
kensure require_failed (holds_nothing v) ;;*
modify_tcb t (set_state ThreadState.terminated) ;;*
emit (trace_point Trace.thread_terminated t) ;;*
unregister_thread t ;;*
emit (port_context_destroy t) ;;*
raise (termination_of t) ReschedulePolicy.never.

Definition depart (c t : nat) (reason : departure_reason) : K unit :=
match reason with
| DepartureReason.yielded => admit_thread c t false
| DepartureReason.preempted => admit_thread c t true
| DepartureReason.parked => set_thread_blocked c t
| DepartureReason.exited => set_thread_terminated c t
end.

Definition preempted (c t : nat) : K bool :=
let* sc := get_scheduler c in
let* v := get_tcb t in
kret (ReadyMatrix.has_more_urgent_than (ready_matrix sc) (base_priority v) &&
      bool_decide (holders_head sc = None) && holds_nothing v).

Definition departure_of (c t : nat) : K departure_reason :=
let* v := get_tcb t in
if bool_decide (disposition v = ThreadDisposition.terminating) then kret DepartureReason.exited
else
  let* p := preempted c t in
  kret (if p : bool then DepartureReason.preempted else DepartureReason.yielded).

(** ** The roads *)

Definition take_intake (c : nat) : K unit :=
if 1 <? cores then
  let* pending := intake_pending c in
  if pending : bool then drain_intake c else kret tt
else kret tt.

Definition decide (c : nat) (reason : departure_reason) : K nat :=
take_intake c ;;*
let* sc := get_scheduler c in
let* prev := klift (nonnull (current_thread sc)) in
let* v := get_tcb prev in
(if bool_decide (state v = ThreadState.running) then depart c prev reason else kret tt) ;;*
run_next c.

Definition direct_reschedule (c : nat) (reason : departure_reason) : K unit :=
kensure assert_failed (negb (bool_decide (reason = DepartureReason.exited))) ;;*
let* sc := get_scheduler c in
let* prev := klift (nonnull (current_thread sc)) in
let* next := decide c reason in
if next =? prev then kret tt
else emit (port_direct_switch (core_id sc) prev next).

Definition interrupt_reschedule (c : nat) : K unit :=
let* sc := get_scheduler c in
let* prev := klift (nonnull (current_thread sc)) in
let* next := decide c DepartureReason.preempted in
if next =? prev then kret tt
else emit (port_owe_switch (core_id sc) prev next).

Definition set_thread_ready (c t : nat) (policy : reschedule_policy) : K schedule_hint :=
set_thread_ready_on (direct_reschedule c DepartureReason.preempted) (interrupt_reschedule c) c t policy.

Definition global_ready_thread (t : nat) (policy : reschedule_policy) : K schedule_hint :=
global_ready_thread_on set_thread_ready t policy.

Definition yield (c : nat) : K unit :=
kensure require_failed (masked_from_baseline cx) ;;*
direct_reschedule c DepartureReason.yielded.

Definition park (c : nat) : K unit :=
kensure require_failed (masked_from_baseline cx) ;;*
direct_reschedule c DepartureReason.parked.

(** The handler's road. *)
Definition reschedule (c : nat) : K unit :=
let* sc := get_scheduler c in
kensure assert_failed (negb (bool_decide (current_thread sc = None))) ;;*
let* prev := klift (nonnull (current_thread sc)) in
let* v := get_tcb prev in
kensure assert_failed (negb (is_enqueued prev v)) ;;*
take_intake c ;;*
let* v := get_tcb prev in
let* capture :=
  match state v with
  | ThreadState.running =>
      let* reason := departure_of c prev in
      depart c prev reason ;;*
      kret (if bool_decide (reason = DepartureReason.exited) then None else Some prev)
  | ThreadState.ready | ThreadState.terminated => kret (Some prev)
  | ThreadState.blocked | ThreadState.created => klift (Panic assert_failed)
  end in
let* next := run_next c in
emit (port_switch (core_id sc) capture next).

(** [commit_to_block] of waitable.cpp. *)
Definition commit_to_block (t : nat) : K unit :=
let* v := get_tcb t in
if negb (bool_decide (disposition v = ThreadDisposition.prepared)) then kret tt
else park (this_core cx).

(** The walk of [request_repick]. *)
Fixpoint prompt_from (hops : nat) (target : nat) : K unit :=
match hops with
| O => kret tt
| S hops =>
    let* v := get_tcb target in
    (if pinned_core v =? this_core cx then emit (port_pend_reschedule (this_core cx))
     else emit (port_send_reschedule_ipi (this_core cx) (pinned_core v))) ;;*
    match blocked_on v with
    | None => kret tt
    | Some m =>
        let* mx := get_mutex m in
        match owner mx with
        | None => kret tt
        | Some next => if next =? target then kret tt else prompt_from hops next
        end
    end
end.

Definition request_repick (t : nat) : K unit := prompt_from Urgency.max_inheritance_depth t.
End switch.
End Switch.
