(* ===== verification/Waking.v ===== *)
(** * Waking waiters: the wakes of wait_queue and waitable

    [wake_one], [wake_all], [wake_all_where], [wake_one_and_commit] and
    [wake_one_and_transfer] of waitable.cpp, over the queue of a waitable, of
    a mutex or of a signal.  The part each does under the queue's lock is one
    step of [WaitQueue]; readying the thread it took follows it. *)

From S2P Require Import Prelude Chain State ReadyQueue WaitQueue Urgency Scheduler Switch.

Module Waking.
(** Whose queue: a waitable's, a mutex's (with its inheritance cache), or a
    signal's. *)
Inductive queue_ref :=
  | of_waitable (w : nat)
  | of_mutex (m : nat)
  | of_signal (x : Switch.signal_ref).

Definition read_queue (r : queue_ref) : K (wait_queue * option inheritance_cache) :=
  match r with
  | of_waitable w => let* q := get_waitable w in kret (q, None)
  | of_mutex m => let* mx := get_mutex m in kret (mutex_queue mx, Some (mutex_pi mx))
  | of_signal x => let* sg := Switch.read_signal x in kret (cs_queue sg, None)
  end.

Definition write_queue (r : queue_ref) (q : wait_queue) (pi : option inheritance_cache) : K unit :=
  match r with
  | of_waitable w => modify_waitable w (fun _ => q)
  | of_mutex m => modify_mutex m (fun mx => set_mutex_pi (default (mutex_pi mx) pi) (set_mutex_queue q mx))
  | of_signal x => Switch.write_signal x (set_cs_queue q)
  end.

(** The locked halves: an arm, a disarm, and the pop every wake begins with. *)
Definition arm (r : queue_ref) (n : nat) : K unit :=
  let* '(q, pi) := read_queue r in
  let* h := kget tcbs in
  let* ns := kget nodes in
  let* '(q, ns, pi) := klift (WaitQueue.arm h n q ns pi) in
  kmodify (set_nodes ns) ;;*
  write_queue r q pi.

Definition disarm (r : queue_ref) (n : nat) : K bool :=
  let* '(q, pi) := read_queue r in
  let* h := kget tcbs in
  let* ns := kget nodes in
  let* '(found, q, ns, pi) := klift (WaitQueue.disarm h n q ns pi) in
  kmodify (set_nodes ns) ;;*
  write_queue r q pi ;;*
  kret found.

Definition pop (r : queue_ref) : K (option nat) :=
  let* '(q, pi) := read_queue r in
  let* h := kget tcbs in
  let* ns := kget nodes in
  let* '(chosen, q, ns, pi) := klift (WaitQueue.pop h q ns pi) in
  kmodify (set_nodes ns) ;;*
  write_queue r q pi ;;*
  kret chosen.

Section wakes.
Context `{Config} (cx : cpu).

Definition aggregated (hint aggregate : schedule_hint) : schedule_hint :=
  if bool_decide (hint = ScheduleHint.warranted) then ScheduleHint.warranted else aggregate.

Definition wake_one (r : queue_ref) (policy : reschedule_policy) : K unit :=
  let* chosen := pop r in
  match chosen with
  | None => kret tt
  | Some t =>
      let* hint := Switch.global_ready_thread cx t policy in
      Switch.apply_reschedule_policy cx policy hint
  end.

(** The loop of [wake_all]. *)
Fixpoint wake_each (fuel : nat) (r : queue_ref) (aggregate : schedule_hint) : K schedule_hint :=
  let* chosen := pop r in
  match chosen with
  | None => kret aggregate
  | Some t =>
      match fuel with
      | O => klift (Panic out_of_fuel)
      | S fuel =>
          let* hint := Switch.global_ready_thread_never cx t in
          wake_each fuel r (aggregated hint aggregate)
      end
  end.

Definition wake_all (r : queue_ref) (policy : reschedule_policy) : K unit :=
  let* ns := kget nodes in
  let* hint := wake_each (S (size ns)) r ScheduleHint.unwarranted in
  Switch.apply_reschedule_policy cx policy hint.

(** [chosen.size()] of [wake_all_where]. *)
Definition batch_size : nat := 8.

(** The locked walk of [wake_all_where]: every waiter [pick] accepts is
    unlinked, up to a batch of them. *)
Fixpoint take_where (fuel : nat) (pick : thread_control_block -> bool) (h : heap) (before node : option nat)
    (chosen : list nat) (q : wait_queue) (ns : node_heap) : outcome (list nat * wait_queue * node_heap) :=
  match node with
  | None => Ok (chosen, q, ns)
  | Some n =>
      if negb (length chosen <? batch_size) then Ok (chosen, q, ns)
      else
        match fuel with
        | O => Panic out_of_fuel
        | S fuel =>
            let! v := deref ns n in
            let! o := deref h (node_owner v) in
            if pick o then
              let! '(q, ns) :=
                match before with
                | None => Ok (set_wq_head (node_next v) q, ns)
                | Some b => let! ns := store b (set_node_next (node_next v)) ns in Ok (q, ns)
                end in
              let! ns := store n (set_node_next None) ns in
              take_where fuel pick h before (node_next v) (chosen ++ [node_owner v]) q ns
            else take_where fuel pick h (Some n) (node_next v) chosen q ns
        end
  end.

Fixpoint ready_each (ts : list nat) (aggregate : schedule_hint) : K schedule_hint :=
  match ts with
  | [] => kret aggregate
  | t :: ts =>
      let* hint := Switch.global_ready_thread_never cx t in
      ready_each ts (aggregated hint aggregate)
  end.

Fixpoint batches (fuel : nat) (r : queue_ref) (pick : thread_control_block -> bool) (aggregate : schedule_hint) :
    K schedule_hint :=
  match fuel with
  | O => klift (Panic out_of_fuel)
  | S fuel =>
      let* '(q, pi) := read_queue r in
      let* h := kget tcbs in
      let* ns := kget nodes in
      let* '(chosen, q, ns) := klift (take_where (S (size ns)) pick h None (wq_head q) [] q ns) in
      kmodify (set_nodes ns) ;;*
      write_queue r q pi ;;*
      let* aggregate := ready_each chosen aggregate in
      if length chosen =? batch_size then batches fuel r pick aggregate else kret aggregate
  end.

Definition wake_all_where (r : queue_ref) (pick : thread_control_block -> bool) (policy : reschedule_policy) : K unit :=
  let* ns := kget nodes in
  let* hint := batches (S (size ns)) r pick ScheduleHint.unwarranted in
  Switch.apply_reschedule_policy cx policy hint.

Definition wake_one_and_commit (r : queue_ref) (commit : option nat -> K unit) (policy : reschedule_policy) : K bool :=
  let* chosen := pop r in
  match chosen with
  | None => commit None ;;* kret false
  | Some t =>
      let* v := get_tcb t in
      kensure assert_failed (negb (thread_id v =? 0)%Z) ;;*
      commit (Some t) ;;*
      let* hint := Switch.global_ready_thread cx t policy in
      Switch.apply_reschedule_policy cx policy hint ;;*
      kret true
  end.

(** [transfer] is given the chosen thread's id, or 0. *)
Definition wake_one_and_transfer (r : queue_ref) (transfer : Z -> K unit) (policy : reschedule_policy) : K bool :=
  wake_one_and_commit r
    (fun chosen => match chosen with
                   | Some t => let* v := get_tcb t in transfer (thread_id v)
                   | None => transfer 0%Z
                   end) policy.

(** [waitable]'s destructor. *)
Definition waitable_destroy (w : nat) : K unit :=
  let* q := get_waitable w in
  kensure require_failed (WaitQueue.empty q).
End wakes.
End Waking.
