(* ===== verification/Waits.v ===== *)
(** * Waiting on a waitable: wait_engine and waiter_record of waitable.cpp

    A synchronisation object keeps words of its own beside the kernel's state,
    and its waiters may keep a record on their stacks.  The loop of
    [wait_engine::run] is cut into its steps, each of which other threads,
    other cores and interrupts may run between: [prepare], [arm], [poll],
    [settle], [disarm], then [pass_on] or [repoll].  [pass_begin] and
    [pass_end] are a pass of the loop with nothing run in between, cut where
    its thread may be switched away. *)

From S2P Require Import Prelude Chain State ReadyQueue WaitQueue Urgency Scheduler Switch Waking.

#[export] Instance signal_ref_eq_dec : EqDecision Switch.signal_ref.
Proof. solve_decision. Defined.
#[export] Instance queue_ref_eq_dec : EqDecision Waking.queue_ref.
Proof. solve_decision. Defined.

(** A [waiter_record], with what a class derived from it adds. *)
Record waiter_record (R : Type) := WaiterRecord {
  source : Waking.queue_ref;
  installed_on : nat;
  chosen_by_wake : bool;
  waiter : R
}.
Arguments WaiterRecord {R} source installed_on chosen_by_wake waiter.
Arguments source {R} _.
Arguments installed_on {R} _.
Arguments chosen_by_wake {R} _.
Arguments waiter {R} _.

Definition set_chosen_by_wake {R} (x : bool) (r : waiter_record R) : waiter_record R :=
  WaiterRecord (source r) (installed_on r) x (waiter r).
Definition set_waiter {R} (x : R) (r : waiter_record R) : waiter_record R :=
  WaiterRecord (source r) (installed_on r) (chosen_by_wake r) x.

(** The kernel's state, an object's own words, and the waiter records. *)
Record world (X R : Type) := World {
  kernel : kernel_state;
  object : X;
  records : gmap nat (waiter_record R)
}.
Arguments World {X R} kernel object records.
Arguments kernel {X R} _.
Arguments object {X R} _.
Arguments records {X R} _.

Abbreviation W X R := (M (world X R)).

Section world.
Context {X R : Type}.
Implicit Types (w : world X R).

Definition set_kernel (s : kernel_state) (w : world X R) : world X R := World s (object w) (records w).
Definition set_object (x : X) (w : world X R) : world X R := World (kernel w) x (records w).
Definition set_records rs (w : world X R) : world X R := World (kernel w) (object w) rs.

(** A kernel operation, in the world. *)
Definition in_kernel {A} (m : K A) : W X R A :=
  fun w => match m (kernel w) with Ok (a, s) => Ok (a, set_kernel s w) | Panic c => Panic c end.

(** One atomic access to the object: what it answers, and what it leaves. *)
Definition atomically {A} (f : X -> A * X) : W X R A :=
  fun w => let '(a, x) := f (object w) in Ok (a, set_object x w).

Definition get_record (r : nat) : W X R (waiter_record R) :=
  fun w => match records w !! r with Some v => Ok (v, w) | None => Panic bad_pointer end.
Definition modify_record (r : nat) (f : waiter_record R -> waiter_record R) : W X R unit :=
  fun w => match records w !! r with
           | Some v => Ok (tt, set_records (<[r := f v]> (records w)) w)
           | None => Panic bad_pointer
           end.

Lemma set_kernel_same w : set_kernel (kernel w) w = w.
Proof. destruct w. reflexivity. Qed.

Lemma wp_in_kernel {A} (m : K A) (Q : A -> world X R -> Prop) w :
  wp m (fun a s => Q a (set_kernel s w)) (kernel w) -> wp (in_kernel m) Q w.
Proof. unfold wp, in_kernel. destruct (m (kernel w)) as [[a s] |]; auto. Qed.

Lemma wp_atomically {A} (f : X -> A * X) (Q : A -> world X R -> Prop) w :
  (let '(a, x) := f (object w) in Q a (set_object x w)) -> wp (atomically f) Q w.
Proof. unfold wp, atomically. destruct (f (object w)). auto. Qed.

Lemma wp_get_record r v (Q : waiter_record R -> world X R -> Prop) w : records w !! r = Some v -> Q v w -> wp (get_record r) Q w.
Proof. unfold wp, get_record. intros ->. auto. Qed.

Lemma wp_modify_record r f v (Q : unit -> world X R -> Prop) w : records w !! r = Some v ->
  Q tt (set_records (<[r := f v]> (records w)) w) -> wp (modify_record r f) Q w.
Proof. unfold wp, modify_record. intros ->. auto. Qed.
End world.

(** What a class derived from [waitable] overrides: the poll, given the queue
    it is for and the caller's record, if it has one naming that queue. *)
Class Waitable (X R : Type) := try_satisfy : Waking.queue_ref -> option nat -> W X R bool.

Module Waits.
Section engine.
Context `{Config} {X R : Type} (cx : cpu).

(** [waitable::may_have_waiters], after its fence. *)
Definition may_have_waiters (q : Waking.queue_ref) : W X R bool :=
  let* '(q, _) := in_kernel (Waking.read_queue q) in
  kret (negb (WaitQueue.empty q)).

(** [cancel_signal::raised]. *)
Definition raised (x : Switch.signal_ref) : W X R bool :=
  let* sg := in_kernel (Switch.read_signal x) in kret (raised_flag sg).

(** [waiter_record]'s constructor, at [r], and destructor. *)
Definition install (r : nat) (q : Waking.queue_ref) (extra : R) : W X R unit :=
  let* t := in_kernel (get_current_thread (this_core cx)) in
  let* v := in_kernel (get_tcb t) in
  kensure require_failed (bool_decide (wait_record v = None)) ;;*
  kmodify (fun w => set_records (<[r := WaiterRecord q t false extra]> (records w)) w) ;;*
  in_kernel (modify_tcb t (set_wait_record (Some r))).

Definition uninstall (r : nat) : W X R unit :=
  let* rec := get_record r in
  let* v := in_kernel (get_tcb (installed_on rec)) in
  kensure assert_failed (bool_decide (wait_record v = Some r)) ;;*
  in_kernel (modify_tcb (installed_on rec) (set_wait_record None)) ;;*
  kmodify (fun w => set_records (delete r (records w)) w).

Definition chosen (r : nat) : W X R bool := let* rec := get_record r in kret (chosen_by_wake rec).

(** The variables of [wait_engine::run]. *)
Record wait_frame := WaitFrame {
  fr_thread : nat;
  fr_queue : Waking.queue_ref;
  fr_cancel : option Switch.signal_ref;
  fr_record : option nat;
  fr_node : nat;
  fr_cancel_node : nat
}.

(** [tcb.wait_record], if it names [q]. *)
Definition record_for (q : Waking.queue_ref) (v : thread_control_block) : W X R (option nat) :=
  match wait_record v with
  | None => kret None
  | Some r => let* rec := get_record r in kret (if decide (source rec = q) then Some r else None)
  end.

Definition new_node (n t : nat) : W X R unit :=
  in_kernel (kmodify (fun s => set_nodes (<[n := WaitNode t None]> (nodes s)) s)).

(** Up to the loop, with the nodes at [n] and, for a wait that may be
    cancelled, [cn]. *)
Definition enter (q : Waking.queue_ref) (cancel : option Switch.signal_ref) (n cn : nat) : W X R wait_frame :=
  let* t := in_kernel (get_current_thread (this_core cx)) in
  let* v := in_kernel (get_tcb t) in
  let* r := record_for q v in
  new_node n t ;;*
  (match cancel with Some _ => new_node cn t | None => kret tt end) ;;*
  kret (WaitFrame t q cancel r n cn).

(** ** A pass of the loop *)

Definition prepare (fr : wait_frame) : W X R unit :=
  in_kernel (modify_tcb (fr_thread fr) (set_disposition ThreadDisposition.prepared)).

Definition arm (fr : wait_frame) : W X R unit :=
  in_kernel (Waking.arm (fr_queue fr) (fr_node fr)) ;;*
  match fr_cancel fr with
  | Some x => in_kernel (Waking.arm (Waking.of_signal x) (fr_cancel_node fr))
  | None => kret tt
  end.

(** Once the poll is decided: not to sleep, or to. *)
Definition settle (fr : wait_frame) (decided : bool) : W X R unit :=
  if decided then in_kernel (modify_tcb (fr_thread fr) (set_disposition ThreadDisposition.none))
  else in_kernel (Switch.commit_to_block cx (fr_thread fr)).

(** Whether a wake of the queue chose this waiter. *)
Definition disarm (fr : wait_frame) : W X R bool :=
  let* found := in_kernel (Waking.disarm (fr_queue fr) (fr_node fr)) in
  let chosen := negb found in
  (match fr_cancel fr with
   | Some x => in_kernel (Waking.disarm (Waking.of_signal x) (fr_cancel_node fr)) ;;* kret tt
   | None => kret tt
   end) ;;*
  (match fr_record fr with
   | Some r => if chosen then modify_record r (set_chosen_by_wake true) else kret tt
   | None => kret tt
   end) ;;*
  kret chosen.

(** Rule 2: a wake that came after the poll was satisfied goes to another. *)
Definition owed (fr : wait_frame) (chosen : bool) : bool := chosen && bool_decide (fr_record fr = None).

Definition pass_on (fr : wait_frame) : W X R unit :=
  in_kernel (Waking.wake_one cx (fr_queue fr) ReschedulePolicy.automatic).

Context `{!Waitable X R}.

(** Whether the waitable was satisfied, and whether the wait is cancelled. *)
Definition poll (fr : wait_frame) : W X R (bool * bool) :=
  let* satisfied := try_satisfy (fr_queue fr) (fr_record fr) in
  let* cancelled :=
    match fr_cancel fr with
    | Some x => if negb satisfied then raised x else kret false
    | None => kret false
    end in
  kret (satisfied, cancelled).

(** Rule 1: the waitable again, then the cancel.  [None] is another pass. *)
Definition repoll (fr : wait_frame) : W X R (option bool) :=
  let* satisfied := try_satisfy (fr_queue fr) (fr_record fr) in
  if satisfied : bool then kret (Some true)
  else
    match fr_cancel fr with
    | Some x => let* r := raised x in kret (if r : bool then Some false else None)
    | None => kret None
    end.

Definition pass_begin (fr : wait_frame) : W X R bool :=
  prepare fr ;;*
  arm fr ;;*
  let* '(satisfied, cancelled) := poll fr in
  settle fr (satisfied || cancelled) ;;*
  kret satisfied.

Definition pass_end (fr : wait_frame) (satisfied : bool) : W X R (option bool) :=
  let* chosen := disarm fr in
  if satisfied then
    (if owed fr chosen then pass_on fr else kret tt) ;;*
    kret (Some true)
  else repoll fr.
End engine.

(** A [cancel_signal] is itself a waitable, which [thread::join] waits on. *)
#[export] Instance signal_waitable {R} : Waitable unit R :=
  fun q _ => match q with
             | Waking.of_signal x => raised x
             | _ => klift (Panic bad_pointer)
             end.

(** [thread::join], up to its wait: refused on an empty handle. *)
Definition join_begin `{Config} (cx : cpu) (handle : option nat) (n : nat) : W unit unit wait_frame :=
  kensure require_failed (negb (bool_decide (handle = None))) ;;*
  let* t := klift (nonnull handle) in
  enter cx (Waking.of_signal (Switch.termination_of t)) None n n.
End Waits.
