(* ===== verification/Mutex.v ===== *)
(** * The kernel mutex: base_mutex.cpp

    Ownership, the held slots it is filed in, and the blocking loop of
    [lock], cut where the thread may be switched away: [lock_begin] up to the
    loop, [lock_round] one round up to the park, and [lock_resumed] what
    follows once the thread runs again. *)

From S2P Require Import Prelude Chain State ReadyQueue WaitQueue Urgency Scheduler Switch Waking.

Module Mutex.
Definition not_held : nat := 255.

(** A mutex as constructed, with or without a ceiling. *)
Definition new_mutex (ceiling : nat) : base_mutex :=
  BaseMutex (WaitQueue None) (InheritanceCache WaitQueue.no_waiter false) None ceiling not_held.

Section mutex.
Context `{Config} (cx : cpu).

Definition destroy (m : nat) : K unit :=
  let* mx := get_mutex m in
  kensure require_failed (bool_decide (owner mx = None)) ;;*
  kensure require_failed (WaitQueue.empty (mutex_queue mx)).

Definition holder (m : nat) : K (option nat) :=
  let* mx := get_mutex m in kret (owner mx).

(** ** The held slots *)

(** The loop of [claim_slot]: the first free slot. *)
Definition free_slot (v : thread_control_block) : option nat := fst <$> list_find (fun s => s = None) (held_slots v).

Definition claim_slot (m t : nat) : K unit :=
  let* v := get_tcb t in
  match free_slot v with
  | None => klift (Panic assert_failed)
  | Some slot =>
      modify_tcb t (fun v => set_held_slots (<[slot := Some m]> (held_slots v)) v) ;;*
      modify_mutex m (set_held_slot slot) ;;*
      modify_tcb t (fun v => set_held_mask (u8 (set_bit (held_mask v) slot)) v) ;;*
      emit (trace_point Trace.mutex_acquired t)
  end.

Definition retire_held (m t : nat) : K unit :=
  let* mx := get_mutex m in
  let slot := held_slot mx in
  kensure assert_failed (slot <? max_held_per_thread) ;;*
  let* v := get_tcb t in
  kensure assert_failed (bool_decide (held_slots v !! slot = Some (Some m))) ;;*
  modify_tcb t (fun v => set_held_mask (clear_bit 8 (held_mask v) slot) v) ;;*
  modify_tcb t (fun v => set_held_slots (<[slot := None]> (held_slots v)) v) ;;*
  modify_mutex m (set_held_slot not_held) ;;*
  emit (trace_point Trace.mutex_released t).

Definition register_held (m t : nat) : K unit :=
  let* mx := get_mutex m in
  if negb (held_slot mx =? not_held) then kret tt else claim_slot m t.

(** ** Acquiring *)

Definition acquire_condition (m t : nat) : K bool :=
  let* mx := get_mutex m in
  match owner mx with
  | None => modify_mutex m (set_owner (Some t)) ;;* register_held m t ;;* kret true
  | Some o =>
      if o =? t then kret true
      else Switch.request_repick cx o ;;* kret false
  end.

Definition check_ceiling_contract (m t : nat) : K unit :=
  let* mx := get_mutex m in
  if negb (Urgency.uses_ceiling mx) then kret tt
  else
    let* v := get_tcb t in
    kensure require_failed (ceiling_priority mx <=? base_priority v).

Definition take_if_free (m t : nat) : K bool :=
  let* mx := get_mutex m in
  match owner mx with
  | Some _ => kret false
  | None => modify_mutex m (set_owner (Some t)) ;;* register_held m t ;;* kret true
  end.

Definition try_lock (m : nat) : K bool :=
  let* t := get_current_thread (this_core cx) in
  check_ceiling_contract m t ;;*
  take_if_free m t.

(** ** [lock], up to its loop: the thread, and whether it has the mutex. *)
Definition lock_begin (m : nat) : K (nat * bool) :=
  let* t := get_current_thread (this_core cx) in
  let* mx := get_mutex m in
  kensure require_failed (negb (bool_decide (owner mx = Some t))) ;;*
  check_ceiling_contract m t ;;*
  let* taken := take_if_free m t in
  kret (t, taken).

(** One round of the loop, with the node [n] on the caller's stack: whether
    the mutex was acquired, and if not, the thread has been parked unless a
    wake came first. *)
Definition lock_round (m t n : nat) : K bool :=
  modify_tcb t (set_disposition ThreadDisposition.prepared) ;;*
  let* mx := get_mutex m in
  kensure assert_failed (negb (bool_decide (owner mx = Some t))) ;;*
  Waking.arm (Waking.of_mutex m) n ;;*
  modify_tcb t (set_blocked_on (Some m)) ;;*
  let* acquired := acquire_condition m t in
  if acquired : bool then
    modify_tcb t (set_blocked_on None) ;;*
    modify_tcb t (set_disposition ThreadDisposition.none) ;;*
    Waking.disarm (Waking.of_mutex m) n ;;*
    kret true
  else
    Switch.commit_to_block cx t ;;*
    kret false.

(** What the round goes on with once the thread runs again: whether a
    handover gave it the mutex. *)
Definition lock_resumed (m t n : nat) : K bool :=
  Waking.disarm (Waking.of_mutex m) n ;;*
  modify_tcb t (set_blocked_on None) ;;*
  let* mx := get_mutex m in
  if bool_decide (owner mx = Some t) then
    modify_tcb t (set_disposition ThreadDisposition.none) ;;*
    kret true
  else kret false.

(** ** Releasing *)

Definition hand_over (m : nat) (policy : reschedule_policy) : K unit :=
  Waking.wake_one_and_commit cx (Waking.of_mutex m)
    (fun chosen =>
       modify_mutex m (set_owner chosen) ;;*
       match chosen with
       | None => kret tt
       | Some t => claim_slot m t
       end) policy ;;*
  kret tt.

Definition unlock (m : nat) (policy : reschedule_policy) : K unit :=
  let* t := get_current_thread (this_core cx) in
  let* mx := get_mutex m in
  kensure require_failed (bool_decide (owner mx = Some t)) ;;*
  retire_held m t ;;*
  hand_over m policy ;;*
  if Urgency.uses_ceiling mx && negb (bool_decide (policy = ReschedulePolicy.never)) then
    emit (port_pend_reschedule (this_core cx))
  else kret tt.
End mutex.
End Mutex.
