(* ===== verification/Sync.v ===== *)
(** * The synchronisation primitives: userlib/sync

    [semaphore], [handoff_semaphore], [event_flags] and [condition_variable],
    each a module: its own words, the poll its waits make, and its operations
    up to a wait and after it.  A [std::size_t] has the target's [width]
    bits.  A compare-exchange loop is the one access that ends it. *)

From S2P Require Import Prelude Chain State ReadyQueue WaitQueue Urgency Scheduler Switch Waking Waits Mutex.

(** [std::size_t]: how wide it is. *)
Class SizeT := { size_width : Z; size_width_pos : (0 < size_width)%Z }.

Definition usize `{SizeT} (z : Z) : Z := wrap size_width z.

(** ** Counting tokens, as both semaphores do *)
Module Tokens.
Section tokens.
Context `{SizeT} {R : Type}.

Definition fetch_add (n : Z) : W Z R unit := atomically (fun counter => (tt, usize (counter + n))).

Definition try_acquire : W Z R bool :=
  atomically (fun counter => if (0 <? counter)%Z then (true, (counter - 1)%Z) else (false, counter)).

Definition peek : W Z R Z := atomically (fun counter => (counter, counter)).
End tokens.
End Tokens.

Module Semaphore.
Section semaphore.
Context `{Config} `{SizeT} (cx : cpu) (q : Waking.queue_ref).

#[global] Instance poll : Waitable Z unit := fun _ _ => Tokens.try_acquire.

(** The wakes of [release], the tokens being in. *)
Fixpoint wake_each (n : nat) : W Z unit unit :=
  match n with
  | O => kret tt
  | S n => in_kernel (Waking.wake_one cx q ReschedulePolicy.automatic) ;;* wake_each n
  end.

Definition release (n : nat) : W Z unit unit :=
  Tokens.fetch_add (Z.of_nat n) ;;*
  let* any := Waits.may_have_waiters q in
  if negb any then kret tt else wake_each n.

(** [acquire], up to its wait: [None] if a token was free. *)
Definition acquire_begin (n : nat) : W Z unit (option Waits.wait_frame) :=
  let* taken := Tokens.try_acquire in
  if taken : bool then kret None
  else let* fr := Waits.enter cx q None n n in kret (Some fr).
End semaphore.
End Semaphore.

Module HandoffSemaphore.
Section handoff.
Context `{Config} `{SizeT} (cx : cpu) (q : Waking.queue_ref).

(** The record adds whether a poll took a counted token. *)
#[global] Instance poll : Waitable Z bool := fun _ record =>
  let* r := klift (nonnull record) in
  let* self := get_record r in
  if chosen_by_wake self then kret true
  else
    let* taken := Tokens.try_acquire in
    if taken : bool then modify_record r (set_waiter true) ;;* kret true
    else kret false.

(** [wake_one_and_transfer]'s callback counts the token if nobody was chosen:
    under the queue's lock, so in the same step as the pop. *)
Definition hand_over : W Z bool unit :=
  let* chosen := in_kernel (Waking.pop q) in
  match chosen with
  | None => Tokens.fetch_add 1
  | Some t =>
      let* v := in_kernel (get_tcb t) in
      kensure assert_failed (negb (thread_id v =? 0)%Z) ;;*
      in_kernel (let* hint := Switch.global_ready_thread cx t ReschedulePolicy.automatic in
                 Switch.apply_reschedule_policy cx ReschedulePolicy.automatic hint)
  end.

Fixpoint hand_over_each (n : nat) : W Z bool unit :=
  match n with
  | O => kret tt
  | S n => hand_over ;;* hand_over_each n
  end.

Fixpoint reclaim (n : nat) : W Z bool unit :=
  match n with
  | O => kret tt
  | S n =>
      let* taken := Tokens.try_acquire in
      if taken : bool then hand_over ;;* reclaim n else kret tt
  end.

Definition release (n : nat) : W Z bool unit :=
  let* any := Waits.may_have_waiters q in
  if any : bool then hand_over_each n
  else
    Tokens.fetch_add (Z.of_nat n) ;;*
    let* any := Waits.may_have_waiters q in
    if any : bool then reclaim n else kret tt.

(** [acquire], up to its wait, with the record at [r]. *)
Definition acquire_begin (r n : nat) : W Z bool (option Waits.wait_frame) :=
  let* taken := Tokens.try_acquire in
  if taken : bool then kret None
  else
    Waits.install cx r q false ;;*
    let* fr := Waits.enter cx q None n n in kret (Some fr).

Definition settle (r : nat) : W Z bool unit :=
  let* self := get_record r in
  if waiter self && chosen_by_wake self then release 1 else kret tt.

(** ... and after it. *)
Definition acquire_end (r : nat) : W Z bool unit := settle r ;;* Waits.uninstall r.
End handoff.
End HandoffSemaphore.

Module EventFlags.
Inductive flags_match := any | all.
Inductive flags_exit := keep | consume.

Record request := Request {
  mask : Z;
  match_ : flags_match;
  exit : flags_exit;
  matched : Z
}.

Definition set_matched (x : Z) (r : request) : request := Request (mask r) (match_ r) (exit r) x.

Definition satisfied_by (r : request) (flags : Z) : bool :=
  let hit := Z.land flags (mask r) in
  match match_ r with any => negb (hit =? 0)%Z | all => (hit =? mask r)%Z end.

Section flags.
Context `{Config} (cx : cpu) (q : Waking.queue_ref).

(** [attempt]: whether the request is satisfied, and what it matched. *)
Definition attempt (self : request) : W Z request (bool * request) :=
  atomically (fun current =>
    if negb (satisfied_by self current) then ((false, self), current)
    else
      let hit := Z.land current (mask self) in
      match exit self with
      | keep => ((true, set_matched hit self), current)
      | consume => ((true, set_matched hit self), Z.land current (wrap 32 (Z.lnot hit)))
      end).

#[global] Instance poll : Waitable Z request := fun _ record =>
  let* r := klift (nonnull record) in
  let* self := get_record r in
  let* '(hit, req) := attempt (waiter self) in
  modify_record r (set_waiter req) ;;*
  kret hit.

(** [waitable::wake_all_where]'s pick: the waiter's record, if it names this
    queue, put to [wants].  The code follows the record's pointer unasked: a
    queued waiter has one, so the two answers of [false] for none are not met. *)
Definition wants_of (rs : gmap nat (waiter_record request)) (flags : Z) (v : thread_control_block) : bool :=
  match wait_record v with
  | Some r =>
      match rs !! r with
      | Some rec => if decide (source rec = q) then satisfied_by (waiter rec) flags else false
      | None => false
      end
  | None => false
  end.

(** The flags are read afresh for each waiter: here once, nobody else running
    between two of them. *)
Definition set (m : Z) : W Z request Z :=
  let* before := atomically (fun bits => (bits, Z.lor bits m)) in
  let* bits := atomically (fun bits => (bits, bits)) in
  let* rs := kget records in
  in_kernel (Waking.wake_all_where cx q (wants_of rs bits) ReschedulePolicy.automatic) ;;*
  kret before.

Definition clear (m : Z) : W Z request Z :=
  atomically (fun bits => (bits, Z.land bits (wrap 32 (Z.lnot m)))).

Definition peek : W Z request Z := atomically (fun bits => (bits, bits)).

(** [wait], up to its wait, with the record at [r], and after it. *)
Definition wait_begin (m : Z) (how : flags_match) (leave : flags_exit) (r n : nat) : W Z request Waits.wait_frame :=
  kensure require_failed (negb (m =? 0)%Z) ;;*
  Waits.install cx r q (Request m how leave 0%Z) ;;*
  Waits.enter cx q None n n.

Definition wait_end (r : nat) : W Z request Z :=
  let* self := get_record r in
  Waits.uninstall r ;;*
  kret (matched (waiter self)).

Definition try_wait (m : Z) (how : flags_match) (leave : flags_exit) : W Z request Z :=
  kensure require_failed (negb (m =? 0)%Z) ;;*
  let* '(hit, req) := attempt (Request m how leave 0%Z) in
  kret (if hit : bool then matched req else 0%Z).
End flags.
End EventFlags.

Module ConditionVariable.
Record waiter_state := Waiter {
  mutex : nat;
  released : bool
}.

Section condition.
Context `{Config} (cx : cpu) (q : Waking.queue_ref).

Definition notify_one : W unit waiter_state unit := in_kernel (Waking.wake_one cx q ReschedulePolicy.automatic).
Definition notify_all : W unit waiter_state unit := in_kernel (Waking.wake_all cx q ReschedulePolicy.automatic).

#[global] Instance poll : Waitable unit waiter_state := fun _ record =>
  let* r := klift (nonnull record) in
  let* self := get_record r in
  (if released (waiter self) then kret tt
   else
     modify_record r (set_waiter (Waiter (mutex (waiter self)) true)) ;;*
     in_kernel (Mutex.unlock cx (mutex (waiter self)) ReschedulePolicy.automatic)) ;;*
  Waits.chosen r.

(** [wait], up to its wait; after it, the mutex is to be locked again. *)
Definition wait_begin (m r n : nat) : W unit waiter_state Waits.wait_frame :=
  Waits.install cx r q (Waiter m false) ;;*
  Waits.enter cx q None n n.

Definition wait_end (m r : nat) : W unit waiter_state (nat * bool) :=
  Waits.uninstall r ;;*
  in_kernel (Mutex.lock_begin cx m).
End condition.
End ConditionVariable.
