(* ===== verification/Channel.v ===== *)
(** * channel: a bounded FIFO

    userlib/channel: the ring of [Capacity] slots, its gates, and the ways to
    send and receive.  What runs under the channel's spinlock is one access
    to its words, and every wake follows it.  [send_blocking] and [receive]
    are loops around a wait: a round up to its wait, which is then the wait
    engine's, and again. *)

From S2P Require Import Prelude Chain State ReadyQueue WaitQueue Urgency Scheduler Switch Waking Waits.

Module Channel.
Section channel.
Context {T : Type} (Capacity : nat).

(** The channel's own words. *)
Record channel := Words {
  ring : list T;
  head : nat;
  tail : nat;
  occupancy : nat;
  stopped : bool
}.

Inductive send_outcome := queued | full | refused.

(** A channel as constructed, of default-constructed slots. *)
Definition new_channel (default : T) : channel := Words (replicate Capacity default) 0 0 0 false.

Definition advance (index : nat) : nat := if index + 1 =? Capacity then 0 else index + 1.

(** Under the lock: a value put in, with room for it, and one taken out. *)
Definition place_locked (v : T) (c : channel) : channel :=
  Words (<[tail c := v]> (ring c)) (head c) (advance (tail c)) (occupancy c + 1) (stopped c).

Definition take_locked (c : channel) : option T * channel :=
  (ring c !! head c, Words (ring c) (advance (head c)) (tail c) (occupancy c - 1) (stopped c)).

Definition place (v : T) (c : channel) : send_outcome * channel :=
  if stopped c then (refused, c)
  else if occupancy c =? Capacity then (full, c)
  else (queued, place_locked v c).

(** What [send_blocking] does on each round. *)
Definition place_or_wait (v : T) (c : channel) : send_outcome * channel :=
  if stopped c then (refused, c)
  else if occupancy c <? Capacity then (queued, place_locked v c)
  else (full, c).

(** The value if there is one, and whether the channel is finished. *)
Definition take (c : channel) : (option T * bool) * channel :=
  if 0 <? occupancy c then let '(v, c) := take_locked c in ((v, false), c)
  else ((None, stopped c), c).

(** What [send_overwrite] does: whether it was stopped, and whether it grew. *)
Definition overwrite (v : T) (c : channel) : (bool * bool) * channel :=
  if stopped c then ((true, false), c)
  else
    let '(grew, c) :=
      if occupancy c =? Capacity then (false, Words (ring c) (advance (head c)) (tail c) (occupancy c) (stopped c))
      else (true, Words (ring c) (head c) (tail c) (occupancy c + 1) (stopped c)) in
    ((false, grew), Words (<[tail c := v]> (ring c)) (head c) (advance (tail c)) (occupancy c) (stopped c)).

Definition halt (c : channel) : bool * channel :=
  if stopped c then (false, c) else (true, Words (ring c) (head c) (tail c) (occupancy c) true).

(** What a gate's poll looks at. *)
Definition may_receive (c : channel) : bool := (0 <? occupancy c) || stopped c.
Definition may_send (c : channel) : bool := (occupancy c <? Capacity) || stopped c.

Section operations.
Context `{Config} (cx : cpu) (readable writable : Waking.queue_ref).

#[export] Instance gates : Waitable channel unit := fun q _ =>
  atomically (fun c => (if decide (q = readable) then may_receive c else may_send c, c)).

Definition wake_one_if_waiting (q : Waking.queue_ref) : W channel unit unit :=
  let* any := Waits.may_have_waiters q in
  if any : bool then in_kernel (Waking.wake_one cx q ReschedulePolicy.automatic) else kret tt.

Definition try_place (v : T) : W channel unit send_outcome :=
  let* result := atomically (place v) in
  match result with
  | queued => wake_one_if_waiting readable ;;* kret queued
  | _ => kret result
  end.

Definition send (v : T) : W channel unit unit :=
  let* result := try_place v in
  kensure require_failed (match result with full => false | _ => true end).

Definition try_send (v : T) : W channel unit bool :=
  let* result := try_place v in
  kret (match result with queued => true | _ => false end).

Definition send_overwrite (v : T) : W channel unit unit :=
  let* '(_, grew) := atomically (overwrite v) in
  if grew : bool then wake_one_if_waiting readable else kret tt.

(** A round of [send_blocking]: over, or about to wait for room. *)
Definition send_blocking_round (v : T) (n : nat) : W channel unit (option Waits.wait_frame) :=
  let* result := atomically (place_or_wait v) in
  match result with
  | queued => wake_one_if_waiting readable ;;* kret None
  | refused => kret None
  | full => let* fr := Waits.enter cx writable None n n in kret (Some fr)
  end.

(** A round of [receive]: what it returns, or the wait it makes for a value. *)
Definition receive_round (n : nat) : W channel unit (option T + Waits.wait_frame) :=
  let* '(out, finished) := atomically take in
  match out with
  | Some v => wake_one_if_waiting writable ;;* kret (inl (Some v))
  | None =>
      if finished : bool then kret (inl None)
      else let* fr := Waits.enter cx readable None n n in kret (inr fr)
  end.

Definition try_receive : W channel unit (option T) :=
  let* '(out, _) := atomically take in
  match out with
  | Some v => wake_one_if_waiting writable ;;* kret (Some v)
  | None => kret None
  end.

Definition stop : W channel unit unit :=
  let* was_running := atomically halt in
  if was_running : bool then
    in_kernel (Waking.wake_all cx readable ReschedulePolicy.automatic) ;;*
    in_kernel (Waking.wake_all cx writable ReschedulePolicy.automatic)
  else kret tt.

Definition queued_now : W channel unit nat := atomically (fun c => (occupancy c, c)).
Definition is_stopped : W channel unit bool := atomically (fun c => (stopped c, c)).

(** [run_one], once it has a job, and when it is finished: what its caller
    is told, and the job to run. *)
Definition run_one_round (n : nat) : W channel unit (bool * option T + Waits.wait_frame) :=
  let* r := receive_round n in
  kret (match r with
        | inl (Some job) => inl (true, Some job)
        | inl None => inl (false, None)
        | inr fr => inr fr
        end).
End operations.
End channel.
Arguments channel T : clear implicits.
End Channel.
