(* ===== verification/SemaphoreSystem.v ===== *)
(** * A semaphore among its threads: every interleaving

    Threads acquiring and releasing one semaphore, and interrupt handlers
    releasing it, on every core.  Each is at a [point] of its call, and
    [advance] runs the code from one point to the next: the steps of
    [Semaphore] and of the wait engine, each of which is one access to what
    is shared.  A [step] of the system is one such step of a thread that
    runs or of a core's handler, a switch of some core, or a wake of some
    thread for another reason. *)

From S2P Require Import Prelude Chain State ReadyQueue WaitQueue Urgency Scheduler Switch Waking Waits Mutex Sync.

Module SemaphoreSystem.
Inductive point :=
  | outside
  | acquiring                        (* acquire: its try_acquire *)
  | entering                         (* wait_engine::run, before its loop *)
  | preparing
  | arming
  | polling
  | settling (satisfied : bool)
  | disarming (satisfied : bool)
  | passing_on                       (* rule 2 *)
  | repolling                        (* rule 1 *)
  | releasing (n : nat)              (* release: its fetch_add *)
  | testing (n : nat)                (* ... its may_have_waiters *)
  | waking (n : nat).                (* ... [n] of its wakes to go *)

Inductive agent := thread (t : nat) | handler (c : nat).

#[export] Instance point_eq_dec : EqDecision point.
Proof. solve_decision. Defined.
#[export] Instance agent_eq_dec : EqDecision agent.
Proof. solve_decision. Defined.

Section system.
Context `{Config} `{SizeT} (w : nat) (node_of : nat -> nat).

Definition queue : Waking.queue_ref := Waking.of_waitable w.

(** The variables of thread [t]'s wait. *)
Definition frame_of (t : nat) : Waits.wait_frame :=
  Waits.WaitFrame t queue None None (node_of t) (node_of t).

Section advance.
Context (cx : cpu).

(** From a point of a release to the next. *)
Definition advance_release (p : point) : W Z unit point :=
  match p with
  | releasing n => Tokens.fetch_add (Z.of_nat n) ;;* kret (testing n)
  | testing n => let* any := Waits.may_have_waiters queue in kret (if any : bool then waking n else outside)
  | waking (S n) => in_kernel (Waking.wake_one cx queue ReschedulePolicy.automatic) ;;* kret (waking n)
  | _ => kret outside
  end.

(** From a point of thread [t]'s call to the next.  A semaphore's waits have
    no record, which [entering] checks, so the frame is [frame_of t]. *)
Definition advance (t : nat) (p : point) : W Z unit point :=
  match p with
  | acquiring => let* taken := Tokens.try_acquire in kret (if taken : bool then outside else entering)
  | entering =>
      let* fr := Waits.enter cx queue None (node_of t) (node_of t) in
      kensure fatal_failed (bool_decide (Waits.fr_record fr = None)) ;;*
      kret preparing
  | preparing => Waits.prepare (frame_of t) ;;* kret arming
  | arming => Waits.arm (frame_of t) ;;* kret polling
  | polling => let* '(satisfied, cancelled) := Waits.poll (frame_of t) in kret (settling (satisfied || cancelled))
  | settling satisfied => Waits.settle cx (frame_of t) satisfied ;;* kret (disarming satisfied)
  | disarming satisfied =>
      let* chosen := Waits.disarm (frame_of t) in
      kret (if satisfied then if Waits.owed (frame_of t) chosen then passing_on else outside else repolling)
  | passing_on => Waits.pass_on cx (frame_of t) ;;* kret outside
  | repolling =>
      let* over := Waits.repoll (frame_of t) in
      kret (match over with Some _ => outside | None => preparing end)
  | releasing _ | testing _ | waking _ => advance_release p
  | outside => kret outside
  end.
End advance.

Record system := System {
  sy_world : world Z unit;
  sy_at : agent -> point
}.

(** A core whose running thread is [t]. *)
Definition runs (s : kernel_state) (c t : nat) : Prop :=
  exists sc v, schedulers s !! c = Some sc /\ current_thread sc = Some t /\ tcbs s !! t = Some v /\ state v = ThreadState.running.

(** An agent at a new point. *)
Definition at_point (a : agent) (p : point) (f : agent -> point) : agent -> point :=
  fun x => if decide (x = a) then p else f x.

(** What a call begins with: a thread that runs may do either, a handler may
    release. *)
Definition begins (s : kernel_state) (a : agent) (p : point) : Prop :=
  match a, p with
  | thread t, acquiring | thread t, releasing _ => exists c, c < cores /\ runs s c t
  | handler _, releasing _ => True
  | _, _ => False
  end.

(** One step; [who] are the threads and handlers that use the semaphore. *)
Inductive step (who : list agent) : system -> system -> Prop :=
  | step_call a p wd f : a ∈ who -> f a = outside -> begins (kernel wd) a p ->
      step who (System wd f) (System wd (at_point a p f))
  | step_thread cx t p wd wd' f : thread t ∈ who -> this_core cx < cores -> runs (kernel wd) (this_core cx) t ->
      masked_from_baseline cx = true -> f (thread t) <> outside ->
      advance cx t (f (thread t)) wd = Ok (p, wd') ->
      step who (System wd f) (System wd' (at_point (thread t) p f))
  | step_handler cx p wd wd' f : handler (this_core cx) ∈ who -> f (handler (this_core cx)) <> outside ->
      advance_release cx (f (handler (this_core cx))) wd = Ok (p, wd') ->
      step who (System wd f) (System wd' (at_point (handler (this_core cx)) p f))
  | step_switch cx c wd s' f : c < cores -> Switch.reschedule cx c (kernel wd) = Ok (tt, s') ->
      step who (System wd f) (System (set_kernel s' wd) f)
  | step_yield cx c wd s' f : c < cores -> masked_from_baseline cx = true -> Switch.yield cx c (kernel wd) = Ok (tt, s') ->
      step who (System wd f) (System (set_kernel s' wd) f)
  | step_wake cx t v policy hint wd s' f : tcbs (kernel wd) !! t = Some v ->
      Switch.global_ready_thread cx t policy (kernel wd) = Ok (hint, s') ->
      step who (System wd f) (System (set_kernel s' wd) f).
End system.
End SemaphoreSystem.

(** ** The steps, put together, are the code *)

Section whole.
Import SemaphoreSystem.
Context `{Config} `{SizeT} (cx : cpu) (w : nat) (node_of : nat -> nat).
Implicit Types (wd : world Z unit).

(** A call run through from a point, its agent undisturbed. *)
Fixpoint run_through (fuel : nat) (next : point -> W Z unit point) (p : point) : W Z unit unit :=
  if decide (p = outside) then kret tt
  else
    match fuel with
    | O => klift (Panic out_of_fuel)
    | S fuel => let* p := next p in run_through fuel next p
    end.

Lemma run_waking n wd : run_through (S n) (advance_release w cx) (waking n) wd = Semaphore.wake_each cx (queue w) n wd.
Proof.
  revert wd. induction n as [| n IH]; intros wd; [reflexivity |].
  cbn [run_through Semaphore.wake_each advance_release]. rewrite decide_False by discriminate. unfold kbind, in_kernel.
  destruct (Waking.wake_one _ _ _ _) as [[[] s'] |]; [exact (IH (set_kernel s' wd)) | reflexivity].
Qed.

Lemma run_testing n wd : run_through (2 + n) (advance_release w cx) (testing n) wd =
  (let* any := Waits.may_have_waiters (queue w) in
   if negb any then kret tt else Semaphore.wake_each cx (queue w) n) wd.
Proof.
  cbn [run_through Nat.add advance_release]. rewrite decide_False by discriminate. unfold kbind.
  destruct (Waits.may_have_waiters _ wd) as [[[] wd1] |]; cbn [kret negb]; [exact (run_waking n wd1) | | reflexivity].
  rewrite decide_True by reflexivity. reflexivity.
Qed.

Lemma run_release n wd : run_through (3 + n) (advance_release w cx) (releasing n) wd = Semaphore.release cx (queue w) n wd.
Proof.
  change (3 + n) with (S (2 + n)). cbn [run_through]. rewrite decide_False by discriminate.
  cbn [advance_release]. unfold Semaphore.release, kbind at 1 2 3.
  destruct (Tokens.fetch_add _ wd) as [[[] wd1] |]; [exact (run_testing n wd1) | reflexivity].
Qed.

(** A pass of the wait engine's loop, up to the sleep and from it on. *)
Lemma run_pass_begin t wd :
  (let* p := advance w node_of cx t preparing in let* p := advance w node_of cx t p in
   let* p := advance w node_of cx t p in advance w node_of cx t p) wd =
  (let* satisfied := Waits.pass_begin cx (frame_of w node_of t) in kret (disarming satisfied)) wd.
Proof.
  unfold Waits.pass_begin, kbind. cbn [advance]. unfold kbind.
  destruct (Waits.prepare _ wd) as [[[] wd1] |]; [| reflexivity]. cbn [kret advance]. unfold kbind.
  destruct (Waits.arm _ wd1) as [[[] wd2] |]; [| reflexivity]. cbn [kret advance]. unfold kbind.
  unfold Waits.poll. cbn [Waits.fr_cancel frame_of]. unfold kbind.
  destruct (try_satisfy _ _ wd2) as [[b wd3] |]; [| reflexivity]. cbn [kret advance]. rewrite orb_false_r. unfold kbind.
  destruct (Waits.settle cx _ b wd3) as [[[] wd4] |]; reflexivity.
Qed.

Lemma run_pass_end t (satisfied : bool) wd :
  (let* p := advance w node_of cx t (disarming satisfied) in
   if decide (p = outside) then kret outside else advance w node_of cx t p) wd =
  (let* over := Waits.pass_end cx (frame_of w node_of t) satisfied in
   kret (match over with Some _ => outside | None => preparing end)) wd.
Proof.
  unfold Waits.pass_end, kbind. cbn [advance]. unfold kbind.
  destruct (Waits.disarm _ wd) as [[b wd1] |]; [| reflexivity]. cbn [kret]. destruct satisfied; [destruct (Waits.owed _ b) |].
  - rewrite decide_False by discriminate. cbn [advance]. unfold kbind. destruct (Waits.pass_on _ _ wd1) as [[[] wd2] |]; reflexivity.
  - rewrite decide_True by reflexivity. reflexivity.
  - rewrite decide_False by discriminate. cbn [advance]. unfold kbind. destruct (Waits.repoll _ wd1) as [[[] wd2] |]; reflexivity.
Qed.
End whole.
