(* ===== verification/RoadProofs.v ===== *)
(** * Running the pick, departing, and taking in the intake *)

From S2P Require Import Prelude Chain State ReadyQueue ReadyQueueProofs WaitQueue WaitQueueProofs Urgency UrgencyProofs Scheduler SchedulerSpec Local SchedulerProofs DispatchProofs PickProofs Switch.

Section facts.
Context `{Config} (c : nat) (s : kernel_state).
Implicit Types (h : heap) (sc : scheduler) (L : Levels.levels) (Hs : list nat).
Local Abbreviation wf h := (Urgency.wf h (nodes s) (mutexes s)).

Lemma core_distinct sc h L Hs run : core_ok c sc h L Hs run -> distinct L Hs.
Proof.
  intros [_ Hf Hst _ _]. split.
  - intros p. eapply mr_NoDup, Hf.
  - intros p q t Hp Hq. destruct (mr_filed _ _ _ (fl_matrix _ _ _ _ _ Hf) p t Hp) as (v & Hv & <-).
    destruct (mr_filed _ _ _ (fl_matrix _ _ _ _ _ Hf) q t Hq) as (v' & Hv' & <-). congruence.
  - eapply chain_NoDup, (fl_holders _ _ _ _ _ Hf).
  - apply Hst.
Qed.

Lemma urg_le_base h t v : wf h -> h !! t = Some v -> urg s h t <= base_priority v.
Proof.
  intros Hwf Hv. pose proof (urgency_ok h (nodes s) (mutexes s) Hwf True t v Hv (or_introl I)) as Hok.
  unfold urg. destruct (Urgency.urgency h (nodes s) (mutexes s) t); [| contradiction].
  destruct Hok as [Hle _]. apply Hle, entitled_base, Hv.
Qed.

Lemma holders_urg sc h L Hs run x : core_ok c sc h L Hs run -> wf h -> x ∈ Hs -> urg s h x < 255.
Proof.
  intros [_ _ Hst _ _] Hwf Hx. destruct (status_pinned _ _ _ _ _ _ x Hst (or_intror Hx)) as (v & Hv & Hp).
  pose proof (urg_le_base h x v Hwf Hv). pose proof (st_priority _ _ _ _ _ _ Hst x v Hv Hp).
  pose proof max_priorities_valid. lia.
Qed.

(** The idle thread is ready when nothing runs. *)
Lemma idle_ready sc h L Hs : core_ok c sc h L Hs None -> exists i v, idle_thread sc = Some i /\
  h !! i = Some v /\ pinned_core v = c /\ state v = ThreadState.ready.
Proof.
  intros [_ _ Hst _ _]. destruct (st_idle _ _ _ _ _ _ Hst) as (i & v & Hi & Hv & Hp & [Hr | Hr] & _).
  - exists i, v. auto.
  - pose proof (st_running _ _ _ _ _ _ Hst i v Hv Hp Hr). discriminate.
Qed.

(** Nothing outside these members of a block matters to the invariant. *)
Definition core_view (v : thread_control_block) :=
  (link_view v, state v, held_mask v).

(** Nor does it look at what a thread holds, the idle thread apart. *)
Lemma core_ok_held sc h h' L Hs run : (fun v => (link_view v, state v)) <$> h = (fun v => (link_view v, state v)) <$> h' ->
  (forall i v v', idle_thread sc = Some i -> h !! i = Some v -> h' !! i = Some v' -> held_mask v' = held_mask v) ->
  core_ok c sc h L Hs run -> core_ok c sc h' L Hs run.
Proof.
  set (view := fun v => (link_view v, state v)). intros Hv Hidle [H1 H2 [S1 S2 S3 S4 S5 S6 S7] H4 H5].
  assert (Hfwd : forall t v, h !! t = Some v -> exists v', h' !! t = Some v' /\ view v' = view v).
  { intros t v Ht. destruct (view_back view h' h t v (eq_sym Hv) Ht) as (v' & Hv' & E). eauto. }
  assert (Hbwd : forall t v', h' !! t = Some v' -> exists v, h !! t = Some v /\ view v = view v').
  { intros t v' Ht. apply (view_back view h h' t v' Hv Ht). }
  split; auto.
  - eapply filed_view; [| exact H2]. apply (view_weaken view (fun w => w.1)), Hv.
  - split; auto.
    + intros t Ht. destruct (S1 t Ht) as (v & Ev & Hp & Hr & Hi). destruct (Hfwd t v Ev) as (v' & Ev' & E).
      injection E as E1 E2 E3 E4 E5. exists v'. split_and!; congruence.
    + intros t v' Ev' Hp Hr. destruct (Hbwd t v' Ev') as (v & Ev & E).
      injection E as E1 E2 E3 E4 E5. apply (S3 t v); congruence.
    + intros t v' Ev' Hp Hr. destruct (Hbwd t v' Ev') as (v & Ev & E).
      injection E as E1 E2 E3 E4 E5. apply (S4 t v); congruence.
    + intros t Ht. destruct (S5 t Ht) as (v & Ev & Hp & Hr). destruct (Hfwd t v Ev) as (v' & Ev' & E).
      injection E as E1 E2 E3 E4 E5. exists v'. split_and!; congruence.
    + destruct S6 as (i & v & Hi & Ev & Hp & Hr & Hn). destruct (Hfwd i v Ev) as (v' & Ev' & E).
      pose proof (Hidle i v v' Hi Ev Ev') as E6. injection E as E1 E2 E3 E4 E5. exists i, v'.
      unfold holds_nothing in *. rewrite E5, E6. split_and!; congruence || auto.
    + intros t v' Ev' Hp. destruct (Hbwd t v' Ev') as (v & Ev & E).
      injection E as E1 E2 E3 E4 E5. rewrite <- E3. apply (S7 t v); congruence.
  - intros t Ht. destruct (H4 t Ht) as (v & Ev & Hp). destruct (Hfwd t v Ev) as (v' & Ev' & E).
    injection E as E1 E2 E3 E4 E5. exists v'. split; congruence.
Qed.

Lemma core_ok_view sc h h' L Hs run : core_view <$> h = core_view <$> h' ->
  core_ok c sc h L Hs run -> core_ok c sc h' L Hs run.
Proof.
  intros Hv. apply core_ok_held; [exact (view_weaken core_view (fun w => w.1) _ _ Hv) |].
  intros i v v' _ Ev Ev'. destruct (view_back core_view h' h i v (eq_sym Hv) Ev) as (w & Ew & E).
  assert (w = v') as -> by congruence. injection E. auto.
Qed.

(** ... nor outside the registers it names. *)
Lemma core_ok_registers sc sc' h L Hs run :
  core_id sc' = core_id sc -> ready_matrix sc' = ready_matrix sc -> holders_head sc' = holders_head sc ->
  holders_tail sc' = holders_tail sc -> idle_thread sc' = idle_thread sc ->
  current_thread sc' = current_thread sc -> core_ok c sc h L Hs run -> core_ok c sc' h L Hs run.
Proof.
  intros E1 E2 E3 E4 E5 E6 [H1 H2 H3 H4 H5]. split; rewrite ?E1, ?E5, ?E6; auto.
  eapply filed_scheduler; eassumption.
Qed.
End facts.

Section running.
Context `{Config} (c : nat) (s : kernel_state) (Hc : c < length (schedulers s)).
Implicit Types (h : heap) (sc : scheduler) (L : Levels.levels) (Hs : list nat).
Local Abbreviation wf h := (Urgency.wf h (nodes s) (mutexes s)).

Lemma set_thread_running_ok (Q : unit -> scheduler -> heap -> list port_call -> Prop) h sc es t v :
  core_id sc = c -> h !! t = Some v -> pinned_core v = c -> state v = ThreadState.ready ->
  Q tt (set_current_thread (Some t) sc) (<[t := set_state ThreadState.running v]> h)
    (trace_point Trace.thread_running t :: es) ->
  lwp c s (set_thread_running c t) Q sc h es.
Proof.
  intros Hid Hv Hp Hr HQ. unfold set_thread_running. do 2 lwp_step. lwp_step. eapply lwp_get_tcb; [exact Hv |].
  lwp_step. lwp_step; [apply Nat.eqb_eq; congruence |]. lwp_step. lwp_step; [apply bool_decide_eq_true, Hr |].
  lwp_step. eapply lwp_modify_tcb; [exact Hv |]. do 2 lwp_step. lwp_step. exact HQ.
Qed.

Lemma level_of_next L Hs (u : nat -> nat) rotor r L' Hs' rotor' :
  pick u L Hs rotor = (r, L', Hs', rotor') -> length L' = length L.
Proof.
  unfold pick. destruct (choose u L Hs rotor) as [[| t] q].
  - destruct (Levels.best L) as [p |] eqn:E.
    + destruct (pop_best _ _ E) as (t & l & _ & ->). intros [= <- <- <- <-]. apply length_insert.
    + rewrite (pop_none _ E). intros [= <- <- <- <-]. reflexivity.
  - intros [= <- <- <- <-]. reflexivity.
Qed.

(** [run_next] makes the pick, or the idle thread, the running thread. *)
Lemma run_next_ok h sc L Hs es : core_ok c sc h L Hs None -> wf h ->
  lwp c s (run_next c)
    (fun t sc' h' es' =>
       let '(r, L', Hs', rotor') := pick (urg s h) L Hs (tie_rotor sc) in
       Some t = (match r with Some t => Some t | None => idle_thread sc end) /\
       core_ok c sc' h' L' Hs' (Some t) /\
       same_registers (set_current_thread (Some t) (set_tie_rotor rotor' sc)) sc' /\
       others_kept c h h' /\
       (exists v, h !! t = Some v /\ state v = ThreadState.ready /\ same_but_links (<[t := set_state ThreadState.running v]> h) h') /\
       (forall x e, competes (urg s h) L' Hs' x e -> urg s h t <= e) /\
       es' = trace_point Trace.thread_running t :: es) sc h es.
Proof.
  intros Hok Hwf. unfold run_next. lwp_step.
  eapply lwp_mono; [apply (pick_next_ok c s Hc h sc L Hs None es Hok Hwf) |].
  intros r sc1 h1 es1 [-> Hr]. destruct (pick (urg s h) L Hs (tie_rotor sc)) as [[[r' L'] Hs'] rotor'] eqn:Ep.
  destruct Hr as (-> & Hf1 & Hl1 & Ho1 & _ & Hsr). do 2 lwp_step.
  pose proof (core_distinct c sc h L Hs None Hok) as Hd.
  assert (Hu : forall x, x ∈ Hs -> urg s h x < 255) by (intros x Hx; eapply holders_urg; eauto).
  assert (Ei : idle_thread sc1 = idle_thread sc) by apply (sr_idle _ _ Hsr).
  rewrite Ei. pose proof Hok as [Hid Hf Hst Hcur _].
  assert (Hnext : exists t v, (match r' with Some t => Some t | None => idle_thread sc end) = Some t /\
    h !! t = Some v /\ pinned_core v = c /\ state v = ThreadState.ready /\
    ~ (listed L' Hs' t) /\ (forall x, x <> t -> listed L' Hs' x <-> listed L Hs x) /\ distinct L' Hs' /\
    (forall x e, competes (urg s h) L' Hs' x e -> urg s h t <= e)).
  { destruct r' as [t |].
    - destruct (pick_some _ _ _ _ _ _ _ _ Hd Hu Ep) as (H1 & H2 & H3 & H4 & H5 & et & Het & Hmin).
      destruct (st_listed _ _ _ _ _ _ Hst t H1) as (v & Hv & Hp & Hrd & _). exists t, v. split_and!; auto.
      intros x e Hx. specialize (Hmin x e (H5 x e Hx)). destruct Het as [Het | [_ Het]]; [| lia].
      destruct (mr_filed _ _ _ (fl_matrix _ _ _ _ _ Hf) _ _ Het) as (v' & Hv' & Hb). rewrite Hv in Hv'. injection Hv' as <-.
      pose proof (urg_le_base s h t v Hwf Hv). lia.
    - destruct (pick_none _ _ _ _ _ _ _ Hu Ep) as (-> & -> & Hn).
      destruct (idle_ready c sc h L Hs Hok) as (i & v & Hi & Hv & Hp & Hrd). exists i, v. split_and!; auto.
      intros x e [Hx | [Hx _]]; destruct (Hn x); [left; eauto | right; exact Hx]. }
  destruct Hnext as (t & v & Et & Hv & Hp & Hrd & Hn1 & Hn2 & Hd' & Hbest). rewrite Et. cbn [nonnull].
  lwp_step. lwp_step. cbn [ok]. lwp_step.
  destruct (same_links_lookup _ _ _ _ Hl1 Hv) as (v1 & Hv1 & E1).
  assert (Hp1 : pinned_core v1 = c /\ state v1 = ThreadState.ready)
    by (destruct v, v1; injection E1; intros; subst; auto).
  destruct Hp1 as [Hp1 Hr1].
  apply (set_thread_running_ok _ h1 sc1 es t v1); [rewrite (sr_core _ _ Hsr); exact Hid | assumption..|].
  lwp_step.
  assert (Hl2 : same_but_links (<[t:=set_state ThreadState.running v]> h) (<[t:=set_state ThreadState.running v1]> h1)).
  { unfold same_but_links. rewrite !fmap_insert. f_equal; [| exact Hl1]. destruct v, v1. injection E1. intros. subst. reflexivity. }
  split_and!; [congruence | | | | exists v; auto | exact Hbest | reflexivity].
  - split; simpl.
    + rewrite (sr_core _ _ Hsr). exact Hid.
    + eapply filed_scheduler; [.. | eapply filed_view; [apply set_state_links, Hv1 | exact Hf1]]; reflexivity.
    + rewrite Ei. eapply status_links; [exact Hl2 |]. eapply status_set_state; [exact Hst | exact Hv | exact Hp | exact Hn2 | | | | |].
      * split; [contradiction | intros [E _]; discriminate].
      * intros p x Hx. eapply ds_once; eauto.
      * auto.
      * rewrite bool_decide_true by reflexivity. reflexivity.
      * intros _. unfold stopped. case_bool_decide; reflexivity.
    + intros x [= <-]. exists (set_state ThreadState.running v1). rewrite lookup_insert_eq. auto.
    + auto.
  - destruct Hsr; split; simpl in *; congruence.
  - etransitivity; [exact Ho1 |]. apply (others_insert c h1 t v1); assumption.
Qed.
End running.

(** ** The intake *)

Section intake.
Context `{Config} (cx : cpu) (c : nat) (s : kernel_state) (Hc : c < length (schedulers s)).
Implicit Types (h : heap) (sc : scheduler) (L : Levels.levels) (Hs : list nat).
Local Abbreviation wf h := (Urgency.wf h (nodes s) (mutexes s)).

Lemma set_thread_ready_never_ok h sc L Hs run es t v :
  core_ok c sc h L Hs run -> wf h -> h !! t = Some v -> pinned_core v = c ->
  lwp c s (Switch.set_thread_ready_never cx c t)
    (fun r sc' h' es' => readied c s sc h L Hs run t v r sc' h' /\ exists new, es' = new ++ es) sc h es.
Proof.
  intros Hok Hwf Hv Hp. unfold Switch.set_thread_ready_never, Switch.set_thread_ready_on.
  do 2 lwp_step. lwp_step. eapply lwp_get_tcb; [exact Hv |].
  lwp_step. lwp_step; [apply Nat.eqb_eq; rewrite (co_id _ _ _ _ _ _ Hok); exact Hp |].
  lwp_step. eapply lwp_mono; [eapply make_ready_ok; eassumption |].
  intros r sc' h' es' Hr. rewrite (bool_decide_true (_ = ReschedulePolicy.never)) by reflexivity.
  rewrite andb_false_r. lwp_step. exact Hr.
Qed.

Lemma chain_self {V} (link : V -> option nat) (h : gmap nat V) p t l v :
  chain link h p (t :: l) -> h !! t = Some v -> link v <> Some t.
Proof.
  intros Hch Hv E. pose proof Hch as [_ (v' & Hv' & Hch')]. rewrite Hv in Hv'. injection Hv' as <-.
  rewrite E in Hch'. assert (Hd : l = t :: l).
  { eapply chain_det; [exact Hch' |]. split; [reflexivity |]. exists v. rewrite E. auto. }
  apply (f_equal length) in Hd. simpl in Hd. lia.
Qed.

(** The first loop reverses the stack. *)
Lemma restore_arrival_ok sc es : forall I D fuel h node fifo,
  chain intake_next h node I -> chain intake_next h fifo D -> (forall t, t ∈ I -> t ∉ D) -> length I <= fuel ->
  lwp c s (Switch.restore_arrival fuel node fifo)
    (fun r sc' h' es' => sc' = sc /\ es' = es /\ chain intake_next h' r (reverse I ++ D) /\
       set_intake_next None <$> h = set_intake_next None <$> h' /\
       (forall x, x ∉ I -> h' !! x = h !! x)) sc h es.
Proof.
  induction I as [| t I IH]; intros D fuel h node fifo Hn Hf Hd Hlen.
  - unfold chain in Hn. simpl in Hn. subst node. destruct fuel; apply lwp_ret; auto.
  - pose proof Hn as [-> (v & Hv & Hn')]. destruct fuel as [| fuel]; simpl in Hlen; [lia |]. cbn [Switch.restore_arrival].
    lwp_step. unfold Switch.await_intake_link. lwp_step. eapply lwp_get_tcb; [exact Hv |].
    rewrite bool_decide_false by (eapply chain_self; [exact Hn | exact Hv]).
    apply lwp_ret. lwp_step. eapply lwp_modify_tcb; [exact Hv |].
    pose proof (chain_NoDup _ _ _ _ Hn) as Hnd. apply NoDup_cons in Hnd as [Hnt _].
    eapply lwp_mono.
    + apply (IH (t :: D)).
      * apply lseg_insert_ne; assumption.
      * eapply chain_push_front; [apply Hd; left | reflexivity | exact Hf].
      * intros x Hx. rewrite not_elem_of_cons. split; [intros ->; contradiction | apply Hd; right; exact Hx].
      * lia.
    + intros r sc' h' es' (-> & -> & Hch & E & Hout). split_and!; auto.
      * rewrite reverse_cons, <- app_assoc. exact Hch.
      * rewrite <- E. eapply view_insert; [exact Hv | reflexivity].
      * intros x Hx. apply not_elem_of_cons in Hx as [Hxt Hx]. rewrite Hout by exact Hx.
        apply lookup_insert_ne. congruence.
Qed.

Lemma serviced_static v : urgency_view (serviced v) = urgency_view v /\
  pinned_core (serviced v) = pinned_core v /\ thread_id (serviced v) = thread_id v.
Proof.
  unfold serviced. cbv zeta. case_bool_decide; [auto |].
  match goal with |- context [if ?b then _ else _] => destruct b end; auto.
Qed.

Lemma serviced_links v v' : erase_links v = erase_links v' -> erase_links (serviced v) = erase_links (serviced v').
Proof.
  assert (E : forall w, erase_links (serviced w) = erase_links (serviced (erase_links w))).
  { intros []. unfold serviced, is_finished. simpl. repeat case_bool_decide; reflexivity. }
  intros Hl. rewrite (E v), (E v'), Hl. reflexivity.
Qed.

Lemma request_bit_set : negb (Z.land (request_bit ThreadRequest.make_ready) (request_bit ThreadRequest.make_ready) =? 0)%Z = true.
Proof. reflexivity. Qed.

(** One request, taken and serviced. *)
Lemma service_one_ok h sc L Hs run es t v :
  core_ok c sc h L Hs run -> wf h -> h !! t = Some v -> pinned_core v = c ->
  pending_requests v = request_bit ThreadRequest.make_ready ->
  lwp c s (modify_tcb t (set_intake_next None) ;;* modify_tcb t (set_pending_requests 0%Z) ;;*
           Switch.service_intake cx c t (pending_requests v))
    (fun _ sc' h' es' =>
       (let '(L', Hs') := made_ready (idle_thread sc) t v L Hs in
        core_ok c sc' h' L' Hs' (if is_finished v then run else stopped t run)) /\
       same_registers sc sc' /\ others_kept c h h' /\
       same_but_links (<[t := serviced v]> h) h' /\ exists new, es' = new ++ es) sc h es.
Proof.
  intros Hok Hwf Hv Hp Hreq. rewrite Hreq.
  lwp_step. eapply lwp_modify_tcb; [exact Hv |]. lwp_step. eapply lwp_modify_tcb; [apply lookup_insert_eq |].
  rewrite insert_insert_eq. set (v1 := set_pending_requests 0%Z (set_intake_next None v)).
  unfold Switch.service_intake. rewrite request_bit_set. lwp_step. eapply lwp_get_tcb; [apply lookup_insert_eq |].
  set (v2 := if bool_decide (disposition v1 = ThreadDisposition.terminating) then v1
             else set_disposition ThreadDisposition.none v1).
  assert (Hfin : is_finished v2 = is_finished v).
  { subst v2 v1. unfold is_finished.
    destruct (decide (disposition v = ThreadDisposition.terminating)) as [E | E];
      [rewrite (bool_decide_true (disposition (set_pending_requests _ _) = _)) by exact E; reflexivity |].
    rewrite (bool_decide_false (disposition (set_pending_requests _ _) = _)) by exact E. simpl.
    rewrite (bool_decide_false (disposition v = _)) by exact E. reflexivity. }
  assert (Hview2 : core_view v2 = core_view v /\ urgency_view v2 = urgency_view v)
    by (subst v2 v1; case_bool_decide; split; reflexivity).
  destruct Hview2 as [Hcv Huv]. set (h2 := <[t := v2]> h).
  assert (Hok2 : core_ok c sc h2 L Hs run) by (eapply core_ok_view; [eapply view_insert; eassumption | exact Hok]).
  assert (Hwf2 : wf h2) by (eapply wf_frame; [eapply view_insert; eassumption | exact Hwf]).
  assert (Hmid : lwp c s (Switch.set_thread_ready_never cx c t ;;* kret tt)
    (fun _ sc' h' es' =>
       (let '(L', Hs') := made_ready (idle_thread sc) t v L Hs in
        core_ok c sc' h' L' Hs' (if is_finished v then run else stopped t run)) /\
       same_registers sc sc' /\ others_kept c h h' /\
       same_but_links (<[t := serviced v]> h) h' /\ exists new, es' = new ++ es) sc h2 es).
  { lwp_step. eapply lwp_mono.
    - apply (set_thread_ready_never_ok h2 sc L Hs run es t v2 Hok2 Hwf2); [apply lookup_insert_eq |].
      rewrite <- Hp. subst v2 v1. case_bool_decide; reflexivity.
    - intros r sc' h' es' [(Hk & Hsr & Ho & Hl & _) Hes]. lwp_step.
      assert (Em : made_ready (idle_thread sc) t v2 L Hs = made_ready (idle_thread sc) t v L Hs).
      { assert (E1 : base_priority v2 = base_priority v) by (subst v2 v1; case_bool_decide; reflexivity).
        assert (E2 : holds_nothing v2 = holds_nothing v) by (subst v2 v1; case_bool_decide; reflexivity).
        unfold made_ready, admitted. rewrite Hfin, E1, E2. reflexivity. }
      rewrite Em, Hfin in Hk. split_and!; auto.
      + etransitivity; [apply (others_insert c h t v v2); [assumption | assumption |] | exact Ho].
        rewrite <- Hp. subst v2 v1. case_bool_decide; reflexivity.
      + replace (<[t := serviced v]> h) with (<[t:=set_state (if is_finished v2 then state v2 else ThreadState.ready) v2]> h2);
          [exact Hl |]. subst h2. rewrite insert_insert_eq. f_equal. unfold serviced. cbv zeta. fold v1. subst v2.
        assert (Hsame : forall w, set_state (state w) w = w) by (intros []; reflexivity).
        case_bool_decide as E.
        * assert (Ef : is_finished v1 = true) by (unfold is_finished; rewrite (bool_decide_true (_ = ThreadDisposition.terminating)) by exact E; apply orb_true_r).
          rewrite Ef. apply Hsame.
        * destruct (is_finished _); [apply Hsame | reflexivity]. }
  lwp_step. subst h2 v2. case_bool_decide as E.
  - apply lwp_ret. exact Hmid.
  - eapply lwp_modify_tcb; [apply lookup_insert_eq |]. rewrite insert_insert_eq. exact Hmid.
Qed.

(** What the lists owe to the order of arrival depends on little. *)
Definition arrival_view (v : thread_control_block) := (is_finished v, base_priority v, held_mask v).

Lemma arrivals_frame idle h h' : forall ts L Hs run,
  (forall x, x ∈ ts -> arrival_view <$> h !! x = arrival_view <$> h' !! x) ->
  arrivals idle h ts L Hs run = arrivals idle h' ts L Hs run.
Proof.
  induction ts as [| t ts IH]; intros L Hs run Hx; simpl; [reflexivity |].
  assert (IH' : forall L Hs run, arrivals idle h ts L Hs run = arrivals idle h' ts L Hs run)
    by (intros; apply IH; intros; apply Hx; right; assumption).
  pose proof (Hx t ltac:(left)) as Et.
  destruct (h !! t) as [v |], (h' !! t) as [v' |]; simpl in Et; try discriminate; [| apply IH'].
  injection Et as E1 E2 E3.
  assert (Em : made_ready idle t v L Hs = made_ready idle t v' L Hs)
    by (unfold made_ready, admitted, holds_nothing; rewrite E1, E2, E3; reflexivity).
  rewrite Em, E1. destruct (made_ready idle t v' L Hs). apply IH'.
Qed.

(** Blocks once the threads of [ts] have been serviced. *)
Definition serviced_of (ts : list nat) (x : nat) (v : thread_control_block) : thread_control_block :=
  if bool_decide (x ∈ ts) then serviced v else v.

Lemma service_all_ok : forall ts fuel h sc L Hs run es p,
  core_ok c sc h L Hs run -> wf h -> chain intake_next h p ts -> length ts <= fuel ->
  (forall t, t ∈ ts -> exists v, h !! t = Some v /\ pinned_core v = c /\
     pending_requests v = request_bit ThreadRequest.make_ready) ->
  lwp c s (Switch.service_all cx fuel c p)
    (fun _ sc' h' es' =>
       (let '(L', Hs', run') := arrivals (idle_thread sc) h ts L Hs run in core_ok c sc' h' L' Hs' run') /\
       same_registers sc sc' /\ others_kept c h h' /\
       (forall x, erase_links <$> h' !! x = (fun v => erase_links (serviced_of ts x v)) <$> h !! x) /\
       exists new, es' = new ++ es) sc h es.
Proof.
  induction ts as [| t ts IH]; intros fuel h sc L Hs run es p Hok Hwf Hch Hlen Hreq.
  - unfold chain in Hch. simpl in Hch. subst p.
    destruct fuel; apply lwp_ret; (split_and!; [exact Hok | split; reflexivity | reflexivity | | exists []; reflexivity]);
      intros x; destruct (h !! x); reflexivity.
  - pose proof (chain_NoDup _ _ _ _ Hch) as Hnd. apply NoDup_cons in Hnd as [Hnt _].
    destruct Hch as [-> (v & Hv & Hch)]. destruct fuel as [| fuel]; simpl in Hlen; [lia |]. cbn [Switch.service_all].
    destruct (Hreq t ltac:(left)) as (v' & Hv' & Hp & Hb). rewrite Hv in Hv'. injection Hv' as <-.
    lwp_step. eapply lwp_get_tcb; [exact Hv |].
    pose proof (service_one_ok h sc L Hs run es t v Hok Hwf Hv Hp Hb) as Hone.
    enough (Hassoc : lwp c s ((modify_tcb t (set_intake_next None) ;;* modify_tcb t (set_pending_requests 0%Z) ;;*
      Switch.service_intake cx c t (pending_requests v)) ;;* Switch.service_all cx fuel c (intake_next v))
      (fun _ sc' h' es' =>
       (let '(L', Hs', run') := arrivals (idle_thread sc) h (t :: ts) L Hs run in core_ok c sc' h' L' Hs' run') /\
       same_registers sc sc' /\ others_kept c h h' /\
       (forall x, erase_links <$> h' !! x = (fun v => erase_links (serviced_of (t :: ts) x v)) <$> h !! x) /\
       exists new, es' = new ++ es) sc h es).
    { unfold lwp, wp in Hassoc |- *. unfold kbind in *. destruct (modify_tcb t _ _) as [[? s1] |]; [| exact Hassoc].
      destruct (modify_tcb t _ s1) as [[? s2] |]; exact Hassoc. }
    lwp_step. eapply lwp_mono; [exact Hone |]. intros _ sc1 h1 es1 (Hok1 & Hsr & Ho1 & Hl1 & new1 & ->).
    cbn [arrivals]. rewrite Hv. destruct (made_ready (idle_thread sc) t v L Hs) as [L1 Hs1] eqn:Em.
    assert (Hother : forall x, x <> t -> erase_links <$> h1 !! x = erase_links <$> h !! x).
    { intros x Hx. rewrite (same_links_field erase_links _ _ x ltac:(intros []; reflexivity) Hl1).
      rewrite lookup_insert_ne by congruence. reflexivity. }
    assert (Hintake : forall x, x <> t -> intake_next <$> h1 !! x = intake_next <$> h !! x).
    { intros x Hx. rewrite (same_links_field intake_next _ _ x ltac:(intros []; reflexivity) Hl1).
      rewrite lookup_insert_ne by congruence. reflexivity. }
    assert (Hwf1 : wf h1).
    { eapply wf_frame; [| exact Hwf]. etransitivity; [| apply links_view, Hl1].
      eapply view_insert; [exact Hv | apply serviced_static]. }
    eapply lwp_mono.
    + apply (IH fuel h1 sc1 L1 Hs1 _ _ (intake_next v) Hok1 Hwf1).
      * eapply lseg_frame; [| exact Hch]. intros x Hx. apply Hintake. intros ->. contradiction.
      * lia.
      * intros x Hx. assert (Hne : x <> t) by (intros ->; contradiction).
        destruct (Hreq x ltac:(right; exact Hx)) as (vx & Hvx & Hpx & Hbx).
        pose proof (Hother x Hne) as E. rewrite Hvx in E. destruct (h1 !! x) as [vx' |] eqn:Ex; [| discriminate].
        exists vx'. split; [reflexivity |]. destruct vx, vx'. injection E. intros. subst. auto.
    + intros _ sc' h' es' (Hok' & Hsr' & Ho' & Hx' & new' & ->). split_and!.
      * rewrite (sr_idle _ _ Hsr) in Hok'. rewrite <- (arrivals_frame _ h1 h ts) ; [exact Hok' |].
        intros x Hx. assert (Hne : x <> t) by (intros ->; contradiction).
        pose proof (Hother x Hne) as E. destruct (h1 !! x) as [[] |], (h !! x) as [[] |]; try discriminate E; [| reflexivity].
        injection E. intros. subst. reflexivity.
      * eapply same_registers_trans; eassumption.
      * etransitivity; eassumption.
      * intros x. rewrite Hx'. unfold serviced_of. destruct (decide (x = t)) as [-> | Hne].
        -- rewrite (bool_decide_true (t ∈ t :: ts)) by left. rewrite bool_decide_false by exact Hnt.
           etransitivity; [exact (same_links_field erase_links _ _ t ltac:(intros []; reflexivity) Hl1) |].
           rewrite lookup_insert_eq, Hv. reflexivity.
        -- assert (E : bool_decide (x ∈ t :: ts) = bool_decide (x ∈ ts)) by (apply bool_decide_ext; rewrite elem_of_cons; tauto).
           rewrite E. pose proof (Hother x Hne) as Eo. destruct (decide (x ∈ ts)) as [Ein | Ein];
             [rewrite bool_decide_true by exact Ein | rewrite bool_decide_false by exact Ein; exact Eo].
           destruct (h1 !! x) as [vx' |], (h !! x) as [vx |]; try discriminate; [| reflexivity].
           apply (inj Some) in Eo. simpl. f_equal. apply serviced_links, Eo.
      * exists (new' ++ new1). rewrite app_assoc. reflexivity.
Qed.

Lemma unlinked_view {A} (f : thread_control_block -> A) h h' : (forall v, f (set_intake_next None v) = f v) ->
  set_intake_next None <$> h = set_intake_next None <$> h' -> f <$> h = f <$> h'.
Proof.
  intros Hf E. apply map_eq. intros x. rewrite !lookup_fmap.
  assert (E' : (set_intake_next None <$> h) !! x = (set_intake_next None <$> h') !! x) by (rewrite E; reflexivity).
  rewrite !lookup_fmap in E'. destruct (h !! x) as [v |], (h' !! x) as [v' |]; simpl in *; try discriminate; [| reflexivity].
  apply (inj Some) in E'. rewrite <- (Hf v), <- (Hf v'), E'. reflexivity.
Qed.

(** The whole intake, taken in arrival order. *)
Definition drained sc h L Hs run I sc' h' : Prop :=
  (let '(L', Hs', run') := arrivals (idle_thread sc) h (reverse I) L Hs run in core_ok c sc' h' L' Hs' run') /\
  same_registers (set_intake_head None sc) sc' /\ others_kept c h h' /\
  (forall x, erase_links <$> h' !! x = (fun v => erase_links (serviced_of I x v)) <$> h !! x).

Lemma drain_intake_ok h sc L Hs run es I :
  core_ok c sc h L Hs run -> wf h -> intake_ok c h sc I ->
  lwp c s (Switch.drain_intake cx c)
    (fun _ sc' h' es' => drained sc h L Hs run I sc' h' /\ exists new, es' = new ++ es) sc h es.
Proof.
  intros Hok Hwf [Hch Hcl Hfr]. unfold Switch.drain_intake. do 2 lwp_step. lwp_step. apply lwp_modify_scheduler; [exact Hc |].
  assert (Hok1 : core_ok c (set_intake_head None sc) h L Hs run)
    by (eapply core_ok_registers; [.. | exact Hok]; reflexivity).
  case_bool_decide as En.
  { lwp_step. rewrite En in Hch. pose proof (chain_head _ _ _ _ Hch) as Hh. destruct I as [| y I]; [| discriminate].
    split; [| exists []; reflexivity]. split_and!; [exact Hok1 | split; reflexivity | reflexivity |].
    intros x. destruct (h !! x); reflexivity. }
  do 2 lwp_step. lwp_step. eapply lwp_mono.
  { apply (restore_arrival_ok _ _ I [] _ h _ None Hch); [reflexivity | set_solver |].
    pose proof (chain_length _ _ _ _ Hch). lia. }
  intros r sc1 h1 es1 (-> & -> & Hch1 & Heq & Hout). rewrite app_nil_r in Hch1.
  assert (Hok2 : core_ok c (set_intake_head None sc) h1 L Hs run)
    by (eapply core_ok_view; [apply (unlinked_view core_view); [reflexivity | exact Heq] | exact Hok1]).
  assert (Hwf1 : wf h1) by (eapply wf_frame; [apply (unlinked_view urgency_view); [reflexivity | exact Heq] | exact Hwf]).
  assert (Hx1 : forall x, set_intake_next None <$> h1 !! x = set_intake_next None <$> h !! x).
  { intros x. rewrite <- !lookup_fmap, Heq. reflexivity. }
  eapply lwp_mono.
  { apply (service_all_ok (reverse I) _ h1 (set_intake_head None sc) L Hs run es r Hok2 Hwf1 Hch1).
    - rewrite length_reverse. pose proof (chain_length _ _ _ _ Hch). lia.
    - intros t Ht. rewrite elem_of_reverse in Ht. destruct (Hcl t Ht) as (v & Hv & Hp & Hb).
      pose proof (Hx1 t) as E. rewrite Hv in E. destruct (h1 !! t) as [v' |]; [| discriminate]. exists v'.
      split; [reflexivity |]. destruct v, v'. injection E. intros. subst. auto. }
  intros _ sc2 h2 es2 (Hok3 & Hsr & Ho & Hx2 & Hes). split; [| exact Hes]. unfold drained.
  split_and!; [| exact Hsr | |].
  - rewrite (arrivals_frame _ h h1); [exact Hok3 |]. intros x _. pose proof (Hx1 x) as E.
    destruct (h1 !! x) as [[] |], (h !! x) as [[] |]; try discriminate E; [| reflexivity].
    injection E. intros. subst. reflexivity.
  - etransitivity; [| exact Ho]. intros x v Hp. destruct (decide (x ∈ I)) as [Hx | Hx]; [| rewrite (Hout x Hx); reflexivity].
    destruct (Hcl x Hx) as (w & Hw & Hpw & _). pose proof (Hx1 x) as E. rewrite Hw in E.
    split; [congruence |]. intros Hv. rewrite Hv in E. apply (inj Some) in E. destruct Hp. rewrite <- Hpw.
    change (pinned_core (set_intake_next None v) = pinned_core (set_intake_next None w)). rewrite E. reflexivity.
  - intros x. rewrite Hx2. unfold serviced_of. rewrite (bool_decide_ext _ (x ∈ I)) by apply elem_of_reverse.
    destruct (decide (x ∈ I)) as [Hin | Hin].
    + rewrite bool_decide_true by exact Hin. pose proof (Hx1 x) as E.
      destruct (h1 !! x) as [[] |], (h !! x) as [[] |]; try discriminate E; [| reflexivity]. injection E. intros. subst. reflexivity.
    + rewrite bool_decide_false by exact Hin. rewrite Hout by exact Hin. reflexivity.
Qed.

Lemma take_intake_ok h sc L Hs run es I :
  core_ok c sc h L Hs run -> wf h -> intake_ok c h sc I -> (cores = 1 -> I = []) ->
  lwp c s (Switch.take_intake cx c)
    (fun _ sc' h' es' => drained sc h L Hs run I sc' h' /\ exists new, es' = new ++ es) sc h es.
Proof.
  intros Hok Hwf Hin Hone. unfold Switch.take_intake.
  assert (Hnone : intake_head sc = None -> lwp c s (kret tt)
    (fun _ sc' h' es' => drained sc h L Hs run I sc' h' /\ exists new, es' = new ++ es) sc h es).
  { intros En. lwp_step. pose proof (in_chain _ _ _ _ Hin) as Hch. rewrite En in Hch.
    destruct I as [| y I]; [| destruct Hch; discriminate]. split; [| exists []; reflexivity].
    split_and!; [exact Hok | | reflexivity |]; [split; simpl; congruence |].
    intros x. destruct (h !! x); reflexivity. }
  destruct (Nat.ltb_spec 1 cores) as [Hlt | Hge].
  - lwp_step. unfold Switch.intake_pending. do 2 lwp_step. lwp_step. case_bool_decide as En; cbn [negb].
    + apply Hnone, En.
    + apply drain_intake_ok; assumption.
  - apply Hnone. pose proof cores_valid. pose proof (in_chain _ _ _ _ Hin) as Hch.
    rewrite (Hone ltac:(lia)) in Hch. exact Hch.
Qed.
End intake.

(** ** Departures and the roads *)

Section roads.
Context `{Config} (cx : cpu) (c : nat) (s : kernel_state) (Hc : c < length (schedulers s)).
Implicit Types (h : heap) (sc : scheduler) (L : Levels.levels) (Hs : list nat).
Local Abbreviation wf h := (Urgency.wf h (nodes s) (mutexes s)).

Lemma running_not_listed sc h L Hs run t v : core_ok c sc h L Hs run -> h !! t = Some v ->
  state v <> ThreadState.ready -> ~ listed L Hs t.
Proof.
  intros [_ _ Hst _ _] Hv Hr Hl. destruct (st_listed _ _ _ _ _ _ Hst t Hl) as (v' & Hv' & _ & E & _). congruence.
Qed.

Lemma set_thread_blocked_ok h sc L Hs run es t v :
  core_ok c sc h L Hs run -> h !! t = Some v -> pinned_core v = c -> state v = ThreadState.running ->
  disposition v = ThreadDisposition.prepared -> idle_thread sc <> Some t ->
  lwp c s (set_thread_blocked c t)
    (fun _ sc' h' es' => core_ok c sc' h' L Hs (stopped t run) /\ same_registers sc sc' /\
       same_but_links (<[t := departed_block DepartureReason.parked v]> h) h' /\ others_kept c h h' /\
       exists new, es' = new ++ es) sc h es.
Proof.
  intros Hok Hv Hp Hr Hd Hi. unfold set_thread_blocked. do 2 lwp_step. lwp_step. eapply lwp_get_tcb; [exact Hv |].
  lwp_step. lwp_step; [apply Nat.eqb_eq; rewrite (co_id _ _ _ _ _ _ Hok); exact Hp |].
  lwp_step. lwp_step; [apply bool_decide_eq_true, Hr |]. lwp_step. lwp_step; [apply bool_decide_eq_true, Hd |].
  assert (Hnl : ~ listed L Hs t) by (eapply running_not_listed; [exact Hok | exact Hv | congruence]).
  destruct (not_listed_sentinels _ _ _ _ _ _ _ (co_filed _ _ _ _ _ _ Hok) Hv Hp Hnl) as [He _].
  lwp_step. lwp_step; [rewrite He; reflexivity |]. lwp_step. eapply lwp_modify_tcb; [exact Hv |].
  lwp_step. eapply lwp_modify_tcb; [apply lookup_insert_eq |]. lwp_step. rewrite insert_insert_eq.
  set (v1 := set_disposition ThreadDisposition.none v).
  split_and!; [| split; reflexivity | reflexivity | apply (others_insert c h t v); assumption | eexists [_]; reflexivity].
  assert (Hv2 : core_view <$> h = core_view <$> <[t := v1]> h) by (eapply view_insert; [exact Hv | reflexivity]).
  pose proof (core_ok_view c sc _ _ L Hs run Hv2 Hok) as Hok1.
  assert (E : <[t := set_state ThreadState.blocked v1]> h = <[t := set_state ThreadState.blocked v1]> (<[t := v1]> h))
    by (rewrite insert_insert_eq; reflexivity). rewrite E.
  assert (Hv1 : <[t := v1]> h !! t = Some v1) by apply lookup_insert_eq.
  eapply core_ok_next; [exact Hok1 | split; reflexivity | eapply view_insert; [exact Hv1 | reflexivity] | | | apply stopped_inv].
  - eapply filed_view; [eapply set_state_links, Hv1 | apply Hok1].
  - eapply status_set_state; [apply Hok1 | exact Hv1 | exact Hp | reflexivity | | apply (co_status _ _ _ _ _ _ Hok1) | contradiction | reflexivity | discriminate].
    split; [intros Hl; contradiction | intros [Hx _]; discriminate].
Qed.

(** Every departure but the exit. *)
Lemma depart_ok h sc L Hs run es t v reason :
  core_ok c sc h L Hs run -> h !! t = Some v -> pinned_core v = c -> state v = ThreadState.running ->
  reason <> DepartureReason.exited ->
  (reason = DepartureReason.parked -> disposition v = ThreadDisposition.prepared /\ idle_thread sc <> Some t) ->
  lwp c s (Switch.depart cx c t reason)
    (fun _ sc' h' es' =>
       (let '(L', Hs') := departed (idle_thread sc) reason t v L Hs in core_ok c sc' h' L' Hs' (stopped t run)) /\
       same_registers sc sc' /\ same_but_links (<[t := departed_block reason v]> h) h' /\ others_kept c h h' /\
       exists new, es' = new ++ es) sc h es.
Proof.
  intros Hok Hv Hp Hr Hne Hpark.
  assert (Hnl : ~ listed L Hs t) by (eapply running_not_listed; [exact Hok | exact Hv | congruence]).
  destruct reason; cbn [Switch.depart departed departed_block]; [| | | contradiction].
  - eapply lwp_mono; [apply (admit_thread_ok c s Hc false h sc L Hs run es t v Hok Hv Hp Hnl) |].
    intros _ sc' h' es' (H1 & H2 & H3 & H4 & ->). split_and!; auto. eexists [_]. reflexivity.
  - eapply lwp_mono; [apply (admit_thread_ok c s Hc true h sc L Hs run es t v Hok Hv Hp Hnl) |].
    intros _ sc' h' es' (H1 & H2 & H3 & H4 & ->). split_and!; auto. eexists [_]. reflexivity.
  - destruct (Hpark eq_refl) as [Hd Hi]. apply set_thread_blocked_ok; assumption.
Qed.

(** Servicing the intake moves no urgency and no running thread but one
    whose own wake was in it. *)
Lemma drained_view sc h L Hs run I sc' h' : drained c sc h L Hs run I sc' h' ->
  urgency_view <$> h = urgency_view <$> h'.
Proof.
  intros (_ & _ & _ & Hx). apply map_eq. intros x. rewrite !lookup_fmap. specialize (Hx x).
  assert (E : forall v, urgency_view (erase_links (serviced_of I x v)) = urgency_view v).
  { intros v. change (urgency_view (serviced_of I x v) = urgency_view v). unfold serviced_of.
    case_bool_decide; [apply serviced_static | reflexivity]. }
  destruct (h !! x) as [v |], (h' !! x) as [v' |]; simpl in *; try discriminate; [| reflexivity].
  apply (inj Some) in Hx. f_equal. rewrite <- E, <- Hx. reflexivity.
Qed.

Lemma arrivals_run idle h ts : forall L Hs run,
  let '(_, _, run') := arrivals idle h ts L Hs run in
  run' = run \/ run' = None.
Proof.
  induction ts as [| t ts IH]; intros L Hs run; simpl; [auto |].
  destruct (h !! t) as [v |]; [| apply IH]. destruct (made_ready idle t v L Hs) as [L1 Hs1].
  specialize (IH L1 Hs1 (if is_finished v then run else stopped t run)).
  destruct (arrivals _ _ _ _ _ _) as [[L2 Hs2] run2]. destruct IH as [-> | ->]; [| auto].
  destruct (is_finished v); [auto |]. unfold stopped. case_bool_decide; auto.
Qed.

Lemma arrivals_stopped idle h ts p v : h !! p = Some v -> is_finished v = false -> p ∈ ts ->
  forall L Hs, let '(_, _, run') := arrivals idle h ts L Hs (Some p) in run' = None.
Proof.
  intros Hv Hf. induction ts as [| t ts IH]; intros Hin L Hs; [inversion Hin |]. simpl.
  apply elem_of_cons in Hin as [<- | Hin].
  - rewrite Hv. destruct (made_ready idle p v L Hs) as [L1 Hs1]. rewrite Hf. unfold stopped.
    rewrite bool_decide_true by reflexivity. pose proof (arrivals_run idle h ts L1 Hs1 None) as Hr.
    destruct (arrivals _ _ _ _ _ _) as [[L2 Hs2] run2]. destruct Hr; assumption.
  - destruct (h !! t) as [vt |]; [| apply IH, Hin]. destruct (made_ready idle t vt L Hs) as [L1 Hs1].
    destruct (if is_finished vt then Some p else stopped t (Some p)) as [q |] eqn:E.
    + assert (q = p) as -> by (destruct (is_finished vt); [congruence | apply stopped_inv in E; congruence]).
      apply IH, Hin.
    + pose proof (arrivals_run idle h ts L1 Hs1 None) as Hr.
      destruct (arrivals _ _ _ _ _ _) as [[L2 Hs2] run2]. destruct Hr; assumption.
Qed.

(** The intake is empty and nothing is outstanding. *)
Definition quiet sc h : Prop :=
  intake_head sc = None /\ forall t v, h !! t = Some v -> pinned_core v = c -> pending_requests v = 0%Z.

Lemma quiet_intake sc h : quiet sc h <-> intake_ok c h sc [].
Proof.
  split; intros Hq.
  - destruct Hq as [H1 H2]. split; [exact H1 | intros t Ht; inversion Ht | eauto].
  - destruct Hq as [H1 _ H3]. split; [exact H1 |]. intros t v Hv Hp. eapply H3; eauto. set_solver.
Qed.

Definition request_view (v : thread_control_block) := (pinned_core v, pending_requests v).

Lemma quiet_view sc sc' h h' : request_view <$> h = request_view <$> h' ->
  intake_head sc' = intake_head sc -> quiet sc h -> quiet sc' h'.
Proof.
  intros Hv Es [H1 H2]. split; [congruence |]. intros t v' Ht Hp.
  destruct (view_back _ _ _ _ _ Hv Ht) as (v & Hv' & E). injection E as E1 E2. rewrite <- E2. apply (H2 t v); congruence.
Qed.

Lemma drained_quiet sc h L Hs run I sc' h' : intake_ok c h sc I -> drained c sc h L Hs run I sc' h' -> quiet sc' h'.
Proof.
  intros [_ _ Hfr] (_ & Hsr & _ & Hx). split; [apply (sr_intake _ _ Hsr) |].
  intros t v' Hv' Hp. specialize (Hx t). rewrite Hv' in Hx. destruct (h !! t) as [v |] eqn:Hv; [| discriminate].
  apply (inj Some) in Hx.
  assert (E : request_view v' = request_view (serviced_of I t v)).
  { change (request_view (erase_links v') = request_view (erase_links (serviced_of I t v))). rewrite Hx. reflexivity. }
  injection E as E1 E2. rewrite E2. unfold serviced_of in *. case_bool_decide as Hin.
  - unfold serviced. cbv zeta. case_bool_decide; [reflexivity |].
    match goal with |- context [if ?b then _ else _] => destruct b end; reflexivity.
  - apply (Hfr t v); congruence.
Qed.

(** What a switch leaves, [from] the core with its intake to [next]. *)
Definition switch_result sc h L Hs I reason prev (next : nat) sc' h' : Prop :=
  let '(r, L', Hs', rotor') := switched (urg s h) (idle_thread sc) (tie_rotor sc) h I reason prev L Hs in
  Some next = r /\ core_ok c sc' h' L' Hs' (Some next) /\
  same_registers (set_current_thread (Some next) (set_tie_rotor rotor' (set_intake_head None sc))) sc' /\
  (forall x e, competes (urg s h) L' Hs' x e -> urg s h next <= e) /\
  others_kept c h h' /\ urgency_view <$> h = urgency_view <$> h' /\ quiet sc' h'.

(** What an operation that files the running thread leaves. *)
Definition filing sc h (lists : Levels.levels * list nat) (es : list port_call) sc' h' (es' : list port_call) : Prop :=
  (let '(L', Hs') := lists in core_ok c sc' h' L' Hs' None) /\ same_registers sc sc' /\
  urgency_view <$> h = urgency_view <$> h' /\ request_view <$> h = request_view <$> h' /\
  others_kept c h h' /\ exists new, es' = new ++ es.

(** The pick that follows it, made the running thread. *)
Lemma run_filed_ok h sc es lists sc1 h1 es1 : wf h -> quiet sc h -> filing sc h lists es sc1 h1 es1 ->
  lwp c s (run_next c)
    (fun t sc' h' es' =>
       (let '(L', Hs') := lists in
        let '(r, L'', Hs'', rotor') := pick (urg s h) L' Hs' (tie_rotor sc) in
        Some t = (match r with Some t => Some t | None => idle_thread sc end) /\
        core_ok c sc' h' L'' Hs'' (Some t) /\
        same_registers (set_current_thread (Some t) (set_tie_rotor rotor' sc)) sc' /\
        (forall x e, competes (urg s h) L'' Hs'' x e -> urg s h t <= e)) /\
       others_kept c h h' /\ urgency_view <$> h = urgency_view <$> h' /\ quiet sc' h' /\
       exists new, es' = new ++ es) sc1 h1 es1.
Proof.
  intros Hwf Hq (Hok1 & Hsr1 & Hview & Hreq & Ho1 & new1 & ->). destruct lists as [L1 Hs1].
  assert (Hwf1 : wf h1) by (eapply wf_frame; eassumption).
  eapply lwp_mono; [apply (run_next_ok c s Hc h1 sc1 L1 Hs1 _ Hok1 Hwf1) |].
  intros t sc2 h2 es2. rewrite (sr_rotor _ _ Hsr1), (sr_idle _ _ Hsr1).
  assert (Ep : pick (urg s h1) L1 Hs1 (tie_rotor sc) = pick (urg s h) L1 Hs1 (tie_rotor sc)).
  { apply pick_ext. intros x. symmetry. apply urg_view, Hview. }
  rewrite Ep. destruct (pick (urg s h) L1 Hs1 (tie_rotor sc)) as [[[r L2] Hs2] rotor'].
  intros (Et & Hok2 & Hsr2 & Ho2 & (v2 & Hv2 & _ & Hl2) & Hbest & ->).
  assert (Hbest' : forall x e, competes (urg s h) L2 Hs2 x e -> urg s h t <= e).
  { intros x e Hx. rewrite (urg_view s h h1 t Hview). apply (Hbest x e).
    destruct Hx as [Hx | [Hx <-]]; [left; exact Hx | right; split; [exact Hx | symmetry; apply urg_view, Hview]]. }
  assert (Hsr : same_registers (set_current_thread (Some t) (set_tie_rotor rotor' sc)) sc2)
    by (destruct Hsr1, Hsr2; split; simpl in *; congruence).
  split_and!; auto.
  - etransitivity; eassumption.
  - rewrite Hview. etransitivity; [| apply links_view, Hl2]. eapply view_insert; [exact Hv2 | reflexivity].
  - eapply quiet_view; [| | exact Hq]; [| apply (sr_intake _ _ Hsr)].
    rewrite Hreq. etransitivity; [| apply (same_links_fmap request_view); [reflexivity | exact Hl2]].
    eapply view_insert; [exact Hv2 | reflexivity].
  - exists (trace_point Trace.thread_running t :: new1). reflexivity.
Qed.

(** The core once the intake is in: [L1], [Hs1] and [run1] are what the
    arrivals make of it, and [v1] the running thread's block. *)
Record taken_in sc h L Hs I prev v (es : list port_call) L1 Hs1 run1 v1 sc1 h1 (es1 : list port_call) : Prop := {
  ti_arrivals : arrivals (idle_thread sc) h (reverse I) L Hs (Some prev) = (L1, Hs1, run1);
  ti_drained : drained c sc h L Hs (Some prev) I sc1 h1;
  ti_core : core_ok c sc1 h1 L1 Hs1 run1;
  ti_run : run1 = Some prev \/ run1 = None;
  ti_current : current_thread sc1 = Some prev;
  ti_block : h1 !! prev = Some v1;
  ti_serviced : erase_links v1 = erase_links (serviced_of I prev v);
  ti_pinned : pinned_core v = c;
  ti_quiet : quiet sc1 h1;
  ti_view : urgency_view <$> h = urgency_view <$> h1;
  ti_calls : exists new, es1 = new ++ es
}.

Lemma serviced_of_static I x v : urgency_view (serviced_of I x v) = urgency_view v /\
  pinned_core (serviced_of I x v) = pinned_core v.
Proof. unfold serviced_of. case_bool_decide; [split; apply serviced_static | auto]. Qed.

Lemma taken_in_static sc h L Hs I prev v es L1 Hs1 run1 v1 sc1 h1 es1 :
  taken_in sc h L Hs I prev v es L1 Hs1 run1 v1 sc1 h1 es1 ->
  urgency_view v1 = urgency_view v /\ pinned_core v1 = c.
Proof.
  intros Hti. destruct (serviced_of_static I prev v) as [E1 E2]. pose proof (ti_serviced _ _ _ _ _ _ _ _ _ _ _ _ _ _ _ Hti) as E.
  rewrite <- E1, <- (ti_pinned _ _ _ _ _ _ _ _ _ _ _ _ _ _ _ Hti), <- E2. split.
  - change (urgency_view (erase_links v1) = urgency_view (erase_links (serviced_of I prev v))). rewrite E. reflexivity.
  - change (pinned_core (erase_links v1) = pinned_core (erase_links (serviced_of I prev v))). rewrite E. reflexivity.
Qed.

Lemma take_in_ok h sc L Hs es I prev v :
  core_ok c sc h L Hs (Some prev) -> wf h -> intake_ok c h sc I -> (cores = 1 -> I = []) -> h !! prev = Some v ->
  lwp c s (Switch.take_intake cx c)
    (fun _ sc1 h1 es1 => exists L1 Hs1 run1 v1, taken_in sc h L Hs I prev v es L1 Hs1 run1 v1 sc1 h1 es1) sc h es.
Proof.
  intros Hok Hwf Hin Hone Hv.
  eapply lwp_mono; [apply (take_intake_ok cx c s Hc h sc L Hs (Some prev) es I Hok Hwf Hin Hone) |].
  intros _ sc1 h1 es1 [Hdr Hes]. pose proof Hdr as (Hok1 & Hsr1 & Ho1 & Hx1).
  pose proof (arrivals_run (idle_thread sc) h (reverse I) L Hs (Some prev)) as Hrun.
  destruct (arrivals (idle_thread sc) h (reverse I) L Hs (Some prev)) as [[L1 Hs1] run1] eqn:Ea.
  pose proof (Hx1 prev) as Exv. rewrite Hv in Exv. destruct (h1 !! prev) as [v1 |] eqn:Hv1; [| discriminate].
  apply (inj Some) in Exv. exists L1, Hs1, run1, v1. split; auto.
  - rewrite (sr_current _ _ Hsr1). exact (co_run _ _ _ _ _ _ Hok prev eq_refl).
  - destruct (st_run _ _ _ _ _ _ (co_status _ _ _ _ _ _ Hok) prev eq_refl) as (v' & Hv' & Hp & _). congruence.
  - eapply drained_quiet; [exact Hin | exact Hdr].
  - eapply drained_view, Hdr.
Qed.

(** The running thread filed for a reason that is not an exit, unless the
    intake had its own wake, which filed it already. *)
Lemma file_ok h sc L Hs es I prev v L1 Hs1 run1 v1 sc1 h1 es1 reason :
  core_ok c sc h L Hs (Some prev) -> h !! prev = Some v ->
  taken_in sc h L Hs I prev v es L1 Hs1 run1 v1 sc1 h1 es1 -> reason <> DepartureReason.exited ->
  (reason = DepartureReason.parked -> disposition v = ThreadDisposition.prepared /\ idle_thread sc <> Some prev) ->
  lwp c s (if bool_decide (state v1 = ThreadState.running) then Switch.depart cx c prev reason else kret tt)
    (fun _ => filing sc1 h1 (match run1 with Some _ => departed (idle_thread sc) reason prev v L1 Hs1 | None => (L1, Hs1) end) es1)
    sc1 h1 es1.
Proof.
  intros Hok Hv Hti Hne Hpark. destruct (taken_in_static _ _ _ _ _ _ _ _ _ _ _ _ _ _ _ Hti) as [Huv Hp1].
  destruct Hti as [Ea (_ & Hsr1 & _) Hok1 Hrun _ Hv1 Exv _ _ _ _]. destruct Hrun as [-> | ->].
  - destruct (st_run _ _ _ _ _ _ (co_status _ _ _ _ _ _ Hok1) prev eq_refl) as (v' & Hv' & Hp' & Hr').
    assert (v' = v1) as -> by congruence. rewrite bool_decide_true by exact Hr'.
    eapply lwp_mono.
    + apply (depart_ok h1 sc1 L1 Hs1 _ _ prev v1 reason Hok1 Hv1 Hp' Hr' Hne).
      intros Epark. destruct (Hpark Epark) as [Hd Hi]. split; [| rewrite (sr_idle _ _ Hsr1); exact Hi].
      assert (Hnin : prev ∉ I).
      { intros Hin'. assert (Hfin : is_finished v = false).
        { unfold is_finished. rewrite Hd. destruct (st_run _ _ _ _ _ _ (co_status _ _ _ _ _ _ Hok) prev eq_refl) as (v' & Hv'' & _ & Hr).
          assert (v' = v) as -> by congruence. rewrite Hr. reflexivity. }
        assert (Hin2 : prev ∈ reverse I) by (apply elem_of_reverse; exact Hin').
        pose proof (arrivals_stopped (idle_thread sc) h (reverse I) prev v Hv Hfin Hin2 L Hs) as Hs0.
        rewrite Ea in Hs0. discriminate. }
      unfold serviced_of in Exv. rewrite bool_decide_false in Exv by exact Hnin.
      rewrite <- Hd. change (disposition (erase_links v1) = disposition (erase_links v)). rewrite Exv. reflexivity.
    + intros _ sc2 h2 es2 (Hok2 & Hsr2 & Hl2 & Ho2 & Hes2).
      assert (Ed : departed (idle_thread sc1) reason prev v1 L1 Hs1 = departed (idle_thread sc) reason prev v L1 Hs1).
      { injection Huv as E1 E2 E3. rewrite (sr_idle _ _ Hsr1). unfold departed, admitted, holds_nothing. rewrite E1, E3. reflexivity. }
      rewrite Ed in Hok2. unfold stopped in Hok2. rewrite bool_decide_true in Hok2 by reflexivity.
      split_and!; auto.
      * etransitivity; [| apply links_view, Hl2]. eapply view_insert; [exact Hv1 |]. destruct reason; reflexivity.
      * etransitivity; [| apply (same_links_fmap request_view); [reflexivity | exact Hl2]].
        eapply view_insert; [exact Hv1 |]. destruct reason; reflexivity.
  - rewrite bool_decide_false.
    + lwp_step. split_and!; auto; [split; reflexivity | reflexivity | exists []; reflexivity].
    + intros Hr. pose proof (st_running _ _ _ _ _ _ (co_status _ _ _ _ _ _ Hok1) prev v1 Hv1 Hp1 Hr). discriminate.
Qed.

(** ... after which the pick completes the switch. *)
Lemma run_taken_ok h sc L Hs es I prev v L1 Hs1 run1 v1 sc1 h1 es1 sc2 h2 es2 reason :
  wf h -> h !! prev = Some v -> taken_in sc h L Hs I prev v es L1 Hs1 run1 v1 sc1 h1 es1 ->
  filing sc1 h1 (match run1 with Some _ => departed (idle_thread sc) reason prev v L1 Hs1 | None => (L1, Hs1) end) es1 sc2 h2 es2 ->
  lwp c s (run_next c)
    (fun t sc' h' es' => switch_result sc h L Hs I reason prev t sc' h' /\ exists new, es' = new ++ es) sc2 h2 es2.
Proof.
  intros Hwf Hv [Ea (_ & Hsr1 & Ho1 & _) Hok1 _ _ _ _ _ Hq1 Hview1 [new1 ->]] Hfile.
  assert (Hwf1 : wf h1) by (eapply wf_frame; [exact Hview1 | exact Hwf]).
  eapply lwp_mono; [apply (run_filed_ok h1 sc1 _ _ sc2 h2 es2 Hwf1 Hq1 Hfile) |].
  intros t sc3 h3 es3 (Hres & Ho2 & Hview2 & Hq2 & new2 & ->). split; [| exists (new2 ++ new1); rewrite app_assoc; reflexivity].
  unfold switch_result, switched. rewrite Ea, Hv. clear Hfile.
  destruct (match run1 with Some _ => _ | None => _ end) as [L2 Hs2].
  rewrite (sr_rotor _ _ Hsr1), (sr_idle _ _ Hsr1) in Hres. simpl in Hres.
  rewrite (pick_ext (urg s h1) (urg s h)) in Hres by (intros x; symmetry; apply urg_view, Hview1).
  destruct (pick (urg s h) L2 Hs2 (tie_rotor sc)) as [[[r L3] Hs3] rotor'].
  destruct Hres as (Et & Hok3 & Hsr3 & Hbest). split_and!; auto.
  - destruct Hsr1, Hsr3; split; simpl in *; congruence.
  - intros x e Hx. rewrite (urg_view s h h1 t Hview1). apply (Hbest x e).
    destruct Hx as [Hx | [Hx <-]]; [left; exact Hx | right; split; [exact Hx | symmetry; apply urg_view, Hview1]].
  - etransitivity; eassumption.
  - congruence.
Qed.

Lemma decide_ok h sc L Hs es I prev v reason :
  core_ok c sc h L Hs (Some prev) -> wf h -> intake_ok c h sc I -> (cores = 1 -> I = []) ->
  h !! prev = Some v -> reason <> DepartureReason.exited ->
  (reason = DepartureReason.parked -> disposition v = ThreadDisposition.prepared /\ idle_thread sc <> Some prev) ->
  lwp c s (Switch.decide cx c reason)
    (fun t sc' h' es' => switch_result sc h L Hs I reason prev t sc' h' /\ exists new, es' = new ++ es) sc h es.
Proof.
  intros Hok Hwf Hin Hone Hv Hne Hpark. unfold Switch.decide. lwp_step.
  eapply lwp_mono; [apply (take_in_ok h sc L Hs es I prev v Hok Hwf Hin Hone Hv) |].
  intros _ sc1 h1 es1 (L1 & Hs1 & run1 & v1 & Hti). do 2 lwp_step. lwp_step.
  rewrite (ti_current _ _ _ _ _ _ _ _ _ _ _ _ _ _ _ Hti). lwp_step. cbn [nonnull ok].
  lwp_step. eapply lwp_get_tcb; [exact (ti_block _ _ _ _ _ _ _ _ _ _ _ _ _ _ _ Hti) |]. cbn beta. lwp_step.
  eapply lwp_mono; [apply (file_ok h sc L Hs es I prev v L1 Hs1 run1 v1 sc1 h1 es1 reason Hok Hv Hti Hne Hpark) |].
  intros ? sc2 h2 es2 Hfile.
  apply (run_taken_ok h sc L Hs es I prev v L1 Hs1 run1 v1 sc1 h1 es1 sc2 h2 es2 reason Hwf Hv Hti Hfile).
Qed.

Lemma direct_reschedule_ok h sc L Hs es I prev v reason :
  core_ok c sc h L Hs (Some prev) -> wf h -> intake_ok c h sc I -> (cores = 1 -> I = []) ->
  h !! prev = Some v -> reason <> DepartureReason.exited ->
  (reason = DepartureReason.parked -> disposition v = ThreadDisposition.prepared /\ idle_thread sc <> Some prev) ->
  lwp c s (Switch.direct_reschedule cx c reason)
    (fun _ sc' h' es' => exists next new, switch_result sc h L Hs I reason prev next sc' h' /\
       es' = (if next =? prev then [] else [port_direct_switch c prev next]) ++ new ++ es) sc h es.
Proof.
  intros Hok Hwf Hin Hone Hv Hne Hpark. unfold Switch.direct_reschedule. lwp_step.
  lwp_step; [rewrite bool_decide_false by exact Hne; reflexivity |]. do 2 lwp_step. lwp_step.
  rewrite (co_run _ _ _ _ _ _ Hok prev eq_refl). lwp_step. cbn [nonnull ok]. lwp_step.
  eapply lwp_mono; [apply (decide_ok h sc L Hs es I prev v reason); assumption |].
  intros t sc' h' es' [Hres [new ->]]. destruct (t =? prev) eqn:Et.
  - lwp_step. exists t, new. rewrite Et. auto.
  - lwp_step. exists t, new. rewrite Et. rewrite (co_id _ _ _ _ _ _ Hok). auto.
Qed.

(** ** The handler's road *)

Lemma preempted_ok h sc L Hs run es t v : core_ok c sc h L Hs run -> h !! t = Some v -> pinned_core v = c ->
  lwp c s (Switch.preempted c t) (fun r sc' h' es' => r = preempts L Hs v /\ sc' = sc /\ h' = h /\ es' = es) sc h es.
Proof.
  intros Hok Hv Hp. pose proof (co_filed _ _ _ _ _ _ Hok) as Hf. unfold Switch.preempted. do 2 lwp_step. lwp_step.
  eapply lwp_get_tcb; [exact Hv |]. cbn beta. lwp_step. split_and!; auto. unfold preempts.
  assert (Hle : base_priority v <= 31).
  { pose proof (st_priority _ _ _ _ _ _ (co_status _ _ _ _ _ _ Hok) t v Hv Hp). pose proof max_priorities_valid. lia. }
  pose proof (has_more_urgent_ok h (ready_matrix sc) L (base_priority v) (fl_matrix _ _ _ _ _ Hf) Hle) as Hmore.
  f_equal. f_equal.
  - apply eq_true_iff_eq. rewrite Hmore. destruct (Levels.best L) as [p |] eqn:Eb.
    + rewrite Nat.ltb_lt. apply best_spec in Eb as [Hne Hlt]. split.
      * intros (k & Hk & Hnk). destruct (decide (k < p)) as [Hkp | Hkp]; [| lia]. destruct (Hnk (Hlt k Hkp)).
      * eauto.
    + split; [| discriminate]. intros (k & _ & Hnk). destruct (Hnk (proj1 (best_none L) Eb k)).
  - apply bool_decide_ext, (tailed_empty _ _ _ _ _ (fl_holders _ _ _ _ _ Hf)).
Qed.

Lemma taken_in_state h sc L Hs I prev v es L1 Hs1 run1 v1 sc1 h1 es1 :
  core_ok c sc h L Hs (Some prev) -> h !! prev = Some v -> disposition v <> ThreadDisposition.terminating ->
  taken_in sc h L Hs I prev v es L1 Hs1 run1 v1 sc1 h1 es1 ->
  disposition v1 <> ThreadDisposition.terminating /\
  state v1 = match run1 with Some _ => ThreadState.running | None => ThreadState.ready end.
Proof.
  intros Hok Hv Hd Hti. destruct (taken_in_static _ _ _ _ _ _ _ _ _ _ _ _ _ _ _ Hti) as [_ Hp1].
  destruct Hti as [_ _ Hok1 Hrun _ Hv1 Exv _ _ _ _].
  destruct (st_run _ _ _ _ _ _ (co_status _ _ _ _ _ _ Hok) prev eq_refl) as (v' & Hv' & _ & Hr).
  assert (v' = v) as -> by congruence.
  assert (Hfin : is_finished v = false) by (unfold is_finished; rewrite Hr, (bool_decide_false (disposition v = _)) by exact Hd; reflexivity).
  assert (Hser : forall A (f : thread_control_block -> A), (forall w, f (erase_links w) = f w) -> f v1 = f (serviced_of I prev v)).
  { intros A f Hf. rewrite <- (Hf v1), <- (Hf (serviced_of I prev v)), Exv. reflexivity. }
  rewrite (Hser _ disposition (fun _ => eq_refl)), (Hser _ state (fun _ => eq_refl)).
  assert (Es : serviced_of I prev v = if bool_decide (prev ∈ I) then
      set_state ThreadState.ready (set_disposition ThreadDisposition.none (set_pending_requests 0%Z (set_intake_next None v))) else v).
  { unfold serviced_of. case_bool_decide; [| reflexivity]. unfold serviced. cbv zeta.
    rewrite bool_decide_false by exact Hd. unfold is_finished. simpl. rewrite Hr. reflexivity. }
  rewrite Es. rewrite Es in Hser. case_bool_decide as Hin; (split; [simpl; discriminate || exact Hd |]); simpl.
  - destruct Hrun as [-> | ->]; [| reflexivity].
    destruct (st_run _ _ _ _ _ _ (co_status _ _ _ _ _ _ Hok1) prev eq_refl) as (w & Hw & _ & Hrw).
    assert (w = v1) as -> by congruence. rewrite (Hser _ state (fun _ => eq_refl)) in Hrw. discriminate.
  - destruct Hrun as [-> | ->]; [exact Hr |].
    assert (Hr1 : state v1 = ThreadState.running) by (rewrite (Hser _ state (fun _ => eq_refl)); exact Hr).
    pose proof (st_running _ _ _ _ _ _ (co_status _ _ _ _ _ _ Hok1) prev v1 Hv1 Hp1 Hr1). discriminate.
Qed.

Lemma reschedule_ok h sc L Hs es I prev v :
  core_ok c sc h L Hs (Some prev) -> wf h -> intake_ok c h sc I -> (cores = 1 -> I = []) ->
  h !! prev = Some v -> disposition v <> ThreadDisposition.terminating ->
  lwp c s (Switch.reschedule cx c)
    (fun _ sc' h' es' => exists next new,
       switch_result sc h L Hs I (handler_reason (idle_thread sc) h I prev v L Hs) prev next sc' h' /\
       es' = port_switch c (Some prev) next :: new ++ es) sc h es.
Proof.
  intros Hok Hwf Hin Hone Hv Hd. pose proof (co_run _ _ _ _ _ _ Hok prev eq_refl) as Hcur.
  destruct (st_run _ _ _ _ _ _ (co_status _ _ _ _ _ _ Hok) prev eq_refl) as (v' & Hv' & Hp & Hr).
  assert (v' = v) as -> by congruence.
  assert (Hnl : ~ listed L Hs prev) by (eapply running_not_listed; [exact Hok | exact Hv | congruence]).
  destruct (not_listed_sentinels _ _ _ _ _ _ _ (co_filed _ _ _ _ _ _ Hok) Hv Hp Hnl) as [He _].
  unfold Switch.reschedule. do 2 lwp_step. lwp_step. lwp_step; [rewrite Hcur; reflexivity |].
  lwp_step. rewrite Hcur. lwp_step. cbn [nonnull ok]. lwp_step. eapply lwp_get_tcb; [exact Hv |]. cbn beta.
  lwp_step. lwp_step; [rewrite He; reflexivity |]. lwp_step.
  eapply lwp_mono; [apply (take_in_ok h sc L Hs es I prev v Hok Hwf Hin Hone Hv) |].
  intros ? sc1 h1 es1 (L1 & Hs1 & run1 & v1 & Hti).
  destruct (taken_in_state h sc L Hs I prev v es L1 Hs1 run1 v1 sc1 h1 es1 Hok Hv Hd Hti) as [Hd1 Hr1].
  destruct (taken_in_static _ _ _ _ _ _ _ _ _ _ _ _ _ _ _ Hti) as [Huv1 Hp1].
  pose proof (ti_block _ _ _ _ _ _ _ _ _ _ _ _ _ _ _ Hti) as Hv1. pose proof (ti_core _ _ _ _ _ _ _ _ _ _ _ _ _ _ _ Hti) as Hok1.
  lwp_step. eapply lwp_get_tcb; [exact Hv1 |]. cbn beta. lwp_step.
  set (reason := handler_reason (idle_thread sc) h I prev v L Hs).
  assert (Ereason : reason = if preempts L1 Hs1 v1 then DepartureReason.preempted else DepartureReason.yielded).
  { subst reason. unfold handler_reason. rewrite (ti_arrivals _ _ _ _ _ _ _ _ _ _ _ _ _ _ _ Hti).
    unfold preempts, holds_nothing. injection Huv1 as E1 E2 E3. rewrite E1, E3. reflexivity. }
  assert (Hne : reason <> DepartureReason.exited) by (rewrite Ereason; destruct (preempts _ _ _); discriminate).
  assert (Hnp : reason <> DepartureReason.parked) by (rewrite Ereason; destruct (preempts _ _ _); discriminate).
  pose proof (file_ok h sc L Hs es I prev v L1 Hs1 run1 v1 sc1 h1 es1 reason Hok Hv Hti Hne ltac:(intros; contradiction)) as Hfile.
  set (lists := match run1 with Some _ => departed (idle_thread sc) reason prev v L1 Hs1 | None => (L1, Hs1) end) in *.
  assert (Hcap : lwp c s
    (match state v1 with
     | ThreadState.running =>
         let* reason := Switch.departure_of c prev in
         Switch.depart cx c prev reason ;;*
         kret (if bool_decide (reason = DepartureReason.exited) then None else Some prev)
     | ThreadState.ready | ThreadState.terminated => kret (Some prev)
     | ThreadState.blocked | ThreadState.created => klift (Panic assert_failed)
     end) (fun r sc2 h2 es2 => r = Some prev /\ filing sc1 h1 lists es1 sc2 h2 es2) sc1 h1 es1).
  { rewrite Hr1 in Hfile |- *. subst lists. destruct run1 as [p |]; cbn [bool_decide] in Hfile.
    - rewrite bool_decide_true in Hfile by reflexivity. unfold Switch.departure_of. do 2 lwp_step.
      eapply lwp_get_tcb; [exact Hv1 |]. cbn beta. rewrite bool_decide_false by exact Hd1. lwp_step.
      eapply lwp_mono; [apply (preempted_ok h1 sc1 L1 Hs1 _ es1 prev v1 Hok1 Hv1 Hp1) |].
      intros r sc2 h2 es2 (-> & -> & -> & ->). lwp_step. lwp_step. rewrite <- Ereason.
      eapply lwp_mono; [exact Hfile |]. intros ? sc2 h2 es2 Hfl. lwp_step. rewrite bool_decide_false by exact Hne. auto.
    - rewrite bool_decide_false in Hfile by discriminate. lwp_step. split; [reflexivity |].
      split_and!; [| split; reflexivity | reflexivity | reflexivity | reflexivity | exists []; reflexivity]. exact Hok1. }
  eapply lwp_mono; [exact Hcap |]. intros r sc2 h2 es2 [-> Hfl]. lwp_step.
  eapply lwp_mono; [apply (run_taken_ok h sc L Hs es I prev v L1 Hs1 run1 v1 sc1 h1 es1 sc2 h2 es2 reason Hwf Hv Hti Hfl) |].
  intros t sc3 h3 es3 [Hres [new ->]]. lwp_step. exists t, new. split; [exact Hres |].
  rewrite (co_id _ _ _ _ _ _ Hok). reflexivity.
Qed.
End roads.
