(* ===== verification/SwitchProofs.v ===== *)
(** * The switching operations on a kernel state

    The judgements of RoadProofs, lifted from one core's view to the whole
    state, and what a switch means for the threads in it. *)

From S2P Require Import Prelude Chain State ReadyQueue ReadyQueueProofs WaitQueue WaitQueueProofs Urgency UrgencyProofs Scheduler SchedulerSpec Local SchedulerProofs DispatchProofs PickProofs Switch RoadProofs.

Section lists.
Context `{Config}.
Implicit Types (h : heap) (L : Levels.levels) (Hs : list nat).

Lemma listed_admitted idle front t v L Hs x : base_priority v < length L ->
  listed L Hs x -> (let '(L', Hs') := admitted idle front t v L Hs in listed L' Hs' x).
Proof.
  intros Hp Hx. unfold admitted. case_bool_decide; [exact Hx |]. destruct (holds_nothing v).
  - apply listed_push; auto.
  - destruct Hx as [Hx | Hx]; [left; exact Hx | right; set_solver].
Qed.

Lemma admitted_self idle front t v L Hs : base_priority v < length L -> idle <> Some t ->
  let '(L', Hs') := admitted idle front t v L Hs in listed L' Hs' t.
Proof.
  intros Hp Hi. unfold admitted. rewrite bool_decide_false by exact Hi. destruct (holds_nothing v).
  - apply listed_push; auto.
  - right. set_solver.
Qed.

Lemma admitted_length idle front t v L Hs : length (admitted idle front t v L Hs).1 = length L.
Proof.
  unfold admitted. case_bool_decide; [reflexivity |]. destruct (holds_nothing v); [| reflexivity].
  destruct front; apply length_insert.
Qed.

Lemma made_ready_length idle t v L Hs : length (made_ready idle t v L Hs).1 = length L.
Proof.
  unfold made_ready. destruct (is_finished v); [reflexivity |]. case_bool_decide.
  - destruct (holds_nothing v); [reflexivity | apply length_insert].
  - case_bool_decide; [reflexivity | apply admitted_length].
Qed.

Lemma listed_made_ready idle t v L Hs x : base_priority v < length L ->
  listed L Hs x -> (let '(L', Hs') := made_ready idle t v L Hs in listed L' Hs' x).
Proof.
  intros Hp Hx. unfold made_ready. destruct (is_finished v); [exact Hx |]. case_bool_decide as Ht.
  - destruct (holds_nothing v); [exact Hx |]. destruct (decide (x = t)) as [-> | Hne]; [right; set_solver |].
    destruct Hx as [[q Hq] | Hx]; [| right; set_solver]. left. exists q. unfold Levels.remove.
    rewrite level_insert by exact Hp. case_decide as E; [| exact Hq]. subst q. apply list_elem_of_filter. auto.
  - case_bool_decide; [exact Hx | apply listed_admitted; assumption].
Qed.

Lemma made_ready_self idle t v L Hs : base_priority v < length L -> is_finished v = false -> idle <> Some t ->
  let '(L', Hs') := made_ready idle t v L Hs in listed L' Hs' t.
Proof.
  intros Hp Hf Hi. unfold made_ready. rewrite Hf. case_bool_decide as Ht.
  - destruct (holds_nothing v); [left; eauto | right; set_solver].
  - case_bool_decide; [right; assumption | apply admitted_self; assumption].
Qed.

(** Nobody a batch of arrivals finds filed is lost, and every live arrival is filed. *)
Lemma arrivals_listed idle h ts : (forall t v, t ∈ ts -> h !! t = Some v -> base_priority v < max_priorities) ->
  forall L Hs run, length L = max_priorities ->
  let '(L', Hs', _) := arrivals idle h ts L Hs run in
  length L' = max_priorities /\
  (forall x, listed L Hs x -> listed L' Hs' x) /\
  (forall t v, t ∈ ts -> h !! t = Some v -> is_finished v = false -> idle <> Some t -> listed L' Hs' t).
Proof.
  induction ts as [| t ts IH]; intros Hb L Hs run Hlen; cbn [arrivals].
  { split_and!; auto. intros t v Ht. inversion Ht. }
  assert (IH' : forall L Hs run, length L = max_priorities ->
    let '(L', Hs', _) := arrivals idle h ts L Hs run in
    length L' = max_priorities /\ (forall x, listed L Hs x -> listed L' Hs' x) /\
    (forall t v, t ∈ ts -> h !! t = Some v -> is_finished v = false -> idle <> Some t -> listed L' Hs' t))
    by (apply IH; intros x v Hx; apply Hb; right; exact Hx).
  destruct (h !! t) as [v |] eqn:Hv.
  - assert (Hp : base_priority v < length L) by (rewrite Hlen; apply (Hb t v); [left | exact Hv]).
    pose proof (made_ready_length idle t v L Hs) as Hl1.
    pose proof (listed_made_ready idle t v L Hs) as Hk. pose proof (made_ready_self idle t v L Hs Hp) as Hself.
    destruct (made_ready idle t v L Hs) as [L1 Hs1]. simpl in Hl1.
    specialize (IH' L1 Hs1 (if is_finished v then run else stopped t run) ltac:(congruence)).
    destruct (arrivals _ _ _ _ _ _) as [[L2 Hs2] run2]. destruct IH' as (H1 & H2 & H3). split_and!; [exact H1 | auto |].
    intros x vx Hx Hvx Hf Hi. apply elem_of_cons in Hx as [-> | Hx]; [| eauto].
    apply H2, Hself; [congruence | exact Hi].
  - specialize (IH' L Hs run Hlen). destruct (arrivals _ _ _ _ _ _) as [[L2 Hs2] run2].
    destruct IH' as (H1 & H2 & H3). split_and!; [exact H1 | exact H2 |].
    intros x vx Hx Hvx. apply elem_of_cons in Hx as [-> | Hx]; [congruence | eauto].
Qed.

(** Fresh arrivals that hold nothing join their levels in arrival order. *)
Lemma arrivals_fifo idle h ts :
  NoDup ts ->
  (forall t, t ∈ ts -> exists v, h !! t = Some v /\ is_finished v = false /\ holds_nothing v = true /\
     base_priority v < max_priorities /\ idle <> Some t) ->
  forall L Hs run, length L = max_priorities -> (forall t, t ∈ ts -> ~ listed L Hs t) ->
  let '(L', Hs', _) := arrivals idle h ts L Hs run in
  Hs' = Hs /\
  forall p, Levels.level L' p = Levels.level L p ++ filter (fun t => base_priority <$> h !! t = Some p) ts.
Proof.
  induction ts as [| t ts IH]; intros Hnd Hts L Hs run Hlen Hnl; cbn [arrivals].
  { split; [reflexivity |]. intros p. rewrite app_nil_r. reflexivity. }
  apply NoDup_cons in Hnd as [Hnt Hnd].
  destruct (Hts t ltac:(left)) as (v & Hv & Hf & Hh & Hp & Hi). rewrite Hv.
  assert (Em : made_ready idle t v L Hs = (Levels.push_back (base_priority v) t L, Hs)).
  { unfold made_ready, admitted. rewrite Hf, Hh. pose proof (Hnl t ltac:(left)) as Hn.
    rewrite !bool_decide_false; [reflexivity | exact Hi | |]; intros Hx; apply Hn; [right | left]; eauto. }
  rewrite Em. assert (Hlen1 : length (Levels.push_back (base_priority v) t L) = max_priorities)
    by (unfold Levels.push_back; rewrite length_insert; exact Hlen).
  specialize (IH Hnd ltac:(intros x Hx; apply Hts; right; exact Hx) (Levels.push_back (base_priority v) t L) Hs
    (if is_finished v then run else stopped t run) Hlen1).
  destruct (arrivals _ _ _ _ _ _) as [[L2 Hs2] run2]. destruct IH as [-> HL].
  { intros x Hx. pose proof (listed_push false L Hs (base_priority v) t x ltac:(lia)) as E. cbn in E. rewrite E.
    intros [Hl | ->]; [| contradiction]. apply (Hnl x); [right; exact Hx | exact Hl]. }
  split; [reflexivity |]. intros p. rewrite HL. unfold Levels.push_back.
  rewrite level_insert by lia. case_decide as E.
  - subst p. rewrite filter_cons_True by (rewrite Hv; reflexivity). rewrite <- app_assoc. reflexivity.
  - rewrite filter_cons_False; [reflexivity |]. rewrite Hv. intros [= Ex]. congruence.
Qed.
End lists.

(** ** From one core's view to the kernel state *)

Section kernel_state.
Context `{Config} (cx : cpu) (c : nat) (s : kernel_state) (sc : scheduler) (L : Levels.levels)
  (Hs : list nat) (run : option nat) (I : list nat).
Context (Hinv : core_inv c s sc L Hs run I).

Lemma inv_core_lt : c < length (schedulers s).
Proof. eapply lookup_lt_Some, Hinv. Qed.

(** A core's operation, run in the state it belongs to. *)
Lemma lwp_run {A} (m : K A) Q : lwp c s m Q sc (tcbs s) (calls s) ->
  wp m (fun a s' => exists sc' h' es', s' = put c sc' h' es' s /\ Q a sc' h' es') s.
Proof. intros Hm. eapply lwp_wp; [exact inv_core_lt | apply Hinv | exact Hm]. Qed.

Lemma put_inv sc' h' es' L' Hs' run' :
  core_ok c sc' h' L' Hs' run' -> urgency_view <$> tcbs s = urgency_view <$> h' -> quiet c sc' h' ->
  core_inv c (put c sc' h' es' s) sc' L' Hs' run' [].
Proof.
  intros Hok Hv Hq. split.
  - apply put_scheduler, inv_core_lt.
  - exact Hok.
  - eapply wf_frame; [exact Hv | apply Hinv].
  - exact (proj1 (quiet_intake _ s inv_core_lt sc' h') Hq).
  - reflexivity.
Qed.

Lemma put_urg sc' h' es' x : urg (put c sc' h' es' s) h' x = urg s h' x.
Proof. reflexivity. Qed.

Lemma switch_result_outcome prev next reason sc' h' es' :
  switch_result c s sc (tcbs s) L Hs I reason prev next sc' h' ->
  switch_outcome c s sc L Hs I reason prev (put c sc' h' es' s).
Proof.
  unfold switch_result. destruct (switched _ _ _ _ _ _ _ _) as [[[r L'] Hs'] rotor'] eqn:Es.
  intros (<- & Hok & Hsr & Hbest & Ho & Hv & Hq). exists next, sc', L', Hs', rotor'.
  split_and!; [exact Es | apply put_inv; assumption | apply (sr_idle _ _ Hsr) | apply (sr_rotor _ _ Hsr) | |].
  - intros x e Hx. rewrite !put_urg. rewrite <- !(urg_view s (tcbs s) h') by exact Hv. apply (Hbest x e).
    destruct Hx as [Hx | [Hx <-]]; [left; exact Hx | right; split; [exact Hx |]].
    rewrite put_urg. apply urg_view, Hv.
  - apply put_local; [exact Hv | exact Ho].
Qed.
End kernel_state.

Section switches.
Context `{Config} (cx : cpu) (c : nat) (s : kernel_state) (sc : scheduler) (L : Levels.levels)
  (Hs : list nat) (I : list nat) (prev : nat) (v : thread_control_block).
Context (Hinv : core_inv c s sc L Hs (Some prev) I) (Hv : tcbs s !! prev = Some v).

Definition may_park (reason : departure_reason) : Prop :=
  reason = DepartureReason.parked -> disposition v = ThreadDisposition.prepared /\ idle_thread sc <> Some prev.

Lemma direct_reschedule_outcome reason : reason <> DepartureReason.exited -> may_park reason ->
  wp (Switch.direct_reschedule cx c reason) (fun _ s' => switch_outcome c s sc L Hs I reason prev s') s.
Proof.
  intros Hne Hpark. pose proof Hinv as [H1 H2 H3 H4 H5]. eapply wp_mono.
  - eapply (lwp_run c s sc L Hs (Some prev) I Hinv).
    apply (direct_reschedule_ok cx c s (inv_core_lt c s sc L Hs _ I Hinv) (tcbs s) sc L Hs (calls s) I prev v reason); assumption.
  - intros _ s' (sc' & h' & es' & -> & next & new & Hres & _).
    eapply switch_result_outcome; eassumption.
Qed.

Lemma yield_outcome : masked_from_baseline cx = true ->
  wp (Switch.yield cx c) (fun _ s' => switch_outcome c s sc L Hs I DepartureReason.yielded prev s') s.
Proof.
  intros Hb. unfold Switch.yield. apply wp_bind, wp_ensure; [exact Hb |].
  apply direct_reschedule_outcome; [discriminate | discriminate].
Qed.

Lemma park_outcome : masked_from_baseline cx = true ->
  disposition v = ThreadDisposition.prepared -> idle_thread sc <> Some prev ->
  wp (Switch.park cx c) (fun _ s' => switch_outcome c s sc L Hs I DepartureReason.parked prev s') s.
Proof.
  intros Hb Hd Hi. unfold Switch.park. apply wp_bind, wp_ensure; [exact Hb |].
  apply direct_reschedule_outcome; [discriminate |]. intros _. auto.
Qed.

Lemma running_unfinished : disposition v <> ThreadDisposition.terminating -> is_finished v = false.
Proof.
  intros Hd. unfold is_finished. rewrite (bool_decide_false (disposition v = _)) by exact Hd.
  destruct (st_run _ _ _ _ _ _ (co_status _ _ _ _ _ _ (ci_core _ _ _ _ _ _ _ Hinv)) prev eq_refl) as (v' & Hv' & _ & Hr).
  rewrite Hv in Hv'. injection Hv' as <-. rewrite Hr. reflexivity.
Qed.

(** A thread whose wake was already on the intake is not left blocked. *)
Lemma switched_woken reason u : prev ∈ I -> is_finished v = false -> idle_thread sc <> Some prev ->
  forall next L' Hs' rotor',
  switched u (idle_thread sc) (tie_rotor sc) (tcbs s) I reason prev L Hs = (Some next, L', Hs', rotor') ->
  next = prev \/ listed L' Hs' prev.
Proof.
  intros Hin Hf Hi next L' Hs' rotor'. unfold switched.
  pose proof Hinv as [_ Hok _ Hint _].
  assert (Hb : forall t w, t ∈ reverse I -> tcbs s !! t = Some w -> base_priority w < max_priorities).
  { intros t w Ht Hw. rewrite elem_of_reverse in Ht. destruct (in_claimed _ _ _ _ Hint t Ht) as (w' & Hw' & Hp & _).
    rewrite Hw in Hw'. injection Hw' as <-. eapply st_priority; [apply Hok | exact Hw | exact Hp]. }
  assert (Hin' : prev ∈ reverse I) by (apply elem_of_reverse; exact Hin).
  pose proof (arrivals_listed (idle_thread sc) (tcbs s) (reverse I) Hb L Hs (Some prev)
    (fl_levels _ _ _ _ _ (co_filed _ _ _ _ _ _ Hok))) as Hl.
  pose proof (arrivals_stopped (idle_thread sc) (tcbs s) (reverse I) prev v Hv Hf Hin' L Hs) as Hstop.
  destruct (arrivals _ _ _ _ _ _) as [[L1 Hs1] run1]. subst run1. destruct Hl as (_ & _ & Hl).
  specialize (Hl prev v Hin' Hv Hf Hi).
  unfold pick. destruct (choose u L1 Hs1 (tie_rotor sc)) as [[| t] r] eqn:Ec.
  - destruct (Levels.best L1) as [p |] eqn:Eb.
    + destruct (pop_best _ _ Eb) as (t & l & Hlp & ->). intros [= <- <- <- <-].
      destruct (decide (t = prev)) as [| Hne]; [auto | right]. destruct Hl as [[q Hq] | Hl]; [left; exists q | right; exact Hl].
      assert (Hp : p < length L1) by (apply level_nonempty_lt; rewrite Hlp; discriminate).
      rewrite level_insert by exact Hp. case_decide as E; [| exact Hq]. subst q. rewrite Hlp in Hq. set_solver.
    + rewrite (pop_none _ Eb). intros [= _ <- <- <-]. right. exact Hl.
  - intros [= <- <- <- <-]. destruct (decide (t = prev)) as [| Hne]; [auto | right].
    destruct Hl as [Hl | Hl]; [left; exact Hl | right; apply list_elem_of_filter; auto].
Qed.
End switches.

(** ** Wakes on this core *)

Section wakes.
Context `{Config} (cx : cpu) (c : nat) (s : kernel_state) (sc : scheduler) (L : Levels.levels)
  (Hs : list nat) (run : option nat) (I : list nat).
Context (Hinv : core_inv c s sc L Hs run I).

Definition request_state (v : thread_control_block) := (pinned_core v, pending_requests v, intake_next v).

Lemma intake_view sc' h h' J : request_state <$> h = request_state <$> h' -> intake_head sc' = intake_head sc ->
  intake_ok c h sc J -> intake_ok c h' sc' J.
Proof.
  intros Hv Es [H1 H2 H3]. split.
  - rewrite Es. eapply lseg_frame; [| exact H1]. intros x _. apply (view_field request_state snd). exact Hv.
  - intros t Ht. destruct (H2 t Ht) as (v & Ev & Hp & Hb).
    destruct (view_back request_state h' h t v (eq_sym Hv) Ev) as (v' & Ev' & E). injection E as E1 E2 E3.
    exists v'. split_and!; congruence.
  - intros t v' Ev' Hp Ht. destruct (view_back request_state h h' t v' Hv Ev') as (v & Ev & E). injection E as E1 E2 E3.
    rewrite <- E2. apply (H3 t v); congruence.
Qed.

(** What making [t] ready leaves of the kernel. *)
Definition ready_outcome (t : nat) (v : thread_control_block) (r : schedule_hint) (s' : kernel_state) : Prop :=
  exists sc',
    (let '(L', Hs') := made_ready (idle_thread sc) t v L Hs in
     core_inv c s' sc' L' Hs' (if is_finished v then run else stopped t run) I) /\
    same_registers sc sc' /\ local c s s' /\
    same_but_links (<[t := set_state (if is_finished v then state v else ThreadState.ready) v]> (tcbs s)) (tcbs s') /\
    r = ready_hint s sc (tcbs s) t v L Hs.

Lemma readied_outcome t v r sc' h' es' : tcbs s !! t = Some v ->
  readied c s sc (tcbs s) L Hs run t v r sc' h' -> ready_outcome t v r (put c sc' h' es' s).
Proof.
  intros Hv (Hok & Hsr & Ho & Hl & Hr). pose proof Hinv as [_ _ Hwf Hint Hone].
  assert (Hview : urgency_view <$> tcbs s = urgency_view <$> h').
  { etransitivity; [| apply links_view, Hl]. eapply view_insert; [exact Hv | reflexivity]. }
  exists sc'. split_and!; [| exact Hsr | apply put_local; assumption | exact Hl | exact Hr].
  destruct (made_ready (idle_thread sc) t v L Hs) as [L' Hs']. split.
  - apply put_scheduler. eapply inv_core_lt, Hinv.
  - exact Hok.
  - eapply wf_frame; [exact Hview | exact Hwf].
  - eapply intake_view; [| apply (sr_intake _ _ Hsr) | exact Hint].
    etransitivity; [| apply (same_links_fmap request_state); [reflexivity | exact Hl]].
    eapply view_insert; [exact Hv | reflexivity].
  - exact Hone.
Qed.

Lemma make_ready_outcome t v : tcbs s !! t = Some v -> pinned_core v = c ->
  wp (make_ready c t) (fun r s' => ready_outcome t v r s') s.
Proof.
  intros Hv Hp. eapply wp_mono.
  - eapply (lwp_run c s sc L Hs run I Hinv).
    apply (make_ready_ok c s (inv_core_lt c s sc L Hs run I Hinv) sc (tcbs s) L Hs run (calls s) t v); auto; apply Hinv.
  - intros r s' (sc' & h' & es' & -> & Hr & _). apply readied_outcome; assumption.
Qed.

(** A wake with a policy: the reschedule it warrants, when it may make it,
    follows in the same step. *)
Definition may_switch (policy : reschedule_policy) : bool :=
  negb (bool_decide (policy = ReschedulePolicy.never)) &&
  (masked_from_baseline cx || interrupted_at_baseline cx).

Lemma set_thread_ready_never_eq t :
  Switch.set_thread_ready cx c t ReschedulePolicy.never s = Switch.set_thread_ready_never cx c t s.
Proof.
  unfold Switch.set_thread_ready, Switch.set_thread_ready_never, Switch.set_thread_ready_on, kbind.
  destruct (get_scheduler c s) as [[sc0 s0] |]; [| reflexivity].
  destruct (get_tcb t s0) as [[v0 s1] |]; [| reflexivity].
  destruct (kensure _ _ s1) as [[u0 s2] |]; [| reflexivity].
  destruct (make_ready c t s2) as [[hint s3] |]; [| reflexivity].
  rewrite (bool_decide_true (ReschedulePolicy.never = _)) by reflexivity. rewrite andb_false_r. reflexivity.
Qed.
End wakes.

Section preempting_wake.
Context `{Config} (cx : cpu) (c : nat) (s : kernel_state) (sc : scheduler) (L : Levels.levels)
  (Hs : list nat) (I : list nat) (prev t : nat) (pv v : thread_control_block) (policy : reschedule_policy).
Context (Hinv : core_inv c s sc L Hs (Some prev) I) (Hpv : tcbs s !! prev = Some pv)
  (Hv : tcbs s !! t = Some v) (Hp : pinned_core v = c) (Hne : t <> prev).

Lemma interrupt_reschedule_outcome s1 sc1 L1 Hs1 I1 w :
  core_inv c s1 sc1 L1 Hs1 (Some prev) I1 -> tcbs s1 !! prev = Some w ->
  wp (Switch.interrupt_reschedule cx c) (fun _ s' => switch_outcome c s1 sc1 L1 Hs1 I1 DepartureReason.preempted prev s') s1.
Proof.
  intros Hinv1 Hw. pose proof Hinv1 as [H1 H2 H3 H4 H5]. eapply wp_mono.
  - eapply (lwp_run c s1 sc1 L1 Hs1 (Some prev) I1 Hinv1 (Switch.interrupt_reschedule cx c)
      (fun _ sc' h' es' => exists next, switch_result c s1 sc1 (tcbs s1) L1 Hs1 I1 DepartureReason.preempted prev next sc' h')).
    pose proof (inv_core_lt c s1 sc1 L1 Hs1 _ I1 Hinv1) as Hlt.
    unfold Switch.interrupt_reschedule. do 2 lwp_step. lwp_step.
    rewrite (co_run _ _ _ _ _ _ H2 prev eq_refl). lwp_step. cbn [nonnull ok]. lwp_step.
    eapply lwp_mono; [apply (decide_ok cx c s1 Hlt (tcbs s1) sc1 L1 Hs1 (calls s1) I1 prev w); auto; discriminate |].
    intros next sc' h' es' [Hres _]. destruct (next =? prev); lwp_step; eauto.
  - intros _ s' (sc' & h' & es' & -> & next & Hres). eapply switch_result_outcome; eassumption.
Qed.

(** [set_thread_ready] by a thread other than the one it wakes. *)
Lemma set_thread_ready_outcome :
  wp (Switch.set_thread_ready cx c t policy)
    (fun r s' => exists s1 sc1 L1 Hs1,
       ready_outcome c s sc L Hs (Some prev) I t v (ready_hint s sc (tcbs s) t v L Hs) s1 /\
       made_ready (idle_thread sc) t v L Hs = (L1, Hs1) /\
       core_inv c s1 sc1 L1 Hs1 (Some prev) I /\ idle_thread sc1 = idle_thread sc /\
       if bool_decide (ready_hint s sc (tcbs s) t v L Hs = ScheduleHint.warranted) && may_switch cx policy then
         r = ScheduleHint.rescheduled /\ switch_outcome c s1 sc1 L1 Hs1 I DepartureReason.preempted prev s'
       else r = ready_hint s sc (tcbs s) t v L Hs /\ s' = s1) s.
Proof.
  pose proof Hinv as [H1 H2 H3 H4 H5]. unfold Switch.set_thread_ready, Switch.set_thread_ready_on.
  apply wp_bind. eapply wp_get_scheduler; [exact H1 |]. apply wp_bind. eapply wp_get_tcb; [exact Hv |].
  apply wp_bind, wp_ensure; [apply Nat.eqb_eq; rewrite (co_id _ _ _ _ _ _ H2); exact Hp |]. apply wp_bind.
  eapply wp_mono; [apply (make_ready_outcome c s sc L Hs (Some prev) I Hinv t v Hv Hp) |].
  intros r s1 Hout. pose proof Hout as (sc1 & Hinv1 & Hsr & Hloc & Hl & ->).
  assert (Erun : (if is_finished v then Some prev else stopped t (Some prev)) = Some prev).
  { destruct (is_finished v); [reflexivity |]. unfold stopped. rewrite bool_decide_false by congruence. reflexivity. }
  rewrite Erun in Hinv1. destruct (made_ready (idle_thread sc) t v L Hs) as [L1 Hs1] eqn:Em.
  set (hint := ready_hint s sc (tcbs s) t v L Hs) in *.
  assert (Hpv1 : exists w, tcbs s1 !! prev = Some w).
  { destruct (st_run _ _ _ _ _ _ (co_status _ _ _ _ _ _ (ci_core _ _ _ _ _ _ _ Hinv1)) prev eq_refl) as (w & Hw & _). eauto. }
  destruct Hpv1 as [w Hw]. unfold may_switch.
  destruct (bool_decide (hint = ScheduleHint.warranted)) eqn:Eh; cbn [andb].
  2: { apply wp_ret. exists s1, sc1, L1, Hs1. split_and!; auto; apply Hsr. }
  destruct (negb (bool_decide (policy = ReschedulePolicy.never))); cbn [andb].
  2: { apply wp_ret. exists s1, sc1, L1, Hs1. split_and!; auto; apply Hsr. }
  destruct (masked_from_baseline cx); cbn [orb].
  - apply wp_bind. eapply wp_mono.
    + apply (direct_reschedule_outcome cx c s1 sc1 L1 Hs1 I prev w Hinv1 Hw DepartureReason.preempted); [discriminate | discriminate].
    + intros ? s2 Hout2. apply wp_ret. exists s1, sc1, L1, Hs1. split_and!; auto; apply Hsr.
  - destruct (interrupted_at_baseline cx).
    + apply wp_bind. eapply wp_mono; [apply (interrupt_reschedule_outcome s1 sc1 L1 Hs1 I w Hinv1 Hw) |].
      intros ? s2 Hout2. apply wp_ret. exists s1, sc1, L1, Hs1. split_and!; auto; apply Hsr.
    + apply wp_ret. exists s1, sc1, L1, Hs1. split_and!; auto; apply Hsr.
Qed.
End preempting_wake.

(** ** Turns *)

Section turns.
Context (u : nat -> nat).
Implicit Types (L : Levels.levels) (Hs : list nat).

(** A pick leaves every level but the one it takes from. *)
Lemma pick_level L Hs rotor t L' Hs' rotor' q : (forall x, x ∈ Hs -> u x < 255) ->
  pick u L Hs rotor = (Some t, L', Hs', rotor') ->
  Levels.level L' q = Levels.level L q \/
  (Levels.level L q = t :: Levels.level L' q /\ forall x e, competes u L Hs x e -> q <= e).
Proof.
  intros Hu. unfold pick. destruct (choose u L Hs rotor) as [from r] eqn:Ec.
  pose proof (choose_spec u _ _ _ _ _ Hu Ec) as Hc. destruct from as [| t'].
  - destruct (Levels.best L) as [p |] eqn:Eb; [| rewrite (pop_none _ Eb); discriminate].
    destruct (pop_best _ _ Eb) as (t' & l & Hl & ->). intros [= -> <- <- <-].
    assert (Hp : p < length L) by (apply level_nonempty_lt; rewrite Hl; discriminate).
    rewrite level_insert by exact Hp. case_decide as E; [| auto]. subst q. right. split; [exact Hl |].
    intros x e Hx. destruct (Hc x e Hx) as (p' & E & Hle). congruence.
  - intros [= _ <- <- <-]. auto.
Qed.

(** A thread filed in front, and something more urgent to run: its turn is next. *)
Lemma pushed_front_keeps_turn L Hs rotor p prev t L' Hs' rotor' x e : (forall x, x ∈ Hs -> u x < 255) ->
  p < length L -> pick u (Levels.push_front p prev L) Hs rotor = (Some t, L', Hs', rotor') ->
  competes u (Levels.push_front p prev L) Hs x e -> e < p -> head (Levels.level L' p) = Some prev.
Proof.
  intros Hu Hp Hpick Hx He. destruct (pick_level _ _ _ _ _ _ _ p Hu Hpick) as [-> | [_ Hmin]].
  - unfold Levels.push_front. rewrite level_insert, decide_True by auto. reflexivity.
  - specialize (Hmin x e Hx). lia.
Qed.

(** A thread filed behind its equals is not picked before them. *)
Lemma pushed_back_rotates L Hs rotor p prev t L' Hs' rotor' : (forall x, x ∈ Hs -> u x < 255) ->
  p < length L -> Levels.level L p <> [] ->
  pick u (Levels.push_back p prev L) Hs rotor = (Some t, L', Hs', rotor') ->
  last (Levels.level L' p) = Some prev.
Proof.
  intros Hu Hp Hne Hpick. assert (E : Levels.level (Levels.push_back p prev L) p = Levels.level L p ++ [prev])
    by (unfold Levels.push_back; rewrite level_insert, decide_True by auto; reflexivity).
  destruct (pick_level _ _ _ _ _ _ _ p Hu Hpick) as [-> | [El _]]; rewrite E in *; [apply last_snoc |].
  destruct (Levels.level L p) as [| y l]; [contradiction |]. injection El as -> <-. apply last_snoc.
Qed.
End turns.

Section competing.
Context `{Config}.

(** A filed thread competes at its urgency or at its level. *)
Lemma ready_outcome_competes c s sc L Hs run I t v r s' L' Hs' :
  core_inv c s sc L Hs run I -> tcbs s !! t = Some v -> pinned_core v = c -> idle_thread sc <> Some t ->
  state v = ThreadState.blocked -> is_finished v = false -> ready_outcome c s sc L Hs run I t v r s' ->
  made_ready (idle_thread sc) t v L Hs = (L', Hs') ->
  competes (urg s (tcbs s)) L' Hs' t (if holds_nothing v then base_priority v else urg s (tcbs s) t) /\
  moves t v L Hs = true.
Proof.
  intros Hinv Hv Hp Hi Hb Hf _. pose proof (ci_core _ _ _ _ _ _ _ Hinv) as Hok.
  assert (Hnl : ~ listed L Hs t) by (eapply running_not_listed; [exact Hok | exact Hv | congruence]).
  assert (Hn1 : t ∉ Levels.level L (base_priority v)) by (intros Hx; apply Hnl; left; eauto).
  assert (Hn2 : t ∉ Hs) by (intros Hx; apply Hnl; right; exact Hx).
  unfold made_ready, moves. rewrite Hf, !bool_decide_false by assumption. unfold admitted.
  rewrite bool_decide_false by exact Hi. intros E. split; [| reflexivity].
  assert (Hlen : base_priority v < length L).
  { rewrite (fl_levels _ _ _ _ _ (co_filed _ _ _ _ _ _ Hok)).
    exact (st_priority _ _ _ _ _ _ (co_status _ _ _ _ _ _ Hok) t v Hv Hp). }
  destruct (holds_nothing v).
  - injection E as <- <-. left. unfold Levels.push_back. rewrite level_insert, decide_True by auto. set_solver.
  - injection E as <- <-. right. split; [set_solver | reflexivity].
Qed.

Lemma urg_holds_nothing s h t v : h !! t = Some v -> holds_nothing v = true -> urg s h t = base_priority v.
Proof.
  intros Hv Hn. unfold urg, Urgency.urgency. rewrite (deref_ok _ _ _ Hv). cbn [obind].
  unfold holds_nothing in Hn. rewrite Hn. reflexivity.
Qed.
End competing.

Section preempted.
Context `{Config}.

Lemma local_urg c s s' x : local c s s' -> urg s' (tcbs s') x = urg s (tcbs s) x.
Proof.
  intros Hl. unfold urg. rewrite (lc_nodes _ _ _ Hl), (lc_mutexes _ _ _ Hl), <- (urgency_frame _ _ (lc_urgency _ _ _ Hl)).
  reflexivity.
Qed.

(** Whoever competes still does after a pick, unless picked. *)
Lemma pick_keeps u L Hs rotor n L' Hs' rotor' x e :
  pick u L Hs rotor = (Some n, L', Hs', rotor') -> competes u L Hs x e -> x = n \/ competes u L' Hs' x e.
Proof.
  unfold pick. destruct (choose u L Hs rotor) as [[| t] r].
  - destruct (Levels.best L) as [p |] eqn:Eb; [| rewrite (pop_none _ Eb); discriminate].
    destruct (pop_best _ _ Eb) as (t & l & Hl & ->). intros [= -> <- <- <-] [Hx | Hx]; [| right; right; exact Hx].
    assert (Hp : p < length L) by (apply level_nonempty_lt; rewrite Hl; discriminate).
    destruct (decide (x = n)) as [| Hne]; [auto | right; left]. rewrite level_insert by exact Hp.
    case_decide as E; [| exact Hx]. subst e. rewrite Hl in Hx. set_solver.
  - intros [= -> <- <- <-] [Hx | [Hx Hu]]; [right; left; exact Hx |].
    destruct (decide (x = n)) as [| Hne]; [auto | right; right]. split; [| exact Hu]. apply list_elem_of_filter. auto.
Qed.

(** The lists a plain thread's departure leaves, with nothing to take in. *)
Lemma switched_plain u idle rotor h reason prev w L Hs : h !! prev = Some w -> holds_nothing w = true ->
  idle <> Some prev -> reason = DepartureReason.preempted \/ reason = DepartureReason.yielded ->
  switched u idle rotor h [] reason prev L Hs =
  let '(next, L, Hs, rotor) := pick u
    ((if bool_decide (reason = DepartureReason.preempted) then Levels.push_front else Levels.push_back)
       (base_priority w) prev L) Hs rotor in
  (match next with Some t => Some t | None => idle end, L, Hs, rotor).
Proof.
  intros Hw Hn Hi Hr. unfold switched. cbn [arrivals reverse rev_append]. rewrite Hw.
  destruct Hr as [-> | ->]; cbn [departed]; unfold admitted; rewrite bool_decide_false, Hn by exact Hi; reflexivity.
Qed.

Lemma level_bound c s sc L Hs run I t v : core_inv c s sc L Hs run I -> tcbs s !! t = Some v ->
  pinned_core v = c -> base_priority v < length L.
Proof.
  intros Hinv Hv Hp. pose proof (ci_core _ _ _ _ _ _ _ Hinv) as Hok.
  rewrite (fl_levels _ _ _ _ _ (co_filed _ _ _ _ _ _ Hok)).
  exact (st_priority _ _ _ _ _ _ (co_status _ _ _ _ _ _ Hok) t v Hv Hp).
Qed.

Lemma running_pinned c s sc L Hs prev I w : core_inv c s sc L Hs (Some prev) I -> tcbs s !! prev = Some w ->
  pinned_core w = c.
Proof.
  intros Hinv Hw. destruct (st_run _ _ _ _ _ _ (co_status _ _ _ _ _ _ (ci_core _ _ _ _ _ _ _ Hinv)) prev eq_refl) as (w' & Hw' & Hp & _).
  congruence.
Qed.

(** A filed thread is not the running one. *)
Lemma filed_not_running c s sc L Hs run I t p : core_inv c s sc L Hs run I -> t ∈ Levels.level L p -> run <> Some t.
Proof.
  intros Hinv Ht Er. pose proof (co_status _ _ _ _ _ _ (ci_core _ _ _ _ _ _ _ Hinv)) as Hst.
  destruct (st_listed _ _ _ _ _ _ Hst t) as (v & Hv & _ & Hr & _); [left; eauto |].
  destruct (st_run _ _ _ _ _ _ Hst t Er) as (v' & Hv' & _ & Hr'). congruence.
Qed.

Lemma holders_low c s sc L Hs run I : core_inv c s sc L Hs run I -> forall x, x ∈ Hs -> urg s (tcbs s) x < 255.
Proof. intros Hinv x Hx. eapply holders_urg; [apply Hinv | apply Hinv | exact Hx]. Qed.

(** Preempted for something more urgent: first at its level, and waiting. *)
Lemma preempted_outcome c s sc L Hs prev w s' t e :
  core_inv c s sc L Hs (Some prev) [] -> tcbs s !! prev = Some w -> holds_nothing w = true ->
  idle_thread sc <> Some prev -> competes (urg s (tcbs s)) L Hs t e -> e < base_priority w ->
  switch_outcome c s sc L Hs [] DepartureReason.preempted prev s' ->
  exists next sc' L' Hs', core_inv c s' sc' L' Hs' (Some next) [] /\ next <> prev /\
    (next = t \/ urg s' (tcbs s') next <= e) /\ head (Levels.level L' (base_priority w)) = Some prev.
Proof.
  intros Hinv Hw Hn Hi Hc He (next & sc' & L' & Hs' & rotor' & Esw & Hinv' & _ & _ & Hbest & Hloc).
  exists next, sc', L', Hs'. split; [exact Hinv' |].
  rewrite (switched_plain _ _ _ _ _ _ w) in Esw by auto. rewrite bool_decide_true in Esw by reflexivity.
  pose proof (level_bound _ _ _ _ _ _ _ _ _ Hinv Hw (running_pinned _ _ _ _ _ _ _ _ Hinv Hw)) as Hp.
  set (p := base_priority w) in *. pose proof (holders_low _ _ _ _ _ _ _ Hinv) as Hu.
  assert (Hc1 : competes (urg s (tcbs s)) (Levels.push_front p prev L) Hs t e).
  { destruct Hc as [Hc | Hc]; [left | right; exact Hc].
    unfold Levels.push_front. rewrite level_insert by exact Hp. case_decide; [right; subst; exact Hc | exact Hc]. }
  destruct (pick _ _ _ _) as [[[[t0 |] L2] Hs2] rot] eqn:Epick; injection Esw as Enx -> -> ->; subst.
  - pose proof (pushed_front_keeps_turn _ _ _ _ _ _ _ _ _ _ _ _ Hu Hp Epick Hc1 He) as Hhead. split_and!; [| | exact Hhead].
    + intros ->. apply head_Some_elem_of in Hhead. exact (filed_not_running _ _ _ _ _ _ _ _ _ Hinv' Hhead eq_refl).
    + destruct (pick_keeps _ _ _ _ _ _ _ _ _ _ Epick Hc1) as [-> | Hc2]; [auto | right]. apply (Hbest t e).
      destruct Hc2 as [Hc2 | [Hc2 Eu]]; [left; exact Hc2 | right; split; [exact Hc2 |]].
      rewrite (local_urg _ _ _ _ Hloc). exact Eu.
  - exfalso. destruct (pick_none _ _ _ _ _ _ _ Hu Epick) as (_ & _ & Hno). apply (Hno t).
    destruct Hc1 as [Hc1 | [Hc1 _]]; [left; eauto | right; exact Hc1].
Qed.

(** Yielding among equals: last at its level, and not the one to run. *)
Lemma yielded_outcome c s sc L Hs prev w s' :
  core_inv c s sc L Hs (Some prev) [] -> tcbs s !! prev = Some w -> holds_nothing w = true ->
  idle_thread sc <> Some prev -> Levels.level L (base_priority w) <> [] ->
  switch_outcome c s sc L Hs [] DepartureReason.yielded prev s' ->
  exists next sc' L' Hs', core_inv c s' sc' L' Hs' (Some next) [] /\ next <> prev /\
    last (Levels.level L' (base_priority w)) = Some prev.
Proof.
  intros Hinv Hw Hn Hi Hne (next & sc' & L' & Hs' & rotor' & Esw & Hinv' & _).
  exists next, sc', L', Hs'. split; [exact Hinv' |].
  rewrite (switched_plain _ _ _ _ _ _ w) in Esw by auto. rewrite bool_decide_false in Esw by discriminate.
  pose proof (level_bound _ _ _ _ _ _ _ _ _ Hinv Hw (running_pinned _ _ _ _ _ _ _ _ Hinv Hw)) as Hp.
  pose proof (holders_low _ _ _ _ _ _ _ Hinv) as Hu.
  destruct (pick _ _ _ _) as [[[[t0 |] L2] Hs2] rot] eqn:Epick; injection Esw as Enx -> -> ->; subst.
  - pose proof (pushed_back_rotates _ _ _ _ _ _ _ _ _ _ Hu Hp Hne Epick) as Hlast. split; [| exact Hlast].
    intros ->. apply last_Some_elem_of in Hlast. exact (filed_not_running _ _ _ _ _ _ _ _ _ Hinv' Hlast eq_refl).
  - exfalso. destruct (pick_none _ _ _ _ _ _ _ Hu Epick) as (_ & _ & Hno). apply (Hno prev). left.
    exists (base_priority w). unfold Levels.push_back. rewrite level_insert, decide_True by auto. set_solver.
Qed.
End preempted.
