(* ===== verification/Cores.v ===== *)
(** * The cores together

    A core's operation leaves every other core as it was, and a core reaches
    another through its intake only: [core_inv] of each core is kept by what
    the others do.  A wake from anywhere ends on the thread's intake or leaves
    it awake ([arrives]), its wait called off for good ([settled]). *)

From S2P Require Import Prelude Chain State ReadyQueue ReadyQueueProofs WaitQueue WaitQueueProofs Urgency UrgencyProofs Scheduler SchedulerSpec Local SchedulerProofs DispatchProofs PickProofs Switch RoadProofs SwitchProofs.

Section others.
Context `{Config} (c d : nat) (h h' : heap) (Hne : d <> c) (Ho : others_kept c h h').

Lemma others_lookup t v : pinned_core v = d -> h !! t = Some v <-> h' !! t = Some v.
Proof. intros Hp. apply Ho. congruence. Qed.

Lemma others_member {A} (f : thread_control_block -> A) x : (exists v, h !! x = Some v /\ pinned_core v = d) ->
  f <$> h' !! x = f <$> h !! x.
Proof. intros (v & Hv & Hp). rewrite (proj1 (others_lookup x v Hp) Hv), Hv. reflexivity. Qed.

Lemma tailed_other (link : thread_control_block -> option nat) hd tl l :
  (forall x, x ∈ l -> exists v, h !! x = Some v /\ pinned_core v = d) ->
  tailed link h hd tl l -> tailed link h' hd tl l.
Proof. intros Hl. apply tailed_frame. intros x Hx. apply others_member, Hl, Hx. Qed.

Lemma core_ok_other sc L Hs run : core_ok d sc h L Hs run -> core_ok d sc h' L Hs run.
Proof.
  intros [Hid Hf Hst Hcur Hrun].
  assert (Hpin : forall t, listed L Hs t -> exists v, h !! t = Some v /\ pinned_core v = d).
  { intros t Ht. destruct (st_listed _ _ _ _ _ _ Hst t Ht) as (v & Hv & Hp & _). eauto. }
  assert (Hfwd : forall (P : thread_control_block -> Prop) t, (exists v, h !! t = Some v /\ pinned_core v = d /\ P v) ->
    exists v, h' !! t = Some v /\ pinned_core v = d /\ P v).
  { intros P t (v & Hv & Hp & HP). exists v. split; [apply others_lookup; assumption | auto]. }
  destruct Hf as [Hm Hlen Hh He Hl]. destruct Hst as [S1 S2 S3 S4 S5 S6 S7]. split; [exact Hid | | | |].
  - split; [| exact Hlen | eapply tailed_other; [| exact Hh]; intros x Hx; apply Hpin; right; exact Hx | |];
      try (intros t v Hv Hp; apply others_lookup in Hv; eauto; fail).
    destruct Hm as [M1 M2 M3 M4]. split; [| exact M2 | exact M3 |].
    + apply Forall2_same_length_lookup_2; [eapply Forall2_length, M1 |]. intros i q l Hq Hi.
      eapply tailed_other; [| exact (Forall2_lookup_lr _ _ _ _ _ _ M1 Hq Hi)].
      intros x Hx. apply Hpin. left. exists i. unfold Levels.level. rewrite Hi. exact Hx.
    + intros p t Ht. destruct (M4 p t Ht) as (v & Hv & Hb). destruct (Hpin t) as (v' & Hv' & Hp); [left; eauto |].
      exists v. split; [apply others_lookup; congruence | exact Hb].
  - split; auto; try (intros t v Hv Hp; apply others_lookup in Hv; eauto; fail).
    destruct S6 as (i & v & Hi & Hv & Hp & Hrest). exists i, v. split_and!; auto; [apply others_lookup; assumption | apply Hrest | apply Hrest].
  - intros t Ht. destruct (Hcur t Ht) as (v & Hv & Hp). exists v. split; [apply others_lookup; assumption | exact Hp].
  - exact Hrun.
Qed.

Lemma intake_ok_other sc I : intake_ok d h sc I -> intake_ok d h' sc I.
Proof.
  intros [H1 H2 H3]. split.
  - eapply lseg_frame; [| exact H1]. intros x Hx. destruct (H2 x Hx) as (v & Hv & Hp & _). apply others_member. eauto.
  - intros t Ht. destruct (H2 t Ht) as (v & Hv & Hp & Hb). exists v. split; [apply others_lookup; assumption | auto].
  - intros t v Hv Hp. apply (H3 t v); [apply others_lookup; assumption | exact Hp].
Qed.
End others.

Section cores.
Context `{Config}.

(** What one core does on its own is nothing to the others. *)
Lemma core_inv_other c d s s' sc L Hs run I : local c s s' -> d <> c ->
  core_inv d s sc L Hs run I -> core_inv d s' sc L Hs run I.
Proof.
  intros Hl Hne [H1 H2 H3 H4 H5]. split.
  - rewrite (lc_schedulers _ _ _ Hl) by exact Hne. exact H1.
  - eapply core_ok_other; [exact Hne | apply Hl | exact H2].
  - rewrite (lc_nodes _ _ _ Hl), (lc_mutexes _ _ _ Hl). eapply wf_frame; [apply Hl | exact H3].
  - eapply intake_ok_other; [exact Hne | apply Hl | exact H4].
  - exact H5.
Qed.

(** Every core of the kernel, between two operations. *)
Definition kernel_inv (s : kernel_state) : Prop :=
  length (schedulers s) = cores /\
  forall d, d < cores -> exists sc L Hs run I, core_inv d s sc L Hs run I.

Lemma kernel_inv_local c s s' sc L Hs run I : kernel_inv s -> local c s s' ->
  core_inv c s' sc L Hs run I -> kernel_inv s'.
Proof.
  intros [Hlen Hall] Hl Hc. split; [rewrite (lc_cores _ _ _ Hl); exact Hlen |]. intros d Hd.
  destruct (decide (d = c)) as [-> | Hne]; [eauto 6 |].
  destruct (Hall d Hd) as (sc' & L' & Hs' & run' & I' & Hinv). exists sc', L', Hs', run', I'.
  eapply core_inv_other; eassumption.
Qed.

Lemma inv_schedulers_lt c s sc L Hs run I : core_inv c s sc L Hs run I -> c < length (schedulers s).
Proof. intros Hinv. eapply lookup_lt_Some, Hinv. Qed.

(** ** Reaching another core *)

Section post.
Context (cx : cpu) (c : nat) (s : kernel_state) (sc : scheduler) (L : Levels.levels) (Hs : list nat)
  (run : option nat) (I : list nat) (t : nat) (v : thread_control_block).
Context (Hinv : core_inv c s sc L Hs run I) (Hv : tcbs s !! t = Some v) (Hp : pinned_core v = c).

Lemma request_outstanding : (pending_requests v =? 0)%Z = negb (bool_decide (t ∈ I)).
Proof.
  pose proof (ci_intake _ _ _ _ _ _ _ Hinv) as [_ H2 H3]. case_bool_decide as Ht.
  - destruct (H2 t Ht) as (v' & Hv' & _ & Hb). assert (v' = v) as -> by congruence. rewrite Hb. reflexivity.
  - rewrite (H3 t v Hv Hp Ht). reflexivity.
Qed.

Lemma request_value : pending_requests v = if bool_decide (t ∈ I) then request_bit ThreadRequest.make_ready else 0%Z.
Proof.
  pose proof (ci_intake _ _ _ _ _ _ _ Hinv) as [_ H2 H3]. case_bool_decide as Ht; [| exact (H3 t v Hv Hp Ht)].
  destruct (H2 t Ht) as (v' & Hv' & _ & Hb). congruence.
Qed.

(** The intake after [t]'s wake is posted, and the doorbell it takes. *)
Definition posted : list nat := if bool_decide (t ∈ I) then I else t :: I.
Definition doorbell : list port_call :=
  if bool_decide (I = []) then [port_send_reschedule_ipi (this_core cx) c] else [].

Definition post_view (v : thread_control_block) := (core_view v, urgency_view v, (pinned_core v, disposition v, (wait_record v, thread_id v))).

Lemma post_core h' sc' : post_view <$> tcbs s = post_view <$> h' -> ready_matrix sc' = ready_matrix sc ->
  holders_head sc' = holders_head sc -> holders_tail sc' = holders_tail sc -> core_id sc' = core_id sc ->
  current_thread sc' = current_thread sc -> idle_thread sc' = idle_thread sc ->
  core_ok c sc' h' L Hs run.
Proof.
  intros Hview E1 E2 E3 E4 E5 E6. eapply core_ok_registers; [exact E4 | exact E1 | exact E2 | exact E3 | exact E6 | exact E5 |].
  eapply core_ok_view; [| apply Hinv].
  exact (view_weaken post_view (fun p => p.1.1) _ _ Hview).
Qed.

Lemma post_intake_ok : 1 < cores ->
  wp (Switch.post_intake cx c t ThreadRequest.make_ready)
    (fun _ s' => exists sc', core_inv c s' sc' L Hs run posted /\ local c s s' /\
       same_registers (set_intake_head (intake_head sc') sc) sc' /\
       calls s' = (if bool_decide (t ∈ I) then [] else doorbell) ++ calls s /\
       (exists w, tcbs s' = <[t := w]> (tcbs s)) /\ post_view <$> tcbs s = post_view <$> tcbs s') s.
Proof.
  intros Hmany. pose proof (inv_schedulers_lt _ _ _ _ _ _ _ Hinv) as Hc.
  pose proof (ci_intake _ _ _ _ _ _ _ Hinv) as Hint. pose proof Hint as [Hch Hcl Hfr].
  eapply wp_mono; [eapply (lwp_run c s sc L Hs run I Hinv (Switch.post_intake cx c t ThreadRequest.make_ready)
    (fun _ sc' h' es' => es' = (if bool_decide (t ∈ I) then [] else doorbell) ++ calls s /\
       intake_ok c h' sc' posted /\ post_view <$> tcbs s = post_view <$> h' /\ others_kept c (tcbs s) h' /\
       (exists w, h' = <[t := w]> (tcbs s)) /\ exists p, sc' = set_intake_head p sc)) |].
  - unfold Switch.post_intake. lwp_step. eapply lwp_get_tcb; [exact Hv |].
    lwp_step. eapply lwp_modify_tcb; [exact Hv |]. rewrite request_outstanding, negb_involutive.
    rewrite request_value. unfold posted. destruct (bool_decide (t ∈ I)) eqn:Ein.
    + lwp_step. apply bool_decide_eq_true in Ein. assert (Eb : u8 (Z.lor (request_bit ThreadRequest.make_ready) (request_bit ThreadRequest.make_ready))
        = pending_requests v) by (rewrite request_value, bool_decide_true by exact Ein; reflexivity).
      rewrite Eb. assert (Eid : <[t := set_pending_requests (pending_requests v) v]> (tcbs s) = tcbs s)
        by (apply insert_id; rewrite Hv; destruct v; reflexivity).
      rewrite Eid. split_and!; auto; [reflexivity | exists v; symmetry; apply insert_id, Hv |]. exists (intake_head sc). destruct sc; reflexivity.
    + apply bool_decide_eq_false in Ein. set (h1 := <[t := _]> (tcbs s)).
      unfold Switch.push_intake. lwp_step.
      lwp_step. eapply lwp_modify_tcb; [apply lookup_insert_eq |]. do 2 lwp_step. lwp_step. lwp_step.
      lwp_step. eapply lwp_modify_tcb; [apply lookup_insert_eq |]. lwp_step.
      unfold h1. rewrite !insert_insert_eq. clear h1. set (v' := set_intake_next (intake_head sc) _).
      assert (Hend : forall es', es' = doorbell ++ calls s ->
        es' = doorbell ++ calls s /\
        intake_ok c (<[t := v']> (tcbs s)) (set_intake_head (Some t) sc) (t :: I) /\
        post_view <$> tcbs s = post_view <$> <[t := v']> (tcbs s) /\ others_kept c (tcbs s) (<[t := v']> (tcbs s)) /\
        (exists w, <[t := v']> (tcbs s) = <[t := w]> (tcbs s)) /\ exists p, set_intake_head (Some t) sc = set_intake_head p sc).
      { intros es' ->. split_and!; [reflexivity | | eapply view_insert; [exact Hv | reflexivity] | | eauto | eauto].
        - split.
          + split; [reflexivity |]. exists v'. rewrite lookup_insert_eq. split; [reflexivity |]. apply lseg_insert_ne; [exact Ein | exact Hch].
          + intros x Hx. destruct (decide (x = t)) as [-> | Hne].
            * exists v'. rewrite lookup_insert_eq. split_and!; [reflexivity | exact Hp | reflexivity].
            * apply elem_of_cons in Hx as [-> | Hx]; [contradiction |]. rewrite lookup_insert_ne by congruence. apply Hcl, Hx.
          + intros x vx Hvx Hpx Hx. apply not_elem_of_cons in Hx as [Hne Hx]. rewrite lookup_insert_ne in Hvx by congruence.
            apply (Hfr x vx); assumption.
        - apply (others_insert c (tcbs s) t v v'); assumption. }
      assert (Ei : bool_decide (intake_head sc = None) = bool_decide (I = [])).
      { apply bool_decide_ext. pose proof (chain_head _ _ _ _ Hch) as Hh. rewrite Hh. destruct I; simpl; split; discriminate || auto. }
      rewrite Ei. unfold doorbell in *. destruct (bool_decide (I = [])).
      * do 2 lwp_step. lwp_step. cbn [core_id set_intake_head]. rewrite (co_id _ _ _ _ _ _ (ci_core _ _ _ _ _ _ _ Hinv)).
        apply Hend. reflexivity.
      * lwp_step. apply Hend. reflexivity.
  - intros ? s' (sc' & h' & es' & -> & Ees & Hint' & Hview & Ho & Hw & p & Esc). exists sc'.
    assert (Huv : urgency_view <$> tcbs s = urgency_view <$> h') by (exact (view_weaken post_view (fun p => p.1.2) _ _ Hview)).
    split_and!; [| apply put_local; assumption | subst sc'; split; reflexivity | exact Ees | exact Hw | exact Hview].
    split; [apply put_scheduler, Hc | | eapply wf_frame; [exact Huv | apply Hinv] | exact Hint' | lia].
    apply post_core; [exact Hview | subst sc'; reflexivity ..].
Qed.
End post.
End cores.

(** ** Waking a thread from anywhere *)

Section keeps.
Context `{Config}.

Lemma pick_keeps_listed u L Hs rotor r L' Hs' rotor' x : pick u L Hs rotor = (r, L', Hs', rotor') ->
  listed L Hs x -> r = Some x \/ listed L' Hs' x.
Proof.
  intros Hpick Hx. destruct r as [n |].
  - assert (Hc : exists e, competes u L Hs x e).
    { destruct Hx as [[p Hx] | Hx]; [exists p; left; exact Hx | exists (u x); right; auto]. }
    destruct Hc as [e Hc]. destruct (pick_keeps _ _ _ _ _ _ _ _ _ _ Hpick Hc) as [-> | [Hl | [Hl _]]]; [auto | right; left; eauto | right; right; exact Hl].
  - right. unfold pick in Hpick. destruct (choose u L Hs rotor) as [[| t] r]; [| discriminate].
    destruct (Levels.pop L) as [[t L1] |]; [discriminate |]. injection Hpick as <- <- _. exact Hx.
Qed.

(** A switch drops nobody: a thread filed before is filed after, or runs. *)
Lemma switched_keeps c s sc L Hs prev I u reason next L' Hs' rotor' x :
  core_inv c s sc L Hs (Some prev) I -> listed L Hs x ->
  switched u (idle_thread sc) (tie_rotor sc) (tcbs s) I reason prev L Hs = (Some next, L', Hs', rotor') ->
  next = x \/ listed L' Hs' x.
Proof.
  intros Hinv Hx. pose proof Hinv as [_ Hok _ Hint _]. unfold switched.
  assert (Hb : forall t w, t ∈ reverse I -> tcbs s !! t = Some w -> base_priority w < max_priorities).
  { intros t w Ht Hw. rewrite elem_of_reverse in Ht. destruct (in_claimed _ _ _ _ Hint t Ht) as (w' & Hw' & Hp & _).
    assert (w' = w) as -> by congruence. eapply st_priority; [apply Hok | exact Hw | exact Hp]. }
  pose proof (arrivals_listed (idle_thread sc) (tcbs s) (reverse I) Hb L Hs (Some prev)
    (fl_levels _ _ _ _ _ (co_filed _ _ _ _ _ _ Hok))) as Hl.
  destruct (arrivals _ _ _ _ _ _) as [[L1 Hs1] run1]. destruct Hl as (Hlen & Hk & _). specialize (Hk x Hx).
  destruct (match run1 with Some _ => _ | None => _ end) as [L2 Hs2] eqn:E2.
  assert (Hx2 : listed L2 Hs2 x).
  { destruct run1; [| congruence]. destruct (tcbs s !! prev) as [v |] eqn:Hv; [| congruence].
    assert (Hp : base_priority v < length L1).
    { rewrite Hlen. eapply st_priority; [apply Hok | exact Hv | exact (running_pinned _ _ _ _ _ _ _ _ Hinv Hv)]. }
    destruct reason; cbn [departed] in E2.
    - pose proof (listed_admitted (idle_thread sc) false prev v L1 Hs1 x Hp Hk) as Ha. rewrite E2 in Ha. exact Ha.
    - pose proof (listed_admitted (idle_thread sc) true prev v L1 Hs1 x Hp Hk) as Ha. rewrite E2 in Ha. exact Ha.
    - congruence.
    - congruence. }
  destruct (pick u L2 Hs2 (tie_rotor sc)) as [[[r L3] Hs3] rotor3] eqn:Ep. intros E. injection E as E -> -> ->.
  destruct (pick_keeps_listed _ _ _ _ _ _ _ _ x Ep Hx2) as [-> | Hl]; [left; congruence | auto].
Qed.

(** A disposition is not the scheduler's business until a switch. *)
Lemma set_disposition_inv c s sc L Hs run I t v d : core_inv c s sc L Hs run I -> tcbs s !! t = Some v ->
  core_inv c (set_tcbs (<[t := set_disposition d v]> (tcbs s)) s) sc L Hs run I.
Proof.
  intros [H1 H2 H3 H4 H5] Hv.
  assert (Hw : forall A (f : thread_control_block -> A), f (set_disposition d v) = f v -> f <$> tcbs s = f <$> <[t := set_disposition d v]> (tcbs s))
    by (intros A f E; eapply view_insert; [exact Hv | exact E]).
  split; [exact H1 | eapply core_ok_view; [apply Hw; reflexivity | exact H2] | eapply wf_frame; [apply Hw; reflexivity | exact H3]
    | eapply intake_view; [apply Hw; reflexivity | reflexivity | exact H4] | exact H5].
Qed.
End keeps.

(** ** A wait called off stays called off

    A thread whose disposition is [none] has no wait under way: whatever a
    switch does, to it or to others, it will not park. *)

Definition settled (t : nat) (s : kernel_state) : Prop := disposition <$> tcbs s !! t = Some ThreadDisposition.none.

(** [m] parks nobody who is settled. *)
Definition settles {A} (t : nat) (m : K A) : Prop :=
  forall s, settled t s -> match m s with Ok (_, s') => settled t s' | Panic _ => True end.

(** A ready structure's operation leaves dispositions alone. *)
Definition unmoved {A} (h : heap) (m : outcome (A * heap)) : Prop :=
  match m with Ok (_, h') => disposition <$> h' = disposition <$> h | Panic _ => True end.

Section settled.
Context `{Config} (t : nat).

Lemma settles_bind {A B} (m : K A) (k : A -> K B) : settles t m -> (forall a, settles t (k a)) -> settles t (kbind m k).
Proof. intros Hm Hk s Hs. unfold kbind. specialize (Hm s Hs). destruct (m s) as [[a s'] |]; [exact (Hk a s' Hm) | exact I]. Qed.

Lemma settles_ret {A} (a : A) : settles t (kret a).
Proof. intros s Hs. exact Hs. Qed.

Lemma settles_lift {A} (m : outcome A) : settles t (klift m).
Proof. intros s Hs. unfold klift. destruct m; [exact Hs | exact I]. Qed.

Lemma settles_get {A} (f : kernel_state -> A) : settles t (kget f).
Proof. intros s Hs. exact Hs. Qed.

Lemma settles_ensure e b : settles t (kensure e b).
Proof. intros s Hs. unfold kensure. destruct b; [exact Hs | exact I]. Qed.

Lemma settles_modify f : (forall s, tcbs (f s) = tcbs s) -> settles t (kmodify f).
Proof. intros Hf s Hs. unfold kmodify, settled. rewrite Hf. exact Hs. Qed.

Lemma settles_get_tcb x : settles t (get_tcb x).
Proof. intros s Hs. unfold get_tcb. destruct (tcbs s !! x); [exact Hs | exact I]. Qed.

Lemma settles_get_node x : settles t (get_node x).
Proof. intros s Hs. unfold get_node. destruct (nodes s !! x); [exact Hs | exact I]. Qed.

Lemma settles_modify_node x f : settles t (modify_node x f).
Proof. intros s Hs. unfold modify_node. destruct (nodes s !! x); [exact Hs | exact I]. Qed.

Lemma settles_get_signal x : settles t (get_signal x).
Proof. intros s Hs. unfold get_signal. destruct (signals s !! x); [exact Hs | exact I]. Qed.

Lemma settles_modify_signal x f : settles t (modify_signal x f).
Proof. intros s Hs. unfold modify_signal. destruct (signals s !! x); [exact Hs | exact I]. Qed.

Lemma settles_get_scheduler c : settles t (get_scheduler c).
Proof. intros s Hs. unfold get_scheduler. destruct (schedulers s !! c); [exact Hs | exact I]. Qed.

Lemma settles_modify_scheduler c f : settles t (modify_scheduler c f).
Proof. intros s Hs. unfold modify_scheduler. destruct (schedulers s !! c); [exact Hs | exact I]. Qed.

Lemma settles_modify_tcb x f : (forall v, disposition v = ThreadDisposition.none -> disposition (f v) = ThreadDisposition.none) ->
  settles t (modify_tcb x f).
Proof.
  intros Hf s Hs. unfold modify_tcb. destruct (tcbs s !! x) as [v |] eqn:Hv; [| exact I]. unfold settled in *. cbn.
  destruct (decide (t = x)) as [<- | Hx]; [| rewrite lookup_insert_ne by congruence; exact Hs].
  rewrite Hv in Hs. rewrite lookup_insert_eq. cbn in *. f_equal. apply Hf. congruence.
Qed.

Lemma unmoved_store h x f : (forall v, disposition (f v) = disposition v) ->
  match store x f h with Ok h' => disposition <$> h' = disposition <$> h | Panic _ => True end.
Proof.
  intros Hf. unfold store. destruct (h !! x) as [v |] eqn:Hv; [| exact I]. rewrite fmap_insert, Hf.
  apply insert_id. rewrite lookup_fmap, Hv. reflexivity.
Qed.

Lemma settled_heap h s : disposition <$> h = disposition <$> tcbs s -> settled t s -> settled t (set_tcbs h s).
Proof. intros E Hs. unfold settled in *. cbn. rewrite <- lookup_fmap, E, lookup_fmap. exact Hs. Qed.

Lemma settles_on_matrix c f : (forall m h, unmoved h (f m h)) -> settles t (on_matrix c f).
Proof.
  intros Hf. apply settles_bind; [apply settles_get_scheduler | intros sc]. intros s Hs. unfold kbind at 1, kget, kbind at 1, klift.
  specialize (Hf (ready_matrix sc) (tcbs s)). destruct (f _ _) as [[m h] |]; [| exact I].
  apply (settles_modify_scheduler c). apply settled_heap; [exact Hf | exact Hs].
Qed.
End settled.

(** Through the operations of the queues, one store at a time. *)
Ltac unmoved_step :=
  lazymatch goal with
  | |- unmoved _ (obind (deref ?h ?x) _) => destruct (deref h x); cbn [obind]; [| exact I]
  | |- unmoved _ (obind (ensure ?c ?b) _) => destruct (ensure c b); cbn [obind]; [| exact I]
  | |- unmoved _ (obind (store ?x ?f ?h) _) =>
      let E := fresh "E" in pose proof (unmoved_store h x f (fun _ => eq_refl)) as E; destruct (store x f h); cbn [obind]; [| exact I]
  | |- unmoved _ (obind (obind (store ?x ?f ?h) _) _) =>
      let E := fresh "E" in pose proof (unmoved_store h x f (fun _ => eq_refl)) as E; destruct (store x f h); cbn [obind]; [| exact I]
  | |- unmoved _ (match ?x with _ => _ end) => destruct x
  | |- unmoved _ (obind (match ?x with _ => _ end) _) => destruct x; cbn [obind]
  | |- unmoved _ (Ok _) => cbn; congruence
  | |- unmoved _ (Panic _) => exact I
  end.

Section queues.
Context `{Config}.

Lemma unmoved_bind {A B} h (m : outcome (A * heap)) (k : A * heap -> outcome (B * heap)) :
  unmoved h m -> (forall a h', unmoved h' (k (a, h'))) -> unmoved h (obind m k).
Proof.
  intros Hm Hk. destruct m as [[a h'] |]; [| exact I]. cbn in *. specialize (Hk a h'). unfold unmoved in *.
  destruct (k (a, h')) as [[b h2] |]; [congruence | exact I].
Qed.

Lemma push_back_unmoved t q h : unmoved h (ReadyQueue.push_back t q h).
Proof. unfold ReadyQueue.push_back. repeat unmoved_step. Qed.

Lemma push_front_unmoved t q h : unmoved h (ReadyQueue.push_front t q h).
Proof. unfold ReadyQueue.push_front. repeat unmoved_step. Qed.

Lemma pop_front_unmoved q h : unmoved h (ReadyQueue.pop_front q h).
Proof. unfold ReadyQueue.pop_front. repeat unmoved_step. Qed.

Lemma remove_from_unmoved fuel t : forall prev cur q h, unmoved h (ReadyQueue.remove_from fuel t prev cur q h).
Proof.
  induction fuel as [| fuel IH]; intros prev [c |] q h; cbn [ReadyQueue.remove_from]; try reflexivity; try exact I.
  unmoved_step. destruct (negb _); [apply IH |]. repeat unmoved_step.
Qed.

Lemma queue_at_unmoved {A} m p h (k : thread_ready_queue -> outcome (A * heap)) :
  (forall q, unmoved h (k q)) -> unmoved h (obind (ReadyMatrix.queue_at m p) k).
Proof. intros Hk. destruct (ReadyMatrix.queue_at m p); [apply Hk | exact I]. Qed.

Lemma enqueue_unmoved t m h : unmoved h (ReadyMatrix.enqueue_thread t m h).
Proof.
  unfold ReadyMatrix.enqueue_thread. do 3 unmoved_step. apply queue_at_unmoved. intros q.
  apply unmoved_bind; [apply push_back_unmoved | reflexivity].
Qed.

Lemma enqueue_front_unmoved t m h : unmoved h (ReadyMatrix.enqueue_thread_front t m h).
Proof.
  unfold ReadyMatrix.enqueue_thread_front. do 3 unmoved_step. apply queue_at_unmoved. intros q.
  apply unmoved_bind; [apply push_front_unmoved | reflexivity].
Qed.

Lemma pop_best_unmoved m h : unmoved h (ReadyMatrix.pop_best_thread m h).
Proof.
  unfold ReadyMatrix.pop_best_thread. unmoved_step; [reflexivity |]. apply queue_at_unmoved. intros q.
  apply unmoved_bind; [apply pop_front_unmoved | intros [? ?] ?; reflexivity].
Qed.

Lemma remove_thread_unmoved t m h : unmoved h (ReadyMatrix.remove_thread t m h).
Proof.
  unfold ReadyMatrix.remove_thread. do 2 unmoved_step. apply queue_at_unmoved. intros q.
  apply unmoved_bind; [apply remove_from_unmoved | intros [b ?] ?; destruct b; reflexivity].
Qed.
End queues.

Create HintDb settled.
#[export] Hint Resolve settles_ret settles_lift settles_get settles_ensure settles_get_tcb settles_get_node settles_modify_node
  settles_get_signal settles_modify_signal settles_get_scheduler settles_modify_scheduler settles_on_matrix
  enqueue_unmoved enqueue_front_unmoved remove_thread_unmoved : settled.

(** One step of a program that settles. *)
Ltac settles :=
  repeat first
    [ solve [eauto 2 with settled]
    | lazymatch goal with
      | |- settles _ (kbind _ _) => apply settles_bind; [| intros]
      | |- settles _ (modify_tcb _ _) => apply settles_modify_tcb; intros; first [assumption | reflexivity]
      | |- settles _ (emit _) => apply settles_modify; reflexivity
      | |- settles _ (kmodify _) => apply settles_modify; reflexivity
      | |- settles _ (match ?x with _ => _ end) => destruct x
      end ].

Section roads.
Context `{Config} (cx : cpu) (c t : nat).

Lemma link_holder_settles x : settles t (link_holder c x).
Proof. unfold link_holder. settles. Qed.

Lemma admit_thread_settles x front : settles t (admit_thread c x front).
Proof. unfold admit_thread. settles. apply link_holder_settles. Qed.

Lemma hint_for_settles x : settles t (hint_for c x).
Proof. unfold hint_for, current_thread_urgency, urgency. settles. Qed.
#[local] Hint Resolve link_holder_settles admit_thread_settles hint_for_settles : settled.

Lemma make_ready_settles x : settles t (make_ready c x).
Proof. unfold make_ready. settles. Qed.
#[local] Hint Resolve make_ready_settles : settled.

Lemma set_thread_ready_on_settles direct interrupt x policy : settles t direct -> settles t interrupt ->
  settles t (Switch.set_thread_ready_on cx direct interrupt c x policy).
Proof. intros. unfold Switch.set_thread_ready_on. settles. Qed.

Lemma set_thread_ready_never_settles x : settles t (Switch.set_thread_ready_never cx c x).
Proof. apply set_thread_ready_on_settles; apply settles_lift. Qed.
#[local] Hint Resolve set_thread_ready_never_settles : settled.

Lemma service_intake_settles x bits : settles t (Switch.service_intake cx c x bits).
Proof. unfold Switch.service_intake. settles. Qed.

Lemma restore_arrival_settles fuel : forall node fifo, settles t (Switch.restore_arrival fuel node fifo).
Proof. induction fuel as [| fuel IH]; intros [n |] fifo; cbn [Switch.restore_arrival]; unfold Switch.await_intake_link; settles. Qed.

Lemma service_all_settles fuel : forall fifo, settles t (Switch.service_all cx fuel c fifo).
Proof. induction fuel as [| fuel IH]; intros [n |]; cbn [Switch.service_all]; settles. apply service_intake_settles. Qed.

Lemma take_intake_settles : settles t (Switch.take_intake cx c).
Proof.
  unfold Switch.take_intake, Switch.intake_pending, Switch.drain_intake. settles; [apply restore_arrival_settles | apply service_all_settles].
Qed.

Lemma pop_best_thread_settles : settles t (pop_best_thread c).
Proof.
  unfold pop_best_thread. apply settles_bind; [apply settles_get_scheduler | intros sc]. intros s Hs. unfold kbind at 1, kget, kbind at 1, klift.
  pose proof (pop_best_unmoved (ready_matrix sc) (tcbs s)) as Hf. destruct (ReadyMatrix.pop_best_thread _ _) as [[[p m] h] |]; [| exact I].
  change (match (modify_scheduler c (set_ready_matrix m) ;;* kret p) (set_tcbs h s) with Ok (_, s') => settled t s' | Panic _ => True end).
  apply settles_bind; [apply settles_modify_scheduler | intros; apply settles_ret |]. apply settled_heap; [exact Hf | exact Hs].
Qed.

Lemma find_holder_settles fuel x : forall p n, settles t (find_holder fuel x p n).
Proof. induction fuel as [| fuel IH]; intros p [n |]; cbn [find_holder]; settles. Qed.

Lemma unlink_holder_settles x : settles t (unlink_holder c x).
Proof. unfold unlink_holder. settles. apply find_holder_settles. Qed.

Lemma best_holder_settles fuel : forall h b u, settles t (best_holder fuel h b u).
Proof. induction fuel as [| fuel IH]; intros [n |] b u; cbn [best_holder]; unfold urgency; settles. Qed.
#[local] Hint Resolve pop_best_thread_settles unlink_holder_settles best_holder_settles take_intake_settles : settled.

Lemma run_next_settles : settles t (run_next c).
Proof. unfold run_next, pick_next, pick_with_holders, set_thread_running. cbv zeta. settles. Qed.
#[local] Hint Resolve run_next_settles : settled.

Lemma decide_settles reason : reason <> DepartureReason.exited -> settles t (Switch.decide cx c reason).
Proof. intros Hr. unfold Switch.decide, Switch.depart, set_thread_blocked. settles. contradiction. Qed.

Lemma direct_reschedule_settles reason : reason <> DepartureReason.exited -> settles t (Switch.direct_reschedule cx c reason).
Proof. intros Hr. unfold Switch.direct_reschedule. settles. apply decide_settles, Hr. Qed.

Lemma interrupt_reschedule_settles : settles t (Switch.interrupt_reschedule cx c).
Proof. unfold Switch.interrupt_reschedule. settles. apply decide_settles. discriminate. Qed.

(** A local wake ends with its thread settled. *)
Lemma set_thread_ready_settles x policy : settles t (Switch.set_thread_ready cx c x policy).
Proof. apply set_thread_ready_on_settles; [apply direct_reschedule_settles; discriminate | apply interrupt_reschedule_settles]. Qed.
End roads.

Section wake.
Context `{Config}.

#[export] Instance local_preorder c : PreOrder (local c).
Proof.
  split.
  - intros s. split; reflexivity.
  - intros s1 s2 s3 [] []. split; try congruence; [etransitivity; eassumption |].
    intros d Hd. rewrite lc_schedulers0 by exact Hd. auto.
Qed.

Lemma local_block c s t v w : tcbs s !! t = Some v -> pinned_core v = c -> pinned_core w = c ->
  urgency_view w = urgency_view v -> local c s (set_tcbs (<[t := w]> (tcbs s)) s).
Proof.
  intros Hv Hp Hp' Hu. split; try reflexivity; [eapply view_insert; eassumption | eapply others_insert; eassumption].
Qed.

(** A wake has arrived when its request is on its thread's own intake, or when
    its thread, with no wait under way any more, runs or is ready: a thread
    that only runs, or is only ready, may still be on its way to park. *)
Definition arrived (v : thread_control_block) : Prop :=
  pending_requests v = request_bit ThreadRequest.make_ready \/
  (disposition v = ThreadDisposition.none /\ (state v = ThreadState.running \/ state v = ThreadState.ready)).
Definition delivered (t : nat) (s : kernel_state) : Prop := exists v, tcbs s !! t = Some v /\ arrived v.

(** [t] waits for nothing, and core [c] runs it, has it filed, or has it for
    its idle thread. *)
Definition awake_on (c : nat) (t : nat) (s : kernel_state) : Prop :=
  settled t s /\ exists sc L Hs run I, core_inv c s sc L Hs run I /\
    (run = Some t \/ listed L Hs t \/ idle_thread sc = Some t).

Lemma awake_delivered c s t : awake_on c t s -> delivered t s.
Proof.
  intros [Hd (sc & L & Hs & run & I & Hinv & Hw)]. pose proof (co_status _ _ _ _ _ _ (ci_core _ _ _ _ _ _ _ Hinv)) as Hst.
  unfold settled in Hd. destruct (tcbs s !! t) as [v |] eqn:Hv; [| discriminate]. injection Hd as Hd.
  exists v. split; [exact Hv | right; split; [exact Hd |]]. destruct Hw as [-> | [Hl | Hi]].
  - destruct (st_run _ _ _ _ _ _ Hst t eq_refl) as (w & Hw & _ & Hr). left. congruence.
  - destruct (st_listed _ _ _ _ _ _ Hst t Hl) as (w & Hw & _ & Hr & _). right. congruence.
  - destruct (st_idle _ _ _ _ _ _ Hst) as (i & w & Ei & Hw & _ & Hr & _). assert (i = t) as -> by congruence.
    assert (w = v) as -> by congruence. tauto.
Qed.

Lemma posted_delivered c s sc L Hs run I t : core_inv c s sc L Hs run I -> t ∈ I -> delivered t s.
Proof.
  intros Hinv Ht. destruct (in_claimed _ _ _ _ (ci_intake _ _ _ _ _ _ _ Hinv) t Ht) as (v & Hv & _ & Hb). exists v. unfold arrived. auto.
Qed.

(** A block without its links: a wake that does not switch relinks other
    threads and no more. *)
Definition unlinked (v : thread_control_block) : thread_control_block := set_intake_next None (erase_links v).
Record calm (t : nat) (s s' : kernel_state) : Prop := {
  cm_others : forall x, x <> t -> unlinked <$> tcbs s' !! x = unlinked <$> tcbs s !! x;
  cm_running : forall w, tcbs s' !! t = Some w -> state w = ThreadState.running ->
    exists v, tcbs s !! t = Some v /\ state v = ThreadState.running
}.

Lemma calm_running t s s' x w : calm t s s' -> tcbs s' !! x = Some w -> state w = ThreadState.running ->
  exists v, tcbs s !! x = Some v /\ state v = ThreadState.running.
Proof.
  intros [H1 H2] Hw Hr. destruct (decide (x = t)) as [-> | Hx]; [eauto |]. specialize (H1 x Hx). rewrite Hw in H1.
  destruct (tcbs s !! x) as [v |]; [| discriminate]. apply (inj Some) in H1. exists v. split; [reflexivity |].
  change (state (unlinked v) = ThreadState.running). rewrite <- H1. exact Hr.
Qed.

Lemma calm_trans t s1 s2 s3 : calm t s1 s2 -> calm t s2 s3 -> calm t s1 s3.
Proof.
  intros H1 H2. split.
  - intros x Hx. rewrite (cm_others _ _ _ H2 x Hx). apply (cm_others _ _ _ H1 x Hx).
  - intros w Hw Hr. destruct (cm_running _ _ _ H2 w Hw Hr) as (v & Hv & Hr'). eapply cm_running; eassumption.
Qed.

Lemma calm_insert t s v w s' : tcbs s !! t = Some v -> state w = state v -> tcbs s' = <[t := w]> (tcbs s) -> calm t s s'.
Proof.
  intros Hv Hw E. split.
  - intros x Hx. rewrite E, lookup_insert_ne by congruence. reflexivity.
  - intros w' Hw' Hr. rewrite E, lookup_insert_eq in Hw'. exists v. split; congruence.
Qed.

Lemma calm_delivered t s s' x : calm t s s' -> x <> t -> delivered x s -> delivered x s'.
Proof.
  intros [Hc _] Hx (v & Hv & Hd). specialize (Hc x Hx). rewrite Hv in Hc.
  destruct (tcbs s' !! x) as [v' |] eqn:Hv'; [| discriminate]. apply (inj Some) in Hc. exists v'. split; [exact Hv' |].
  change (arrived (unlinked v')). rewrite Hc. exact Hd.
Qed.

(** What waking [t] of core [c] leaves, on the core itself; [quietly], without
    a switch. *)
Definition woken (quietly : bool) (c : nat) (s : kernel_state) (t : nat) (s' : kernel_state) : Prop :=
  awake_on c t s' /\ local c s s' /\ (quietly = true -> calm t s s').

Section one.
Context (cx : cpu) (c : nat) (s : kernel_state) (sc : scheduler) (L : Levels.levels) (Hs : list nat)
  (run : option nat) (I : list nat) (t : nat) (v : thread_control_block) (policy : reschedule_policy).
Context (Hinv : core_inv c s sc L Hs run I) (Hv : tcbs s !! t = Some v) (Hp : pinned_core v = c)
  (Hf : is_finished v = false) (Hd : disposition v = ThreadDisposition.none).

Lemma ready_settled r s' : ready_outcome c s sc L Hs run I t v r s' -> settled t s'.
Proof.
  intros (sc' & _ & _ & _ & Hlinks & _). unfold settled.
  rewrite (same_links_field disposition _ _ t (fun _ => eq_refl) Hlinks), lookup_insert_eq, Hf. cbn. rewrite Hd. reflexivity.
Qed.

Lemma ready_woken r s' : ready_outcome c s sc L Hs run I t v r s' -> woken true c s t s'.
Proof.
  intros Hout. pose proof (ready_settled r s' Hout) as Hset. destruct Hout as (sc' & Hinv' & Hsr & Hloc & Hlinks & _).
  pose proof (ci_core _ _ _ _ _ _ _ Hinv) as Hok.
  assert (Hb : base_priority v < length L).
  { rewrite (fl_levels _ _ _ _ _ (co_filed _ _ _ _ _ _ Hok)). eapply st_priority; [apply Hok | exact Hv | exact Hp]. }
  pose proof (made_ready_self (idle_thread sc) t v L Hs Hb Hf) as Hself.
  destruct (made_ready (idle_thread sc) t v L Hs) as [L' Hs']. split_and!; [| exact Hloc |].
  2: { intros _. split.
    - intros x Hx. rewrite (same_links_field unlinked _ _ x (fun _ => eq_refl) Hlinks), lookup_insert_ne by congruence. reflexivity.
    - intros w Hw Hr. pose proof (same_links_field state _ _ t (fun _ => eq_refl) Hlinks) as E.
      rewrite Hw, lookup_insert_eq, Hf in E. injection E as E. congruence. }
  split; [exact Hset |]. do 5 eexists. split; [exact Hinv' | right]. rewrite (sr_idle _ _ Hsr).
  destruct (decide (idle_thread sc = Some t)) as [Ei | Ei]; auto.
Qed.

(** A wake that may not switch: [set_thread_ready] under [never]. *)
Lemma set_thread_ready_never_woken : wp (Switch.set_thread_ready_never cx c t) (fun _ s' => woken true c s t s') s.
Proof.
  unfold Switch.set_thread_ready_never, Switch.set_thread_ready_on.
  apply wp_bind. eapply wp_get_scheduler; [apply Hinv |]. apply wp_bind. eapply wp_get_tcb; [exact Hv |].
  apply wp_bind, wp_ensure; [apply Nat.eqb_eq; rewrite (co_id _ _ _ _ _ _ (ci_core _ _ _ _ _ _ _ Hinv)); exact Hp |].
  apply wp_bind. eapply wp_mono; [apply (make_ready_outcome c s sc L Hs run I Hinv t v Hv Hp) |].
  intros r s' Hout. rewrite (bool_decide_true (ReschedulePolicy.never = _)), andb_false_r by reflexivity.
  apply wp_ret. eapply ready_woken, Hout.
Qed.

(** ... and one that may, where a thread runs. *)
Lemma set_thread_ready_woken prev : run = Some prev -> t <> prev ->
  wp (Switch.set_thread_ready cx c t policy) (fun _ s' => woken false c s t s') s.
Proof.
  intros Hr Hne. pose proof Hinv as Hinv0. rewrite Hr in Hinv0.
  destruct (wp_elim _ _ _ (set_thread_ready_outcome cx c s sc L Hs I prev t v policy Hinv0 Hv Hp Hne)) as (r & s' & Es & Hout').
  pose proof (set_thread_ready_settles cx c t t policy s) as Hset. unfold wp. rewrite Es in *.
  assert (Hset0 : settled t s) by (unfold settled; rewrite Hv; cbn; rewrite Hd; reflexivity). specialize (Hset Hset0).
  destruct Hout' as (s1 & sc1 & L1 & Hs1 & Hout & Em & Hinv1 & Ei & Hres).
  rewrite <- Hr in Hout. pose proof (ready_woken _ _ Hout) as (Hc1 & Hloc1 & _).
  destruct (_ && _); destruct Hres as [_ Hres]; [| subst s'; split_and!; auto; discriminate].
  destruct Hres as (next & sc' & L' & Hs' & rotor' & Esw & Hinv' & Ei' & _ & _ & Hloc').
  split_and!; [| etransitivity; eassumption | discriminate]. split; [exact Hset |].
  do 5 eexists. split; [exact Hinv' |].
  destruct (decide (idle_thread sc1 = Some t)) as [Eit | Eit]; [right; right; congruence |].
  assert (Hl1 : listed L1 Hs1 t).
  { assert (Hb : base_priority v < length L).
    { rewrite (fl_levels _ _ _ _ _ (co_filed _ _ _ _ _ _ (ci_core _ _ _ _ _ _ _ Hinv))).
      eapply st_priority; [apply (ci_core _ _ _ _ _ _ _ Hinv) | exact Hv | exact Hp]. }
    pose proof (made_ready_self (idle_thread sc) t v L Hs Hb Hf) as Hself. rewrite Em in Hself. apply Hself. congruence. }
  destruct (switched_keeps _ _ _ _ _ _ _ _ _ _ _ _ _ t Hinv1 Hl1 Esw) as [-> | Hl]; auto.
Qed.
End one.

(** [global_ready_thread], from the thread's own core or another: from another
    the thread is on its core's intake, and from its own it is awake. *)
Definition arrives (cx : cpu) (c : nat) (sc : scheduler) (L : Levels.levels) (Hs : list nat) (run : option nat) (I : list nat)
    (t : nat) (s' : kernel_state) : Prop :=
  if (1 <? cores) && negb (this_core cx =? c) then
    (exists sc', core_inv c s' sc' L Hs run (posted I t)) /\ exists w, tcbs s' !! t = Some w /\ is_finished w = false
  else awake_on c t s'.

Lemma posted_self I t : t ∈ posted I t.
Proof. unfold posted. case_bool_decide; [assumption | left]. Qed.

Lemma arrives_delivered cx c sc L Hs run I t s' : arrives cx c sc L Hs run I t s' ->
  delivered t s' /\ exists sc L Hs run I, core_inv c s' sc L Hs run I.
Proof.
  unfold arrives. destruct (_ && _); intros Ha.
  - destruct Ha as [[sc' Hinv'] _]. split; [| eauto 6]. eapply posted_delivered; [exact Hinv' | apply posted_self].
  - split; [eapply awake_delivered, Ha |]. destruct Ha as [_ (? & ? & ? & ? & ? & ? & _)]. eauto 6.
Qed.

Lemma global_ready_thread_on_arrives q cx ready c s sc L Hs run I t v policy :
  core_inv c s sc L Hs run I -> tcbs s !! t = Some v -> pinned_core v = c -> is_finished v = false -> c < cores ->
  (forall s0 v0, this_core cx = c \/ cores = 1 -> core_inv c s0 sc L Hs run I -> tcbs s0 !! t = Some v0 -> pinned_core v0 = c ->
     is_finished v0 = false -> disposition v0 = ThreadDisposition.none -> state v0 = state v -> state v0 <> ThreadState.running ->
     wp (ready c t policy) (fun _ s' => woken q c s0 t s') s0) ->
  wp (Switch.global_ready_thread_on cx ready t policy)
    (fun _ s' => arrives cx c sc L Hs run I t s' /\ local c s s' /\ (q = true -> calm t s s')) s.
Proof.
  intros Hinv Hv Hp Hf Hc Hready. unfold Switch.global_ready_thread_on, arrives. apply wp_bind. eapply wp_get_tcb; [exact Hv |].
  rewrite Hf, Hp. apply wp_bind, wp_ensure; [apply Nat.ltb_lt, Hc |].
  destruct ((1 <? cores) && negb (this_core cx =? c)) eqn:Eremote.
  - apply andb_true_iff in Eremote as [Em _]. apply Nat.ltb_lt in Em.
    apply wp_bind, wp_emit. apply wp_bind. set (s0 := set_calls _ s).
    assert (Hinv0 : core_inv c s0 sc L Hs run I) by (destruct Hinv; split; assumption).
    eapply wp_mono; [apply (post_intake_ok cx c s0 sc L Hs run I t v Hinv0 Hv Hp Em) |].
    intros ? s' (sc' & Hinv' & Hloc & _ & _ & (w & Hw) & Hpv). apply wp_ret.
    assert (E : (post_view <$> tcbs s0) !! t = (post_view <$> tcbs s') !! t) by (rewrite Hpv; reflexivity).
    rewrite !lookup_fmap, Hw, lookup_insert_eq in E. change (tcbs s0) with (tcbs s) in E. rewrite Hv in E.
    assert (Ew : state w = state v /\ disposition w = disposition v) by (injection E; split; congruence).
    split_and!; [eauto | | | intros _; eapply calm_insert; [exact Hv | apply Ew | exact Hw]].
    + exists w. split; [rewrite Hw; apply lookup_insert_eq |]. unfold is_finished in *. destruct Ew as [-> ->]. exact Hf.
    + transitivity s0; [split; reflexivity | exact Hloc].
  - apply wp_bind. eapply wp_modify_tcb; [exact Hv |]. set (s0 := set_tcbs _ s).
    pose proof (set_disposition_inv c s sc L Hs run I t v ThreadDisposition.none Hinv Hv) as Hinv0. fold s0 in Hinv0.
    assert (Hv0 : tcbs s0 !! t = Some (set_disposition ThreadDisposition.none v)) by apply lookup_insert_eq.
    assert (Hloc0 : local c s s0) by (apply local_block with v; auto).
    assert (Hcalm0 : calm t s s0) by exact (calm_insert t s v (set_disposition ThreadDisposition.none v) s0 Hv eq_refl eq_refl).
    destruct (bool_decide (state v = ThreadState.running)) eqn:Er.
    + apply bool_decide_eq_true in Er. apply wp_ret. split_and!; [| exact Hloc0 | auto].
      split; [unfold settled; rewrite Hv0; reflexivity |]. do 5 eexists. split; [exact Hinv0 | left].
      apply (st_running _ _ _ _ _ _ (co_status _ _ _ _ _ _ (ci_core _ _ _ _ _ _ _ Hinv)) t v Hv Hp Er).
    + apply bool_decide_eq_false in Er. eapply wp_mono.
      * apply (Hready s0 (set_disposition ThreadDisposition.none v)); auto.
        -- apply andb_false_iff in Eremote as [E | E]; [right; apply Nat.ltb_ge in E; pose proof cores_valid; lia | left].
           apply negb_false_iff, Nat.eqb_eq in E. exact E.
        -- unfold is_finished in *. apply orb_false_iff in Hf as [Hf1 Hf2]. apply orb_false_iff. split; [exact Hf1 |].
           apply bool_decide_eq_false. discriminate.
      * intros r s' (Ha & Hl & Hq). split_and!; [exact Ha | etransitivity; eassumption |].
        intros Eq. eapply calm_trans; [exact Hcalm0 | exact (Hq Eq)].
Qed.
End wake.
