(* ===== verification/ExitProofs.v ===== *)
(** * Retiring a thread

    A thread's exit takes the handler's road: it is retired, its termination
    raised, which wakes its joiners on whatever core they live, and the core
    goes on with somebody else. *)

From S2P Require Import Prelude Chain State ReadyQueue ReadyQueueProofs WaitQueue WaitQueueProofs Urgency UrgencyProofs Scheduler SchedulerSpec Local SchedulerProofs DispatchProofs PickProofs Switch RoadProofs SwitchProofs Cores.

Section frame.
Context `{Config}.

(** What a batch of wakes leaves alone, whichever cores they reach. *)
Record steady (s s' : kernel_state) : Prop := {
  sd_urgency : urgency_view <$> tcbs s = urgency_view <$> tcbs s';
  sd_pinned : pinned_core <$> tcbs s = pinned_core <$> tcbs s';
  sd_mutexes : mutexes s' = mutexes s;
  sd_waitables : waitables s' = waitables s;
  sd_signals : signals s' = signals s;
  sd_running : running s' = running s;
  sd_active : active_threads s' = active_threads s
}.

#[export] Instance steady_preorder : PreOrder steady.
Proof. split; [intros s; split; reflexivity | intros s1 s2 s3 [] []; split; etransitivity; eassumption]. Qed.

Lemma local_pinned c s s' : local c s s' -> pinned_core <$> tcbs s = pinned_core <$> tcbs s'.
Proof.
  intros Hl. pose proof (lc_others _ _ _ Hl) as Ho. apply map_eq. intros x. rewrite !lookup_fmap.
  pose proof (view_lookup _ _ (lc_urgency _ _ _ Hl) x) as Ex.
  destruct (tcbs s !! x) as [v |] eqn:Ev, (tcbs s' !! x) as [v' |] eqn:Ev'; try discriminate; [| reflexivity].
  simpl. f_equal. destruct (decide (pinned_core v = c)) as [E | E].
  - destruct (decide (pinned_core v' = c)) as [E' | E']; [congruence |].
    apply (Ho x v' E') in Ev'. congruence.
  - apply (Ho x v E) in Ev. congruence.
Qed.

Lemma local_steady c s s' : local c s s' -> steady s s'.
Proof. intros Hl. split; try apply Hl. eapply local_pinned, Hl. Qed.

Lemma steady_block s s' t v : steady s s' -> tcbs s !! t = Some v ->
  exists w, tcbs s' !! t = Some w /\ pinned_core w = pinned_core v.
Proof.
  intros Hs Hv. assert (E : (pinned_core <$> tcbs s) !! t = (pinned_core <$> tcbs s') !! t) by (rewrite (sd_pinned _ _ Hs); reflexivity).
  rewrite !lookup_fmap, Hv in E. destruct (tcbs s' !! t) as [w |]; [| discriminate]. injection E as E. eauto.
Qed.

(** A block changed where no invariant looks. *)
Lemma block_inv d s sc L Hs run I t v w : core_inv d s sc L Hs run I -> tcbs s !! t = Some v ->
  core_view w = core_view v -> urgency_view w = urgency_view v -> request_state w = request_state v ->
  core_inv d (set_tcbs (<[t := w]> (tcbs s)) s) sc L Hs run I.
Proof.
  intros [H1 H2 H3 H4 H5] Hv E1 E2 E3.
  split; [exact H1 | eapply core_ok_view; [eapply view_insert; [exact Hv | exact E1] | exact H2]
    | eapply wf_frame; [eapply view_insert; [exact Hv | exact E2] | exact H3]
    | eapply intake_view; [eapply view_insert; [exact Hv | exact E3] | reflexivity | exact H4] | exact H5].
Qed.

(** Every core and every block on one. *)
Record system_inv (s : kernel_state) : Prop := {
  sy_kernel : kernel_inv s;
  sy_pinned : forall t v, tcbs s !! t = Some v -> pinned_core v < cores
}.

Lemma system_inv_steady s s' : system_inv s -> steady s s' -> kernel_inv s' -> system_inv s'.
Proof.
  intros [_ Hp] Hst Hk. split; [exact Hk |]. intros t v' Hv'.
  assert (E : (pinned_core <$> tcbs s) !! t = (pinned_core <$> tcbs s') !! t) by (rewrite (sd_pinned _ _ Hst); reflexivity).
  rewrite !lookup_fmap, Hv' in E. destruct (tcbs s !! t) as [v |] eqn:Hv; [| discriminate]. injection E as E.
  rewrite <- E. apply (Hp t v Hv).
Qed.
End frame.

Section waking.
Context `{Config} (cx : cpu).

(** One quiet wake, from any core to any core. *)
Lemma global_never_ok s t v : system_inv s -> tcbs s !! t = Some v ->
  wp (Switch.global_ready_thread_never cx t)
    (fun _ s' => system_inv s' /\ steady s s' /\ nodes s' = nodes s /\ (is_finished v = false -> delivered t s') /\ calm t s s') s.
Proof.
  intros Hsys Hv. pose proof Hsys as [[Hlen Hall] Hpin]. specialize (Hpin t v Hv).
  destruct (is_finished v) eqn:Hf.
  - unfold Switch.global_ready_thread_never, Switch.global_ready_thread_on. apply wp_bind. eapply wp_get_tcb; [exact Hv |].
    rewrite Hf. apply wp_ret. split_and!; auto; [reflexivity | discriminate | split; eauto].
  - destruct (Hall _ Hpin) as (sc & L & Hs & run & I & Hinv).
    unfold Switch.global_ready_thread_never. eapply wp_mono.
    + apply (global_ready_thread_on_arrives true cx (fun c t _ => Switch.set_thread_ready_never cx c t) (pinned_core v)
        s sc L Hs run I t v ReschedulePolicy.never Hinv Hv eq_refl Hf Hpin).
      intros s0 v0 _ Hinv0 Hv0 Hp0 Hf0 Hd0 _ _. eapply set_thread_ready_never_woken; eassumption.
    + intros r s' (Ha & Hloc & Hc). destruct (arrives_delivered _ _ _ _ _ _ _ _ _ Ha) as (Hd & sc' & L' & Hs' & run' & I' & Hinv').
      pose proof (local_steady _ _ _ Hloc) as Hst. split_and!; auto; [| apply Hloc].
      eapply system_inv_steady; [exact Hsys | exact Hst |]. eapply kernel_inv_local; [split; eassumption | exact Hloc | exact Hinv'].
Qed.

(** A node on no mutex's queue may be relinked. *)
Definition unqueued (s : kernel_state) (n : nat) : Prop :=
  forall m mx l, mutexes s !! m = Some mx -> chain node_next (nodes s) (wq_head (mutex_queue mx)) l -> n ∉ l.

Lemma wf_relink s n nd p : Urgency.wf (tcbs s) (nodes s) (mutexes s) -> nodes s !! n = Some nd -> unqueued s n ->
  Urgency.wf (tcbs s) (<[n := set_node_next p nd]> (nodes s)) (mutexes s).
Proof.
  intros [H1 H2 H3] Hn Hu. split; [exact H1 | exact H2 |]. intros m mx Hmx.
  destruct (H3 m mx Hmx) as (l & Hq & Hc). pose proof (Hu m mx l Hmx (WaitQueue.wr_chain _ _ _ _ Hq)) as Hnl.
  assert (Hr : renodes [n] (nodes s) (<[n := set_node_next p nd]> (nodes s))) by (apply renodes_store; [left | exact Hn]).
  exists l. split.
  - eapply repr_intro; [exact Hr | apply lseg_insert_ne; [exact Hnl | apply Hq] | apply Hq | apply Hq].
  - destruct Hc as [C1 C2]. split.
    + rewrite C1. destruct l as [| y l]; [reflexivity |]. symmetry. apply (renodes_prio _ _ _ _ _ Hr).
    + intros Hb x v o Hx Hv Ho Hne. rewrite lookup_insert_ne in Hv by (intros <-; contradiction). eapply C2; eassumption.
Qed.

Lemma unqueued_relink s n nd p x : Urgency.wf (tcbs s) (nodes s) (mutexes s) -> nodes s !! n = Some nd -> unqueued s n ->
  unqueued s x -> unqueued (set_nodes (<[n := set_node_next p nd]> (nodes s)) s) x.
Proof.
  intros [_ _ H3] Hn Hu Hx m mx l' Hmx Hch. cbn in Hmx, Hch.
  destruct (H3 m mx Hmx) as (l & Hq & _). pose proof (WaitQueue.wr_chain _ _ _ _ Hq) as Hl.
  assert (Hl' : chain node_next (<[n := set_node_next p nd]> (nodes s)) (wq_head (mutex_queue mx)) l)
    by (apply lseg_insert_ne; [exact (Hu m mx l Hmx Hl) | exact Hl]).
  rewrite (chain_det _ _ _ _ _ Hch Hl'). exact (Hx m mx l Hmx Hl).
Qed.

Lemma relink_inv s n nd p : system_inv s -> nodes s !! n = Some nd -> unqueued s n ->
  system_inv (set_nodes (<[n := set_node_next p nd]> (nodes s)) s).
Proof.
  intros [[Hlen Hall] Hpin] Hn Hu. split; [| exact Hpin]. split; [exact Hlen |]. intros d Hd.
  destruct (Hall d Hd) as (sc & L & Hs & run & I & Hinv). exists sc, L, Hs, run, I.
  pose proof (wf_relink s n nd p (ci_urgency _ _ _ _ _ _ _ Hinv) Hn Hu). destruct Hinv. split; assumption.
Qed.

Lemma system_wf s : system_inv s -> Urgency.wf (tcbs s) (nodes s) (mutexes s).
Proof.
  intros [[_ Hall] _]. destruct (Hall 0) as (sc & L & Hs & run & I & Hinv); [pose proof cores_valid; lia |]. apply Hinv.
Qed.

(** ** A batch of quiet wakes *)

(** Nobody starts running. *)
Definition no_starts (s s' : kernel_state) : Prop := forall x w, tcbs s' !! x = Some w -> state w = ThreadState.running ->
  exists v, tcbs s !! x = Some v /\ state v = ThreadState.running.

#[export] Instance no_starts_preorder : PreOrder no_starts.
Proof.
  split; [intros s x w; eauto |]. intros s1 s2 s3 H1 H2 x w Hw Hr. destruct (H2 x w Hw Hr) as (v & Hv & Hr'). eauto.
Qed.

(** The waiters of a queue about to be woken: alive, each once, and on no
    mutex's queue. *)
Record batch (s : kernel_state) (node : option nat) (l : list nat) (ts : list nat) : Prop := {
  bt_chain : chain node_next (nodes s) node l;
  bt_owners : Forall2 (fun n t => exists nd, nodes s !! n = Some nd /\ node_owner nd = t) l ts;
  bt_alive : forall t, t ∈ ts -> exists v, tcbs s !! t = Some v;
  bt_once : NoDup ts;
  bt_unqueued : forall n, n ∈ l -> unqueued s n
}.

Lemma ready_nodes_ok l : forall ts fuel s node agg,
  system_inv s -> batch s node l ts -> length l <= fuel ->
  wp (Switch.ready_nodes cx fuel node agg)
    (fun _ s' => system_inv s' /\ steady s s' /\ no_starts s s' /\
       (forall t v, t ∈ ts -> tcbs s !! t = Some v -> is_finished v = false -> delivered t s') /\
       (forall x, x ∉ ts -> unlinked <$> tcbs s' !! x = unlinked <$> tcbs s !! x) /\
       (forall n nd, n ∈ l -> nodes s' !! n = Some nd -> node_next nd = None) /\
       (forall n, n ∉ l -> nodes s' !! n = nodes s !! n)) s.
Proof.
  induction l as [| n l IH]; intros ts fuel s node agg Hsys [B1 B2 B3 B4 B5] Hfuel.
  - apply Forall2_nil_inv_l in B2 as ->. unfold chain in B1. simpl in B1. subst node.
    destruct fuel; apply wp_ret; (split_and!; [exact Hsys | reflexivity | reflexivity | | reflexivity | | reflexivity]);
      intros x y Hx; inversion Hx.
  - apply Forall2_cons_inv_l in B2 as (t & ts' & (nd & Hnd & Eo) & B2 & ->).
    pose proof (chain_NoDup _ _ _ _ B1) as Hndl. apply NoDup_cons in Hndl as [Hnl _].
    destruct B1 as [-> (nd0 & Hnd0 & B1)]. assert (nd0 = nd) as -> by congruence.
    destruct fuel as [| fuel]; simpl in Hfuel; [lia |]. cbn [Switch.ready_nodes].
    apply wp_bind. eapply wp_get_node; [exact Hnd |]. apply wp_bind. eapply wp_modify_node; [exact Hnd |].
    pose proof (B5 n ltac:(left)) as Hu. pose proof (relink_inv s n nd None Hsys Hnd Hu) as Hsys1.
    set (s1 := set_nodes _ s) in *. destruct (B3 t ltac:(left)) as (v & Hv). rewrite Eo. apply wp_bind.
    apply NoDup_cons in B4 as [Ht B4].
    eapply wp_mono; [apply (global_never_ok s1 t v Hsys1 Hv) |].
    intros hint s2 (Hsys2 & Hst2 & Hn2 & Hd2 & Hc2).
    assert (Hb2 : batch s2 (node_next nd) l ts').
    { split.
      - rewrite Hn2. apply lseg_insert_ne; [exact Hnl | exact B1].
      - eapply Forall2_same_length_lookup_2; [eapply Forall2_length, B2 |]. intros i n' t' Hi Hi'.
        destruct (Forall2_lookup_lr _ _ _ _ _ _ B2 Hi Hi') as (nd' & Hnd' & Eo'). exists nd'. split; [| exact Eo'].
        rewrite Hn2. unfold s1. cbn. rewrite lookup_insert_ne; [exact Hnd' |]. intros <-. apply Hnl. eapply list_elem_of_lookup_2, Hi.
      - intros t' Ht'. destruct (B3 t' ltac:(right; exact Ht')) as (v' & Hv'). destruct (steady_block s1 s2 t' v' Hst2 Hv') as (w & Hw & _). eauto.
      - exact B4.
      - intros n' Hn'. pose proof (unqueued_relink s n nd None n' (system_wf s Hsys) Hnd Hu (B5 n' ltac:(right; exact Hn'))) as Hu'.
        intros m mx lm Hmx. rewrite (sd_mutexes _ _ Hst2) in Hmx. rewrite Hn2. exact (Hu' m mx lm Hmx). }
    eapply wp_mono; [apply (IH ts' fuel s2 _ _ Hsys2 Hb2); lia |].
    intros r s' (Hsys' & Hst' & Hns' & Hd' & Hc' & Hk' & Ho'). split_and!.
    + exact Hsys'.
    + transitivity s2; [| exact Hst']. transitivity s1; [split; reflexivity | exact Hst2].
    + transitivity s2; [| exact Hns']. intros x w Hw Hr. exact (calm_running t s1 s2 x w Hc2 Hw Hr).
    + intros t' v' Ht' Hv' Hf'. apply elem_of_cons in Ht' as [-> | Ht'].
      * assert (v' = v) as -> by congruence. destruct (Hd2 Hf') as (w & Hw & Hdw).
        pose proof (Hc' t Ht) as E. rewrite Hw in E. destruct (tcbs s' !! t) as [w' |] eqn:Hw'; [| discriminate].
        apply (inj Some) in E. exists w'. split; [exact Hw' |].
        change (arrived (unlinked w')). rewrite E. exact Hdw.
      * assert (Hne : t' <> t) by (intros ->; contradiction).
        pose proof (cm_others _ _ _ Hc2 t' Hne) as E. change (tcbs s1) with (tcbs s) in E. rewrite Hv' in E.
        destruct (tcbs s2 !! t') as [v2 |] eqn:Hv2; [| discriminate]. apply (inj Some) in E. apply (Hd' t' v2 Ht' Hv2).
        change (is_finished (unlinked v2) = false). rewrite E. exact Hf'.
    + intros x Hx. apply not_elem_of_cons in Hx as [Hx Hx']. rewrite (Hc' x Hx'). apply (cm_others _ _ _ Hc2 x Hx).
    + intros n' nd' Hn' Hnd'. apply elem_of_cons in Hn' as [-> | Hn']; [| eauto].
      rewrite (Ho' n Hnl), Hn2 in Hnd'. unfold s1 in Hnd'. cbn in Hnd'. rewrite lookup_insert_eq in Hnd'. injection Hnd' as <-. reflexivity.
    + intros n' Hn'. apply not_elem_of_cons in Hn' as [Hne Hn']. rewrite (Ho' n' Hn'), Hn2. unfold s1. cbn. apply lookup_insert_ne. congruence.
Qed.

(** ** Raising a termination *)

Lemma batch_block s node l ts t v w : batch s node l ts -> tcbs s !! t = Some v ->
  batch (set_tcbs (<[t := w]> (tcbs s)) s) node l ts.
Proof.
  intros [B1 B2 B3 B4 B5] Hv. split; auto. intros x Hx. cbn. destruct (decide (x = t)) as [-> | Hne].
  - rewrite lookup_insert_eq. eauto.
  - rewrite lookup_insert_ne by congruence. apply B3, Hx.
Qed.

Lemma system_block s t v w : system_inv s -> tcbs s !! t = Some v ->
  core_view w = core_view v -> urgency_view w = urgency_view v -> request_state w = request_state v ->
  system_inv (set_tcbs (<[t := w]> (tcbs s)) s).
Proof.
  intros [[Hlen Hall] Hpin] Hv E1 E2 E3. split; [split; [exact Hlen |] |].
  - intros d Hd. destruct (Hall d Hd) as (sc & L & Hs & run & I & Hinv). exists sc, L, Hs, run, I.
    eapply block_inv; eassumption.
  - intros x vx Hx. cbn in Hx. destruct (decide (x = t)) as [-> | Hne]; [| rewrite lookup_insert_ne in Hx by congruence; eauto].
    rewrite lookup_insert_eq in Hx. injection Hx as <-.
    assert (E : pinned_core w = pinned_core v) by (injection E1; auto). rewrite E. apply (Hpin t v Hv).
Qed.

Lemma raise_ok s t v l ts :
  system_inv s -> tcbs s !! t = Some v -> batch s (wq_head (cs_queue (termination v))) l ts -> t ∉ ts ->
  wp (Switch.raise cx (Switch.termination_of t) ReschedulePolicy.never)
    (fun _ s' => system_inv s' /\ steady s s' /\ no_starts s s' /\
       (forall x w, x ∈ ts -> tcbs s !! x = Some w -> is_finished w = false -> delivered x s') /\
       (exists w, tcbs s' !! t = Some w /\ termination w = CancelSignal (WaitQueue None) true /\
          state w = state v /\ disposition w = disposition v) /\
       (forall n nd, n ∈ l -> nodes s' !! n = Some nd -> node_next nd = None)) s.
Proof.
  intros Hsys Hv Hb Ht. unfold Switch.raise, Switch.raise_all, Switch.write_signal, Switch.read_signal.
  apply wp_bind. eapply wp_modify_tcb; [exact Hv |]. apply wp_bind, wp_bind. eapply wp_get_tcb; [apply lookup_insert_eq |].
  apply wp_ret. apply wp_bind. eapply wp_modify_tcb; [apply lookup_insert_eq |]. cbn [tcbs set_tcbs].
  rewrite insert_insert_eq. set (v1 := set_termination (CancelSignal (WaitQueue None) true) v).
  match goal with |- wp _ _ ?st => change st with (set_tcbs (<[t := v1]> (tcbs s)) s) end.
  cbn [cs_queue set_raised_flag termination set_termination].
  pose proof (system_block s t v v1 Hsys Hv eq_refl eq_refl eq_refl) as Hsys1.
  pose proof (batch_block s _ l ts t v v1 Hb Hv) as Hb1. set (s1 := set_tcbs _ s) in *.
  apply wp_bind, wp_get. apply wp_bind.
  assert (Hlen : length l <= S (size (nodes s1))) by (pose proof (chain_length _ _ _ _ (bt_chain _ _ _ _ Hb1)); lia).
  eapply wp_mono; [apply (ready_nodes_ok l ts _ s1 _ _ Hsys1 Hb1 Hlen) |].
  intros agg s2 (Hsys2 & Hst & Hns & Hd & Hc & Hn & _). unfold Switch.apply_reschedule_policy.
  rewrite (bool_decide_true (ReschedulePolicy.never = _)) by reflexivity. cbn [orb]. apply wp_ret.
  assert (Hst0 : steady s s1).
  { split; try reflexivity; (eapply view_insert; [exact Hv | reflexivity]). }
  split_and!; [exact Hsys2 | etransitivity; eassumption | | | | exact Hn].
  - transitivity s1; [| exact Hns]. intros x w Hw Hr. unfold s1 in Hw. cbn in Hw. destruct (decide (x = t)) as [-> | Hne].
    + rewrite lookup_insert_eq in Hw. injection Hw as <-. exists v. auto.
    + rewrite lookup_insert_ne in Hw by congruence. eauto.
  - intros x w Hx Hw Hf. apply (Hd x w Hx); [| exact Hf]. unfold s1. cbn. rewrite lookup_insert_ne by (intros <-; contradiction). exact Hw.
  - pose proof (Hc t Ht) as E. unfold s1 in E. cbn in E. rewrite lookup_insert_eq in E.
    destruct (tcbs s2 !! t) as [w |]; [| discriminate]. apply (inj Some) in E. exists w. split; [reflexivity |].
    change (termination (unlinked w) = CancelSignal (WaitQueue None) true /\ state (unlinked w) = state v /\ disposition (unlinked w) = disposition v).
    rewrite E. auto.
Qed.
End waking.

(** ** The exit *)

Section exit.
Context `{Config} (cx : cpu) (c : nat).

Lemma terminate_core s sc L Hs I t v : core_inv c s sc L Hs (Some t) I -> tcbs s !! t = Some v ->
  idle_thread sc <> Some t ->
  core_inv c (set_tcbs (<[t := set_state ThreadState.terminated v]> (tcbs s)) s) sc L Hs None I.
Proof.
  intros Hinv Hv Hi. pose proof Hinv as [H1 Hok H3 H4 H5].
  destruct (st_run _ _ _ _ _ _ (co_status _ _ _ _ _ _ Hok) t eq_refl) as (v' & Hv' & Hp & Hr).
  assert (v' = v) as -> by congruence.
  assert (Hnl : ~ listed L Hs t) by (eapply running_not_listed; [exact Hok | exact Hv | congruence]).
  split; [exact H1 | | eapply wf_frame; [eapply view_insert; [exact Hv | reflexivity] | exact H3]
    | eapply intake_view; [eapply view_insert; [exact Hv | reflexivity] | reflexivity | exact H4] | exact H5].
  assert (E : None = stopped t (Some t)) by (unfold stopped; rewrite bool_decide_true; reflexivity). rewrite E.
  eapply core_ok_next; [exact Hok | split; reflexivity | eapply view_insert; [exact Hv | reflexivity] | | | apply stopped_inv].
  - eapply filed_view; [eapply set_state_links, Hv | apply Hok].
  - eapply status_set_state; [apply Hok | exact Hv | exact Hp | reflexivity | | apply (co_status _ _ _ _ _ _ Hok) | contradiction | reflexivity | discriminate].
    split; [intros Hl; contradiction | intros [Hx _]; discriminate].
Qed.

(** The pick run on a core whose thread has gone. *)
Lemma run_next_outcome s sc L Hs I : core_inv c s sc L Hs None I ->
  wp (run_next c)
    (fun t s' => exists sc' L' Hs', core_inv c s' sc' L' Hs' (Some t) I /\ local c s s' /\
       (forall x e, competes (urg s' (tcbs s')) L' Hs' x e -> urg s' (tcbs s') t <= e) /\
       (exists v, tcbs s !! t = Some v /\ state v = ThreadState.ready /\
          same_but_links (<[t := set_state ThreadState.running v]> (tcbs s)) (tcbs s')) /\
       active_threads s' = active_threads s /\ calls s' = trace_point Trace.thread_running t :: calls s) s.
Proof.
  intros Hinv. pose proof Hinv as [H1 Hok H3 H4 H5]. pose proof (inv_core_lt _ _ _ _ _ _ _ Hinv) as Hc.
  eapply wp_mono; [eapply (lwp_run c s sc L Hs None I Hinv), (run_next_ok c s Hc (tcbs s) sc L Hs (calls s) Hok H3) |].
  intros t s' (sc' & h' & es' & -> & Hres).
  destruct (pick (urg s (tcbs s)) L Hs (tie_rotor sc)) as [[[r L'] Hs'] rotor'] eqn:Ep.
  destruct Hres as (Et & Hok' & Hsr & Ho & (v & Hv & Hready & Hl) & Hbest & ->).
  assert (Hview : urgency_view <$> tcbs s = urgency_view <$> h').
  { etransitivity; [| apply links_view, Hl]. eapply view_insert; [exact Hv | reflexivity]. }
  exists sc', L', Hs'. split_and!; [| apply put_local; assumption | | exists v; auto | reflexivity | reflexivity].
  - split; [apply put_scheduler, Hc | exact Hok' | eapply wf_frame; [exact Hview | exact H3] | | exact H5].
    assert (Ei : intake_head sc' = intake_head sc) by exact (sr_intake _ _ Hsr).
    eapply intake_view; [| exact Ei | exact H4].
    etransitivity; [| apply (same_links_fmap request_state); [reflexivity | exact Hl]]. eapply view_insert; [exact Hv | reflexivity].
  - intros x e Hx. change (urg s h' t <= e). rewrite <- (urg_view s (tcbs s) h' t Hview). apply (Hbest x e).
    destruct Hx as [Hx | [Hx <-]]; [left; exact Hx | right; split; [exact Hx | exact (urg_view s (tcbs s) h' x Hview)]].
Qed.

(** A thread to be retired: the running one, at the end of its life, with
    [l] and [ts] the nodes and threads of its joiners. *)
Record exiting (s : kernel_state) (sc : scheduler) (t : nat) (v : thread_control_block) (l ts : list nat) : Prop := {
  ex_block : tcbs s !! t = Some v;
  ex_disposition : disposition v = ThreadDisposition.terminating;
  ex_idle : idle_thread sc <> Some t;
  ex_holds : holds_nothing v = true;
  ex_active : active_threads s <> 0%Z;
  ex_batch : batch s (wq_head (cs_queue (termination v))) l ts;
  ex_self : t ∉ ts
}.

Definition retired (t : nat) (s : kernel_state) : Prop :=
  exists w, tcbs s !! t = Some w /\ state w = ThreadState.terminated /\ termination w = CancelSignal (WaitQueue None) true.

Lemma set_thread_terminated_ok s sc L Hs I t v l ts : this_core cx = c -> c < cores ->
  system_inv s -> core_inv c s sc L Hs (Some t) I -> exiting s sc t v l ts ->
  wp (Switch.set_thread_terminated cx c t)
    (fun _ s' => system_inv s' /\ (exists sc' L' Hs' I', core_inv c s' sc' L' Hs' None I') /\
       retired t s' /\ active_threads s' = u32 (active_threads s - 1) /\
       (forall x w, x ∈ ts -> tcbs s !! x = Some w -> is_finished w = false -> delivered x s')) s.
Proof.
  intros Hcx Hc Hsys Hinv [Hv Hd Hi Hh Ha Hb Hself]. pose proof (ci_core _ _ _ _ _ _ _ Hinv) as Hok.
  destruct (st_run _ _ _ _ _ _ (co_status _ _ _ _ _ _ Hok) t eq_refl) as (v' & Hv' & Hp & Hr).
  assert (v' = v) as -> by congruence.
  assert (Hnl : ~ listed L Hs t) by (eapply running_not_listed; [exact Hok | exact Hv | congruence]).
  destruct (not_listed_sentinels _ _ _ _ _ _ _ (co_filed _ _ _ _ _ _ Hok) Hv Hp Hnl) as [He _].
  unfold Switch.set_thread_terminated. apply wp_bind. eapply wp_get_scheduler; [apply Hinv |].
  apply wp_bind. eapply wp_get_tcb; [exact Hv |].
  apply wp_bind, wp_ensure; [apply Nat.eqb_eq; rewrite (co_id _ _ _ _ _ _ Hok); exact Hp |].
  apply wp_bind, wp_ensure; [apply bool_decide_eq_true, Hr |]. apply wp_bind, wp_ensure; [apply bool_decide_eq_true, Hd |].
  apply wp_bind, wp_ensure; [rewrite bool_decide_false by exact Hi; reflexivity |].
  apply wp_bind, wp_ensure; [rewrite He; reflexivity |]. apply wp_bind, wp_ensure; [exact Hh |].
  apply wp_bind. eapply wp_modify_tcb; [exact Hv |].
  pose proof (terminate_core s sc L Hs I t v Hinv Hv Hi) as Hinv1. set (v1 := set_state ThreadState.terminated v) in *.
  set (s1 := set_tcbs _ s) in *.
  assert (Hloc1 : local c s s1) by (apply local_block with v; auto).
  assert (Hsys1 : system_inv s1).
  { eapply system_inv_steady; [exact Hsys | eapply local_steady, Hloc1 | eapply kernel_inv_local; [apply Hsys | exact Hloc1 | exact Hinv1]]. }
  apply wp_bind, wp_emit. unfold Switch.unregister_thread. apply wp_bind, wp_bind. eapply wp_get_tcb; [apply lookup_insert_eq |].
  apply wp_bind, wp_ensure; [reflexivity |]. apply wp_bind, wp_get. apply wp_bind, wp_modify.
  apply wp_ensure; [rewrite (proj2 (Z.eqb_neq _ _)) by exact Ha; reflexivity |]. apply wp_bind, wp_emit.
  set (s2 := set_calls _ _).
  assert (Hinv_of : forall d sc' L' Hs' run' I', core_inv d s1 sc' L' Hs' run' I' -> core_inv d s2 sc' L' Hs' run' I')
    by (intros ? ? ? ? ? ? []; split; assumption).
  assert (Hsys2 : system_inv s2).
  { destruct Hsys1 as [[Hlen Hall] Hpin]. split; [split; [exact Hlen |] | exact Hpin]. intros d Hdc.
    destruct (Hall d Hdc) as (sc' & L' & Hs' & run' & I' & Hx). eauto 8. }
  assert (Hb2 : batch s2 (wq_head (cs_queue (termination v1))) l ts) by (destruct (batch_block s _ l ts t v v1 Hb Hv); split; assumption).
  eapply wp_mono; [apply (raise_ok cx s2 t v1 l ts Hsys2); [apply lookup_insert_eq | exact Hb2 | exact Hself] |].
  intros ? s' (Hsys' & Hst & Hns & Hdel & (w & Hw & Hterm & Hstate & _) & _). split_and!; [exact Hsys' | | | |].
  - destruct (proj2 (sy_kernel _ Hsys') c Hc) as (sc' & L' & Hs' & run' & I' & Hx). exists sc', L', Hs', I'.
    destruct run' as [x |]; [| exact Hx]. exfalso.
    destruct (st_run _ _ _ _ _ _ (co_status _ _ _ _ _ _ (ci_core _ _ _ _ _ _ _ Hx)) x eq_refl) as (vx & Hvx & Hpx & Hrx).
    destruct (Hns x vx Hvx Hrx) as (v2 & Hv2 & Hr2).
    destruct (steady_block s2 s' x v2 Hst Hv2) as (w2 & Hw2 & Hpw2). assert (w2 = vx) as -> by congruence.
    assert (Hp2 : pinned_core v2 = c) by congruence.
    pose proof (st_running _ _ _ _ _ _ (co_status _ _ _ _ _ _ (ci_core _ _ _ _ _ _ _ Hinv1)) x v2 Hv2 Hp2 Hr2). discriminate.
  - exists w. auto.
  - rewrite (sd_active _ _ Hst). reflexivity.
  - intros x wx Hx Hwx Hfx. apply (Hdel x wx Hx); [| exact Hfx].
    change (<[t := v1]> (tcbs s) !! x = Some wx). rewrite lookup_insert_ne by (intros <-; contradiction). exact Hwx.
Qed.

(** ** The exit, from the handler's road *)

Lemma arrivals_finished idle h ts p v : h !! p = Some v -> is_finished v = true ->
  forall L Hs, exists L' Hs', arrivals idle h ts L Hs (Some p) = (L', Hs', Some p).
Proof.
  intros Hv Hf. induction ts as [| t ts IH]; intros L Hs; simpl; [eauto |].
  destruct (h !! t) as [vt |] eqn:Ht; [| apply IH]. destruct (made_ready idle t vt L Hs) as [L1 Hs1].
  destruct (is_finished vt) eqn:Hft; [apply IH |]. unfold stopped.
  rewrite bool_decide_false by congruence. apply IH.
Qed.

Lemma serviced_of_finished I x v : is_finished (serviced_of I x v) = is_finished v.
Proof.
  unfold serviced_of. case_bool_decide; [| reflexivity]. unfold serviced. cbv zeta.
  case_bool_decide as Ed; [reflexivity |]. unfold is_finished. destruct v as []; simpl in *.
  rewrite (bool_decide_false (disposition = _)) by exact Ed.
  destruct (decide (state = ThreadState.terminated)) as [-> | Et]; [reflexivity |].
  rewrite !(bool_decide_false (state = _)) by exact Et. reflexivity.
Qed.

(** A finished thread's request is taken with nothing else changed. *)
Lemma serviced_of_terminating I x v : disposition v = ThreadDisposition.terminating ->
  disposition (serviced_of I x v) = disposition v /\ state (serviced_of I x v) = state v /\
  termination (serviced_of I x v) = termination v.
Proof.
  intros Hd. unfold serviced_of. case_bool_decide; [| auto]. unfold serviced. cbv zeta.
  rewrite bool_decide_true by exact Hd. auto.
Qed.

Lemma erase_field {A} (f : thread_control_block -> A) v w : (forall u, f (erase_links u) = f u) ->
  erase_links v = erase_links w -> f v = f w.
Proof. intros Hf E. rewrite <- (Hf v), <- (Hf w), E. reflexivity. Qed.

(** The intake taken with a thread at the end of its life running: it still
    is, and its joiners still wait. *)
Lemma exiting_taken s sc L Hs I t v l ts : core_inv c s sc L Hs (Some t) I -> exiting s sc t v l ts ->
  wp (Switch.take_intake cx c)
    (fun _ s1 => exists sc1 L1 Hs1 v1, core_inv c s1 sc1 L1 Hs1 (Some t) [] /\ exiting s1 sc1 t v1 l ts /\
       state v1 = ThreadState.running /\ local c s s1 /\
       (forall x w, x ∈ ts -> tcbs s !! x = Some w -> is_finished w = false ->
          exists w1, tcbs s1 !! x = Some w1 /\ is_finished w1 = false)) s.
Proof.
  intros Hinv [Hv Hd Hi Hh Ha Hb Hself]. pose proof Hinv as [H1 Hok Hwf Hin H5]. pose proof (inv_core_lt _ _ _ _ _ _ _ Hinv) as Hc.
  eapply wp_mono; [eapply (lwp_run c s sc L Hs (Some t) I Hinv), (take_in_ok cx c s Hc (tcbs s) sc L Hs (calls s) I t v Hok Hwf Hin H5 Hv) |].
  intros ? s1 (sc1 & h1 & es1 & -> & L1 & Hs1 & run1 & v1 & Hti).
  destruct (taken_in_static _ _ _ _ _ _ _ _ _ _ _ _ _ _ _ _ Hti) as [Huv Hp1].
  destruct Hti as [Ea (_ & Hsr & Ho & Hx) Hok1 _ _ Hv1 Ev _ Hq Hview _].
  assert (Hf : is_finished v = true) by (unfold is_finished; rewrite (bool_decide_true (disposition v = _)) by exact Hd; apply orb_true_r).
  destruct (arrivals_finished (idle_thread sc) (tcbs s) (reverse I) t v Hv Hf L Hs) as (L2 & Hs2 & Ea2).
  assert (run1 = Some t) as -> by congruence.
  destruct (serviced_of_terminating I t v Hd) as (E1 & E2 & E3).
  assert (Hloc : local c s (put c sc1 h1 es1 s)) by (apply put_local; assumption).
  assert (Hblocks : forall x w, tcbs s !! x = Some w -> exists w1, h1 !! x = Some w1 /\ is_finished w1 = is_finished w).
  { intros x w Hw. specialize (Hx x). rewrite Hw in Hx. destruct (h1 !! x) as [w1 |]; [| discriminate]. apply (inj Some) in Hx.
    exists w1. split; [reflexivity |]. rewrite (erase_field is_finished _ _ (fun _ => eq_refl) Hx). apply serviced_of_finished. }
  exists sc1, L1, Hs1, v1. split_and!; [| | | exact Hloc |].
  - split; [apply put_scheduler, Hc | exact Hok1 | eapply wf_frame; [exact Hview | exact Hwf] | exact (proj1 (quiet_intake c s Hc sc1 h1) Hq) | auto].
  - split; [exact Hv1 | | | | exact Ha | | exact Hself].
    + rewrite (erase_field disposition _ _ (fun _ => eq_refl) Ev). congruence.
    + rewrite (sr_idle _ _ Hsr). exact Hi.
    + unfold holds_nothing in *. injection Huv as _ _ E. rewrite E. exact Hh.
    + rewrite (erase_field termination _ _ (fun _ => eq_refl) Ev), E3. destruct Hb as [B1 B2 B3 B4 B5]. split; auto.
      intros x Hxt. destruct (B3 x Hxt) as (w & Hw). destruct (Hblocks x w Hw) as (w1 & Hw1 & _). eauto.
  - destruct (st_run _ _ _ _ _ _ (co_status _ _ _ _ _ _ Hok1) t eq_refl) as (w & Hw & _ & Hr). congruence.
  - intros x w _ Hw Hfw. destruct (Hblocks x w Hw) as (w1 & Hw1 & E). exists w1. split; [exact Hw1 | congruence].
Qed.

(** What the pick leaves of the threads it does not run. *)
Lemma delivered_run s s' n v x : tcbs s !! n = Some v ->
  same_but_links (<[n := set_state ThreadState.running v]> (tcbs s)) (tcbs s') -> delivered x s -> delivered x s'.
Proof.
  intros Hn Hl (w & Hw & Hd). assert (E := f_equal (.!! x) Hl). cbn in E. rewrite !lookup_fmap in E.
  destruct (decide (x = n)) as [-> | Hne].
  - rewrite lookup_insert_eq in E. destruct (tcbs s' !! n) as [w' |] eqn:Hw'; [| discriminate]. apply (inj Some) in E.
    assert (w = v) as -> by congruence. exists w'. split; [exact Hw' |]. unfold arrived in *.
    rewrite <- (erase_field state _ _ (fun _ => eq_refl) E), <- (erase_field pending_requests _ _ (fun _ => eq_refl) E),
      <- (erase_field disposition _ _ (fun _ => eq_refl) E). cbn. tauto.
  - rewrite lookup_insert_ne, Hw in E by congruence. destruct (tcbs s' !! x) as [w' |] eqn:Hw'; [| discriminate]. apply (inj Some) in E.
    exists w'. split; [exact Hw' |]. unfold arrived.
    rewrite <- (erase_field state _ _ (fun _ => eq_refl) E), <- (erase_field pending_requests _ _ (fun _ => eq_refl) E),
      <- (erase_field disposition _ _ (fun _ => eq_refl) E). exact Hd.
Qed.

Lemma retired_run s s' n v t : tcbs s !! n = Some v -> state v = ThreadState.ready ->
  same_but_links (<[n := set_state ThreadState.running v]> (tcbs s)) (tcbs s') -> retired t s -> n <> t /\ retired t s'.
Proof.
  intros Hn Hr Hl (w & Hw & Hs & Ht). assert (Hne : n <> t) by congruence. split; [exact Hne |].
  assert (E := f_equal (.!! t) Hl). cbn in E. rewrite !lookup_fmap, lookup_insert_ne, Hw in E by congruence.
  destruct (tcbs s' !! t) as [w' |] eqn:Hw'; [| discriminate]. apply (inj Some) in E. exists w'. split; [exact Hw' |].
  rewrite <- (erase_field state _ _ (fun _ => eq_refl) E), <- (erase_field termination _ _ (fun _ => eq_refl) E). auto.
Qed.

Lemma reschedule_exit s sc L Hs I t v l ts : this_core cx = c -> c < cores ->
  system_inv s -> core_inv c s sc L Hs (Some t) I -> exiting s sc t v l ts ->
  wp (Switch.reschedule cx c)
    (fun _ s' => system_inv s' /\ retired t s' /\ active_threads s' = u32 (active_threads s - 1) /\
       (forall x w, x ∈ ts -> tcbs s !! x = Some w -> is_finished w = false -> delivered x s') /\
       exists next sc' L' Hs' I', core_inv c s' sc' L' Hs' (Some next) I' /\ next <> t /\
         (forall x e, competes (urg s' (tcbs s')) L' Hs' x e -> urg s' (tcbs s') next <= e) /\
         head (calls s') = Some (port_switch c None next)) s.
Proof.
  intros Hcx Hc Hsys Hinv Hex. pose proof (ci_core _ _ _ _ _ _ _ Hinv) as Hok. pose proof (co_run _ _ _ _ _ _ Hok t eq_refl) as Hcur.
  pose proof (ex_block _ _ _ _ _ _ Hex) as Hv.
  destruct (st_run _ _ _ _ _ _ (co_status _ _ _ _ _ _ Hok) t eq_refl) as (v' & Hv' & Hp & Hr).
  assert (v' = v) as -> by congruence.
  assert (Hnl : ~ listed L Hs t) by (eapply running_not_listed; [exact Hok | exact Hv | congruence]).
  destruct (not_listed_sentinels _ _ _ _ _ _ _ (co_filed _ _ _ _ _ _ Hok) Hv Hp Hnl) as [He _].
  unfold Switch.reschedule. apply wp_bind. eapply wp_get_scheduler; [apply Hinv |].
  apply wp_bind, wp_ensure; [rewrite Hcur; reflexivity |]. rewrite Hcur. apply wp_bind, wp_lift. cbn [nonnull ok].
  apply wp_bind. eapply wp_get_tcb; [exact Hv |]. apply wp_bind, wp_ensure; [rewrite He; reflexivity |]. apply wp_bind.
  eapply wp_mono; [apply (exiting_taken s sc L Hs I t v l ts Hinv Hex) |].
  intros ? s1 (sc1 & L1 & Hs1 & v1 & Hinv1 & Hex1 & Hr1 & Hloc1 & Hfin).
  assert (Hsys1 : system_inv s1).
  { eapply system_inv_steady; [exact Hsys | eapply local_steady, Hloc1 | eapply kernel_inv_local; [apply Hsys | exact Hloc1 | exact Hinv1]]. }
  pose proof (ex_block _ _ _ _ _ _ Hex1) as Hv1.
  apply wp_bind. eapply wp_get_tcb; [exact Hv1 |]. rewrite Hr1. apply wp_bind, wp_bind. unfold Switch.departure_of.
  apply wp_bind. eapply wp_get_tcb; [exact Hv1 |]. rewrite bool_decide_true by apply Hex1. apply wp_ret, wp_bind. cbn [Switch.depart].
  eapply wp_mono; [apply (set_thread_terminated_ok s1 sc1 L1 Hs1 [] t v1 l ts Hcx Hc Hsys1 Hinv1 Hex1) |].
  intros ? s2 (Hsys2 & (sc2 & L2 & Hs2 & I2 & Hinv2) & Hret & Hact & Hdel). apply wp_ret. rewrite bool_decide_true by reflexivity.
  apply wp_bind. eapply wp_mono; [apply (run_next_outcome s2 sc2 L2 Hs2 I2 Hinv2) |].
  intros next s3 (sc3 & L3 & Hs3 & Hinv3 & Hloc3 & Hbest & (vn & Hvn & Hrn & Hl) & Hact3 & _). apply wp_emit.
  destruct (retired_run s2 s3 next vn t Hvn Hrn Hl Hret) as [Hne Hret3]. split_and!.
  - assert (Hsys3 : system_inv s3).
    { eapply system_inv_steady; [exact Hsys2 | eapply local_steady, Hloc3 | eapply kernel_inv_local; [apply Hsys2 | exact Hloc3 | exact Hinv3]]. }
    destruct Hsys3 as [[Hlen Hall] Hpin]. split; [split; [exact Hlen |] | exact Hpin]. intros d Hdc.
    destruct (Hall d Hdc) as (sc' & L' & Hs' & run' & I' & []). exists sc', L', Hs', run', I'. split; assumption.
  - exact Hret3.
  - change (active_threads s3 = u32 (active_threads s - 1)). rewrite Hact3, Hact, (lc_active _ _ _ Hloc1). reflexivity.
  - intros x w Hx Hw Hf. destruct (Hfin x w Hx Hw Hf) as (w1 & Hw1 & Hf1).
    exact (delivered_run s2 s3 next vn x Hvn Hl (Hdel x w1 Hx Hw1 Hf1)).
  - exists next, sc3, L3, Hs3, I2. split_and!; [destruct Hinv3; split; assumption | exact Hne | exact Hbest |].
    rewrite (co_id _ _ _ _ _ _ Hok). reflexivity.
Qed.
End exit.
