(* ===== verification/Checks.v ===== *)
(** * The invariants, decided

    Boolean checkers for the representation predicates, and that what they
    accept satisfies them: a concrete kernel state is shown to meet an
    invariant by evaluation. *)

From S2P Require Import Prelude Chain State ReadyQueue ReadyQueueProofs WaitQueue WaitQueueProofs Urgency UrgencyProofs Scheduler SchedulerSpec.

Definition map_all {V} (P : nat -> V -> bool) (h : gmap nat V) : bool :=
  forallb (fun kv => P kv.1 kv.2) (map_to_list h).

Lemma map_all_spec {V} (P : nat -> V -> bool) h : map_all P h = true ->
  forall k v, h !! k = Some v -> P k v = true.
Proof.
  unfold map_all. rewrite forallb_forall. intros Hall k v Hv.
  apply (Hall (k, v)). apply list_elem_of_In, elem_of_map_to_list, Hv.
Qed.

Lemma forallb_elem {A} (P : A -> bool) l x : forallb P l = true -> x ∈ l -> P x = true.
Proof. rewrite forallb_forall. intros Hall Hx. apply Hall, list_elem_of_In, Hx. Qed.

Section chains.
Context {V : Type} (link : V -> option nat).

Fixpoint chain_b (h : gmap nat V) (p : option nat) (l : list nat) : bool :=
  match l with
  | [] => bool_decide (p = None)
  | x :: l => bool_decide (p = Some x) &&
      match h !! x with Some v => chain_b h (link v) l | None => false end
  end.

Lemma chain_b_spec h p l : chain_b h p l = true -> chain link h p l.
Proof.
  unfold chain. revert p. induction l as [| x l IH]; intros p; simpl; [apply bool_decide_eq_true |].
  rewrite andb_true_iff, bool_decide_eq_true. intros [-> Hl]. split; [reflexivity |].
  destruct (h !! x) as [v |]; [eauto | discriminate].
Qed.

Definition tailed_b (h : gmap nat V) (hd tl : option nat) (l : list nat) : bool :=
  chain_b h hd l && bool_decide (tl = last l).

Lemma tailed_b_spec h hd tl l : tailed_b h hd tl l = true -> tailed link h hd tl l.
Proof. unfold tailed_b. rewrite andb_true_iff, bool_decide_eq_true. intros [H1 H2]. split; [apply chain_b_spec, H1 | exact H2]. Qed.
End chains.

(** ** The matrix *)

Fixpoint queues_b (h : heap) (qs : list thread_ready_queue) (L : Levels.levels) : bool :=
  match qs, L with
  | [], [] => true
  | q :: qs, l :: L => tailed_b next h (rq_head q) (rq_tail q) l && queues_b h qs L
  | _, _ => false
  end.

Definition matrix_b (h : heap) (m : thread_ready_matrix) (L : Levels.levels) : bool :=
  queues_b h (matrix m) L && (0 <=? bitmap m)%Z && (bitmap m <? 2 ^ 32)%Z && (length L <=? 32) &&
  forallb (fun p => Bool.eqb (Z.testbit (bitmap m) (Z.of_nat p)) (negb (bool_decide (Levels.level L p = [])))) (seq 0 32) &&
  forallb (fun p => forallb (fun t => match h !! t with Some v => base_priority v =? p | None => false end)
                            (Levels.level L p)) (seq 0 (length L)).

Lemma matrix_b_spec h m L : matrix_b h m L = true -> matrix_repr h m L.
Proof.
  unfold matrix_b. rewrite !andb_true_iff. intros [[[[[Hq H0] H1] Hl] Hb] Hf].
  apply Z.leb_le in H0. apply Z.ltb_lt in H1. apply Nat.leb_le in Hl. split; [| lia | |].
  - clear - Hq. revert L Hq. induction (matrix m) as [| q qs IH]; intros [| l L]; simpl; try discriminate; [constructor |].
    rewrite andb_true_iff. intros [H1 H2]. constructor; [apply tailed_b_spec, H1 | auto].
  - intros p. destruct (decide (p < 32)) as [Hp | Hp].
    + apply (forallb_elem _ _ p) in Hb; [cbn beta in Hb; apply eqb_prop in Hb; exact Hb | apply elem_of_seq; lia].
    + rewrite (testbit_high _ 32) by lia. rewrite bool_decide_true; [reflexivity |].
      destruct (Levels.level L p) eqn:E; [reflexivity |].
      assert (p < length L) by (apply level_nonempty_lt; rewrite E; discriminate). lia.
  - intros p t Ht. assert (Hp : p < length L) by (apply level_nonempty_lt; intros E; rewrite E in Ht; inversion Ht).
    apply (forallb_elem _ _ p) in Hf; [cbn beta in Hf | apply elem_of_seq; lia]. apply (forallb_elem _ _ t) in Hf; [cbn beta in Hf | exact Ht].
    destruct (h !! t) as [v |]; [| discriminate]. apply Nat.eqb_eq in Hf. eauto.
Qed.

(** ** A core *)

Section core.
Context `{Config}.

Definition members (L : Levels.levels) (Hs : list nat) : list nat := concat L ++ Hs.

Lemma members_listed L Hs t : listed L Hs t <-> t ∈ members L Hs.
Proof.
  unfold listed, members. rewrite elem_of_app. f_equiv. unfold Levels.level. split.
  - intros [p Hp]. destruct (L !! p) as [l |] eqn:E; [| inversion Hp].
    apply list_elem_of_In, in_concat. exists l. split; apply list_elem_of_In; [| exact Hp].
    eapply list_elem_of_lookup_2. exact E.
  - intros Ht. apply list_elem_of_In, in_concat in Ht as (l & Hl & Ht). apply list_elem_of_In, list_elem_of_lookup_1 in Hl as [p Hp].
    exists p. rewrite Hp. apply list_elem_of_In, Ht.
Qed.

Definition core_b (c : nat) (sc : scheduler) (h : heap) (L : Levels.levels) (Hs : list nat) (run : option nat) : bool :=
  (core_id sc =? c) && matrix_b h (ready_matrix sc) L && (length L =? max_priorities) &&
  tailed_b holder_next h (holders_head sc) (holders_tail sc) Hs &&
  map_all (fun t v => negb (pinned_core v =? c) ||
    ((negb (is_enqueued t v) || bool_decide (t ∈ Levels.level L (base_priority v))) &&
     (negb (is_listed_holder t v) || bool_decide (t ∈ Hs)) &&
     (negb (bool_decide (state v = ThreadState.ready)) || bool_decide (idle_thread sc = Some t) ||
        bool_decide (t ∈ members L Hs)) &&
     (negb (bool_decide (state v = ThreadState.running)) || bool_decide (run = Some t)) &&
     (base_priority v <? max_priorities))) h &&
  forallb (fun t => match h !! t with
     | Some v => (pinned_core v =? c) && bool_decide (state v = ThreadState.ready) && negb (bool_decide (idle_thread sc = Some t))
     | None => false end) (members L Hs) &&
  forallb (fun t => negb (bool_decide (t ∈ Hs))) (concat L) &&
  (match run with
   | Some t => bool_decide (current_thread sc = Some t) &&
       match h !! t with Some v => (pinned_core v =? c) && bool_decide (state v = ThreadState.running) | None => false end
   | None => true end) &&
  (match current_thread sc with
   | Some t => match h !! t with Some v => pinned_core v =? c | None => false end
   | None => true end) &&
  (match idle_thread sc with
   | Some i => match h !! i with
       | Some v => (pinned_core v =? c) && holds_nothing v &&
           (bool_decide (state v = ThreadState.ready) || bool_decide (state v = ThreadState.running))
       | None => false end
   | None => false end).

Lemma core_b_spec c sc h L Hs run : core_b c sc h L Hs run = true -> core_ok c sc h L Hs run.
Proof.
  unfold core_b. rewrite !andb_true_iff.
  intros [[[[[[[[[Hid Hm] Hlen] Hh] Hall] Hmem] Honce] Hrun] Hcur] Hidle].
  apply Nat.eqb_eq in Hid, Hlen. pose proof (map_all_spec _ _ Hall) as Hall'. clear Hall.
  assert (Hblock : forall t v, h !! t = Some v -> pinned_core v = c ->
    (is_enqueued t v = true -> t ∈ Levels.level L (base_priority v)) /\
    (is_listed_holder t v = true -> t ∈ Hs) /\
    (state v = ThreadState.ready -> idle_thread sc <> Some t -> listed L Hs t) /\
    (state v = ThreadState.running -> run = Some t) /\ base_priority v < max_priorities).
  { intros t v Hv Hp. specialize (Hall' t v Hv). cbn beta in Hall'. rewrite Hp, Nat.eqb_refl in Hall'. cbn [negb orb] in Hall'.
    rewrite !andb_true_iff, !orb_true_iff, !negb_true_iff, !bool_decide_eq_true, !bool_decide_eq_false, Nat.ltb_lt, <- members_listed in Hall'.
    destruct Hall' as [[[[H1 H2] H3] H4] H5]. split_and!; auto.
    - intros E. destruct H1; [congruence | assumption].
    - intros E. destruct H2; [congruence | assumption].
    - intros E1 E2. destruct H3 as [[|] |]; [contradiction.. | assumption].
    - intros E. destruct H4; [contradiction | assumption]. }
  assert (Hmem' : forall t, listed L Hs t -> exists v, h !! t = Some v /\ pinned_core v = c /\
    state v = ThreadState.ready /\ idle_thread sc <> Some t).
  { intros t Ht. apply members_listed in Ht. apply (forallb_elem _ _ t Hmem) in Ht; cbn beta in Ht.
    destruct (h !! t) as [v |]; [| discriminate]. rewrite !andb_true_iff, negb_true_iff, bool_decide_eq_true, bool_decide_eq_false, Nat.eqb_eq in Ht.
    exists v. tauto. }
  split; [exact Hid | | | |].
  - split; [apply matrix_b_spec, Hm | exact Hlen | apply tailed_b_spec, Hh | |]; intros t v Hv Hp; apply (Hblock t v Hv Hp).
  - split; [exact Hmem' | | intros t v Hv Hp; apply (Hblock t v Hv Hp) | intros t v Hv Hp; apply (Hblock t v Hv Hp) | | |
      intros t v Hv Hp; apply (Hblock t v Hv Hp)].
    + intros p t Ht. assert (Hc : t ∈ concat L).
      { unfold Levels.level in Ht. destruct (L !! p) as [l |] eqn:E; [| inversion Ht].
        apply list_elem_of_In, in_concat. exists l. split; apply list_elem_of_In; [| exact Ht].
        eapply list_elem_of_lookup_2. exact E. }
      apply (forallb_elem _ _ t Honce) in Hc; cbn beta in Hc. rewrite negb_true_iff, bool_decide_eq_false in Hc. exact Hc.
    + intros t ->. rewrite andb_true_iff in Hrun. destruct Hrun as [_ Hr]. destruct (h !! t) as [v |]; [| discriminate].
      rewrite andb_true_iff, Nat.eqb_eq, bool_decide_eq_true in Hr. eauto.
    + destruct (idle_thread sc) as [i |]; [| discriminate]. destruct (h !! i) as [v |] eqn:Ei; [| discriminate].
      rewrite !andb_true_iff, orb_true_iff, !bool_decide_eq_true, Nat.eqb_eq in Hidle. exists i, v. tauto.
  - intros t Et. rewrite Et in Hcur. destruct (h !! t) as [v |]; [| discriminate]. apply Nat.eqb_eq in Hcur. eauto.
  - intros t ->. rewrite andb_true_iff, bool_decide_eq_true in Hrun. tauto.
Qed.

Definition intake_b (c : nat) (h : heap) (sc : scheduler) (I : list nat) : bool :=
  chain_b intake_next h (intake_head sc) I &&
  forallb (fun t => match h !! t with
     | Some v => (pinned_core v =? c) && (pending_requests v =? request_bit ThreadRequest.make_ready)%Z
     | None => false end) I &&
  map_all (fun t v => negb (pinned_core v =? c) || bool_decide (t ∈ I) || (pending_requests v =? 0)%Z) h.

Lemma intake_b_spec c h sc I : intake_b c h sc I = true -> intake_ok c h sc I.
Proof.
  unfold intake_b. rewrite !andb_true_iff. intros [[H1 H2] H3]. split; [apply chain_b_spec, H1 | |].
  - intros t Ht. apply (forallb_elem _ _ t H2) in Ht; cbn beta in Ht. destruct (h !! t) as [v |]; [| discriminate].
    rewrite andb_true_iff, Nat.eqb_eq, Z.eqb_eq in Ht. eauto.
  - intros t v Hv Hp Ht. pose proof (map_all_spec _ _ H3 t v Hv) as Hb. cbn beta in Hb.
    rewrite !orb_true_iff, negb_true_iff, Nat.eqb_neq, bool_decide_eq_true, Z.eqb_eq in Hb. tauto.
Qed.
End core.

(** ** Wait queues and held mutexes *)

Fixpoint ordered_b (prio : nat -> nat) (l : list nat) : bool :=
  match l with
  | [] => true
  | n :: l => forallb (fun m => prio n <=? prio m) l && ordered_b prio l
  end.

Lemma ordered_b_spec prio l : ordered_b prio l = true -> StronglySorted (fun a b => prio a <= prio b) l.
Proof.
  induction l as [| n l IH]; simpl; [constructor |]. rewrite andb_true_iff. intros [H1 H2].
  constructor; [auto |]. apply Forall_forall. intros m Hm. apply (forallb_elem _ _ m H1) in Hm; cbn beta in Hm. apply Nat.leb_le, Hm.
Qed.

Definition waiters_b (h : heap) (ns : node_heap) (q : wait_queue) (l : list nat) : bool :=
  chain_b node_next ns (wq_head q) l && forallb (fun n => is_ok (WaitQueue.key h ns n)) l &&
  ordered_b (WaitQueue.prio h ns) l.

Lemma waiters_b_spec h ns q l : waiters_b h ns q l = true -> WaitQueue.repr h ns q l.
Proof.
  unfold waiters_b. rewrite !andb_true_iff. intros [[H1 H2] H3].
  split; [apply chain_b_spec, H1 | intros n Hn; apply (forallb_elem _ _ n H2), Hn | apply ordered_b_spec, H3].
Qed.

Definition cache_b (h : heap) (ns : node_heap) (owner : option nat) (l : list nat) (pi : inheritance_cache) : bool :=
  (top_priority pi =? WaitQueue.best (WaitQueue.prio h ns) l) &&
  (may_have_bridges pi || forallb (fun n => match ns !! n with
     | Some v => bool_decide (Some (node_owner v) = owner) ||
         match h !! node_owner v with Some o => holds_nothing o | None => true end
     | None => true end) l).

Lemma cache_b_spec h ns owner l pi : cache_b h ns owner l pi = true -> WaitQueue.cache_ok h ns owner l pi.
Proof.
  unfold cache_b. rewrite andb_true_iff, orb_true_iff, Nat.eqb_eq. intros [H1 H2]. split; [exact H1 |].
  intros Hb n v o Hn Hv Ho Hx. destruct H2 as [H2 | H2]; [congruence |].
  apply (forallb_elem _ _ n H2) in Hn; cbn beta in Hn. rewrite Hv, Ho, orb_true_iff, bool_decide_eq_true in Hn. tauto.
Qed.

(** [waiting m] lists the nodes on [m]'s queue. *)
Definition wf_b (h : heap) (ns : node_heap) (ms : gmap nat base_mutex) (waiting : nat -> list nat) : bool :=
  map_all (fun t v => (length (held_slots v) =? max_held_per_thread) && (0 <=? held_mask v)%Z && (held_mask v <? 16)%Z &&
    (base_priority v <=? 255) &&
    forallb (fun i => negb (Z.testbit (held_mask v) (Z.of_nat i)) ||
      match held_slots v !! i with
      | Some (Some m) => match ms !! m with Some mx => bool_decide (owner mx = Some t) | None => false end
      | _ => true end) (seq 0 (length (held_slots v)))) h &&
  map_all (fun m mx => waiters_b h ns (mutex_queue mx) (waiting m) && cache_b h ns (owner mx) (waiting m) (mutex_pi mx)) ms.

Lemma wf_b_spec h ns ms waiting : wf_b h ns ms waiting = true -> Urgency.wf h ns ms.
Proof.
  unfold wf_b. rewrite andb_true_iff. intros [H1 H2].
  pose proof (map_all_spec _ _ H1) as Ht. pose proof (map_all_spec _ _ H2) as Hm. clear H1 H2. split.
  - intros t v Hv. specialize (Ht t v Hv). cbn beta in Ht.
    rewrite !andb_true_iff, Nat.eqb_eq, Nat.leb_le, Z.leb_le, Z.ltb_lt in Ht. destruct Ht as [[[[H1 H2] H3] H4] _]. auto.
  - intros t m (v & i & Hv & Hb & Hi). specialize (Ht t v Hv). cbn beta in Ht. rewrite !andb_true_iff in Ht.
    destruct Ht as [_ Hs]. apply (forallb_elem _ _ i) in Hs; [cbn beta in Hs |].
    2: { apply lookup_lt_Some in Hi. apply elem_of_seq. lia. }
    rewrite Hb, Hi in Hs. simpl in Hs. destruct (ms !! m) as [mx |]; [| discriminate].
    apply bool_decide_eq_true in Hs. eauto.
  - intros m mx Hmx. specialize (Hm m mx Hmx). cbn beta in Hm. rewrite andb_true_iff in Hm. destruct Hm as [H1 H2].
    exists (waiting m). split; [apply waiters_b_spec, H1 | apply cache_b_spec, H2].
Qed.


Lemma wf_b_repr h ns ms waiting : wf_b h ns ms waiting = true ->
  forall m mx, ms !! m = Some mx -> WaitQueue.repr h ns (mutex_queue mx) (waiting m).
Proof.
  unfold wf_b. rewrite andb_true_iff. intros [_ H2] m mx Hmx. pose proof (map_all_spec _ _ H2 m mx Hmx) as Hm.
  cbn beta in Hm. rewrite andb_true_iff in Hm. apply waiters_b_spec, Hm.
Qed.

(** The donation tree behind [t], within the bounds of the fold. *)
Fixpoint fits_b (h : heap) (ns : node_heap) (ms : gmap nat base_mutex) (waiting : nat -> list nat) (depth t : nat) : bool :=
  match h !! t with
  | None => true
  | Some v => forallb (fun i =>
      match held_slots v !! i with
      | Some (Some m) => negb (Z.testbit (held_mask v) (Z.of_nat i)) ||
          match ms !! m with
          | None => true
          | Some mx =>
              match depth with
              | O => negb (may_have_bridges (mutex_pi mx))
              | S depth => (length (Urgency.bridges h ns mx (waiting m)) <=? Urgency.max_snapshot) &&
                  forallb (fits_b h ns ms waiting depth) (Urgency.bridges h ns mx (waiting m))
              end
          end
      | _ => true
      end) (seq 0 (length (held_slots v)))
  end.

Lemma fits_b_spec h ns ms waiting :
  (forall m mx, ms !! m = Some mx -> WaitQueue.repr h ns (mutex_queue mx) (waiting m)) ->
  forall depth t, fits_b h ns ms waiting depth t = true -> Urgency.fits h ns ms depth t.
Proof.
  intros Hw. assert (Hslot : forall depth t m mx, fits_b h ns ms waiting depth t = true ->
    Urgency.holds h t m -> ms !! m = Some mx ->
    match depth with
    | O => may_have_bridges (mutex_pi mx) = false
    | S depth => length (Urgency.bridges h ns mx (waiting m)) <= Urgency.max_snapshot /\
        forall u, u ∈ Urgency.bridges h ns mx (waiting m) -> fits_b h ns ms waiting depth u = true
    end).
  { intros depth t m mx Hf (v & i & Hv & Hb & Hi) Hmx.
    assert (Hin : i ∈ seq 0 (length (held_slots v))) by (apply elem_of_seq; apply lookup_lt_Some in Hi; lia).
    destruct depth as [| depth]; cbn [fits_b] in Hf; rewrite Hv in Hf; pose proof (forallb_elem _ _ i Hf Hin) as Hx;
      cbn beta in Hx; rewrite Hi, Hb, Hmx in Hx; cbn [negb orb] in Hx.
    - apply negb_true_iff, Hx.
    - rewrite andb_true_iff, Nat.leb_le in Hx. destruct Hx as [H1 H2]. split; [exact H1 |].
      intros u Hu. exact (forallb_elem _ _ u H2 Hu). }
  induction depth as [| depth IH]; intros t Hf; cbn [Urgency.fits].
  - intros m mx Hh Hmx. exact (Hslot 0 t m mx Hf Hh Hmx).
  - intros m mx l Hh Hmx Hl. destruct (Hslot (S depth) t m mx Hf Hh Hmx) as [H1 H2].
    rewrite (repr_det h ns _ _ _ Hl (Hw m mx Hmx)). auto.
Qed.
