(* ===== verification/Kernel.v ===== *)
(** * The kernel's lifecycle, the thread registry and the thread API

    kernel.cpp, the part of scheduler.cpp that runs outside switching
    ([initialise], [start], [reset]), and the [thread] and [this_thread]
    members of threading_subsystem.cpp.  Where a control block lies in its
    stack buffer is given: the file StackLayout computes it. *)

From S2P Require Import Prelude Chain State ReadyQueue WaitQueue Urgency Scheduler Switch.

Module Kernel.
Definition idle_thread_id : Z := 0.

(** A [cancel_signal] as constructed. *)
Definition new_cancel_signal : cancel_signal := CancelSignal (WaitQueue None) false.

(** [thread_control_block]'s constructor, for the block at [t]. *)
Definition new_tcb (t priority : nat) (allowed : Z) : thread_control_block :=
  ThreadControlBlock ThreadState.created ThreadDisposition.none (Some t) 0 priority 0 allowed
    (replicate max_held_per_thread None) 0 None 0 false None (Some t) new_cancel_signal None.

(** [core_affinity]: its mask, and two members. *)
Definition allows (affinity : Z) (core : nat) : bool := negb (Z.land affinity (bit core) =? 0)%Z.
Definition from_id (core : nat) : Z := bit core.

(** A scheduler as constructed. *)
Definition new_scheduler `{Config} : scheduler :=
  Scheduler 0 0 None None ReadyMatrix.initial None None None 0.

(** The kernel's state before anything has run: all zero. *)
Definition boot `{Config} : kernel_state :=
  KernelState ∅ ∅ ∅ ∅ ∅ (replicate cores new_scheduler) false false 0 0 [].

Section kernel.
Context `{Config} (cx : cpu).

(** ** scheduler::initialise, start and reset *)

Definition initialise (c core idle : nat) : K unit :=
  kensure assert_failed (core <? cores) ;;*
  modify_scheduler c (set_core_id core) ;;*
  kmodify (fun s => set_tcbs (<[idle := new_tcb idle (max_priorities - 1) (from_id core)]> (tcbs s)) s) ;;*
  modify_scheduler c (set_idle_thread (Some idle)) ;;*
  modify_tcb idle (set_thread_id idle_thread_id) ;;*
  modify_tcb idle (set_state ThreadState.ready) ;;*
  modify_tcb idle (set_pinned_core core).

Definition start (c : nat) : K unit :=
  let* sc := get_scheduler c in
  kensure assert_failed (negb (bool_decide (idle_thread sc = None))) ;;*
  let* first := pop_best_thread c in
  let first := match first with Some t => Some t | None => idle_thread sc end in
  kensure assert_failed (negb (bool_decide (first = None))) ;;*
  let* first := klift (nonnull first) in
  let* v := get_tcb first in
  kensure assert_failed (bool_decide (state v = ThreadState.ready)) ;;*
  set_thread_running c first ;;*
  emit (port_start_first (core_id sc) first).

(** The walk of [reset] over the intake. *)
Fixpoint reset_intake (fuel : nat) (node : option nat) : K unit :=
  match node with
  | None => kret tt
  | Some n =>
      match fuel with
      | O => klift (Panic out_of_fuel)
      | S fuel =>
          let* v := get_tcb n in
          modify_tcb n (set_intake_next None) ;;*
          modify_tcb n (set_pending_requests 0%Z) ;;*
          kensure assert_failed (bool_decide (state v = ThreadState.terminated)) ;;*
          reset_intake fuel (intake_next v)
      end
  end.

Definition reset (c : nat) : K unit :=
  let* sc := get_scheduler c in
  let node := intake_head sc in
  modify_scheduler c (set_intake_head None) ;;*
  let* h := kget tcbs in
  reset_intake (S (size h)) node ;;*
  kensure assert_failed (ReadyMatrix.empty (ready_matrix sc)) ;;*
  kensure assert_failed (bool_decide (holders_head sc = None)) ;;*
  modify_scheduler c (set_holders_tail None) ;;*
  modify_scheduler c (set_tie_rotor 0%Z) ;;*
  modify_scheduler c (set_pinned_thread_counter 0%Z) ;;*
  modify_scheduler c (set_current_thread None) ;;*
  match idle_thread sc with
  | Some i => emit (port_context_destroy i) ;;* modify_scheduler c (set_idle_thread None)
  | None => kret tt
  end.

(** ** The thread registry *)

Definition pinned_thread_count (c : nat) : K Z :=
  let* sc := get_scheduler c in kret (pinned_thread_counter sc).

(** The loop of [pin_thread_to_core] over [todo] cores from [core] on. *)
Fixpoint least_loaded (todo core : nat) (affinity : Z) (best_core best_load : Z) (found : bool) :
    K (Z * bool) :=
  match todo with
  | O => kret (best_core, found)
  | S todo =>
      if negb (allows affinity core) then least_loaded todo (S core) affinity best_core best_load found
      else
        let* load := pinned_thread_count core in
        if (load <? best_load)%Z then least_loaded todo (S core) affinity (Z.of_nat core) load true
        else least_loaded todo (S core) affinity best_core best_load found
  end.

Definition uint32_max : Z := 2 ^ 32 - 1.

Definition pin_thread_to_core (t : nat) : K unit :=
  let* v := get_tcb t in
  let* '(best_core, found) := least_loaded cores 0 (affinity v) uint32_max uint32_max false in
  kensure require_failed found ;;*
  kensure assert_failed (best_core <? Z.of_nat cores)%Z ;;*
  pin_thread (Z.to_nat best_core) t.

Definition register_thread (t : nat) : K unit :=
  let* v := get_tcb t in
  kensure assert_failed (bool_decide (state v = ThreadState.created)) ;;*
  kensure assert_failed (negb (is_enqueued t v)) ;;*
  let* generated := kget thread_id_generator in
  kmodify (set_thread_id_generator (u32 (generated + 1))) ;;*
  modify_tcb t (set_thread_id generated) ;;*
  let* active := kget active_threads in
  kmodify (set_active_threads (u32 (active + 1))) ;;*
  pin_thread_to_core t ;;*
  emit (trace_point Trace.thread_created t) ;;*
  let* v := get_tcb t in
  let c := pinned_core v in
  kensure assert_failed (c <? cores) ;;*
  let* started := kget running in
  if negb started then Switch.set_thread_ready cx c t ReschedulePolicy.never ;;* kret tt
  else
    let* hint := Switch.global_ready_thread cx t ReschedulePolicy.automatic in
    if bool_decide (hint = ScheduleHint.warranted) then emit (port_pend_reschedule (this_core cx))
    else kret tt.

(** ** namespace kernel *)

Fixpoint initialise_cores (todo core : nat) (idle : nat -> nat) : K unit :=
  match todo with
  | O => kret tt
  | S todo => initialise core core (idle core) ;;* initialise_cores todo (S core) idle
  end.

(** [idle core] is where core's idle thread's block lies. *)
Definition kernel_initialise (idle : nat -> nat) : K unit :=
  let* done := kget initialised in
  kensure require_failed (negb done) ;;*
  emit port_init ;;*
  emit trace_lifecycle_begins ;;*
  initialise_cores cores 0 idle ;;*
  let* generated := kget thread_id_generator in
  kmodify (set_thread_id_generator (u32 (generated + 1))) ;;*
  kmodify (set_initialised true).

Definition kernel_start : K unit :=
  let* done := kget initialised in
  kensure require_failed done ;;*
  let* active := kget active_threads in
  kensure require_failed (0 <? active)%Z ;;*
  kmodify (set_running true) ;;*
  emit (port_start_cores cores).

Fixpoint reset_cores (todo core : nat) : K unit :=
  match todo with
  | O => kret tt
  | S todo => reset core ;;* reset_cores todo (S core)
  end.

Definition kernel_finalise : K unit :=
  let* done := kget initialised in
  kensure require_failed done ;;*
  kmodify (set_running false) ;;*
  kmodify (set_thread_id_generator 0%Z) ;;*
  kmodify (set_active_threads 0%Z) ;;*
  reset_cores cores 0 ;;*
  kmodify (set_initialised false).

(** ** class thread: a handle is its block's address, or nothing *)

(** A [thread::priority], checked where it is made. *)
Definition make_priority (v : nat) : K nat := kensure require_failed (v <? max_priorities) ;;* kret v.

(** The constructor, for a block at [t]. *)
Definition thread_create (t priority : nat) (allowed : Z) : K (option nat) :=
  let* priority := make_priority priority in
  kmodify (fun s => set_tcbs (<[t := new_tcb t priority allowed]> (tcbs s)) s) ;;*
  register_thread t ;;*
  kret (Some t).

Definition thread_destroy (handle : option nat) : K unit :=
  match handle with
  | None => kret tt
  | Some t => let* v := get_tcb t in kensure require_failed (bool_decide (state v = ThreadState.terminated))
  end.

(** [operator=(thread&&)]: what the two handles hold afterwards. *)
Definition thread_assign (self_move : bool) (this other : option nat) : K (option nat * option nat) :=
  if self_move then kret (this, other)
  else
    match this with
    | Some t => let* v := get_tcb t in kensure require_failed (bool_decide (state v = ThreadState.terminated))
    | None => kret tt
    end ;;*
    kret (other, None).

Definition get_id (handle : option nat) : K Z :=
  kensure require_failed (negb (bool_decide (handle = None))) ;;*
  let* t := klift (nonnull handle) in
  let* v := get_tcb t in kret (thread_id v).

Definition get_priority (handle : option nat) : K nat :=
  kensure require_failed (negb (bool_decide (handle = None))) ;;*
  let* t := klift (nonnull handle) in
  let* u := urgency t in
  make_priority u.

Definition resume (handle : option nat) : K unit :=
  kensure require_failed (negb (bool_decide (handle = None))) ;;*
  let* t := klift (nonnull handle) in
  modify_tcb t (set_resume_token true) ;;*
  let* hint := Switch.global_ready_thread cx t ReschedulePolicy.automatic in
  if bool_decide (hint = ScheduleHint.warranted) then emit (port_pend_reschedule (this_core cx))
  else kret tt.

(** ** namespace this_thread *)

Definition this_thread_id : K Z := current_thread_id (this_core cx).

Definition this_thread_priority : K nat :=
  let* u := current_thread_urgency (this_core cx) in
  make_priority u.

Definition thread_exit : K unit :=
  let* t := get_current_thread (this_core cx) in
  modify_tcb t (set_disposition ThreadDisposition.terminating) ;;*
  emit (port_thread_yield (this_core cx)).

(** One pass of [suspend]'s loop, up to where it may park: whether the
    suspend is over. *)
Definition suspend_pass (t : nat) : K bool :=
  modify_tcb t (set_disposition ThreadDisposition.prepared) ;;*
  let* v := get_tcb t in
  if resume_token v then
    modify_tcb t (set_resume_token false) ;;*
    modify_tcb t (set_disposition ThreadDisposition.none) ;;*
    kret true
  else
    Switch.commit_to_block cx t ;;*
    kret false.

Definition this_thread_yield : K unit := Switch.yield cx (this_core cx).
End kernel.
End Kernel.
