(* ===== verification/WakeProofs.v ===== *)
(** * The handler's road, wakes from anywhere, ties and placement

    What the kernel's remaining entry points leave: the handler's switch, the
    draining of an intake, a tie between a level and a holder, a wake made
    twice, a wake from another core, and where a thread is pinned. *)

From S2P Require Import Prelude Chain State ReadyQueue ReadyQueueProofs WaitQueue WaitQueueProofs Urgency UrgencyProofs Scheduler SchedulerSpec Local SchedulerProofs DispatchProofs PickProofs Switch RoadProofs SwitchProofs Cores Kernel.

Section roads.
Context `{Config} (cx : cpu) (c : nat) (s : kernel_state) (sc : scheduler) (L : Levels.levels) (Hs I : list nat).

Lemma reschedule_outcome prev v : core_inv c s sc L Hs (Some prev) I -> tcbs s !! prev = Some v ->
  disposition v <> ThreadDisposition.terminating ->
  wp (Switch.reschedule cx c)
    (fun _ s' => switch_outcome c s sc L Hs I (handler_reason (idle_thread sc) (tcbs s) I prev v L Hs) prev s' /\
       exists sc' next rest, schedulers s' !! c = Some sc' /\ current_thread sc' = Some next /\
         calls s' = port_switch c (Some prev) next :: rest) s.
Proof.
  intros Hinv Hv Hd. pose proof Hinv as [H1 H2 H3 H4 H5]. pose proof (inv_core_lt _ _ _ _ _ _ _ Hinv) as Hc.
  eapply wp_mono.
  - eapply (lwp_run c s sc L Hs (Some prev) I Hinv), (reschedule_ok cx c s Hc (tcbs s) sc L Hs (calls s) I prev v); assumption.
  - intros ? s' (sc' & h' & es' & -> & next & new & Hres & ->).
    split; [eapply switch_result_outcome; [exact Hinv | exact Hres] |]. exists sc', next, (new ++ calls s).
    split_and!; [apply put_scheduler, Hc | | reflexivity]. unfold switch_result in Hres.
    destruct (switched _ _ _ _ _ _ _ _) as [[[r L'] Hs'] rotor']. destruct Hres as (_ & _ & Hsr & _). apply (sr_current _ _ Hsr).
Qed.

(** The intake taken: its threads are filed in the order their wakes came. *)
Lemma drain_outcome run : core_inv c s sc L Hs run I ->
  wp (Switch.drain_intake cx c)
    (fun _ s' => let '(L', Hs', run') := arrivals (idle_thread sc) (tcbs s) (reverse I) L Hs run in
       exists sc', core_inv c s' sc' L' Hs' run' [] /\ local c s s' /\ idle_thread sc' = idle_thread sc /\
         forall x, disposition <$> tcbs s' !! x = (fun v => disposition (serviced_of I x v)) <$> tcbs s !! x) s.
Proof.
  intros Hinv. pose proof Hinv as [H1 H2 H3 H4 H5]. pose proof (inv_core_lt _ _ _ _ _ _ _ Hinv) as Hc.
  eapply wp_mono.
  - eapply (lwp_run c s sc L Hs run I Hinv), (drain_intake_ok cx c s Hc (tcbs s) sc L Hs run (calls s) I); assumption.
  - intros ? s' (sc' & h' & es' & -> & Hdr & _). 
    pose proof Hdr as (Hok & Hsr & Ho & _). destruct (arrivals _ _ _ _ _ _) as [[L' Hs'] run'].
    assert (Hview : urgency_view <$> tcbs s = urgency_view <$> h') by (eapply drained_view, Hdr).
    exists sc'. split_and!; [| apply put_local; assumption | apply (sr_idle _ _ Hsr) |].
    2: { intros x. destruct Hdr as (_ & _ & _ & Hx). specialize (Hx x). cbn.
      destruct (tcbs s !! x) as [w |], (h' !! x) as [w' |]; try discriminate; [| reflexivity]. cbn in *.
      apply (inj Some) in Hx. f_equal. change (disposition (erase_links w') = disposition (erase_links (serviced_of I x w))). rewrite Hx. reflexivity. }
    split; [apply put_scheduler, Hc | exact Hok | eapply wf_frame; [exact Hview | exact H3] | | auto].
    apply (quiet_intake c s Hc sc' h'). eapply drained_quiet; eassumption.
Qed.

(** Its threads are awake. *)
Lemma drain_awake run t v : core_inv c s sc L Hs run I -> t ∈ I -> tcbs s !! t = Some v -> is_finished v = false ->
  wp (Switch.drain_intake cx c) (fun _ s' => awake_on c t s') s.
Proof.
  intros Hinv Ht Hv Hf. pose proof (ci_core _ _ _ _ _ _ _ Hinv) as Hok. eapply wp_mono; [apply (drain_outcome run Hinv) |].
  intros ? s' Hout. pose proof (arrivals_listed (idle_thread sc) (tcbs s) (reverse I)) as Hl.
  specialize (Hl ltac:(intros x w Hx Hw; rewrite elem_of_reverse in Hx;
    destruct (in_claimed _ _ _ _ (ci_intake _ _ _ _ _ _ _ Hinv) x Hx) as (w' & Hw' & Hp & _);
    assert (w' = w) as -> by congruence; eapply st_priority; [apply Hok | exact Hw | exact Hp])).
  specialize (Hl L Hs run (fl_levels _ _ _ _ _ (co_filed _ _ _ _ _ _ Hok))).
  destruct (arrivals _ _ _ _ _ _) as [[L' Hs'] run']. destruct Hl as (_ & _ & Hl).
  destruct Hout as (sc' & Hinv' & _ & Ei & Hx). split.
  - unfold settled. rewrite (Hx t), Hv. cbn. f_equal. unfold serviced_of. rewrite bool_decide_true by exact Ht. unfold serviced. cbv zeta.
    unfold is_finished in Hf. apply orb_false_iff in Hf as [_ Hd]. cbn [disposition set_pending_requests set_intake_next]. rewrite Hd.
    destruct (is_finished _); reflexivity.
  - do 5 eexists. split; [exact Hinv' | right]. rewrite Ei. destruct (decide (idle_thread sc = Some t)) as [| Hne]; [auto | left].
    apply (Hl t v); auto. apply elem_of_reverse, Ht.
Qed.
End roads.

(** ** A tie between a level and a holder *)

Lemma land_bit_zero z p : (Z.land z (bit p) =? 0)%Z = negb (Z.testbit z (Z.of_nat p)).
Proof.
  destruct (Z.testbit z (Z.of_nat p)) eqn:E; simpl.
  - apply Z.eqb_neq. intros E0. assert (Hb : Z.testbit (Z.land z (bit p)) (Z.of_nat p) = false) by (rewrite E0; apply Z.bits_0).
    rewrite Z.land_spec, E, testbit_bit, bool_decide_true in Hb by reflexivity. discriminate.
  - apply Z.eqb_eq, Z.bits_inj'. intros k Hk. rewrite Z.land_spec, Z.bits_0, <- (Z2Nat.id k), testbit_bit by exact Hk.
    case_bool_decide as Ek; [| apply andb_false_r]. rewrite <- Ek, E. reflexivity.
Qed.

Section picks.
Context `{Config} (cx : cpu) (c : nat) (s : kernel_state) (sc : scheduler) (L : Levels.levels) (Hs I : list nat) (run : option nat).
Context (Hinv : core_inv c s sc L Hs run I).

Lemma pick_tie t p : first_best (urg s (tcbs s)) Hs None 255 = (Some t, p) -> Levels.best L = Some p ->
  wp (pick_next c)
    (fun r s' => r = (if Z.testbit (tie_rotor sc) (Z.of_nat p) then head (Levels.level L p) else Some t) /\
       exists sc', schedulers s' !! c = Some sc' /\ tie_rotor sc' = Z.lxor (tie_rotor sc) (bit p)) s.
Proof.
  intros Ef Eb. pose proof Hinv as [H1 H2 H3 H4 H5]. pose proof (inv_core_lt _ _ _ _ _ _ _ Hinv) as Hc.
  eapply wp_mono; [eapply (lwp_run c s sc L Hs run I Hinv), (pick_next_ok c s Hc (tcbs s) sc L Hs run (calls s) H2 H3) |].
  intros r s' (sc' & h' & es' & -> & -> & Hp). unfold pick, choose in Hp. rewrite Ef, Eb, Nat.ltb_irrefl, Nat.eqb_refl in Hp.
  rewrite land_bit_zero, Z.lxor_spec, testbit_bit, bool_decide_true in Hp by reflexivity.
  destruct (pop_best _ _ Eb) as (x & l & El & Ep).
  destruct (Z.testbit (tie_rotor sc) (Z.of_nat p)); cbn [xorb negb] in Hp.
  - rewrite Ep in Hp. destruct Hp as [-> Hp]. split; [rewrite El; reflexivity |].
    exists sc'. split; [apply put_scheduler, Hc | apply Hp].
  - destruct Hp as [-> Hp]. split; [reflexivity |]. exists sc'. split; [apply put_scheduler, Hc | apply Hp].
Qed.

(** ** A wake made twice *)

Lemma make_ready_filed t v : tcbs s !! t = Some v -> pinned_core v = c -> listed L Hs t ->
  (t ∈ Levels.level L (base_priority v) -> holds_nothing v = true) ->
  make_ready c t s = Ok (ScheduleHint.unwarranted, s).
Proof.
  intros Hv Hp Hl Hh. pose proof (ci_core _ _ _ _ _ _ _ Hinv) as [_ Hf Hst _ _].
  destruct (st_listed _ _ _ _ _ _ Hst t Hl) as (v' & Hv' & _ & Hr & _). assert (v' = v) as -> by congruence.
  unfold make_ready, kbind at 1. unfold get_tcb at 1. rewrite Hv. destruct (is_finished v); [reflexivity |].
  rewrite (enqueued_iff _ _ _ _ _ _ _ Hf Hv Hp), (listed_iff _ _ _ _ _ _ _ Hf Hv Hp).
  assert (Eor : bool_decide (t ∈ Levels.level L (base_priority v)) || bool_decide (t ∈ Hs) = true).
  { apply orb_true_iff. rewrite !bool_decide_eq_true. destruct Hl as [[p Hl] | Hl]; [left | auto].
    destruct (level_sentinel _ _ _ _ _ _ _ _ Hf Hv Hl) as [_ <-]. exact Hl. }
  rewrite Eor. unfold kbind, kensure. rewrite (bool_decide_true (state v = _)) by exact Hr.
  case_bool_decide as E; [rewrite (Hh E) |]; reflexivity.
Qed.
End picks.

Section twice.
Context `{Config} (c : nat) (s : kernel_state) (sc : scheduler) (L : Levels.levels) (Hs I : list nat) (run : option nat).

(** Once made ready, a thread that holds something is on no level. *)
Lemma made_ready_holder idle t v : base_priority v < length L ->
  (forall p, t ∈ Levels.level L p -> base_priority v = p) -> is_finished v = false -> holds_nothing v = false ->
  let '(L', _) := made_ready idle t v L Hs in t ∉ Levels.level L' (base_priority v).
Proof.
  intros Hp Hl Hf Hh. unfold made_ready, admitted. rewrite Hf, Hh. case_bool_decide as E.
  - unfold Levels.remove. rewrite level_insert, decide_True by auto. intros Hx. apply list_elem_of_filter in Hx as [Hx _]. congruence.
  - case_bool_decide; [exact E |]. case_bool_decide; exact E.
Qed.

Lemma make_ready_twice t v : core_inv c s sc L Hs run I -> tcbs s !! t = Some v -> pinned_core v = c ->
  idle_thread sc <> Some t ->
  wp (make_ready c t) (fun _ s1 => make_ready c t s1 = Ok (ScheduleHint.unwarranted, s1)) s.
Proof.
  intros Hinv Hv Hp Hi. pose proof (ci_core _ _ _ _ _ _ _ Hinv) as Hok.
  eapply wp_mono; [apply (make_ready_outcome c s sc L Hs run I Hinv t v Hv Hp) |].
  intros r s1 (sc1 & Hinv1 & Hsr & Hloc & Hl & _).
  destruct (is_finished v) eqn:Hf.
  { destruct (same_links_lookup _ _ t _ Hl (lookup_insert_eq _ _ _)) as (v1 & Hv1 & E1).
    unfold make_ready, kbind at 1. unfold get_tcb at 1. rewrite Hv1.
    assert (E : is_finished v1 = true); [| rewrite E; reflexivity].
    change (is_finished (erase_links v1) = true). rewrite <- E1 || rewrite E1. unfold is_finished in *. exact Hf. }
  assert (Hb : base_priority v < length L).
  { rewrite (fl_levels _ _ _ _ _ (co_filed _ _ _ _ _ _ Hok)). eapply st_priority; [apply Hok | exact Hv | exact Hp]. }
  pose proof (made_ready_self (idle_thread sc) t v L Hs Hb Hf Hi) as Hself.
  pose proof (made_ready_holder (idle_thread sc) t v Hb) as Hhold.
  destruct (same_links_lookup _ _ t _ Hl (lookup_insert_eq _ _ _)) as (v1 & Hv1 & E1).
  destruct (made_ready (idle_thread sc) t v L Hs) as [L' Hs'].
  assert (Est : base_priority v1 = base_priority v /\ pinned_core v1 = pinned_core v /\ holds_nothing v1 = holds_nothing v).
  { destruct v, v1. injection E1. intros. subst. auto. }
  destruct Est as (Eb & Ep & Eh).
  eapply make_ready_filed; [exact Hinv1 | exact Hv1 | congruence | exact Hself |].
  rewrite Eb, Eh. intros Hx. destruct (holds_nothing v) eqn:Hn; [reflexivity |]. exfalso.
  apply Hhold; auto. intros p Hpx. destruct (level_sentinel _ _ _ _ _ _ _ _ (co_filed _ _ _ _ _ _ Hok) Hv Hpx). assumption.
Qed.
End twice.

(** ** Wakes from anywhere *)

Section anywhere.
Context `{Config} (cx : cpu) (c : nat) (s : kernel_state) (sc : scheduler) (L : Levels.levels) (Hs I : list nat).

Lemma global_wake_ok prev t v policy : kernel_inv s -> core_inv c s sc L Hs (Some prev) I ->
  tcbs s !! t = Some v -> pinned_core v = c -> is_finished v = false -> c < cores ->
  wp (Switch.global_ready_thread cx t policy)
    (fun _ s' => kernel_inv s' /\ local c s s' /\ delivered t s' /\ arrives cx c sc L Hs (Some prev) I t s') s.
Proof.
  intros Hk Hinv Hv Hp Hf Hc. eapply wp_mono.
  - apply (global_ready_thread_on_arrives false cx (Switch.set_thread_ready cx) c s sc L Hs (Some prev) I t v policy Hinv Hv Hp Hf Hc).
    intros s0 v0 _ Hinv0 Hv0 Hp0 Hf0 Hd0 _ Hr0. eapply set_thread_ready_woken; try eassumption; [reflexivity |].
    intros ->. destruct (st_run _ _ _ _ _ _ (co_status _ _ _ _ _ _ (ci_core _ _ _ _ _ _ _ Hinv0)) prev eq_refl) as (w & Hw & _ & Hr). congruence.
  - intros ? s' (Ha & Hloc & _). destruct (arrives_delivered _ _ _ _ _ _ _ _ _ Ha) as (Hd & sc' & L' & Hs' & run' & I' & Hinv').
    split_and!; auto. eapply kernel_inv_local; eassumption.
Qed.

(** From the thread's own core it is awake; from another it is on its core's
    intake, whose next draining wakes it. *)
Lemma arrives_lands run t s' : arrives cx c sc L Hs run I t s' ->
  (1 < cores -> this_core cx <> c -> (exists sc', core_inv c s' sc' L Hs run (posted I t)) /\
     forall cy, wp (Switch.drain_intake cy c) (fun _ s2 => awake_on c t s2) s') /\
  (cores = 1 \/ this_core cx = c -> awake_on c t s').
Proof.
  unfold arrives. destruct (Nat.ltb_spec 1 cores) as [Hm | Hm], (Nat.eqb_spec (this_core cx) c) as [Hc | Hc]; cbn [andb negb];
    intros Ha; split; try lia; try (intros; contradiction); auto.
  intros _ _. destruct Ha as [[sc' Hinv'] (w & Hw & Hf)]. split; [eauto |]. intros cy.
  eapply drain_awake; [exact Hinv' | apply posted_self | exact Hw | exact Hf].
Qed.

(** From another core a wake is a post: a push, and the doorbell when the
    intake was empty. *)
Lemma remote_wake_ok run t v policy : core_inv c s sc L Hs run I -> tcbs s !! t = Some v -> pinned_core v = c ->
  is_finished v = false -> c < cores -> this_core cx <> c -> 1 < cores ->
  wp (Switch.global_ready_thread cx t policy)
    (fun r s' => r = ScheduleHint.unwarranted /\
       (exists sc', core_inv c s' sc' L Hs run (posted I t)) /\ local c s s' /\
       calls s' = (if bool_decide (I = []) then [port_send_reschedule_ipi (this_core cx) c] else []) ++
                  trace_point Trace.remote_wake t :: calls s) s.
Proof.
  intros Hinv Hv Hp Hf Hc Hne Hmany. unfold Switch.global_ready_thread, Switch.global_ready_thread_on.
  apply wp_bind. eapply wp_get_tcb; [exact Hv |]. rewrite Hf, Hp. apply wp_bind, wp_ensure; [apply Nat.ltb_lt, Hc |].
  rewrite (proj2 (Nat.ltb_lt _ _) Hmany), (proj2 (Nat.eqb_neq _ _) Hne). cbn [andb negb].
  apply wp_bind, wp_emit, wp_bind. set (s0 := set_calls _ s).
  assert (Hinv0 : core_inv c s0 sc L Hs run I) by (destruct Hinv; split; assumption).
  eapply wp_mono; [apply (post_intake_ok cx c s0 sc L Hs run I t v Hinv0 Hv Hp Hmany) |].
  intros ? s' (sc' & Hinv' & Hloc & _ & Ecalls & _). apply wp_ret. split_and!; [reflexivity | eauto | |].
  - transitivity s0; [split; reflexivity | exact Hloc].
  - rewrite Ecalls. unfold doorbell. destruct (decide (I = [])) as [-> | Hi].
    + rewrite (bool_decide_false (t ∈ [])) by (intros Hx; inversion Hx). reflexivity.
    + rewrite (bool_decide_false (I = [])) by exact Hi. destruct (bool_decide (t ∈ I)); reflexivity.
Qed.
End anywhere.

(** ** Placement *)

Section placement.
Context `{Config} (s : kernel_state) (affinity : Z).

(** Core [n] is the first of the least loaded allowed cores in [[lo, hi)]. *)
Definition least (lo hi n : nat) (sn : scheduler) : Prop :=
  lo <= n < hi /\ Kernel.allows affinity n = true /\ schedulers s !! n = Some sn /\
  forall d sd, lo <= d < hi -> Kernel.allows affinity d = true -> schedulers s !! d = Some sd ->
    (pinned_thread_counter sn <= pinned_thread_counter sd)%Z /\
    (d < n -> (pinned_thread_counter sn < pinned_thread_counter sd)%Z).

Lemma least_loaded_ok todo : forall core bc bl found, core + todo <= length (schedulers s) ->
  wp (Kernel.least_loaded todo core affinity bc bl found)
    (fun r s' => s' = s /\
       ((r = (bc, found) /\ forall d sd, core <= d < core + todo -> Kernel.allows affinity d = true ->
           schedulers s !! d = Some sd -> (bl <= pinned_thread_counter sd)%Z) \/
        exists n sn, r = (Z.of_nat n, true) /\ least core (core + todo) n sn /\ (pinned_thread_counter sn < bl)%Z)) s.
Proof.
  induction todo as [| todo IH]; intros core bc bl found Hlen; cbn [Kernel.least_loaded].
  { apply wp_ret. split; [reflexivity | left]. split; [reflexivity | lia]. }
  destruct (lookup_lt_is_Some_2 (schedulers s) core ltac:(lia)) as [sd Hsd].
  assert (Hgo : forall d sd', core <= d < core + S todo -> schedulers s !! d = Some sd' ->
    (d = core /\ sd' = sd) \/ S core <= d < S core + todo).
  { intros d sd' Hd Hsd'. destruct (decide (d = core)) as [-> | Hne]; [left; split; congruence | right; lia]. }
  assert (Hstay : Kernel.allows affinity core = false \/ (bl <= pinned_thread_counter sd)%Z ->
    wp (Kernel.least_loaded todo (S core) affinity bc bl found)
      (fun r s' => s' = s /\
       ((r = (bc, found) /\ forall d sd, core <= d < core + S todo -> Kernel.allows affinity d = true ->
           schedulers s !! d = Some sd -> (bl <= pinned_thread_counter sd)%Z) \/
        exists n sn, r = (Z.of_nat n, true) /\ least core (core + S todo) n sn /\ (pinned_thread_counter sn < bl)%Z)) s).
  { intros Hst. eapply wp_mono; [apply IH; lia |]. intros r s' [-> [[-> Hall] | (n & sn & -> & (Hn & Ha & Hsn & Hall) & Hlt)]]; split; auto.
    - left. split; [reflexivity |]. intros d sd' Hd Had Hsd'. destruct (Hgo d sd' Hd Hsd') as [[-> ->] | Hd']; [| eauto].
      destruct Hst; [congruence | assumption].
    - right. exists n, sn. split_and!; auto. split_and!; [lia | lia | exact Ha | exact Hsn |]. intros d sd' Hd Had Hsd'.
      destruct (Hgo d sd' Hd Hsd') as [[-> ->] | Hd']; [| eauto]. destruct Hst; [congruence | lia]. }
  destruct (Kernel.allows affinity core) eqn:Ea; cbn [negb]; [| apply Hstay; auto].
  apply wp_bind. unfold Kernel.pinned_thread_count. apply wp_bind. eapply wp_get_scheduler; [exact Hsd |]. apply wp_ret.
  destruct (Z.ltb_spec (pinned_thread_counter sd) bl) as [Hlt | Hge]; [| apply Hstay; auto].
  eapply wp_mono; [apply IH; lia |]. intros r s' [-> [[-> Hall] | (n & sn & -> & (Hn & Ha & Hsn & Hall) & Hlt')]]; split; auto; right.
  - exists core, sd. split_and!; [reflexivity | | exact Hlt]. split_and!; [lia | lia | exact Ea | exact Hsd |].
    intros d sd' Hd Had Hsd'. destruct (Hgo d sd' Hd Hsd') as [[-> ->] | Hd']; [lia |].
    split; [eapply Hall; eassumption | lia].
  - exists n, sn. split_and!; [reflexivity | | lia]. split_and!; [lia | lia | exact Ha | exact Hsn |].
    intros d sd' Hd Had Hsd'. destruct (Hgo d sd' Hd Hsd') as [[-> ->] | Hd']; [lia | eauto].
Qed.
End placement.

Section pinning.
Context `{Config} (s : kernel_state) (t : nat) (v : thread_control_block).
Context (Hlen : length (schedulers s) = cores) (Hv : tcbs s !! t = Some v)
  (Hids : forall c sc, schedulers s !! c = Some sc -> core_id sc = c).

Lemma pin_thread_to_core_ok :
  (exists c sc, c < cores /\ Kernel.allows (affinity v) c = true /\ schedulers s !! c = Some sc /\
     (pinned_thread_counter sc < Kernel.uint32_max)%Z) ->
  wp (Kernel.pin_thread_to_core t)
    (fun _ s' => exists n sn, least s (affinity v) 0 cores n sn /\
       s' = set_schedulers (<[n := set_pinned_thread_counter (u32 (pinned_thread_counter sn + 1)) sn]> (schedulers s))
              (set_tcbs (<[t := set_pinned_core n v]> (tcbs s)) s)) s.
Proof.
  intros (c & sc & Hc & Ha & Hsc & Hlt). unfold Kernel.pin_thread_to_core. apply wp_bind. eapply wp_get_tcb; [exact Hv |].
  apply wp_bind. eapply wp_mono; [apply (least_loaded_ok s (affinity v) cores 0); lia |].
  intros [b f] s' [-> Hr]. destruct Hr as [[E Hall] | (n & sn & E & Hleast & _)].
  { exfalso. specialize (Hall c sc ltac:(lia) Ha Hsc). lia. }
  injection E as -> ->. pose proof Hleast as ([_ Hn] & _ & Hsn & _). rewrite Nat.add_0_l in *.
  apply wp_bind, wp_ensure; [reflexivity |]. apply wp_bind, wp_ensure; [apply Z.ltb_lt; lia |]. rewrite Nat2Z.id.
  unfold pin_thread. apply wp_bind. eapply wp_get_scheduler; [exact Hsn |]. rewrite (Hids n sn Hsn).
  apply wp_bind, wp_ensure; [apply Nat.ltb_lt; pose proof cores_valid; lia |]. apply wp_bind. eapply wp_modify_tcb; [exact Hv |].
  eapply wp_modify_scheduler; [exact Hsn |]. exists n, sn. split; [exact Hleast | reflexivity].
Qed.

Lemma pin_thread_to_core_refuses : (forall c, c < cores -> Kernel.allows (affinity v) c = false) ->
  Kernel.pin_thread_to_core t s = Panic require_failed.
Proof.
  intros Hno. unfold Kernel.pin_thread_to_core, kbind at 1. unfold get_tcb at 1. rewrite Hv.
  destruct (wp_elim _ _ _ (least_loaded_ok s (affinity v) cores 0 Kernel.uint32_max Kernel.uint32_max false ltac:(lia))) as ([b f] & s' & E & -> & Hr).
  unfold kbind at 1. rewrite E. destruct Hr as [[Er _] | (n & sn & _ & ([_ Hn] & Ha & _) & _)].
  - injection Er as -> ->. reflexivity.
  - rewrite Hno in Ha by lia. discriminate.
Qed.
End pinning.
