(* ===== verification/MutexProofs.v ===== *)
(** * The mutex: ownership and the held slots kept in step

    [accounts] ties the four places ownership is written: a mutex's owner and
    slot index, and its owner's slots and mask.  [but] names a mutex whose
    entries are being moved; between two operations there is none. *)

From S2P Require Import Prelude Chain State ReadyQueue ReadyQueueProofs WaitQueue WaitQueueProofs Urgency UrgencyProofs Scheduler SchedulerSpec Local SchedulerProofs DispatchProofs PickProofs Switch RoadProofs SwitchProofs Cores ExitProofs Waking Mutex.

(** Node [n] of thread [t] is on [m]'s queue. *)
Definition on_queue (ns : node_heap) (ms : gmap nat base_mutex) (m n t : nat) : Prop :=
  exists mx l nd, ms !! m = Some mx /\ chain node_next ns (wq_head (mutex_queue mx)) l /\
    n ∈ l /\ ns !! n = Some nd /\ node_owner nd = t.

Record accounts (but : option nat) (h : heap) (ns : node_heap) (ms : gmap nat base_mutex) : Prop := {
  ac_block : forall t v, h !! t = Some v ->
    length (held_slots v) = max_held_per_thread /\ (0 <= held_mask v < 16)%Z /\ base_priority v <= 255;
  ac_slot : forall t v i m, h !! t = Some v -> held_slots v !! i = Some (Some m) ->
    but <> Some m /\ Z.testbit (held_mask v) (Z.of_nat i) = true /\
    exists mx, ms !! m = Some mx /\ owner mx = Some t /\ held_slot mx = i;
  ac_bit : forall t v i, h !! t = Some v -> Z.testbit (held_mask v) (Z.of_nat i) = true ->
    exists m, held_slots v !! i = Some (Some m);
  ac_owner : forall m mx t, ms !! m = Some mx -> but <> Some m -> owner mx = Some t ->
    exists v, h !! t = Some v /\ held_slots v !! held_slot mx = Some (Some m);
  ac_free : forall m mx, ms !! m = Some mx -> but <> Some m -> owner mx = None -> held_slot mx = Mutex.not_held;
  ac_queue : forall m mx, ms !! m = Some mx ->
    exists l, WaitQueue.repr h ns (mutex_queue mx) l /\ WaitQueue.cache_ok h ns None l (mutex_pi mx);
  ac_once : forall m m' n n' t, on_queue ns ms m n t -> on_queue ns ms m' n' t -> m = m' /\ n = n';
  ac_away : forall m mx n t, ms !! m = Some mx -> but <> Some m -> on_queue ns ms m n t -> owner mx <> Some t
}.

Lemma no_but (y : nat) : None <> Some y.
Proof. discriminate. Qed.

Section accounts.
Implicit Types (h : heap) (ns : node_heap) (ms : gmap nat base_mutex).

Lemma accounts_wf but h ns ms : accounts but h ns ms -> Urgency.wf h ns ms.
Proof.
  intros [A1 A2 A3 A4 A5 A6 A7 A8]. split; [exact A1 | |].
  - intros t m (v & i & Hv & _ & Hi). destruct (A2 t v i m Hv Hi) as (_ & _ & mx & Hmx & Ho & _). eauto.
  - intros m mx Hmx. destruct (A6 m mx Hmx) as (l & Hl & [C1 C2]). exists l. split; [exact Hl |]. split; [exact C1 |].
    intros Hb n v o Hn Hv Ho _. eapply C2; eauto; discriminate.
Qed.

(** ** Blocks *)

(** A block's slots and mask changed, its thread on no queue. *)
Lemma key_reheld h ns t v w n : h !! t = Some v -> base_priority w = base_priority v ->
  WaitQueue.key (<[t := w]> h) ns n = WaitQueue.key h ns n.
Proof.
  intros Hv Hb. unfold WaitQueue.key, deref. destruct (ns !! n) as [nd |]; [| reflexivity]. cbn.
  destruct (decide (node_owner nd = t)) as [-> | Hne].
  - rewrite lookup_insert_eq, Hv. cbn. congruence.
  - rewrite lookup_insert_ne by congruence. reflexivity.
Qed.

Lemma repr_reheld h ns t v w q l : h !! t = Some v -> base_priority w = base_priority v ->
  WaitQueue.repr h ns q l -> WaitQueue.repr (<[t := w]> h) ns q l.
Proof.
  intros Hv Hb [R1 R2 R3]. split; [exact R1 | |].
  - intros n Hn. rewrite (key_reheld h ns t v w n Hv Hb). auto.
  - eapply StronglySorted_weaken; [| exact R3]. intros a b. unfold WaitQueue.prio.
    rewrite !(key_reheld h ns t v w _ Hv Hb). auto.
Qed.

Lemma queue_reheld h ns ms t v w m mx : h !! t = Some v -> base_priority w = base_priority v ->
  ms !! m = Some mx -> (forall n, ~ on_queue ns ms m n t) ->
  (exists l, WaitQueue.repr h ns (mutex_queue mx) l /\ WaitQueue.cache_ok h ns None l (mutex_pi mx)) ->
  exists l, WaitQueue.repr (<[t := w]> h) ns (mutex_queue mx) l /\ WaitQueue.cache_ok (<[t := w]> h) ns None l (mutex_pi mx).
Proof.
  intros Hv Hb Hmx Hq (l & Hl & [C1 C2]). exists l. split; [eapply repr_reheld; eassumption |]. split.
  - rewrite C1. destruct l as [| n l]; [reflexivity |]. cbn. unfold WaitQueue.prio. rewrite (key_reheld h ns t v w n Hv Hb). reflexivity.
  - intros Hm n nd o Hn Hnd Ho _. destruct (decide (node_owner nd = t)) as [E | Hne].
    + destruct (Hq n). exists mx, l, nd. split_and!; auto. apply Hl.
    + rewrite lookup_insert_ne in Ho by congruence. eapply C2; eauto; discriminate.
Qed.

(** [on_queue] reads of a mutex only its queue. *)
Lemma on_queue_mutex ns ms m mx mx' x n t : ms !! m = Some mx -> mutex_queue mx' = mutex_queue mx ->
  on_queue ns (<[m := mx']> ms) x n t <-> on_queue ns ms x n t.
Proof.
  intros Hmx Hq. unfold on_queue. split; intros (my & l & nd & Hy & Hc & Hr).
  - destruct (decide (x = m)) as [-> | Hne].
    + rewrite lookup_insert_eq in Hy. injection Hy as <-. rewrite Hq in Hc. eauto 6.
    + rewrite lookup_insert_ne in Hy by congruence. eauto 6.
  - destruct (decide (x = m)) as [-> | Hne].
    + assert (my = mx) as -> by congruence. exists mx', l, nd. rewrite lookup_insert_eq, Hq. auto.
    + exists my, l, nd. rewrite lookup_insert_ne by congruence. auto.
Qed.

(** ** Moves *)

(** Taking [m] out of its owner's slots. *)
Lemma accounts_retire h ns ms m mx t v : accounts None h ns ms -> ms !! m = Some mx -> owner mx = Some t ->
  h !! t = Some v -> (forall x n, ~ on_queue ns ms x n t) ->
  accounts (Some m)
    (<[t := set_held_slots (<[held_slot mx := None]> (held_slots v)) (set_held_mask (clear_bit 8 (held_mask v) (held_slot mx)) v)]> h)
    ns (<[m := set_held_slot Mutex.not_held mx]> ms).
Proof.
  intros Hac Hmx Ho Hv Hq. pose proof Hac as [A1 A2 A3 A4 A5 A6 A7 A8].
  destruct (A4 m mx t Hmx (no_but _) Ho) as (v' & Hv' & Hslot). assert (v' = v) as -> by congruence.
  destruct (A1 t v Hv) as (Hl & Hm & Hb). set (i := held_slot mx) in *. set (w := set_held_slots _ _).
  assert (Hi : i < 4) by (apply lookup_lt_Some in Hslot; unfold max_held_per_thread in Hl; lia).
  assert (Hbits : forall k, Z.testbit (held_mask w) (Z.of_nat k) = Z.testbit (held_mask v) (Z.of_nat k) && negb (bool_decide (i = k)))
    by (intros k; apply testbit_clear_bit; lia).
  set (mx' := set_held_slot Mutex.not_held mx).
  assert (Hother : forall x vx k y, x <> t -> h !! x = Some vx -> held_slots vx !! k = Some (Some y) -> y <> m).
  { intros x vx k y Hne Hx Hk ->. destruct (A2 x vx k m Hx Hk) as (_ & _ & mz & Hmz & Hoz & _). congruence. }
  assert (Hown : forall k y, held_slots w !! k = Some (Some y) -> k <> i /\ held_slots v !! k = Some (Some y)).
  { intros k y Hk. cbn in Hk. apply list_lookup_insert_Some in Hk as [(_ & E & _) | (Hne & Hk)]; [discriminate | auto]. }
  assert (Hmut : forall y my, y <> m -> ms !! y = Some my -> <[m := mx']> ms !! y = Some my)
    by (intros y my Hne Hy; rewrite lookup_insert_ne by congruence; exact Hy).
  split.
  - intros x vx Hx. destruct (decide (x = t)) as [-> | Hne]; [| rewrite lookup_insert_ne in Hx by congruence; eauto].
    rewrite lookup_insert_eq in Hx. injection Hx as <-. cbn. rewrite length_insert. split; [exact Hl | split; [| exact Hb]].
    apply (bounded_by_bits _ 4); [lia | unfold clear_bit; apply Z.land_nonneg; lia |].
    intros k Hk. unfold clear_bit. rewrite Z.land_spec, (testbit_high (held_mask v) 4) by lia. reflexivity.
  - intros x vx k y Hx Hk. destruct (decide (x = t)) as [-> | Hne].
    + rewrite lookup_insert_eq in Hx. injection Hx as <-. destruct (Hown k y Hk) as [Hki Hk'].
      destruct (A2 t v k y Hv Hk') as (_ & Hbit & my & Hmy & Hoy & Hsy).
      assert (Hym : y <> m) by (intros ->; assert (my = mx) as -> by congruence; apply Hki; rewrite <- Hsy; reflexivity).
      split_and!; [congruence | rewrite Hbits, Hbit, bool_decide_false by congruence; reflexivity |].
      exists my. split_and!; auto.
    + rewrite lookup_insert_ne in Hx by congruence. destruct (A2 x vx k y Hx Hk) as (_ & Hbit & my & Hmy & Hoy & Hsy).
      pose proof (Hother x vx k y Hne Hx Hk) as Hym. split_and!; [congruence | exact Hbit |]. exists my. split_and!; auto.
  - intros x vx k Hx Hbit. destruct (decide (x = t)) as [-> | Hne]; [| rewrite lookup_insert_ne in Hx by congruence; eauto].
    rewrite lookup_insert_eq in Hx. injection Hx as <-. rewrite Hbits in Hbit. apply andb_true_iff in Hbit as [Hbit Hne].
    apply negb_true_iff, bool_decide_eq_false in Hne. destruct (A3 t v k Hv Hbit) as (y & Hy). exists y. cbn.
    rewrite list_lookup_insert_ne by exact Hne. exact Hy.
  - intros y my x Hy Hbut Hoy. assert (Hym : y <> m) by congruence. rewrite lookup_insert_ne in Hy by congruence.
    destruct (A4 y my x Hy (no_but _) Hoy) as (vx & Hvx & Hs). destruct (decide (x = t)) as [-> | Hne].
    + assert (vx = v) as -> by congruence. exists w. split; [apply lookup_insert_eq |]. cbn.
      rewrite list_lookup_insert_ne; [exact Hs |]. intros E. assert (Hbad : held_slots v !! i = Some (Some y)) by (rewrite E; exact Hs). congruence.
    + exists vx. split; [rewrite lookup_insert_ne by congruence; exact Hvx | exact Hs].
  - intros y my Hy Hbut Hoy. rewrite lookup_insert_ne in Hy by congruence. exact (A5 y my Hy (no_but y) Hoy).
  - intros y my Hy. destruct (decide (y = m)) as [-> | Hym].
    + rewrite lookup_insert_eq in Hy. injection Hy as <-. cbn. eapply queue_reheld; [exact Hv | reflexivity | exact Hmx | apply Hq | eauto].
    + rewrite lookup_insert_ne in Hy by congruence. eapply queue_reheld; [exact Hv | reflexivity | exact Hy | apply Hq | eauto].
  - intros y y' n n' x Hy Hy'. rewrite (on_queue_mutex ns ms m mx mx') in Hy, Hy' by auto. eauto.
  - intros y my n x Hy Hbut Hn. rewrite lookup_insert_ne in Hy by congruence. rewrite (on_queue_mutex ns ms m mx mx') in Hn by auto.
    exact (A8 y my n x Hy (no_but y) Hn).
Qed.

(** Two heaps that agree on what urgency reads agree on the accounts. *)
Lemma accounts_frame but h h' ns ms : urgency_view <$> h = urgency_view <$> h' ->
  accounts but h ns ms -> accounts but h' ns ms.
Proof.
  intros Hview [A1 A2 A3 A4 A5 A6 A7 A8].
  assert (Hback : forall t v, h' !! t = Some v -> exists v0, h !! t = Some v0 /\
    base_priority v0 = base_priority v /\ held_slots v0 = held_slots v /\ held_mask v0 = held_mask v)
    by (intros t v Hv; apply (view_transfer h' h (eq_sym Hview) t v Hv)).
  split; auto.
  - intros t v Hv. destruct (Hback t v Hv) as (v0 & Hv0 & <- & <- & <-). eauto.
  - intros t v i m Hv Hi. destruct (Hback t v Hv) as (v0 & Hv0 & _ & E & <-). eapply A2; [exact Hv0 | congruence].
  - intros t v i Hv Hi. destruct (Hback t v Hv) as (v0 & Hv0 & _ & <- & E). eapply A3; [exact Hv0 | congruence].
  - intros m mx t Hmx Hb Ho. destruct (A4 m mx t Hmx Hb Ho) as (v & Hv & Hs).
    destruct (view_transfer h h' Hview t v Hv) as (v' & Hv' & _ & E & _). exists v'. split; congruence.
  - intros m mx Hmx. destruct (A6 m mx Hmx) as (l & Hl & [C1 C2]). exists l. split; [exact (repr_frame h h' Hview _ _ _ Hl) |].
    split.
    + rewrite C1. destruct l as [| n l]; [reflexivity |]. cbn. apply (prio_frame h h' Hview).
    + intros Hm n nd o Hn Hnd Ho Hx. destruct (Hback _ o Ho) as (o0 & Ho0 & _ & _ & E). unfold holds_nothing in *. rewrite <- E.
      eapply C2; eassumption.
Qed.

(** A mutex that holds nobody's slot can be set aside ... *)
Lemma accounts_begin h ns ms m mx : accounts None h ns ms -> ms !! m = Some mx -> owner mx = None ->
  accounts (Some m) h ns ms.
Proof.
  intros [A1 A2 A3 A4 A5 A6 A7 A8] Hmx Ho. split; [exact A1 | | exact A3 | | | exact A6 | exact A7 |].
  - intros t v i y Hv Hi. destruct (A2 t v i y Hv Hi) as (_ & Hb & my & Hmy & Hoy & Hs). split_and!; eauto. congruence.
  - intros y my t Hy _. exact (A4 y my t Hy (no_but y)).
  - intros y my Hy _. exact (A5 y my Hy (no_but y)).
  - intros y my n t Hy _. exact (A8 y my n t Hy (no_but y)).
Qed.

(** ... and while it is, its owner and slot are free to change ... *)
Lemma accounts_aside h ns ms m mx mx' : accounts (Some m) h ns ms -> ms !! m = Some mx ->
  mutex_queue mx' = mutex_queue mx -> mutex_pi mx' = mutex_pi mx -> accounts (Some m) h ns (<[m := mx']> ms).
Proof.
  intros [A1 A2 A3 A4 A5 A6 A7 A8] Hmx Eq Ep.
  assert (Hmut : forall y my, Some m <> Some y -> <[m := mx']> ms !! y = Some my -> ms !! y = Some my)
    by (intros y my Hne Hy; rewrite lookup_insert_ne in Hy by congruence; exact Hy).
  split; [exact A1 | | exact A3 | | | | |].
  - intros t v i y Hv Hi. destruct (A2 t v i y Hv Hi) as (Hne & Hb & my & Hmy & Hoy & Hs). split_and!; auto.
    exists my. rewrite lookup_insert_ne by congruence. auto.
  - intros y my t Hy Hne. exact (A4 y my t (Hmut _ _ Hne Hy) Hne).
  - intros y my Hy Hne. exact (A5 y my (Hmut _ _ Hne Hy) Hne).
  - intros y my Hy. destruct (decide (y = m)) as [-> | Hne].
    + rewrite lookup_insert_eq in Hy. injection Hy as <-. rewrite Eq, Ep. eauto.
    + rewrite lookup_insert_ne in Hy by congruence. eauto.
  - intros y y' n n' t Hy Hy'. rewrite (on_queue_mutex ns ms m mx mx') in Hy, Hy' by auto. eauto.
  - intros y my n t Hy Hne Hn. rewrite (on_queue_mutex ns ms m mx mx') in Hn by auto. eapply A8; eauto.
Qed.

(** ... until it is given to nobody ... *)
Lemma accounts_free h ns ms m mx : accounts (Some m) h ns ms -> ms !! m = Some mx ->
  owner mx = None -> held_slot mx = Mutex.not_held -> accounts None h ns ms.
Proof.
  intros [A1 A2 A3 A4 A5 A6 A7 A8] Hmx Ho Hs.
  assert (Hcase : forall y my, ms !! y = Some my -> my = mx \/ Some m <> Some y)
    by (intros y my Hy; destruct (decide (m = y)) as [-> | Hne]; [left | right]; congruence).
  split; [exact A1 | | exact A3 | | | exact A6 | exact A7 |].
  - intros t v i y Hv Hi. destruct (A2 t v i y Hv Hi) as (_ & Hr). split; [apply no_but | exact Hr].
  - intros y my t Hy _ Hoy. destruct (Hcase y my Hy) as [-> |]; [congruence | eauto].
  - intros y my Hy _ Hoy. destruct (Hcase y my Hy) as [-> |]; [exact Hs | eauto].
  - intros y my n t Hy _ Hn. destruct (Hcase y my Hy) as [-> |]; [congruence | eauto].
Qed.

(** A slot's bit set in a byte that holds four. *)
Lemma held_bit_set mask i : (0 <= mask < 16)%Z -> i < 4 ->
  u8 (set_bit mask i) = set_bit mask i /\ (0 <= set_bit mask i < 16)%Z.
Proof.
  intros Hm Hi. assert (Hr : (0 <= set_bit mask i < 2 ^ 4)%Z) by (apply set_bit_range; lia).
  change (2 ^ 4)%Z with 16%Z in Hr. split; [unfold u8, wrap; apply Z.mod_small; lia | exact Hr].
Qed.

Lemma clear_set_bit mask i : (0 <= mask < 16)%Z -> i < 4 -> Z.testbit mask (Z.of_nat i) = false ->
  clear_bit 8 (u8 (set_bit mask i)) i = mask.
Proof.
  intros Hm Hi Hb. destruct (held_bit_set mask i Hm Hi) as [-> Hr]. apply Z.bits_inj'. intros k Hk.
  rewrite <- (Z2Nat.id k Hk), testbit_clear_bit, testbit_set_bit by lia.
  case_bool_decide as E; [rewrite <- E, Hb; reflexivity | rewrite orb_false_r, andb_true_r; reflexivity].
Qed.

(** ... or to a thread on no queue, in a slot of it that was free. *)
Lemma accounts_claim h ns ms m mx mx' t v i : accounts (Some m) h ns ms -> ms !! m = Some mx -> h !! t = Some v ->
  (forall x n, ~ on_queue ns ms x n t) -> held_slots v !! i = Some None ->
  mutex_queue mx' = mutex_queue mx -> mutex_pi mx' = mutex_pi mx -> owner mx' = Some t -> held_slot mx' = i ->
  accounts None (<[t := set_held_mask (u8 (set_bit (held_mask v) i)) (set_held_slots (<[i := Some m]> (held_slots v)) v)]> h)
    ns (<[m := mx']> ms).
Proof.
  intros [A1 A2 A3 A4 A5 A6 A7 A8] Hmx Hv Hq Hslot Eq Ep Eo Es. destruct (A1 t v Hv) as (Hl & Hm & Hb).
  set (w := set_held_mask _ _).
  assert (Hi : i < 4) by (apply lookup_lt_Some in Hslot; unfold max_held_per_thread in Hl; lia).
  assert (Hbits : forall k, Z.testbit (held_mask w) (Z.of_nat k) = Z.testbit (held_mask v) (Z.of_nat k) || bool_decide (i = k))
    by (intros k; cbn; rewrite (proj1 (held_bit_set _ i Hm Hi)); apply testbit_set_bit).
  assert (Hown : forall k y, held_slots w !! k = Some (Some y) -> (k = i /\ y = m) \/ (k <> i /\ held_slots v !! k = Some (Some y))).
  { intros k y Hk. cbn in Hk. apply list_lookup_insert_Some in Hk as [(<- & E & _) | (Hne & Hk)]; [left; split; congruence | auto]. }
  assert (Hold : forall x vx k y, h !! x = Some vx -> held_slots vx !! k = Some (Some y) ->
    Z.testbit (held_mask vx) (Z.of_nat k) = true /\ exists my, <[m := mx']> ms !! y = Some my /\ owner my = Some x /\ held_slot my = k).
  { intros x vx k y Hx Hk. destruct (A2 x vx k y Hx Hk) as (Hne & Hbit & my & Hmy & Hr). split; [exact Hbit |].
    exists my. rewrite lookup_insert_ne by congruence. auto. }
  assert (Hcase : forall y my, <[m := mx']> ms !! y = Some my -> (y = m /\ my = mx') \/ (Some m <> Some y /\ ms !! y = Some my)).
  { intros y my Hy. apply lookup_insert_Some in Hy as [[<- <-] | [Hne Hy]]; [auto | right; split; congruence]. }
  split.
  - intros x vx Hx. apply lookup_insert_Some in Hx as [[<- <-] | [_ Hx]]; [| eauto]. cbn. rewrite length_insert.
    split; [exact Hl | split; [| exact Hb]]. destruct (held_bit_set _ i Hm Hi) as [-> Hr]. exact Hr.
  - intros x vx k y Hx Hk. split; [apply no_but |]. apply lookup_insert_Some in Hx as [[<- <-] | [_ Hx]]; [| eauto].
    rewrite Hbits. destruct (Hown k y Hk) as [[-> ->] | [Hne Hk']].
    + split; [rewrite bool_decide_true by reflexivity; apply orb_true_r |]. exists mx'. rewrite lookup_insert_eq. auto.
    + destruct (Hold t v k y Hv Hk') as [-> Hr]. auto.
  - intros x vx k Hx Hbit. apply lookup_insert_Some in Hx as [[<- <-] | [_ Hx]]; [| eauto].
    cbn. destruct (decide (i = k)) as [<- | Hne].
    + exists m. apply list_lookup_insert_eq. unfold max_held_per_thread in Hl. lia.
    + rewrite Hbits, bool_decide_false, orb_false_r in Hbit by exact Hne. rewrite list_lookup_insert_ne by exact Hne. eauto.
  - intros y my x Hy _ Hoy. destruct (Hcase y my Hy) as [[-> ->] | [Hne Hy']].
    + assert (x = t) as -> by congruence. exists w. split; [apply lookup_insert_eq |]. rewrite Es. cbn.
      apply list_lookup_insert_eq. unfold max_held_per_thread in Hl. lia.
    + destruct (A4 y my x Hy' Hne Hoy) as (vx & Hvx & Hs). destruct (decide (x = t)) as [-> | Hxt].
      * assert (vx = v) as -> by congruence. exists w. split; [apply lookup_insert_eq |]. cbn.
        rewrite list_lookup_insert_ne by congruence. exact Hs.
      * exists vx. rewrite lookup_insert_ne by congruence. auto.
  - intros y my Hy _ Hoy. destruct (Hcase y my Hy) as [[-> ->] | [Hne Hy']]; [congruence | eauto].
  - intros y my Hy. destruct (Hcase y my Hy) as [[-> ->] | [Hne Hy']].
    + rewrite Eq, Ep. eapply queue_reheld; [exact Hv | reflexivity | exact Hmx | apply Hq | eauto].
    + eapply queue_reheld; [exact Hv | reflexivity | exact Hy' | apply Hq | eauto].
  - intros y y' n n' x Hy Hy'. rewrite (on_queue_mutex ns ms m mx mx') in Hy, Hy' by auto. eauto.
  - intros y my n x Hy _ Hn. rewrite (on_queue_mutex ns ms m mx mx') in Hn by auto. destruct (Hcase y my Hy) as [[-> ->] | [Hne Hy']].
    + rewrite Eo. intros [= <-]. exact (Hq m n Hn).
    + eapply A8; eauto.
Qed.

(** ** A queue shortened: a wake's pop, or a disarm *)
Section shortened.
Context (but : option nat) (h : heap) (ns ns' : node_heap) (ms : gmap nat base_mutex) (m : nat) (mx mx' : base_mutex)
  (l l' : list nat) (pi' : inheritance_cache).
Context (Hac : accounts but h ns ms) (Hmx : ms !! m = Some mx) (Hl : WaitQueue.repr h ns (mutex_queue mx) l)
  (Hsub : l' ⊆ l) (Hr : renodes l ns ns') (Hl' : WaitQueue.repr h ns' (mutex_queue mx') l')
  (Hc' : WaitQueue.cache_ok h ns' None l' (mutex_pi mx')) (Ho : owner mx' = owner mx) (Hs : held_slot mx' = held_slot mx).

Lemma other_kept y my ly : y <> m -> ms !! y = Some my -> WaitQueue.repr h ns (mutex_queue my) ly ->
  WaitQueue.repr h ns' (mutex_queue my) ly /\ forall x, x ∈ ly -> ns' !! x = ns !! x.
Proof.
  intros Hne Hy Hly. assert (Hsame : forall x, x ∈ ly -> ns' !! x = ns !! x).
  { intros x Hx. apply (proj2 Hr). intros Hxl.
    destruct (lseg_in_heap node_next ns _ _ _ x (WaitQueue.wr_chain _ _ _ _ Hl) Hxl) as [nd Hnd].
    destruct (ac_once _ _ _ _ Hac y m x x (node_owner nd)) as [E _]; [| | contradiction].
    - exists my, ly, nd. split_and!; auto. apply Hly.
    - exists mx, l, nd. split_and!; auto. apply Hl. }
  split; [| exact Hsame]. eapply repr_intro; [exact Hr | | apply Hly | apply Hly].
  eapply lseg_frame; [| apply Hly]. intros x Hx. rewrite Hsame by exact Hx. reflexivity.
Qed.

Lemma on_queue_shortened x k t : on_queue ns' (<[m := mx']> ms) x k t ->
  on_queue ns ms x k t /\ (x = m -> k ∈ l').
Proof.
  intros (my & ly & nd & Hy & Hch & Hk & Hnd & Ht). apply lookup_insert_Some in Hy as [[<- <-] | [Hne Hy]].
  - rewrite (chain_det _ _ _ _ _ Hch (WaitQueue.wr_chain _ _ _ _ Hl')) in Hk. split; [| auto].
    destruct (renodes_lookup_inv _ _ _ _ _ Hr Hnd) as (nd0 & Hnd0 & E). exists mx, l, nd0. split_and!; [exact Hmx | apply Hl | auto | exact Hnd0 | congruence].
  - destruct (ac_queue _ _ _ _ Hac x my Hy) as (lx & Hlx & _). destruct (other_kept x my lx) as [Hlx' Hsame]; auto.
    rewrite (chain_det _ _ _ _ _ Hch (WaitQueue.wr_chain _ _ _ _ Hlx')) in Hk. split; [| congruence].
    exists my, lx, nd. split_and!; auto; [apply Hlx | rewrite <- Hsame; assumption].
Qed.

Lemma accounts_shortened : accounts but h ns' (<[m := mx']> ms).
Proof.
  pose proof Hac as [A1 A2 A3 A4 A5 A6 A7 A8].
  assert (Hback : forall y my, <[m := mx']> ms !! y = Some my -> exists my0, ms !! y = Some my0 /\ owner my = owner my0 /\ held_slot my = held_slot my0).
  { intros y my Hy. apply lookup_insert_Some in Hy as [[<- <-] | [Hne Hy]]; eauto. }
  split; [exact A1 | | exact A3 | | | | |].
  - intros t v i y Hv Hi. destruct (A2 t v i y Hv Hi) as (Hb & Hbit & my & Hmy & E1 & E2). split_and!; auto.
    destruct (decide (m = y)) as [<- | Hne]; [exists mx' | exists my; rewrite lookup_insert_ne by exact Hne; auto].
    rewrite lookup_insert_eq. assert (my = mx) as -> by congruence. split_and!; congruence.
  - intros y my t Hy Hb Hoy. destruct (Hback y my Hy) as (my0 & Hy0 & E1 & E2). rewrite E2. eapply A4; eauto. congruence.
  - intros y my Hy Hb Hoy. destruct (Hback y my Hy) as (my0 & Hy0 & E1 & E2). rewrite E2. eapply A5; eauto. congruence.
  - intros y my Hy. apply lookup_insert_Some in Hy as [[<- <-] | [Hne Hy]]; [eauto |].
    destruct (A6 y my Hy) as (ly & Hly & [C1 C2]). destruct (other_kept y my ly) as [Hly' Hsame]; auto. exists ly. split; [exact Hly' |].
    split.
    + rewrite C1. destruct ly as [| k ly]; [reflexivity |]. cbn. rewrite (renodes_prio _ _ _ _ _ Hr). reflexivity.
    + intros Hm k nd o Hk Hnd Hon Hx. eapply C2; eauto. rewrite <- Hsame; assumption.
  - intros y y' k k' t Hy Hy'. apply on_queue_shortened in Hy, Hy'. destruct Hy, Hy'. eauto.
  - intros y my k t Hy Hb Hn. apply on_queue_shortened in Hn as [Hn _]. destruct (Hback y my Hy) as (my0 & Hy0 & E1 & _). rewrite E1. eauto.
Qed.
End shortened.

(** A mutex's wake takes its best waiter, who is on no queue any more. *)
Lemma accounts_pop but h ns ms m mx n l : accounts but h ns ms -> ms !! m = Some mx ->
  WaitQueue.repr h ns (mutex_queue mx) (n :: l) -> WaitQueue.cache_ok h ns None (n :: l) (mutex_pi mx) ->
  ok (WaitQueue.pop h (mutex_queue mx) ns (Some (mutex_pi mx)))
    (fun '(r, q', ns', pi) => exists u nd pi', r = Some u /\ pi = Some pi' /\ ns !! n = Some nd /\ node_owner nd = u /\
       let mx' := set_mutex_pi pi' (set_mutex_queue q' mx) in
       accounts but h ns' (<[m := mx']> ms) /\ WaitQueue.repr h ns' q' l /\
       forall x k, ~ on_queue ns' (<[m := mx']> ms) x k u).
Proof.
  intros Hac Hmx Hl Hc. eapply ok_mono.
  - apply (pop_ok h ns (mutex_queue mx) n l (Some (mutex_pi mx)) None Hl). apply (cached_hinted _ _ _ _ (Some _)), Hc.
  - intros [[[r q'] ns'] pi] ((nd & Hnd & ->) & Hl' & Hr & Hc' & Hpi & _).
    destruct pi as [pi' |]; [| destruct Hpi as [Hpi _]; discriminate Hpi; reflexivity].
    exists (node_owner nd), nd, pi'. split_and!; auto. intros mx'.
    assert (Hr' : renodes (n :: l) ns ns') by (eapply renodes_weaken; [| exact Hr]; set_solver).
    assert (Hsub : l ⊆ n :: l) by set_solver.
    split_and!; [eapply accounts_shortened with (l := n :: l) (l' := l); eauto | exact Hl' |].
    intros x k Hk. destruct (on_queue_shortened but h ns ns' ms m mx mx' (n :: l) l) with (x := x) (k := k) (t := node_owner nd) as [Hq Hin]; auto.
    destruct (ac_once _ _ _ _ Hac x m k n (node_owner nd) Hq) as [-> ->].
    + exists mx, (n :: l), nd. split_and!; auto; [apply Hl | left].
    + pose proof (wr_NoDup _ _ _ _ Hl) as Hnd'. apply NoDup_cons in Hnd' as [Hnot _]. auto.
Qed.
End accounts.
