(* ===== verification/MutexOps.v ===== *)
(** * The mutex's operations, on the whole kernel

    What [claim_slot], [retire_held], [try_lock] and the handover leave, run
    on the kernel's state: the accounts stay in step and, as what a thread
    holds is nothing to the ready structures, so does every core. *)

From S2P Require Import Prelude Chain State ReadyQueue ReadyQueueProofs WaitQueue WaitQueueProofs Urgency UrgencyProofs Scheduler SchedulerSpec Local SchedulerProofs DispatchProofs PickProofs Switch RoadProofs SwitchProofs Cores ExitProofs Waking Mutex WakeProofs MutexProofs.

(** ** What a thread holds is nothing to a core *)

(** A block, but for what it holds. *)
Definition unheld (v : thread_control_block) : thread_control_block :=
  set_held_slots [] (set_held_mask 0%Z v).

Section held.
Context `{Config}.

Definition no_idle (s : kernel_state) (t : nat) : Prop :=
  forall d sc, schedulers s !! d = Some sc -> idle_thread sc <> Some t.

(** Every core of the kernel, with a thread running on each. *)
Definition all_running (s : kernel_state) : Prop :=
  length (schedulers s) = cores /\
  forall d, d < cores -> exists sc L Hs prev I, core_inv d s sc L Hs (Some prev) I.

Lemma all_running_kernel s : all_running s -> kernel_inv s.
Proof. intros [H1 H2]. split; [exact H1 |]. intros d Hd. destruct (H2 d Hd) as (sc & L & Hs & prev & I & Hi). eauto 6. Qed.

(** [s'] is [s] but for what is queued and owned, and what threads that are
    not idle threads hold. *)
Record reheld (s s' : kernel_state) : Prop := {
  rh_schedulers : schedulers s' = schedulers s;
  rh_blocks : unheld <$> tcbs s = unheld <$> tcbs s';
  rh_idle : forall t v v', tcbs s !! t = Some v -> tcbs s' !! t = Some v' -> v' = v \/ no_idle s t
}.

Lemma core_inv_reheld d s s' sc L Hs run I : reheld s s' -> Urgency.wf (tcbs s') (nodes s') (mutexes s') ->
  core_inv d s sc L Hs run I -> core_inv d s' sc L Hs run I.
Proof.
  intros [E1 E2 E3] Hwf [H1 H2 H3 H4 H5]. split; [congruence | | exact Hwf | | exact H5].
  - eapply core_ok_held; [exact (view_weaken unheld (fun v => (link_view v, state v)) _ _ E2) | | exact H2].
    intros i v v' Hi Hv Hv'. destruct (E3 i v v' Hv Hv') as [-> | Hno]; [reflexivity |]. destruct (Hno d sc H1 Hi).
  - eapply intake_view; [exact (view_weaken unheld request_state _ _ E2) | reflexivity | exact H4].
Qed.

Lemma all_running_reheld s s' : reheld s s' -> Urgency.wf (tcbs s') (nodes s') (mutexes s') -> all_running s -> all_running s'.
Proof.
  intros Hr Hwf [Hlen Hall]. split; [rewrite (rh_schedulers _ _ Hr); exact Hlen |]. intros d Hd.
  destruct (Hall d Hd) as (sc & L & Hs & prev & I & Hi). exists sc, L, Hs, prev, I. eapply core_inv_reheld; eassumption.
Qed.

#[export] Instance reheld_preorder : PreOrder reheld.
Proof.
  split; [intros s; split; auto; intros; left; congruence |]. intros s1 s2 s3 [A1 A2 A3] [B1 B2 B3].
  split; [congruence | congruence |]. intros t v w Hv Hw.
  assert (E : (unheld <$> tcbs s1) !! t = (unheld <$> tcbs s2) !! t) by (rewrite A2; reflexivity).
  rewrite !lookup_fmap, Hv in E. destruct (tcbs s2 !! t) as [u |] eqn:Hu; [| discriminate].
  destruct (A3 t v u Hv Hu) as [-> | Hno]; [| auto]. destruct (B3 t v w Hu Hw) as [-> | Hno]; [auto | right].
  intros d sc Hd. apply (Hno d sc). congruence.
Qed.

(** One block's holdings changed. *)
Lemma reheld_block s s' t v w : tcbs s !! t = Some v -> unheld w = unheld v -> no_idle s t ->
  schedulers s' = schedulers s -> tcbs s' = <[t := w]> (tcbs s) -> reheld s s'.
Proof.
  intros Hv E Hno E1 E2. split; [exact E1 | rewrite E2; eapply view_insert; [exact Hv | exact E] |].
  intros x vx vx' Hx Hx'. rewrite E2 in Hx'. apply lookup_insert_Some in Hx' as [[<- <-] | [_ Hx']]; [auto | left; congruence].
Qed.

Lemma reheld_queues s s' : schedulers s' = schedulers s -> tcbs s' = tcbs s -> reheld s s'.
Proof. intros E1 E2. split; [exact E1 | rewrite E2; reflexivity | left; congruence]. Qed.
End held.

(** ** The slots *)
Section slots.
Context `{Config} (m t : nat) (s : kernel_state) (v : thread_control_block) (mx : base_mutex).
Context (Hv : tcbs s !! t = Some v) (Hmx : mutexes s !! m = Some mx).

Definition claimed (i : nat) : thread_control_block :=
  set_held_mask (u8 (set_bit (held_mask v) i)) (set_held_slots (<[i := Some m]> (held_slots v)) v).

Lemma free_slot_free i : Mutex.free_slot v = Some i -> held_slots v !! i = Some None.
Proof.
  unfold Mutex.free_slot. destruct (list_find _ _) as [[j x] |] eqn:E; [| discriminate]. intros [= <-].
  apply list_find_Some in E as (E & -> & _). exact E.
Qed.

Lemma claim_slot_ok i : Mutex.free_slot v = Some i ->
  wp (Mutex.claim_slot m t)
    (fun _ s' => s' = set_calls (trace_point Trace.mutex_acquired t :: calls s)
       (set_mutexes (<[m := set_held_slot i mx]> (mutexes s)) (set_tcbs (<[t := claimed i]> (tcbs s)) s))) s.
Proof.
  intros Hi. unfold Mutex.claim_slot. apply wp_bind. eapply wp_get_tcb; [exact Hv |]. rewrite Hi.
  apply wp_bind. eapply wp_modify_tcb; [exact Hv |]. apply wp_bind. eapply wp_modify_mutex; [exact Hmx |].
  apply wp_bind. eapply wp_modify_tcb; [apply lookup_insert_eq |]. apply wp_emit. cbn. rewrite insert_insert_eq. reflexivity.
Qed.

End slots.

Section operations.
Context `{Config} (cx : cpu) (s : kernel_state) (m : nat) (mx : base_mutex).
Context (Hac : accounts None (tcbs s) (nodes s) (mutexes s)) (Hmx : mutexes s !! m = Some mx).

Definition no_queue (s : kernel_state) (t : nat) : Prop := forall x n, ~ on_queue (nodes s) (mutexes s) x n t.

(** A free mutex taken by a thread on no queue. *)
Lemma take_if_free_ok t v i : tcbs s !! t = Some v -> Mutex.free_slot v = Some i -> no_queue s t -> no_idle s t ->
  owner mx = None -> all_running s ->
  wp (Mutex.take_if_free m t)
    (fun r s' => r = true /\ all_running s' /\ accounts None (tcbs s') (nodes s') (mutexes s') /\
       tcbs s' = <[t := claimed m v i]> (tcbs s) /\
       mutexes s' = <[m := set_held_slot i (set_owner (Some t) mx)]> (mutexes s) /\ nodes s' = nodes s /\
       schedulers s' = schedulers s) s.
Proof.
  intros Hv Hi Hq Hno Ho Hrun. unfold Mutex.take_if_free. apply wp_bind. eapply wp_get_mutex; [exact Hmx |]. rewrite Ho.
  apply wp_bind. eapply wp_modify_mutex; [exact Hmx |]. unfold Mutex.register_held. apply wp_bind, wp_bind.
  eapply wp_get_mutex; [apply lookup_insert_eq |]. pose proof (ac_free _ _ _ _ Hac m mx Hmx (no_but m) Ho) as Hs.
  cbn [held_slot set_owner]. rewrite Hs. cbn [Mutex.not_held Nat.eqb negb]. set (s1 := set_mutexes _ s).
  eapply wp_mono; [apply (claim_slot_ok m t s1 v (set_owner (Some t) mx) Hv); [apply lookup_insert_eq | exact Hi] |].
  intros ? s' ->. apply wp_ret. cbn. rewrite insert_insert_eq.
  assert (Hac' : accounts None (<[t := claimed m v i]> (tcbs s)) (nodes s) (<[m := set_held_slot i (set_owner (Some t) mx)]> (mutexes s))).
  { eapply accounts_claim; [eapply accounts_begin; eassumption | exact Hmx | exact Hv | exact Hq | apply free_slot_free, Hi | reflexivity ..]. }
  split_and!; auto. eapply all_running_reheld; [| | exact Hrun].
  - eapply reheld_block with (t := t); [exact Hv | | exact Hno | reflexivity | reflexivity]. reflexivity.
  - eapply accounts_wf, Hac'.
Qed.

Lemma take_if_free_held t o : owner mx = Some o -> Mutex.take_if_free m t s = Ok (false, s).
Proof. intros Ho. unfold Mutex.take_if_free, kbind at 1. unfold get_mutex. rewrite Hmx, Ho. reflexivity. Qed.
End operations.

(** The most a ceiling lets its owners be. *)
Definition within_ceiling (mx : base_mutex) (v : thread_control_block) : bool :=
  negb (Urgency.uses_ceiling mx) || (ceiling_priority mx <=? base_priority v).

Section entries.
Context `{Config} (cx : cpu) (s : kernel_state) (sc : scheduler) (m t : nat) (mx : base_mutex) (v : thread_control_block).
Context (Hsc : schedulers s !! this_core cx = Some sc) (Hcur : current_thread sc = Some t)
  (Hv : tcbs s !! t = Some v) (Hmx : mutexes s !! m = Some mx).

Lemma get_current_ok : get_current_thread (this_core cx) s = Ok (t, s).
Proof. unfold get_current_thread, kbind at 1. unfold get_scheduler. rewrite Hsc, Hcur. reflexivity. Qed.

Lemma check_ceiling_ok : Mutex.check_ceiling_contract m t s =
  if within_ceiling mx v then Ok (tt, s) else Panic require_failed.
Proof.
  unfold Mutex.check_ceiling_contract, kbind at 1. unfold get_mutex. rewrite Hmx. unfold within_ceiling.
  destruct (Urgency.uses_ceiling mx); cbn [negb orb]; [| reflexivity]. unfold kbind, get_tcb. rewrite Hv. reflexivity.
Qed.

Lemma try_lock_unfold : Mutex.try_lock cx m s =
  if within_ceiling mx v then Mutex.take_if_free m t s else Panic require_failed.
Proof.
  unfold Mutex.try_lock, kbind at 1. rewrite get_current_ok. unfold kbind. rewrite check_ceiling_ok. destruct (within_ceiling mx v); reflexivity.
Qed.

(** ** Giving it up *)

(** The block of a thread that gives up the mutex of its slot [i]. *)
Definition retired_block (i : nat) : thread_control_block :=
  set_held_slots (<[i := None]> (held_slots v)) (set_held_mask (clear_bit 8 (held_mask v) i) v).

Lemma retire_held_ok : held_slot mx < max_held_per_thread -> held_slots v !! held_slot mx = Some (Some m) ->
  wp (Mutex.retire_held m t)
    (fun _ s' => s' = set_calls (trace_point Trace.mutex_released t :: calls s)
       (set_mutexes (<[m := set_held_slot Mutex.not_held mx]> (mutexes s))
         (set_tcbs (<[t := retired_block (held_slot mx)]> (tcbs s)) s))) s.
Proof.
  intros Hi Hs. unfold Mutex.retire_held. wp_step. eapply wp_get_mutex; [exact Hmx |].
  wp_step. wp_step; [apply Nat.ltb_lt, Hi |]. wp_step. eapply wp_get_tcb; [exact Hv |].
  wp_step. wp_step; [apply bool_decide_eq_true, Hs |]. wp_step. eapply wp_modify_tcb; [exact Hv |].
  wp_step. eapply wp_modify_tcb; [apply lookup_insert_eq |]. wp_step. eapply wp_modify_mutex; [exact Hmx |].
  apply wp_emit. cbn. rewrite insert_insert_eq. reflexivity.
Qed.
End entries.

(** A node's thread, fit to be given a mutex: live, its own, and with a slot
    to spare. *)
Record heir `{Config} (s : kernel_state) (u : nat) (vu : thread_control_block) (i : nat) : Prop := {
  hr_block : tcbs s !! u = Some vu;
  hr_live : is_finished vu = false;
  hr_id : thread_id vu <> 0%Z;
  hr_core : pinned_core vu < cores;
  hr_idle : no_idle s u;
  hr_slot : Mutex.free_slot vu = Some i
}.

Section handover.
Context `{Config} (cx : cpu) (s : kernel_state) (m : nat) (mx : base_mutex) (policy : reschedule_policy).
Context (Hac : accounts (Some m) (tcbs s) (nodes s) (mutexes s)) (Hmx : mutexes s !! m = Some mx)
  (Hs : held_slot mx = Mutex.not_held) (Hrun : all_running s).

(** The pop under the queue's lock. *)
Lemma pop_mutex_ok (Q : option nat * wait_queue * node_heap * option inheritance_cache -> Prop) R :
  ok (WaitQueue.pop (tcbs s) (mutex_queue mx) (nodes s) (Some (mutex_pi mx))) Q ->
  (forall r q ns pi, Q (r, q, ns, Some pi) -> R r (set_mutexes (<[m := set_mutex_pi pi (set_mutex_queue q mx)]> (mutexes s)) (set_nodes ns s))) ->
  (forall r q ns, ~ Q (r, q, ns, None)) ->
  wp (Waking.pop (Waking.of_mutex m)) R s.
Proof.
  intros Hp Hr Hno. unfold Waking.pop. cbn [Waking.read_queue]. do 2 wp_step. eapply wp_get_mutex; [exact Hmx |]. wp_step.
  do 4 wp_step. do 2 wp_step. eapply ok_mono; [exact Hp |]. intros [[[r q] ns] [pi |]] HQ; [| destruct (Hno r q ns HQ)].
  do 2 wp_step. wp_step. cbn [Waking.write_queue]. eapply wp_modify_mutex; [exact Hmx |]. wp_step. exact (Hr r q ns pi HQ).
Qed.

(** Nobody waits: the mutex is free. *)
Lemma hand_over_nobody : WaitQueue.repr (tcbs s) (nodes s) (mutex_queue mx) [] ->
  wp (Mutex.hand_over cx m policy)
    (fun _ s' => all_running s' /\ accounts None (tcbs s') (nodes s') (mutexes s') /\
       s' = set_mutexes (<[m := set_owner None mx]> (mutexes s)) s) s.
Proof.
  intros Hq. unfold Mutex.hand_over, Waking.wake_one_and_commit. do 2 wp_step.
  eapply pop_mutex_ok with (Q := fun p => p = (None, mutex_queue mx, nodes s, Some (mutex_pi mx))).
  { rewrite (pop_empty _ _ _ _ Hq). reflexivity. } 2: discriminate.
  intros r q ns pi [= -> -> -> ->]. do 2 wp_step. eapply wp_modify_mutex; [apply lookup_insert_eq |]. do 3 wp_step.
  cbn. rewrite insert_insert_eq. set (s' := set_mutexes _ _).
  assert (E : s' = set_mutexes (<[m := set_owner None mx]> (mutexes s)) s) by (unfold s'; destruct s, mx; reflexivity).
  assert (Hac' : accounts None (tcbs s') (nodes s') (mutexes s')).
  { rewrite E. cbn. eapply accounts_free; [| apply lookup_insert_eq | reflexivity | exact Hs].
    eapply accounts_aside; [exact Hac | exact Hmx | reflexivity ..]. }
  split_and!; [| exact Hac' | exact E]. eapply all_running_reheld; [apply reheld_queues | eapply accounts_wf, Hac' | exact Hrun]; reflexivity.
Qed.

(** Somebody waits: the first in the queue is the owner before the mutex's
    state is anyone else's to see, and is woken. *)
Lemma hand_over_somebody n l u nd vu i : WaitQueue.repr (tcbs s) (nodes s) (mutex_queue mx) (n :: l) ->
  nodes s !! n = Some nd -> node_owner nd = u -> heir s u vu i ->
  wp (Mutex.hand_over cx m policy)
    (fun _ s' => kernel_inv s' /\ accounts None (tcbs s') (nodes s') (mutexes s') /\ delivered u s' /\
       exists mx', mutexes s' !! m = Some mx' /\ owner mx' = Some u /\ held_slot mx' = i /\
         ceiling_priority mx' = ceiling_priority mx /\ WaitQueue.repr (tcbs s') (nodes s') (mutex_queue mx') l) s.
Proof.
  intros Hq Hnd Hu [Hvu Hlive Hid Hpin Hidle Hslot]. destruct (ac_queue _ _ _ _ Hac m mx Hmx) as (l0 & Hq0 & Hc).
  rewrite (repr_det _ _ _ _ _ Hq0 Hq) in Hc. clear l0 Hq0.
  unfold Mutex.hand_over, Waking.wake_one_and_commit. do 2 wp_step.
  eapply pop_mutex_ok; [exact (accounts_pop _ _ _ _ _ _ _ _ Hac Hmx Hq Hc) | | intros ? ? ? (? & ? & ? & _ & E & _); discriminate E].
  intros r q ns pi (u' & nd' & pi' & -> & [= <-] & Hnd' & Hu' & Hac1 & Hl & Haway). assert (u' = u) as -> by congruence.
  wp_step. eapply wp_get_tcb; [exact Hvu |]. wp_step. wp_step; [rewrite (proj2 (Z.eqb_neq _ _) Hid); reflexivity |].
  wp_step. wp_step. eapply wp_modify_mutex; [apply lookup_insert_eq |]. set (mx1 := set_mutex_pi _ _) in *. set (s1 := set_mutexes _ (set_mutexes _ _)).
  eapply wp_mono; [apply (claim_slot_ok m u s1 vu (set_owner (Some u) mx1)) with (i := i); [exact Hvu | apply lookup_insert_eq | exact Hslot] |].
  intros ? s2 E2. set (mx2 := set_held_slot i (set_owner (Some u) mx1)) in *.
  assert (Hac2 : accounts None (tcbs s2) (nodes s2) (mutexes s2)).
  { rewrite E2. cbn. rewrite !insert_insert_eq. rewrite <- (insert_insert_eq (mutexes s) m mx2 mx1).
    eapply accounts_claim with (m := m) (mx := mx1); [exact Hac1 | apply lookup_insert_eq | exact Hvu | exact Haway
      | apply free_slot_free, Hslot | reflexivity ..]. }
  assert (Hrun2 : all_running s2).
  { eapply all_running_reheld; [| eapply accounts_wf, Hac2 | exact Hrun].
    eapply reheld_block with (t := u) (w := claimed m vu i); [exact Hvu | reflexivity | exact Hidle | rewrite E2; reflexivity ..]. }
  assert (Hvu2 : tcbs s2 !! u = Some (claimed m vu i)) by (rewrite E2; apply lookup_insert_eq).
  assert (Hmx2 : mutexes s2 !! m = Some mx2) by (rewrite E2; apply lookup_insert_eq).
  assert (Hl2 : WaitQueue.repr (tcbs s2) (nodes s2) (mutex_queue mx2) l).
  { rewrite E2. cbn. eapply repr_reheld; [exact Hvu | reflexivity | exact Hl]. }
  clear E2. destruct (proj2 Hrun2 (pinned_core vu) Hpin) as (sc & L & Hs' & prev & I & Hinv2).
  wp_step. eapply wp_mono.
  { eapply (global_wake_ok cx (pinned_core vu) s2 sc L Hs' I prev u (claimed m vu i)); [apply all_running_kernel, Hrun2 | exact Hinv2 | exact Hvu2 | reflexivity | exact Hlive | exact Hpin]. }
  intros hint s3 (Hk3 & Hloc & Hd & _). wp_step.
  assert (Hend : forall es, let s' := set_calls es s3 in kernel_inv s' /\ accounts None (tcbs s') (nodes s') (mutexes s') /\ delivered u s' /\
    exists mx', mutexes s' !! m = Some mx' /\ owner mx' = Some u /\ held_slot mx' = i /\
      ceiling_priority mx' = ceiling_priority mx /\ WaitQueue.repr (tcbs s') (nodes s') (mutex_queue mx') l).
  { intros es s'. split_and!.
    - destruct Hk3 as [H1 H2]. split; [exact H1 |]. intros d Hd'. destruct (H2 d Hd') as (sc3 & L3 & Hs3 & run3 & I3 & [J1 J2 J3 J4 J5]).
      exists sc3, L3, Hs3, run3, I3. split; assumption.
    - cbn. rewrite (lc_nodes _ _ _ Hloc), (lc_mutexes _ _ _ Hloc). eapply accounts_frame; [apply Hloc | exact Hac2].
    - exact Hd.
    - exists mx2. cbn. rewrite (lc_nodes _ _ _ Hloc), (lc_mutexes _ _ _ Hloc). split_and!; auto. eapply repr_frame; [apply Hloc | exact Hl2]. }
  assert (Eid : s3 = set_calls (calls s3) s3) by (destruct s3; reflexivity).
  unfold Switch.apply_reschedule_policy. destruct (_ || _); [do 2 wp_step; rewrite Eid; apply wp_ret, Hend |].
  destruct (_ || _); do 2 wp_step; [apply wp_ret, Hend | rewrite Eid; apply wp_ret, Hend].
Qed.
End handover.
