(* ===== verification/Modes.v ===== *)
(** * Where a thread stands with its wait

    To the code above the scheduler a thread is in one of few modes: awake,
    going to sleep, asleep, or gone.  [mode_of] reads it off the control block;
    a switch of any core changes nobody's mode, but for the thread that parks,
    and a wake makes its thread awake and changes nobody else's. *)

From S2P Require Import Prelude Chain State ReadyQueue ReadyQueueProofs WaitQueue WaitQueueProofs Urgency UrgencyProofs Scheduler SchedulerSpec Local SchedulerProofs DispatchProofs PickProofs Switch RoadProofs SwitchProofs Cores ExitProofs Waking Mutex WakeProofs MutexProofs MutexOps.

Inductive mode := awake | going | asleep | gone.

#[global] Instance mode_eq_dec : EqDecision mode.
Proof. solve_decision. Defined.

(** A request on the intake is a wake on its way: its thread is not asleep,
    and will not sleep on the wait it armed. *)
Definition mode_of (v : thread_control_block) : mode :=
  if is_finished v || bool_decide (state v = ThreadState.created) then gone
  else if negb (pending_requests v =? 0)%Z then awake
  else if bool_decide (state v = ThreadState.blocked) then asleep
  else if bool_decide (disposition v = ThreadDisposition.prepared) then going
  else awake.

(** What waiting code reads of a block: its mode, its record and its id. *)
Definition kept (v : thread_control_block) : option nat * Z := (wait_record v, thread_id v).
Definition stance (v : thread_control_block) : mode * (option nat * Z) := (mode_of v, kept v).

(** From [h] to [h'] nobody's stance changed, but [t]'s mode, to [m]. *)
Definition moded (but : option (nat * mode)) (h h' : heap) : Prop :=
  forall x, stance <$> h' !! x =
    match but with
    | Some (t, m) => if decide (x = t) then (fun v => (m, kept v)) <$> h !! x else stance <$> h !! x
    | None => stance <$> h !! x
    end.

Definition lively (h : heap) : Prop := forall t v, h !! t = Some v -> mode_of v <> gone.

Section moded.
Implicit Types (h : heap).

Lemma moded_refl h : moded None h h.
Proof. intros x. reflexivity. Qed.

Lemma moded_after but h1 h2 h3 : moded but h1 h2 -> moded None h2 h3 -> moded but h1 h3.
Proof. intros A B x. rewrite (B x). apply A. Qed.

Lemma stance_eq v w : stance v = stance w -> mode_of v = mode_of w /\ kept v = kept w.
Proof. intros E. injection E. intros. split; [assumption | unfold kept; congruence]. Qed.

Lemma moded_then but h1 h2 h3 : moded None h1 h2 -> moded but h2 h3 -> moded but h1 h3.
Proof.
  intros A B x. rewrite (B x). specialize (A x). destruct but as [[t m] |]; [| exact A]. case_decide; [| exact A].
  destruct (h1 !! x), (h2 !! x); simpl in *; try congruence. apply (inj Some), stance_eq in A as [_ ->]. reflexivity.
Qed.

(** The last word on one thread is the one that counts. *)
Lemma moded_again t m n h1 h2 h3 : moded (Some (t, m)) h1 h2 -> moded (Some (t, n)) h2 h3 -> moded (Some (t, n)) h1 h3.
Proof.
  intros A B x. rewrite (B x). specialize (A x). simpl in *. case_decide; [| exact A].
  destruct (h1 !! x), (h2 !! x); simpl in *; try congruence. apply (inj Some) in A. injection A. intros. unfold kept. congruence.
Qed.

Lemma moded_links h h' : same_but_links h h' -> moded None h h'.
Proof. intros E x. apply same_links_field; [reflexivity | exact E]. Qed.

Lemma moded_insert h t v w m : h !! t = Some v -> mode_of w = m -> kept w = kept v ->
  moded (Some (t, m)) h (<[t := w]> h).
Proof.
  intros Hv <- E x. case_decide as Ex; [subst x; rewrite lookup_insert_eq, Hv; simpl; unfold stance; rewrite E; reflexivity |].
  rewrite lookup_insert_ne by congruence. reflexivity.
Qed.

Lemma moded_keep h t v w : h !! t = Some v -> mode_of w = mode_of v -> kept w = kept v -> moded None h (<[t := w]> h).
Proof.
  intros Hv E E' x. destruct (decide (x = t)) as [-> |]; [rewrite lookup_insert_eq, Hv; simpl; unfold stance; congruence |].
  rewrite lookup_insert_ne by congruence. reflexivity.
Qed.

Lemma moded_lookup but h h' t v : moded but h h' -> h !! t = Some v -> exists v', h' !! t = Some v' /\
  kept v' = kept v /\
  mode_of v' = match but with Some (x, m) => if decide (t = x) then m else mode_of v | None => mode_of v end.
Proof.
  intros A Hv. specialize (A t). rewrite Hv in A. destruct (h' !! t) as [v' |].
  - exists v'. split; [reflexivity |]. destruct but as [[x m] |]; [case_decide |]; injection A; unfold kept; intros; split; congruence.
  - destruct but as [[x m] |]; [case_decide |]; simpl in A; congruence.
Qed.

Lemma moded_lookup_inv but h h' t v' : moded but h h' -> h' !! t = Some v' -> exists v, h !! t = Some v.
Proof.
  intros A Hv. specialize (A t). rewrite Hv in A. destruct (h !! t) as [v |]; [eauto |].
  destruct but as [[x m] |]; [case_decide |]; discriminate.
Qed.

Lemma moded_lively but h h' : moded but h h' -> (forall t, but <> Some (t, gone)) -> lively h -> lively h'.
Proof.
  intros A Hb Hl t v' Hv'. destruct (moded_lookup_inv _ _ _ _ _ A Hv') as [v Hv].
  destruct (moded_lookup _ _ _ _ _ A Hv) as (v0 & Hv0 & _ & E). rewrite Hv' in Hv0. injection Hv0 as <-. rewrite E.
  specialize (Hl t v Hv). destruct but as [[x m] |]; [case_decide as Ex |]; auto. intros ->. exact (Hb x eq_refl).
Qed.

(** ** What each step does to a block *)

Lemma mode_live v : mode_of v <> gone -> is_finished v = false /\ state v <> ThreadState.created.
Proof.
  unfold mode_of. destruct (is_finished v); [contradiction |]. case_bool_decide; [contradiction | auto].
Qed.

Lemma mode_running v : state v = ThreadState.running -> mode_of v <> gone ->
  disposition v <> ThreadDisposition.terminating.
Proof. intros Hr Hl. destruct (mode_live v Hl) as [Hf _]. unfold is_finished in Hf. intros E. rewrite E, orb_true_r in Hf. discriminate. Qed.

Ltac mode_cases v :=
  unfold mode_of, is_finished, departed_block in *; destruct v as [st di ? ? ? ? ? ? ? ? pr ? ? ? ? ?];
  cbn [state disposition pending_requests set_state set_disposition] in *; subst; try destruct st; destruct di;
  try destruct (Z.eqb_spec pr 0); simpl in *; congruence.

Lemma mode_set_running v : state v = ThreadState.ready -> mode_of (set_state ThreadState.running v) = mode_of v.
Proof. intros E. mode_cases v. Qed.

Lemma mode_set_ready v : state v = ThreadState.running -> mode_of (set_state ThreadState.ready v) = mode_of v.
Proof. intros E. mode_cases v. Qed.

Lemma mode_readied v : mode_of v <> gone -> mode_of (set_state ThreadState.ready (set_disposition ThreadDisposition.none v)) = awake.
Proof. intros E. mode_cases v. Qed.

Lemma finished_calmed v : is_finished v = false -> is_finished (set_disposition ThreadDisposition.none v) = false.
Proof. unfold is_finished. cbn. intros Hf. apply orb_false_iff in Hf as [-> _]. reflexivity. Qed.

Lemma mode_prepared v : mode_of v = going -> disposition v = ThreadDisposition.prepared /\ pending_requests v = 0%Z.
Proof. unfold mode_of. destruct (_ || _); [discriminate |]. destruct (Z.eqb_spec (pending_requests v) 0) as [E | E]; [| discriminate]. simpl. case_bool_decide; [discriminate |]. case_bool_decide; [auto | discriminate]. Qed.

Lemma mode_parked v : state v = ThreadState.running -> mode_of v <> gone -> pending_requests v = 0%Z ->
  mode_of (departed_block DepartureReason.parked v) = asleep.
Proof. intros E1 E2 E3. mode_cases v. Qed.

Lemma mode_serviced v : mode_of v <> gone -> pending_requests v <> 0%Z -> mode_of (serviced v) = mode_of v.
Proof.
  intros E1 E2. apply Z.eqb_neq in E2. destruct (mode_live v E1) as [Hf Hc]. unfold serviced. cbv zeta.
  unfold is_finished in Hf. apply orb_false_iff in Hf as [Hf1 Hf2]. cbn [disposition set_pending_requests set_intake_next].
  rewrite Hf2. unfold is_finished. cbn. rewrite Hf1. cbn. unfold mode_of, is_finished. rewrite E2, Hf1, Hf2.
  rewrite (bool_decide_false (state v = ThreadState.created)) by exact Hc. reflexivity.
Qed.

Lemma mode_erase v w : erase_links v = erase_links w -> stance v = stance w.
Proof. intros E. change (stance (erase_links v) = stance (erase_links w)). rewrite E. reflexivity. Qed.

Lemma serviced_record v : kept (serviced v) = kept v.
Proof. unfold serviced. cbv zeta. case_bool_decide; [reflexivity |]. destruct (is_finished _); reflexivity. Qed.
End moded.

(** ** The roads *)

Section roads.
Context `{Config} (cx : cpu) (c : nat) (s : kernel_state) (Hc : c < length (schedulers s)).
Implicit Types (h : heap) (sc : scheduler) (L : Levels.levels) (Hs : list nat).
Local Abbreviation wf h := (Urgency.wf h (nodes s) (mutexes s)).

Lemma lwp_unbind {A B} (m : K A) (k : A -> K B) Q R sc h es : lwp c s m Q sc h es -> lwp c s (kbind m k) R sc h es ->
  lwp c s m (fun a => lwp c s (k a) R) sc h es.
Proof.
  unfold lwp, wp, kbind. destruct (m _) as [[a s'] |]; [| auto]. intros (sc' & h' & es' & -> & _) HR. eauto 6.
Qed.

Lemma drained_moded h sc L Hs run I sc' h' : lively h -> intake_ok c h sc I ->
  drained c sc h L Hs run I sc' h' -> moded None h h'.
Proof.
  intros Hl [_ Hcl _] (_ & _ & _ & Hx) x. specialize (Hx x). destruct (h !! x) as [v |] eqn:Hv, (h' !! x) as [v' |]; try discriminate; [| reflexivity].
  apply (inj Some), mode_erase in Hx. simpl. f_equal. rewrite Hx. unfold serviced_of. case_bool_decide as Hin; [| reflexivity].
  unfold stance. rewrite serviced_record. f_equal. apply mode_serviced; [exact (Hl x v Hv) |]. destruct (Hcl x Hin) as (v0 & Hv0 & _ & E). rewrite Hv in Hv0. injection Hv0 as <-.
  rewrite E. discriminate.
Qed.

Lemma run_next_moded h sc L Hs es : core_ok c sc h L Hs None -> wf h ->
  lwp c s (run_next c) (fun _ _ h' _ => moded None h h') sc h es.
Proof.
  intros Hok Hwf. eapply lwp_mono; [apply (run_next_ok c s Hc h sc L Hs es Hok Hwf) |]. intros t sc' h' es'.
  destruct (pick _ _ _ _) as [[[r L'] Hs'] rotor']. intros (_ & _ & _ & _ & (v & Hv & Hr & Hl) & _).
  eapply moded_after; [eapply moded_keep; [exact Hv | apply mode_set_running, Hr | reflexivity] | apply moded_links, Hl].
Qed.

(** Whom a switch for [reason] away from [t] puts to sleep. *)
Definition parks (reason : departure_reason) (I : list nat) (t : nat) : option (nat * mode) :=
  if bool_decide (reason = DepartureReason.parked) && negb (bool_decide (t ∈ I)) then Some (t, asleep) else None.

Lemma depart_moded h sc L Hs I es t v reason :
  core_ok c sc h L Hs (Some t) -> quiet c sc h -> wf h -> h !! t = Some v -> state v = ThreadState.running -> mode_of v <> gone ->
  t ∉ I -> reason <> DepartureReason.exited ->
  (reason = DepartureReason.parked -> disposition v = ThreadDisposition.prepared /\ idle_thread sc <> Some t) ->
  lwp c s (Switch.depart cx c t reason)
    (fun _ sc' h' _ => moded (parks reason I t) h h' /\ exists L' Hs', core_ok c sc' h' L' Hs' None /\ wf h') sc h es.
Proof.
  intros Hok Hq Hwf Hv Hr Hlive Hin Hne Hpark.
  assert (Hp : pinned_core v = c) by (destruct (st_run _ _ _ _ _ _ (co_status _ _ _ _ _ _ Hok) t eq_refl) as (w & Hw & Hp & _); congruence).
  eapply lwp_mono; [apply (depart_ok cx c s Hc h sc L Hs _ es t v reason Hok Hv Hp Hr Hne Hpark) |].
  intros ? sc' h' es' (Hok' & _ & Hl & _).
  unfold stopped in Hok'. rewrite bool_decide_true in Hok' by reflexivity. destruct (departed _ _ _ _ _ _) as [L' Hs']. split.
  - unfold parks. rewrite (bool_decide_false (t ∈ I)) by exact Hin. rewrite andb_true_r.
    eapply moded_after; [| apply moded_links, Hl]. destruct reason; simpl; [| | | contradiction].
    + eapply moded_keep; [exact Hv | apply mode_set_ready, Hr | reflexivity].
    + eapply moded_keep; [exact Hv | apply mode_set_ready, Hr | reflexivity].
    + eapply moded_insert; [exact Hv | | reflexivity]. apply mode_parked; [exact Hr | exact Hlive |].
      apply (proj2 Hq t v Hv Hp).
  - exists L', Hs'. split; [exact Hok' |]. eapply wf_frame; [| exact Hwf]. etransitivity; [| apply links_view, Hl].
    eapply view_insert; [exact Hv |]. destruct reason; reflexivity.
Qed.

(** After the intake, the running thread is still running unless its own wake
    was there. *)
Lemma taken_in_running h sc L Hs I prev v es L1 Hs1 run1 v1 sc1 h1 es1 :
  core_ok c sc h L Hs (Some prev) -> h !! prev = Some v -> lively h ->
  taken_in c sc h L Hs I prev v es L1 Hs1 run1 v1 sc1 h1 es1 ->
  (state v1 = ThreadState.running /\ run1 = Some prev /\ prev ∉ I /\ disposition v1 = disposition v) \/
  (state v1 = ThreadState.ready /\ run1 = None /\ prev ∈ I).
Proof.
  intros Hok Hv Hl Hti. pose proof (Hl prev v Hv) as Hlv. destruct (mode_live v Hlv) as [Hf _].
  destruct (st_run _ _ _ _ _ _ (co_status _ _ _ _ _ _ Hok) prev eq_refl) as (v' & Hv' & _ & Hr).
  assert (v' = v) as -> by congruence.
  destruct (taken_in_state c h sc L Hs I prev v es L1 Hs1 run1 v1 sc1 h1 es1 Hok Hv (mode_running v Hr Hlv) Hti) as [_ Hst].
  pose proof (ti_serviced _ _ _ _ _ _ _ _ _ _ _ _ _ _ _ _ Hti) as Exv.
  assert (Hd : disposition v1 = disposition (serviced_of I prev v)) by (change (disposition (erase_links v1) = disposition (erase_links (serviced_of I prev v))); rewrite Exv; reflexivity).
  assert (Hs1' : state v1 = state (serviced_of I prev v)) by (change (state (erase_links v1) = state (erase_links (serviced_of I prev v))); rewrite Exv; reflexivity).
  assert (Hin : prev ∈ I -> run1 = None).
  { intros Hin. pose proof (arrivals_stopped (idle_thread sc) h (reverse I) prev v Hv Hf ltac:(apply elem_of_reverse; exact Hin) L Hs) as Hs0.
    rewrite (ti_arrivals _ _ _ _ _ _ _ _ _ _ _ _ _ _ _ _ Hti) in Hs0. exact Hs0. }
  destruct (ti_run _ _ _ _ _ _ _ _ _ _ _ _ _ _ _ _ Hti) as [-> | ->].
  - left. assert (Hn : prev ∉ I) by (intros Hi; discriminate (Hin Hi)). split_and!; auto.
    rewrite Hd. unfold serviced_of. rewrite bool_decide_false by exact Hn. reflexivity.
  - right. split_and!; auto. destruct (decide (prev ∈ I)) as [| Hn]; [assumption | exfalso].
    rewrite Hs1' in Hst. unfold serviced_of in Hst. rewrite bool_decide_false in Hst by exact Hn. congruence.
Qed.

(** The running thread dealt with and the next one run. *)
Lemma settle_moded h sc L Hs es I prev v L1 Hs1 run1 v1 sc1 h1 es1 reason :
  core_ok c sc h L Hs (Some prev) -> wf h -> intake_ok c h sc I -> h !! prev = Some v -> lively h ->
  reason <> DepartureReason.exited ->
  (reason = DepartureReason.parked -> disposition v = ThreadDisposition.prepared /\ idle_thread sc <> Some prev) ->
  taken_in c sc h L Hs I prev v es L1 Hs1 run1 v1 sc1 h1 es1 ->
  lwp c s ((if bool_decide (state v1 = ThreadState.running) then Switch.depart cx c prev reason else kret tt) ;;* run_next c)
    (fun _ _ h' _ => moded (parks reason I prev) h h') sc1 h1 es1.
Proof.
  intros Hok Hwf Hint Hv Hl Hne Hpark Hti. destruct (taken_in_running _ _ _ _ _ _ _ _ _ _ _ _ _ _ _ Hok Hv Hl Hti) as [(Hr & E & Hn & Hd) | (Hr & E & Hn)].
  all: pose proof Hti as [_ Hdr Hok1 _ _ Hv1 _ _ Hq Hview _]; pose proof (drained_moded _ _ _ _ _ _ _ _ Hl Hint Hdr) as Hm1; lwp_step; rewrite Hr.
  - rewrite bool_decide_true by reflexivity. rewrite E in Hok1.
    assert (Hl1 : lively h1) by (eapply moded_lively; [exact Hm1 | discriminate | exact Hl]).
    eapply lwp_mono; [apply (depart_moded h1 sc1 L1 Hs1 I es1 prev v1 reason Hok1 Hq); auto; [eapply wf_frame; eassumption | exact (Hl1 prev v1 Hv1) |] |].
    { intros Ep. rewrite Hd. destruct Hdr as (_ & Hsr & _). rewrite (sr_idle _ _ Hsr). apply Hpark, Ep. }
    intros ? sc2 h2 es2 (Hm2 & L2 & Hs2 & Hok2 & Hwf2). eapply lwp_mono; [apply (run_next_moded h2 sc2 L2 Hs2 es2 Hok2 Hwf2) |].
    intros ? ? h3 ? Hm3. eapply moded_then; [exact Hm1 |]. eapply moded_after; eassumption.
  - rewrite bool_decide_false by discriminate. lwp_step. rewrite E in Hok1.
    eapply lwp_mono; [apply (run_next_moded h1 sc1 L1 Hs1 es1 Hok1 ltac:(eapply wf_frame; eassumption)) |].
    intros ? ? h3 ? Hm3. unfold parks. rewrite (bool_decide_true (prev ∈ I)), andb_false_r by exact Hn. eapply moded_then; eassumption.
Qed.

Lemma decide_moded h sc L Hs es I prev v reason :
  core_ok c sc h L Hs (Some prev) -> wf h -> intake_ok c h sc I -> (cores = 1 -> I = []) -> h !! prev = Some v -> lively h ->
  reason <> DepartureReason.exited ->
  (reason = DepartureReason.parked -> disposition v = ThreadDisposition.prepared /\ idle_thread sc <> Some prev) ->
  lwp c s (Switch.decide cx c reason) (fun _ _ h' _ => moded (parks reason I prev) h h') sc h es.
Proof.
  intros Hok Hwf Hin Hone Hv Hl Hne Hpark. unfold Switch.decide. lwp_step.
  eapply lwp_mono; [apply (take_in_ok cx c s Hc h sc L Hs es I prev v Hok Hwf Hin Hone Hv) |].
  intros ? sc1 h1 es1 (L1 & Hs1 & run1 & v1 & Hti). do 2 lwp_step. lwp_step.
  rewrite (ti_current _ _ _ _ _ _ _ _ _ _ _ _ _ _ _ _ Hti). lwp_step. cbn [nonnull ok].
  lwp_step. eapply lwp_get_tcb; [exact (ti_block _ _ _ _ _ _ _ _ _ _ _ _ _ _ _ _ Hti) |]. cbn beta.
  eapply settle_moded; eassumption.
Qed.

(** ** The roads that take it *)

Lemma direct_reschedule_moded h sc L Hs es I prev v reason :
  core_ok c sc h L Hs (Some prev) -> wf h -> intake_ok c h sc I -> (cores = 1 -> I = []) -> h !! prev = Some v -> lively h ->
  reason <> DepartureReason.exited ->
  (reason = DepartureReason.parked -> disposition v = ThreadDisposition.prepared /\ idle_thread sc <> Some prev) ->
  lwp c s (Switch.direct_reschedule cx c reason) (fun _ _ h' _ => moded (parks reason I prev) h h') sc h es.
Proof.
  intros Hok Hwf Hin Hone Hv Hl Hne Hpark. unfold Switch.direct_reschedule. lwp_step.
  lwp_step; [rewrite bool_decide_false by exact Hne; reflexivity |]. do 2 lwp_step. lwp_step.
  rewrite (co_run _ _ _ _ _ _ Hok prev eq_refl). lwp_step. cbn [nonnull ok]. lwp_step.
  eapply lwp_mono; [apply (decide_moded h sc L Hs es I prev v reason); assumption |].
  intros t sc' h' es' Hm. destruct (t =? prev); lwp_step; exact Hm.
Qed.

Lemma interrupt_reschedule_moded h sc L Hs es I prev v :
  core_ok c sc h L Hs (Some prev) -> wf h -> intake_ok c h sc I -> (cores = 1 -> I = []) -> h !! prev = Some v -> lively h ->
  lwp c s (Switch.interrupt_reschedule cx c) (fun _ _ h' _ => moded None h h') sc h es.
Proof.
  intros Hok Hwf Hin Hone Hv Hl. unfold Switch.interrupt_reschedule. do 2 lwp_step. lwp_step.
  rewrite (co_run _ _ _ _ _ _ Hok prev eq_refl). lwp_step. cbn [nonnull ok]. lwp_step.
  eapply lwp_mono; [apply (decide_moded h sc L Hs es I prev v DepartureReason.preempted); try assumption; discriminate |].
  intros t sc' h' es' Hm. destruct (t =? prev); lwp_step; exact Hm.
Qed.

Lemma reschedule_moded h sc L Hs es I prev v :
  core_ok c sc h L Hs (Some prev) -> wf h -> intake_ok c h sc I -> (cores = 1 -> I = []) -> h !! prev = Some v -> lively h ->
  lwp c s (Switch.reschedule cx c) (fun _ _ h' _ => moded None h h') sc h es.
Proof.
  intros Hok Hwf Hin Hone Hv Hl. pose proof (co_run _ _ _ _ _ _ Hok prev eq_refl) as Hcur.
  destruct (st_run _ _ _ _ _ _ (co_status _ _ _ _ _ _ Hok) prev eq_refl) as (v' & Hv' & Hp & Hr). assert (v' = v) as -> by congruence.
  assert (Hnl : ~ listed L Hs prev) by (eapply running_not_listed; [exact Hok | exact Hv | congruence]).
  destruct (not_listed_sentinels _ _ _ _ _ _ _ (co_filed _ _ _ _ _ _ Hok) Hv Hp Hnl) as [He _].
  unfold Switch.reschedule. do 2 lwp_step. lwp_step. lwp_step; [rewrite Hcur; reflexivity |].
  lwp_step. rewrite Hcur. lwp_step. cbn [nonnull ok]. lwp_step. eapply lwp_get_tcb; [exact Hv |]. cbn beta.
  lwp_step. lwp_step; [rewrite He; reflexivity |]. lwp_step.
  eapply lwp_mono; [apply (take_in_ok cx c s Hc h sc L Hs es I prev v Hok Hwf Hin Hone Hv) |].
  intros ? sc1 h1 es1 (L1 & Hs1 & run1 & v1 & Hti). pose proof (ti_block _ _ _ _ _ _ _ _ _ _ _ _ _ _ _ _ Hti) as Hv1.
  lwp_step. eapply lwp_get_tcb; [exact Hv1 |]. cbn beta.
  assert (Hyield : forall reason, reason = DepartureReason.yielded \/ reason = DepartureReason.preempted ->
    lwp c s ((if bool_decide (state v1 = ThreadState.running) then Switch.depart cx c prev reason else kret tt) ;;* run_next c)
      (fun _ _ h' _ => moded None h h') sc1 h1 es1).
  { intros reason Hre. pose proof (settle_moded h sc L Hs es I prev v L1 Hs1 run1 v1 sc1 h1 es1 reason Hok Hwf Hin Hv Hl) as Hset.
    destruct Hre as [-> | ->]; apply Hset; try discriminate; exact Hti. }
  destruct (taken_in_running _ _ _ _ _ _ _ _ _ _ _ _ _ _ _ Hok Hv Hl Hti) as [(Hr1 & E & Hn & Hd) | (Hr1 & E & Hn)]; rewrite Hr1 in Hyield |- *.
  - rewrite bool_decide_true in Hyield by reflexivity. lwp_step. lwp_step. unfold Switch.departure_of. lwp_step.
    eapply lwp_get_tcb; [exact Hv1 |]. cbn beta.
    rewrite bool_decide_false by (rewrite Hd; exact (mode_running v Hr (Hl prev v Hv))). lwp_step.
    destruct (taken_in_static c sc h L Hs I prev v es L1 Hs1 run1 v1 sc1 h1 es1 Hti) as [_ Hp1].
    eapply lwp_mono; [apply (preempted_ok c s Hc h1 sc1 L1 Hs1 _ es1 prev v1 (ti_core _ _ _ _ _ _ _ _ _ _ _ _ _ _ _ _ Hti) Hv1 Hp1) |].
    intros r sc2 h2 es2 (-> & -> & -> & ->). lwp_step. lwp_step.
    set (reason := if preempts L1 Hs1 v1 then _ else _).
    assert (Hre : reason = DepartureReason.yielded \/ reason = DepartureReason.preempted) by (subst reason; destruct (preempts _ _ _); auto).
    assert (Hdep : lwp c s (Switch.depart cx c prev reason) (fun _ _ _ _ => True) sc1 h1 es1).
    { pose proof (ti_core _ _ _ _ _ _ _ _ _ _ _ _ _ _ _ _ Hti) as Hok1.
      eapply lwp_mono; [apply (depart_ok cx c s Hc h1 sc1 L1 Hs1 run1 es1 prev v1 reason Hok1 Hv1 Hp1 Hr1) | auto]; destruct Hre as [-> | ->]; discriminate. }
    eapply lwp_mono; [eapply lwp_unbind; [exact Hdep | exact (Hyield reason Hre)] |].
    intros ? sc3 h3 es3 Hrun. lwp_step. lwp_step. eapply lwp_mono; [exact Hrun |]. intros t sc4 h4 es4 Hm. lwp_step. exact Hm.
  - rewrite bool_decide_false in Hyield by discriminate. specialize (Hyield DepartureReason.yielded (or_introl eq_refl)).
    do 2 lwp_step. lwp_step. unfold lwp, wp, kbind, kret in Hyield.
    eapply lwp_mono; [exact Hyield |]. intros. lwp_step. assumption.
Qed.
End roads.

(** ** On the whole kernel *)

Section kernel.
Context `{Config} (cx : cpu).
Implicit Types (s : kernel_state).

Lemma all_running_local c s s' sc L Hs next I : all_running s -> local c s s' ->
  core_inv c s' sc L Hs (Some next) I -> all_running s'.
Proof.
  intros [Hlen Hall] Hl Hc. split; [rewrite (lc_cores _ _ _ Hl); exact Hlen |]. intros d Hd.
  destruct (decide (d = c)) as [-> | Hne]; [eauto 6 |].
  destruct (Hall d Hd) as (sc' & L' & Hs' & run' & I' & Hinv). exists sc', L', Hs', run', I'.
  eapply core_inv_other; eassumption.
Qed.

(** What an operation of core [c] leaves that readies [but] or puts it to
    sleep: the cores as they should be, and everybody else's mode. *)
Record quietly (c : nat) (but : option (nat * mode)) (s s' : kernel_state) : Prop := {
  qt_running : all_running s';
  qt_local : local c s s';
  qt_moded : moded but (tcbs s) (tcbs s');
  qt_idle : idle_thread <$> schedulers s' = idle_thread <$> schedulers s
}.

Lemma idle_same c s s' sc sc' : local c s s' -> schedulers s !! c = Some sc -> schedulers s' !! c = Some sc' ->
  idle_thread sc' = idle_thread sc -> idle_thread <$> schedulers s' = idle_thread <$> schedulers s.
Proof.
  intros Hl H1 H2 E. apply list_eq. intros d. rewrite !list_lookup_fmap. destruct (decide (d = c)) as [-> | Hne].
  - rewrite H1, H2. simpl. congruence.
  - rewrite (lc_schedulers _ _ _ Hl d Hne). reflexivity.
Qed.

Lemma quietly_refl c s : all_running s -> quietly c None s s.
Proof. intros Hall. split; [exact Hall | reflexivity | apply moded_refl | reflexivity]. Qed.

Lemma switch_quietly c s sc L Hs I reason prev but s' : all_running s -> schedulers s !! c = Some sc ->
  switch_outcome c s sc L Hs I reason prev s' -> moded but (tcbs s) (tcbs s') -> quietly c but s s'.
Proof.
  intros Hall Hsc (next & sc' & L' & Hs' & rotor' & _ & Hinv & Ei & _ & _ & Hloc) Hm.
  split; [eapply all_running_local; eassumption | exact Hloc | exact Hm | eapply idle_same; [exact Hloc | exact Hsc | apply Hinv | exact Ei]].
Qed.

Section one.
Context (c : nat) (s : kernel_state) (sc : scheduler) (L : Levels.levels) (Hs I : list nat) (prev : nat) (v : thread_control_block).
Context (Hall : all_running s) (Hl : lively (tcbs s)) (Hinv : core_inv c s sc L Hs (Some prev) I) (Hv : tcbs s !! prev = Some v).

Lemma run_moded {A} (m : K A) but : lwp c s m (fun _ _ h' _ => moded but (tcbs s) h') sc (tcbs s) (calls s) ->
  wp m (fun _ s' => moded but (tcbs s) (tcbs s')) s.
Proof.
  intros Hm. eapply wp_mono; [eapply (lwp_run c s sc L Hs (Some prev) I Hinv), Hm |]. intros a s' (sc' & h' & es' & -> & Hq). exact Hq.
Qed.

Lemma direct_quietly reason : reason <> DepartureReason.exited -> may_park sc prev v reason ->
  wp (Switch.direct_reschedule cx c reason) (fun _ s' => quietly c (parks reason I prev) s s') s.
Proof.
  intros Hne Hpark. pose proof Hinv as [H1 H2 H3 H4 H5]. eapply wp_mono; [apply wp_and |].
  - apply (direct_reschedule_outcome cx c s sc L Hs I prev v Hinv Hv reason Hne Hpark).
  - apply run_moded, (direct_reschedule_moded cx c s (inv_core_lt _ _ _ _ _ _ _ Hinv) (tcbs s) sc L Hs (calls s) I prev v reason); assumption.
  - intros ? s' [Ho Hm]. eapply switch_quietly; eassumption.
Qed.

Lemma interrupt_quietly : wp (Switch.interrupt_reschedule cx c) (fun _ s' => quietly c None s s') s.
Proof.
  pose proof Hinv as [H1 H2 H3 H4 H5]. eapply wp_mono; [apply wp_and |].
  - apply (interrupt_reschedule_outcome cx c prev s sc L Hs I v Hinv Hv).
  - apply run_moded, (interrupt_reschedule_moded cx c s (inv_core_lt _ _ _ _ _ _ _ Hinv) (tcbs s) sc L Hs (calls s) I prev v); assumption.
  - intros ? s' [Ho Hm]. eapply switch_quietly; eassumption.
Qed.

(** The handler, and a thread that yields. *)
Lemma handler_quietly : wp (Switch.reschedule cx c) (fun _ s' => quietly c None s s') s.
Proof.
  pose proof Hinv as [H1 H2 H3 H4 H5].
  destruct (st_run _ _ _ _ _ _ (co_status _ _ _ _ _ _ H2) prev eq_refl) as (v' & Hv' & _ & Hr). assert (v' = v) as -> by congruence.
  eapply wp_mono; [apply wp_and |].
  - apply (reschedule_outcome cx c s sc L Hs I prev v Hinv Hv (mode_running v Hr (Hl prev v Hv))).
  - apply run_moded, (reschedule_moded cx c s (inv_core_lt _ _ _ _ _ _ _ Hinv) (tcbs s) sc L Hs (calls s) I prev v); assumption.
  - intros ? s' [Ho Hm]. eapply switch_quietly; [exact Hall | exact H1 | apply Ho | exact Hm].
Qed.

Lemma yield_quietly : masked_from_baseline cx = true -> wp (Switch.yield cx c) (fun _ s' => quietly c None s s') s.
Proof.
  intros Hb. unfold Switch.yield. apply wp_bind, wp_ensure; [exact Hb |]. apply (direct_quietly DepartureReason.yielded); discriminate.
Qed.

(** [commit_to_block]: a thread still prepared, with no wake on its way, is
    put to sleep, and any other is not. *)
Lemma commit_quietly : masked_from_baseline cx = true -> this_core cx = c -> no_idle s prev ->
  wp (Switch.commit_to_block cx prev)
    (fun _ s' => quietly c (if bool_decide (mode_of v = going) then Some (prev, asleep) else None) s s') s.
Proof.
  intros Hb Ec Hni. unfold Switch.commit_to_block. apply wp_bind. eapply wp_get_tcb; [exact Hv |].
  pose proof Hinv as [Hsc Hok _ Hint _].
  destruct (st_run _ _ _ _ _ _ (co_status _ _ _ _ _ _ Hok) prev eq_refl) as (v' & Hv' & Hp & Hr). assert (v' = v) as -> by congruence.
  destruct (mode_live v (Hl prev v Hv)) as [Hf Hcr].
  assert (Em : mode_of v = going <-> disposition v = ThreadDisposition.prepared /\ prev ∉ I).
  { destruct Hint as [_ Hcl Hfr]. split.
    - intros E. destruct (mode_prepared v E) as [E1 E2]. split; [exact E1 |]. intros Hi.
      destruct (Hcl prev Hi) as (v' & Ev & _ & E3). assert (v' = v) as -> by congruence. rewrite E2 in E3. discriminate.
    - intros [E1 E2]. unfold mode_of. rewrite Hf, (Hfr prev v Hv Hp E2), E1, Hr. reflexivity. }
  case_bool_decide as Ed; cbn [negb].
  - rewrite Ec. unfold Switch.park. apply wp_bind, wp_ensure; [exact Hb |].
    eapply wp_mono; [apply (direct_quietly DepartureReason.parked); [discriminate | intros _; split; [exact Ed | exact (Hni c sc Hsc)]] |].
    intros ? s' Hq. unfold parks in Hq. cbn [bool_decide] in Hq. rewrite bool_decide_true in Hq by reflexivity. cbn [andb] in Hq.
    replace (negb (bool_decide (prev ∈ I))) with (bool_decide (mode_of v = going)) in Hq; [exact Hq |].
    apply eq_true_iff_eq. rewrite negb_true_iff, bool_decide_eq_true, bool_decide_eq_false, Em. tauto.
  - apply wp_ret. rewrite bool_decide_false by tauto. apply quietly_refl, Hall.
Qed.
End one.

(** ** A wake *)

Lemma ready_moded c s sc L Hs run I t v r s' : ready_outcome c s sc L Hs run I t (set_disposition ThreadDisposition.none v) r s' ->
  tcbs s !! t = Some (set_disposition ThreadDisposition.none v) -> mode_of v <> gone -> moded (Some (t, awake)) (tcbs s) (tcbs s').
Proof.
  intros (_ & _ & _ & _ & Hl & _) Hv Hlive. destruct (mode_live v Hlive) as [Hf _].
  rewrite (finished_calmed v Hf) in Hl. eapply moded_after; [eapply moded_insert; [exact Hv | apply mode_readied, Hlive | reflexivity] | apply moded_links, Hl].
Qed.

Lemma ready_quietly c s sc L Hs I prev t v policy : all_running s -> lively (tcbs s) -> core_inv c s sc L Hs (Some prev) I ->
  tcbs s !! t = Some (set_disposition ThreadDisposition.none v) -> mode_of v <> gone -> pinned_core v = c -> t <> prev ->
  wp (Switch.set_thread_ready cx c t policy) (fun _ s' => quietly c (Some (t, awake)) s s') s.
Proof.
  intros Hall Hl Hinv Hv Hlive Hp Hne. pose proof Hinv as [H1 H2 H3 H4 H5].
  unfold Switch.set_thread_ready, Switch.set_thread_ready_on.
  apply wp_bind. eapply wp_get_scheduler; [exact H1 |]. apply wp_bind. eapply wp_get_tcb; [exact Hv |].
  apply wp_bind, wp_ensure; [apply Nat.eqb_eq; rewrite (co_id _ _ _ _ _ _ H2); exact Hp |]. apply wp_bind.
  eapply wp_mono; [apply (make_ready_outcome c s sc L Hs (Some prev) I Hinv t _ Hv Hp) |].
  intros r s1 Hout. pose proof (ready_moded _ _ _ _ _ _ _ _ _ _ _ Hout Hv Hlive) as Hm1. destruct Hout as (sc1 & Hinv1 & Hsr1 & Hloc & _).
  assert (Erun : forall f, (if f : bool then Some prev else stopped t (Some prev)) = Some prev)
    by (intros []; [reflexivity |]; unfold stopped; rewrite bool_decide_false by congruence; reflexivity).
  rewrite Erun in Hinv1. destruct (made_ready _ _ _ _ _) as [L1 Hs1].
  assert (Hall1 : all_running s1) by (eapply all_running_local; eassumption).
  assert (Hl1 : lively (tcbs s1)) by (eapply moded_lively; [exact Hm1 | discriminate | exact Hl]).
  destruct (st_run _ _ _ _ _ _ (co_status _ _ _ _ _ _ (ci_core _ _ _ _ _ _ _ Hinv1)) prev eq_refl) as (w & Hw & _).
  assert (Hend : forall but s', quietly c but s1 s' -> but = None -> quietly c (Some (t, awake)) s s').
  { intros but s' [Q1 Q2 Q3 Q4] ->. split; [exact Q1 | etransitivity; eassumption | eapply moded_after; eassumption |].
    rewrite Q4. eapply idle_same; [exact Hloc | exact H1 | apply Hinv1 | apply (sr_idle _ _ Hsr1)]. }
  pose proof (quietly_refl c s1 Hall1) as Hstay.
  destruct (_ && _); [| apply wp_ret; eapply Hend; [exact Hstay | reflexivity]].
  destruct (masked_from_baseline cx).
  - apply wp_bind. eapply wp_mono; [apply (direct_quietly c s1 sc1 L1 Hs1 I prev w Hall1 Hl1 Hinv1 Hw DepartureReason.preempted); discriminate |].
    intros ? s2 Hq. apply wp_ret. eapply Hend; [exact Hq | reflexivity].
  - destruct (interrupted_at_baseline cx); [| apply wp_ret; eapply Hend; [exact Hstay | reflexivity]].
    apply wp_bind. eapply wp_mono; [apply (interrupt_quietly c s1 sc1 L1 Hs1 I prev w Hall1 Hl1 Hinv1 Hw) |].
    intros ? s2 Hq. apply wp_ret. eapply Hend; [exact Hq | reflexivity].
Qed.

(** A wake from any core: its thread is awake, and nobody else was moved. *)
Lemma wake_quietly s t v policy : all_running s -> lively (tcbs s) -> tcbs s !! t = Some v -> pinned_core v < cores ->
  wp (Switch.global_ready_thread cx t policy) (fun _ s' => quietly (pinned_core v) (Some (t, awake)) s s') s.
Proof.
  intros Hall Hl Hv Hpc. destruct (proj2 Hall _ Hpc) as (sc & L & Hs & prev & I & Hinv). set (c := pinned_core v) in *.
  pose proof (Hl t v Hv) as Hlive. destruct (mode_live v Hlive) as [Hf Hcr].
  unfold Switch.global_ready_thread, Switch.global_ready_thread_on. apply wp_bind. eapply wp_get_tcb; [exact Hv |].
  rewrite Hf. fold c. apply wp_bind, wp_ensure; [apply Nat.ltb_lt, Hpc |].
  destruct ((1 <? cores) && negb (this_core cx =? c)) eqn:Eremote.
  - apply andb_true_iff in Eremote as [Em _]. apply Nat.ltb_lt in Em.
    apply wp_bind, wp_emit. apply wp_bind. set (s0 := set_calls _ s).
    assert (Hinv0 : core_inv c s0 sc L Hs (Some prev) I) by (destruct Hinv; split; assumption).
    eapply wp_mono; [apply (post_intake_ok cx c s0 sc L Hs (Some prev) I t v Hinv0 Hv eq_refl Em) |].
    intros ? s' (sc' & Hinv' & Hloc & Hsr & _ & (w & Hw) & Hpv). apply wp_ret.
    assert (Hloc' : local c s s') by (transitivity s0; [split; reflexivity | exact Hloc]).
    split; [eapply all_running_local; eassumption | exact Hloc' | |
      eapply idle_same; [exact Hloc' | apply Hinv | apply Hinv' | apply (sr_idle _ _ Hsr)]]. rewrite Hw.
    assert (E : (post_view <$> tcbs s0) !! t = (post_view <$> tcbs s') !! t) by (rewrite Hpv; reflexivity).
    rewrite !lookup_fmap, Hw, lookup_insert_eq in E. change (tcbs s0) with (tcbs s) in E. rewrite Hv in E. cbn in E.
    assert (Es : state w = state v /\ disposition w = disposition v /\ kept w = kept v) by (injection E; intros; split_and!; unfold kept; congruence).
    eapply moded_insert; [exact Hv | | apply Es].
    destruct (in_claimed _ _ _ _ (ci_intake _ _ _ _ _ _ _ Hinv') t) as (w' & Hw' & _ & Eb); [unfold posted; case_bool_decide; [assumption | left] |].
    rewrite Hw, lookup_insert_eq in Hw'. injection Hw' as <-. unfold mode_of, is_finished in *. destruct Es as (-> & -> & _).
    rewrite Hf, (bool_decide_false (state v = ThreadState.created)), Eb by exact Hcr. reflexivity.
  - apply wp_bind. eapply wp_modify_tcb; [exact Hv |]. set (s0 := set_tcbs _ s).
    pose proof (set_disposition_inv c s sc L Hs (Some prev) I t v ThreadDisposition.none Hinv Hv) as Hinv0. fold s0 in Hinv0.
    assert (Hv0 : tcbs s0 !! t = Some (set_disposition ThreadDisposition.none v)) by apply lookup_insert_eq.
    assert (Hloc0 : local c s s0) by (apply local_block with v; auto).
    assert (Hall0 : all_running s0) by (eapply all_running_local; eassumption).
    pose proof (finished_calmed v Hf) as Hf0.
    assert (Hlive0 : mode_of (set_disposition ThreadDisposition.none v) <> gone).
    { unfold mode_of. rewrite Hf0, (bool_decide_false (state _ = _)) by exact Hcr. cbn.
      destruct (pending_requests v =? 0)%Z; [| discriminate]. cbn. case_bool_decide; discriminate. }
    assert (Hm0 : forall m, mode_of (set_disposition ThreadDisposition.none v) = m -> moded (Some (t, m)) (tcbs s) (tcbs s0))
      by (intros m E; eapply moded_insert; [exact Hv | exact E | reflexivity]).
    assert (Hl0 : lively (tcbs s0)) by (eapply moded_lively; [apply (Hm0 _ eq_refl) | intros x; intros [= _ E]; contradiction | exact Hl]).
    destruct (bool_decide (state v = ThreadState.running)) eqn:Er.
    + apply bool_decide_eq_true in Er. apply wp_ret. split; [exact Hall0 | exact Hloc0 | apply Hm0 | reflexivity].
      unfold mode_of. rewrite Hf0. cbn. rewrite Er. cbn. destruct (pending_requests v =? 0)%Z; reflexivity.
    + apply bool_decide_eq_false in Er.
      assert (Hne : t <> prev). { intros ->. destruct (st_run _ _ _ _ _ _ (co_status _ _ _ _ _ _ (ci_core _ _ _ _ _ _ _ Hinv)) prev eq_refl) as (w & Hw & _ & Hr). congruence. }
      eapply wp_mono; [apply (ready_quietly c s0 sc L Hs I prev t v policy Hall0 Hl0 Hinv0 Hv0 Hlive eq_refl Hne) |].
      intros r s' [Q1 Q2 Q3 Q4]. split; [exact Q1 | etransitivity; eassumption | | exact Q4]. eapply moded_again; [apply (Hm0 _ eq_refl) | exact Q3].
Qed.
End kernel.
