(* ===== verification/WaitingProofs.v ===== *)
(** * A waitable's queue, on the whole kernel

    What arming, disarming and waking leave: the queue as the list it stands
    for, the cores as they should be, and the mode of the thread concerned. *)

From S2P Require Import Prelude Chain State ReadyQueue ReadyQueueProofs WaitQueue WaitQueueProofs Urgency UrgencyProofs Scheduler SchedulerSpec Local SchedulerProofs DispatchProofs PickProofs Switch RoadProofs SwitchProofs Cores ExitProofs Waking Mutex WakeProofs MutexProofs MutexOps Modes.

(** ** Links no mutex's queue goes through *)

Section requeue.
Context `{Config}.
Implicit Types (s : kernel_state).

Lemma all_running_wf s : all_running s -> Urgency.wf (tcbs s) (nodes s) (mutexes s).
Proof.
  intros [_ Hall]. destruct (Hall 0) as (sc & L & Hs & prev & I & Hinv); [pose proof cores_valid; lia |]. apply Hinv.
Qed.

(** A queue reads its own nodes only. *)
Lemma repr_outside (h : heap) (ns ns' : node_heap) q (k : list nat) : (forall x, x ∈ k -> ns' !! x = ns !! x) ->
  WaitQueue.repr h ns q k -> WaitQueue.repr h ns' q k /\ forall x, x ∈ k -> WaitQueue.prio h ns' x = WaitQueue.prio h ns x.
Proof.
  intros Hk Hq.
  assert (Hkey : forall x, x ∈ k -> WaitQueue.key h ns' x = WaitQueue.key h ns x)
    by (intros x Hx; unfold WaitQueue.key, deref; rewrite (Hk x Hx); reflexivity).
  assert (Hprio : forall x, x ∈ k -> WaitQueue.prio h ns' x = WaitQueue.prio h ns x)
    by (intros x Hx; unfold WaitQueue.prio; rewrite (Hkey x Hx); reflexivity).
  split; [| exact Hprio]. split.
  - eapply lseg_frame; [| apply Hq]. intros x Hx. rewrite (Hk x Hx). reflexivity.
  - intros x Hx. rewrite (Hkey x Hx). apply Hq, Hx.
  - pose proof (WaitQueue.wr_sorted _ _ _ _ Hq) as Hs. clear -Hs Hprio. induction Hs as [| a k Hs IH Ha]; constructor.
    + apply IH. intros x Hx. apply Hprio. right. exact Hx.
    + rewrite Forall_forall in *. intros x Hx. rewrite !Hprio by (constructor; auto). apply Ha, Hx.
Qed.

Lemma wf_renodes s (l : list nat) (ns' : node_heap) : Urgency.wf (tcbs s) (nodes s) (mutexes s) -> (forall n, n ∈ l -> unqueued s n) ->
  (forall x, x ∉ l -> ns' !! x = nodes s !! x) -> Urgency.wf (tcbs s) ns' (mutexes s).
Proof.
  intros [H1 H2 H3] Hu Hout. split; [exact H1 | exact H2 |]. intros m mx Hmx. destruct (H3 m mx Hmx) as (k & Hq & C1 & C2).
  assert (Hk : forall x, x ∈ k -> ns' !! x = nodes s !! x).
  { intros x Hx. apply Hout. intros Hl. exact (Hu x Hl m mx k Hmx (WaitQueue.wr_chain _ _ _ _ Hq) Hx). }
  destruct (repr_outside _ _ ns' _ k Hk Hq) as [Hq' Hprio]. exists k. split; [exact Hq' |]. split.
  - rewrite C1. destruct k as [| y k]; [reflexivity |]. symmetry. apply Hprio. left.
  - intros Hb x v o Hx Hv Ho Hne. rewrite (Hk x Hx) in Hv. eapply C2; eassumption.
Qed.

Lemma unqueued_renodes s s' (l : list nat) x : Urgency.wf (tcbs s) (nodes s) (mutexes s) -> (forall n, n ∈ l -> unqueued s n) ->
  (forall y, y ∉ l -> nodes s' !! y = nodes s !! y) -> mutexes s' = mutexes s -> unqueued s x -> unqueued s' x.
Proof.
  intros [_ _ H3] Hu Hout Em Hx m mx k' Hmx Hch. rewrite Em in Hmx. destruct (H3 m mx Hmx) as (k & Hq & _).
  assert (Hk : chain node_next (nodes s') (wq_head (mutex_queue mx)) k).
  { eapply lseg_frame; [| apply Hq]. intros y Hy. rewrite Hout; [reflexivity |].
    intros Hl. exact (Hu y Hl m mx k Hmx (WaitQueue.wr_chain _ _ _ _ Hq) Hy). }
  rewrite (chain_det _ _ _ _ _ Hch Hk). exact (Hx m mx k Hmx (WaitQueue.wr_chain _ _ _ _ Hq)).
Qed.

(** [s'] is [s] but for a waitable's queue and the links of [l]. *)
Record requeued (w : nat) (q : wait_queue) (l : list nat) (s s' : kernel_state) : Prop := {
  rq_tcbs : tcbs s' = tcbs s;
  rq_schedulers : schedulers s' = schedulers s;
  rq_mutexes : mutexes s' = mutexes s;
  rq_waitables : waitables s' = <[w := q]> (waitables s);
  rq_nodes : renodes l (nodes s) (nodes s')
}.

Lemma requeued_running w q l s s' : requeued w q l s s' -> (forall n, n ∈ l -> unqueued s n) -> all_running s -> all_running s'.
Proof.
  intros [E1 E2 E3 _ [_ Hout]] Hu Hall. eapply (all_running_reheld s); [apply reheld_queues; assumption | | exact Hall].
  rewrite E1, E3. eapply wf_renodes; [apply all_running_wf, Hall | exact Hu | exact Hout].
Qed.

Lemma requeued_unqueued w q l s s' x : requeued w q l s s' -> (forall n, n ∈ l -> unqueued s n) -> all_running s ->
  unqueued s x -> unqueued s' x.
Proof.
  intros [_ _ E3 _ [_ Hout]] Hu Hall. eapply unqueued_renodes; [apply all_running_wf, Hall | exact Hu | exact Hout | exact E3].
Qed.

(** A wake, a switch and the like leave links and queues alone. *)
Lemma local_unqueued c s s' x : local c s s' -> unqueued s x -> unqueued s' x.
Proof. intros Hl Hx m mx l. rewrite (lc_mutexes _ _ _ Hl), (lc_nodes _ _ _ Hl). apply Hx. Qed.
End requeue.

(** ** The queue *)

Section queue.
Context `{Config} (w : nat).
Implicit Types (s : kernel_state) (l : list nat).

(** [w]'s queue holds the nodes [l], and no mutex's queue does. *)
Record queue_is (s : kernel_state) (l : list nat) : Prop := {
  qi_queue : exists q, waitables s !! w = Some q /\ WaitQueue.repr (tcbs s) (nodes s) q l;
  qi_apart : forall n, n ∈ l -> unqueued s n
}.

Lemma queue_NoDup s l : queue_is s l -> NoDup l.
Proof. intros [(q & _ & Hq) _]. eapply wr_NoDup, Hq. Qed.

Lemma queue_frame c s s' l : local c s s' -> queue_is s l -> queue_is s' l.
Proof.
  intros Hl [(q & Hw & Hq) Ha]. split.
  - exists q. rewrite (lc_waitables _ _ _ Hl), (lc_nodes _ _ _ Hl). split; [exact Hw |]. eapply repr_frame; [apply Hl | exact Hq].
  - intros n Hn. eapply local_unqueued; [exact Hl | apply Ha, Hn].
Qed.

(** A block's disposition is nothing to the queue. *)
Lemma queue_block s l t v v' : queue_is s l -> tcbs s !! t = Some v -> urgency_view v' = urgency_view v ->
  queue_is (set_tcbs (<[t := v']> (tcbs s)) s) l.
Proof.
  intros [(q & Hw & Hq) Ha] Hv E. split; [| exact Ha]. exists q. split; [exact Hw |].
  eapply repr_frame; [| exact Hq]. cbn. eapply view_insert; eassumption.
Qed.

Lemma requeued_queue s s' q l l' : requeued w q l' s s' -> all_running s -> (forall n, n ∈ l' -> unqueued s n) -> l ⊆ l' ->
  WaitQueue.repr (tcbs s) (nodes s') q l -> queue_is s' l.
Proof.
  intros Hr Hall Hu Hsub Hq. pose proof Hr as [E1 E2 E3 E4 E5]. split.
  - exists q. rewrite E4, E1. split; [apply lookup_insert_eq | exact Hq].
  - intros n Hn. eapply requeued_unqueued; [exact Hr | exact Hu | exact Hall | apply Hu, Hsub, Hn].
Qed.

Section operations.
Context (s : kernel_state) (l : list nat) (Hall : all_running s) (Hq : queue_is s l).
Local Abbreviation prio := (WaitQueue.prio (tcbs s) (nodes s)).

(** Where a waiter's node stands with the queue. *)
Record node_for (s : kernel_state) (l : list nat) (n t : nat) : Prop := {
  nf_apart : unqueued s n;
  nf_node : exists nd, nodes s !! n = Some nd /\ node_owner nd = t /\ (n ∉ l -> node_next nd = None)
}.

Lemma arm_queue n t v : node_for s l n t -> tcbs s !! t = Some v -> n ∉ l ->
  wp (Waking.arm (Waking.of_waitable w) n)
    (fun _ s' => (exists q', requeued w q' (n :: l) s s') /\ queue_is s' (WaitQueue.insert prio n l)) s.
Proof.
  intros [Hun (nd & Hnd & <- & Hnx)] Hv Hn. pose proof Hq as [(q & Hw & Hr) Ha]. unfold Waking.arm. cbn [Waking.read_queue].
  do 2 wp_step. eapply wp_get_waitable; [exact Hw |]. do 5 wp_step. wp_step. wp_step.
  eapply ok_mono; [apply (arm_ok (tcbs s) (nodes s) q l n nd v None None Hr); [exact I | exact Hnd | auto | exact Hv | exact Hn] |].
  intros [[q' ns'] pi'] (Hr' & Hre & _ & _). do 2 wp_step. cbn [Waking.write_queue]. eapply wp_modify_waitable; [exact Hw |].
  set (s' := set_waitables _ _). assert (Hreq : requeued w q' (n :: l) s s') by (split; auto).
  split; [eauto |]. eapply requeued_queue; [exact Hreq | exact Hall | | | exact Hr'].
  - intros x Hx. apply elem_of_cons in Hx as [-> | Hx]; auto.
  - intros x Hx. apply insert_elem in Hx as [-> | Hx]; [left | right; exact Hx].
Qed.

Lemma disarm_queue n : n ∈ l ->
  wp (Waking.disarm (Waking.of_waitable w) n)
    (fun r s' => r = true /\ (exists q', requeued w q' l s s') /\ queue_is s' (filter (fun x => x <> n) l) /\
       exists nd, nodes s' !! n = Some nd /\ node_next nd = None) s.
Proof.
  intros Hn. pose proof Hq as [(q & Hw & Hr) Ha]. unfold Waking.disarm. cbn [Waking.read_queue].
  do 2 wp_step. eapply wp_get_waitable; [exact Hw |]. do 5 wp_step. wp_step. wp_step.
  eapply ok_mono; [apply (disarm_ok (tcbs s) (nodes s) q l n None None Hr I Hn) |].
  intros [[[r q'] ns'] pi'] (-> & Hr' & Hre & _ & _ & Hnd). do 2 wp_step. cbn [Waking.write_queue].
  wp_step. eapply wp_modify_waitable; [exact Hw |]. wp_step.
  set (s' := set_waitables _ _). assert (Hreq : requeued w q' l s s') by (split; auto).
  split_and!; [reflexivity | eauto | | exact Hnd]. eapply requeued_queue; [exact Hreq | exact Hall | exact Ha | | exact Hr'].
  intros x Hx. apply list_elem_of_filter in Hx. tauto.
Qed.

Lemma disarm_gone n : n ∉ l ->
  wp (Waking.disarm (Waking.of_waitable w) n) (fun r s' => r = false /\ (exists q', requeued w q' l s s') /\ queue_is s' l) s.
Proof.
  intros Hn. pose proof Hq as [(q & Hw & Hr) Ha]. unfold Waking.disarm. cbn [Waking.read_queue].
  do 2 wp_step. eapply wp_get_waitable; [exact Hw |]. do 5 wp_step. wp_step. wp_step.
  rewrite (disarm_absent _ _ _ _ _ _ Hr Hn). cbn [ok]. do 2 wp_step. cbn [Waking.write_queue].
  wp_step. eapply wp_modify_waitable; [exact Hw |]. wp_step.
  set (s' := set_waitables _ _). assert (Hreq : requeued w q l s s') by (split; auto; apply renodes_refl).
  split_and!; [reflexivity | eauto |]. eapply requeued_queue; [exact Hreq | exact Hall | exact Ha | reflexivity | exact Hr].
Qed.

(** The pop every wake begins with. *)
Lemma pop_queue n l' t : l = n :: l' -> (exists nd, nodes s !! n = Some nd /\ node_owner nd = t) ->
  wp (Waking.pop (Waking.of_waitable w))
    (fun r s' => r = Some t /\ (exists q', requeued w q' [n] s s') /\ queue_is s' l' /\
       exists nd, nodes s' !! n = Some nd /\ node_next nd = None) s.
Proof.
  intros El (nd & Hnd & <-). pose proof Hq as [(q & Hw & Hr) Ha]. rewrite El in Hr, Ha. unfold Waking.pop. cbn [Waking.read_queue].
  do 2 wp_step. eapply wp_get_waitable; [exact Hw |]. do 5 wp_step. wp_step. wp_step.
  eapply ok_mono; [apply (pop_ok (tcbs s) (nodes s) q n l' None None Hr I) |].
  intros [[[r q'] ns'] pi'] ((nd' & Hnd' & ->) & Hr' & Hre & _ & _ & Hn'). do 2 wp_step. cbn [Waking.write_queue].
  wp_step. eapply wp_modify_waitable; [exact Hw |]. wp_step. assert (nd' = nd) as -> by congruence.
  set (s' := set_waitables _ _). assert (Hreq : requeued w q' [n] s s') by (split; auto).
  split_and!; [reflexivity | eauto | | exact Hn'].
  assert (Hone : forall x, x ∈ [n] -> unqueued s x) by (intros x Hx; apply list_elem_of_singleton in Hx as ->; apply Ha; left).
  split.
  - exists q'. cbn. split; [apply lookup_insert_eq | exact Hr'].
  - intros x Hx. eapply requeued_unqueued; [exact Hreq | exact Hone | exact Hall | apply Ha; right; exact Hx].
Qed.

Lemma pop_nobody : l = [] -> wp (Waking.pop (Waking.of_waitable w)) (fun r s' => r = None /\ (exists q', requeued w q' [] s s') /\ queue_is s' []) s.
Proof.
  intros El. pose proof Hq as [(q & Hw & Hr) Ha]. rewrite El in Hr, Ha. unfold Waking.pop. cbn [Waking.read_queue].
  do 2 wp_step. eapply wp_get_waitable; [exact Hw |]. do 5 wp_step. wp_step. wp_step. rewrite (pop_empty _ _ _ _ Hr). cbn [ok].
  do 2 wp_step. cbn [Waking.write_queue]. wp_step. eapply wp_modify_waitable; [exact Hw |]. wp_step.
  set (s' := set_waitables _ _). assert (Hreq : requeued w q [] s s') by (split; auto; apply renodes_refl).
  split_and!; [reflexivity | eauto |]. eapply requeued_queue; [exact Hreq | exact Hall | intros x Hx; inversion Hx | reflexivity | exact Hr].
Qed.
End operations.
End queue.

(** ** Every kernel step a wait or a wake makes *)

Section stirs.
Context `{Config} (w : nat).
Implicit Types (s : kernel_state) (l : list nat).

(** From a kernel whose queue is [l] to one whose queue is [l']; [but] was
    woken, put to sleep or otherwise given a mode, and nobody else. *)
Record stirred (but : option (nat * mode)) (l l' : list nat) (s s' : kernel_state) : Prop := {
  sd_running : all_running s';
  sd_queue : queue_is w s' l';
  sd_moded : moded but (tcbs s) (tcbs s');
  sd_cores : pinned_core <$> tcbs s' = pinned_core <$> tcbs s;
  sd_idle : idle_thread <$> schedulers s' = idle_thread <$> schedulers s;
  sd_apart : forall n, unqueued s n -> unqueued s' n;
  sd_nodes : forall n t, node_for s l n t -> node_for s' l' n t
}.

Lemma stirred_then but l1 l2 l3 s1 s2 s3 : stirred None l1 l2 s1 s2 -> stirred but l2 l3 s2 s3 -> stirred but l1 l3 s1 s3.
Proof.
  intros A B. split; [apply B | apply B | eapply moded_then; [apply A | apply B] | | | intros n Hn; exact (sd_apart _ _ _ _ _ B n (sd_apart _ _ _ _ _ A n Hn)) | intros n t Hn; exact (sd_nodes _ _ _ _ _ B n t (sd_nodes _ _ _ _ _ A n t Hn))].
  - rewrite (sd_cores _ _ _ _ _ B). apply A.
  - rewrite (sd_idle _ _ _ _ _ B). apply A.
Qed.

Lemma stirred_no_idle but l l' s s' t : stirred but l l' s s' -> no_idle s t -> no_idle s' t.
Proof.
  intros A Hni d sc Hd E. assert (Ed : (idle_thread <$> schedulers s') !! d = (idle_thread <$> schedulers s) !! d)
    by (rewrite (sd_idle _ _ _ _ _ A); reflexivity).
  rewrite !list_lookup_fmap, Hd in Ed. destruct (schedulers s !! d) as [sc0 |] eqn:Hd0; [| discriminate].
  injection Ed as Ed. apply (Hni d sc0 Hd0). congruence.
Qed.

Lemma stirred_pinned but l l' s s' t v' : stirred but l l' s s' -> tcbs s' !! t = Some v' ->
  exists v, tcbs s !! t = Some v /\ pinned_core v' = pinned_core v.
Proof.
  intros A Hv. assert (E : (pinned_core <$> tcbs s') !! t = (pinned_core <$> tcbs s) !! t) by (rewrite (sd_cores _ _ _ _ _ A); reflexivity).
  rewrite !lookup_fmap, Hv in E. destruct (tcbs s !! t) as [v |]; [| discriminate]. injection E as E. eauto.
Qed.

Lemma quietly_stirred c but l s s' : quietly c but s s' -> queue_is w s l -> stirred but l l s s'.
Proof.
  intros [Q1 Q2 Q3 Q4] Hq. split; [exact Q1 | eapply queue_frame; eassumption | exact Q3 | symmetry; eapply local_pinned, Q2 | exact Q4 | intros n; eapply local_unqueued, Q2 |].
  intros n t [Hu Hn]. split; [eapply local_unqueued; eassumption |]. rewrite (lc_nodes _ _ _ Q2). exact Hn.
Qed.

Lemma requeued_stirred q lt l l' s s' : requeued w q lt s s' -> all_running s -> (forall x, x ∈ lt -> unqueued s x) ->
  queue_is w s' l' ->
  (forall x, x ∈ lt -> x ∉ l' -> exists nd, nodes s' !! x = Some nd /\ node_next nd = None) ->
  (forall x, x ∉ lt -> x ∉ l' -> x ∉ l) -> stirred None l l' s s'.
Proof.
  intros Hr Hall Hu Hq Hgone Hkept. pose proof Hr as [E1 E2 E3 E4 E5].
  split; [eapply requeued_running; eassumption | exact Hq | rewrite E1; apply moded_refl | rewrite E1; reflexivity | rewrite E2; reflexivity | intros n; eapply requeued_unqueued; eassumption |].
  intros n t [Hun (nd & Hnd & Ho & Hnx)]. split; [eapply requeued_unqueued; eassumption |].
  destruct (decide (n ∈ lt)) as [Hin | Hout].
  - destruct (renodes_lookup _ _ _ _ _ E5 Hnd) as [p Hp]. exists (set_node_next p nd). split_and!; [exact Hp | exact Ho |].
    intros Hl'. destruct (Hgone n Hin Hl') as (nd' & Hnd' & E). congruence.
  - exists nd. destruct E5 as [_ E5]. rewrite (E5 n Hout). split_and!; auto.
Qed.

Section one.
Context (cx : cpu) (s : kernel_state) (l : list nat) (Hall : all_running s) (Hq : queue_is w s l) (Hl : lively (tcbs s)).

Lemma arm_stirred n t v : node_for s l n t -> tcbs s !! t = Some v -> n ∉ l ->
  wp (Waking.arm (Waking.of_waitable w) n)
    (fun _ s' => stirred None l (WaitQueue.insert (WaitQueue.prio (tcbs s) (nodes s)) n l) s s') s.
Proof.
  intros Hn Hv Hnl. eapply wp_mono; [apply (arm_queue w s l Hall Hq n t v Hn Hv Hnl) |].
  intros ? s' [[q Hr] Hq']. eapply requeued_stirred; [exact Hr | exact Hall | | exact Hq' | |].
  - intros x Hx. apply elem_of_cons in Hx as [-> | Hx]; [apply Hn | apply (qi_apart _ _ _ Hq), Hx].
  - intros x Hx Hx'. destruct Hx'. apply insert_elem. apply elem_of_cons in Hx. exact Hx.
  - intros x _ Hx Hx'. apply Hx, insert_elem. auto.
Qed.

Lemma disarm_stirred n : wp (Waking.disarm (Waking.of_waitable w) n)
    (fun r s' => r = bool_decide (n ∈ l) /\ stirred None l (filter (fun x => x <> n) l) s s') s.
Proof.
  case_bool_decide as Hn.
  - eapply wp_mono; [apply (disarm_queue w s l Hall Hq n Hn) |]. intros r s' (-> & [q Hr] & Hq' & Hnd). split; [reflexivity |].
    eapply requeued_stirred; [exact Hr | exact Hall | apply Hq | exact Hq' | |].
    + intros x Hx Hx'. destruct (decide (x = n)) as [-> | Hne]; [exact Hnd |]. destruct Hx'. apply list_elem_of_filter. auto.
    + intros x Hx _. exact Hx.
  - eapply wp_mono; [apply (disarm_gone w s l Hall Hq n Hn) |]. intros r s' (-> & [q Hr] & Hq'). split; [reflexivity |].
    rewrite filter_keep_all by (intros x Hx ->; contradiction).
    eapply requeued_stirred; [exact Hr | exact Hall | apply Hq | exact Hq' | |]; auto. intros x Hx Hx'. contradiction.
Qed.

(** [wake_one]: the first waiter, if any, leaves the queue and is awake. *)
Lemma wake_nobody policy : l = [] ->
  wp (Waking.wake_one cx (Waking.of_waitable w) policy) (fun _ s' => stirred None [] [] s s') s.
Proof.
  intros El. unfold Waking.wake_one. wp_step. eapply wp_mono; [apply (pop_nobody w s l Hall Hq El) |].
  intros r s' (-> & [q Hr] & Hq'). wp_step.
  eapply requeued_stirred; [exact Hr | exact Hall | intros x Hx; inversion Hx | exact Hq' | intros x Hx; inversion Hx | auto].
Qed.

Lemma pop_first n l' t : l = n :: l' -> node_for s l n t ->
  wp (Waking.pop (Waking.of_waitable w)) (fun r s1 => r = Some t /\ stirred None (n :: l') l' s s1 /\ tcbs s1 = tcbs s) s.
Proof.
  intros El [Hun (nd & Hnd & Ho & Hnx)].
  eapply wp_mono; [apply (pop_queue w s l Hall Hq n l' t El); eauto |].
  intros r s1 (-> & [q Hr] & Hq1 & Hn1). split_and!; [reflexivity | | apply Hr].
  eapply requeued_stirred; [exact Hr | exact Hall | | exact Hq1 | |].
  - intros x Hx. apply list_elem_of_singleton in Hx as ->. exact Hun.
  - intros x Hx _. apply list_elem_of_singleton in Hx as ->. exact Hn1.
  - intros x Hx Hx' Hx2. apply elem_of_cons in Hx2 as [-> | Hx2]; [apply Hx; left | contradiction].
Qed.

Lemma wake_first policy n l' t v : l = n :: l' -> node_for s l n t -> tcbs s !! t = Some v -> pinned_core v < cores ->
  wp (Waking.wake_one cx (Waking.of_waitable w) policy) (fun _ s' => stirred (Some (t, awake)) (n :: l') l' s s') s.
Proof.
  intros El Hn Hv Hp. unfold Waking.wake_one. wp_step.
  eapply wp_mono; [apply (pop_first n l' t El Hn) |]. intros r s1 (-> & Hs1 & Et). pose proof (sd_queue _ _ _ _ _ Hs1) as Hq1.
  assert (Hl1 : lively (tcbs s1)) by (rewrite Et; exact Hl). assert (Hv1 : tcbs s1 !! t = Some v) by (rewrite Et; exact Hv).
  wp_step. eapply wp_mono; [apply (wake_quietly cx s1 (t) v policy (sd_running _ _ _ _ _ Hs1) Hl1 Hv1 Hp) |].
  intros hint s2 Hq2. pose proof (quietly_stirred _ _ _ _ _ Hq2 Hq1) as Hs2.
  assert (Hcalls : forall es, stirred (Some (t, awake)) (n :: l') l' s (set_calls es s2)).
  { intros es. pose proof (stirred_then _ _ _ _ _ _ _ Hs1 Hs2) as [[R1 R2] Q1 M1 P1 D1 A1 N1]. split; auto.
    - split; [exact R1 |]. intros d Hd. destruct (R2 d Hd) as (sc & L & Hs & prev & I & [J1 J2 J3 J4 J5]).
      exists sc, L, Hs, prev, I. split; assumption.
    - destruct Q1 as [(q1 & X1 & Y1) C1]. split; [exists q1; split; assumption | exact C1].
    - intros x y Hx. destruct (N1 x y Hx) as [X1 Y1]. split; [exact X1 | exact Y1]. }
  assert (Eid : s2 = set_calls (calls s2) s2) by (destruct s2; reflexivity).
  unfold Switch.apply_reschedule_policy. destruct (_ || _); [rewrite Eid; apply wp_ret, Hcalls |].
  destruct (_ || _); [apply wp_emit, Hcalls | rewrite Eid; apply wp_ret, Hcalls].
Qed.

(** A thread's disposition, set by itself. *)
Lemma dispose_stirred t v d : tcbs s !! t = Some v -> d <> ThreadDisposition.terminating ->
  wp (modify_tcb t (set_disposition d)) (fun _ s' => stirred (Some (t, mode_of (set_disposition d v))) l l s s') s.
Proof.
  intros Hv Hd. wp_step; [exact Hv |]. set (s' := set_tcbs _ s). split.
  - destruct Hall as [R1 R2]. split; [exact R1 |]. intros x Hx. destruct (R2 x Hx) as (sc & L & Hs & prev & I & Hi).
    exists sc, L, Hs, prev, I. apply set_disposition_inv; assumption.
  - eapply queue_block; [exact Hq | exact Hv | reflexivity].
  - eapply moded_insert; [exact Hv | reflexivity | reflexivity].
  - symmetry. eapply view_insert; [exact Hv | reflexivity].
  - reflexivity.
  - auto.
  - intros n x [Hu Hn]. split; [exact Hu | exact Hn].
Qed.

Lemma read_queue_ok : exists q, Waking.read_queue (Waking.of_waitable w) s = Ok ((q, None), s) /\
  WaitQueue.empty q = bool_decide (l = []).
Proof.
  destruct Hq as [(q & Hw & Hr) _]. exists q. cbn. unfold kbind, get_waitable. rewrite Hw. split; [reflexivity | eapply wr_empty, Hr].
Qed.
End one.
End stirs.

(** ** Waking every waiter a pick accepts *)

Section sweeps.
Context `{Config} (cx : cpu).

Lemma global_ready_thread_never_eq t s :
  Switch.global_ready_thread_never cx t s = Switch.global_ready_thread cx t ReschedulePolicy.never s.
Proof.
  unfold Switch.global_ready_thread_never, Switch.global_ready_thread, Switch.global_ready_thread_on, kbind.
  destruct (get_tcb t s) as [[v s1] |]; [| reflexivity]. destruct (is_finished v); [reflexivity |].
  destruct (kensure _ _ s1) as [[? s2] |]; [| reflexivity]. destruct (_ && _); [reflexivity |].
  destruct (modify_tcb t _ s2) as [[? s3] |]; [| reflexivity]. destruct (bool_decide _); [reflexivity |].
  symmetry. apply set_thread_ready_never_eq.
Qed.
End sweeps.
