(* ===== verification/SweepProofs.v ===== *)
(** * Waking every waiter that a pick accepts

    [wake_all_where] in batches of eight: each walk unlinks the waiters its
    pick accepts, up to a batch, and readies them after; a full batch is
    followed by another walk.  It ends, having woken exactly those the pick
    accepts, and the others keep their places. *)

From S2P Require Import Prelude Chain State ReadyQueue ReadyQueueProofs WaitQueue WaitQueueProofs Urgency UrgencyProofs Scheduler SchedulerSpec Local SchedulerProofs DispatchProofs PickProofs Switch RoadProofs SwitchProofs Cores ExitProofs Waking Waits Mutex Sync WakeProofs MutexProofs MutexOps Modes WaitingProofs.

(** ** One walk *)

Lemma snoc_cases {A} (l : list A) : l = [] \/ exists d b, l = d ++ [b].
Proof. induction l as [| b d _] using rev_ind; eauto. Qed.

Section walk.
Context (pick : thread_control_block -> bool) (h : heap) (own : nat -> nat) (yes : nat -> bool).

(** The nodes of a walk: whose they are, and whether the pick accepts. *)
Definition judged (ns : node_heap) (n : nat) : Prop :=
  exists v o, ns !! n = Some v /\ node_owner v = own n /\ h !! own n = Some o /\ pick o = yes n.

Lemma judged_renodes l ns ns' n : renodes l ns ns' -> judged ns n -> judged ns' n.
Proof.
  intros Hr (v & o & Hv & Ho & Hh & Hp). destruct (renodes_lookup _ _ _ _ _ Hr Hv) as [p Hv'].
  exists (set_node_next p v), o. auto.
Qed.

(** What a walk over [done ++ rest], having passed [done], leaves. *)
Definition walked (done rest chosen : list nat) (ns : node_heap) (r : list nat * wait_queue * node_heap) : Prop :=
  let '(chosen', q', ns') := r in
  exists seen left, rest = seen ++ left /\ chosen' = chosen ++ (own <$> List.filter yes seen) /\
    chain node_next ns' (wq_head q') (done ++ List.filter (fun n => negb (yes n)) seen ++ left) /\
    renodes (done ++ rest) ns ns' /\
    (forall n, n ∈ seen -> yes n = true -> exists nd, ns' !! n = Some nd /\ node_next nd = None) /\
    (length chosen <= Waking.batch_size -> length chosen' <= Waking.batch_size) /\
    (length chosen' < Waking.batch_size -> left = []).

(** A waiter unlinked, behind [done]. *)
Lemma take_node done n rest q ns v : chain node_next ns (wq_head q) (done ++ n :: rest) -> ns !! n = Some v ->
  ok (let! '(q, ns) :=
        match last done with
        | None => Ok (set_wq_head (node_next v) q, ns)
        | Some b => let! ns := store b (set_node_next (node_next v)) ns in Ok (q, ns)
        end in
      let! ns := store n (set_node_next None) ns in Ok (q, ns))
     (fun '(q', ns') => chain node_next ns' (wq_head q') (done ++ rest) /\ renodes (done ++ [n]) ns ns' /\
        exists nd, ns' !! n = Some nd /\ node_next nd = None).
Proof.
  intros Hc Hv. pose proof (chain_NoDup _ _ _ _ Hc) as Hnd.
  destruct (snoc_cases done) as [-> | (d & b & ->)]; [cbn [last] | rewrite last_snoc].
  - cbn [obind app] in *. rewrite (store_ok _ _ _ _ Hv). cbn. destruct Hc as [_ (v' & Hv' & Hc)]. assert (v' = v) as -> by congruence.
    apply NoDup_cons in Hnd as [Hn _]. split_and!; [apply lseg_insert_ne; assumption | apply renodes_store; [left | exact Hv] |].
    eexists. rewrite lookup_insert_eq. auto.
  - rewrite <- app_assoc in Hc, Hnd. cbn in Hc, Hnd.
    assert (Hb : exists vb, ns !! b = Some vb) by (eapply lseg_in_heap; [exact Hc | set_solver]). destruct Hb as [vb Hvb].
    assert (Hn : n ∉ d ++ b :: rest).
    { change (d ++ b :: n :: rest) with (d ++ [b] ++ n :: rest) in Hnd. rewrite app_assoc, <- Permutation_middle, NoDup_cons, <- app_assoc in Hnd. apply Hnd. }
    assert (Hbn : b <> n) by set_solver.
    rewrite (store_ok _ _ _ _ Hvb). cbn [obind]. rewrite (store_ok _ _ _ v) by (rewrite lookup_insert_ne; auto). cbn.
    rewrite <- app_assoc. cbn. split_and!.
    + apply lseg_insert_ne; [exact Hn |]. eapply chain_unlink; [exact Hc | exact Hv | reflexivity].
    + eapply renodes_trans; [apply (renodes_store ((d ++ [b]) ++ [n]) ns b); [set_solver | exact Hvb] |].
      apply (renodes_store ((d ++ [b]) ++ [n]) _ n); [set_solver | rewrite lookup_insert_ne; auto].
    + eexists. rewrite lookup_insert_eq. auto.
Qed.

Lemma take_where_ok fuel : forall rest done chosen q ns,
  chain node_next ns (wq_head q) (done ++ rest) -> (forall n, n ∈ rest -> judged ns n) -> length rest <= fuel ->
  ok (Waking.take_where fuel pick h (last done) (head rest) chosen q ns) (walked done rest chosen ns).
Proof.
  induction fuel as [| fuel IH]; intros [| n rest] done chosen q ns Hc Hj Hf; cbn in Hf; try lia.
  1, 2: exists [], []; cbn; rewrite !app_nil_r in *; split_and!; auto; [apply renodes_refl | intros n Hn; inversion Hn].
  cbn [Waking.take_where head]. destruct (Nat.ltb_spec (length chosen) Waking.batch_size) as [Hroom | Hfull]; cbn [negb].
  2:{ exists [], (n :: rest). cbn. rewrite app_nil_r. split_and!; auto; [apply renodes_refl | intros x Hx; inversion Hx | lia]. }
  destruct (Hj n ltac:(left)) as (v & o & Hv & Ho & Hh & Hp). rewrite (deref_ok _ _ _ Hv). cbn [obind].
  rewrite Ho, (deref_ok _ _ _ Hh). cbn [obind]. rewrite Hp.
  assert (Hnx : node_next v = head rest).
  { pose proof Hc as Hc'. apply lseg_app in Hc' as (m & _ & -> & v' & Hv' & Hc'). assert (v' = v) as -> by congruence. eapply chain_head, Hc'. }
  destruct (yes n) eqn:Ey.
  - pose proof (take_node done n rest q ns v Hc Hv) as Ht.
    match goal with |- ok (let! '(q, ns) := ?X in _) _ => destruct X as [[q1 ns1] |] end; [| destruct Ht]. cbn [obind] in Ht |- *.
    destruct (store n _ ns1) as [ns2 |]; [| destruct Ht]. cbn [obind] in Ht |- *. destruct Ht as (Hc1 & Hr1 & Hn1). rewrite Hnx.
    eapply ok_mono; [apply (IH rest done (chosen ++ [own n]) q1 ns2 Hc1) |].
    + intros x Hx. eapply judged_renodes; [exact Hr1 | apply Hj; right; exact Hx].
    + lia.
    + intros [[chosen' q'] ns'] (seen & left & -> & -> & Hc' & Hr' & Hn' & Hb' & Hl'). exists (n :: seen), left. cbn. rewrite Ey. cbn.
      assert (Hnot : n ∉ done ++ seen ++ left) by (pose proof (chain_NoDup _ _ _ _ Hc) as Hnd; rewrite <- Permutation_middle, NoDup_cons in Hnd; apply Hnd).
      split_and!; auto.
      * rewrite <- app_assoc. reflexivity.
      * eapply renodes_trans; [eapply renodes_weaken; [| exact Hr1]; set_solver | eapply renodes_weaken; [| exact Hr']; set_solver].
      * intros x Hx Hy. apply elem_of_cons in Hx as [-> | Hx]; [| apply Hn'; assumption].
        destruct Hr' as [_ Hout]. rewrite (Hout n Hnot). exact Hn1.
      * intros _. apply Hb'. rewrite length_app. cbn. lia.
  - rewrite Hnx. replace (Some n) with (last (done ++ [n])) by apply last_snoc.
    eapply ok_mono; [apply (IH rest (done ++ [n]) chosen q ns) |].
    + rewrite <- app_assoc. exact Hc.
    + intros x Hx. apply Hj. right. exact Hx.
    + lia.
    + intros [[chosen' q'] ns'] (seen & left & -> & -> & Hc' & Hr' & Hn' & Hb' & Hl'). exists (n :: seen), left. cbn. rewrite Ey. cbn.
      rewrite <- app_assoc in Hc', Hr'. cbn in Hc', Hr'. split_and!; auto. intros x Hx Hy.
      apply elem_of_cons in Hx as [-> | Hx]; [congruence | apply Hn'; assumption].
Qed.
End walk.

(** ** The whole sweep *)

Section sweep.
Context `{Config} (cx : cpu) (w : nat) (own : nat -> nat).
Implicit Types (s : kernel_state) (l ts : list nat).

(** [l] became [l'], [ts] were woken, and nobody else's mode was changed. *)
Record swept ts l l' s s' : Prop := {
  sw_running : all_running s';
  sw_lively : lively (tcbs s');
  sw_queue : queue_is w s' l';
  sw_blocks : forall t v, tcbs s !! t = Some v -> exists v', tcbs s' !! t = Some v' /\ pinned_core v' = pinned_core v /\
    kept v' = kept v /\ mode_of v' = if bool_decide (t ∈ ts) then awake else mode_of v;
  sw_nodes : forall n t, node_for s l n t -> node_for s' l' n t
}.

Lemma swept_nothing l s : all_running s -> lively (tcbs s) -> queue_is w s l -> swept [] l l s s.
Proof. intros H1 H2 H3. split; auto. intros t v Hv. exists v. auto. Qed.

Lemma swept_then ts ts' l l1 l2 s s1 s2 : swept ts l l1 s s1 -> swept ts' l1 l2 s1 s2 -> swept (ts ++ ts') l l2 s s2.
Proof.
  intros A B. split; [apply B | apply B | apply B | |].
  - intros t v Hv. destruct (sw_blocks _ _ _ _ _ A t v Hv) as (v1 & Hv1 & P1 & R1 & M1).
    destruct (sw_blocks _ _ _ _ _ B t v1 Hv1) as (v2 & Hv2 & P2 & R2 & M2). exists v2. split_and!; [exact Hv2 | congruence | congruence |].
    rewrite M2, M1. repeat case_bool_decide; auto; exfalso; set_solver.
  - intros n t Hn. apply B, A, Hn.
Qed.

Lemma stirred_swept but l l' s s' : stirred w but l l' s s' -> lively (tcbs s) ->
  but = None \/ (exists t, but = Some (t, awake)) ->
  swept (match but with Some (t, _) => [t] | None => [] end) l l' s s'.
Proof.
  intros Hs Hl Hbut. split; try apply Hs.
  - eapply moded_lively; [apply Hs | | exact Hl]. destruct Hbut as [-> | [t ->]]; discriminate.
  - intros t v Hv. destruct (moded_lookup _ _ _ _ _ (sd_moded _ _ _ _ _ _ Hs) Hv) as (v' & Hv' & Hr & Hm). exists v'.
    destruct (stirred_pinned _ _ _ _ _ _ _ _ Hs Hv') as (v0 & Hv0 & Hp). split_and!; [exact Hv' | congruence | exact Hr |].
    rewrite Hm. destruct Hbut as [-> | [u ->]]; [reflexivity |].
    destruct (decide (t = u)) as [-> | Hne]; [rewrite bool_decide_true by left; reflexivity |].
    rewrite bool_decide_false; [reflexivity |]. intros Hx. apply list_elem_of_singleton in Hx. contradiction.
Qed.

Lemma swept_calls es ts l l' s s' : swept ts l l' s s' -> swept ts l l' s (set_calls es s').
Proof.
  intros [[R1 R2] L1 [(q & Hq & Hr) Ha] B1 N1]. split; auto.
  - split; [exact R1 |]. intros d Hd. destruct (R2 d Hd) as (sc & L & Hs & prev & I & [J1 J2 J3 J4 J5]).
    exists sc, L, Hs, prev, I. split; assumption.
  - split; [exists q; split; assumption | exact Ha].
  - intros n t Hn. destruct (N1 n t Hn) as [X Y]. split; [exact X | exact Y].
Qed.

Lemma swept_policy policy hint ts l l' s s' : swept ts l l' s s' ->
  wp (Switch.apply_reschedule_policy cx policy hint) (fun _ s2 => swept ts l l' s s2) s'.
Proof.
  intros Hs. assert (E : s' = set_calls (calls s') s') by (destruct s'; reflexivity).
  unfold Switch.apply_reschedule_policy. destruct (_ || _); [apply wp_ret, Hs |].
  destruct (_ || _); [apply wp_emit, swept_calls, Hs | apply wp_ret, Hs].
Qed.

(** Threads that a sweep may wake. *)
Definition wakeable s ts : Prop := forall t, t ∈ ts -> exists v, tcbs s !! t = Some v /\ pinned_core v < cores.

Lemma swept_wakeable ts ts' l l' s s' : swept ts' l l' s s' -> wakeable s ts -> wakeable s' ts.
Proof.
  intros Hs Hw t Ht. destruct (Hw t Ht) as (v & Hv & Hp). destruct (sw_blocks _ _ _ _ _ Hs t v Hv) as (v' & Hv' & E & _).
  exists v'. rewrite E. auto.
Qed.

Lemma ready_each_ok ts : forall agg s l, all_running s -> lively (tcbs s) -> queue_is w s l -> wakeable s ts ->
  wp (Waking.ready_each cx ts agg) (fun _ s' => swept ts l l s s') s.
Proof.
  induction ts as [| t ts IH]; intros agg s l Hall Hl Hq Hw; cbn [Waking.ready_each]; [apply wp_ret, swept_nothing; assumption |].
  destruct (Hw t ltac:(left)) as (v & Hv & Hp). wp_step. unfold wp at 1. rewrite global_ready_thread_never_eq.
  pose proof (wake_quietly cx s t v ReschedulePolicy.never Hall Hl Hv Hp) as Hok. unfold wp in Hok.
  destruct (Switch.global_ready_thread _ _ _ _) as [[hint s1] |]; [| exact Hok].
  pose proof (stirred_swept _ _ _ _ _ (quietly_stirred w _ _ _ _ _ Hok Hq) Hl ltac:(eauto)) as Hs1. cbn in Hs1.
  eapply wp_mono; [apply (IH _ s1 l); try apply Hs1; eapply swept_wakeable; [exact Hs1 | intros x Hx; apply Hw; right; exact Hx] |].
  intros ? s2 Hs2. exact (swept_then [t] ts _ _ _ _ _ _ Hs1 Hs2).
Qed.

Lemma StronglySorted_thin {A} (R : A -> A -> Prop) f (l1 l2 : list A) :
  StronglySorted R (l1 ++ l2) -> StronglySorted R (List.filter f l1 ++ l2).
Proof.
  induction l1 as [| x l1 IH]; cbn; intros Hs; [exact Hs |]. inversion Hs; subst. destruct (f x); cbn; [constructor |]; auto.
  apply Forall_app. match goal with H : Forall _ _ |- _ => apply Forall_app in H as [F1 F2] end. split; [| exact F2].
  apply Forall_forall. intros y Hy. apply list_elem_of_In, filter_In in Hy as [Hy _].
  exact (proj1 (Forall_forall _ _) F1 y (proj2 (list_elem_of_In _ _) Hy)).
Qed.

Section batches.
Context (pick : thread_control_block -> bool) (yes : nat -> bool).
Context (Hpick : forall v v', wait_record v = wait_record v' -> pick v = pick v').
Local Abbreviation no := (fun n => negb (yes n)).

(** The queue's nodes are [own]'s, and [yes] is what the pick answers. *)
Definition owned s l : Prop := forall n, n ∈ l ->
  exists nd v, nodes s !! n = Some nd /\ node_owner nd = own n /\ tcbs s !! own n = Some v /\ pinned_core v < cores /\ pick v = yes n.

Lemma swept_owned ts l l' s s' : swept ts l l' s s' -> queue_is w s l -> l' ⊆ l -> owned s l -> owned s' l'.
Proof.
  intros Hs Hq Hsub Ho n Hn. destruct (Ho n (Hsub n Hn)) as (nd & v & Hnd & Hown & Hv & Hp & Hy).
  destruct (sw_nodes _ _ _ _ _ Hs n (own n)) as [_ (nd' & Hnd' & Hown' & _)].
  { split; [apply Hq, Hsub, Hn | exists nd; split_and!; auto; intros Hx; destruct (Hx (Hsub n Hn))]. }
  destruct (sw_blocks _ _ _ _ _ Hs _ v Hv) as (v' & Hv' & Hp' & Hr' & _).
  exists nd', v'. split_and!; auto; [congruence |]. rewrite <- Hy. apply Hpick. injection Hr'. auto.
Qed.

Lemma thinned seen left : List.filter no seen ++ left ⊆ seen ++ left.
Proof.
  intros x Hx. apply elem_of_app in Hx as [Hx | Hx]; apply elem_of_app; [left | right; exact Hx].
  apply list_elem_of_In, filter_In in Hx as [Hx _]. apply list_elem_of_In, Hx.
Qed.

(** One walk's unlinking, in the kernel. *)
Lemma walk_ok s l : all_running s -> lively (tcbs s) -> queue_is w s l -> owned s l ->
  exists q seen left q' ns', Waking.read_queue (Waking.of_waitable w) s = Ok ((q, None), s) /\
    Waking.take_where (S (size (nodes s))) pick (tcbs s) None (wq_head q) [] q (nodes s) =
      Ok (own <$> List.filter yes seen, q', ns') /\ l = seen ++ left /\
    length (List.filter yes seen) <= Waking.batch_size /\ (length (List.filter yes seen) < Waking.batch_size -> left = []) /\
    swept [] l (List.filter no seen ++ left) s (set_waitables (<[w := q']> (waitables s)) (set_nodes ns' s)).
Proof.
  intros Hall Hl Hq Ho. pose proof Hq as [(q & Hw & Hr) Ha]. pose proof (WaitQueue.wr_chain _ _ _ _ Hr) as Hc.
  assert (Ew : Waking.take_where (S (size (nodes s))) pick (tcbs s) None (wq_head q) [] q (nodes s) =
    Waking.take_where (S (size (nodes s))) pick (tcbs s) (last []) (head l) [] q (nodes s)) by (rewrite (chain_head _ _ _ _ Hc); reflexivity).
  pose proof (take_where_ok pick (tcbs s) own yes (S (size (nodes s))) l [] [] q (nodes s)) as Ht.
  destruct (Waking.take_where _ _ _ (last []) (head l) _ _ _) as [[[chosen q'] ns'] |] eqn:E.
  2:{ destruct Ht; [exact Hc | | pose proof (chain_length _ _ _ _ Hc); lia].
      intros n Hn. destruct (Ho n Hn) as (nd & v & H1 & H2 & H3 & _ & H4). exists nd, v. auto. }
  destruct Ht as (seen & left & El & Ech & Hc' & Hre & Hn' & Hb & Hleft); [exact Hc | | pose proof (chain_length _ _ _ _ Hc); lia |].
  { intros n Hn. destruct (Ho n Hn) as (nd & v & H1 & H2 & H3 & _ & H4). exists nd, v. auto. }
  cbn in Ech, Hc', Hre. rewrite Ech in Hb, Hleft. rewrite length_fmap in Hb, Hleft.
  exists q, seen, left, q', ns'. split_and!; [cbn; unfold kbind, get_waitable; rewrite Hw; reflexivity | rewrite Ew, Ech; reflexivity
    | exact El | apply Hb; cbn; lia | exact Hleft |].
  set (s1 := set_waitables _ _). assert (Hreq : requeued w q' l s s1) by (split; auto).
  pose proof (thinned seen left) as Hsub. rewrite <- El in Hsub.
  assert (Hq1 : queue_is w s1 (List.filter no seen ++ left)).
  { eapply requeued_queue; [exact Hreq | exact Hall | exact Ha | exact Hsub |].
    eapply repr_intro; [exact Hre | exact Hc' | intros n Hn; apply Hr, Hsub, Hn |].
    apply StronglySorted_thin. rewrite <- El. apply (WaitQueue.wr_sorted _ _ _ _ Hr). }
  apply (stirred_swept None); [| exact Hl | left; reflexivity].
  eapply requeued_stirred; [exact Hreq | exact Hall | exact Ha | exact Hq1 | | intros x H1 _; exact H1].
  intros x Hx Hx'. rewrite El in Hx. apply elem_of_app in Hx as [Hx | Hx]; [| destruct Hx'; apply elem_of_app; auto].
  apply Hn'; [exact Hx |]. destruct (yes x) eqn:Ey; [reflexivity |]. destruct Hx'. apply elem_of_app. left.
  apply list_elem_of_In, filter_In. split; [apply list_elem_of_In, Hx | rewrite Ey; reflexivity].
Qed.

Lemma filter_thin_yes seen left : List.filter yes (List.filter no seen ++ left) = List.filter yes left.
Proof. induction seen as [| x seen IH]; cbn; [reflexivity |]. destruct (yes x) eqn:E; cbn; [| rewrite E]; exact IH. Qed.

Lemma filter_thin_no seen left : List.filter no (List.filter no seen ++ left) = List.filter no (seen ++ left).
Proof. induction seen as [| x seen IH]; cbn; [reflexivity |]. destruct (yes x) eqn:E; cbn; [| rewrite E; cbn; f_equal]; exact IH. Qed.

Lemma filter_lengths seen : length (List.filter yes seen) + length (List.filter no seen) = length seen.
Proof. induction seen as [| x seen IH]; cbn; [reflexivity |]. destruct (yes x); cbn; lia. Qed.

Lemma batches_ok fuel : forall agg s l, all_running s -> lively (tcbs s) -> queue_is w s l -> owned s l -> length l < fuel ->
  wp (Waking.batches cx fuel (Waking.of_waitable w) pick agg) (fun _ s' => swept (own <$> List.filter yes l) l (List.filter no l) s s') s.
Proof.
  induction fuel as [| fuel IH]; intros agg s l Hall Hl Hq Ho Hf; [lia |]. cbn [Waking.batches].
  destruct (walk_ok s l Hall Hl Hq Ho) as (q & seen & left & q' & ns' & Er & Et & El & Hb & Hleft & Hs1).
  set (s1 := set_waitables _ _) in Hs1. set (l1 := List.filter no seen ++ left) in Hs1.
  wp_step. unfold wp at 1. rewrite Er. do 4 wp_step. wp_step. wp_step. rewrite Et. cbn [ok]. do 2 wp_step. cbn [Waking.write_queue].
  pose proof Hq as [(q0 & Hw & _) _]. wp_step. eapply wp_modify_waitable; [exact Hw |]. fold s1. wp_step.
  assert (Hsub : l1 ⊆ l) by (rewrite El; apply thinned).
  assert (Hwk : wakeable s1 (own <$> List.filter yes seen)).
  { refine (swept_wakeable _ _ _ _ _ _ Hs1 _). intros t Ht. apply list_elem_of_fmap in Ht as (n & -> & Hn).
    apply list_elem_of_In, filter_In in Hn as [Hn _]. destruct (Ho n) as (nd & v & _ & _ & Hv & Hp & _); [rewrite El; apply elem_of_app; left; apply list_elem_of_In, Hn | eauto]. }
  eapply wp_mono; [apply (ready_each_ok _ agg s1 l1); [apply Hs1 | apply Hs1 | apply Hs1 | exact Hwk] |].
  intros agg' s2 Hs2. pose proof (swept_then [] _ _ _ _ _ _ _ Hs1 Hs2) as Hs12. cbn [app] in Hs12.
  assert (Eyes : own <$> List.filter yes l = (own <$> List.filter yes seen) ++ (own <$> List.filter yes l1))
    by (unfold l1; rewrite filter_thin_yes, El, List.filter_app, fmap_app; reflexivity).
  assert (Eno : List.filter no l = List.filter no l1) by (unfold l1; rewrite filter_thin_no, El; reflexivity).
  rewrite length_fmap. destruct (Nat.eqb_spec (length (List.filter yes seen)) Waking.batch_size) as [Efull | Hshort].
  - eapply wp_mono; [apply (IH agg' s2 l1); [apply Hs2 | apply Hs2 | apply Hs2 | exact (swept_owned _ _ _ _ _ Hs12 Hq Hsub Ho) |] |].
    + unfold l1. rewrite length_app. rewrite El, length_app in Hf. pose proof (filter_lengths seen). unfold Waking.batch_size in Efull. lia.
    + intros ? s3 Hs3. rewrite Eyes, Eno. exact (swept_then _ _ _ _ _ _ _ _ Hs12 Hs3).
  - wp_step. assert (left = []) as -> by (apply Hleft; lia). rewrite app_nil_r in El. subst l1. rewrite app_nil_r, <- El in *. exact Hs12.
Qed.

Lemma wake_all_where_ok policy s l : all_running s -> lively (tcbs s) -> queue_is w s l -> owned s l ->
  wp (Waking.wake_all_where cx (Waking.of_waitable w) pick policy)
    (fun _ s' => swept (own <$> List.filter yes l) l (List.filter no l) s s') s.
Proof.
  intros Hall Hl Hq Ho. unfold Waking.wake_all_where. do 3 wp_step. pose proof Hq as [(q & _ & Hr) _].
  eapply wp_mono; [apply (batches_ok (S (size (nodes s))) _ s l Hall Hl Hq Ho) |].
  - pose proof (chain_length _ _ _ _ (WaitQueue.wr_chain _ _ _ _ Hr)). lia.
  - intros hint s' Hs. apply swept_policy, Hs.
Qed.
End batches.
End sweep.
