(* ===== verification/SyncProofs.v ===== *)
(** * The handoff semaphore, condition variables and event flags

    A token released is handed over or counted.  A wait on a condition variable
    is queued before its first poll gives the mutex up, and ends only when a
    disarm finds that a notify took its node.  A request for event flags is what
    its bits say, and a set wakes whom it satisfies. *)

From S2P Require Import Prelude Chain State ReadyQueue ReadyQueueProofs WaitQueue WaitQueueProofs Urgency UrgencyProofs Scheduler SchedulerSpec Local SchedulerProofs Switch Waking Waits Mutex Sync Cores ExitProofs MutexProofs MutexOps Modes WaitingProofs SweepProofs.
(** ** The handoff semaphore *)

Section handoff.
Context `{Config} `{SizeT} (cx : cpu) (w : nat) (own : nat -> nat).
Local Abbreviation queue := (Waking.of_waitable w).
Implicit Types (wd : world Z bool) (s : kernel_state) (l : list nat) (n : nat).

(** The waiters: whose each node is, on a core there is, of a thread that was
    started. *)
Definition handable s l : Prop := forall x, x ∈ l -> node_for s l x (own x) /\
  exists v, tcbs s !! own x = Some v /\ pinned_core v < cores /\ thread_id v <> 0%Z.

(** What a release has done so far: [ts] woken, [l'] left, [k] counted. *)
Record handed ts l l' (k : Z) wd wd' : Prop := {
  ha_kernel : swept w ts l l' (kernel wd) (kernel wd');
  ha_object : object wd' = k;
  ha_records : records wd' = records wd;
  ha_handable : handable (kernel wd') l'
}.

Lemma handed_then ts ts' l l1 l2 k k' wd wd1 wd2 : handed ts l l1 k wd wd1 -> handed ts' l1 l2 k' wd1 wd2 ->
  handed (ts ++ ts') l l2 k' wd wd2.
Proof. intros [A1 A2 A3 A4] [B1 B2 B3 B4]. split; [eapply swept_then; eassumption | exact B2 | congruence | exact B4]. Qed.

Lemma usize_add z n m : usize (usize (z + Z.of_nat n) + Z.of_nat m) = usize (z + Z.of_nat (n + m)).
Proof. unfold usize, wrap. rewrite Zplus_mod_idemp_l. f_equal. lia. Qed.

Lemma usize_nothing z : (0 <= z < 2 ^ size_width)%Z -> usize (z + Z.of_nat 0) = z.
Proof. intros Hz. rewrite Z.add_0_r. apply wrap_small, Hz. Qed.

(** A kernel with the waiters [l]. *)
Record ready_for l wd : Prop := {
  rf_running : all_running (kernel wd);
  rf_lively : lively (tcbs (kernel wd));
  rf_queue : queue_is w (kernel wd) l;
  rf_handable : handable (kernel wd) l;
  rf_object : (0 <= object wd < 2 ^ size_width)%Z
}.

Lemma handed_ready ts l l' k wd wd' : handed ts l l' k wd wd' -> (0 <= k < 2 ^ size_width)%Z -> ready_for l' wd'.
Proof. intros [A1 A2 A3 A4] Hk. split; try apply A1; [exact A4 | rewrite A2; exact Hk]. Qed.

Lemma usize_range z : (0 <= usize z < 2 ^ size_width)%Z.
Proof. apply wrap_range. exact (Z.lt_le_incl _ _ size_width_pos). Qed.

(** Nobody waits: the token is counted. *)
Lemma hand_over_counts wd : ready_for [] wd ->
  wp (HandoffSemaphore.hand_over cx queue) (fun _ wd' => handed [] [] [] (usize (object wd + Z.of_nat 1)) wd wd') wd.
Proof.
  intros [R1 R2 R3 R4 R5]. unfold HandoffSemaphore.hand_over. wp_step. apply wp_in_kernel.
  eapply wp_mono; [apply (pop_nobody w (kernel wd) [] R1 R3 eq_refl) |]. intros r s' (-> & [q Hr] & Hq').
  unfold Tokens.fetch_add. apply wp_atomically. split; cbn; [| reflexivity | reflexivity | intros x Hx; inversion Hx].
  apply (stirred_swept w None); [| exact R2 | left; reflexivity].
  eapply requeued_stirred; [exact Hr | exact R1 | intros x Hx; inversion Hx | exact Hq' | intros x Hx; inversion Hx | auto].
Qed.

(** Somebody does: the first is given it, and the count stays. *)
Lemma hand_over_first x l wd : ready_for (x :: l) wd ->
  wp (HandoffSemaphore.hand_over cx queue) (fun _ wd' => handed [own x] (x :: l) l (object wd) wd wd') wd.
Proof.
  intros [R1 R2 R3 R4 R5]. destruct (R4 x ltac:(left)) as ([Hun (nd & Hnd & Ho & Hnx)] & v & Hv & Hp & Hid).
  unfold HandoffSemaphore.hand_over. wp_step. apply wp_in_kernel.
  eapply wp_mono; [apply (pop_queue w (kernel wd) (x :: l) R1 R3 x l (own x) eq_refl); eauto |].
  intros r s1 (-> & [q Hr] & Hq1 & Hn1).
  assert (Hs1 : stirred w None (x :: l) l (kernel wd) s1).
  { eapply requeued_stirred; [exact Hr | exact R1 | | exact Hq1 | |].
    - intros y Hy. apply list_elem_of_singleton in Hy as ->. exact Hun.
    - intros y Hy _. apply list_elem_of_singleton in Hy as ->. exact Hn1.
    - intros y Hy Hy' Hy2. apply elem_of_cons in Hy2 as [-> | Hy2]; [apply Hy; left | contradiction]. }
  assert (Hl1 : lively (tcbs s1)) by (rewrite (rq_tcbs _ _ _ _ _ Hr); exact R2).
  assert (Hv1 : tcbs s1 !! own x = Some v) by (rewrite (rq_tcbs _ _ _ _ _ Hr); exact Hv).
  wp_step. apply wp_in_kernel. eapply wp_get_tcb; [exact Hv1 |]. wp_step.
  wp_step; [apply negb_true_iff, Z.eqb_neq, Hid |]. apply wp_in_kernel. wp_step. cbn [kernel].
  eapply wp_mono; [apply (wake_quietly cx s1 (own x) v ReschedulePolicy.automatic (sd_running _ _ _ _ _ _ Hs1) Hl1 Hv1 Hp) |].
  intros hint s2 Hq2. pose proof (quietly_stirred _ _ _ _ _ _ Hq2 Hq1) as Hs2.
  pose proof (stirred_swept w _ _ _ _ _ (stirred_then _ _ _ _ _ _ _ _ Hs1 Hs2) R2 ltac:(eauto)) as Hsw. cbn in Hsw.
  eapply wp_mono; [apply (swept_policy cx w ReschedulePolicy.automatic hint _ _ _ _ _ Hsw) |].
  intros ? s3 Hs3. split; cbn; [exact Hs3 | reflexivity | reflexivity |].
  intros y Hy. destruct (R4 y ltac:(right; exact Hy)) as (Hny & vy & Hvy & Hpy & Hidy).
  split; [apply (sw_nodes _ _ _ _ _ _ Hs3), Hny |]. destruct (sw_blocks _ _ _ _ _ _ Hs3 _ vy Hvy) as (v' & Hv' & Ep & Ek & _).
  exists v'. injection Ek as _ Eid. split_and!; congruence.
Qed.

Lemma hand_over_each_ok n : forall l wd, ready_for l wd ->
  wp (HandoffSemaphore.hand_over_each cx queue n)
    (fun _ wd' => handed (own <$> take n l) l (drop n l) (usize (object wd + Z.of_nat (n - length l))) wd wd') wd.
Proof.
  induction n as [| n IH]; intros l wd Hw; cbn [HandoffSemaphore.hand_over_each].
  - pose proof Hw as [R1 R2 R3 R4 R5]. wp_step. cbn [Nat.sub]. rewrite usize_nothing, take_0, drop_0 by exact R5.
    split; auto. apply swept_nothing; assumption.
  - wp_step. destruct l as [| x l].
    + eapply wp_mono; [apply hand_over_counts, Hw |]. intros ? wd1 H1. pose proof (handed_ready _ _ _ _ _ _ H1 (usize_range _)) as Hw1.
      eapply wp_mono; [apply (IH [] wd1 Hw1) |]. intros ? wd2 H2. rewrite (ha_object _ _ _ _ _ _ H1), usize_add in H2.
      cbn [length] in H2 |- *. rewrite Nat.sub_0_r in H2. rewrite take_nil, drop_nil in H2. exact (handed_then _ _ _ _ _ _ _ _ _ _ H1 H2).
    + eapply wp_mono; [apply hand_over_first, Hw |]. intros ? wd1 H1. pose proof (handed_ready _ _ _ _ _ _ H1 (rf_object _ _ Hw)) as Hw1.
      eapply wp_mono; [apply (IH l wd1 Hw1) |]. intros ? wd2 H2. rewrite (ha_object _ _ _ _ _ _ H1) in H2.
      exact (handed_then [own x] _ _ _ _ _ _ _ _ _ H1 H2).
Qed.

Lemma may_have_waiters_ok l wd : ready_for l wd ->
  wp (Waits.may_have_waiters queue) (fun b wd' => b = negb (bool_decide (l = [])) /\ wd' = wd) wd.
Proof.
  intros [R1 R2 R3 R4 R5]. unfold Waits.may_have_waiters. wp_step. apply wp_in_kernel.
  destruct (read_queue_ok w (kernel wd) l R3) as (q & Er & Ee). unfold wp at 1. rewrite Er, set_kernel_same. repeat wp_step. rewrite Ee. auto.
Qed.
End handoff.

(** ** Condition variables *)

Section condition.
Context `{Config} (cx : cpu) (w : nat) (own rec : nat -> nat).
Local Abbreviation queue := (Waking.of_waitable w).
Implicit Types (wd : world unit ConditionVariable.waiter_state) (s : kernel_state) (l : list nat).

(** The loop of [wake_all]: everybody, in queue order. *)
Lemma wake_each_ok l : forall fuel agg s, all_running s -> lively (tcbs s) -> queue_is w s l -> handable own s l -> length l < fuel ->
  wp (Waking.wake_each cx fuel queue agg) (fun _ s' => swept w (own <$> l) l [] s s') s.
Proof.
  induction l as [| x l IH]; intros fuel agg s Hall Hl Hq Hh Hf; (destruct fuel as [| fuel]; [cbn in Hf; lia |]); cbn [Waking.wake_each]; wp_step.
  - eapply wp_mono; [apply (pop_nobody w s [] Hall Hq eq_refl) |]. intros r s' (-> & [q Hr] & Hq'). apply wp_ret.
    apply (stirred_swept w None); [| exact Hl | auto].
    eapply requeued_stirred; [exact Hr | exact Hall | intros y Hy; inversion Hy | exact Hq' | intros y Hy; inversion Hy | auto].
  - destruct (Hh x ltac:(left)) as (Hn & v & Hv & Hp & _).
    eapply wp_mono; [apply (pop_first w s (x :: l) Hall Hq x l (own x) eq_refl Hn) |]. intros r s1 (-> & Hs1 & Et).
    pose proof (stirred_swept w None _ _ _ _ Hs1 Hl ltac:(auto)) as Hw1. cbn in Hw1.
    assert (Hready : wakeable s1 [own x]) by (intros t Ht; apply list_elem_of_singleton in Ht as ->; rewrite Et; eauto).
    assert (Hone : wp (Waking.ready_each cx [own x] agg) (fun _ s2 => swept w [own x] l l s1 s2) s1)
      by (apply (ready_each_ok cx w own); [apply Hw1 | apply Hw1 | apply Hw1 | exact Hready]).
    cbn [Waking.ready_each] in Hone. wp_step.
    destruct (wp_elim _ _ _ Hone) as (a & s2 & E & Hw2). unfold kbind in E. unfold wp.
    destruct (Switch.global_ready_thread_never cx (own x) s1) as [[hint s2'] |]; [| discriminate]. injection E as _ ->.
    assert (Hw : swept w [own x] (x :: l) l s s2) by (apply (swept_then w own [] [own x] (x :: l) l l s s1 s2); assumption).
    assert (Hh2 : handable own s2 l).
    { intros y Hy. destruct (Hh y ltac:(right; exact Hy)) as (Hny & vy & Hvy & Hpy & Hid). split; [apply (sw_nodes _ _ _ _ _ _ Hw), Hny |].
      destruct (sw_blocks _ _ _ _ _ _ Hw (own y) vy Hvy) as (v' & Hv' & Ep & Ek & _). exists v'.
      split_and!; [exact Hv' | rewrite Ep; exact Hpy |]. unfold kept in Ek. congruence. }
    eapply wp_mono; [apply (IH fuel _ s2); try apply Hw; [exact Hh2 | cbn in Hf; lia] |].
    intros ? s3 Hw3. exact (swept_then w own [own x] (own <$> l) (x :: l) l [] s s2 s3 Hw Hw3).
Qed.

(** ** The waits on a condition variable *)

Definition frame (y : nat) : Waits.wait_frame := Waits.WaitFrame (own y) queue None (Some (rec y)) y y.

(** [l] waits: each has given its mutex up, and no notify has come to it. *)
Record awaited l wd : Prop := {
  aw_running : all_running (kernel wd);
  aw_lively : lively (tcbs (kernel wd));
  aw_queue : queue_is w (kernel wd) l;
  aw_handable : handable own (kernel wd) l;
  aw_records : forall y, y ∈ l -> exists m, records wd !! rec y = Some (WaiterRecord queue (own y) false (ConditionVariable.Waiter m true))
}.

(** Whoever's turn comes, its wait ends just when it is off the queue;
    otherwise it is taken off it and goes round once more. *)
Definition ends_just_off (l l' : list nat) wd : Prop := forall cy y, y ∈ l ->
  wp (Waits.pass_end (Waitable0 := ConditionVariable.poll cy) cy (frame y) false)
    (fun ans wd' => ans = (if bool_decide (y ∈ l') then None else Some true) /\
       stirred w None l' (filter (fun x => x <> y) l') (kernel wd) (kernel wd')) wd.

Lemma pass_end_answers l l' wd wd' : awaited l wd -> records wd' = records wd -> all_running (kernel wd') -> lively (tcbs (kernel wd')) ->
  queue_is w (kernel wd') l' -> ends_just_off l l' wd'.
Proof.
  intros Hw Er Hall Hl Hq cy y Hy. destruct (aw_records _ _ Hw y Hy) as (m & Hrec). rewrite <- Er in Hrec.
  unfold Waits.pass_end, Waits.disarm, frame. cbn [Waits.fr_queue Waits.fr_node Waits.fr_cancel Waits.fr_record].
  apply wp_bind, wp_bind, wp_in_kernel. eapply wp_mono; [apply (disarm_stirred w (kernel wd') l' Hall Hq y) |].
  intros b s2 [-> Hs2]. apply wp_bind, wp_ret, wp_bind. unfold Waits.repoll. cbn [Waits.fr_queue Waits.fr_record Waits.fr_cancel].
  case_bool_decide as Hin; cbn [negb].
  - apply wp_ret, wp_ret, wp_bind. unfold try_satisfy, ConditionVariable.poll. apply wp_bind, wp_lift. cbn [nonnull ok].
    apply wp_bind. eapply wp_get_record; [exact Hrec |]. cbn [waiter ConditionVariable.released]. apply wp_bind, wp_ret.
    unfold Waits.chosen. apply wp_bind. eapply wp_get_record; [exact Hrec |]. apply wp_ret. cbn. apply wp_ret. auto.
  - eapply wp_modify_record; [exact Hrec |]. apply wp_ret, wp_bind. unfold try_satisfy, ConditionVariable.poll. apply wp_bind, wp_lift. cbn [nonnull ok].
    apply wp_bind. eapply wp_get_record; [apply lookup_insert_eq |]. cbn [waiter set_chosen_by_wake ConditionVariable.released]. apply wp_bind, wp_ret.
    unfold Waits.chosen. apply wp_bind. eapply wp_get_record; [apply lookup_insert_eq |]. apply wp_ret. cbn. apply wp_ret. auto.
Qed.

(** ** The notifies *)

(** [n] waiters woken, in queue order. *)
Record notified (n : nat) l wd wd' : Prop := {
  no_kernel : swept w (own <$> take n l) l (drop n l) (kernel wd) (kernel wd');
  no_records : records wd' = records wd
}.

Lemma notified_ends n l wd wd' : awaited l wd -> notified n l wd wd' -> ends_just_off l (drop n l) wd'.
Proof. intros Hw [Hs Er]. eapply pass_end_answers; [exact Hw | exact Er | apply Hs | apply Hs | apply Hs]. Qed.

Lemma notify_one_ok l wd : awaited l wd -> wp (ConditionVariable.notify_one cx queue) (fun _ => notified 1 l wd) wd.
Proof.
  intros [R1 R2 R3 R4 _]. apply wp_in_kernel. destruct l as [| x l].
  - eapply wp_mono; [apply (wake_nobody w cx (kernel wd) [] R1 R3 ReschedulePolicy.automatic eq_refl) |]. intros ? s Hs.
    split; [| reflexivity]. apply (stirred_swept w None); [exact Hs | exact R2 | auto].
  - destruct (R4 x ltac:(left)) as (Hn & v & Hv & Hp & _).
    eapply wp_mono; [apply (wake_first w cx (kernel wd) (x :: l) R1 R3 R2 ReschedulePolicy.automatic x l (own x) v eq_refl Hn Hv Hp) |].
    intros ? s Hs. split; [| reflexivity]. cbn. rewrite take_0, drop_0. apply (stirred_swept w (Some (own x, awake))); [exact Hs | exact R2 | eauto].
Qed.

Lemma notify_all_ok l wd : awaited l wd -> wp (ConditionVariable.notify_all cx queue) (fun _ => notified (length l) l wd) wd.
Proof.
  intros [R1 R2 R3 R4 _]. apply wp_in_kernel. unfold Waking.wake_all. apply wp_bind, wp_get, wp_bind.
  assert (Hlen : length l < S (size (nodes (kernel wd)))).
  { destruct R3 as [(q & _ & Hr) _]. pose proof (chain_length _ _ _ _ (WaitQueue.wr_chain _ _ _ _ Hr)). lia. }
  eapply wp_mono; [apply (wake_each_ok l _ _ (kernel wd) R1 R2 R3 R4 Hlen) |]. intros hint s Hs.
  eapply wp_mono; [apply (swept_policy cx w), Hs |]. intros ? s' Hs'. split; [| reflexivity].
  rewrite firstn_all, drop_all. exact Hs'.
Qed.
End condition.

(** ** Event flags *)

(** ** A request against the flags, bit by bit *)

Section bits.
Local Open Scope Z_scope.
Implicit Types (r : EventFlags.request) (flags i : Z).

(** What [satisfied_by] means. *)
Definition meets r flags : Prop :=
  match EventFlags.match_ r with
  | EventFlags.any => exists i, 0 <= i /\ Z.testbit (EventFlags.mask r) i = true /\ Z.testbit flags i = true
  | EventFlags.all => forall i, 0 <= i -> Z.testbit (EventFlags.mask r) i = true -> Z.testbit flags i = true
  end.

Lemma nonzero_bit z : 0 <= z -> z <> 0 <-> exists i, 0 <= i /\ Z.testbit z i = true.
Proof.
  intros Hz. split.
  - intros Hne. exists (Z.log2 z). split; [apply Z.log2_nonneg | apply Z.bit_log2; lia].
  - intros (i & _ & Hi) ->. rewrite Z.bits_0 in Hi. discriminate.
Qed.

Lemma satisfied_meets r flags : 0 <= flags -> EventFlags.satisfied_by r flags = true <-> meets r flags.
Proof.
  intros Hf. unfold EventFlags.satisfied_by, meets. destruct (EventFlags.match_ r).
  - rewrite negb_true_iff, Z.eqb_neq, nonzero_bit by (apply Z.land_nonneg; auto).
    split; intros (i & Hi & Hb); exists i; rewrite Z.land_spec in *; rewrite andb_true_iff in *; tauto.
  - rewrite Z.eqb_eq. split.
    + intros E i Hi Hb. rewrite <- E, Z.land_spec, andb_true_iff in Hb. apply Hb.
    + intros Hall. apply Z.bits_inj'. intros i Hi. rewrite Z.land_spec. specialize (Hall i Hi).
      destruct (Z.testbit (EventFlags.mask r) i); [rewrite Hall | rewrite andb_false_r]; reflexivity.
Qed.

(** The bits of a 32-bit complement. *)
Lemma wrap_lnot_bit z i : 0 <= i -> Z.testbit (wrap 32 (Z.lnot z)) i = bool_decide (i < 32) && negb (Z.testbit z i).
Proof.
  intros Hi. unfold wrap. case_bool_decide as Hlt.
  - rewrite Z.mod_pow2_bits_low, Z.lnot_spec by lia. reflexivity.
  - rewrite Z.mod_pow2_bits_high by lia. reflexivity.
Qed.

Lemma below_bit z i : 0 <= z < 2 ^ 32 -> 32 <= i -> Z.testbit z i = false.
Proof.
  intros Hz Hi. destruct (Z.eq_dec z 0) as [-> | Hne]; [apply Z.bits_0 |]. apply Z.bits_above_log2; [lia |].
  apply Z.log2_lt_pow2; [lia |]. eapply Z.lt_le_trans; [apply Hz | apply Z.pow_le_mono_r; lia].
Qed.

Lemma land_below a b : 0 <= a < 2 ^ 32 -> 0 <= b -> 0 <= Z.land a b < 2 ^ 32.
Proof.
  intros Ha Hb. assert (Hn : 0 <= Z.land a b) by (apply Z.land_nonneg; lia). split; [exact Hn |].
  destruct (Z.eq_dec (Z.land a b) 0) as [-> | Hne]; [lia |]. apply Z.log2_lt_pow2; [lia |].
  assert (a <> 0) by (intros ->; rewrite Z.land_0_l in Hne; contradiction).
  assert (Z.log2 a < 32) by (apply Z.log2_lt_pow2; lia). pose proof (Z.log2_land a b). lia.
Qed.
End bits.

(** ** Setting flags *)

Section set.
Context `{Config} (cx : cpu) (w : nat) (own : nat -> nat).

(** Whether the waiter at node [n] asked for flags that hold once [m] are in. *)
Definition asked (wd : world Z EventFlags.request) (m : Z) (n : nat) : bool :=
  match tcbs (kernel wd) !! own n with
  | Some v => EventFlags.wants_of (Waking.of_waitable w) (records wd) (Z.lor (object wd) m) v
  | None => false
  end.
End set.
