(* ===== verification/SemaphoreSpec.v ===== *)
(** * What a semaphore promises: no wake is lost

    The system of [SemaphoreSystem] with the kernel reduced to what a wait
    reads of it: the waiters in queue order and each thread's mode.  [sane]
    is what every step keeps; its last clause counts, against the tokens, the
    wakes still to come: those a release has to make, and the polls that
    threads taken off the queue have to make. *)

From S2P Require Import Prelude Chain State ReadyQueue WaitQueue Urgency Scheduler SchedulerSpec Switch Waking Waits Mutex Sync Modes SemaphoreSystem.
Import SemaphoreSystem.

Module SemaphoreSpec.
Record spec := Spec {
  tokens : Z;
  waiters : list nat;
  stands : nat -> mode;
  at_ : agent -> point
}.

Definition upd (t : nat) (m : mode) (f : nat -> mode) : nat -> mode := fun x => if decide (x = t) then m else f x.

(** A wake, of the first waiter if there is one. *)
Definition woken (q : list nat) (m : nat -> mode) : list nat * (nat -> mode) :=
  match q with [] => ([], m) | u :: q => (q, upd u awake m) end.

Section actions.
Context `{SizeT}.

(** What agent [a] at point [p] does to the tokens, the queue and the modes,
    and where that takes it. *)
Inductive does (a : agent) : point -> Z * list nat * (nat -> mode) -> point -> Z * list nat * (nat -> mode) -> Prop :=
  | do_take k q m : (0 < k)%Z -> does a acquiring (k, q, m) outside ((k - 1)%Z, q, m)
  | do_miss k q m : (k <= 0)%Z -> does a acquiring (k, q, m) entering (k, q, m)
  | do_enter k q m : does a entering (k, q, m) preparing (k, q, m)
  | do_prepare t md k q m : a = thread t -> md = awake \/ md = going -> does a preparing (k, q, m) arming (k, q, upd t md m)
  | do_arm t k q q' m : a = thread t -> q' ≡ₚ t :: q -> does a arming (k, q, m) polling (k, q', m)
  | do_hit k q m : (0 < k)%Z -> does a polling (k, q, m) (settling true) ((k - 1)%Z, q, m)
  | do_fail k q m : (k <= 0)%Z -> does a polling (k, q, m) (settling false) (k, q, m)
  | do_stay t k q m : a = thread t -> does a (settling true) (k, q, m) (disarming true) (k, q, upd t awake m)
  | do_sleep t k q m : a = thread t -> does a (settling false) (k, q, m) (disarming false)
      (k, q, if decide (m t = going) then upd t asleep m else m)
  | do_disarm t b k q m : a = thread t -> does a (disarming b) (k, q, m)
      (if b then if bool_decide (t ∈ q) then outside else passing_on else repolling) (k, filter (fun x => x <> t) q, m)
  | do_pass_on k q m : does a passing_on (k, q, m) outside (k, (woken q m).1, (woken q m).2)
  | do_again k q m : (0 < k)%Z -> does a repolling (k, q, m) outside ((k - 1)%Z, q, m)
  | do_loop k q m : (k <= 0)%Z -> does a repolling (k, q, m) preparing (k, q, m)
  | do_release n k q m : does a (releasing n) (k, q, m) (testing n) (usize (k + Z.of_nat n), q, m)
  | do_test n k q m : does a (testing n) (k, q, m) (if bool_decide (q = []) then outside else waking n) (k, q, m)
  | do_wake n k q m : does a (waking (S n)) (k, q, m) (waking n) (k, (woken q m).1, (woken q m).2)
  | do_woken k q m : does a (waking 0) (k, q, m) outside (k, q, m).

Inductive spec_step (who : list agent) : spec -> spec -> Prop :=
  | spec_call a p k q m f : a ∈ who -> f a = outside -> p = acquiring \/ (exists n, p = releasing n) ->
      (forall t, a = thread t -> m t <> asleep) ->
      spec_step who (Spec k q m f) (Spec k q m (at_point a p f))
  | spec_act a p k q m k' q' m' f : a ∈ who -> (forall t, a = thread t -> m t <> asleep) ->
      does a (f a) (k, q, m) p (k', q', m') ->
      spec_step who (Spec k q m f) (Spec k' q' m' (at_point a p f))
  | spec_stir t k q m f : spec_step who (Spec k q m f) (Spec k q (upd t awake m) f)
  | spec_idle s : spec_step who s s.
End actions.

Lemma usize_between `{SizeT} z : (0 <= z -> 0 <= usize z <= z)%Z.
Proof.
  intros Hz. assert (0 < 2 ^ size_width)%Z by (apply Z.pow_pos_nonneg; pose proof size_width_pos; lia).
  unfold usize, wrap. pose proof (Z.mod_pos_bound z (2 ^ size_width)). split; [lia | apply Z.mod_le; lia].
Qed.

(** The points at which a thread's node may be queued, and those at which its
    poll has failed already. *)
Definition may_queue (p : point) : bool :=
  match p with polling | settling _ | disarming _ => true | _ => false end.
Definition failed (p : point) : bool :=
  match p with settling false | disarming false => true | _ => false end.

(** The wakes and polls an agent has still to make on somebody's behalf. *)
Definition owes (q : list nat) (a : agent) (p : point) : nat :=
  match p with
  | testing n | waking n => n
  | passing_on | repolling => 1
  | polling | settling _ | disarming _ =>
      match a with thread t => if decide (t ∈ q) then 0 else 1 | handler _ => 0 end
  | _ => 0
  end.

Definition owed (who : list agent) (s : spec) : nat := sum_list_with (fun a => owes (waiters s) a (at_ s a)) who.

(** [spare] is how many more are owed than the tokens need. *)
Record sane_by (spare : nat) (who : list agent) (s : spec) : Prop := {
  sn_tokens : (0 <= tokens s)%Z;
  sn_once : NoDup (waiters s);
  sn_queued : forall t, t ∈ waiters s -> thread t ∈ who /\ may_queue (at_ s (thread t)) = true;
  sn_asleep : forall t, thread t ∈ who -> at_ s (thread t) <> outside -> stands s t = asleep ->
    at_ s (thread t) = disarming false /\ t ∈ waiters s;
  sn_going : forall t, thread t ∈ who -> (at_ s (thread t) = polling \/ exists b, at_ s (thread t) = settling b) ->
    t ∉ waiters s -> stands s t <> going;
  sn_count : forall t, t ∈ waiters s -> failed (at_ s (thread t)) = true ->
    (tokens s + Z.of_nat spare <= Z.of_nat (owed who s))%Z
}.

Definition sane : list agent -> spec -> Prop := sane_by 0.

(** ** Counting *)

Lemma sum_ext {A} (f g : A -> nat) l : (forall x, x ∈ l -> f x = g x) -> sum_list_with f l = sum_list_with g l.
Proof. induction l as [| x l IH]; simpl; intros Hx; [reflexivity |]. rewrite (Hx x) by left. f_equal. apply IH. intros y Hy. apply Hx. right. exact Hy. Qed.

(** One summand changed. *)
Lemma sum_change {A} `{EqDecision A} (f g : A -> nat) l a : NoDup l -> a ∈ l -> (forall x, x ∈ l -> x <> a -> g x = f x) ->
  sum_list_with g l + f a = sum_list_with f l + g a.
Proof.
  intros Hnd Ha Hx. induction l as [| y l IH]; [inversion Ha |]. apply NoDup_cons in Hnd as [Hy Hnd]. simpl.
  destruct (decide (y = a)) as [-> | Hne].
  - rewrite (sum_ext g f l); [lia |]. intros x Hxl. apply Hx; [right; exact Hxl | intros ->; contradiction].
  - apply elem_of_cons in Ha as [-> | Ha]; [contradiction |]. rewrite (Hx y) by (left || exact Hne).
    specialize (IH Hnd Ha ltac:(intros x Hxl; apply Hx; right; exact Hxl)). lia.
Qed.

Lemma sum_zero {A} (f : A -> nat) l : (forall x, x ∈ l -> f x = 0) -> sum_list_with f l = 0.
Proof. induction l as [| x l IH]; simpl; intros Hx; [reflexivity |]. rewrite (Hx x) by left. apply IH. intros y Hy. apply Hx. right. exact Hy. Qed.

Lemma at_same a p f : at_point a p f a = p.
Proof. unfold at_point. rewrite decide_True; reflexivity. Qed.
Lemma at_other a p f x : x <> a -> at_point a p f x = f x.
Proof. intros Hx. unfold at_point. rewrite decide_False; auto. Qed.
Lemma upd_same t m f : upd t m f t = m.
Proof. unfold upd. rewrite decide_True; reflexivity. Qed.
Lemma upd_other t m f x : x <> t -> upd t m f x = f x.
Proof. intros Hx. unfold upd. rewrite decide_False; auto. Qed.

Section steps.
Context (who : list agent) (Hwho : NoDup who).
Implicit Types (k : Z) (q : list nat) (m : nat -> mode) (f : agent -> point) (a : agent) (p : point).

(** One agent's step that takes nobody else off the queue. *)
Lemma sane_act spare k q m f a p k' q' m' : sane_by spare who (Spec k q m f) -> a ∈ who ->
  (0 <= k')%Z -> NoDup q' -> (forall x, thread x <> a -> x ∈ q' <-> x ∈ q) ->
  (forall x, thread x <> a -> m' x = m x) ->
  (forall t, a = thread t -> t ∈ q' -> may_queue p = true) ->
  (forall t, a = thread t -> m' t = asleep -> p = outside \/ (p = disarming false /\ t ∈ q')) ->
  (forall t, a = thread t -> p = polling \/ (exists b, p = settling b) -> t ∉ q' -> m' t <> going) ->
  (forall t, a = thread t -> t ∈ q' -> failed p = true -> (k' <= 0)%Z \/ (t ∈ q /\ failed (f a) = true)) ->
  (k' <= 0)%Z \/ q' = [] \/ (k' + Z.of_nat (owes q a (f a)) <= k + Z.of_nat spare + Z.of_nat (owes q' a p))%Z ->
  sane who (Spec k' q' m' (at_point a p f)).
Proof.
  intros [S1 S2 S3 S4 S5 S6] Ha Hk Hnd Hq Hm Hmay Hsl Hgo Hfail Hcount. cbn in *.
  assert (Hcase : forall t, (thread t = a /\ at_point a p f (thread t) = p) \/ (thread t <> a /\ at_point a p f (thread t) = f (thread t))).
  { intros t. destruct (decide (thread t = a)) as [<- |]; [left; split; [reflexivity | apply at_same] | right; split; [assumption | apply at_other; assumption]]. }
  split; cbn; [exact Hk | exact Hnd | | | |].
  - intros t Ht. destruct (Hcase t) as [[E ->] | [E ->]].
    + split; [rewrite E; exact Ha | eapply Hmay; eauto].
    + apply S3, Hq; assumption.
  - intros t Hw. destruct (Hcase t) as [[E ->] | [E ->]].
    + intros Hp Hs. destruct (Hsl t (eq_sym E) Hs) as [| []]; [contradiction | auto].
    + rewrite Hm by exact E. intros Hp Hs. destruct (S4 t Hw Hp Hs) as [-> Hin]. split; [reflexivity | apply Hq; assumption].
  - intros t Hw. destruct (Hcase t) as [[E ->] | [E ->]]; [eauto |]. rewrite Hm by exact E. intros Hp Hn. apply S5; auto. rewrite <- Hq by exact E. exact Hn.
  - intros t Ht Hf. destruct (decide (k' <= 0)%Z) as [Hz | Hz]; [lia |].
    assert (Hne : q' <> []) by (intros ->; inversion Ht).
    destruct Hcount as [| [|Hcount]]; [contradiction | contradiction |].
    assert (Hold : (k + Z.of_nat spare <= Z.of_nat (owed who (Spec k q m f)))%Z).
    { destruct (Hcase t) as [[E Ep] | [E Ep]]; rewrite Ep in Hf.
      - destruct (Hfail t (eq_sym E) Ht Hf) as [| [Hin Hfa]]; [contradiction |]. apply (S6 t Hin). rewrite E. exact Hfa.
      - apply (S6 t); [apply Hq; assumption | exact Hf]. }
    assert (Hsum : owed who (Spec k' q' m' (at_point a p f)) + owes q a (f a) = owed who (Spec k q m f) + owes q' a p).
    { unfold owed. cbn [waiters at_].
      pose proof (sum_change (fun x => owes q x (f x)) (fun x => owes q' x (at_point a p f x)) who a Hwho Ha) as Hs.
      cbn beta in Hs. rewrite at_same in Hs. apply Hs. intros x _ Hx. rewrite at_other by exact Hx.
      destruct x as [x | c]; [| destruct (f (handler c)); reflexivity].
      specialize (Hq x Hx).
      destruct (f (thread x)); try reflexivity; cbn [owes]; destruct (decide (x ∈ q')), (decide (x ∈ q)); tauto || reflexivity. }
    lia.
Qed.

(** A waiter taken off the queue and woken: one more is owed. *)
Lemma sane_pop k u q m f : sane who (Spec k (u :: q) m f) -> sane_by 1 who (Spec k q (upd u awake m) f).
Proof.
  intros [S1 S2 S3 S4 S5 S6]. cbn in *. apply NoDup_cons in S2 as [Hu Hnd]. destruct (S3 u ltac:(left)) as [Huw Hum].
  split; cbn; [exact S1 | exact Hnd | | | |].
  - intros t Ht. apply S3. right. exact Ht.
  - intros t Hw Hp Hs. destruct (decide (t = u)) as [-> | Hne]; [rewrite upd_same in Hs; discriminate |].
    rewrite upd_other in Hs by exact Hne. destruct (S4 t Hw Hp Hs) as [E Hin]. split; [exact E |]. apply elem_of_cons in Hin as [|]; [contradiction | assumption].
  - intros t Hw Hp Hn. destruct (decide (t = u)) as [-> | Hne]; [rewrite upd_same; discriminate |].
    rewrite upd_other by exact Hne. apply S5; auto. intros Hx. apply elem_of_cons in Hx as [|]; contradiction.
  - intros t Ht Hf. specialize (S6 t ltac:(right; exact Ht) Hf).
    assert (Hsum : owed who (Spec k q (upd u awake m) f) + 0 = owed who (Spec k (u :: q) m f) + 1).
    { unfold owed. cbn [waiters at_].
      pose proof (sum_change (fun x => owes (u :: q) x (f x)) (fun x => owes q x (f x)) who (thread u) Hwho Huw) as Hs.
      cbn beta in Hs. assert (E1 : owes (u :: q) (thread u) (f (thread u)) = 0).
      { destruct (f (thread u)); try discriminate Hum; cbn [owes]; (destruct (decide (u ∈ u :: q)) as [| Hx]; [reflexivity | destruct Hx; left]). }
      assert (E2 : owes q (thread u) (f (thread u)) = 1).
      { destruct (f (thread u)); try discriminate Hum; cbn [owes]; (destruct (decide (u ∈ q)); [contradiction | reflexivity]). }
      rewrite E1, E2 in Hs. apply Hs. intros x _ Hx. destruct x as [x | c]; [| destruct (f (handler c)); reflexivity].
      assert (Ex : x ∈ u :: q <-> x ∈ q) by (rewrite elem_of_cons; split; [intros [-> |]; [contradiction | assumption] | auto]).
      destruct (f (thread x)); try reflexivity; cbn [owes]; destruct (decide (x ∈ u :: q)), (decide (x ∈ q)); tauto || reflexivity. }
    lia.
Qed.

Lemma sane_idle s : sane who s -> sane_by 0 who s.
Proof. auto. Qed.

(** A wake for another reason. *)
Lemma sane_stir t k q m f : sane who (Spec k q m f) -> sane who (Spec k q (upd t awake m) f).
Proof.
  intros [S1 S2 S3 S4 S5 S6]. split; auto; cbn in *.
  - intros x Hx Hp. unfold upd. case_decide; [discriminate | auto].
  - intros x Hx Hp Hn. unfold upd. case_decide; [discriminate | auto].
Qed.
End steps.

Section invariant.
Context `{SizeT} (who : list agent) (Hwho : NoDup who).

Lemma does_sane a p k q m k' q' m' f : sane who (Spec k q m f) -> a ∈ who -> (forall t, a = thread t -> m t <> asleep) ->
  does a (f a) (k, q, m) p (k', q', m') -> sane who (Spec k' q' m' (at_point a p f)).
Proof.
  intros Hs Ha Hawake Hd. pose proof Hs as [S1 S2 S3 S4 S5 _]. cbn in S1, S2, S3, S4, S5.
  assert (Hout : forall t, a = thread t -> t ∈ q -> may_queue (f a) = true) by (intros t -> Ht; apply S3, Ht).
  assert (Hgo : forall t, a = thread t -> f a = polling \/ (exists b, f a = settling b) -> t ∉ q -> m t <> going)
    by (intros t -> Hf; apply S5; [exact Ha | exact Hf]).
  assert (Hupd : forall t md x, a = thread t -> thread x <> a -> upd t md m x = m x)
    by (intros t md x -> Hx; apply upd_other; congruence).
  remember (f a) as p0 eqn:Ep. symmetry in Ep. revert Ep Hout Hgo.
  inversion Hd as [? ? ? ? | ? ? ? ? | ? ? ? | t md ? ? ? Ea Hmd | t ? ? ? ? Ea Hp | ? ? ? ? | ? ? ? ? | t ? ? ? Ea
    | t ? ? ? Ea | t b ? ? ? Ea | ? ? ? | ? ? ? ? | ? ? ? ? | n ? ? ? | n ? ? ? | n ? ? ? | ? ? ?]; subst; clear Hd; intros Ep Hout Hgo.
  all: try match goal with |- context [usize ?z] => pose proof (usize_between z ltac:(lia)) end.
  all: try (eapply (sane_act who Hwho 0); [exact Hs | exact Ha | lia | exact S2 | reflexivity | reflexivity
    | intros x Ex Hx; specialize (Hout x Ex Hx); discriminate || reflexivity
    | intros x Ex Hx; destruct (Hawake x Ex Hx)
    | intros x Ex Hx Hn; (destruct Hx as [Hx | [? Hx]]; discriminate) || (apply (Hgo x Ex); auto)
    | intros x Ex Hx Hf; specialize (Hout x Ex Hx); discriminate || (left; lia)
    | rewrite Ep; cbn [owes]; (left; lia) || (right; right; lia) ]; fail).
  - (* prepare *) eapply (sane_act who Hwho 0); [exact Hs | exact Ha | lia | exact S2 | reflexivity | intros; apply Hupd; auto | | | | |].
    + intros x Ex Hx. specialize (Hout x Ex Hx). discriminate.
    + intros x [= <-]. rewrite upd_same. destruct Hmd as [-> | ->]; discriminate.
    + intros x _ [Hx | [? Hx]]; discriminate.
    + intros x Ex Hx. specialize (Hout x Ex Hx). discriminate.
    + rewrite Ep. cbn [owes]. right. right. lia.
  - (* arm *) assert (Hnq : t ∉ q) by (intros Hx; specialize (Hout t eq_refl Hx); discriminate).
    eapply (sane_act who Hwho 0); [exact Hs | exact Ha | lia | | | reflexivity | reflexivity | | | |].
    + rewrite Hp. apply NoDup_cons. auto.
    + intros x Hx. rewrite Hp, elem_of_cons. split; [intros [-> |]; [contradiction | assumption] | auto].
    + intros x Ex Hx. destruct (Hawake x Ex Hx).
    + intros x [= <-] _ Hn. destruct Hn. rewrite Hp. left.
    + discriminate.
    + rewrite Ep. cbn [owes]. right. right. lia.
  - (* stay *) eapply (sane_act who Hwho 0); [exact Hs | exact Ha | lia | exact S2 | reflexivity | intros; apply Hupd; auto | reflexivity | | | |].
    + intros x [= <-]. rewrite upd_same. discriminate.
    + intros x _ [Hx | [? Hx]]; discriminate.
    + discriminate.
    + rewrite Ep. cbn [owes]. right. right. lia.
  - (* sleep *) eapply (sane_act who Hwho 0); [exact Hs | exact Ha | lia | exact S2 | reflexivity | | reflexivity | | | |].
    + intros x Hx. case_decide; [apply Hupd; auto | reflexivity].
    + intros x [= <-]. case_decide as Eg; [| intros Hx; destruct (Hawake t eq_refl Hx)].
      intros _. right. split; [reflexivity |]. match goal with |- t ∈ ?l => destruct (decide (t ∈ l)) as [| Hn]; [assumption |] end.
      destruct (Hgo t eq_refl ltac:(eauto) Hn Eg).
    + intros x _ [Hx | [? Hx]]; discriminate.
    + intros x Ex Hx _. right. split; [exact Hx | rewrite Ep; reflexivity].
    + rewrite Ep. cbn [owes]. right. right. lia.
  - (* disarm *) eapply (sane_act who Hwho 0); [exact Hs | exact Ha | lia | apply NoDup_filter, S2 | | reflexivity | | | | |].
    + intros x Hx. rewrite list_elem_of_filter. split; [tauto |]. intros Hq. split; [congruence | exact Hq].
    + intros x [= <-] Hx. apply list_elem_of_filter in Hx as [Hx _]. contradiction.
    + intros x Ex Hx. destruct (Hawake x Ex Hx).
    + intros x _ Hx. destruct b; [case_bool_decide |]; destruct Hx as [Hx | [? Hx]]; discriminate.
    + intros x [= <-] Hx. apply list_elem_of_filter in Hx as [Hx _]. contradiction.
    + rewrite Ep. cbn [owes]. right. right. destruct b; [case_bool_decide |]; cbn [owes]; case_decide; tauto || lia.
  - (* pass on *) destruct q as [| u q]; cbn [woken fst snd].
    + eapply (sane_act who Hwho 0); [exact Hs | exact Ha | lia | exact S2 | reflexivity | reflexivity | | | | | auto];
        [intros x _ Hx; inversion Hx | intros x Ex Hx; destruct (Hawake x Ex Hx) | intros x _ [Hx | [? Hx]]; discriminate | discriminate].
    + pose proof (sane_pop who Hwho k' u q m f Hs) as Hs1.
      eapply (sane_act who Hwho 1); [exact Hs1 | exact Ha | lia | apply (sn_once _ _ _ Hs1) | reflexivity | reflexivity | | | | |].
      * intros x Ex Hx. specialize (Hout x Ex ltac:(right; exact Hx)). discriminate.
      * intros x Ex Hx. left. reflexivity.
      * intros x _ [Hx | [? Hx]]; discriminate.
      * discriminate.
      * rewrite Ep. cbn [owes]. right. right. lia.
  - (* test *) eapply (sane_act who Hwho 0); [exact Hs | exact Ha | lia | exact S2 | reflexivity | reflexivity | | | | |].
    + intros x Ex Hx. specialize (Hout x Ex Hx). discriminate.
    + intros x Ex Hx. destruct (Hawake x Ex Hx).
    + intros x _ Hx. case_bool_decide; destruct Hx as [Hx | [? Hx]]; discriminate.
    + intros x _ _. case_bool_decide; discriminate.
    + rewrite Ep. case_bool_decide as Eq; [auto |]. cbn [owes]. right. right. lia.
  - (* wake *) destruct q as [| u q]; cbn [woken fst snd].
    + eapply (sane_act who Hwho 0); [exact Hs | exact Ha | lia | exact S2 | reflexivity | reflexivity | | | | | auto];
        [intros x _ Hx; inversion Hx | intros x Ex Hx; destruct (Hawake x Ex Hx) | intros x _ [Hx | [? Hx]]; discriminate | discriminate].
    + pose proof (sane_pop who Hwho k' u q m f Hs) as Hs1.
      eapply (sane_act who Hwho 1); [exact Hs1 | exact Ha | lia | apply (sn_once _ _ _ Hs1) | reflexivity | reflexivity | | | | |].
      * intros x Ex Hx. specialize (Hout x Ex ltac:(right; exact Hx)). discriminate.
      * intros x Ex Hx. unfold upd in Hx. case_decide; [discriminate |]. destruct (Hawake x Ex Hx).
      * intros x _ [Hx | [? Hx]]; discriminate.
      * discriminate.
      * rewrite Ep. cbn [owes]. right. right. lia.
Qed.

Lemma spec_step_sane s s' : sane who s -> spec_step who s s' -> sane who s'.
Proof.
  intros Hs Hstep. destruct Hstep as [a p k q m f Ha Hf Hp Hawake | a p k q m k' q' m' f Ha Hawake Hd | t k q m f |].
  - pose proof Hs as [S1 S2 S3 S4 S5 _]. cbn in *.
    assert (Hout : forall t, a = thread t -> t ∉ q) by (intros t -> Ht; destruct (S3 t Ht) as [_ E]; rewrite Hf in E; discriminate).
    eapply (sane_act who Hwho 0); [exact Hs | exact Ha | exact S1 | exact S2 | reflexivity | reflexivity | | | | |].
    + intros t Et Ht. destruct (Hout t Et Ht).
    + intros t Et Ht. destruct (Hawake t Et Ht).
    + intros t _ Hx. destruct Hp as [-> | [n ->]]; destruct Hx as [Hx | [? Hx]]; discriminate.
    + intros t Et Ht. destruct (Hout t Et Ht).
    + right. right. rewrite Hf. destruct Hp as [-> | [n ->]]; cbn [owes]; lia.
  - eapply does_sane; eassumption.
  - apply sane_stir, Hs.
  - exact Hs.
Qed.

(** Nobody sleeps beside a token: once every thread is outside or asleep and
    every handler done, a thread asleep in its wait means there is none. *)
Definition at_rest (s : spec) : Prop :=
  forall a, a ∈ who -> at_ s a = outside \/ exists t, a = thread t /\ stands s t = asleep.

Lemma sane_rests s : sane who s -> at_rest s -> (0 < tokens s)%Z -> forall t, thread t ∈ who -> at_ s (thread t) = outside.
Proof.
  intros [S1 S2 S3 S4 S5 S6] Hrest Hk t Ht. destruct (Hrest _ Ht) as [E | (t' & [= <-] & Hs)]; [exact E |].
  destruct (decide (at_ s (thread t) = outside)) as [E | E]; [exact E | exfalso]. destruct (S4 t Ht E Hs) as [Ep Hq].
  specialize (S6 t Hq ltac:(rewrite Ep; reflexivity)).
  assert (Hz : owed who s = 0); [| lia].
  apply sum_zero. intros a Ha. destruct (Hrest a Ha) as [-> | (u & -> & Hu)]; [reflexivity |].
  destruct (decide (at_ s (thread u) = outside)) as [-> | E']; [reflexivity |]. destruct (S4 u Ha E' Hu) as [-> Hin].
  cbn [owes]. rewrite decide_True by exact Hin. reflexivity.
Qed.
End invariant.
End SemaphoreSpec.
