(* ===== verification/SemaphoreProofs.v ===== *)
(** * The semaphore's system keeps its promise

    Each step of [SemaphoreSystem] finishes and does, to the tokens, the queue
    and the modes, what the abstract step does. *)

From S2P Require Import Prelude Chain State ReadyQueue ReadyQueueProofs WaitQueue WaitQueueProofs Urgency UrgencyProofs Scheduler SchedulerSpec Local SchedulerProofs DispatchProofs PickProofs Switch RoadProofs SwitchProofs Cores ExitProofs Waking Waits Mutex Sync WakeProofs MutexProofs MutexOps Modes WaitingProofs SemaphoreSystem SemaphoreSpec.
Import SemaphoreSystem SemaphoreSpec.

Module SemaphoreProofs.
(** The points between entering a wait and leaving it, and a release's. *)
Definition in_wait (p : point) : bool :=
  match p with
  | preparing | arming | polling | settling _ | disarming _ | passing_on | repolling => true
  | _ => false
  end.
Definition in_release (p : point) : bool :=
  match p with outside | releasing _ | testing _ | waking _ => true | _ => false end.

Definition given (but : option (nat * mode)) (m : nat -> mode) : nat -> mode :=
  match but with Some (t, md) => upd t md m | None => m end.

Lemma list_cases {A} (l : list A) : l = [] \/ exists x l', l = x :: l'.
Proof. destruct l; eauto. Qed.

(** Where a node is queued, its thread is. *)
Lemma insert_split_queue prio (node_of : nat -> nat) t q :
  exists q', q' ≡ₚ t :: q /\ WaitQueue.insert prio (node_of t) (node_of <$> q) = node_of <$> q'.
Proof.
  induction q as [| u q (q' & Hp & E)]; [exists [t]; split; reflexivity |]. rewrite fmap_cons. cbn [WaitQueue.insert]. destruct (prio (node_of t) <? prio (node_of u)).
  - exists (t :: u :: q). split; reflexivity.
  - exists (u :: q'). split; [rewrite Hp; apply Permutation_swap | rewrite E, fmap_cons; reflexivity].
Qed.

Section related.
Context `{Config} `{SizeT} (w : nat) (node_of : nat -> nat) (who : list agent).
Context (Hinj : forall t u, thread t ∈ who -> thread u ∈ who -> node_of t = node_of u -> t = u).

(** A thread of the system: live, of no idle rank, in no other wait, its node
    on no mutex's queue. *)
Record member (s : kernel_state) (l : list nat) (p : point) (t : nat) : Prop := {
  me_block : exists v, tcbs s !! t = Some v /\ wait_record v = None;
  me_idle : no_idle s t;
  me_apart : unqueued s (node_of t);
  me_node : in_wait p = true -> node_for s l (node_of t) t
}.

Record related (sys : system) (sp : spec) : Prop := {
  re_running : all_running (kernel (sy_world sys));
  re_lively : lively (tcbs (kernel (sy_world sys)));
  re_cores : forall t v, tcbs (kernel (sy_world sys)) !! t = Some v -> pinned_core v < cores;
  re_queue : queue_is w (kernel (sy_world sys)) (node_of <$> waiters sp);
  re_tokens : object (sy_world sys) = tokens sp /\ (0 <= tokens sp < 2 ^ size_width)%Z;
  re_stands : forall t v, tcbs (kernel (sy_world sys)) !! t = Some v -> stands sp t = mode_of v;
  re_at : forall a, at_ sp a = sy_at sys a;
  re_members : forall t, thread t ∈ who -> member (kernel (sy_world sys)) (node_of <$> waiters sp) (sy_at sys (thread t)) t;
  re_handlers : forall c, handler c ∈ who -> in_release (sy_at sys (handler c)) = true
}.

(** A kernel step, seen from here. *)
Lemma related_stirred wd f k q q' m g but s' : related (System wd f) (Spec k q m g) ->
  stirred w but (node_of <$> q) (node_of <$> q') (kernel wd) s' -> (forall t, but <> Some (t, gone)) ->
  related (System (set_kernel s' wd) f) (Spec k q' (given but m) g).
Proof.
  intros [R1 R2 R3 R4 R5 R6 R7 R8 R9] Hs Hng. cbn in *. split; cbn; auto.
  - apply Hs.
  - eapply moded_lively; [apply Hs | exact Hng | exact R2].
  - intros t v' Hv'. destruct (stirred_pinned _ _ _ _ _ _ _ _ Hs Hv') as (v & Hv & ->). eapply R3, Hv.
  - apply Hs.
  - intros t v' Hv'. destruct (moded_lookup_inv _ _ _ _ _ (sd_moded _ _ _ _ _ _ Hs) Hv') as [v Hv].
    destruct (moded_lookup _ _ _ _ _ (sd_moded _ _ _ _ _ _ Hs) Hv) as (v0 & Hv0 & _ & E). rewrite Hv' in Hv0. injection Hv0 as <-.
    rewrite E. destruct but as [[u md] |]; cbn [given]; [unfold upd; case_decide; [reflexivity |] |]; apply R6, Hv.
  - intros t Ht. destruct (R8 t Ht) as [(v & Hv & Hr) Hi Hu Hn]. split.
    + destruct (moded_lookup _ _ _ _ _ (sd_moded _ _ _ _ _ _ Hs) Hv) as (v' & Hv' & Er & _). exists v'. split; [exact Hv' | injection Er; congruence].
    + eapply stirred_no_idle; eassumption.
    + eapply sd_apart; eassumption.
    + intros Hp. apply (sd_nodes _ _ _ _ _ _ Hs), Hn, Hp.
Qed.

(** An agent moved to another point. *)
Lemma related_point wd f k q m g a p : related (System wd f) (Spec k q m g) ->
  (forall t, a = thread t -> in_wait p = true -> in_wait (f a) = true) ->
  (forall c, a = handler c -> in_release p = true) ->
  related (System wd (at_point a p f)) (Spec k q m (at_point a p g)).
Proof.
  intros [R1 R2 R3 R4 R5 R6 R7 R8 R9] Hw Hh. split; cbn in *; auto.
  - intros x. unfold at_point. case_decide; [reflexivity | apply R7].
  - intros t Ht. destruct (R8 t Ht) as [M1 M2 M3 M4]. split; auto. unfold at_point. case_decide as E; [| exact M4].
    subst a. intros Hp. apply M4, (Hw t eq_refl Hp).
  - intros c Hc. unfold at_point. case_decide as E; [exact (Hh c (eq_sym E)) | apply R9, Hc].
Qed.

(** The tokens, counted anew. *)
Lemma related_tokens wd f k k' q m g : related (System wd f) (Spec k q m g) -> (0 <= k' < 2 ^ size_width)%Z ->
  related (System (set_object k' wd) f) (Spec k' q m g).
Proof. intros [R1 R2 R3 R4 R5 R6 R7 R8 R9] Hk. split; cbn in *; auto. Qed.

Section step.
Context (cx : cpu) (wd : world Z unit) (f g : agent -> point) (k : Z) (q : list nat) (m : nat -> mode).
Context (Hrel : related (System wd f) (Spec k q m g)).
Local Abbreviation s := (kernel wd).

(** What a piece of [a]'s code at point [p0] leaves, at the point [p]. *)
Definition follows (a : agent) (p0 : point) (p : point) (wd' : world Z unit) : Prop :=
  exists k' q' m', does a p0 (k, q, m) p (k', q', m') /\
    related (System wd' (at_point a p f)) (Spec k' q' m' (at_point a p g)).

Lemma follows_stirred a p0 p q' but s' : stirred w but (node_of <$> q) (node_of <$> q') s s' ->
  (forall t, but <> Some (t, gone)) -> does a p0 (k, q, m) p (k, q', given but m) ->
  (forall t, a = thread t -> in_wait p = true -> in_wait (f a) = true) -> (forall c, a = handler c -> in_release p = true) ->
  follows a p0 p (set_kernel s' wd).
Proof.
  intros Hs Hng Hd Hw Hh. exists k, q', (given but m). split; [exact Hd |].
  apply related_point; [eapply related_stirred; eassumption | exact Hw | exact Hh].
Qed.

(** ** The tokens *)

Lemma try_acquire_ok (Q : bool -> world Z unit -> Prop) :
  (if (0 <? k)%Z then Q true (set_object (k - 1)%Z wd) else Q false wd) -> wp Tokens.try_acquire Q wd.
Proof.
  intros HQ. apply wp_atomically. destruct (re_tokens _ _ Hrel) as [E _]. cbn in E. rewrite E.
  destruct (0 <? k)%Z; [exact HQ |]. rewrite <- E. destruct wd. exact HQ.
Qed.

Lemma taken_ok a p0 p1 p2 (Hw : forall p, p = p1 \/ p = p2 -> (forall t, a = thread t -> in_wait p = true -> in_wait (f a) = true) /\ (forall c, a = handler c -> in_release p = true)) :
  ((0 < k)%Z -> does a p0 (k, q, m) p1 ((k - 1)%Z, q, m)) -> ((k <= 0)%Z -> does a p0 (k, q, m) p2 (k, q, m)) ->
  wp Tokens.try_acquire (fun b wd' => follows a p0 (if b then p1 else p2) wd') wd.
Proof.
  intros H1 H2. apply try_acquire_ok. pose proof (re_tokens _ _ Hrel) as [_ Hk]. cbn in Hk. destruct (Z.ltb_spec 0 k) as [Hlt | Hge].
  - destruct (Hw p1 ltac:(auto)) as [W1 W2]. exists (k - 1)%Z, q, m. split; [auto |]. apply related_point; auto. eapply related_tokens; [exact Hrel | lia].
  - destruct (Hw p2 ltac:(auto)) as [W1 W2]. exists k, q, m. split; [auto |]. apply related_point; auto.
Qed.

(** ** A wake *)

Lemma wake_ok a p0 p : a ∈ who -> sane who (Spec k q m g) ->
  does a p0 (k, q, m) p (k, (woken q m).1, (woken q m).2) ->
  (forall t, a = thread t -> in_wait p = true -> in_wait (f a) = true) -> (forall c, a = handler c -> in_release p = true) ->
  wp (in_kernel (Waking.wake_one cx (queue w) ReschedulePolicy.automatic)) (fun _ wd' => follows a p0 p wd') wd.
Proof.
  intros Ha Hsane Hd Hw Hh. pose proof Hrel as [R1 R2 R3 R4 R5 R6 R7 R8 R9]. cbn in *. apply wp_in_kernel.
  assert (Hend : forall but q' s', woken q m = (q', given but m) -> (forall t, but <> Some (t, gone)) ->
    stirred w but (node_of <$> q) (node_of <$> q') s s' -> follows a p0 p (set_kernel s' wd)).
  { intros but q' s' E Hng Hs. rewrite E in Hd. eapply follows_stirred; eassumption. }
  destruct (list_cases q) as [Eq | (u & q' & Eq)].
  - eapply wp_mono; [apply (wake_nobody w cx s _ R1 R4 ReschedulePolicy.automatic); rewrite Eq; reflexivity |].
    intros ? s' Hs. apply (Hend None []); [rewrite Eq; reflexivity | discriminate |]. rewrite Eq. exact Hs.
  - assert (Hin : u ∈ q) by (rewrite Eq; left).
    pose proof (sn_queued _ _ _ Hsane u Hin) as [Hu Hmay]. cbn in Hmay. destruct (R8 u Hu) as [(v & Hv & _) _ _ Hnode].
    assert (Hf : in_wait (f (thread u)) = true) by (rewrite <- (R7 (thread u)); destruct (g (thread u)); try discriminate Hmay; reflexivity).
    eapply wp_mono; [apply (wake_first w cx s _ R1 R4 R2 ReschedulePolicy.automatic (node_of u) (node_of <$> q') u v) | ];
      [rewrite Eq; reflexivity | exact (Hnode Hf) | exact Hv | exact (R3 u v Hv) |].
    intros ? s' Hs. apply (Hend (Some (u, awake)) q'); [rewrite Eq; reflexivity | discriminate |]. rewrite Eq. exact Hs.
Qed.

(** ** A release *)

Lemma advance_release_ok a : a ∈ who -> sane who (Spec k q m g) -> in_release (f a) = true -> f a <> outside ->
  wp (advance_release w cx (f a)) (fun p wd' => follows a (f a) p wd') wd.
Proof.
  intros Ha Hsane Hr Ho. pose proof Hrel as [R1 R2 R3 R4 [Ek Hk] R6 R7 R8 R9]. cbn in *.
  assert (Hw : forall p, in_wait p = false -> forall t, a = thread t -> in_wait p = true -> in_wait (f a) = true) by congruence.
  destruct (f a) as [| | | | | | | | | | n | n | n] eqn:Ef; try discriminate Hr; [congruence | | |]; cbn [advance_release].
  - wp_step. unfold Tokens.fetch_add. apply wp_atomically. rewrite Ek. wp_step.
    pose proof (wrap_range size_width (k + Z.of_nat n) (Z.lt_le_incl _ _ size_width_pos)) as Hwr.
    exists (usize (k + Z.of_nat n)), q, m. split.
    + constructor.
    + apply related_point; [eapply related_tokens; [exact Hrel | exact Hwr] | rewrite Ef; cbn; discriminate | reflexivity].
  - wp_step. unfold Waits.may_have_waiters. wp_step. apply wp_in_kernel.
    destruct (read_queue_ok w s _ R4) as (qw & Er & Ee). unfold queue. unfold wp at 1. rewrite Er. rewrite set_kernel_same.
    do 2 wp_step. rewrite Ee. exists k, q, m.
    assert (Eb : bool_decide (node_of <$> q = []) = bool_decide (q = [])) by (apply bool_decide_ext; destruct q; simpl; split; congruence).
    rewrite Eb. split; [| apply related_point; [exact Hrel | rewrite Ef; destruct (bool_decide (q = [])); cbn; discriminate | destruct (bool_decide (q = [])); reflexivity]].
    pose proof (do_test a n k q m) as Hd. destruct (bool_decide (q = [])); exact Hd.
  - destruct n as [| n].
    + wp_step. exists k, q, m. split; [constructor |]. apply related_point; [exact Hrel | cbn; discriminate | reflexivity].
    + wp_step. eapply wp_mono; [apply (wake_ok a (waking (S n)) (waking n) Ha Hsane); [constructor | rewrite Ef; cbn; discriminate | reflexivity] |].
      intros ? wd' Hf. wp_step. exact Hf.
Qed.
End step.

(** ** The thread that runs *)

Lemma running_core c s t : all_running s -> c < cores -> runs s c t ->
  exists sc L Hs I v, core_inv c s sc L Hs (Some t) I /\ tcbs s !! t = Some v /\ state v = ThreadState.running.
Proof.
  intros [_ Hall] Hc (sc0 & v & Hsc & Hcur & Hv & Hr). destruct (Hall c Hc) as (sc & L & Hs & prev & I & Hinv).
  pose proof (co_run _ _ _ _ _ _ (ci_core _ _ _ _ _ _ _ Hinv) prev eq_refl) as Ep.
  assert (prev = t) as -> by (pose proof (ci_scheduler _ _ _ _ _ _ _ Hinv); congruence). exists sc, L, Hs, I, v. auto.
Qed.

Lemma running_mode v : state v = ThreadState.running -> mode_of v <> gone -> mode_of v = awake \/ mode_of v = going.
Proof.
  intros E. unfold mode_of. destruct (_ || _); [contradiction |]. destruct (negb _); [auto |]. rewrite (bool_decide_false (state v = ThreadState.blocked)) by congruence. case_bool_decide; auto.
Qed.

Lemma running_calm v : state v = ThreadState.running -> mode_of (set_disposition ThreadDisposition.none v) = awake.
Proof. intros E. unfold mode_of, is_finished. cbn. rewrite E. cbn. destruct (pending_requests v =? 0)%Z; reflexivity. Qed.

Lemma running_prepared v : state v = ThreadState.running ->
  mode_of (set_disposition ThreadDisposition.prepared v) = awake \/ mode_of (set_disposition ThreadDisposition.prepared v) = going.
Proof. intros E. unfold mode_of, is_finished. cbn. rewrite E. cbn. destruct (pending_requests v =? 0)%Z; auto. Qed.

(** A wait entered: the thread's node is on its stack. *)
Lemma related_enter wd f k q m g t : related (System wd f) (Spec k q m g) -> thread t ∈ who -> t ∉ q ->
  (forall u, u ∈ q -> thread u ∈ who) ->
  let s' := set_nodes (<[node_of t := WaitNode t None]> (nodes (kernel wd))) (kernel wd) in
  related (System (set_kernel s' wd) (at_point (thread t) preparing f)) (Spec k q m (at_point (thread t) preparing g)).
Proof.
  intros [R1 R2 R3 R4 R5 R6 R7 R8 R9] Ht Hq Hwho s'. cbn in *. set (s := kernel wd) in *. set (n := node_of t).
  assert (Hnl : n ∉ node_of <$> q).
  { intros Hx. apply list_elem_of_fmap in Hx as (u & E & Hu). assert (t = u) as -> by (apply Hinj; auto). contradiction. }
  assert (Hun : forall x, x ∈ [n] -> unqueued s x) by (intros x Hx; apply list_elem_of_singleton in Hx as ->; apply (R8 t Ht)).
  assert (Hout : forall x, x ∉ [n] -> nodes s' !! x = nodes s !! x).
  { intros x Hx. apply lookup_insert_ne. intros E. apply Hx, list_elem_of_singleton. symmetry. exact E. }
  pose proof (all_running_wf s R1) as Hwf.
  assert (Hunq : forall x, unqueued s x -> unqueued s' x) by (intros x; apply (unqueued_renodes s s' [n] x Hwf Hun Hout eq_refl)).
  split; cbn; auto.
  - apply (all_running_reheld s); [apply reheld_queues; reflexivity | apply (wf_renodes s [n] _ Hwf Hun Hout) | exact R1].
  - destruct R4 as [(qw & Hw & Hr) Ha]. split; [| intros x Hx; apply Hunq, Ha, Hx]. exists qw. split; [exact Hw |].
    apply (repr_outside _ (nodes s)); [| exact Hr]. intros x Hx. apply Hout. intros E. apply list_elem_of_singleton in E as ->. contradiction.
  - intros x. unfold at_point. case_decide; [reflexivity | apply R7].
  - intros u Hu. destruct (R8 u Hu) as [M1 M2 M3 M4]. split; auto. intros Hp. split; [apply Hunq, M3 |]. cbn.
    destruct (decide (u = t)) as [-> | Hne].
    + exists (WaitNode t None). rewrite lookup_insert_eq. auto.
    + unfold at_point in Hp. rewrite decide_False in Hp by congruence. destruct (M4 Hp) as [_ (nd & Hnd & Hr)]. exists nd.
      rewrite lookup_insert_ne; [auto |]. intros E. apply Hne. symmetry. apply Hinj; auto.
Qed.

Section thread_step.
Context (cx : cpu) (wd : world Z unit) (f g : agent -> point) (k : Z) (q : list nat) (m : nat -> mode) (t : nat).
Context (Hrel : related (System wd f) (Spec k q m g)) (Hsane : sane who (Spec k q m g)) (Ht : thread t ∈ who).
Context (Hc : this_core cx < cores) (Hrun : runs (kernel wd) (this_core cx) t) (Hmasked : masked_from_baseline cx = true).
Local Abbreviation leaves := (follows f g k q m (thread t)).

Lemma waiting_at : g (thread t) = f (thread t).
Proof. apply (re_at _ _ Hrel). Qed.

Lemma not_queued : may_queue (f (thread t)) = false -> t ∉ q.
Proof. intros E Hx. destruct (sn_queued _ _ _ Hsane t Hx) as [_ Hm]. cbn in Hm. rewrite waiting_at, E in Hm. discriminate. Qed.

Lemma node_queued : node_of t ∈ node_of <$> q <-> t ∈ q.
Proof.
  rewrite list_elem_of_fmap. split; [| eauto]. intros (u & E & Hu).
  assert (t = u) as -> by (apply Hinj; [exact Ht | apply (sn_queued _ _ _ Hsane u Hu) | exact E]). exact Hu.
Qed.

Lemma filter_queue : filter (fun x => x <> node_of t) (node_of <$> q) = node_of <$> filter (fun x => x <> t) q.
Proof.
  assert (Hq : forall u, u ∈ q -> thread u ∈ who) by (intros u Hu; apply (sn_queued _ _ _ Hsane u Hu)).
  revert Hq. clear Hrel Hsane. induction q as [| u l IH]; intros Hq; [reflexivity |]. rewrite fmap_cons, !filter_cons.
  rewrite IH by (intros x Hx; apply Hq; right; exact Hx).
  destruct (decide (u = t)) as [-> | Hne].
  - rewrite !decide_False by auto. reflexivity.
  - rewrite !decide_True; [reflexivity | exact Hne |]. intros E. apply Hne, Hinj; auto. apply Hq. left.
Qed.

Lemma enter_ok : f (thread t) = entering -> wp (advance w node_of cx t entering) (fun p wd' => leaves entering p wd') wd.
Proof.
  intros Ef. pose proof Hrel as [R1 R2 R3 R4 R5 R6 R7 R8 R9]. cbn in *.
  destruct (running_core _ _ _ R1 Hc Hrun) as (sc & L & Hs & I & v & Hinv & Hv & Hr).
  destruct (R8 t Ht) as [(v' & Hv' & Hrec) _ _ _]. assert (v' = v) as -> by congruence.
  cbn [advance]. wp_step. unfold Waits.enter. wp_step. apply wp_in_kernel.
  unfold wp at 1. rewrite (get_current_ok cx _ sc t (ci_scheduler _ _ _ _ _ _ _ Hinv) (co_run _ _ _ _ _ _ (ci_core _ _ _ _ _ _ _ Hinv) t eq_refl)).
  rewrite set_kernel_same.
  wp_step. apply wp_in_kernel. eapply wp_get_tcb; [exact Hv |]. rewrite set_kernel_same. wp_step. unfold Waits.record_for. rewrite Hrec.
  wp_step. wp_step. unfold Waits.new_node. apply wp_in_kernel. wp_step. wp_step. wp_step. wp_step. wp_step. wp_step; [reflexivity |]. wp_step.
  exists k, q, m. split; [constructor |].
  apply related_enter; [exact Hrel | exact Ht | apply not_queued; rewrite Ef; reflexivity | intros u Hu; apply (sn_queued _ _ _ Hsane u Hu)].
Qed.

(** A kernel step at a point inside a wait. *)
Lemma wait_stirred p0 p q' but (m0 : K unit) : f (thread t) = p0 -> in_wait p0 = true -> (forall x, but <> Some (x, gone)) ->
  does (thread t) p0 (k, q, m) p (k, q', given but m) ->
  wp m0 (fun _ s' => stirred w but (node_of <$> q) (node_of <$> q') (kernel wd) s') (kernel wd) ->
  wp (in_kernel m0 ;;* kret p) (fun p wd' => leaves p0 p wd') wd.
Proof.
  intros Ef Hin Hng Hd Hm. wp_step. apply wp_in_kernel. eapply wp_mono; [exact Hm |]. intros ? s' Hs. wp_step.
  eapply (follows_stirred wd f g k q m Hrel); [exact Hs | exact Hng | exact Hd | intros x [= <-]; rewrite Ef; auto | discriminate].
Qed.

Lemma thread_facts : exists sc L Hs I v, core_inv (this_core cx) (kernel wd) sc L Hs (Some t) I /\
  tcbs (kernel wd) !! t = Some v /\ state v = ThreadState.running /\ m t = mode_of v /\ mode_of v <> gone.
Proof.
  pose proof Hrel as [R1 R2 R3 R4 R5 R6 R7 R8 R9]. cbn in *.
  destruct (running_core _ _ _ R1 Hc Hrun) as (sc & L & Hs & I & v & Hinv & Hv & Hr).
  exists sc, L, Hs, I, v. split_and!; auto. eapply R2, Hv.
Qed.

Lemma prepare_ok : f (thread t) = preparing ->
  wp (advance w node_of cx t preparing) (fun p wd' => leaves preparing p wd') wd.
Proof.
  intros Ef. destruct thread_facts as (sc & L & Hs & I & v & Hinv & Hv & Hr & Em & Hl). pose proof Hrel as [R1 R2 R3 R4 _ _ _ _ _]. cbn in *.
  set (md := mode_of (set_disposition ThreadDisposition.prepared v)). pose proof (running_prepared v Hr) as Hmd. fold md in Hmd.
  eapply (wait_stirred preparing arming q (Some (t, md))); [exact Ef | reflexivity | intros x [= _ E]; rewrite E in Hmd; destruct Hmd; discriminate | |].
  - exact (do_prepare (thread t) t md k q m eq_refl Hmd).
  - exact (dispose_stirred w (kernel wd) _ R1 R4 t v ThreadDisposition.prepared Hv ltac:(discriminate)).
Qed.

Lemma arm_ok' : f (thread t) = arming -> wp (advance w node_of cx t arming) (fun p wd' => leaves arming p wd') wd.
Proof.
  intros Ef. destruct thread_facts as (sc & L & Hs & I & v & Hinv & Hv & Hr & Em & Hl). pose proof Hrel as [R1 R2 R3 R4 R5 R6 R7 R8 R9]. cbn in *.
  assert (Hnq : t ∉ q) by (apply not_queued; rewrite Ef; reflexivity).
  cbn [advance]. unfold Waits.arm. cbn [Waits.fr_queue Waits.fr_node Waits.fr_cancel frame_of]. do 2 wp_step. apply wp_in_kernel.
  assert (Hnode : node_for (kernel wd) (node_of <$> q) (node_of t) t) by (apply (R8 t Ht); rewrite Ef; reflexivity).
  assert (Hnn : node_of t ∉ node_of <$> q) by (intros Hx; apply Hnq, node_queued, Hx).
  eapply wp_mono; [exact (arm_stirred w (kernel wd) _ R1 R4 (node_of t) t v Hnode Hv Hnn) |].
  intros ? s' Hst. do 2 wp_step.
  destruct (insert_split_queue (WaitQueue.prio (tcbs (kernel wd)) (nodes (kernel wd))) node_of t q) as (q' & Hp & E). rewrite E in Hst.
  eapply (follows_stirred wd f g k q m Hrel (thread t) arming polling q' None); [exact Hst | discriminate | | intros x [= <-]; rewrite Ef; auto | discriminate].
  exact (do_arm (thread t) t k q q' m eq_refl Hp).
Qed.

Lemma settle_ok b : f (thread t) = settling b ->
  wp (advance w node_of cx t (settling b)) (fun p wd' => leaves (settling b) p wd') wd.
Proof.
  intros Ef. destruct thread_facts as (sc & L & Hs & I & v & Hinv & Hv & Hr & Em & Hl). pose proof Hrel as [R1 R2 R3 R4 R5 R6 R7 R8 R9]. cbn in *.
  cbn [advance]. unfold Waits.settle. cbn [Waits.fr_thread frame_of]. destruct b.
  - eapply (wait_stirred (settling true) (disarming true) q (Some (t, awake))); [exact Ef | reflexivity | discriminate | exact (do_stay (thread t) t k q m eq_refl) |].
    rewrite <- (running_calm v Hr). exact (dispose_stirred w (kernel wd) _ R1 R4 t v ThreadDisposition.none Hv ltac:(discriminate)).
  - eapply (wait_stirred (settling false) (disarming false) q (if bool_decide (mode_of v = going) then Some (t, asleep) else None));
      [exact Ef | reflexivity | intros x; case_bool_decide; discriminate | |].
    + pose proof (do_sleep (thread t) t k q m eq_refl) as Hd. rewrite Em in Hd.
      destruct (decide (mode_of v = going)) as [E | E]; [rewrite bool_decide_true by exact E | rewrite bool_decide_false by exact E]; exact Hd.
    + destruct (R8 t Ht) as [_ Hni _ _].
      eapply wp_mono; [apply (commit_quietly cx (this_core cx) (kernel wd) sc L Hs I t v R1 R2 Hinv Hv Hmasked eq_refl Hni) |].
      intros ? s' Hq. eapply quietly_stirred; [exact Hq | exact R4].
Qed.

Lemma disarm_ok' b : f (thread t) = disarming b ->
  wp (advance w node_of cx t (disarming b)) (fun p wd' => leaves (disarming b) p wd') wd.
Proof.
  intros Ef. pose proof Hrel as [R1 R2 R3 R4 R5 R6 R7 R8 R9]. cbn in *.
  cbn [advance]. unfold Waits.disarm. cbn [Waits.fr_queue Waits.fr_node Waits.fr_cancel Waits.fr_record frame_of]. do 2 wp_step. apply wp_in_kernel.
  eapply wp_mono; [apply (disarm_stirred w (kernel wd) _ R1 R4 (node_of t)) |]. intros r s' [-> Hst]. rewrite filter_queue in Hst.
  do 5 wp_step. wp_step. unfold Waits.owed. cbn [Waits.fr_record frame_of]. rewrite (bool_decide_true (@None nat = None)), andb_true_r by reflexivity.
  assert (Eb : bool_decide (node_of t ∈ node_of <$> q) = bool_decide (t ∈ q)) by (apply bool_decide_ext, node_queued). rewrite Eb.
  assert (Ep : (if b then if negb (bool_decide (t ∈ q)) then passing_on else outside else repolling) =
    (if b then if bool_decide (t ∈ q) then outside else passing_on else repolling)) by (destruct b, (bool_decide (t ∈ q)); reflexivity).
  rewrite Ep. eapply (follows_stirred wd f g k q m Hrel (thread t) (disarming b) _ _ None);
    [exact Hst | discriminate | exact (do_disarm (thread t) t b k q m eq_refl) | intros x [= <-]; rewrite Ef; auto | discriminate].
Qed.

(** Each piece of a thread's code finishes, and does what the abstract step
    does. *)
Lemma thread_advance_ok : f (thread t) <> outside ->
  wp (advance w node_of cx t (f (thread t))) (fun p wd' => leaves (f (thread t)) p wd') wd.
Proof.
  intros Ho. destruct (f (thread t)) as [| | | | | | b | b | | | n | n | n] eqn:Ef; [contradiction | | | | | | | | | | | |].
  - cbn [advance]. wp_step. eapply wp_mono; [apply (taken_ok wd f g k q m Hrel (thread t) acquiring outside entering) |].
    + intros p [-> | ->]; split; discriminate.
    + intros Hk. constructor. exact Hk.
    + intros Hk. constructor. exact Hk.
    + intros b wd' Hf. wp_step. exact Hf.
  - apply enter_ok, Ef.
  - apply prepare_ok, Ef.
  - apply arm_ok', Ef.
  - cbn [advance]. unfold Waits.poll, try_satisfy, Semaphore.poll. cbn [Waits.fr_cancel frame_of]. do 2 wp_step.
    eapply wp_mono; [apply (taken_ok wd f g k q m Hrel (thread t) polling (settling true) (settling false)) |].
    + intros p [-> | ->]; (split; [intros x [= <-]; rewrite Ef; auto | discriminate]).
    + intros Hk. constructor. exact Hk.
    + intros Hk. constructor. exact Hk.
    + intros b wd' Hf. do 3 wp_step. rewrite orb_false_r. wp_step. destruct b; exact Hf.
  - apply settle_ok, Ef.
  - apply disarm_ok', Ef.
  - cbn [advance]. unfold Waits.pass_on. wp_step.
    eapply wp_mono; [apply (wake_ok cx wd f g k q m Hrel (thread t) passing_on outside Ht Hsane); [constructor | discriminate | discriminate] |].
    intros ? wd' Hf. wp_step. exact Hf.
  - cbn [advance]. unfold Waits.repoll, try_satisfy, Semaphore.poll. cbn [Waits.fr_cancel frame_of]. do 2 wp_step.
    eapply wp_mono; [apply (taken_ok wd f g k q m Hrel (thread t) repolling outside preparing) |].
    + intros p [-> | ->]; (split; [intros x [= <-]; rewrite Ef; auto | discriminate]).
    + intros Hk. constructor. exact Hk.
    + intros Hk. constructor. exact Hk.
    + intros b wd' Hf. destruct b; do 2 wp_step; exact Hf.
  - rewrite <- Ef. cbn [advance]. replace (advance w node_of cx t (f (thread t))) with (advance_release w cx (f (thread t))) by (rewrite Ef; reflexivity).
    apply (advance_release_ok cx wd f g k q m Hrel); auto; rewrite Ef; auto.
  - rewrite <- Ef. replace (advance w node_of cx t (f (thread t))) with (advance_release w cx (f (thread t))) by (rewrite Ef; reflexivity).
    apply (advance_release_ok cx wd f g k q m Hrel); auto; rewrite Ef; auto.
  - rewrite <- Ef. replace (advance w node_of cx t (f (thread t))) with (advance_release w cx (f (thread t))) by (rewrite Ef; reflexivity).
    apply (advance_release_ok cx wd f g k q m Hrel); auto; rewrite Ef; auto.
Qed.
End thread_step.
(** ** Every step of the system *)

Lemma given_same m : given None m = m.
Proof. reflexivity. Qed.

Lemma running_awake sys sp cx t : related sys sp -> this_core cx < cores -> runs (kernel (sy_world sys)) (this_core cx) t ->
  stands sp t <> asleep.
Proof.
  intros [R1 R2 _ _ _ R6 _ _ _] Hc Hrun. destruct (running_core _ _ _ R1 Hc Hrun) as (sc & L & Hs & I & v & _ & Hv & Hr).
  rewrite (R6 t v Hv). destruct (running_mode v Hr (R2 t v Hv)) as [-> | ->]; discriminate.
Qed.

Lemma kernel_step_simulated wd f sp c but s' : related (System wd f) sp ->
  quietly c but (kernel wd) s' -> but = None \/ (exists t, but = Some (t, awake)) ->
  exists sp', spec_step who sp sp' /\ related (System (set_kernel s' wd) f) sp'.
Proof.
  destruct sp as [k q m g]. intros Hrel Hq Hbut. pose proof (re_queue _ _ Hrel) as R4. cbn in R4.
  pose proof (quietly_stirred w c but _ _ _ Hq R4) as Hs. exists (Spec k q (given but m) g). split.
  - destruct Hbut as [-> | [t ->]]; constructor.
  - eapply related_stirred; [exact Hrel | exact Hs |]. destruct Hbut as [-> | [t ->]]; discriminate.
Qed.

Lemma wp_result {S A} (body : M S A) (Q : A -> S -> Prop) s a s' : wp body Q s -> body s = Ok (a, s') -> Q a s'.
Proof. unfold wp. intros HQ E. rewrite E in HQ. exact HQ. Qed.

Lemma step_simulated sys sys' sp : related sys sp -> sane who sp -> step w node_of who sys sys' ->
  exists sp', spec_step who sp sp' /\ related sys' sp'.
Proof.
  intros Hrel Hsane Hstep. destruct Hstep as [a p wd f Ha Hf Hb | cx t p wd wd' f Ht Hc Hrun Hm Hf E | cx p wd wd' f Hh Hf E
    | cx c wd s' f Hc E | cx c wd s' f Hc Hm E | cx t v policy hint wd s' f Hv E].
  - destruct sp as [k q m g]. pose proof (re_at _ _ Hrel a) as Eg. cbn in Eg. exists (Spec k q m (at_point a p g)). split.
    + constructor; [exact Ha | congruence | destruct a, p; try destruct Hb; eauto |].
      intros t ->. assert (Hr : exists c, c < cores /\ runs (kernel wd) c t) by (destruct p; exact Hb || destruct Hb).
      destruct Hr as (c & Hc & Hr). apply (running_awake _ _ (Cpu c true false) t Hrel Hc Hr).
    + apply related_point; [exact Hrel | intros t -> Hp; destruct p; discriminate || destruct Hb |].
      intros c ->. destruct p; try destruct Hb; reflexivity.
  - destruct sp as [k q m g]. pose proof (thread_advance_ok cx wd f g k q m t Hrel Hsane Ht Hc Hrun Hm Hf) as Hok.
    destruct (wp_result _ _ _ _ _ Hok E) as (k' & q' & m' & Hd & Hrel'). eexists. split; [| exact Hrel'].
    constructor; [exact Ht | | pose proof (re_at _ _ Hrel (thread t)) as Eg; cbn in Eg; rewrite Eg; exact Hd].
    intros x [= <-]. exact (running_awake _ _ cx t Hrel Hc Hrun).
  - destruct sp as [k q m g]. pose proof (re_handlers _ _ Hrel _ Hh) as Hr.
    pose proof (advance_release_ok cx wd f g k q m Hrel _ Hh Hsane Hr Hf) as Hok.
    destruct (wp_result _ _ _ _ _ Hok E) as (k' & q' & m' & Hd & Hrel'). eexists. split; [| exact Hrel'].
    constructor; [exact Hh | discriminate | pose proof (re_at _ _ Hrel (handler (this_core cx))) as Eg; cbn in Eg; rewrite Eg; exact Hd].
  - pose proof Hrel as [R1 R2 _ _ _ _ _ _ _]. destruct (proj2 R1 c Hc) as (sc & L & Hs & prev & I & Hinv).
    destruct (st_run _ _ _ _ _ _ (co_status _ _ _ _ _ _ (ci_core _ _ _ _ _ _ _ Hinv)) prev eq_refl) as (v & Hv & _).
    eapply kernel_step_simulated; [exact Hrel | | left; reflexivity].
    exact (wp_result _ _ _ _ _ (handler_quietly cx c _ sc L Hs I prev v R1 R2 Hinv Hv) E).
  - pose proof Hrel as [R1 R2 _ _ _ _ _ _ _]. destruct (proj2 R1 c Hc) as (sc & L & Hs & prev & I & Hinv).
    destruct (st_run _ _ _ _ _ _ (co_status _ _ _ _ _ _ (ci_core _ _ _ _ _ _ _ Hinv)) prev eq_refl) as (v & Hv & _).
    eapply kernel_step_simulated; [exact Hrel | | left; reflexivity].
    exact (wp_result _ _ _ _ _ (yield_quietly cx c _ sc L Hs I prev v R1 R2 Hinv Hv Hm) E).
  - pose proof Hrel as [R1 R2 R3 _ _ _ _ _ _].
    eapply kernel_step_simulated; [exact Hrel | | right; eauto].
    exact (wp_result _ _ _ _ _ (wake_quietly cx _ t v policy R1 R2 Hv (R3 t v Hv)) E).
Qed.

Context (Hwho : NoDup who).

Lemma run_simulated sys sys' : rtc (step w node_of who) sys sys' -> forall sp, related sys sp -> sane who sp ->
  exists sp', rtc (spec_step who) sp sp' /\ related sys' sp' /\ sane who sp'.
Proof.
  induction 1 as [sys | sys sys1 sys' Hstep _ IH]; intros sp Hrel Hsane; [exists sp; split_and!; auto; reflexivity |].
  destruct (step_simulated _ _ _ Hrel Hsane Hstep) as (sp1 & Hs1 & Hrel1).
  destruct (IH sp1 Hrel1 (spec_step_sane who Hwho _ _ Hsane Hs1)) as (sp' & Hs' & Hrel' & Hsane').
  exists sp'. split_and!; auto. eapply rtc_l; eassumption.
Qed.

(** ** Where a system begins *)

(** A kernel that runs, nobody in a call and nobody queued. *)
Record begun (sys : system) : Prop := {
  bg_running : all_running (kernel (sy_world sys));
  bg_lively : lively (tcbs (kernel (sy_world sys)));
  bg_cores : forall t v, tcbs (kernel (sy_world sys)) !! t = Some v -> pinned_core v < cores;
  bg_queue : queue_is w (kernel (sy_world sys)) [];
  bg_tokens : (0 <= object (sy_world sys) < 2 ^ size_width)%Z;
  bg_at : forall a, sy_at sys a = outside;
  bg_members : forall t, thread t ∈ who -> member (kernel (sy_world sys)) [] outside t
}.

Definition beginning (sys : system) : spec :=
  Spec (object (sy_world sys)) []
    (fun t => match tcbs (kernel (sy_world sys)) !! t with Some v => mode_of v | None => awake end) (sy_at sys).

Lemma begun_related sys : begun sys -> related sys (beginning sys) /\ sane who (beginning sys).
Proof.
  intros [B1 B2 B3 B4 B5 B6 B7]. split; split; cbn; auto.
  - intros t v Hv. rewrite Hv. reflexivity.
  - intros t Ht. rewrite B6. apply B7, Ht.
  - intros c _. rewrite B6. reflexivity.
  - apply B5.
  - apply NoDup_nil_2.
  - intros t Ht. inversion Ht.
  - intros t _ Hp. destruct (Hp (B6 _)).
  - intros t _ [Hp | [b Hp]]; rewrite B6 in Hp; discriminate.
  - intros t Ht. inversion Ht.
Qed.

(** What a run of the system reaches. *)
Lemma reached sys sys' : begun sys -> rtc (step w node_of who) sys sys' ->
  exists sp, rtc (spec_step who) (beginning sys) sp /\ related sys' sp /\ sane who sp.
Proof. intros Hb Hrun. destruct (begun_related sys Hb) as [Hrel Hsane]. eapply run_simulated; eassumption. Qed.

End related.
End SemaphoreProofs.
