(* ===== verification/ChannelProofs.v ===== *)
(** * The channel's ring is a bounded FIFO

    Every access to a channel's words is under its spinlock, so any
    interleaving of its callers is a sequence of accesses.  [served] runs one
    on the ring; [promised] on a list of at most [Capacity] values and the
    stop mark.  They answer alike, whatever came before. *)

From S2P Require Import Prelude Chain State ReadyQueue WaitQueue Urgency Scheduler Switch Waking Waits Channel.
Import Channel.

Module ChannelProofs.
Section fifo.
Context {T : Type} (Capacity : nat) (Hcap : 0 < Capacity).
Implicit Types (v : T) (l : list T).
#[local] Abbreviation channel := (Channel.channel T).

(** The accesses, and what each answers. *)
Inductive access := placing (v : T) | placing_or_waiting (v : T) | taking | overwriting (v : T) | halting | polling_readable | polling_writable | counting.
Inductive answer := sent (o : send_outcome) | took (v : option T) (finished : bool) | overwrote (stopped grew : bool)
  | halted (was_running : bool) | says (b : bool) | counted (n : nat).

Definition served (a : access) (c : channel) : answer * channel :=
  match a with
  | placing v => let '(o, c) := place Capacity v c in (sent o, c)
  | placing_or_waiting v => let '(o, c) := place_or_wait Capacity v c in (sent o, c)
  | taking => let '((v, finished), c) := take Capacity c in (took v finished, c)
  | overwriting v => let '((stop, grew), c) := overwrite Capacity v c in (overwrote stop grew, c)
  | halting => let '(b, c) := halt c in (halted b, c)
  | polling_readable => (says (may_receive c), c)
  | polling_writable => (says (may_send Capacity c), c)
  | counting => (counted (occupancy c), c)
  end.

Definition promised (a : access) (s : list T * bool) : answer * (list T * bool) :=
  let '(l, over) := s in
  match a with
  | placing v | placing_or_waiting v =>
      if over then (sent refused, s)
      else if length l =? Capacity then (sent full, s) else (sent queued, (l ++ [v], over))
  | taking =>
      match l with
      | v :: l => (took (Some v) false, (l, over))
      | [] => (took None over, s)
      end
  | overwriting v =>
      if over then (overwrote true false, s)
      else if length l =? Capacity then (overwrote false false, (drop 1 l ++ [v], over))
      else (overwrote false true, (l ++ [v], over))
  | halting => (halted (negb over), (l, true))
  | polling_readable => (says (negb (bool_decide (l = [])) || over), s)
  | polling_writable => (says ((length l <? Capacity) || over), s)
  | counting => (counted (length l), s)
  end.

(** [c] holds the values [l], oldest first. *)
Record holds (c : channel) (l : list T) : Prop := {
  ho_ring : length (ring c) = Capacity;
  ho_head : head c < Capacity;
  ho_occupancy : occupancy c = length l;
  ho_fits : length l <= Capacity;
  ho_tail : tail c = (head c + length l) mod Capacity;
  ho_values : forall i, i < length l -> ring c !! ((head c + i) mod Capacity) = l !! i
}.

Lemma advance_mod i : i < Capacity -> advance Capacity i = (i + 1) mod Capacity.
Proof.
  intros Hi. unfold advance. destruct (Nat.eqb_spec (i + 1) Capacity) as [-> | Hne].
  - rewrite Nat.Div0.mod_same. reflexivity.
  - rewrite Nat.mod_small by lia. reflexivity.
Qed.

Lemma advance_lt i : i < Capacity -> advance Capacity i < Capacity.
Proof. intros Hi. rewrite advance_mod by exact Hi. apply Nat.mod_upper_bound. lia. Qed.

Lemma advance_then i n : i < Capacity -> (advance Capacity i + n) mod Capacity = (i + S n) mod Capacity.
Proof. intros Hi. rewrite advance_mod by exact Hi. rewrite Nat.Div0.add_mod_idemp_l. f_equal. lia. Qed.

(** Distinct places within a ring's length of each other. *)
Lemma apart h i j : i < j -> j < i + Capacity -> (h + i) mod Capacity <> (h + j) mod Capacity.
Proof.
  intros H1 H2 E. pose proof (Nat.div_mod_eq (h + i) Capacity) as A. pose proof (Nat.div_mod_eq (h + j) Capacity) as B.
  rewrite E in A. set (p := (h + i) / Capacity) in *. set (q := (h + j) / Capacity) in *.
  assert (Hpq : p = q \/ p + 1 <= q \/ q + 1 <= p) by lia. destruct Hpq as [-> | [Hpq | Hpq]]; nia.
Qed.

(** A value put in where [length l] leaves room. *)
Lemma put_holds c l v n s : holds c l -> length l < Capacity -> n = length l + 1 ->
  holds (Words (<[tail c := v]> (ring c)) (head c) (advance Capacity (tail c)) n s) (l ++ [v]).
Proof.
  intros [H1 H2 H3 H4 H5 H6] Hroom ->.
  assert (Ht : tail c < Capacity) by (rewrite H5; apply Nat.mod_upper_bound; lia).
  split; cbn; [rewrite length_insert; exact H1 | exact H2 | rewrite length_app; reflexivity | rewrite length_app; cbn; lia | |].
  - rewrite advance_mod, H5, Nat.Div0.add_mod_idemp_l, length_app by exact Ht. cbn. f_equal. lia.
  - intros i Hi. rewrite length_app in Hi. cbn in Hi. destruct (decide (i = length l)) as [-> | Hne].
    + rewrite <- H5, list_lookup_insert_eq by lia. rewrite lookup_app_r, Nat.sub_diag by lia. reflexivity.
    + rewrite list_lookup_insert_ne by (rewrite H5; apply not_eq_sym, apart; lia). rewrite lookup_app_l by lia. apply H6. lia.
Qed.

(** The oldest value gone. *)
Lemma drop_holds c v l n s : holds c (v :: l) -> n = length l ->
  ring c !! head c = Some v /\ holds (Words (ring c) (advance Capacity (head c)) (tail c) n s) l.
Proof.
  intros [H1 H2 H3 H4 H5 H6] ->. cbn [length] in *. split.
  - rewrite <- (Nat.mod_small (head c) Capacity) by exact H2. rewrite <- (Nat.add_0_r (head c)). apply (H6 0). lia.
  - split; cbn; [exact H1 | apply advance_lt, H2 | reflexivity | lia | |].
    + rewrite advance_then by exact H2. exact H5.
    + intros i Hi. rewrite advance_then by exact H2. apply (H6 (S i)). lia.
Qed.

Lemma halted_holds c l s : holds c l -> holds (Words (ring c) (head c) (tail c) (occupancy c) s) l.
Proof. intros [H1 H2 H3 H4 H5 H6]. split; assumption. Qed.

(** One access: the same answer, and the values stay in step. *)
Lemma served_promised a c l : holds c l ->
  (served a c).1 = (promised a (l, stopped c)).1 /\
  exists l', (promised a (l, stopped c)).2 = (l', stopped (served a c).2) /\ holds (served a c).2 l'.
Proof.
  intros Hc. pose proof Hc as [H1 H2 H3 H4 H5 H6]. destruct a as [v | v | | v | | | |]; cbn [served promised].
  - unfold place. rewrite H3. destruct (stopped c) eqn:Es; [cbn; rewrite Es; eauto |].
    destruct (Nat.eqb_spec (length l) Capacity); cbn; [rewrite Es; eauto |]. split; [reflexivity |]. exists (l ++ [v]).
    split; [rewrite Es; reflexivity |]. apply put_holds; [exact Hc | lia | rewrite H3; reflexivity].
  - unfold place_or_wait. rewrite H3. destruct (stopped c) eqn:Es; [cbn; rewrite Es; eauto |].
    destruct (Nat.ltb_spec (length l) Capacity); cbn.
    + rewrite (proj2 (Nat.eqb_neq _ _)) by lia. split; [reflexivity |]. exists (l ++ [v]).
      split; [rewrite Es; reflexivity |]. apply put_holds; [exact Hc | lia | rewrite H3; reflexivity].
    + rewrite (proj2 (Nat.eqb_eq _ _)) by lia. cbn. rewrite Es. eauto.
  - unfold take, take_locked. rewrite H3. destruct l as [| v l]; cbn; [eauto |].
    destruct (drop_holds c v l (occupancy c - 1) (stopped c) Hc) as [Ev Hd]; [rewrite H3; cbn; lia |]. rewrite H3 in Hd. rewrite Ev. cbn in Hd. eauto.
  - unfold overwrite. rewrite H3. destruct (stopped c) eqn:Es; [cbn; rewrite Es; eauto |].
    destruct (Nat.eqb_spec (length l) Capacity) as [Hfull | Hroom]; cbn; (split; [reflexivity |]).
    + destruct l as [| u l]; [cbn in Hfull; lia |]. exists (l ++ [v]). split; [reflexivity |].
      destruct (drop_holds c u l (length l) (stopped c) Hc eq_refl) as [_ Hd]. rewrite Es in Hd.
      pose proof (put_holds _ l v (length l + 1) false Hd ltac:(cbn in H4; lia) eq_refl) as Hp. cbn in Hp |- *.
      rewrite Nat.add_1_r in Hp. exact Hp.
    + exists (l ++ [v]). split; [reflexivity |]. apply (put_holds c l v _ false Hc); lia.
  - unfold halt. destruct (stopped c) eqn:Es; cbn; rewrite ?Es; eauto using halted_holds.
  - unfold may_receive. rewrite H3. cbn. destruct l; cbn; eauto.
  - unfold may_send. rewrite H3. cbn. eauto.
  - cbn. rewrite H3. eauto.
Qed.

(** A run of accesses, and its answers. *)
Fixpoint answers {S} (serve : access -> S -> answer * S) (os : list access) (s : S) : list answer :=
  match os with
  | [] => []
  | a :: os => let '(r, s) := serve a s in r :: answers serve os s
  end.

Lemma answers_promised os : forall c l, holds c l -> answers served os c = answers promised os (l, stopped c).
Proof.
  induction os as [| a os IH]; intros c l Hc; [reflexivity |]. destruct (served_promised a c l Hc) as (Ea & l' & Es & Hc').
  cbn [answers]. destruct (served a c) as [r c']. destruct (promised a (l, stopped c)) as [r' s']. cbn in *. subst r s'.
  f_equal. apply IH, Hc'.
Qed.

Lemma new_holds default : holds (new_channel Capacity default) [].
Proof.
  split; cbn; [apply length_replicate | exact Hcap | reflexivity | lia | symmetry; apply Nat.Div0.mod_0_l | lia].
Qed.
End fifo.
End ChannelProofs.
