(* ===== verification/TraceLog.v ===== *)
(** * The trace recorder and its byte stream

    trace.cpp's log, one ring per core between two free-running 32-bit
    counters, and stream.hpp's [stream_writer], which drains the logs into
    packets.  A time stamp is the port's, and given. *)

From S2P Require Import Prelude State ReadyQueue WaitQueue Urgency.

Module TraceLog.
(** [trace::record]. *)
Record record := MkRecord {
  timestamp : Z;
  object : Z;
  thread : Z;
  what : Trace.event;
  core : Z;
  priority : Z;
  reserved : Z
}.

Definition zero_record : record := MkRecord 0 0 0 Trace.thread_created 0 0 0.

Record core_log := CoreLog {
  log_head : Z;
  log_tail : Z;
  log_dropped : Z;
  slots : list record
}.

Definition set_log_head (x : Z) (r : core_log) : core_log := CoreLog x (log_tail r) (log_dropped r) (slots r).
Definition set_log_tail (x : Z) (r : core_log) : core_log := CoreLog (log_head r) x (log_dropped r) (slots r).
Definition set_log_dropped (x : Z) (r : core_log) : core_log := CoreLog (log_head r) (log_tail r) x (slots r).
Definition set_slots (x : list record) (r : core_log) : core_log := CoreLog (log_head r) (log_tail r) (log_dropped r) x.

(** [logs], an entry per core, or none when tracing is off. *)
Definition T := M (list core_log).
Definition get_log (c : nat) : T core_log :=
  fun s => match s !! c with Some l => Ok (l, s) | None => Panic bad_pointer end.
Definition modify_log (c : nat) (f : core_log -> core_log) : T unit :=
  fun s => match s !! c with Some l => Ok (tt, <[c := f l]> s) | None => Panic bad_pointer end.

Section log.
Context `{Config}.

Definition enabled : bool := 0 <? trace_records_per_core.

Definition new_log : core_log := CoreLog 0 0 0 (replicate trace_records_per_core zero_record).
Definition new_logs : list core_log := replicate (if enabled then cores else 0) new_log.

(** The slot a counter names: the capacity is a power of two. *)
Definition slot_of (counter : Z) : nat :=
  Z.to_nat (Z.land counter (Z.of_nat trace_records_per_core - 1)).

Definition append_on_this_core (this_core : nat) (now : Z) (what : Trace.event) (thread core priority object : Z) : T unit :=
  let* logs := kget (fun s => s) in
  kensure assert_failed (this_core <? length logs) ;;*
  let* log := get_log this_core in
  let head := log_head log in
  let tail := log_tail log in
  if (u32 (head - tail) =? Z.of_nat trace_records_per_core)%Z then
    modify_log this_core (set_log_dropped (u32 (log_dropped log + 1)))
  else
    modify_log this_core
      (set_slots (<[slot_of head := MkRecord now object thread what core priority 0]> (slots log))) ;;*
    modify_log this_core (set_log_head (u32 (head + 1))).

(** The address of a mutex a thread is blocked on, null being 0. *)
Definition address (p : option nat) : Z := match p with Some m => Z.of_nat m | None => 0 end.

(** [append], reading the subject in the kernel's state [k]. *)
Definition append (k : kernel_state) (this_core : nat) (now : Z) (what : Trace.event) (subject : nat) (object : Z) : T unit :=
  if enabled then
    let* v := klift (deref (tcbs k) subject) in
    let* priority := match what with
                     | Trace.thread_running => klift (Urgency.urgency (tcbs k) (nodes k) (mutexes k) subject)
                     | _ => kret (base_priority v)
                     end in
    let object := match what with Trace.thread_blocked => address (blocked_on v) | _ => object end in
    append_on_this_core this_core now what (thread_id v) (u8 (Z.of_nat (pinned_core v))) (Z.of_nat priority) object
  else kret tt.

Definition reset : T unit :=
  kmodify (fmap (fun log => set_log_dropped 0 (set_log_tail 0 (set_log_head 0 log)))).

(** The copy loop of [read]. *)
Definition copied (log : core_log) (tail : Z) (count : nat) : list record :=
  (fun i => default zero_record (slots log !! slot_of (tail + Z.of_nat i))) <$> seq 0 count.

(** [read], into a span of [size] records. *)
Definition read (c size : nat) : T (list record) :=
  if enabled then
    let* logs := kget (fun s => s) in
    kensure require_failed (c <? length logs) ;;*
    let* log := get_log c in
    let tail := log_tail log in
    let head := log_head log in
    let count := Z.to_nat (u32 (head - tail)) `min` size in
    let out := copied log tail count in
    modify_log c (set_log_tail (u32 (tail + Z.of_nat count))) ;;*
    kret out
  else kret [].

Definition dropped (c : nat) : T Z :=
  if enabled then
    let* logs := kget (fun s => s) in
    kensure require_failed (c <? length logs) ;;*
    let* log := get_log c in
    kret (log_dropped log)
  else kret 0%Z.

(** [user], from the calling thread's block. *)
Definition user (this_core : nat) (now : Z) (self : thread_control_block) (tag value : Z) : T unit :=
  if enabled then
    append_on_this_core this_core now Trace.user (thread_id self) (u8 (Z.of_nat (pinned_core self))) tag value
  else kret tt.

(** ** Specification *)

(** A log's records, oldest first. *)
Definition held (log : core_log) : list record :=
  copied log (log_tail log) (Z.to_nat (u32 (log_head log - log_tail log))).

Record log_ok (log : core_log) : Prop := {
  lo_slots : length (slots log) = trace_records_per_core;
  lo_head : (0 <= log_head log < 2 ^ 32)%Z;
  lo_tail : (0 <= log_tail log < 2 ^ 32)%Z;
  lo_room : (u32 (log_head log - log_tail log) <= Z.of_nat trace_records_per_core)%Z
}.
End log.
End TraceLog.
