(* ===== verification/TraceLogProofs.v ===== *)
(** * The trace log is a bounded queue *)

From S2P Require Import Prelude State ReadyQueue WaitQueue Urgency TraceLog.

Import TraceLog.

(** A power of two, from the test validate_config.cpp makes. *)
Lemma power_of_two (n : Z) : (0 < n)%Z -> Z.land n (n - 1) = 0%Z -> exists k : Z, (0 <= k)%Z /\ n = (2 ^ k)%Z.
Proof.
  intros Hn Hl. exists (Z.log2 n). split; [apply Z.log2_nonneg |]. pose proof (Z.log2_spec n Hn) as [H1 H2].
  destruct (Z.eq_dec n (2 ^ Z.log2 n)%Z) as [E | Hne]; [exact E | exfalso].
  assert (Hp : (0 < 2 ^ Z.log2 n)%Z) by (apply Z.pow_pos_nonneg; [lia | apply Z.log2_nonneg]).
  assert (Hb : Z.testbit (Z.land n (n - 1)) (Z.log2 n) = true).
  { rewrite Z.land_spec, Z.bit_log2 by exact Hn. replace (Z.log2 n) with (Z.log2 (n - 1)) at 1; [apply Z.bit_log2; lia |].
    apply Z.log2_unique; [apply Z.log2_nonneg |]. lia. }
  rewrite Hl, Z.bits_0 in Hb. discriminate.
Qed.

Section ring.
Context `{Config} (Hon : 0 < trace_records_per_core) (Hfit : (Z.of_nat trace_records_per_core < 2 ^ 32)%Z).
Local Abbreviation N := (Z.of_nat trace_records_per_core).

Lemma capacity_pos : (0 < N)%Z.
Proof. lia. Qed.

Lemma capacity_power : exists k : Z, (0 <= k)%Z /\ N = (2 ^ k)%Z.
Proof. apply power_of_two; [lia | apply trace_records_valid]. Qed.

Lemma slot_of_mod c : (0 <= c)%Z -> slot_of c = Z.to_nat (c mod N).
Proof.
  intros Hc. unfold slot_of. destruct capacity_power as (k & Hk & ->).
  replace (2 ^ k - 1)%Z with (Z.ones k) by (rewrite Z.ones_equiv; lia).
  rewrite Z.land_ones by exact Hk. reflexivity.
Qed.

(** The counters wrap at a multiple of the capacity. *)
Lemma wrapped_mod c : (u32 c mod N = c mod N)%Z.
Proof.
  destruct capacity_power as (k & Hk & E). rewrite E in Hfit |- *.
  assert (Hk32 : (k < 32)%Z) by (apply (Z.pow_lt_mono_r_iff 2); lia).
  unfold u32, wrap. apply Z.mod_mod_divide. exists (2 ^ (32 - k))%Z. rewrite <- Z.pow_add_r by lia. f_equal. lia.
Qed.

Lemma slot_lt c : (0 <= c)%Z -> slot_of c < trace_records_per_core.
Proof. intros Hc. rewrite slot_of_mod by exact Hc. pose proof (Z.mod_pos_bound c N capacity_pos). lia. Qed.

Lemma slot_wrapped c : (0 <= c)%Z -> slot_of (u32 c) = slot_of c.
Proof.
  intros Hc. assert (Hu : (0 <= u32 c)%Z) by (apply Z.mod_pos_bound; lia). rewrite !slot_of_mod, wrapped_mod by assumption. reflexivity.
Qed.

Lemma slot_shift a b : (0 <= a)%Z -> (0 <= b)%Z -> slot_of (u32 a + b) = slot_of (a + b).
Proof.
  intros Ha Hb. assert (Hu : (0 <= u32 a)%Z) by (apply Z.mod_pos_bound; lia).
  rewrite !slot_of_mod by lia. rewrite (Zplus_mod (u32 a)), wrapped_mod, <- Zplus_mod. reflexivity.
Qed.

(** Fewer than a capacity apart, two counters name two slots. *)
Lemma slot_apart a b : (0 <= a)%Z -> (a < b < a + N)%Z -> slot_of a <> slot_of b.
Proof.
  intros Ha Hb. rewrite !slot_of_mod by lia.
  pose proof (Z.mod_pos_bound a N capacity_pos). pose proof (Z.mod_pos_bound b N capacity_pos).
  intros E. apply (f_equal Z.of_nat) in E. rewrite !Z2Nat.id in E by lia.
  pose proof (Z_div_mod_eq_full a N) as Ea. pose proof (Z_div_mod_eq_full b N) as Eb. rewrite E in Ea.
  assert (Ed : (b - a = N * (b / N - a / N))%Z) by lia. generalize dependent (b / N - a / N)%Z. intros d Ed.
  destruct (Z.le_gt_cases d 0); nia.
Qed.

(** ** One log *)

Definition size (log : core_log) : Z := u32 (log_head log - log_tail log).

Lemma size_range log : (0 <= size log < 2 ^ 32)%Z.
Proof. apply Z.mod_pos_bound. lia. Qed.

Lemma held_length log : length (held log) = Z.to_nat (size log).
Proof. unfold held, copied. rewrite length_fmap, length_seq. reflexivity. Qed.

(** The head is where the held records end. *)
Lemma head_is log : log_ok log -> log_head log = u32 (log_tail log + size log).
Proof.
  intros [_ Hh _ _]. unfold size, u32, wrap in *. rewrite Zplus_mod_idemp_r.
  replace (log_tail log + (log_head log - log_tail log))%Z with (log_head log) by lia. symmetry. apply Z.mod_small, Hh.
Qed.

(** The record a counter's slot holds. *)
Definition at_slot (log : core_log) (counter : Z) : record := default zero_record (slots log !! slot_of counter).

Lemma held_snoc log n : (0 <= n)%Z -> (fun i => at_slot log (log_tail log + Z.of_nat i)) <$> seq 0 (S (Z.to_nat n)) =
  ((fun i => at_slot log (log_tail log + Z.of_nat i)) <$> seq 0 (Z.to_nat n)) ++ [at_slot log (log_tail log + n)].
Proof. intros Hn. rewrite seq_S, fmap_app. cbn. rewrite Z2Nat.id by exact Hn. reflexivity. Qed.

(** Room: the record is last, and nothing else moves. *)
Lemma append_room log r : log_ok log -> size log <> N ->
  let log' := set_log_head (u32 (log_head log + 1)) (set_slots (<[slot_of (log_head log) := r]> (slots log)) log) in
  log_ok log' /\ held log' = held log ++ [r].
Proof.
  intros Hok Hne log'. pose proof Hok as [Hl Hh Ht Hr]. pose proof (size_range log) as Hs. fold (size log) in Hr.
  assert (Hsize : size log' = (size log + 1)%Z).
  { unfold size at 1, log'. cbn. unfold u32, wrap. rewrite Zminus_mod_idemp_l.
    replace (log_head log + 1 - log_tail log)%Z with (log_head log - log_tail log + 1)%Z by lia.
    rewrite <- Zplus_mod_idemp_l. fold (wrap 32 (log_head log - log_tail log)). fold (u32 (log_head log - log_tail log)).
    fold (size log). apply Z.mod_small. lia. }
  split.
  - split; [cbn; rewrite length_insert; exact Hl | apply Z.mod_pos_bound; lia | exact Ht |].
    fold (size log'). lia.
  - unfold held. fold (size log') (size log). rewrite Hsize. change (log_tail log') with (log_tail log).
    replace (Z.to_nat (size log + 1)) with (S (Z.to_nat (size log))) by lia. unfold copied.
    change (fun i => default zero_record (slots log' !! slot_of (log_tail log + Z.of_nat i))) with (fun i => at_slot log' (log_tail log' + Z.of_nat i)).
    rewrite held_snoc by lia. change (log_tail log') with (log_tail log).
    assert (Hslot : slot_of (log_head log) = slot_of (log_tail log + size log)) by (rewrite (head_is log Hok); apply slot_wrapped; lia).
    f_equal.
    + apply list_fmap_ext. intros j i Hi. apply lookup_seq in Hi as [-> Hi]. unfold at_slot, log'. cbn [slots set_log_head set_slots].
      rewrite list_lookup_insert_ne; [reflexivity |]. rewrite Hslot. intros E. revert E. apply not_eq_sym, slot_apart; lia.
    + unfold at_slot, log'. cbn [slots set_log_head set_slots]. rewrite <- Hslot, list_lookup_insert_eq; [reflexivity |].
      rewrite Hl. apply slot_lt, Hh.
Qed.

(** A read takes from the front. *)
Lemma read_front log count : log_ok log -> (Z.of_nat count <= size log)%Z ->
  let log' := set_log_tail (u32 (log_tail log + Z.of_nat count)) log in
  log_ok log' /\ copied log (log_tail log) count = take count (held log) /\ held log' = drop count (held log).
Proof.
  intros Hok Hc log'. pose proof Hok as [Hl Hh Ht Hr]. pose proof (size_range log) as Hs. fold (size log) in Hr.
  assert (Hsize : size log' = (size log - Z.of_nat count)%Z).
  { unfold size at 1, log'. cbn. unfold u32, wrap. rewrite Zminus_mod_idemp_r.
    replace (log_head log - (log_tail log + Z.of_nat count))%Z with (log_head log - log_tail log - Z.of_nat count)%Z by lia.
    rewrite <- Zminus_mod_idemp_l. fold (wrap 32 (log_head log - log_tail log)). fold (u32 (log_head log - log_tail log)).
    fold (size log). apply Z.mod_small. lia. }
  assert (Hcount : count <= Z.to_nat (size log)) by lia.
  split_and!.
  - split; [exact Hl | exact Hh | apply Z.mod_pos_bound; lia |]. fold (size log'). lia.
  - unfold held. fold (size log). unfold copied. rewrite <- fmap_take, take_seq. f_equal. f_equal. lia.
  - unfold held. fold (size log') (size log). rewrite Hsize. unfold copied. rewrite <- fmap_drop, drop_seq.
    replace (Z.to_nat (size log - Z.of_nat count)) with (Z.to_nat (size log) - count) by lia.
    apply list_eq. intros i. rewrite !list_lookup_fmap. destruct (decide (i < Z.to_nat (size log) - count)) as [Hi | Hi].
    + rewrite !lookup_seq_lt by exact Hi. cbn. do 2 f_equal. rewrite slot_shift by lia. do 2 f_equal. lia.
    + rewrite !lookup_seq_ge by lia. reflexivity.
Qed.

(** ** The operations *)

Lemma append_ok c log s now what th co pr ob : s !! c = Some log -> log_ok log ->
  wp (append_on_this_core c now what th co pr ob)
    (fun _ s' => exists log', s' = <[c := log']> s /\ log_ok log' /\
       if length (held log) =? trace_records_per_core then
         held log' = held log /\ log_dropped log' = u32 (log_dropped log + 1)
       else held log' = held log ++ [MkRecord now ob th what co pr 0] /\ log_dropped log' = log_dropped log) s.
Proof.
  intros Hc Hok. unfold append_on_this_core. wp_step. wp_step. wp_step. wp_step; [apply Nat.ltb_lt; eapply lookup_lt_Some, Hc |].
  wp_step. unfold wp at 1, get_log. rewrite Hc. cbv beta iota. fold (size log). rewrite held_length.
  pose proof (size_range log) as Hs.
  destruct (Z.eqb_spec (size log) N) as [E | Hne].
  - rewrite (proj2 (Nat.eqb_eq _ _)) by lia. unfold wp, modify_log. rewrite Hc. eexists. split_and!; [reflexivity | | reflexivity | reflexivity].
    destruct Hok; split; assumption.
  - rewrite (proj2 (Nat.eqb_neq _ _)) by lia. destruct (append_room log (MkRecord now ob th what co pr 0) Hok Hne) as [Hok' Hheld].
    wp_step. unfold wp at 1, modify_log at 1. rewrite Hc. unfold wp, modify_log.
    rewrite list_lookup_insert_eq by (eapply lookup_lt_Some, Hc). rewrite list_insert_insert_eq. eexists. split_and!; [reflexivity | exact Hok' | exact Hheld | reflexivity].
Qed.

Lemma read_ok c log s n : s !! c = Some log -> log_ok log ->
  wp (read c n)
    (fun out s' => out = take n (held log) /\ exists log', s' = <[c := log']> s /\ log_ok log' /\
       held log' = drop n (held log) /\ log_dropped log' = log_dropped log) s.
Proof.
  intros Hc Hok. unfold read. unfold enabled. rewrite (proj2 (Nat.ltb_lt _ _) Hon).
  wp_step. wp_step. wp_step. wp_step; [apply Nat.ltb_lt; eapply lookup_lt_Some, Hc |].
  wp_step. unfold wp at 1, get_log. rewrite Hc. cbv beta iota zeta. fold (size log).
  wp_step. unfold wp at 1, modify_log. rewrite Hc. wp_step. pose proof (size_range log) as Hs.
  destruct (read_front log (Z.to_nat (size log) `min` n) Hok ltac:(lia)) as (Hok' & Ec & Eh). rewrite Ec.
  assert (Et : take (Z.to_nat (size log) `min` n) (held log) = take n (held log)).
  { rewrite <- held_length, Nat.min_comm, <- take_take, firstn_all. reflexivity. }
  split; [exact Et |]. eexists. split_and!; [reflexivity | exact Hok' | | reflexivity]. rewrite Eh.
  destruct (Nat.le_gt_cases (Z.to_nat (size log)) n) as [Hle | Hgt].
  - rewrite Nat.min_l by lia. rewrite !drop_ge by (rewrite held_length; lia). reflexivity.
  - rewrite Nat.min_r by lia. reflexivity.
Qed.
End ring.
