(* ===== verification/Stream.v ===== *)
(** * The trace stream: stream.hpp

    [stream_writer] drains the logs into packets and hands each to its sink
    whole.  What the sink was given so far is part of the writer's state, the
    first packet first.  A byte is a [Z] below 256. *)

From S2P Require Import Prelude State ReadyQueue WaitQueue Urgency TraceLog.

Module Packet.
Inductive packet := header | records | dropped | thread_name | object_name | tag_name.
#[global] Instance packet_eq_dec : EqDecision packet.
Proof. solve_decision. Defined.

Definition value (p : packet) : Z :=
  match p with
  | header => 1 | records => 2 | dropped => 3 | thread_name => 4 | object_name => 5 | tag_name => 6
  end.
End Packet.

Module Stream.
Import TraceLog.

Definition stream_version : Z := 1.
Definition stream_record_size : nat := 24.
Definition max_name : nat := 64.
Definition records_per_packet : nat := 16.

Abbreviation packet := Packet.packet.

(** The underlying value of a [trace::event]. *)
Definition event_value (e : Trace.event) : Z :=
  match e with
  | Trace.thread_created => 0 | Trace.thread_ready => 1 | Trace.thread_running => 2 | Trace.thread_blocked => 3
  | Trace.thread_terminated => 4 | Trace.remote_wake => 5 | Trace.mutex_acquired => 6 | Trace.mutex_released => 7
  | Trace.user => 8
  end.

(** ** [packet_buffer] *)

Definition little_endian (value : Z) (width : nat) : list Z :=
  (fun i => Z.land (Z.shiftr value (8 * Z.of_nat i)) 255) <$> seq 0 width.

(** Each member takes its parameter at its own width. *)
Definition w8 (value : Z) : list Z := [u8 value].
Definition w16 (value : Z) : list Z := little_endian (wrap 16 value) 2.
Definition w32 (value : Z) : list Z := little_endian (u32 value) 4.
Definition w64 (value : Z) : list Z := little_endian (u64 value) 8.
Definition name (value : list Z) : list Z := take max_name value.

(** [finish]: the head filled in over the payload. *)
Definition finish (kind : packet) (payload : list Z) : list Z :=
  let length := Z.of_nat (length payload) in
  u8 (Packet.value kind) :: Z.land length 255 :: u8 (Z.shiftr length 8) :: payload.

Definition encode_record (r : record) : list Z :=
  w64 (timestamp r) ++ w64 (object r) ++ w32 (thread r) ++ w8 (event_value (what r)) ++
  w8 (core r) ++ w8 (priority r) ++ w8 (reserved r).

(** ** [stream_writer] *)

Record writer := Writer {
  sink : list (list Z);
  reported_dropped : list Z
}.
Definition set_sink (x : list (list Z)) (r : writer) : writer := Writer x (reported_dropped r).
Definition set_reported_dropped (x : list Z) (r : writer) : writer := Writer (sink r) x.

(** The writer and the logs it reads. *)
Definition W := M (writer * list core_log).
Definition on_logs {A} (m : T A) : W A :=
  fun s => match m s.2 with Ok (a, logs) => Ok (a, (s.1, logs)) | Panic c => Panic c end.
Definition emit (kind : packet) (payload : list Z) : W unit :=
  kmodify (fun s => (set_sink (sink s.1 ++ [finish kind payload]) s.1, s.2)).

Section writer.
Context `{Config}.

Definition header_payload (timestamp_hz : Z) : list Z :=
  [67; 89; 84; 82]%Z ++ w16 stream_version ++ w16 (Z.of_nat cores) ++ w64 timestamp_hz.

(** The constructor, on a writer with nothing written. *)
Definition construct (timestamp_hz : Z) : W unit :=
  kmodify (fun s => (Writer [] (replicate cores 0%Z), s.2)) ;;*
  emit Packet.header (header_payload timestamp_hz).

Definition name_thread (thread : Z) (value : list Z) : W unit :=
  emit Packet.thread_name (w32 thread ++ name value).
Definition name_object (object : Z) (value : list Z) : W unit :=
  emit Packet.object_name (w64 object ++ name value).
Definition name_tag (tag : Z) (value : list Z) : W unit :=
  emit Packet.tag_name (w8 tag ++ name value).

Definition records_payload (c : nat) (rs : list record) : list Z :=
  w8 (Z.of_nat c) ++ concat (encode_record <$> rs).

Definition budget : nat := trace_records_per_core `max` 1.

(** The loop of [drain]: a round writes a record at least, so the budget
    bounds the rounds. *)
Fixpoint drain_rounds (fuel : nat) (c : nat) (written : nat) : W nat :=
  if negb (written <? budget) then kret written
  else
    match fuel with
    | O => klift (Panic out_of_fuel)
    | S fuel =>
        let* chunk := on_logs (read c records_per_packet) in
        let count := length chunk in
        if count =? 0 then kret written
        else
          emit Packet.records (records_payload c chunk) ;;*
          let written := written + count in
          if count <? records_per_packet then kret written else drain_rounds fuel c written
    end.

Definition drain (c : nat) : W nat :=
  kensure require_failed (c <? cores) ;;*
  let* written := drain_rounds budget c 0 in
  let* total := on_logs (TraceLog.dropped c) in
  let* reported := kget (fun s => reported_dropped s.1 !! c) in
  let* before := klift (match reported with Some d => Ok d | None => Panic bad_pointer end) in
  (if negb (total =? before)%Z then
     emit Packet.dropped (w8 (Z.of_nat c) ++ w32 total) ;;*
     kmodify (fun s => (set_reported_dropped (<[c := total]> (reported_dropped s.1)) s.1, s.2))
   else kret tt) ;;*
  kret written.

(** [drain], every core. *)
Fixpoint drain_cores (todo c written : nat) : W nat :=
  match todo with
  | O => kret written
  | S todo => let* n := drain c in drain_cores todo (S c) (written + n)
  end.
Definition drain_all : W nat := drain_cores cores 0 0.
End writer.

(** ** The format, read back

    A reader of the format stream.hpp documents: packets by their length, and
    in a records packet records of 24 bytes. *)

Fixpoint from_bytes (bs : list Z) : Z :=
  match bs with [] => 0 | b :: bs => (b + 256 * from_bytes bs)%Z end.

Fixpoint parse (fuel : nat) (bs : list Z) : option (list (Z * list Z)) :=
  match bs with
  | [] => Some []
  | kind :: lo :: hi :: rest =>
      match fuel with
      | O => None
      | S fuel =>
          let n := Z.to_nat (from_bytes [lo; hi]) in
          if length rest <? n then None
          else
            match parse fuel (drop n rest) with
            | Some ps => Some ((kind, take n rest) :: ps)
            | None => None
            end
      end
  | _ => None
  end.

Definition event_of (v : Z) : option Trace.event :=
  match v with
  | 0 => Some Trace.thread_created | 1 => Some Trace.thread_ready | 2 => Some Trace.thread_running
  | 3 => Some Trace.thread_blocked | 4 => Some Trace.thread_terminated | 5 => Some Trace.remote_wake
  | 6 => Some Trace.mutex_acquired | 7 => Some Trace.mutex_released | 8 => Some Trace.user
  | _ => None
  end%Z.

Definition decode_record (bs : list Z) : option record :=
  e ← event_of (from_bytes (take 1 (drop 20 bs)));
  Some (MkRecord (from_bytes (take 8 bs)) (from_bytes (take 8 (drop 8 bs))) (from_bytes (take 4 (drop 16 bs))) e
    (from_bytes (take 1 (drop 21 bs))) (from_bytes (take 1 (drop 22 bs))) (from_bytes (take 1 (drop 23 bs)))).

Fixpoint decode_records (fuel : nat) (bs : list Z) : option (list record) :=
  match bs, fuel with
  | [], _ => Some []
  | _, O => None
  | _, S fuel =>
      if length bs <? stream_record_size then None
      else
        match decode_record (take stream_record_size bs), decode_records fuel (drop stream_record_size bs) with
        | Some r, Some rs => Some (r :: rs)
        | _, _ => None
        end
  end.

(** What a reader takes from a core's packets: its records, and its last
    dropped count. *)
Definition core_records (c : Z) (ps : list (Z * list Z)) : option (list record) :=
  foldr (fun p acc =>
    match acc with
    | None => None
    | Some rs =>
        match p with
        | (2, b :: bs)%Z => if (b =? c)%Z then match decode_records (length bs) bs with Some r => Some (r ++ rs) | None => None end else Some rs
        | _ => Some rs
        end
    end) (Some []) ps.

Definition core_dropped (c : Z) (ps : list (Z * list Z)) : option Z :=
  last (omap (fun p => match p with (3, b :: bs)%Z => if (b =? c)%Z then Some (from_bytes bs) else None | _ => None end) ps).
End Stream.
