(* ===== verification/TraceProperties.v ===== *)
(** * What the stream writes, a reader of the format reads back, and the
    properties of the trace *)

From S2P Require Import Prelude State ReadyQueue WaitQueue Urgency TraceLog TraceLogProofs Stream.
Import TraceLog Stream.

(** ** Little-endian integers *)

Lemma little_endian_S v w : little_endian v (S w) = Z.land v 255 :: little_endian (Z.shiftr v 8) w.
Proof.
  unfold little_endian. cbn [seq fmap list_fmap]. f_equal.
  rewrite <- fmap_S_seq, <- list_fmap_compose. apply list_fmap_ext. intros i x _. unfold compose.
  rewrite Z.shiftr_shiftr by lia. do 2 f_equal. lia.
Qed.

Lemma length_little_endian v w : length (little_endian v w) = w.
Proof. unfold little_endian. rewrite length_fmap, length_seq. reflexivity. Qed.

Lemma from_little_endian w : forall v, (0 <= v < 256 ^ Z.of_nat w)%Z -> from_bytes (little_endian v w) = v.
Proof.
  induction w as [| w IH]; intros v Hv; [cbn in *; lia |].
  rewrite little_endian_S. cbn [from_bytes]. rewrite Nat2Z.inj_succ, Z.pow_succ_r in Hv by lia.
  change 255%Z with (Z.ones 8). rewrite Z.land_ones, Z.shiftr_div_pow2 by lia. change (2 ^ 8)%Z with 256%Z.
  rewrite IH; [pose proof (Z.div_mod v 256); lia |].
  split; [apply Z.div_pos; lia | apply Z.div_lt_upper_bound; lia].
Qed.

Lemma w64_back v : (0 <= v < 2 ^ 64)%Z -> from_bytes (w64 v) = v.
Proof. intros Hv. unfold w64, u64, wrap. rewrite Z.mod_small by exact Hv. apply from_little_endian, Hv. Qed.
Lemma w32_back v : (0 <= v < 2 ^ 32)%Z -> from_bytes (w32 v) = v.
Proof. intros Hv. unfold w32, u32, wrap. rewrite Z.mod_small by exact Hv. apply from_little_endian, Hv. Qed.
Lemma w8_back v : (0 <= v < 256)%Z -> from_bytes (w8 v) = v.
Proof. intros Hv. unfold w8, u8, wrap. rewrite Z.mod_small by exact Hv. cbn [from_bytes]. lia. Qed.

(** ** Records *)

(** A record's members, in their types. *)
Record record_ok (r : record) : Prop := {
  ro_timestamp : (0 <= timestamp r < 2 ^ 64)%Z;
  ro_object : (0 <= object r < 2 ^ 64)%Z;
  ro_thread : (0 <= thread r < 2 ^ 32)%Z;
  ro_core : (0 <= core r < 256)%Z;
  ro_priority : (0 <= priority r < 256)%Z;
  ro_reserved : (0 <= reserved r < 256)%Z
}.

Lemma event_back e : event_of (from_bytes (w8 (event_value e))) = Some e.
Proof. destruct e; reflexivity. Qed.

(** The members of an encoded record, by their place. *)
Lemma fields_back (a b c d e f g : list Z) :
  length a = 8 -> length b = 8 -> length c = 4 -> length d = 1 -> length e = 1 -> length f = 1 -> length g = 1 ->
  let bs := a ++ b ++ c ++ d ++ e ++ f ++ g in
  take 8 bs = a /\ take 8 (drop 8 bs) = b /\ take 4 (drop 16 bs) = c /\ take 1 (drop 20 bs) = d /\
  take 1 (drop 21 bs) = e /\ take 1 (drop 22 bs) = f /\ take 1 (drop 23 bs) = g.
Proof.
  intros Ha Hb Hc Hd He Hf Hg bs. assert (L : forall n (x y : list Z), length x = n -> take n (x ++ y) = x /\ drop n (x ++ y) = y)
    by (intros n x y <-; split; [apply take_app_length | apply drop_app_length]).
  assert (E1 := L 8 a (b ++ c ++ d ++ e ++ f ++ g) Ha). assert (E2 := L 8 b (c ++ d ++ e ++ f ++ g) Hb).
  assert (E3 := L 4 c (d ++ e ++ f ++ g) Hc). assert (E4 := L 1 d (e ++ f ++ g) Hd).
  assert (E5 := L 1 e (f ++ g) He). assert (E6 := L 1 f g Hf). destruct E1 as [E1 F1], E2 as [E2 F2], E3 as [E3 F3], E4 as [E4 F4], E5 as [E5 F5], E6 as [E6 F6].
  fold bs in E1, F1.
  assert (D16 : drop 16 bs = c ++ d ++ e ++ f ++ g) by (change 16 with (8 + 8); rewrite <- drop_drop, F1, F2; reflexivity).
  assert (D20 : drop 20 bs = d ++ e ++ f ++ g) by (change 20 with (16 + 4); rewrite <- drop_drop, D16, F3; reflexivity).
  assert (D21 : drop 21 bs = e ++ f ++ g) by (change 21 with (20 + 1); rewrite <- drop_drop, D20, F4; reflexivity).
  assert (D22 : drop 22 bs = f ++ g) by (change 22 with (21 + 1); rewrite <- drop_drop, D21, F5; reflexivity).
  assert (D23 : drop 23 bs = g) by (change 23 with (22 + 1); rewrite <- drop_drop, D22, F6; reflexivity).
  rewrite F1, D16, D20, D21, D22, D23. split_and!; auto. apply take_ge. lia.
Qed.

Lemma length_encode_record r : length (encode_record r) = stream_record_size.
Proof. unfold encode_record, w64, w32. rewrite !length_app, !length_little_endian. reflexivity. Qed.

Lemma decode_encode_record r : record_ok r -> decode_record (encode_record r) = Some r.
Proof.
  intros [H1 H2 H3 H4 H5 H6]. unfold decode_record, encode_record.
  destruct (fields_back (w64 (timestamp r)) (w64 (object r)) (w32 (thread r)) (w8 (event_value (what r)))
    (w8 (core r)) (w8 (priority r)) (w8 (reserved r))) as (E1 & E2 & E3 & E4 & E5 & E6 & E7);
    try (apply length_little_endian); try reflexivity.
  rewrite E1, E2, E3, E4, E5, E6, E7, event_back. cbn [mbind option_bind].
  rewrite !w64_back, w32_back, !w8_back by assumption. destruct r; reflexivity.
Qed.

Lemma decode_encode_records rs : Forall record_ok rs -> forall fuel, length rs <= fuel ->
  decode_records fuel (concat (encode_record <$> rs)) = Some rs.
Proof.
  induction 1 as [| r rs Hr _ IH]; intros fuel Hf; [destruct fuel; reflexivity |].
  destruct fuel as [| fuel]; [simpl in Hf; lia |]. cbn [fmap list_fmap concat]. pose proof (length_encode_record r) as Hl.
  destruct (encode_record r ++ concat (encode_record <$> rs)) as [| b bs] eqn:E.
  { apply (f_equal length) in E. rewrite length_app, Hl in E. discriminate. }
  cbn [decode_records]. rewrite <- E. rewrite length_app, Hl, (proj2 (Nat.ltb_ge _ _)) by lia.
  rewrite take_app_length', drop_app_length', decode_encode_record by (exact Hr || (symmetry; exact Hl)).
  rewrite IH by (simpl in Hf; lia). reflexivity.
Qed.

Lemma length_encode_records rs : length (concat (encode_record <$> rs)) = stream_record_size * length rs.
Proof.
  induction rs as [| r rs IH]; [reflexivity |]. cbn [fmap list_fmap concat]. rewrite length_app, length_encode_record, IH. simpl. lia.
Qed.

(** ** Packets *)

Lemma length_back n : (0 <= n < 65536)%Z -> from_bytes [Z.land n 255; u8 (Z.shiftr n 8)] = n.
Proof.
  intros Hn. cbn [from_bytes]. change 255%Z with (Z.ones 8). rewrite Z.land_ones, Z.shiftr_div_pow2 by lia.
  unfold u8, wrap. change (2 ^ 8)%Z with 256%Z.
  rewrite (Z.mod_small (n / 256)); [pose proof (Z.div_mod n 256); lia |].
  split; [apply Z.div_pos; lia | apply Z.div_lt_upper_bound; lia].
Qed.

(** What a packet is to a reader. *)
Definition packet_of (p : packet * list Z) : Z * list Z := (Packet.value p.1, p.2).
Definition packet_bytes (p : packet * list Z) : list Z := finish p.1 p.2.
Definition fits_length (p : packet * list Z) : Prop := (Z.of_nat (length p.2) < 65536)%Z.

Lemma parse_cons p bs fuel ps : fits_length p -> parse fuel bs = Some ps ->
  parse (S fuel) (packet_bytes p ++ bs) = Some (packet_of p :: ps).
Proof.
  intros Hl Hp. unfold packet_bytes, finish. cbn [app parse]. unfold fits_length in Hl.
  rewrite length_back, Nat2Z.id by lia. rewrite length_app, (proj2 (Nat.ltb_ge _ _)) by lia.
  rewrite take_app_length, drop_app_length, Hp. unfold packet_of. f_equal. f_equal. f_equal. destruct p as [[] ?]; reflexivity.
Qed.

Lemma parse_more bs : forall fuel fuel' ps, parse fuel bs = Some ps -> fuel <= fuel' -> parse fuel' bs = Some ps.
Proof.
  intros fuel. revert bs. induction fuel as [| fuel IH]; intros [| k [| lo [| hi rest]]] fuel' ps Hp Hf;
    try (destruct fuel'; exact Hp); try (cbn in Hp; discriminate).
  destruct fuel' as [| fuel']; [lia |]. cbn [parse] in Hp |- *. destruct (length rest <? _); [discriminate |].
  destruct (parse fuel _) as [ps' |] eqn:E; [| discriminate]. rewrite (IH _ fuel' _ E) by lia. exact Hp.
Qed.

(** The stream so far, as a reader sees it. *)
Definition read_back (sunk : list (list Z)) : option (list (Z * list Z)) :=
  parse (length (concat sunk)) (concat sunk).

Lemma read_packets ps : Forall fits_length ps -> read_back (packet_bytes <$> ps) = Some (packet_of <$> ps).
Proof.
  unfold read_back. induction 1 as [| p ps Hp _ IH]; [reflexivity |]. cbn [fmap list_fmap concat].
  eapply parse_more; [apply parse_cons; [exact Hp | exact IH] |]. rewrite length_app. unfold packet_bytes, finish. simpl. lia.
Qed.

Lemma core_records_app c ps qs rs rs' : core_records c ps = Some rs -> core_records c qs = Some rs' ->
  core_records c (ps ++ qs) = Some (rs ++ rs').
Proof.
  unfold core_records. rewrite foldr_app. intros H1 ->. revert rs H1. induction ps as [| p ps IH]; intros rs H1; simpl in *.
  - injection H1 as <-. reflexivity.
  - destruct (foldr _ (Some []) ps) as [r1 |]; [| discriminate]. rewrite (IH r1) by reflexivity. destruct p as [k bs].
    repeat (match goal with |- context [match ?x with _ => _ end] => destruct x; try discriminate end); try (injection H1 as <-); rewrite <- ?app_assoc; congruence || auto.
Qed.

(** ** Draining *)
Section drain.
Context `{Config} (Hon : 0 < trace_records_per_core) (Hfit : (Z.of_nat trace_records_per_core < 2 ^ 32)%Z)
  (Hcores : cores <= 255).

Lemma wp_on_logs {A} (m : T A) (Q : A -> writer * list core_log -> Prop) w logs :
  wp m (fun a logs' => Q a (w, logs')) logs -> wp (on_logs m) Q (w, logs).
Proof. unfold wp, on_logs. cbn. destruct (m logs) as [[a logs'] |]; auto. Qed.

Lemma held_short log : log_ok log -> length (held log) <= trace_records_per_core.
Proof. intros [_ _ _ Hr]. rewrite held_length. unfold size. lia. Qed.

Definition records_packet (c : nat) (rs : list record) : packet * list Z := (Packet.records, records_payload c rs).

Lemma drain_rounds_ok c : forall fuel written w logs log, logs !! c = Some log -> log_ok log ->
  written + length (held log) <= budget -> budget <= written + fuel ->
  wp (drain_rounds fuel c written)
    (fun n s' => n = written + length (held log) /\
       exists log' chunks, s'.2 = <[c := log']> logs /\ log_ok log' /\ held log' = [] /\ log_dropped log' = log_dropped log /\
         s'.1 = set_sink (sink w ++ (packet_bytes ∘ records_packet c <$> chunks)) w /\
         concat chunks = held log /\ Forall (fun rs => length rs <= records_per_packet) chunks) (w, logs).
Proof.
  induction fuel as [| fuel IH]; intros written w logs log Hc Hok Hlen Hfuel.
  - cbn [drain_rounds]. rewrite (proj2 (Nat.ltb_ge _ _)) by lia. apply wp_ret. split; [lia |].
    exists log, []. split_and!; auto; [symmetry; apply list_insert_id, Hc | apply nil_length_inv; lia | destruct w; cbn; rewrite app_nil_r; reflexivity | symmetry; apply nil_length_inv; lia].
  - cbn [drain_rounds]. destruct (Nat.ltb_spec written budget) as [Hlt | Hge]; cbn [negb].
    2: { apply wp_ret. split; [lia |]. exists log, [].
      split_and!; auto; [symmetry; apply list_insert_id, Hc | apply nil_length_inv; lia | destruct w; cbn; rewrite app_nil_r; reflexivity | symmetry; apply nil_length_inv; lia]. }
    wp_step. apply wp_on_logs. eapply wp_mono; [apply (read_ok Hon Hfit c log logs records_per_packet Hc Hok) |].
    intros chunk logs1 (-> & log1 & -> & Hok1 & Hh1 & Hd1). rewrite length_take.
    assert (Hlt1 : c < length logs) by (eapply lookup_lt_Some, Hc).
    destruct (Nat.eqb_spec (records_per_packet `min` length (held log)) 0) as [E0 | Hne].
    + assert (Eh : held log = []) by (apply nil_length_inv; unfold records_per_packet in E0; lia).
      apply wp_ret. rewrite Eh in *. split; [simpl; lia |]. exists log1, [].
      split_and!; auto; destruct w; cbn; rewrite app_nil_r; reflexivity.
    + wp_step. unfold emit. wp_step. cbn [fst snd]. set (chunk := take records_per_packet (held log)).
      set (w1 := set_sink _ w). destruct (Nat.ltb_spec (records_per_packet `min` length (held log)) records_per_packet) as [Hlast | Hmore].
      * apply wp_ret. assert (Ec : chunk = held log) by (apply take_ge; lia). split; [lia |]. exists log1, [chunk].
        split_and!; [reflexivity | exact Hok1 | rewrite Hh1; apply drop_ge; lia | exact Hd1 | reflexivity | cbn; rewrite app_nil_r; exact Ec |].
        constructor; [| constructor]. unfold chunk. rewrite length_take. lia.
      * eapply wp_mono; [apply (IH _ w1 (<[c := log1]> logs) log1); [apply list_lookup_insert_eq, Hlt1 | exact Hok1 | |] |].
        -- rewrite Hh1, length_drop. lia.
        -- unfold records_per_packet in *. lia.
        -- intros n [w' logs'] (-> & log' & chunks & E1 & Hok' & Hh' & Hd' & E2 & Ec & Hs). cbn [fst snd] in *.
           split; [rewrite Hh1, length_drop; lia |]. exists log', (chunk :: chunks).
           split_and!; [rewrite E1, list_insert_insert_eq; reflexivity | exact Hok' | exact Hh' | congruence | | | ].
           ++ rewrite E2. unfold w1. cbn. rewrite <- app_assoc. reflexivity.
           ++ cbn. rewrite Ec, Hh1. apply take_drop.
           ++ constructor; [unfold chunk; rewrite length_take; lia | exact Hs].
Qed.

(** The dropped packet, if the count has grown. *)
Definition dropped_packets (c : nat) (total before : Z) : list (packet * list Z) :=
  if negb (total =? before)%Z then [(Packet.dropped, w8 (Z.of_nat c) ++ w32 total)] else [].

Lemma drain_ok c w logs log before : c < cores -> length logs = cores -> logs !! c = Some log -> log_ok log ->
  reported_dropped w !! c = Some before ->
  wp (drain c)
    (fun n s' => n = length (held log) /\
       exists log' chunks, s'.2 = <[c := log']> logs /\ log_ok log' /\ held log' = [] /\ log_dropped log' = log_dropped log /\
         sink s'.1 = sink w ++ (packet_bytes <$> ((records_packet c <$> chunks) ++ dropped_packets c (log_dropped log) before)) /\
         reported_dropped s'.1 = <[c := log_dropped log]> (reported_dropped w) /\
         concat chunks = held log /\ Forall (fun rs => length rs <= records_per_packet) chunks) (w, logs).
Proof.
  intros Hlt Hlen Hc Hok Hb. unfold drain. wp_step. wp_step; [apply Nat.ltb_lt, Hlt |]. wp_step.
  pose proof (held_short log Hok) as Hshort.
  eapply wp_mono; [apply (drain_rounds_ok c budget 0 w logs log Hc Hok); unfold budget; lia |].
  intros n [w1 logs1] (-> & log1 & chunks & E1 & Hok1 & Hh1 & Hd1 & E2 & Ec & Hs). cbn [fst snd] in *. subst w1 logs1.
  assert (Hc1 : <[c := log1]> logs !! c = Some log1) by (apply list_lookup_insert_eq; lia).
  wp_step. apply wp_on_logs. unfold TraceLog.dropped, enabled. rewrite (proj2 (Nat.ltb_lt _ _) Hon).
  wp_step. wp_step. wp_step. wp_step; [apply Nat.ltb_lt; rewrite length_insert; lia |].
  wp_step. unfold wp at 1, get_log. rewrite Hc1. wp_step. wp_step. wp_step. cbn [fst snd reported_dropped set_sink]. rewrite Hb.
  wp_step. wp_step. cbn [ok]. rewrite Hd1. wp_step. unfold dropped_packets. destruct (Z.eqb_spec (log_dropped log) before) as [E | E]; cbn [negb].
  - do 2 wp_step. split; [reflexivity |]. exists log1, chunks. cbn. rewrite app_nil_r, list_fmap_compose.
    split_and!; auto. rewrite E. symmetry. apply list_insert_id, Hb.
  - wp_step. unfold emit. do 3 wp_step. split; [reflexivity |]. exists log1, chunks. cbn.
    rewrite fmap_app, app_assoc, list_fmap_compose. split_and!; auto.
Qed.

(** ** Reading it back *)

Lemma records_fit c rs : length rs <= records_per_packet -> fits_length (records_packet c rs).
Proof.
  intros Hl. change (Z.of_nat (length (w8 (Z.of_nat c) ++ concat (encode_record <$> rs))) < 65536)%Z. rewrite length_app, length_encode_records.
  unfold records_per_packet, stream_record_size in *. simpl length. lia.
Qed.

Lemma chunks_back c chunks : c < cores -> Forall record_ok (concat chunks) ->
  core_records (Z.of_nat c) (packet_of <$> (records_packet c <$> chunks)) = Some (concat chunks).
Proof.
  intros Hc. induction chunks as [| rs chunks IH]; intros Hok; [reflexivity |]. cbn [concat] in Hok. apply Forall_app in Hok as [H1 H2].
  cbn [fmap list_fmap]. change (?x :: ?l) with ([x] ++ l). cbn [concat]. apply core_records_app; [| exact (IH H2)].
  unfold core_records, packet_of, records_packet, records_payload. cbn [foldr fst snd Packet.value w8 app].
  unfold u8, wrap. rewrite Z.mod_small, Z.eqb_refl by lia.
  rewrite decode_encode_records, app_nil_r; [reflexivity | exact H1 |].
  rewrite length_encode_records. unfold stream_record_size. lia.
Qed.

Lemma dropped_back c total before : c < cores -> (0 <= total < 2 ^ 32)%Z ->
  core_records (Z.of_nat c) (packet_of <$> dropped_packets c total before) = Some [] /\
  core_dropped (Z.of_nat c) (packet_of <$> dropped_packets c total before) = (if (total =? before)%Z then None else Some total).
Proof.
  intros Hc Ht. unfold dropped_packets. destruct (total =? before)%Z; cbn [negb]; [split; reflexivity |]. split; [reflexivity |].
  unfold core_dropped, packet_of. cbn [fmap list_fmap omap list_omap fst snd Packet.value w8 app]. unfold u8, wrap.
  rewrite Z.mod_small, Z.eqb_refl by lia. cbn [last]. rewrite w32_back by exact Ht. reflexivity.
Qed.

Lemma core_dropped_records c d chunks ps : core_dropped d (packet_of <$> ((records_packet c <$> chunks) ++ ps)) = core_dropped d (packet_of <$> ps).
Proof. unfold core_dropped. induction chunks as [| rs chunks IH]; [reflexivity | exact IH]. Qed.
End drain.

(** ** The properties *)

Import TraceLog Stream.

Section trace_claims.
Context `{Config}.

(** The two sides of a log, in the order their steps meet it. *)
Inductive log_op :=
  | producer_appends (now : Z) (what : Trace.event) (thread core priority object : Z)
  | reader_reads (size : nat).

(** What the reads returned, together. *)
Fixpoint run_log (c : nat) (ops : list log_op) : T (list record) :=
  match ops with
  | [] => kret []
  | producer_appends now what th co pr ob :: ops => append_on_this_core c now what th co pr ob ;;* run_log c ops
  | reader_reads size :: ops =>
      let* out := read c size in
      let* outs := run_log c ops in
      kret (out ++ outs)
  end.

(** A bounded queue and a count of what did not fit. *)
Fixpoint run_queue (ops : list log_op) (q : list record) (lost : Z) : list record * list record * Z :=
  match ops with
  | [] => ([], q, lost)
  | producer_appends now what th co pr ob :: ops =>
      if length q =? trace_records_per_core then run_queue ops q (u32 (lost + 1))
      else run_queue ops (q ++ [MkRecord now ob th what co pr 0]) lost
  | reader_reads size :: ops =>
      let '(outs, q', lost') := run_queue ops (drop size q) lost in (take size q ++ outs, q', lost')
  end.

(** C34: a trace log is a bounded queue. However its producer's appends and
    its reader's reads interleave, and however often the two counters wrap,
    the reads return what a queue of the configured capacity would: the
    records in the order appended, none twice and none overwritten, only
    those appended to a full log missing, and each of those counted. *)
Theorem trace_log_is_a_bounded_queue ops : forall c logs log,
  0 < trace_records_per_core -> (Z.of_nat trace_records_per_core < 2 ^ 32)%Z -> logs !! c = Some log -> log_ok log ->
  wp (run_log c ops)
    (fun out logs' => exists log', logs' = <[c := log']> logs /\ log_ok log' /\
       run_queue ops (held log) (log_dropped log) = (out, held log', log_dropped log')) logs.
Proof.
  induction ops as [| [now what th co pr ob | n] ops IH]; intros c logs log Hon Hfit Hc Hok; cbn [run_log run_queue].
  - apply wp_ret. exists log. split; [symmetry; apply list_insert_id, Hc | auto].
  - wp_step. eapply wp_mono; [apply (append_ok Hon Hfit c log logs); assumption |].
    intros ? ? (log1 & -> & Hok1 & Hres). eapply wp_mono; [apply (IH c _ log1); auto |].
    { apply list_lookup_insert_eq. eapply lookup_lt_Some, Hc. }
    intros out ? (log' & -> & Hok' & E). exists log'. rewrite list_insert_insert_eq. split_and!; auto.
    destruct (_ =? _); destruct Hres as [E1 E2]; rewrite E1, E2 in E; exact E.
  - wp_step. eapply wp_mono; [apply (read_ok Hon Hfit c log logs n); assumption |].
    intros out0 ? (-> & log1 & -> & Hok1 & E1 & E2). wp_step. eapply wp_mono; [apply (IH c _ log1); auto |].
    { apply list_lookup_insert_eq. eapply lookup_lt_Some, Hc. }
    intros out ? (log' & -> & Hok' & E). wp_step. exists log'. rewrite list_insert_insert_eq. split_and!; auto.
    rewrite E1, E2 in E. rewrite E. reflexivity.
Qed.

(** C33: what a drain writes, a reader of the documented format reads back. A
    drain of a core empties its log and answers how many records there were;
    parsed by the stream's own packet lengths, what it appended decodes to
    exactly the log's records, in order, member for member, under that core,
    followed by the core's dropped count exactly when it has changed since
    it was last reported. *)
Theorem drain_reads_back c w logs log before :
  0 < trace_records_per_core -> (Z.of_nat trace_records_per_core < 2 ^ 32)%Z -> cores <= 255 ->
  c < cores -> length logs = cores -> logs !! c = Some log -> log_ok log ->
  Forall record_ok (held log) -> (0 <= log_dropped log < 2 ^ 32)%Z -> reported_dropped w !! c = Some before ->
  wp (drain c)
    (fun n s' => n = length (held log) /\
       (exists log', s'.2 = <[c := log']> logs /\ log_ok log' /\ held log' = []) /\
       reported_dropped s'.1 !! c = Some (log_dropped log) /\
       exists written ps, sink s'.1 = sink w ++ written /\ read_back written = Some ps /\
         core_records (Z.of_nat c) ps = Some (held log) /\
         core_dropped (Z.of_nat c) ps = (if (log_dropped log =? before)%Z then None else Some (log_dropped log))) (w, logs).
Proof.
  intros Hon Hfit Hcores Hc Hlen Hlog Hok Hrec Hdr Hb.
  eapply wp_mono; [apply (drain_ok Hon Hfit Hcores c w logs log before); assumption |].
  intros n s' (-> & log' & chunks & E1 & Hok' & Hh' & _ & E2 & E3 & Ec & Hs). split; [reflexivity |].
  split; [eauto |]. split; [rewrite E3; apply list_lookup_insert_eq; eapply lookup_lt_Some, Hb |].
  eexists _, _. split; [exact E2 |]. split; [apply read_packets |]; [| split].
  - apply Forall_app. split.
    + apply Forall_fmap. eapply Forall_impl; [exact Hs |]. intros rs Hrs. apply records_fit; assumption.
    + unfold dropped_packets. destruct (negb _); constructor; [| constructor]. vm_compute. reflexivity.
  - rewrite fmap_app, <- (app_nil_r (held log)). apply core_records_app.
    + rewrite <- Ec. apply chunks_back; try assumption; rewrite Ec; exact Hrec.
    + apply dropped_back; assumption.
  - rewrite core_dropped_records. apply dropped_back; assumption.
Qed.
End trace_claims.

(** ** Instances: two cores with logs of four records *)
Section instances.
Local Open Scope Z_scope.

Program Definition traced : Config :=
  {| cores := 2; max_priorities := 31; trace_records_per_core := 4; port_core_count := 2 |}.
Next Obligation. lia. Qed.
Next Obligation. lia. Qed.
Next Obligation. reflexivity. Qed.

Definition sample (now : Z) : record := MkRecord now 0 7 Trace.thread_running 0 5 0.

(** A log whose counters are about to wrap, with one record in it. *)
Definition wrapping_log : core_log :=
  CoreLog (2 ^ 32 - 1) (2 ^ 32 - 2) 3 [zero_record; zero_record; sample 90; zero_record].

Definition two_logs : list core_log := [wrapping_log; @new_log traced].

Lemma wrapping_ok : @log_ok traced wrapping_log.
Proof. split; [reflexivity | vm_compute; split; congruence | vm_compute; split; congruence | vm_compute; congruence]. Qed.
End instances.

Lemma trace_log_is_a_bounded_queue_witness :
  wp (@run_log traced 0 [producer_appends 91 Trace.thread_ready 8 0 5 0; reader_reads 2;
        producer_appends 92 Trace.user 7 0 1 44; reader_reads 5])
    (fun out _ => out = [sample 90; MkRecord 91 0 8 Trace.thread_ready 0 5 0; MkRecord 92 44 7 Trace.user 0 1 0]) two_logs.
Proof.
  eapply wp_mono.
  - apply (@trace_log_is_a_bounded_queue traced _ 0 two_logs wrapping_log); [vm_compute; lia | reflexivity | reflexivity | exact wrapping_ok].
  - intros out s' (log' & _ & _ & E). apply (f_equal (fun p => p.1.1)) in E. cbn [fst] in E. rewrite <- E. vm_compute. reflexivity.
Defined.

Lemma drain_reads_back_witness :
  wp (@drain traced 0) (fun n s' => n = 1 /\ exists written ps, sink s'.1 = written /\ read_back written = Some ps /\
    core_records 0 ps = Some [sample 90] /\ core_dropped 0 ps = Some 3%Z) (Writer [] [0; 0]%Z, two_logs).
Proof.
  eapply wp_mono.
  - apply (@drain_reads_back traced 0 (Writer [] [0; 0]%Z) two_logs wrapping_log 0%Z);
      [vm_compute; lia | reflexivity | vm_compute; lia | vm_compute; lia | reflexivity | reflexivity | exact wrapping_ok
      | | vm_compute; split; congruence | reflexivity].
    replace (@held traced wrapping_log) with [sample 90] by (vm_compute; reflexivity). constructor; [| constructor].
    split; vm_compute; split; congruence.
  - intros n s' (-> & _ & _ & written & ps & Hw & Hp & Hr & Hd). split; [vm_compute; reflexivity |]. exists written, ps.
    split_and!; [exact Hw | exact Hp | etransitivity; [exact Hr | vm_compute; reflexivity] | exact Hd].
Defined.
