(* ===== verification/Time.v ===== *)
(** * Time: the types and the three drivers

    time.hpp, time_driver_periodic.cpp, time_driver_tickless.cpp and
    time_driver_simulation.cpp.  The two hardware drivers keep, per core, a
    table of sixteen slots; the periodic one is serviced from a tick, the
    tickless one from a one-shot it arms to the earliest deadline.  The
    simulation keeps lists of events and fires them itself.

    What the port answers is an argument: [now] is [cyros_port_time_now()] where
    an operation reads it (each reads it once), [core] is
    [cyros_port_get_core_id()].  A callback is code of the application:
    [invoke] is what it does to the driver's state. *)

From S2P Require Import Prelude State.

(** ** time.hpp *)
Module TimePoint.
Definition max : Z := 2 ^ 64 - 1.
(** [time_point + duration], and [duration + duration]. *)
Definition add (tp d : Z) : Z := u64 (tp + d).
Definition duration_between (a b : Z) : Z := if (b <=? a)%Z then u64 (a - b) else 0%Z.
End TimePoint.

(** ** What both hardware drivers share *)
Module Timetable.
Definition MAX_SCHEDULED_CALLBACKS : nat := 16.

Record slot := Slot {
  slot_id : Z;
  slot_when : Z;
  slot_period : Z;
  slot_cb : option nat;
  slot_arg : nat
}.

Definition free_slot : slot := Slot 0 0 0 None 0.
Definition set_when (w : Z) (s : slot) : slot := Slot (slot_id s) w (slot_period s) (slot_cb s) (slot_arg s).

Record timetable := TimetableOf {
  started : bool;
  next_id : Z;
  slots : list slot
}.

Definition new_timetable : timetable := TimetableOf false 1 (replicate MAX_SCHEDULED_CALLBACKS free_slot).
Definition set_started (b : bool) (t : timetable) : timetable := TimetableOf b (next_id t) (slots t).
Definition set_next_id (n : Z) (t : timetable) : timetable := TimetableOf (started t) n (slots t).
Definition set_slots (l : list slot) (t : timetable) : timetable := TimetableOf (started t) (next_id t) l.

(** What the drivers ask of the port, and the callbacks they run. *)
Inductive time_call :=
  | time_register_isr_handler
  | time_teardown
  | time_setup (core : nat) (tick_hz : Z)
  | time_irq_enable (core : nat)
  | time_irq_disable (core : nat)
  | time_arm (core : nat) (deadline : Z)
  | time_disarm (core : nat)
  | ran (core : nat) (cb arg : nat).

(** [tconfig], [timetables], and the calls made, the latest first. *)
Record driver := Driver {
  initialised : bool;
  frequency_hz : Z;
  timetables : list timetable;
  time_calls : list time_call
}.

Definition set_config (i : bool) (hz : Z) (d : driver) : driver := Driver i hz (timetables d) (time_calls d).
Definition set_timetables (l : list timetable) (d : driver) : driver := Driver (initialised d) (frequency_hz d) l (time_calls d).

Abbreviation T := (M driver).

Definition emit (e : time_call) : T unit :=
  kmodify (fun d => Driver (initialised d) (frequency_hz d) (timetables d) (e :: time_calls d)).

(** [timetable_for_this_core()]. *)
Definition get_table (core : nat) : T timetable :=
  fun d => match timetables d !! core with Some t => Ok (t, d) | None => Panic bad_pointer end.
Definition modify_table (core : nat) (f : timetable -> timetable) : T unit :=
  fun d => match timetables d !! core with
           | Some t => Ok (tt, set_timetables (<[core := f t]> (timetables d)) d)
           | None => Panic bad_pointer
           end.
Definition put_slot (core i : nat) (s : slot) : T unit :=
  modify_table core (fun t => set_slots (<[i := s]> (slots t)) t).

Definition next_handle_id (core : nat) : T Z :=
  let* t := get_table core in
  let id := next_id t in
  let after := u32 (id + 1) in
  if (id =? 0)%Z then
    modify_table core (set_next_id (u32 (after + 1))) ;;* kret after
  else modify_table core (set_next_id after) ;;* kret id.

(** The loops over the slots that stop at the first that fits. *)
Definition find_id (id : Z) (l : list slot) : option nat :=
  fst <$> list_find (fun s => slot_id s = id) l.

Definition anchored (now : Z) (s : slot) : slot :=
  if negb (slot_id s =? 0)%Z && negb (slot_period s =? 0)%Z && (slot_when s =? 0)%Z
  then set_when (u64 (now + slot_period s)) s else s.

Definition anchor_pended_recurring (core : nat) (now : Z) : T unit :=
  modify_table core (fun t => set_slots (anchored now <$> slots t) t).

(** [do { when += period; } while (when <= now)]. *)
Fixpoint advance (fuel : nat) (w period now : Z) : outcome Z :=
  let w := u64 (w + period) in
  if (w <=? now)%Z then
    match fuel with O => Panic out_of_fuel | S fuel => advance fuel w period now end
  else Ok w.

Definition advance_fuel (w period now : Z) : nat := Z.to_nat ((now - w) / period).

Definition due (now : Z) (s : slot) : bool := negb (slot_id s =? 0)%Z && (slot_when s <=? now)%Z.

Section firing.
Context (invoke : nat -> nat -> T unit).

(** [callback(arg)]. *)
Definition call_back (core : nat) (cb : option nat) (arg : nat) : T unit :=
  let* cb := klift (nonnull cb) in
  emit (ran core cb arg) ;;*
  invoke cb arg.

(** The loop of [fire_due_isr], from slot [i] on. *)
Fixpoint fire_from (todo i core : nat) (now_ticks : Z) : T unit :=
  match todo with
  | O => kret tt
  | S todo =>
      let* t := get_table core in
      let* s := klift (match slots t !! i with Some s => Ok s | None => Panic bad_pointer end) in
      (if due now_ticks s then
         (if (slot_period s =? 0)%Z then put_slot core i free_slot
          else
            let* w := klift (advance (advance_fuel (slot_when s) (slot_period s) now_ticks) (slot_when s) (slot_period s) now_ticks) in
            put_slot core i (set_when w s)) ;;*
         call_back core (slot_cb s) (slot_arg s)
       else kret tt) ;;*
      fire_from todo (S i) core now_ticks
  end.

Definition fire_due_isr (core : nat) (now_ticks : Z) : T unit :=
  fire_from MAX_SCHEDULED_CALLBACKS 0 core now_ticks.
End firing.

Definition ceil_div_u64 (a b : Z) : Z := u64 (a + b - 1) / b.

(** The conversions, at [hz] ticks a second: the port's in the periodic
    driver, the configured frequency in the tickless one. *)
Definition from_milliseconds (hz ms : Z) : Z := ceil_div_u64 (u64 (ms * hz)) 1000.
Definition from_microseconds (hz us : Z) : Z := ceil_div_u64 (u64 (us * hz)) 1000000.
Definition to_milliseconds (hz d : Z) : Z := u64 (u64 (d * 1000) + hz / 2) / hz.
Definition to_microseconds (hz d : Z) : Z := u64 (u64 (d * 1000000) + hz / 2) / hz.

(** [initialise] and [finalise]. *)
Definition initialise (hz : Z) : T unit :=
  let* done := kget initialised in
  kensure assert_failed (negb done) ;;*
  kmodify (set_config true hz) ;;*
  emit time_register_isr_handler.

Definition finalise : T unit :=
  let* done := kget initialised in
  kensure assert_failed done ;;*
  emit time_teardown ;;*
  kmodify (set_config false 0) ;;*
  kmodify (fun d => set_timetables (replicate (length (timetables d)) new_timetable) d).
End Timetable.

(** ** time_driver_periodic.cpp *)
Module Periodic.
Import Timetable.

Definition on_timer_isr (invoke : nat -> nat -> T unit) (core : nat) (now : Z) : T unit :=
  fire_due_isr invoke core now.

Definition schedule_at (core : nat) (tp : Z) (cb : option nat) (arg : nat) : T Z :=
  let* done := kget initialised in
  kensure assert_failed done ;;*
  if bool_decide (cb = None) then kret 0%Z
  else
    let* t := get_table core in
    match find_id 0 (slots t) with
    | Some i =>
        let* id := next_handle_id core in
        put_slot core i (Slot id tp 0 cb arg) ;;*
        kret id
    | None => kret 0%Z
    end.

Definition schedule_recurring (core : nat) (now interval : Z) (cb : option nat) (arg : nat) : T Z :=
  let* done := kget initialised in
  kensure assert_failed done ;;*
  if bool_decide (cb = None) || (interval =? 0)%Z then kret 0%Z
  else
    let* t := get_table core in
    match find_id 0 (slots t) with
    | Some i =>
        let* id := next_handle_id core in
        put_slot core i (Slot id (if started t then u64 (now + interval) else 0%Z) interval cb arg) ;;*
        kret id
    | None => kret 0%Z
    end.

Definition cancel (core : nat) (h : Z) : T bool :=
  if (h =? 0)%Z then kret false
  else
    let* done := kget initialised in
    kensure assert_failed done ;;*
    let* t := get_table core in
    match find_id h (slots t) with
    | Some i => put_slot core i free_slot ;;* kret true
    | None => kret false
    end.

Definition start (core : nat) (now : Z) : T unit :=
  let* t := get_table core in
  if started t then kret tt
  else
    let* done := kget initialised in
    kensure assert_failed done ;;*
    let* hz := kget frequency_hz in
    kensure assert_failed (0 <? hz)%Z ;;*
    emit (time_setup core hz) ;;*
    anchor_pended_recurring core now ;;*
    modify_table core (set_started true) ;;*
    emit (time_irq_enable core).

Definition stop (core : nat) : T unit :=
  let* t := get_table core in
  if negb (started t) then kret tt
  else
    emit (time_irq_disable core) ;;*
    modify_table core (set_started false).
End Periodic.

(** ** time_driver_tickless.cpp *)
Module Tickless.
Import Timetable.

(** The loop of [rearm_locked]. *)
Definition earlier (earliest : Z) (s : slot) : Z :=
  if negb (slot_id s =? 0)%Z && (slot_when s <? earliest)%Z then slot_when s else earliest.
Definition earliest_of (l : list slot) : Z := fold_left earlier l TimePoint.max.

Definition rearm_locked (core : nat) : T unit :=
  let* t := get_table core in
  let earliest := earliest_of (slots t) in
  if (earliest =? TimePoint.max)%Z then emit (time_disarm core) else emit (time_arm core earliest).

Definition on_timer_isr (invoke : nat -> nat -> T unit) (core : nat) (now : Z) : T unit :=
  fire_due_isr invoke core now ;;*
  rearm_locked core.

Definition schedule_at (core : nat) (tp : Z) (cb : option nat) (arg : nat) : T Z :=
  let* done := kget initialised in
  kensure assert_failed done ;;*
  if bool_decide (cb = None) then kret 0%Z
  else
    let* t := get_table core in
    match find_id 0 (slots t) with
    | Some i =>
        let* id := next_handle_id core in
        put_slot core i (Slot id tp 0 cb arg) ;;*
        (if started t then rearm_locked core else kret tt) ;;*
        kret id
    | None => kret 0%Z
    end.

Definition schedule_recurring (core : nat) (now interval : Z) (cb : option nat) (arg : nat) : T Z :=
  let* done := kget initialised in
  kensure assert_failed done ;;*
  if bool_decide (cb = None) || (interval =? 0)%Z then kret 0%Z
  else
    let* t := get_table core in
    match find_id 0 (slots t) with
    | Some i =>
        let* id := next_handle_id core in
        (if started t then
           put_slot core i (Slot id (u64 (now + interval)) interval cb arg) ;;*
           rearm_locked core
         else put_slot core i (Slot id 0 interval cb arg)) ;;*
        kret id
    | None => kret 0%Z
    end.

Definition cancel (core : nat) (h : Z) : T bool :=
  if (h =? 0)%Z then kret false
  else
    let* done := kget initialised in
    kensure assert_failed done ;;*
    let* t := get_table core in
    match find_id h (slots t) with
    | Some i =>
        put_slot core i free_slot ;;*
        (if started t then rearm_locked core else kret tt) ;;*
        kret true
    | None => kret false
    end.

Definition start (core : nat) (now : Z) : T unit :=
  let* t := get_table core in
  if started t then kret tt
  else
    let* done := kget initialised in
    kensure assert_failed done ;;*
    emit (time_setup core 0) ;;*
    anchor_pended_recurring core now ;;*
    modify_table core (set_started true) ;;*
    rearm_locked core ;;*
    emit (time_irq_enable core).

Definition stop (core : nat) : T unit :=
  let* t := get_table core in
  if negb (started t) then kret tt
  else
    emit (time_irq_disable core) ;;*
    emit (time_disarm core) ;;*
    modify_table core (set_started false).

(** Its conversions use the frequency it was initialised with. *)
Definition from_milliseconds (ms : Z) : T Z := let* hz := kget frequency_hz in kret (Timetable.from_milliseconds hz ms).
Definition from_microseconds (us : Z) : T Z := let* hz := kget frequency_hz in kret (Timetable.from_microseconds hz us).
Definition to_milliseconds (d : Z) : T Z := let* hz := kget frequency_hz in kret (Timetable.to_milliseconds hz d).
Definition to_microseconds (d : Z) : T Z := let* hz := kget frequency_hz in kret (Timetable.to_microseconds hz d).
End Tickless.
