(* ===== verification/TimeProofs.v ===== *)
(** * The time drivers: what their operations do

    The conversions, the firing pass, the first-free and first-match searches,
    and the one-shot's arming, on a core's table of slots. *)

From S2P Require Import Prelude State Time.

(** ** Conversions *)

Section conversions.
Local Open Scope Z_scope.
Implicit Types (hz x u : Z).

(** The generic conversion to ticks, at [u] units a second. *)
Lemma ceil_div_ok a b : 0 <= a -> 0 < b -> a + b < 2 ^ 64 ->
  let q := Timetable.ceil_div_u64 a b in a <= q * b < a + b.
Proof.
  intros Ha Hb Hlt q. unfold q, Timetable.ceil_div_u64. unfold u64. rewrite wrap_small by lia.
  pose proof (Z.div_mod (a + b - 1) b ltac:(lia)). pose proof (Z.mod_pos_bound (a + b - 1) b ltac:(lia)). nia.
Qed.

Lemma product_small x hz u : 0 <= x < 2 ^ 32 -> 0 < hz < 2 ^ 32 -> 0 < u <= 1000000 ->
  0 <= x * hz /\ x * hz + u < 2 ^ 64.
Proof. intros. split; [nia |]. assert (x * hz <= (2 ^ 32 - 1) * (2 ^ 32 - 1)) by nia. lia. Qed.

Lemma from_unit_ok x hz u : 0 <= x < 2 ^ 32 -> 0 < hz < 2 ^ 32 -> 0 < u <= 1000000 ->
  let q := Timetable.ceil_div_u64 (u64 (x * hz)) u in x * hz <= q * u < x * hz + u.
Proof.
  intros Hx Hhz Hu. destruct (product_small x hz u Hx Hhz Hu). unfold u64. rewrite wrap_small by lia.
  apply ceil_div_ok; lia.
Qed.

(** ... and back, to the nearest unit. *)
Lemma to_unit_ok d hz u : 0 <= d -> 0 < hz < 2 ^ 32 -> 0 < u -> d * u + hz / 2 < 2 ^ 64 ->
  let q := u64 (u64 (d * u) + hz / 2) / hz in d * u - hz / 2 - (hz mod 2) < q * hz <= d * u + hz / 2.
Proof.
  intros Hd Hhz Hu Hlt q. unfold q, u64. pose proof (Z.div_pos hz 2 ltac:(lia) ltac:(lia)).
  rewrite (wrap_small 64 (d * u)) by nia. rewrite wrap_small by nia.
  pose proof (Z.div_mod (d * u + hz / 2) hz ltac:(lia)). pose proof (Z.mod_pos_bound (d * u + hz / 2) hz ltac:(lia)).
  pose proof (Z.div_mod hz 2 ltac:(lia)). nia.
Qed.

Lemma unit_round_trip x hz u : 0 <= x < 2 ^ 32 -> 2 * u - 1 <= hz < 2 ^ 32 -> 0 < u <= 1000000 ->
  u64 (u64 (Timetable.ceil_div_u64 (u64 (x * hz)) u * u) + hz / 2) / hz = x.
Proof.
  intros Hx Hhz Hu. pose proof (from_unit_ok x hz u Hx ltac:(lia) Hu) as Hq. cbv zeta in Hq.
  set (q := Timetable.ceil_div_u64 _ u) in *. destruct (product_small x hz u Hx ltac:(lia) Hu).
  assert (x * hz <= (2 ^ 32 - 1) * (2 ^ 32 - 1)) by nia.
  pose proof (Z.div_mod hz 2 ltac:(lia)). pose proof (Z.mod_pos_bound hz 2 ltac:(lia)).
  unfold u64. rewrite (wrap_small 64 (q * u)) by lia. rewrite wrap_small by lia.
  symmetry. apply (Z.div_unique _ hz x (q * u + hz / 2 - x * hz)); lia.
Qed.
End conversions.

(** ** The grid a recurring deadline moves on *)

Section grid.
Local Open Scope Z_scope.

Definition next_grid (w period now : Z) : Z := w + period * ((now - w) / period + 1).

Lemma next_grid_after w period now : 0 < period -> now < next_grid w period now <= now + period.
Proof.
  intros Hp. unfold next_grid. pose proof (Z.div_mod (now - w) period ltac:(lia)).
  pose proof (Z.mod_pos_bound (now - w) period ltac:(lia)). nia.
Qed.

Lemma advance_ok fuel : forall w period now, 0 < period -> 0 <= w <= now -> now + period < 2 ^ 64 ->
  (Timetable.advance_fuel w period now <= fuel)%nat ->
  Timetable.advance fuel w period now = Ok (next_grid w period now).
Proof.
  unfold Timetable.advance_fuel. induction fuel as [| fuel IH]; intros w period now Hp Hw Hlt Hf; cbn [Timetable.advance];
    assert (E : u64 (w + period) = w + period) by (apply wrap_small; lia); rewrite E.
  - assert (Hz : (now - w) / period = 0).
    { pose proof (Z.div_pos (now - w) period ltac:(lia) Hp). lia. }
    assert (now - w < period). { apply Z.div_small_iff in Hz; lia. }
    rewrite (proj2 (Z.leb_gt _ _)) by lia. unfold next_grid. rewrite Hz. f_equal. lia.
  - destruct (Z.leb_spec (w + period) now) as [Hle | Hgt].
    + assert (Ed : (now - w) / period = (now - (w + period)) / period + 1).
      { replace (now - w) with (now - (w + period) + 1 * period) by lia. rewrite Z.div_add by lia. reflexivity. }
      rewrite IH; [| lia | lia | lia |].
      * unfold next_grid. rewrite Ed. f_equal. lia.
      * pose proof (Z.div_pos (now - (w + period)) period ltac:(lia) Hp). rewrite Ed in Hf. lia.
    + assert (Hz : (now - w) / period = 0) by (apply Z.div_small; lia). unfold next_grid. rewrite Hz. f_equal. lia.
Qed.
End grid.

(** ** The slots *)

Section slots.
Import Timetable.

(** A slot's claim on the future: what a firing pass needs of it. *)
Definition slot_ok (now : Z) (s : slot) : Prop :=
  slot_id s <> 0%Z -> slot_cb s <> None /\ (0 <= slot_when s < 2 ^ 64)%Z /\ (0 <= slot_period s)%Z /\ (now + slot_period s < 2 ^ 64)%Z.

Definition table_ok (now : Z) (t : timetable) : Prop :=
  length (slots t) = MAX_SCHEDULED_CALLBACKS /\ Forall (slot_ok now) (slots t).

(** What a pass at [now] leaves of a slot, and the callback it runs. *)
Definition fired_slot (now : Z) (s : slot) : slot :=
  if due now s then
    if (slot_period s =? 0)%Z then free_slot else set_when (next_grid (slot_when s) (slot_period s) now) s
  else s.

Definition run_of (core : nat) (now : Z) (s : slot) : option time_call :=
  if due now s then (fun cb => ran core cb (slot_arg s)) <$> slot_cb s else None.

(** ** Reading and writing a core's table *)

Lemma wp_get_table core t (Q : timetable -> driver -> Prop) d : timetables d !! core = Some t -> Q t d -> wp (get_table core) Q d.
Proof. unfold wp, get_table. intros ->. auto. Qed.

Lemma wp_modify_table core f t (Q : unit -> driver -> Prop) d : timetables d !! core = Some t ->
  Q tt (set_timetables (<[core := f t]> (timetables d)) d) -> wp (modify_table core f) Q d.
Proof. unfold wp, modify_table. intros ->. auto. Qed.

Lemma wp_put_slot core i s t (Q : unit -> driver -> Prop) d : timetables d !! core = Some t ->
  Q tt (set_timetables (<[core := set_slots (<[i := s]> (slots t)) t]> (timetables d)) d) -> wp (put_slot core i s) Q d.
Proof. intros Ht HQ. unfold put_slot. eapply wp_modify_table; [exact Ht | exact HQ]. Qed.

Lemma table_of core t t' d : timetables d !! core = Some t ->
  timetables (set_timetables (<[core := t']> (timetables d)) d) !! core = Some t'.
Proof. intros Ht. apply list_lookup_insert_eq. eapply lookup_lt_Some, Ht. Qed.

(** [d] with core [core]'s table [t] and with [es] asked since. *)
Definition at_table (core : nat) (t : timetable) (es : list time_call) (d : driver) : driver :=
  Driver (initialised d) (frequency_hz d) (<[core := t]> (timetables d)) (es ++ time_calls d).

Lemma at_table_id core t d : timetables d !! core = Some t -> at_table core t [] d = d.
Proof. intros Ht. unfold at_table. rewrite list_insert_id by exact Ht. destruct d. reflexivity. Qed.

Lemma at_table_at core t es t' es' d : at_table core t' es' (at_table core t es d) = at_table core t' (es' ++ es) d.
Proof. unfold at_table. cbn. rewrite list_insert_insert_eq, app_assoc. reflexivity. Qed.

Lemma at_table_lookup core t0 t es d : timetables d !! core = Some t0 -> timetables (at_table core t es d) !! core = Some t.
Proof. intros Ht. cbn. apply list_lookup_insert_eq. eapply lookup_lt_Some, Ht. Qed.

Section firing.
Context (invoke : nat -> nat -> T unit) (core : nat) (now : Z).

Lemma reverse_omap_cons {A B} (f : A -> option B) x l :
  reverse (omap f (x :: l)) = reverse (omap f l) ++ match f x with Some y => [y] | None => [] end.
Proof. cbn. destruct (f x); [apply reverse_cons | symmetry; apply app_nil_r]. Qed.

(** One slot's turn in the pass, its callback leaving the driver alone. *)
Lemma fire_from_ok (Hquiet : forall cb arg d, invoke cb arg d = Ok (tt, d)) : forall todo i t d,
  timetables d !! core = Some t -> length (slots t) = i + todo -> Forall (slot_ok now) (slots t) ->
  fire_from invoke todo i core now d =
  Ok (tt, at_table core (set_slots (take i (slots t) ++ (fired_slot now <$> drop i (slots t))) t)
            (reverse (omap (run_of core now) (drop i (slots t)))) d).
Proof.
  induction todo as [| todo IH]; intros i t d Ht Hlen Hok; cbn [fire_from].
  - rewrite drop_ge, take_ge by lia. cbn. rewrite app_nil_r. unfold kret. do 2 f_equal.
    replace (set_slots (slots t) t) with t by (destruct t; reflexivity). symmetry. apply at_table_id, Ht.
  - destruct (lookup_lt_is_Some_2 (slots t) i ltac:(lia)) as [s Hs].
    unfold kbind at 1, get_table at 1. rewrite Ht. unfold kbind at 1, klift at 1. rewrite Hs.
    assert (Hsok : slot_ok now s) by (eapply Forall_lookup_1; [exact Hok | exact Hs]).
    rewrite (drop_S _ _ _ Hs), reverse_omap_cons, fmap_cons.
    assert (Hgo : forall s' es d', d' = at_table core (set_slots (<[i := s']> (slots t)) t) es d ->
      slot_ok now s' -> fire_from invoke todo (S i) core now d' =
      Ok (tt, at_table core (set_slots (take i (slots t) ++ s' :: (fired_slot now <$> drop (S i) (slots t))) t)
        (reverse (omap (run_of core now) (drop (S i) (slots t))) ++ es) d)).
    { intros s' es d' -> Hs'. set (t1 := set_slots (<[i := s']> (slots t)) t).
      rewrite (IH (S i) t1); [| eapply at_table_lookup, Ht | cbn; rewrite length_insert; lia | cbn; apply Forall_insert; assumption].
      do 2 f_equal. rewrite at_table_at. f_equal; [| cbn; rewrite drop_insert_lt by lia; reflexivity].
      unfold t1. cbn. unfold set_slots. cbn. f_equal. rewrite drop_insert_lt by lia.
      rewrite (take_S_r _ _ s') by (apply list_lookup_insert_eq; lia). rewrite take_insert_ge by lia.
      rewrite <- app_assoc. reflexivity. }
    unfold kbind at 1.
    change (fired_slot now s) with (if due now s then
      if (slot_period s =? 0)%Z then free_slot else set_when (next_grid (slot_when s) (slot_period s) now) s else s).
    change (run_of core now s) with (if due now s then (fun cb => ran core cb (slot_arg s)) <$> slot_cb s else None).
    destruct (due now s) eqn:Hd.
    + unfold due in Hd. apply andb_true_iff in Hd as [Hid Hw]. apply negb_true_iff, Z.eqb_neq in Hid. apply Z.leb_le in Hw.
      destruct (Hsok Hid) as (Hcb & Hwr & Hp & Hlt). destruct (slot_cb s) as [cb |] eqn:Ecb; [| contradiction].
      cbn [fmap option_fmap option_map].
      destruct (Z.eqb_spec (slot_period s) 0) as [Ep | Ep].
      * unfold kbind at 1. unfold put_slot, modify_table at 1. rewrite Ht. unfold call_back, kbind, klift, nonnull, emit, kmodify. rewrite Hquiet.
        apply Hgo; [reflexivity | intros E; destruct E; reflexivity].
      * unfold kbind at 1. unfold kbind at 1. unfold klift at 1. rewrite advance_ok; [| lia | lia | exact Hlt | lia].
        unfold put_slot, modify_table at 1. rewrite Ht. unfold call_back, kbind, klift, nonnull, emit, kmodify. rewrite Hquiet.
        apply Hgo; [reflexivity |]. intros _. cbn.
        pose proof (next_grid_after (slot_when s) (slot_period s) now ltac:(lia)). rewrite Ecb. split_and!; [discriminate | lia | lia | exact Hp | exact Hlt].
    + unfold kret at 1. apply Hgo; [| exact Hsok].
      rewrite list_insert_id by exact Hs. replace (set_slots (slots t) t) with t by (destruct t; reflexivity).
      symmetry. apply at_table_id, Ht.
Qed.

Lemma fire_due_isr_ok t d : (forall cb arg d, invoke cb arg d = Ok (tt, d)) ->
  timetables d !! core = Some t -> table_ok now t ->
  fire_due_isr invoke core now d =
  Ok (tt, at_table core (set_slots (fired_slot now <$> slots t) t) (reverse (omap (run_of core now) (slots t))) d).
Proof.
  intros Hq Ht [Hlen Hok]. unfold fire_due_isr. rewrite (fire_from_ok Hq MAX_SCHEDULED_CALLBACKS 0 t d Ht Hlen Hok). reflexivity.
Qed.

(** With callbacks that use the driver: the pass still finishes. *)
Lemma fire_from_finishes : (forall cb arg d t, timetables d !! core = Some t -> table_ok now t ->
    wp (invoke cb arg) (fun _ d' => exists t', timetables d' !! core = Some t' /\ table_ok now t' /\ started t' = started t) d) ->
  forall todo i t d, timetables d !! core = Some t -> i + todo = MAX_SCHEDULED_CALLBACKS -> table_ok now t ->
  wp (fire_from invoke todo i core now)
    (fun _ d' => exists t', timetables d' !! core = Some t' /\ table_ok now t' /\ started t' = started t) d.
Proof.
  intros Hinv. induction todo as [| todo IH]; intros i t d Ht Hi Hok; cbn [fire_from]; [apply wp_ret; eauto |].
  pose proof Hok as [Hlen Hall]. destruct (lookup_lt_is_Some_2 (slots t) i ltac:(lia)) as [s Hs].
  apply wp_bind. eapply wp_get_table; [exact Ht |]. apply wp_bind, wp_lift. rewrite Hs. cbn [ok]. apply wp_bind.
  assert (Hsok : slot_ok now s) by (eapply Forall_lookup_1; [exact Hall | exact Hs]).
  assert (Hnext : wp (if due now s then
      (if (slot_period s =? 0)%Z then put_slot core i free_slot
       else let* w := klift (advance (advance_fuel (slot_when s) (slot_period s) now) (slot_when s) (slot_period s) now) in
            put_slot core i (set_when w s)) ;;* call_back invoke core (slot_cb s) (slot_arg s)
      else kret tt)
    (fun _ d' => exists t', timetables d' !! core = Some t' /\ table_ok now t' /\ started t' = started t) d).
  2: { eapply wp_mono; [exact Hnext |]. intros ? d1 (t1 & Ht1 & Hok1 & E1).
       eapply wp_mono; [apply (IH (S i) t1 d1 Ht1 ltac:(lia) Hok1) |]. intros ? d2 (t2 & Ht2 & Hok2 & E2). exists t2. split_and!; congruence || assumption. }
  destruct (due now s) eqn:Hd; [| apply wp_ret; eauto].
  unfold due in Hd. apply andb_true_iff in Hd as [Hid Hw]. apply negb_true_iff, Z.eqb_neq in Hid. apply Z.leb_le in Hw.
  destruct (Hsok Hid) as (Hcb & Hwr & Hp & Hlt). destruct (slot_cb s) as [cb |] eqn:Ecb; [| contradiction].
  assert (Hcall : forall s', slot_ok now s' -> wp (put_slot core i s') (fun _ => wp (call_back invoke core (Some cb) (slot_arg s))
    (fun _ d' => exists t', timetables d' !! core = Some t' /\ table_ok now t' /\ started t' = started t)) d).
  { intros s' Hs'. eapply wp_put_slot; [exact Ht |]. unfold call_back. apply wp_bind, wp_lift. cbn [nonnull ok].
    apply wp_bind, wp_modify. set (t1 := set_slots (<[i := s']> (slots t)) t).
    match goal with |- wp _ _ ?d1 => assert (Ht1 : timetables d1 !! core = Some t1) by (cbn; apply list_lookup_insert_eq; eapply lookup_lt_Some, Ht) end.
    eapply wp_mono; [apply (Hinv _ _ _ t1 Ht1); split; cbn; [rewrite length_insert; exact Hlen | apply Forall_insert; assumption] |].
    intros ? d2 (t2 & Ht2 & Hok2 & E2). exists t2. auto. }
  apply wp_bind. destruct (Z.eqb_spec (slot_period s) 0) as [Ep | Ep]; [apply Hcall; intros E; destruct E; reflexivity |].
  apply wp_bind, wp_lift. rewrite advance_ok; [| lia | lia | exact Hlt | lia]. cbn [ok].
  apply Hcall. intros _. cbn. rewrite Ecb. pose proof (next_grid_after (slot_when s) (slot_period s) now ltac:(lia)).
  split_and!; [discriminate | lia | lia | exact Hp | exact Hlt].
Qed.
End firing.

(** ** Handles *)

Definition handle_of (n : Z) : Z := if (n =? 0)%Z then u32 (n + 1) else n.
Definition after_of (n : Z) : Z := if (n =? 0)%Z then u32 (u32 (n + 1) + 1) else u32 (n + 1).

Lemma next_handle_id_eq core t d : timetables d !! core = Some t ->
  next_handle_id core d = Ok (handle_of (next_id t), at_table core (set_next_id (after_of (next_id t)) t) [] d).
Proof.
  intros Ht. unfold next_handle_id, kbind, get_table. rewrite Ht. unfold handle_of, after_of, modify_table.
  destruct (next_id t =? 0)%Z; rewrite Ht; reflexivity.
Qed.

Lemma find_id_Some id l i : find_id id l = Some i <->
  exists s, l !! i = Some s /\ slot_id s = id /\ forall j y, l !! j = Some y -> j < i -> slot_id y <> id.
Proof.
  unfold find_id. split.
  - destruct (list_find _ l) as [[j s] |] eqn:E; [| discriminate]. intros [= ->]. apply list_find_Some in E as (H1 & H2 & H3). eauto 6.
  - intros (s & H1 & H2 & H3).
    assert (E : list_find (fun s => slot_id s = id) l = Some (i, s)) by (apply list_find_Some; eauto). rewrite E. reflexivity.
Qed.

Lemma find_id_None id l : find_id id l = None <-> forall i s, l !! i = Some s -> slot_id s <> id.
Proof.
  unfold find_id. split.
  - destruct (list_find _ l) as [[j s] |] eqn:E; [discriminate |]. intros _ i s Hs. apply list_find_None in E.
    exact (Forall_lookup_1 _ _ _ _ E Hs).
  - intros Hall. assert (E : list_find (fun s => slot_id s = id) l = None).
    { apply list_find_None, Forall_lookup_2. exact Hall. } rewrite E. reflexivity.
Qed.

(** Identifiers in use are below the next one: true until 2^32 handles have
    been issued on the core. *)
Record ids_ok (t : timetable) : Prop := {
  ids_next : (0 < next_id t < 2 ^ 32)%Z;
  ids_below : forall i s, slots t !! i = Some s -> slot_id s <> 0%Z -> (0 < slot_id s < next_id t)%Z;
  ids_once : forall i j s s', slots t !! i = Some s -> slots t !! j = Some s' -> slot_id s <> 0%Z -> slot_id s = slot_id s' -> i = j;
  ids_free : forall i s, slots t !! i = Some s -> slot_id s = 0%Z -> s = free_slot
}.

(** The table with a slot claimed for the next handle, and with one freed. *)
Definition claimed (i : nat) (w period : Z) (cb : option nat) (arg : nat) (t : timetable) : timetable :=
  set_slots (<[i := Slot (handle_of (next_id t)) w period cb arg]> (slots t)) (set_next_id (after_of (next_id t)) t).
Definition freed (i : nat) (t : timetable) : timetable := set_slots (<[i := free_slot]> (slots t)) t.

Lemma handle_of_next t : ids_ok t -> handle_of (next_id t) = next_id t.
Proof. intros [Hn _ _ _]. unfold handle_of. rewrite (proj2 (Z.eqb_neq _ _)) by lia. reflexivity. Qed.

Lemma claimed_ids t i w period cb arg s : ids_ok t -> (next_id t + 1 < 2 ^ 32)%Z -> slots t !! i = Some s ->
  ids_ok (claimed i w period cb arg t).
Proof.
  intros Hids Hlt Hs. pose proof Hids as [H1 H2 H3 H4]. pose proof (handle_of_next t Hids) as Eh.
  assert (Ea : after_of (next_id t) = (next_id t + 1)%Z).
  { unfold after_of. rewrite (proj2 (Z.eqb_neq _ _)) by lia. apply wrap_small. lia. }
  assert (Hi : i < length (slots t)) by (eapply lookup_lt_Some, Hs).
  split; cbn; rewrite ?Ea, ?Eh.
  - lia.
  - intros j x Hx Hid. destruct (decide (j = i)) as [-> | Hne].
    + rewrite list_lookup_insert_eq in Hx by exact Hi. injection Hx as <-. cbn. lia.
    + rewrite list_lookup_insert_ne in Hx by congruence. specialize (H2 j x Hx Hid). lia.
  - intros j k x y Hx Hy Hid E. destruct (decide (j = i)) as [-> | Hj], (decide (k = i)) as [-> | Hk]; [reflexivity | | |].
    + rewrite list_lookup_insert_eq in Hx by exact Hi. injection Hx as <-. rewrite list_lookup_insert_ne in Hy by congruence.
      cbn in E. assert (slot_id y <> 0%Z) by lia. specialize (H2 k y Hy ltac:(lia)). lia.
    + rewrite list_lookup_insert_eq in Hy by exact Hi. injection Hy as <-. rewrite list_lookup_insert_ne in Hx by congruence.
      cbn in E. specialize (H2 j x Hx Hid). lia.
    + rewrite list_lookup_insert_ne in Hx, Hy by congruence. eauto.
  - intros j x Hx. destruct (decide (j = i)) as [-> | Hne].
    + rewrite list_lookup_insert_eq in Hx by exact Hi. injection Hx as <-. cbn. lia.
    + rewrite list_lookup_insert_ne in Hx by congruence. eauto.
Qed.

Lemma freed_ids t i : ids_ok t -> ids_ok (freed i t).
Proof.
  intros [H1 H2 H3 H4]. split; cbn; [exact H1 | | |].
  - intros j x Hx Hid. destruct (decide (j = i)) as [-> | Hne].
    + destruct (decide (i < length (slots t))) as [Hi | Hi]; [| rewrite list_insert_ge in Hx by lia; eauto].
      rewrite list_lookup_insert_eq in Hx by exact Hi. injection Hx as <-. destruct Hid. reflexivity.
    + rewrite list_lookup_insert_ne in Hx by congruence. eauto.
  - intros j k x y Hx Hy Hid E. apply list_lookup_insert_Some in Hx as [(-> & <- & _) | (Hj & Hx)]; [destruct Hid; reflexivity |].
    apply list_lookup_insert_Some in Hy as [(-> & <- & _) | (Hk & Hy)]; [rewrite E in Hid; destruct Hid; reflexivity | eauto].
  - intros j x Hx. apply list_lookup_insert_Some in Hx as [(-> & <- & _) | (_ & Hx)]; [reflexivity | eauto].
Qed.

(** A handle just issued names the slot it was issued for. *)
Lemma find_claimed t i w period cb arg s : ids_ok t -> slots t !! i = Some s ->
  find_id (next_id t) (slots (claimed i w period cb arg t)) = Some i.
Proof.
  intros Hids Hs. apply find_id_Some. cbn. rewrite (handle_of_next t Hids). eexists. split_and!.
  - apply list_lookup_insert_eq. eapply lookup_lt_Some, Hs.
  - reflexivity.
  - intros j y Hy Hj. rewrite list_lookup_insert_ne in Hy by lia. intros E.
    pose proof (ids_next t Hids). pose proof (ids_below t Hids j y Hy). lia.
Qed.

(** ** The operations, as equations *)

Section operations.
Context (core : nat) (t : timetable) (d : driver).
Context (Ht : timetables d !! core = Some t) (Hinit : initialised d = true).

Lemma put_slot_eq i s es t0 d0 : timetables d0 !! core = Some t0 ->
  put_slot core i s (at_table core t es d0) = Ok (tt, at_table core (set_slots (<[i := s]> (slots t)) t) es d0).
Proof.
  intros Ht0. unfold put_slot, modify_table. rewrite (at_table_lookup _ t0) by exact Ht0. do 2 f_equal.
  unfold at_table, set_timetables. cbn. rewrite list_insert_insert_eq. reflexivity.
Qed.
End operations.

Definition rearm_call (core : nat) (l : list slot) : time_call :=
  if (Tickless.earliest_of l =? TimePoint.max)%Z then time_disarm core else time_arm core (Tickless.earliest_of l).

Lemma rearm_eq core t es t0 d : timetables d !! core = Some t0 ->
  Tickless.rearm_locked core (at_table core t es d) = Ok (tt, at_table core t (rearm_call core (slots t) :: es) d).
Proof.
  intros Ht. unfold Tickless.rearm_locked, kbind, get_table. rewrite (at_table_lookup _ t0) by exact Ht.
  unfold rearm_call. destruct (_ =? _)%Z; reflexivity.
Qed.

Section drivers.
Context (core : nat) (t : timetable) (d : driver).
Context (Ht : timetables d !! core = Some t) (Hinit : initialised d = true).

Definition rearmed (t' : timetable) : list time_call := if started t' then [rearm_call core (slots t')] else [].

Lemma tickless_schedule_at_eq tp f arg : Tickless.schedule_at core tp (Some f) arg d =
  Ok (match find_id 0 (slots t) with
      | Some i => let t' := claimed i tp 0 (Some f) arg t in (handle_of (next_id t), at_table core t' (rearmed t') d)
      | None => (0%Z, d)
      end).
Proof.
  unfold Tickless.schedule_at, kbind at 1, kget. rewrite Hinit. unfold kbind at 1, kensure. rewrite bool_decide_false by discriminate.
  unfold kbind at 1, get_table. rewrite Ht. destruct (find_id 0 (slots t)) as [i |]; [| reflexivity].
  unfold kbind at 1. rewrite (next_handle_id_eq core t d Ht). unfold kbind at 1. rewrite (put_slot_eq core _ i _ _ t) by exact Ht.
  unfold kbind at 1, rearmed. cbn [started claimed set_slots set_next_id].
  destruct (started t); [| reflexivity]. erewrite rearm_eq by exact Ht. reflexivity.
Qed.

Lemma tickless_schedule_recurring_eq now interval f arg : (interval <> 0)%Z ->
  Tickless.schedule_recurring core now interval (Some f) arg d =
  Ok (match find_id 0 (slots t) with
      | Some i => let t' := claimed i (if started t then u64 (now + interval) else 0%Z) interval (Some f) arg t in
          (handle_of (next_id t), at_table core t' (rearmed t') d)
      | None => (0%Z, d)
      end).
Proof.
  intros Hne. unfold Tickless.schedule_recurring, kbind at 1, kget. rewrite Hinit. unfold kbind at 1, kensure.
  rewrite bool_decide_false, (proj2 (Z.eqb_neq _ _)) by (discriminate || exact Hne). cbn [orb].
  unfold kbind at 1, get_table. rewrite Ht. destruct (find_id 0 (slots t)) as [i |]; [| reflexivity].
  unfold kbind at 1. rewrite (next_handle_id_eq core t d Ht). unfold kbind at 1, rearmed. cbn [started claimed set_slots set_next_id].
  destruct (started t); unfold kbind; rewrite (put_slot_eq core _ i _ _ t) by exact Ht; [| reflexivity].
  erewrite rearm_eq by exact Ht. reflexivity.
Qed.

Lemma tickless_cancel_eq h : (h <> 0)%Z -> Tickless.cancel core h d =
  Ok (match find_id h (slots t) with
      | Some i => let t' := freed i t in (true, at_table core t' (rearmed t') d)
      | None => (false, d)
      end).
Proof.
  intros Hne. unfold Tickless.cancel. rewrite (proj2 (Z.eqb_neq _ _)) by exact Hne. unfold kbind at 1, kget. rewrite Hinit.
  unfold kbind at 1, kensure. unfold kbind at 1, get_table. rewrite Ht. destruct (find_id h (slots t)) as [i |]; [| reflexivity].
  unfold kbind at 1. pose proof (put_slot_eq core t i free_slot [] t d Ht) as E. rewrite (at_table_id core t d Ht) in E. rewrite E.
  unfold kbind, rearmed. cbn [started freed set_slots]. destruct (started t); [| reflexivity]. erewrite rearm_eq by exact Ht. reflexivity.
Qed.

Lemma periodic_schedule_at_eq tp f arg : Periodic.schedule_at core tp (Some f) arg d =
  Ok (match find_id 0 (slots t) with
      | Some i => (handle_of (next_id t), at_table core (claimed i tp 0 (Some f) arg t) [] d)
      | None => (0%Z, d)
      end).
Proof.
  unfold Periodic.schedule_at, kbind at 1, kget. rewrite Hinit. unfold kbind at 1, kensure. rewrite bool_decide_false by discriminate.
  unfold kbind at 1, get_table. rewrite Ht. destruct (find_id 0 (slots t)) as [i |]; [| reflexivity].
  unfold kbind at 1. rewrite (next_handle_id_eq core t d Ht). unfold kbind. rewrite (put_slot_eq core _ i _ _ t) by exact Ht. reflexivity.
Qed.

Lemma periodic_cancel_eq h : (h <> 0)%Z -> Periodic.cancel core h d =
  Ok (match find_id h (slots t) with
      | Some i => (true, at_table core (freed i t) [] d)
      | None => (false, d)
      end).
Proof.
  intros Hne. unfold Periodic.cancel. rewrite (proj2 (Z.eqb_neq _ _)) by exact Hne. unfold kbind at 1, kget. rewrite Hinit.
  unfold kbind at 1, kensure. unfold kbind at 1, get_table. rewrite Ht. destruct (find_id h (slots t)) as [i |]; [| reflexivity].
  unfold kbind. pose proof (put_slot_eq core t i free_slot [] t d Ht) as E. rewrite (at_table_id core t d Ht) in E. rewrite E. reflexivity.
Qed.

Lemma tickless_start_eq now : started t = false -> Tickless.start core now d =
  Ok (tt, let t' := set_started true (set_slots (anchored now <$> slots t) t) in
          at_table core t' [time_irq_enable core; rearm_call core (slots t'); time_setup core 0] d).
Proof.
  intros Hs. unfold Tickless.start, kbind at 1, get_table. rewrite Ht, Hs. unfold kbind at 1, kget. rewrite Hinit.
  unfold kbind at 1, kensure. unfold kbind at 1, emit at 1, kmodify. unfold kbind at 1, anchor_pended_recurring, modify_table. cbn [timetables]. rewrite Ht.
  unfold kbind at 1. cbn [timetables set_timetables]. rewrite list_lookup_insert_eq by (eapply lookup_lt_Some, Ht).
  set (t' := set_started true _). unfold kbind at 1.
  match goal with |- context [Tickless.rearm_locked core ?s] => change s with (set_timetables (<[core := t']> (<[core := set_slots (anchored now <$> slots t) t]> (timetables d)))
     (Driver (initialised d) (frequency_hz d) (timetables d) (time_setup core 0 :: time_calls d))) end.
  rewrite list_insert_insert_eq.
  change (set_timetables (<[core := t']> (timetables d)) (Driver (initialised d) (frequency_hz d) (timetables d) (time_setup core 0 :: time_calls d)))
    with (at_table core t' [time_setup core 0] d). erewrite rearm_eq by exact Ht. reflexivity.
Qed.
End drivers.

(** ** What the one-shot is armed to *)

Lemma earliest_from_spec l : forall e, let m := fold_left Tickless.earlier l e in
  (m <= e)%Z /\ (forall i s, l !! i = Some s -> slot_id s <> 0%Z -> (m <= slot_when s)%Z) /\
  (m = e \/ exists i s, l !! i = Some s /\ slot_id s <> 0%Z /\ slot_when s = m).
Proof.
  induction l as [| s l IH]; intros e; cbn [fold_left].
  - split_and!; [lia | intros i s Hs; rewrite lookup_nil in Hs; discriminate | auto].
  - destruct (IH (Tickless.earlier e s)) as (H1 & H2 & H3). cbv zeta in *. set (m := fold_left _ _ _) in *.
    assert (Hc : (Tickless.earlier e s <= e)%Z /\ (slot_id s <> 0%Z -> (Tickless.earlier e s <= slot_when s)%Z) /\
      (Tickless.earlier e s = e \/ slot_id s <> 0%Z /\ Tickless.earlier e s = slot_when s)).
    { unfold Tickless.earlier. destruct (Z.eqb_spec (slot_id s) 0) as [E | E]; cbn [negb andb]; [split_and!; [lia | lia | auto] |].
      destruct (Z.ltb_spec (slot_when s) e); split_and!; try lia; auto. }
    destruct Hc as (C1 & C2 & C3). split_and!; [lia | |].
    + intros [| i] x Hx Hid; cbn in Hx; [injection Hx as <-; specialize (C2 Hid); lia | eauto].
    + destruct H3 as [-> | (i & x & Hx & Hid & E)]; [| right; exists (S i), x; auto].
      destruct C3 as [-> | [Hid E]]; [auto | right; exists 0, s; auto].
Qed.

(** What [core]'s one-shot was last told: a deadline, or nothing. *)
Fixpoint armed (core : nat) (es : list time_call) : option Z :=
  match es with
  | [] => None
  | time_arm c dl :: es => if c =? core then Some dl else armed core es
  | time_disarm c :: es => if c =? core then None else armed core es
  | _ :: es => armed core es
  end.

(** The earliest live deadline short of the end of time. *)
Definition wanted (l : list slot) (dl : option Z) : Prop :=
  match dl with
  | Some w => (w < TimePoint.max)%Z /\ (exists i s, l !! i = Some s /\ slot_id s <> 0%Z /\ slot_when s = w) /\
      forall i s, l !! i = Some s -> slot_id s <> 0%Z -> (w <= slot_when s)%Z
  | None => forall i s, l !! i = Some s -> slot_id s <> 0%Z -> (TimePoint.max <= slot_when s)%Z
  end.

Lemma armed_rearm core l es : wanted l (armed core (rearm_call core l :: es)).
Proof.
  unfold rearm_call, Tickless.earliest_of. destruct (earliest_from_spec l TimePoint.max) as (H1 & H2 & H3). cbv zeta in *.
  set (m := fold_left _ _ _) in *. destruct (Z.eqb_spec m TimePoint.max) as [E | E]; cbn [armed]; rewrite Nat.eqb_refl; cbn [wanted].
  - intros i s Hs Hid. specialize (H2 i s Hs Hid). lia.
  - split_and!; [lia | | exact H2]. destruct H3 as [| H3]; [contradiction | exact H3].
Qed.
End slots.
