(* ===== verification/Simulation.v ===== *)
(** * The simulation time driver: time_driver_simulation.cpp

    One clock, a list of events per core, and a pump that fires, one at a
    time, every due event of every core.  The host's steady clock is an
    argument, in nanoseconds; starting and joining the background thread is
    recorded as a flag. *)

From S2P Require Import Prelude State Time.

Module Simulation.
Inductive mode := virtual_time | real_time.
#[global] Instance mode_eq_dec : EqDecision mode.
Proof. solve_decision. Defined.

Record event := Event {
  ev_id : Z;
  ev_when : Z;
  ev_period : Z;
  ev_cb : option nat;
  ev_arg : nat;
  ev_cancelled : bool
}.

Definition set_ev_when (w : Z) (e : event) : event := Event (ev_id e) w (ev_period e) (ev_cb e) (ev_arg e) (ev_cancelled e).
Definition set_ev_cancelled (b : bool) (e : event) : event := Event (ev_id e) (ev_when e) (ev_period e) (ev_cb e) (ev_arg e) b.

Record per_core_state := PerCore {
  events : list event;
  pc_next_id : Z
}.

Definition set_events (l : list event) (p : per_core_state) : per_core_state := PerCore l (pc_next_id p).
Definition set_pc_next_id (n : Z) (p : per_core_state) : per_core_state := PerCore (events p) n.

Record driver_state := DriverState {
  active_mode : mode;
  tick_frequency_hz : Z;
  running : bool;
  virtual_now : Z;
  realtime_epoch : Z;
  started : bool;
  per_core : list per_core_state;
  fired : list (nat * nat)       (* the callbacks run, the latest first *)
}.

Definition set_active_mode (x : mode) (d : driver_state) : driver_state :=
  DriverState x (tick_frequency_hz d) (running d) (virtual_now d) (realtime_epoch d) (started d) (per_core d) (fired d).
Definition set_running (x : bool) (d : driver_state) : driver_state :=
  DriverState (active_mode d) (tick_frequency_hz d) x (virtual_now d) (realtime_epoch d) (started d) (per_core d) (fired d).
Definition set_virtual_now (x : Z) (d : driver_state) : driver_state :=
  DriverState (active_mode d) (tick_frequency_hz d) (running d) x (realtime_epoch d) (started d) (per_core d) (fired d).
Definition set_realtime_epoch (x : Z) (d : driver_state) : driver_state :=
  DriverState (active_mode d) (tick_frequency_hz d) (running d) (virtual_now d) x (started d) (per_core d) (fired d).
Definition set_started (x : bool) (d : driver_state) : driver_state :=
  DriverState (active_mode d) (tick_frequency_hz d) (running d) (virtual_now d) (realtime_epoch d) x (per_core d) (fired d).
Definition set_per_core (x : list per_core_state) (d : driver_state) : driver_state :=
  DriverState (active_mode d) (tick_frequency_hz d) (running d) (virtual_now d) (realtime_epoch d) (started d) x (fired d).
Definition set_fired (x : list (nat * nat)) (d : driver_state) : driver_state :=
  DriverState (active_mode d) (tick_frequency_hz d) (running d) (virtual_now d) (realtime_epoch d) (started d) (per_core d) x.

(** The driver, once initialised: [driver_instance] is not null. *)
Abbreviation D := (M driver_state).

Definition get_core (core : nat) : D per_core_state :=
  fun d => match per_core d !! core with Some p => Ok (p, d) | None => Panic bad_pointer end.
Definition modify_core (core : nat) (f : per_core_state -> per_core_state) : D unit :=
  fun d => match per_core d !! core with
           | Some p => Ok (tt, set_per_core (<[core := f p]> (per_core d)) d)
           | None => Panic bad_pointer
           end.

(** [new driver_state], by [initialise]. *)
Definition new_driver `{Config} (frequency_hz : Z) : driver_state :=
  DriverState virtual_time frequency_hz false 0 0 false (replicate cores (PerCore [] 1)) [].

(** [initialise] and [finalise], on [driver_instance]. *)
Definition present (instance : option driver_state) : bool := match instance with Some _ => true | None => false end.

Definition initialise `{Config} (frequency_hz : Z) (driver_instance : option driver_state) : outcome (option driver_state) :=
  ensure assert_failed (negb (present driver_instance)) ;;! Ok (Some (new_driver frequency_hz)).

Definition finalise (driver_instance : option driver_state) : outcome (option driver_state) :=
  ensure assert_failed (present driver_instance) ;;! Ok None.

Definition next_handle_id (core : nat) : D Z :=
  let* p := get_core core in
  let id := pc_next_id p in
  let after := u32 (id + 1) in
  if (id =? 0)%Z then
    modify_core core (set_pc_next_id (u32 (after + 1))) ;;* kret after
  else modify_core core (set_pc_next_id after) ;;* kret id.

(** ** Time *)

(** [steady] is the host's clock; the elapsed nanoseconds are clamped at 0
    and the product is taken in 64 bits. *)
Definition realtime_now_ticks (steady : Z) (d : driver_state) : Z :=
  if negb (started d) then 0%Z
  else (u64 (Z.max (steady - realtime_epoch d) 0 * tick_frequency_hz d) / 1000000000)%Z.

Definition now (steady : Z) (d : driver_state) : Z :=
  if bool_decide (active_mode d = virtual_time) then virtual_now d else realtime_now_ticks steady d.

Definition from_milliseconds (ms : Z) : D Z :=
  let* hz := kget tick_frequency_hz in kret (u64 (u64 (ms * hz) + 999) / 1000)%Z.
Definition from_microseconds (us : Z) : D Z :=
  let* hz := kget tick_frequency_hz in kret (u64 (u64 (us * hz) + 999999) / 1000000)%Z.
Definition to_milliseconds (d : Z) : D Z :=
  let* hz := kget tick_frequency_hz in kret (u64 (u64 (d * 1000) + hz / 2) / hz)%Z.
Definition to_microseconds (d : Z) : D Z :=
  let* hz := kget tick_frequency_hz in kret (u64 (u64 (d * 1000000) + hz / 2) / hz)%Z.

(** ** The pump *)

Definition due (now_ticks : Z) (e : event) : bool :=
  negb (ev_id e =? 0)%Z && negb (ev_cancelled e) && (ev_when e <=? now_ticks)%Z.

(** One event taken off a core's list: the list without the cancelled, the
    first due, and the list without it or with it advanced. *)
Definition take_due (now_ticks : Z) (l : list event) : outcome (option event * list event) :=
  let l := filter (fun e => ev_cancelled e = false) l in
  match list_find (fun e => due now_ticks e = true) l with
  | None => Ok (None, l)
  | Some (i, e) =>
      if (ev_period e =? 0)%Z then Ok (Some e, delete i l)
      else
        let! w := Timetable.advance (Timetable.advance_fuel (ev_when e) (ev_period e) now_ticks)
                    (ev_when e) (ev_period e) now_ticks in
        Ok (Some e, <[i := set_ev_when w e]> l)
  end.

Section pump.
Context (invoke : nat -> nat -> D unit).

(** [while (true)], for one core. *)
Fixpoint fire_core (fuel core : nat) (now_ticks : Z) : D unit :=
  match fuel with
  | O => klift (Panic out_of_fuel)
  | S fuel =>
      let* p := get_core core in
      let* '(e, l) := klift (take_due now_ticks (events p)) in
      modify_core core (set_events l) ;;*
      match e with
      | None => kret tt
      | Some e =>
          match ev_cb e with
          | Some cb => kmodify (fun d => set_fired ((cb, ev_arg e) :: fired d) d) ;;* invoke cb (ev_arg e)
          | None => kret tt
          end ;;*
          fire_core fuel core now_ticks
      end
  end.

Fixpoint fire_cores (fuel todo core : nat) (now_ticks : Z) : D unit :=
  match todo with
  | O => kret tt
  | S todo => fire_core fuel core now_ticks ;;* fire_cores fuel todo (S core) now_ticks
  end.

Definition fire_due_callbacks (fuel : nat) (now_ticks : Z) : D unit :=
  let* d := kget id in
  fire_cores fuel (length (per_core d)) 0 now_ticks.

Definition pump_due (fuel : nat) (steady : Z) : D unit :=
  let* t := kget (now steady) in
  fire_due_callbacks fuel t.

(** ** Control *)

Definition advance_to (fuel : nat) (steady tp : Z) : D unit :=
  let* m := kget active_mode in
  kensure assert_failed (bool_decide (m = virtual_time)) ;;*
  let* cur := kget virtual_now in
  kmodify (set_virtual_now (Z.max tp cur)) ;;*
  pump_due fuel steady.

Definition advance_by (fuel : nat) (steady d : Z) : D unit :=
  let* m := kget active_mode in
  kensure assert_failed (bool_decide (m = virtual_time)) ;;*
  let* current := kget virtual_now in
  advance_to fuel steady (u64 (current + d)).
End pump.

(** ** Scheduling *)

Definition schedule_at (core : nat) (tp : Z) (cb : option nat) (arg : nat) : D Z :=
  if bool_decide (cb = None) then kret 0%Z
  else
    let* id := next_handle_id core in
    modify_core core (fun p => set_events (events p ++ [Event id tp 0 cb arg false]) p) ;;*
    kret id.

Definition schedule_recurring (core : nat) (steady interval : Z) (cb : option nat) (arg : nat) : D Z :=
  if bool_decide (cb = None) || (interval =? 0)%Z then kret 0%Z
  else
    let* id := next_handle_id core in
    let* t := kget (now steady) in
    modify_core core (fun p => set_events (events p ++ [Event id (u64 (t + interval)) interval cb arg false]) p) ;;*
    kret id.

Definition cancel (core : nat) (h : Z) : D bool :=
  if (h =? 0)%Z then kret false
  else
    let* p := get_core core in
    match list_find (fun e => ev_id e = h /\ ev_cancelled e = false) (events p) with
    | Some (i, e) => modify_core core (set_events (<[i := set_ev_cancelled true e]> (events p))) ;;* kret true
    | None => kret false
    end.

(** ** Starting, stopping and modes *)

Definition start (steady : Z) : D unit :=
  kmodify (set_started true) ;;*
  let* m := kget active_mode in
  if bool_decide (m = real_time) then
    let* already := kget running in
    if already : bool then kret tt
    else kmodify (set_running true) ;;* kmodify (set_realtime_epoch steady)
  else kret tt.

Definition stop : D unit :=
  let* m := kget active_mode in
  if bool_decide (m = real_time) then kmodify (set_running false) else kret tt.

Definition set_mode (m : mode) : D unit :=
  let* busy := kget running in
  kensure assert_failed (negb busy) ;;*
  kmodify (set_active_mode m).

Definition reset (tp : Z) : D unit :=
  let* busy := kget running in
  kensure assert_failed (negb busy) ;;*
  kmodify (fun d => set_per_core ((fun _ => PerCore [] 1) <$> per_core d) d) ;;*
  kmodify (set_virtual_now tp) ;;*
  kmodify (set_started false) ;;*
  kmodify (set_realtime_epoch 0).
End Simulation.
