(* ===== verification/TimeProperties.v ===== *)
(** * The simulation's pump, and the properties of the time drivers

    With callbacks that leave the driver alone, one advance of the clock fires
    every due event of every core, once, in the order of each core's list, and
    leaves the rest as they were. *)

From S2P Require Import Prelude State Time TimeProofs Simulation.
Section pump.
Import Simulation.
Context (now_ticks : Z).

Definition event_ok (e : event) : Prop :=
  ev_cb e <> None /\ (0 <= ev_when e)%Z /\ (0 <= ev_period e)%Z /\ (now_ticks + ev_period e < 2 ^ 64)%Z.

(** What the pump leaves of an event, and what it runs. *)
Definition pumped (e : event) : option event :=
  if ev_cancelled e then None
  else if due now_ticks e then
    if (ev_period e =? 0)%Z then None else Some (set_ev_when (next_grid (ev_when e) (ev_period e) now_ticks) e)
  else Some e.

Definition runs (e : event) : option (nat * nat) :=
  if due now_ticks e then (fun cb => (cb, ev_arg e)) <$> ev_cb e else None.

Lemma due_live e : due now_ticks e = true -> ev_cancelled e = false /\ (ev_when e <= now_ticks)%Z.
Proof.
  unfold due. rewrite !andb_true_iff, !negb_true_iff, Z.leb_le. tauto.
Qed.

Lemma advanced_not_due e : event_ok e -> (ev_period e <> 0)%Z ->
  due now_ticks (set_ev_when (next_grid (ev_when e) (ev_period e) now_ticks) e) = false.
Proof.
  intros (_ & _ & Hp & _) Hne. unfold due. cbn. pose proof (next_grid_after (ev_when e) (ev_period e) now_ticks ltac:(lia)).
  rewrite (proj2 (Z.leb_gt _ _)) by lia. apply andb_false_r.
Qed.

(** The number of passes a list still needs. *)
Definition pending (l : list event) : nat := length (filter (fun e => due now_ticks e = true) l).

Lemma pending_app l1 l2 : pending (l1 ++ l2) = pending l1 + pending l2.
Proof. unfold pending. rewrite filter_app, length_app. reflexivity. Qed.

Lemma omap_live {B} (f : event -> option B) (l : list event) : (forall e, ev_cancelled e = true -> f e = None) ->
  omap f (filter (fun e => ev_cancelled e = false) l) = omap f l.
Proof.
  intros Hf. induction l as [| e l IH]; [reflexivity |]. rewrite filter_cons. destruct (decide _) as [E | E]; cbn; rewrite IH; [reflexivity |].
  rewrite Hf by (destruct (ev_cancelled e); congruence). reflexivity.
Qed.

(** One pass. *)
Lemma take_due_ok l : Forall event_ok l -> exists r l',
  take_due now_ticks l = Ok (r, l') /\ Forall event_ok l' /\ omap pumped l' = omap pumped l /\
  match r with
  | None => omap pumped l = l' /\ omap runs l = []
  | Some e => omap runs l = (match ev_cb e with Some cb => [(cb, ev_arg e)] | None => [] end) ++ omap runs l' /\
      ev_cb e <> None /\ pending l' < pending l
  end.
Proof.
  intros Hok. unfold take_due. set (live := filter _ l).
  assert (Hlive : Forall event_ok live) by (apply Forall_forall; intros e He; apply list_elem_of_filter in He as [_ He]; exact (proj1 (Forall_forall _ _) Hok e He)).
  assert (Ep : omap pumped live = omap pumped l) by (apply omap_live; intros e E; unfold pumped; rewrite E; reflexivity).
  assert (Er : omap runs live = omap runs l).
  { apply omap_live. intros e E. unfold runs. destruct (due now_ticks e) eqn:Ed; [| reflexivity].
    apply due_live in Ed as [Ed _]. congruence. }
  assert (Epend : pending live <= pending l).
  { unfold pending, live. rewrite list_filter_filter. 
    rewrite (list_filter_iff _ (fun e => due now_ticks e = true)); [lia |]. intros e. split; [tauto |]. intros E. split; [exact E |].
    apply due_live in E. tauto. }
  assert (Hnc : forall i e, live !! i = Some e -> ev_cancelled e = false).
  { intros i e He. apply list_elem_of_lookup_2, list_elem_of_filter in He. tauto. }
  destruct (list_find _ live) as [[i e] |] eqn:Ef.
  - apply list_find_Some in Ef as (He & Hd & Hbefore).
    pose proof (take_drop_middle _ _ _ He) as Esplit. assert (Heok : event_ok e) by (eapply Forall_lookup_1; [exact Hlive | exact He]).
    pose proof Heok as (Hcb & Hw & Hp & Hlt). destruct (due_live e Hd) as [_ Hle].
    assert (Hpre : omap runs (take i live) = []).
    { apply list_eq. intros j. rewrite lookup_nil. apply eq_None_not_Some. intros [y Hy].
      apply list_elem_of_lookup_2, list_elem_of_omap in Hy as (x & Hx & Ex). apply list_elem_of_lookup_1 in Hx as [k Hk].
      apply lookup_take_Some in Hk as [Hk Hki]. specialize (Hbefore k x Hk Hki). unfold runs in Ex.
      destruct (due now_ticks x); [contradiction | discriminate]. }
    assert (Erun : runs e = (fun cb => (cb, ev_arg e)) <$> ev_cb e) by (unfold runs; rewrite Hd; reflexivity).
    assert (Eruns : omap runs l = (match ev_cb e with Some cb => [(cb, ev_arg e)] | None => [] end) ++ omap runs (drop (S i) live)).
    { rewrite <- Er, <- Esplit at 1. rewrite omap_app, Hpre. cbn. rewrite Erun. destruct (ev_cb e); reflexivity. }
    assert (Epd : pending live = pending (take i live) + (1 + pending (drop (S i) live))).
    { rewrite <- Esplit at 1. rewrite pending_app. f_equal. unfold pending. rewrite filter_cons_True by exact Hd. reflexivity. }
    destruct (Z.eqb_spec (ev_period e) 0) as [E0 | E0].
    + assert (Epu : pumped e = None) by (unfold pumped; rewrite (Hnc i e He), Hd, E0; reflexivity).
      exists (Some e), (delete i live). split_and!; auto.
      * apply Forall_delete, Hlive.
      * rewrite <- Ep. rewrite delete_take_drop. rewrite <- Esplit at 3. rewrite !omap_app. cbn. rewrite Epu. reflexivity.
      * rewrite delete_take_drop, omap_app, Hpre. exact Eruns.
      * rewrite delete_take_drop, pending_app. lia.
    + rewrite advance_ok by lia. cbn [obind]. set (e' := set_ev_when _ e). exists (Some e), (<[i := e']> live).
      assert (Hnd : due now_ticks e' = false) by (apply advanced_not_due; assumption).
      assert (Eins : <[i := e']> live = take i live ++ e' :: drop (S i) live).
      { rewrite insert_take_drop by (eapply lookup_lt_Some, He). reflexivity. }
      assert (Epu : pumped e = Some e') by (unfold pumped; rewrite (Hnc i e He), Hd, (proj2 (Z.eqb_neq _ _) E0); reflexivity).
      assert (Epu' : pumped e' = Some e') by (unfold pumped; rewrite Hnd; change (ev_cancelled e') with (ev_cancelled e); rewrite (Hnc i e He); reflexivity).
      assert (Eru : runs e' = None) by (unfold runs; rewrite Hnd; reflexivity).
      split_and!; auto.
      * apply Forall_insert; [exact Hlive |]. unfold event_ok, e'. cbn.
        pose proof (next_grid_after (ev_when e) (ev_period e) now_ticks ltac:(lia)). split_and!; [exact Hcb | lia | exact Hp | exact Hlt].
      * rewrite <- Ep, Eins. rewrite <- Esplit at 3. rewrite !omap_app. f_equal. cbn. rewrite Epu, Epu'. reflexivity.
      * rewrite Eins, omap_app, Hpre. cbn. rewrite Eru. exact Eruns.
      * rewrite Eins, pending_app. assert (E : pending (e' :: drop (S i) live) = pending (drop (S i) live)).
        { unfold pending. rewrite filter_cons_False; [reflexivity | congruence]. } lia.
  - apply list_find_None in Ef. exists None, live. split_and!; auto.
    + rewrite <- Ep. assert (Hall : forall e, e ∈ live -> pumped e = Some e).
      { intros e He. apply list_elem_of_lookup_1 in He as [i He]. pose proof (Forall_lookup_1 _ _ _ _ Ef He) as Hd. cbn in Hd.
        unfold pumped. rewrite (Hnc i e He). destruct (due now_ticks e); [contradiction | reflexivity]. }
      clear - Hall. clearbody live. clear l. induction live as [| e l IH]; [reflexivity |]. cbn. rewrite Hall by left. f_equal. apply IH. intros x Hx. apply Hall. right. exact Hx.
    + rewrite <- Er. apply list_eq. intros j. rewrite lookup_nil. apply eq_None_not_Some. intros [y Hy].
      apply list_elem_of_lookup_2, list_elem_of_omap in Hy as (x & Hx & Ex). apply list_elem_of_lookup_1 in Hx as [k Hk].
      pose proof (Forall_lookup_1 _ _ _ _ Ef Hk) as Hd. cbn in Hd. unfold runs in Ex. destruct (due now_ticks x); [contradiction | discriminate].
Qed.

(** ** All the passes, core by core *)

Definition quiet_callbacks (invoke : nat -> nat -> D unit) : Prop := forall cb arg d, invoke cb arg d = Ok (tt, d).

(** [d] with core [core]'s list [l] and the callbacks [es] run since. *)
Definition at_core (core : nat) (l : list event) (es : list (nat * nat)) (d : driver_state) : driver_state :=
  set_fired (es ++ fired d) (set_per_core (alter (set_events l) core (per_core d)) d).

Lemma at_core_at core l es l' es' d : at_core core l' es' (at_core core l es d) = at_core core l' (es' ++ es) d.
Proof.
  unfold at_core, set_fired, set_per_core. cbn. rewrite app_assoc. f_equal.
  apply list_eq. intros i. destruct (decide (i = core)) as [-> | Hne].
  - rewrite !list_lookup_alter_eq. destruct (per_core d !! core); reflexivity.
  - rewrite !list_lookup_alter_ne by congruence. reflexivity.
Qed.

Lemma modify_core_eq core p l d : per_core d !! core = Some p ->
  modify_core core (set_events l) d = Ok (tt, at_core core l [] d).
Proof.
  intros Hp. unfold modify_core. rewrite Hp. do 2 f_equal. unfold at_core, set_fired, set_per_core. cbn. f_equal.
  apply list_eq. intros i. destruct (decide (i = core)) as [-> | Hne].
  - rewrite list_lookup_insert_eq, list_lookup_alter_eq, Hp by (eapply lookup_lt_Some, Hp). reflexivity.
  - rewrite list_lookup_insert_ne, list_lookup_alter_ne by congruence. reflexivity.
Qed.

Lemma fire_core_ok invoke (Hq : quiet_callbacks invoke) core : forall fuel d p,
  per_core d !! core = Some p -> Forall event_ok (events p) -> pending (events p) < fuel ->
  fire_core invoke fuel core now_ticks d =
  Ok (tt, at_core core (omap pumped (events p)) (reverse (omap runs (events p))) d).
Proof.
  induction fuel as [| fuel IH]; intros d p Hp Hok Hf; [lia |]. cbn [fire_core].
  unfold kbind at 1, get_core. rewrite Hp. unfold kbind at 1, klift.
  destruct (take_due_ok (events p) Hok) as (r & l' & Et & Hok' & Epu & Hr). rewrite Et.
  unfold kbind at 1. rewrite (modify_core_eq core p l' d Hp). destruct r as [e |].
  - destruct Hr as (Er & Hcb & Hlt). destruct (ev_cb e) as [cb |] eqn:Ecb; [| contradiction].
    unfold kbind at 1. unfold kbind at 1, kmodify. rewrite Hq.
    set (d1 := set_fired _ _).
    assert (E1 : d1 = at_core core l' [(cb, ev_arg e)] d) by reflexivity.
    assert (Hp1 : per_core d1 !! core = Some (set_events l' p)) by (rewrite E1; cbn; rewrite list_lookup_alter_eq, Hp; reflexivity).
    rewrite (IH d1 _ Hp1); cbn [events set_events]; [| exact Hok' | lia]. rewrite E1, at_core_at, Epu, Er. cbn [app].
    rewrite reverse_cons. reflexivity.
  - destruct Hr as [<- ->]. unfold kret. reflexivity.
Qed.

Lemma fire_cores_ok invoke (Hq : quiet_callbacks invoke) fuel : forall todo core d,
  core + todo = length (per_core d) ->
  (forall i p, per_core d !! i = Some p -> Forall event_ok (events p) /\ pending (events p) < fuel) ->
  fire_cores invoke fuel todo core now_ticks d =
  Ok (tt, set_fired (reverse (concat ((fun p => omap runs (events p)) <$> drop core (per_core d))) ++ fired d)
       (set_per_core (take core (per_core d) ++ ((fun p => set_events (omap pumped (events p)) p) <$> drop core (per_core d))) d)).
Proof.
  induction todo as [| todo IH]; intros core d Hlen Hall; cbn [fire_cores].
  - rewrite drop_ge, take_ge by lia. cbn. rewrite app_nil_r. destruct d. reflexivity.
  - destruct (lookup_lt_is_Some_2 (per_core d) core ltac:(lia)) as [p Hp]. destruct (Hall core p Hp) as [Hok Hf].
    unfold kbind. rewrite (fire_core_ok invoke Hq core fuel d p Hp Hok Hf). set (d1 := at_core _ _ _ _).
    assert (Ed1 : per_core d1 = <[core := set_events (omap pumped (events p)) p]> (per_core d)).
    { cbn. apply list_eq. intros i. destruct (decide (i = core)) as [-> | Hne].
      - rewrite list_lookup_insert_eq, list_lookup_alter_eq, Hp by (eapply lookup_lt_Some, Hp). reflexivity.
      - rewrite list_lookup_insert_ne, list_lookup_alter_ne by congruence. reflexivity. }
    rewrite IH.
    + rewrite Ed1, drop_insert_lt, (take_S_r _ _ (set_events (omap pumped (events p)) p)), take_insert_ge by
        (try apply list_lookup_insert_eq; lia).
      rewrite (drop_S _ _ _ Hp). cbn [fmap list_fmap concat]. rewrite reverse_app.
      unfold d1, at_core, set_fired, set_per_core. cbn. rewrite <- !app_assoc. reflexivity.
    + rewrite Ed1, length_insert. lia.
    + intros i q Hq'. rewrite Ed1 in Hq'. apply list_lookup_insert_Some in Hq' as [(-> & <- & _) | (_ & Hq')]; [| eauto].
      cbn. assert (Hnone : forall e, e ∈ omap pumped (events p) -> event_ok e /\ due now_ticks e = false).
      { intros e He. apply list_elem_of_omap in He as (x & Hx & Ex). pose proof (proj1 (Forall_forall _ _) Hok x Hx) as Hxok.
        unfold pumped in Ex. destruct (ev_cancelled x) eqn:Ec; [discriminate |]. destruct (due now_ticks x) eqn:Ed.
        - destruct (Z.eqb_spec (ev_period x) 0); [discriminate |]. injection Ex as <-. split; [| apply advanced_not_due; assumption].
          destruct Hxok as (H1 & H2 & H3 & H4). unfold event_ok. cbn.
          pose proof (next_grid_after (ev_when x) (ev_period x) now_ticks ltac:(lia)). destruct (due_live x Ed). split_and!; [exact H1 | lia | exact H3 | exact H4].
        - injection Ex as <-. auto. }
      split; [apply Forall_forall; intros e He; apply Hnone, He |]. unfold pending.
      assert (E : filter (fun e => due now_ticks e = true) (omap pumped (events p)) = []).
      { apply list_eq. intros j. rewrite lookup_nil. apply eq_None_not_Some. intros [y Hy].
        apply list_elem_of_lookup_2, list_elem_of_filter in Hy as [Hd Hy]. destruct (Hnone y Hy). congruence. }
      rewrite E. cbn. lia.
Qed.
End pump.

(** ** The properties *)

Section claims.
Import Timetable.

(** C35: a firing pass runs every due callback once and no other. On a table
    whose deadlines are within range, the pass at [now] ends; it runs the
    callback of each due slot, in slot order; it frees the one-shots it fires,
    moves each recurring slot it fires to the first deadline of its own grid
    after [now], however many it missed, leaves the other slots as they were,
    and leaves nothing due. *)
Theorem fire_pass_exact invoke core now t d :
  (forall cb arg d, invoke cb arg d = Ok (tt, d)) -> timetables d !! core = Some t -> table_ok now t ->
  exists d' t', fire_due_isr invoke core now d = Ok (tt, d') /\ timetables d' !! core = Some t' /\
    time_calls d' = reverse (omap (run_of core now) (slots t)) ++ time_calls d /\
    Forall2 (fun s s' => due now s' = false /\
      if due now s then
        (slot_period s = 0%Z /\ s' = free_slot) \/
        (slot_period s <> 0%Z /\ exists w k, s' = set_when w s /\ w = (slot_when s + k * slot_period s)%Z /\
           (0 < k)%Z /\ (now < w <= now + slot_period s)%Z)
      else s' = s) (slots t) (slots t').
Proof.
  intros Hq Ht Hok. eexists _, _. split; [apply (fire_due_isr_ok invoke core now t d Hq Ht Hok) |].
  split; [eapply at_table_lookup, Ht |]. split; [reflexivity |]. destruct Hok as [_ Hok]. cbn [slots set_slots].
  apply Forall2_fmap_r. induction Hok as [| s l Hs _ IH]; constructor; [| exact IH]. unfold compose, fired_slot. cbn beta.
  destruct (due now s) eqn:Hd; [| auto]. unfold due in Hd. apply andb_true_iff in Hd as [Hid Hw].
  apply negb_true_iff, Z.eqb_neq in Hid. apply Z.leb_le in Hw. destruct (Hs Hid) as (_ & Hwr & Hp & _).
  destruct (Z.eqb_spec (slot_period s) 0) as [Ep | Ep]; [split; auto |].
  pose proof (next_grid_after (slot_when s) (slot_period s) now ltac:(lia)) as Hg.
  split; [unfold due; cbn; rewrite (proj2 (Z.leb_gt _ _)) by lia; apply andb_false_r |]. right. split; [exact Ep |].
  eexists _, ((now - slot_when s) / slot_period s + 1)%Z. split_and!; [reflexivity | unfold next_grid; lia | | lia | lia].
  pose proof (Z.div_pos (now - slot_when s) (slot_period s) ltac:(lia) ltac:(lia)). lia.
Qed.

(** What a core may ask of the tickless driver. *)
Inductive tickless_op :=
  | schedules_at (tp : Z) (cb : option nat) (arg : nat)
  | schedules_recurring (now interval : Z) (cb : option nat) (arg : nat)
  | cancels (h : Z)
  | timer_fires (now : Z)
  | starts (now : Z).

Definition do_op (invoke : nat -> nat -> T unit) (core : nat) (op : tickless_op) : T unit :=
  match op with
  | schedules_at tp cb arg => Tickless.schedule_at core tp cb arg ;;* kret tt
  | schedules_recurring now interval cb arg => Tickless.schedule_recurring core now interval cb arg ;;* kret tt
  | cancels h => Tickless.cancel core h ;;* kret tt
  | timer_fires now => Tickless.on_timer_isr invoke core now
  | starts now => Tickless.start core now
  end.

Definition kept_armed (core : nat) (d : driver) : Prop :=
  forall t, timetables d !! core = Some t -> started t = true -> wanted (slots t) (armed core (time_calls d)).

(** C36: the one-shot is always armed for the earliest deadline. On a core
    whose one-shot, once started, is armed for its earliest live deadline (and
    disarmed when it has none), that is still so after any operation: a
    schedule, a cancel, the start, or the timer's interrupt, whatever the
    callbacks it runs schedule or cancel themselves. *)
Theorem tickless_stays_armed invoke core op t d :
  initialised d = true -> timetables d !! core = Some t -> kept_armed core d ->
  (forall now, op = timer_fires now -> table_ok now t /\
     forall cb arg d t, timetables d !! core = Some t -> table_ok now t ->
       wp (invoke cb arg) (fun _ d' => exists t', timetables d' !! core = Some t' /\ table_ok now t' /\ started t' = started t) d) ->
  wp (do_op invoke core op) (fun _ d' => kept_armed core d') d.
Proof.
  intros Hi Ht Hkept Hfire.
  assert (Hre : forall t' es, (es = rearmed core t' \/ exists es', es = time_irq_enable core :: rearm_call core (slots t') :: es') ->
    kept_armed core (at_table core t' es d)).
  { intros t' es Hes t0 Ht0 Hs. rewrite (at_table_lookup _ t) in Ht0 by exact Ht. injection Ht0 as <-. cbn [time_calls at_table].
    destruct Hes as [-> | [es' ->]]; [unfold rearmed; rewrite Hs; apply armed_rearm |].
    exact (armed_rearm core (slots t') (es' ++ time_calls d)). }
  destruct op as [tp cb arg | now interval cb arg | h | now | now]; cbn [do_op].
  - destruct cb as [f |]; [| unfold wp, Tickless.schedule_at, kbind, kget, kensure; rewrite Hi; exact Hkept].
    unfold wp, kbind. rewrite (tickless_schedule_at_eq core t d Ht Hi). destruct (find_id 0 (slots t)); [apply Hre; auto | exact Hkept].
  - destruct cb as [f |]; [| unfold wp, Tickless.schedule_recurring, kbind, kget, kensure; rewrite Hi; exact Hkept].
    destruct (Z.eqb_spec interval 0) as [-> | Hne].
    { unfold wp, Tickless.schedule_recurring, kbind, kget, kensure. rewrite Hi, orb_true_r. exact Hkept. }
    unfold wp, kbind. rewrite (tickless_schedule_recurring_eq core t d Ht Hi) by exact Hne.
    destruct (find_id 0 (slots t)); [apply Hre; auto | exact Hkept].
  - destruct (Z.eqb_spec h 0) as [-> | Hne]; [exact Hkept |].
    unfold wp, kbind. rewrite (tickless_cancel_eq core t d Ht Hi h Hne). destruct (find_id h (slots t)); [apply Hre; auto | exact Hkept].
  - destruct (Hfire now eq_refl) as [Hok Hcb]. unfold Tickless.on_timer_isr. apply wp_bind. eapply wp_mono.
    + apply (fire_from_finishes invoke core now Hcb MAX_SCHEDULED_CALLBACKS 0 t d Ht eq_refl Hok).
    + intros ? d1 (t1 & Ht1 & _ & _). unfold wp. rewrite <- (at_table_id core t1 d1 Ht1). rewrite (rearm_eq core t1 [] t1) by exact Ht1.
      intros t0 Ht0 _. rewrite (at_table_lookup _ t1) in Ht0 by exact Ht1. injection Ht0 as <-. apply armed_rearm.
  - destruct (started t) eqn:Hs.
    + unfold wp, Tickless.start, kbind, get_table. rewrite Ht, Hs. exact Hkept.
    + unfold wp. rewrite (tickless_start_eq core t d Ht Hi now Hs). apply Hre. right. eauto.
Qed.

(** A handle names one schedule. Until a core has issued 2^32 of them, a
    schedule that finds a free slot answers a handle no live slot has; the
    table's identifiers stay distinct; and cancelling the handle succeeds and
    leaves every slot as it was before. *)
Theorem schedule_cancel_round_trip core t d tp f arg i :
  initialised d = true -> timetables d !! core = Some t -> ids_ok t -> (next_id t + 1 < 2 ^ 32)%Z ->
  find_id 0 (slots t) = Some i ->
  wp (Tickless.schedule_at core tp (Some f) arg)
    (fun h d1 => h <> 0%Z /\ (forall j s, slots t !! j = Some s -> slot_id s <> h) /\
       exists t1, timetables d1 !! core = Some t1 /\ ids_ok t1 /\ slots t1 !! i = Some (Slot h tp 0 (Some f) arg) /\
         wp (Tickless.cancel core h) (fun r d2 => r = true /\ (fun t2 => slots t2) <$> timetables d2 !! core = Some (slots t)) d1) d.
Proof.
  intros Hi Ht Hids Hlt Hfind. unfold wp at 1. rewrite (tickless_schedule_at_eq core t d Ht Hi), Hfind. cbv zeta.
  rewrite (handle_of_next t Hids). pose proof (ids_next t Hids) as Hn. apply find_id_Some in Hfind as (s & Hs & Es & _).
  assert (Hil : i < length (slots t)) by (eapply lookup_lt_Some, Hs). split_and!.
  - lia.
  - intros j x Hx E. pose proof (ids_below t Hids j x Hx). lia.
  - set (t1 := claimed i tp 0 (Some f) arg t). set (d1 := at_table core t1 _ d).
    assert (Ht1 : timetables d1 !! core = Some t1) by (eapply at_table_lookup, Ht). exists t1. split_and!; [exact Ht1 | | |].
    + eapply claimed_ids; eassumption.
    + cbn. rewrite (handle_of_next t Hids). apply list_lookup_insert_eq, Hil.
    + unfold wp. rewrite (tickless_cancel_eq core t1 d1 Ht1 Hi) by lia.
      unfold t1 at 1. rewrite (find_claimed t i tp 0 (Some f) arg s Hids Hs). split; [reflexivity |].
      rewrite (at_table_lookup _ t1) by exact Ht1. cbn. rewrite list_insert_insert_eq.
      rewrite <- (ids_free t Hids i s Hs Es), list_insert_id by exact Hs. reflexivity.
Qed.

(** A core's time begins when it starts. Starting sets up its one-shot,
    moves every recurring slot pended before the start to one period from
    now, touches no other slot, arms the earliest deadline and then enables
    the interrupt; starting again does nothing. *)
Theorem start_anchors core t d now :
  initialised d = true -> timetables d !! core = Some t -> started t = false ->
  exists d' t', Tickless.start core now d = Ok (tt, d') /\ timetables d' !! core = Some t' /\ started t' = true /\
    time_calls d' = time_irq_enable core :: rearm_call core (slots t') :: time_setup core 0 :: time_calls d /\
    wanted (slots t') (armed core (time_calls d')) /\
    Forall2 (fun s s' => s' = if negb (slot_id s =? 0)%Z && negb (slot_period s =? 0)%Z && (slot_when s =? 0)%Z
                              then set_when (u64 (now + slot_period s)) s else s) (slots t) (slots t') /\
    Tickless.start core now d' = Ok (tt, d').
Proof.
  intros Hi Ht Hs. rewrite (tickless_start_eq core t d Ht Hi now Hs). cbv zeta. set (t' := set_started true _). set (d' := at_table core t' _ d).
  assert (Ht' : timetables d' !! core = Some t') by (eapply at_table_lookup, Ht).
  exists d', t'. split_and!; [reflexivity | exact Ht' | reflexivity | reflexivity | | |].
  - exact (armed_rearm core (slots t') (time_setup core 0 :: time_calls d)).
  - cbn. apply Forall2_fmap_r. apply Forall_Forall2_diag, Forall_forall. intros s _. reflexivity.
  - unfold Tickless.start, kbind, get_table. rewrite Ht'. reflexivity.
Qed.

(** A conversion never undersleeps: in either unit the ticks asked for
    cover the time asked for, by less than one unit too many, at every
    frequency and without overflow. *)
Theorem conversions_never_undersleep hz x : (0 <= x < 2 ^ 32)%Z -> (0 < hz < 2 ^ 32)%Z ->
  (x * hz <= from_milliseconds hz x * 1000 < x * hz + 1000)%Z /\
  (x * hz <= from_microseconds hz x * 1000000 < x * hz + 1000000)%Z.
Proof. intros Hx Hhz. split; apply from_unit_ok; lia. Qed.

(** Milliseconds survive the round trip through ticks, at every
    frequency from 1999 Hz up, and microseconds from 1999999 Hz up. *)
Theorem conversions_round_trip hz x : (0 <= x < 2 ^ 32)%Z ->
  ((1999 <= hz < 2 ^ 32)%Z -> to_milliseconds hz (from_milliseconds hz x) = x) /\
  ((1999999 <= hz < 2 ^ 32)%Z -> to_microseconds hz (from_microseconds hz x) = x).
Proof. intros Hx. split; intros Hhz; apply unit_round_trip; lia. Qed.
End claims.

Section simulation_claims.
Import Simulation.

(** An advance of the simulated clock is monotone and fires exactly what
    is due. With callbacks that leave the driver alone, and the events'
    deadlines within range, the advance ends; the clock reads the later of
    the two times; each core's due events have run once, in the order they
    were scheduled, core by core; what was cancelled or spent is gone, a
    recurring event waits at the first deadline of its grid after the new
    time, and every other event is as it was. *)
Theorem advance_fires_due invoke fuel steady tp d :
  quiet_callbacks invoke -> active_mode d = virtual_time ->
  let t := Z.max tp (virtual_now d) in
  (forall i p, per_core d !! i = Some p -> Forall (event_ok t) (events p) /\ length (events p) < fuel) ->
  exists d', advance_to invoke fuel steady tp d = Ok (tt, d') /\ virtual_now d' = t /\ now steady d' = t /\
    fired d' = reverse (concat ((fun p => omap (runs t) (events p)) <$> per_core d)) ++ fired d /\
    per_core d' = (fun p => set_events (omap (pumped t) (events p)) p) <$> per_core d.
Proof.
  intros Hq Hm t Hall. unfold advance_to, kbind at 1, kget. rewrite Hm. unfold kbind at 1, kensure. rewrite bool_decide_true by reflexivity.
  unfold kbind at 1. unfold kbind at 1, kmodify. unfold pump_due, kbind at 1, kget. set (d1 := set_virtual_now _ d).
  assert (En : now steady d1 = t) by (unfold now; cbn; rewrite Hm, bool_decide_true by reflexivity; reflexivity). rewrite En.
  unfold fire_due_callbacks, kbind at 1, kget. change (per_core (id d1)) with (per_core d).
  rewrite (fire_cores_ok t invoke Hq fuel (length (per_core d)) 0 d1); [| reflexivity |].
  - eexists. split; [reflexivity |]. unfold now. cbn. rewrite Hm, bool_decide_true by reflexivity. rewrite drop_0. auto.
  - intros i p Hp. destruct (Hall i p Hp) as [Hok Hf]. split; [exact Hok |]. unfold pending.
    pose proof (length_filter (fun e => due t e = true) (events p)). lia.
Qed.
End simulation_claims.

(** ** A driver to run *)
Module TimeScenario.
Import Timetable.

(** A core with a one-shot due at 5, a recurring slot due at 7 every 10 ticks,
    and a one-shot due at 100. *)
Definition table : timetable :=
  TimetableOf true 4
    (Slot 1 5 0 (Some 11) 0 :: Slot 2 7 10 (Some 12) 0 :: Slot 3 100 0 (Some 13) 0 :: replicate 13 free_slot).
Definition clock : driver := Driver true 1000 [table; new_timetable] [time_arm 0 5].

(** The same before it starts, its recurring slot pended. *)
Definition pended : timetable :=
  TimetableOf false 4
    (Slot 1 5 0 (Some 11) 0 :: Slot 2 0 10 (Some 12) 0 :: Slot 3 100 0 (Some 13) 0 :: replicate 13 free_slot).
Definition unstarted : driver := Driver true 1000 [pended; new_timetable] [].

Definition idle_callback (cb arg : nat) : T unit := kret tt.

Lemma table_fits : table_ok 31 table.
Proof.
  split; [reflexivity |]. repeat apply Forall_cons_2; try apply Forall_nil_2;
    intros E; cbn in E |- *; try (destruct E; reflexivity); split_and!; (discriminate || lia).
Qed.

Lemma table_from_5 i s : slots table !! i = Some s -> slot_id s <> 0%Z -> (5 <= slot_when s)%Z.
Proof.
  intros Hs Hid. do 3 (destruct i as [| i]; [injection Hs as <-; cbn; lia |]).
  apply lookup_replicate in Hs as [-> _]. destruct Hid. reflexivity.
Qed.

Lemma table_ids : ids_ok table.
Proof.
  split; [cbn; lia | | |].
  - intros i s Hs Hid. do 3 (destruct i as [| i]; [injection Hs as <-; cbn; lia |]).
    apply lookup_replicate in Hs as [-> _]. destruct Hid. reflexivity.
  - intros i j s s' Hs Hs' Hid E.
    assert (Hs3 : forall k x, slots table !! k = Some x -> slot_id x <> 0%Z -> slot_id x = Z.of_nat (S k)).
    { intros k x Hx Hx0. do 3 (destruct k as [| k]; [injection Hx as <-; reflexivity |]).
      apply lookup_replicate in Hx as [-> _]. destruct Hx0. reflexivity. }
    pose proof (Hs3 i s Hs Hid). pose proof (Hs3 j s' Hs' ltac:(congruence)). lia.
  - intros i s Hs E. do 3 (destruct i as [| i]; [injection Hs as <-; discriminate |]).
    apply lookup_replicate in Hs as [-> _]. reflexivity.
Qed.

Definition sim : Simulation.driver_state :=
  Simulation.DriverState Simulation.virtual_time 1000 false 20 0 true
    [Simulation.PerCore [Simulation.Event 1 25 0 (Some 11) 0 false; Simulation.Event 2 24 10 (Some 12) 0 false;
       Simulation.Event 3 21 0 (Some 13) 0 true]
       4; Simulation.PerCore [Simulation.Event 1 22 0 (Some 14) 0 false] 2] [].
End TimeScenario.

Lemma fire_pass_exact_witness :
  exists d', Timetable.fire_due_isr TimeScenario.idle_callback 0 31 TimeScenario.clock = Ok (tt, d') /\
    Timetable.time_calls d' = [Timetable.ran 0 12 0; Timetable.ran 0 11 0; Timetable.time_arm 0 5].
Proof.
  destruct (fire_pass_exact TimeScenario.idle_callback 0 31 TimeScenario.table TimeScenario.clock
    ltac:(reflexivity) ltac:(reflexivity) TimeScenario.table_fits) as (d' & t' & E & _ & Ec & _).
  exists d'. split; [exact E | rewrite Ec; vm_compute; reflexivity].
Defined.

Lemma tickless_stays_armed_witness :
  wp (do_op TimeScenario.idle_callback 0 (timer_fires 31)) (fun _ d' => kept_armed 0 d') TimeScenario.clock.
Proof.
  apply (tickless_stays_armed _ 0 (timer_fires 31) TimeScenario.table TimeScenario.clock); [reflexivity | reflexivity | |].
  - intros t Ht _. injection Ht as <-. cbn. split_and!; [reflexivity | exists 0; eexists; split_and!; [reflexivity | discriminate | reflexivity] |].
    exact TimeScenario.table_from_5.
  - intros now Enow. injection Enow as <-. split; [exact TimeScenario.table_fits |].
    intros cb arg d t Ht Hok. apply wp_ret. eauto.
Defined.

Lemma schedule_cancel_round_trip_witness :
  wp (Tickless.schedule_at 0 50 (Some 20) 7) (fun h _ => h <> 0%Z) TimeScenario.clock.
Proof.
  eapply wp_mono.
  - apply (schedule_cancel_round_trip 0 TimeScenario.table TimeScenario.clock 50 20 7 3);
      [reflexivity | reflexivity | exact TimeScenario.table_ids | reflexivity | reflexivity].
  - intros h d1 [Hh _]. exact Hh.
Defined.

Lemma start_anchors_witness :
  exists d', Tickless.start 0 20 TimeScenario.unstarted = Ok (tt, d') /\
    Timetable.time_calls d' = [Timetable.time_irq_enable 0; Timetable.time_arm 0 5; Timetable.time_setup 0 0].
Proof.
  destruct (start_anchors 0 TimeScenario.pended TimeScenario.unstarted 20 ltac:(reflexivity) ltac:(reflexivity) ltac:(reflexivity))
    as (d' & t' & E & _). exists d'. split; [exact E |]. vm_compute in E. injection E as <-. reflexivity.
Defined.

Lemma conversions_never_undersleep_witness :
  (7 * 32768 <= Timetable.from_milliseconds 32768 7 * 1000)%Z.
Proof. apply (conversions_never_undersleep 32768 7); lia. Defined.

Lemma conversions_round_trip_witness :
  Timetable.to_milliseconds 32768 (Timetable.from_milliseconds 32768 7) = 7%Z.
Proof. apply (conversions_round_trip 32768 7); lia. Defined.

Lemma advance_fires_due_witness :
  exists d', Simulation.advance_to (fun _ _ => kret tt) 8 0 30 TimeScenario.sim = Ok (tt, d') /\
    Simulation.fired d' = [(14, 0); (12, 0); (11, 0)].
Proof.
  destruct (advance_fires_due (fun _ _ => kret tt) 8 0 30 TimeScenario.sim) as (d' & E & _ & _ & Ef & _).
  - intros cb arg d. reflexivity.
  - reflexivity.
  - intros i p Hp. destruct i as [| [| i]]; [injection Hp as <- | injection Hp as <- | discriminate];
      (split; [repeat apply Forall_cons_2; try apply Forall_nil_2; cbn; unfold event_ok; cbn; split_and!; (discriminate || lia) | cbn; lia]).
  - exists d'. split; [exact E | rewrite Ef; vm_compute; reflexivity].
Defined.

(** ** Where the 64-bit arithmetic ends *)

(** An interval that reaches past the end of time wraps, and the callback is
    due at once: at tick 10, an interval of 2^64 - 5 is due at tick 5. *)
Lemma long_interval_is_due_at_once :
  wp (Tickless.schedule_recurring 0 10 (2 ^ 64 - 5) (Some 20) 0)
    (fun _ d => exists t s, Timetable.timetables d !! 0 = Some t /\ Timetable.slots t !! 3 = Some s /\
       Timetable.slot_when s = 5%Z /\ Timetable.due 10 s = true) TimeScenario.clock.
Proof. vm_compute. do 2 eexists. split_and!; reflexivity. Qed.

(** A deadline at the last tick is never armed. *)
Lemma last_tick_is_not_armed :
  Tickless.earliest_of [Timetable.Slot 1 TimePoint.max 0 (Some 11) 0] = TimePoint.max /\
  rearm_call 0 [Timetable.Slot 1 TimePoint.max 0 (Some 11) 0] = Timetable.time_disarm 0.
Proof. vm_compute. auto. Qed.

(** The simulation's real-time clock runs backwards once the product of
    nanoseconds and frequency passes 2^64: at 1 MHz, after some five hours. *)
Lemma realtime_clock_wraps :
  let d := Simulation.DriverState Simulation.real_time 1000000 true 0 0 true [] [] in
  Simulation.now 18446744073709 d = 18446744073%Z /\ Simulation.now 18446744073710 d = 0%Z.
Proof. vm_compute. auto. Qed.
