(* ===== verification/Chrono.v ===== *)
(** * Alarms, sleeps and timed waits: userlib/chrono, and round robin

    chrono sees the time driver through four operations, the class
    [TimeDriver]; [Tickless] and [Periodic] are its instances.  An alarm is a
    cancel signal and the handle of the timer that raises it.  A timed wait is
    a wait that an alarm may cancel: as in [Sync], up to its wait and after
    it.  [now] is what [time::now()] answers, an argument where it is read. *)

From S2P Require Import Prelude Chain State ReadyQueue WaitQueue Urgency Scheduler Switch Waking Waits Mutex Sync Time.

(** The driver of core [c]: handles are their ids, callbacks addresses.  The
    timer's interrupt answers the callbacks it runs, with their arguments, in
    order; none that this library schedules touches the driver. *)
Class TimeDriver (D : Type) := {
  schedule_at (c : nat) (tp : Z) (cb : option nat) (arg : nat) : M D Z;
  schedule_recurring (c : nat) (now interval : Z) (cb : option nat) (arg : nat) : M D Z;
  cancel (c : nat) (h : Z) : M D bool;
  timer_isr (c : nat) (now : Z) : M D (list (nat * nat))
}.

(** ** The two drivers *)
Module Drivers.
Definition ran_among (es : list Timetable.time_call) : list (nat * nat) :=
  reverse (omap (fun e => match e with Timetable.ran _ cb arg => Some (cb, arg) | _ => None end) es).

(** An interrupt of the driver, with the callbacks it ran. *)
Definition collected (isr : (nat -> nat -> Timetable.T unit) -> Timetable.T unit) : Timetable.T (list (nat * nat)) :=
  let* before := kget Timetable.time_calls in
  isr (fun _ _ => kret tt) ;;*
  let* after := kget Timetable.time_calls in
  kret (ran_among (take (length after - length before) after)).

Definition tickless : TimeDriver Timetable.driver := {|
  schedule_at := Tickless.schedule_at;
  schedule_recurring := Tickless.schedule_recurring;
  cancel := Tickless.cancel;
  timer_isr c now := collected (fun invoke => Tickless.on_timer_isr invoke c now)
|}.

Definition periodic : TimeDriver Timetable.driver := {|
  schedule_at := Periodic.schedule_at;
  schedule_recurring := Periodic.schedule_recurring;
  cancel := Periodic.cancel;
  timer_isr c now := collected (fun invoke => Periodic.on_timer_isr invoke c now)
|}.
End Drivers.

(** ** The world with its time, and each alarm's [timer] *)
Record clocked (X R D : Type) := Clocked {
  in_world : world X R;
  time : D;
  timers : gmap nat Z
}.
Arguments Clocked {X R D} in_world time timers.
Arguments in_world {X R D} _.
Arguments time {X R D} _.
Arguments timers {X R D} _.

Definition set_world {X R D} (w : world X R) (ch : clocked X R D) : clocked X R D := Clocked w (time ch) (timers ch).
Definition set_time {X R D} (d : D) (ch : clocked X R D) : clocked X R D := Clocked (in_world ch) d (timers ch).
Definition set_timers {X R D} ts (ch : clocked X R D) : clocked X R D := Clocked (in_world ch) (time ch) ts.

Abbreviation C X R D := (M (clocked X R D)).

Section clocked.
Context {X R D : Type}.

Definition on_world {A} (m : W X R A) : C X R D A :=
  fun ch => match m (in_world ch) with Ok (a, w) => Ok (a, set_world w ch) | Panic p => Panic p end.
Definition on_kernel {A} (m : K A) : C X R D A := on_world (in_kernel m).
Definition on_time {A} (m : M D A) : C X R D A :=
  fun ch => match m (time ch) with Ok (a, d) => Ok (a, set_time d ch) | Panic p => Panic p end.
Definition get_timer (a : nat) : C X R D Z :=
  fun ch => match timers ch !! a with Some h => Ok (h, ch) | None => Panic bad_pointer end.
Definition set_timer (a : nat) (h : Z) : C X R D unit := kmodify (fun ch => set_timers (<[a := h]> (timers ch)) ch).
End clocked.

Module Chrono.
(** The functions whose addresses this library schedules. *)
Definition on_timer_address : nat := 1.
Definition rotate_address : nat := 2.

Section chrono.
Context `{Config} {X R D : Type} `{!TimeDriver D} (cx : cpu).
Local Abbreviation C := (C X R D).

(** ** round_robin.cpp *)

Definition rotate : C unit := on_kernel (emit (port_pend_reschedule (this_core cx))).

Definition enable_round_robin (now slice : Z) : C unit :=
  on_time (schedule_recurring (this_core cx) now slice (Some rotate_address) 0) ;;* kret tt.

(** ** alarm.cpp *)

Definition on_timer (self : nat) : C unit :=
  on_kernel (Switch.raise cx (Switch.own_signal self) ReschedulePolicy.automatic).

Definition raised (a : nat) : C bool := on_world (Waits.raised (Switch.own_signal a)).
Definition reset (a : nat) : C unit := on_kernel (Switch.write_signal (Switch.own_signal a) (set_raised_flag false)).

Definition pending (a : nat) : C bool :=
  let* h := get_timer a in
  let* up := raised a in
  kret (negb (h =? 0)%Z && negb up).

Definition expired (a : nat) : C bool := raised a.

Definition arm_at (tp : Z) (a : nat) : C unit :=
  let* busy := pending a in
  kensure require_failed (negb busy) ;;*
  reset a ;;*
  let* h := on_time (schedule_at (this_core cx) tp (Some on_timer_address) a) in
  set_timer a h ;;*
  kensure fatal_failed (negb (h =? 0)%Z).

Definition arm_in (now d : Z) (a : nat) : C unit := arm_at (TimePoint.add now d) a.

(** A cancel that missed waits for the callback to have run; nobody else
    runs between two of its looks here. *)
Definition disarm (a : nat) : C unit :=
  let* h := get_timer a in
  (if negb (h =? 0)%Z then
     let* found := on_time (cancel (this_core cx) h) in
     if negb found then
       let* up := raised a in
       if up : bool then kret tt else klift (Panic out_of_fuel)
     else kret tt
   else kret tt) ;;*
  set_timer a 0%Z ;;*
  reset a.

(** The constructor, and the destructor with its base's. *)
Definition new_alarm (a : nat) : C unit :=
  set_timer a 0%Z ;;*
  on_kernel (kmodify (fun s => set_signals (<[a := CancelSignal (WaitQueue None) false]> (signals s)) s)).

Definition destroy (a : nat) : C unit :=
  disarm a ;;*
  let* sg := on_kernel (get_signal a) in
  kensure require_failed (WaitQueue.empty (cs_queue sg)) ;;*
  kmodify (fun ch => set_timers (delete a (timers ch)) ch) ;;*
  on_kernel (kmodify (fun s => set_signals (delete a (signals s)) s)).

(** What the timer's interrupt runs: these two, or a function of the
    application's. *)
Context (other : nat -> nat -> C unit).

Definition callback (cb arg : nat) : C unit :=
  if cb =? on_timer_address then on_timer arg
  else if cb =? rotate_address then rotate
  else other cb arg.

Fixpoint run_callbacks (rs : list (nat * nat)) : C unit :=
  match rs with
  | [] => kret tt
  | (cb, arg) :: rs => callback cb arg ;;* run_callbacks rs
  end.

Definition timer_interrupt (now : Z) : C unit :=
  let* rs := on_time (timer_isr (this_core cx) now) in run_callbacks rs.

(** [sleep_until] and [sleep_for], up to the wait, with the alarm at [a] and
    the node at [n]; after it, [destroy]. *)
Definition sleep_until_begin (tp : Z) (a n : nat) : C Waits.wait_frame :=
  new_alarm a ;;*
  arm_at tp a ;;*
  on_world (Waits.enter cx (Waking.of_signal (Switch.own_signal a)) None n n).

Definition sleep_for_begin (now d : Z) (a n : nat) : C (option Waits.wait_frame) :=
  if (d =? 0)%Z then kret None
  else let* fr := sleep_until_begin (TimePoint.add now d) a n in kret (Some fr).

(** ** A wait with a deadline, on [q]

    What every timed wait does once it is to wait: [cn] is the node on the
    alarm's queue. *)
Definition timed_begin (q : Waking.queue_ref) (tp : Z) (a : nat) (prepare : W X R unit) (n cn : nat) : C Waits.wait_frame :=
  new_alarm a ;;*
  arm_at tp a ;;*
  on_world prepare ;;*
  on_world (Waits.enter cx q (Some (Switch.own_signal a)) n cn).
End chrono.

(** ** The timed waits: semaphore_timed.cpp and its like

    Each answers at once ([inl]) or is about to wait. *)

Section semaphore.
Context `{Config} `{SizeT} {D : Type} `{!TimeDriver D} (cx : cpu) (q : Waking.queue_ref).

Definition try_acquire_until (now tp : Z) (a n cn : nat) : C Z unit D (bool + Waits.wait_frame) :=
  if negb (now <? tp)%Z then let* taken := on_world Tokens.try_acquire in kret (inl taken)
  else let* fr := timed_begin cx q tp a (kret tt) n cn in kret (inr fr).

(** [try_acquire_for] reads the time twice. *)
Definition try_acquire_for (now d now' : Z) (a n cn : nat) : C Z unit D (bool + Waits.wait_frame) :=
  if (d =? 0)%Z then let* taken := on_world Tokens.try_acquire in kret (inl taken)
  else try_acquire_until now' (TimePoint.add now d) a n cn.

(** After the wait, which answered [satisfied]. *)
Definition try_acquire_end (a : nat) (satisfied : bool) : C Z unit D bool := destroy cx a ;;* kret satisfied.
End semaphore.

Section handoff.
Context `{Config} `{SizeT} {D : Type} `{!TimeDriver D} (cx : cpu) (q : Waking.queue_ref).

Definition handoff_acquire_until (now tp : Z) (a r n cn : nat) : C Z bool D (bool + Waits.wait_frame) :=
  if negb (now <? tp)%Z then let* taken := on_world Tokens.try_acquire in kret (inl taken)
  else
    let* taken := on_world Tokens.try_acquire in
    if taken : bool then kret (inl true)
    else let* fr := timed_begin cx q tp a (Waits.install cx r q false) n cn in kret (inr fr).

Definition handoff_acquire_for (now d now' : Z) (a r n cn : nat) : C Z bool D (bool + Waits.wait_frame) :=
  if (d =? 0)%Z then let* taken := on_world Tokens.try_acquire in kret (inl taken)
  else handoff_acquire_until now' (TimePoint.add now d) a r n cn.

(** The record goes before the alarm. *)
Definition handoff_acquire_end (a r : nat) (satisfied : bool) : C Z bool D bool :=
  on_world (HandoffSemaphore.settle cx q r) ;;*
  on_world (Waits.uninstall r) ;;*
  destroy cx a ;;*
  kret satisfied.
End handoff.

Section flags.
Context `{Config} {D : Type} `{!TimeDriver D} (cx : cpu) (q : Waking.queue_ref).

Definition flags_wait_until (m : Z) (now tp : Z) (how : EventFlags.flags_match) (leave : EventFlags.flags_exit) (a r n cn : nat) :
    C Z EventFlags.request D (Z + Waits.wait_frame) :=
  if negb (now <? tp)%Z then let* hit := on_world (EventFlags.try_wait m how leave) in kret (inl hit)
  else
    kensure require_failed (negb (m =? 0)%Z) ;;*
    let* fr := timed_begin cx q tp a (Waits.install cx r q (EventFlags.Request m how leave 0%Z)) n cn in
    kret (inr fr).

Definition flags_wait_for (m : Z) (now d now' : Z) (how : EventFlags.flags_match) (leave : EventFlags.flags_exit) (a r n cn : nat) :
    C Z EventFlags.request D (Z + Waits.wait_frame) :=
  if (d =? 0)%Z then let* hit := on_world (EventFlags.try_wait m how leave) in kret (inl hit)
  else flags_wait_until m now' (TimePoint.add now d) how leave a r n cn.

Definition flags_wait_end (a r : nat) (satisfied : bool) : C Z EventFlags.request D Z :=
  let* self := on_world (get_record r) in
  on_world (Waits.uninstall r) ;;*
  destroy cx a ;;*
  kret (if satisfied then EventFlags.matched (waiter self) else 0%Z).
End flags.

Section condition.
Context `{Config} {D : Type} `{!TimeDriver D} (cx : cpu) (q : Waking.queue_ref).
Local Abbreviation state := ConditionVariable.waiter_state.

Inductive cv_status := no_timeout | timeout.

(** With the deadline past: the mutex given up, and to be locked again. *)
Definition cv_wait_until (m : nat) (now tp : Z) (a r n cn : nat) : C unit state D ((nat * bool) + Waits.wait_frame) :=
  if negb (now <? tp)%Z then
    on_kernel (Mutex.unlock cx m ReschedulePolicy.automatic) ;;*
    let* locking := on_kernel (Mutex.lock_begin cx m) in
    kret (inl locking)
  else
    let* fr := timed_begin cx q tp a (Waits.install cx r q (ConditionVariable.Waiter m false)) n cn in
    kret (inr fr).

Definition cv_wait_for (m : nat) (now d now' : Z) (a r n cn : nat) : C unit state D ((nat * bool) + Waits.wait_frame) :=
  cv_wait_until m now' (TimePoint.add now d) a r n cn.

(** After the wait, up to the lock; once that is had, [destroy] and
    [cv_result]. *)
Definition cv_wait_end (m a r : nat) : C unit state D (nat * bool) :=
  on_world (Waits.uninstall r) ;;*
  disarm cx a ;;*
  on_kernel (Mutex.lock_begin cx m).

Definition cv_result (notified : bool) : cv_status := if notified then no_timeout else timeout.
End condition.
End Chrono.
