(* ===== verification/ChronoSpec.v ===== *)
(** * What chrono relies on of a time driver

    The class [TimeDriverLaws]: a core's driver is a set of live handles, each
    with a deadline, a callback and an argument; what is scheduled is live
    under a handle never issued before, a cancel tells whether its handle was
    live, and the timer's interrupt runs exactly what is due.  Both hardware
    drivers keep it, until 2^32 handles have been issued. *)

From S2P Require Import Prelude State Time TimeProofs Chrono.

Record entry := Entry { en_when : Z; en_period : Z; en_cb : nat; en_arg : nat }.

Class TimeDriverLaws (D : Type) `{TimeDriver D} := {
  live : D -> nat -> Z -> entry -> Prop;
  issued : D -> nat -> Z -> Prop;
  in_order : D -> nat -> Prop;
  has_room : D -> nat -> Prop;
  timely : D -> nat -> Z -> Prop;
  live_once d c h e e' : in_order d c -> live d c h e -> live d c h e' -> e = e';
  live_issued d c h e : in_order d c -> live d c h e -> issued d c h /\ h <> 0%Z;
  schedule_law d c tp cb arg : in_order d c -> has_room d c -> (0 <= tp < 2 ^ 64)%Z ->
    wp (schedule_at c tp (Some cb) arg)
      (fun h d' => in_order d' c /\ h <> 0%Z /\ ~ issued d c h /\ issued d' c h /\ (forall x, issued d c x -> issued d' c x) /\
         forall x e, live d' c x e <-> (x = h /\ e = Entry tp 0 cb arg) \/ live d c x e) d;
  cancel_law d c h : in_order d c -> h <> 0%Z ->
    wp (cancel c h)
      (fun b d' => in_order d' c /\ (b = true <-> exists e, live d c h e) /\ (forall x, issued d c x -> issued d' c x) /\
         forall x e, live d' c x e <-> x <> h /\ live d c x e) d;
  isr_law d c now : in_order d c -> timely d c now ->
    wp (timer_isr c now)
      (fun rs d' => in_order d' c /\ (forall x, issued d c x -> issued d' c x) /\
         (forall x e, live d c x e -> if (en_when e <=? now)%Z then (en_cb e, en_arg e) ∈ rs /\ (en_period e = 0%Z -> forall e', ~ live d' c x e')
            else live d' c x e) /\
         (forall x e', live d' c x e' -> exists e, live d c x e /\ en_cb e = en_cb e' /\ en_arg e = en_arg e' /\ en_period e = en_period e') /\
         (forall r, r ∈ rs -> exists x e, live d c x e /\ (en_when e <= now)%Z /\ r = (en_cb e, en_arg e))) d
}.

(** ** A table's live slots *)

Section tables.
Import Timetable.
Implicit Types (t : timetable) (h : Z) (e : entry).

Definition entry_of (s : slot) : entry := Entry (slot_when s) (slot_period s) (default 0 (slot_cb s)) (slot_arg s).

Definition slot_live t h e : Prop := exists i s, slots t !! i = Some s /\ slot_id s = h /\ h <> 0%Z /\ e = entry_of s.

(** A table in order: its handles are, and each slot in use is one that a
    schedule could have made. *)
Definition slot_sound (s : slot) : Prop :=
  slot_id s <> 0%Z -> slot_cb s <> None /\ (0 <= slot_when s < 2 ^ 64)%Z /\ (0 <= slot_period s)%Z.

Record table_sound t : Prop := {
  ts_ids : ids_ok t;
  ts_length : length (slots t) = MAX_SCHEDULED_CALLBACKS;
  ts_slots : Forall slot_sound (slots t)
}.

Definition slot_timely (now : Z) (s : slot) : Prop := slot_id s <> 0%Z -> (now + slot_period s < 2 ^ 64)%Z.

(** A table with nothing in it. *)
Lemma fresh_sound : table_sound new_timetable /\ forall x e, ~ slot_live new_timetable x e.
Proof.
  assert (Hs : forall i s, slots new_timetable !! i = Some s -> s = free_slot).
  { intros i s Hi. unfold new_timetable in Hi. cbn [slots] in Hi. apply lookup_replicate in Hi as [-> _]. reflexivity. }
  split; [split; [split |  |] |].
  - cbn. lia.
  - intros i s Hi Hid. destruct Hid. rewrite (Hs i s Hi). reflexivity.
  - intros i j s s' Hi _ Hid _. destruct Hid. rewrite (Hs i s Hi). reflexivity.
  - intros i s Hi _. exact (Hs i s Hi).
  - reflexivity.
  - apply Forall_forall. intros s Hin. apply list_elem_of_lookup_1 in Hin as [i Hi]. intros Hid. destruct Hid. rewrite (Hs i s Hi). reflexivity.
  - intros x e (i & s & Hi & E & Hne & _). rewrite (Hs i s Hi) in E. cbn in E. congruence.
Qed.

Lemma slot_live_once t h e e' : table_sound t -> slot_live t h e -> slot_live t h e' -> e = e'.
Proof.
  intros [Hids _ _] (i & s & Hs & <- & Hne & ->) (j & s' & Hs' & E & _ & ->).
  assert (i = j) as <- by (eapply (ids_once t Hids); eauto). congruence.
Qed.

Lemma slot_live_below t h e : table_sound t -> slot_live t h e -> (0 < h < next_id t)%Z.
Proof. intros [Hids _ _] (i & s & Hs & <- & Hne & _). eapply (ids_below t Hids); eassumption. Qed.

Lemma find_id_live t h : table_sound t -> h <> 0%Z ->
  match find_id h (slots t) with
  | Some i => exists s, slots t !! i = Some s /\ slot_id s = h
  | None => forall e, ~ slot_live t h e
  end.
Proof.
  intros Hs Hne. destruct (find_id h (slots t)) as [i |] eqn:E.
  - apply find_id_Some in E as (s & H1 & H2 & _). eauto.
  - pose proof (proj1 (find_id_None _ _) E) as Hn. intros e (i & s & H1 & H2 & _). exact (Hn i s H1 H2).
Qed.

Lemma claimed_sound t i tp cb arg s : table_sound t -> (next_id t + 1 < 2 ^ 32)%Z -> slots t !! i = Some s -> slot_id s = 0%Z ->
  (0 <= tp < 2 ^ 64)%Z ->
  let t' := claimed i tp 0 (Some cb) arg t in
  table_sound t' /\ next_id t' = (next_id t + 1)%Z /\
  forall x e, slot_live t' x e <-> (x = next_id t /\ e = Entry tp 0 cb arg) \/ slot_live t x e.
Proof.
  intros [Hids Hl Hsl] Hroom Hs Hfree Htp t'. pose proof (ids_next t Hids) as Hn.
  assert (Hi : i < length (slots t)) by (eapply lookup_lt_Some, Hs). split; [split |].
  - apply claimed_ids with s; assumption.
  - cbn. rewrite length_insert. exact Hl.
  - cbn. apply Forall_insert; [exact Hsl |]. intros _. cbn. split_and!; [discriminate | lia | lia | lia].
  - split.
    { cbn. unfold after_of. rewrite (proj2 (Z.eqb_neq _ _)) by lia. apply wrap_small. lia. }
    intros x e. unfold slot_live. cbn [t' claimed slots set_slots set_next_id]. rewrite (handle_of_next t Hids). split.
    + intros (j & y & Hy & Ey & Hx & ->). destruct (decide (j = i)) as [-> | Hne].
      * rewrite list_lookup_insert_eq in Hy by exact Hi. injection Hy as <-. left. split; [symmetry; exact Ey | reflexivity].
      * rewrite list_lookup_insert_ne in Hy by congruence. right. eauto 8.
    + intros [[-> ->] | (j & y & Hy & Ey & Hx & ->)].
      * exists i. eexists. rewrite list_lookup_insert_eq by exact Hi. split_and!; [reflexivity | reflexivity | lia | reflexivity].
      * exists j, y. rewrite list_lookup_insert_ne; [auto |]. intros <-. congruence.
Qed.

Lemma freed_sound t i h s : table_sound t -> slots t !! i = Some s -> slot_id s = h -> h <> 0%Z ->
  table_sound (freed i t) /\ forall x e, slot_live (freed i t) x e <-> x <> h /\ slot_live t x e.
Proof.
  intros [Hids Hl Hsl] Hs Eh Hne. assert (Hi : i < length (slots t)) by (eapply lookup_lt_Some, Hs). split; [split |].
  - apply freed_ids, Hids.
  - cbn. rewrite length_insert. exact Hl.
  - cbn. apply Forall_insert; [exact Hsl |]. intros Hx. destruct Hx. reflexivity.
  - intros x e. unfold slot_live. cbn. split.
    + intros (j & y & Hy & Ey & Hx & ->). destruct (decide (j = i)) as [-> | Hj].
      * rewrite list_lookup_insert_eq in Hy by exact Hi. injection Hy as <-. cbn in Ey. congruence.
      * rewrite list_lookup_insert_ne in Hy by congruence. split; [| eauto 8]. intros E. destruct Hj. eapply (ids_once t Hids); eauto; congruence.
    + intros (Hxh & j & y & Hy & Ey & Hx & ->). exists j, y. rewrite list_lookup_insert_ne; [auto |]. intros <-. congruence.
Qed.

(** A pass of the timer. *)
Lemma fired_slot_id now s : slot_id (fired_slot now s) = 0%Z \/ slot_id (fired_slot now s) = slot_id s.
Proof. unfold fired_slot. destruct (due now s); [destruct (_ =? _)%Z; auto | auto]. Qed.

Lemma fired_sound t now : table_sound t -> Forall (slot_timely now) (slots t) -> table_ok now t ->
  table_sound (set_slots (fired_slot now <$> slots t) t).
Proof.
  intros [[I1 I2 I3 I4] Hl Hsl] Ht [_ Hok]. split; [split |..]; cbn.
  - exact I1.
  - intros i s' Hs' Hid. rewrite list_lookup_fmap in Hs'. destruct (slots t !! i) as [s |] eqn:Hs; [| discriminate]. injection Hs' as <-.
    destruct (fired_slot_id now s) as [E | E]; [contradiction |]. rewrite E in *. eauto.
  - intros i j s1 s2 H1 H2 Hid E. rewrite list_lookup_fmap in H1, H2.
    destruct (slots t !! i) as [a |] eqn:Ha; [| discriminate]. destruct (slots t !! j) as [b |] eqn:Hb; [| discriminate].
    injection H1 as <-. injection H2 as <-. destruct (fired_slot_id now a) as [Ea | Ea]; [contradiction |].
    destruct (fired_slot_id now b) as [Eb | Eb]; [congruence |]. eapply I3; eauto; congruence.
  - intros i s' Hs' Hid. rewrite list_lookup_fmap in Hs'. destruct (slots t !! i) as [s |] eqn:Hs; [| discriminate]. injection Hs' as <-.
    unfold fired_slot in *. destruct (due now s) eqn:Ed; [destruct (_ =? _)%Z eqn:Ep; [reflexivity |] |]; cbn in Hid; [| eauto].
    unfold due in Ed. rewrite Hid in Ed. discriminate.
  - rewrite length_fmap. exact Hl.
  - rewrite Forall_fmap. rewrite Forall_forall in Hsl, Ht, Hok |- *. intros s Hs. unfold compose, fired_slot.
    specialize (Hsl s Hs). specialize (Ht s Hs). destruct (due now s) eqn:Ed; [| exact Hsl].
    destruct (Z.eqb_spec (slot_period s) 0) as [| Ep]; [intros Hx; destruct Hx; reflexivity |]. intros Hid. cbn in Hid.
    destruct (Hsl Hid) as (H1 & H2 & H3). specialize (Ht Hid). cbn. unfold due in Ed. apply andb_true_iff in Ed as [_ Ed]. apply Z.leb_le in Ed.
    pose proof (next_grid_after (slot_when s) (slot_period s) now ltac:(lia)) as Hg. split_and!; [exact H1 | lia | lia | lia].
Qed.

Lemma sound_ok t now : table_sound t -> Forall (slot_timely now) (slots t) -> table_ok now t.
Proof.
  intros [_ Hl Hsl] Ht. split; [exact Hl |]. rewrite Forall_forall in *. intros s Hs Hid.
  destruct (Hsl s Hs Hid) as (H1 & H2 & H3). split_and!; [exact H1 | lia | lia | exact H3 | exact (Ht s Hs Hid)].
Qed.

(** What a pass runs, and what it leaves live. *)
Definition run_pair (now : Z) (s : slot) : option (nat * nat) :=
  if due now s then (fun cb => (cb, slot_arg s)) <$> slot_cb s else None.

Lemma omap_reverse_list {A B} (f : A -> option B) (l : list A) : omap f (reverse l) = reverse (omap f l).
Proof.
  induction l as [| x l IH]; [reflexivity |]. rewrite reverse_cons, omap_app, IH. cbn [omap list_omap].
  destruct (f x); [rewrite reverse_cons; reflexivity | apply app_nil_r].
Qed.

Lemma ran_among_fired c now (l : list slot) : Drivers.ran_among (reverse (omap (run_of c now) l)) = omap (run_pair now) l.
Proof.
  unfold Drivers.ran_among. rewrite omap_reverse_list, reverse_involutive.
  induction l as [| s l IH]; [reflexivity |]. cbn [omap list_omap]. unfold run_of at 1, run_pair at 1.
  destruct (due now s); [| exact IH]. destruct (slot_cb s); cbn [fmap option_fmap option_map omap list_omap]; rewrite IH; reflexivity.
Qed.

Definition passed (now : Z) t : timetable := set_slots (fired_slot now <$> slots t) t.

Lemma due_slot_live now s : due now s = true <-> slot_id s <> 0%Z /\ (slot_when s <= now)%Z.
Proof. unfold due. rewrite andb_true_iff, negb_true_iff, Z.eqb_neq, Z.leb_le. reflexivity. Qed.

Lemma fired_live t now : table_sound t ->
  (forall x e, slot_live t x e -> if (en_when e <=? now)%Z then (en_cb e, en_arg e) ∈ omap (run_pair now) (slots t) /\
       (en_period e = 0%Z -> forall e', ~ slot_live (passed now t) x e')
     else slot_live (passed now t) x e) /\
  (forall x e', slot_live (passed now t) x e' -> exists e, slot_live t x e /\ en_cb e = en_cb e' /\ en_arg e = en_arg e' /\ en_period e = en_period e') /\
  (forall r, r ∈ omap (run_pair now) (slots t) -> exists x e, slot_live t x e /\ (en_when e <= now)%Z /\ r = (en_cb e, en_arg e)).
Proof.
  intros [Hids Hl Hsl]. rewrite Forall_forall in Hsl.
  assert (Hcb : forall s, s ∈ slots t -> slot_id s <> 0%Z -> exists cb, slot_cb s = Some cb).
  { intros s Hs Hid. destruct (Hsl s Hs Hid) as (H1 & _). destruct (slot_cb s); [eauto | contradiction]. }
  split_and!.
  - intros x e (i & s & Hs & <- & Hne & ->). cbn [entry_of en_when en_cb en_arg en_period].
    destruct (Hcb s) as [cb Ecb]; [eapply list_elem_of_lookup_2, Hs | exact Hne |].
    assert (Hp : slots (passed now t) !! i = Some (fired_slot now s)) by (cbn; rewrite list_lookup_fmap, Hs; reflexivity).
    destruct (Z.leb_spec (slot_when s) now) as [Hd | Hd].
    + pose proof (proj2 (due_slot_live now s) (conj Hne Hd)) as Ed. split.
      * apply list_elem_of_omap. exists s. split; [eapply list_elem_of_lookup_2, Hs |]. unfold run_pair. rewrite Ed, Ecb. reflexivity.
      * intros Ep e' (j & s' & Hs' & Ej & _ & _). cbn in Hs'. rewrite list_lookup_fmap in Hs'.
        destruct (slots t !! j) as [y |] eqn:Hy; [| discriminate]. injection Hs' as <-.
        destruct (fired_slot_id now y) as [E | E]; [congruence |].
        assert (j = i) as -> by (eapply (ids_once t Hids); eauto; congruence). assert (y = s) as -> by congruence.
        unfold fired_slot in E. rewrite Ed, Ep in E. cbn in E. congruence.
    + exists i, s. assert (Ed : due now s = false) by (apply not_true_is_false; rewrite due_slot_live; lia).
      unfold fired_slot in Hp. rewrite Ed in Hp. auto.
  - intros x e' (i & s' & Hs' & <- & Hne & ->). cbn in Hs'. rewrite list_lookup_fmap in Hs'.
    destruct (slots t !! i) as [s |] eqn:Hs; [| discriminate]. injection Hs' as <-.
    destruct (fired_slot_id now s) as [E | E]; [contradiction |]. exists (entry_of s).
    assert (Hsame : slot_cb (fired_slot now s) = slot_cb s /\ slot_arg (fired_slot now s) = slot_arg s /\ slot_period (fired_slot now s) = slot_period s).
    { unfold fired_slot in *. destruct (due now s); [destruct (_ =? _)%Z; [destruct Hne; reflexivity | auto] | auto]. }
    destruct Hsame as (E1 & E2 & E3). split; [exists i, s; split_and!; auto; congruence |]. cbn. rewrite E1, E2, E3. auto.
  - intros r Hr. apply list_elem_of_omap in Hr as (s & Hs & Hr). unfold run_pair in Hr. destruct (due now s) eqn:Ed; [| discriminate].
    apply due_slot_live in Ed as [Hid Hw]. destruct (Hcb s Hs Hid) as [cb Ecb]. rewrite Ecb in Hr. injection Hr as <-.
    apply list_elem_of_lookup_1 in Hs as [i Hi]. exists (slot_id s), (entry_of s). cbn. rewrite Ecb. split_and!; [exists i, s; auto | exact Hw | reflexivity].
Qed.
End tables.

(** ** The two drivers keep the laws *)

Section drivers.
Import Timetable.
Implicit Types (d : driver) (c : nat).

(** What holds of core [c]'s table. *)
Definition on_table (P : timetable -> Prop) d c : Prop := exists t, timetables d !! c = Some t /\ P t.
Definition driver_sound d c : Prop := initialised d = true /\ on_table table_sound d c.
Definition driver_live d c h e : Prop := on_table (fun t => slot_live t h e) d c.
Definition driver_issued d c h : Prop := on_table (fun t => (0 < h < next_id t)%Z) d c.
Definition driver_room d c : Prop := on_table (fun t => (next_id t + 1 < 2 ^ 32)%Z /\ exists i, find_id 0 (slots t) = Some i) d c.
Definition driver_timely d c now : Prop := on_table (fun t => Forall (slot_timely now) (slots t)) d c.

Lemma on_table_eq P d c t : timetables d !! c = Some t -> on_table P d c <-> P t.
Proof. intros Ht. split; [intros (t' & Ht' & Hp); congruence | intros Hp; exists t; auto]. Qed.

Lemma on_table_at P d c t t' es : timetables d !! c = Some t -> on_table P (at_table c t' es d) c <-> P t'.
Proof. intros Ht. apply on_table_eq. eapply at_table_lookup, Ht. Qed.

(** A new table in the driver. *)
Lemma driver_at d c t t' es : initialised d = true -> timetables d !! c = Some t -> table_sound t' ->
  driver_sound (at_table c t' es d) c.
Proof. intros Hi Ht Hs. split; [exact Hi |]. apply (on_table_at _ d c t); assumption. Qed.

Lemma live_law d c h e e' : driver_sound d c -> driver_live d c h e -> driver_live d c h e' -> e = e'.
Proof.
  intros (_ & t & Ht & Hs). unfold driver_live. rewrite !(on_table_eq _ d c t Ht). apply slot_live_once, Hs.
Qed.

Lemma live_issued_law d c h e : driver_sound d c -> driver_live d c h e -> driver_issued d c h /\ h <> 0%Z.
Proof.
  intros (_ & t & Ht & Hs) He. unfold driver_live, driver_issued in *. rewrite (on_table_eq _ d c t Ht) in He. rewrite (on_table_eq _ d c t Ht).
  pose proof (slot_live_below t h e Hs He). lia.
Qed.

(** A slot claimed, a slot freed and a pass, whatever is then armed. *)
Lemma claim_law d c t i tp cb arg es s : driver_sound d c -> timetables d !! c = Some t -> driver_room d c -> (0 <= tp < 2 ^ 64)%Z ->
  slots t !! i = Some s -> slot_id s = 0%Z ->
  let d' := at_table c (claimed i tp 0 (Some cb) arg t) es d in
  driver_sound d' c /\ handle_of (next_id t) <> 0%Z /\ ~ driver_issued d c (handle_of (next_id t)) /\ driver_issued d' c (handle_of (next_id t)) /\
  (forall x, driver_issued d c x -> driver_issued d' c x) /\
  forall x e, driver_live d' c x e <-> (x = handle_of (next_id t) /\ e = Entry tp 0 cb arg) \/ driver_live d c x e.
Proof.
  intros (Hi & Hsound) Ht Hroom Htp Hs Hid d'. rewrite (on_table_eq _ d c t Ht) in Hsound. unfold driver_room in Hroom.
  rewrite (on_table_eq _ d c t Ht) in Hroom. destruct Hroom as [Hroom _].
  destruct (claimed_sound t i tp cb arg s Hsound Hroom Hs Hid Htp) as (H1 & H2 & H3).
  pose proof (ids_next t (ts_ids t Hsound)) as Hn. rewrite (handle_of_next t (ts_ids t Hsound)). unfold driver_issued, driver_live, d'.
  split; [eapply driver_at; eassumption |]. split; [lia |].
  split; [rewrite (on_table_eq _ d c t Ht); lia |]. split; [rewrite (on_table_at _ d c t _ _ Ht), H2; lia |].
  split; intros x.
  - rewrite (on_table_at _ d c t _ _ Ht), (on_table_eq _ d c t Ht), H2. lia.
  - intros e. rewrite (on_table_at _ d c t _ _ Ht), (on_table_eq _ d c t Ht). apply H3.
Qed.

Lemma free_law d c t i h es s : driver_sound d c -> timetables d !! c = Some t -> slots t !! i = Some s -> slot_id s = h -> h <> 0%Z ->
  let d' := at_table c (freed i t) es d in
  driver_sound d' c /\ (exists e, driver_live d c h e) /\ (forall x, driver_issued d c x -> driver_issued d' c x) /\
  forall x e, driver_live d' c x e <-> x <> h /\ driver_live d c x e.
Proof.
  intros (Hi & Hsound) Ht Hs Eh Hne d'. rewrite (on_table_eq _ d c t Ht) in Hsound.
  destruct (freed_sound t i h s Hsound Hs Eh Hne) as (H1 & H2). unfold driver_issued, driver_live, d'.
  split; [eapply driver_at; eassumption |]. split; [exists (entry_of s); rewrite (on_table_eq _ d c t Ht); exists i, s; auto |]. split; intros x.
  - rewrite (on_table_at _ d c t _ _ Ht), (on_table_eq _ d c t Ht). cbn. auto.
  - intros e. rewrite (on_table_at _ d c t _ _ Ht), (on_table_eq _ d c t Ht). apply H2.
Qed.

Lemma keep_law d c h t : driver_sound d c -> timetables d !! c = Some t -> h <> 0%Z -> find_id h (slots t) = None ->
  driver_sound d c /\ (false = true <-> exists e, driver_live d c h e) /\ (forall x, driver_issued d c x -> driver_issued d c x) /\
  forall x e, driver_live d c x e <-> x <> h /\ driver_live d c x e.
Proof.
  intros Hd Ht Hne Hf. pose proof Hd as (_ & Hsound). rewrite (on_table_eq _ d c t Ht) in Hsound.
  pose proof (find_id_live t h Hsound Hne) as Hn. rewrite Hf in Hn.
  assert (Hno : forall e, ~ driver_live d c h e) by (intros e; unfold driver_live; rewrite (on_table_eq _ d c t Ht); apply Hn).
  split_and!; [exact Hd | | auto |].
  - split; [discriminate | intros [e He]; destruct (Hno e He)].
  - intros x e. split; [| tauto]. intros He. split; [intros ->; exact (Hno e He) | exact He].
Qed.

Lemma pass_law d c now t es : driver_sound d c -> timetables d !! c = Some t -> driver_timely d c now ->
  let d' := at_table c (passed now t) es d in let rs := omap (run_pair now) (slots t) in
  driver_sound d' c /\ (forall x, driver_issued d c x -> driver_issued d' c x) /\
  (forall x e, driver_live d c x e -> if (en_when e <=? now)%Z then (en_cb e, en_arg e) ∈ rs /\ (en_period e = 0%Z -> forall e', ~ driver_live d' c x e')
     else driver_live d' c x e) /\
  (forall x e', driver_live d' c x e' -> exists e, driver_live d c x e /\ en_cb e = en_cb e' /\ en_arg e = en_arg e' /\ en_period e = en_period e') /\
  (forall r, r ∈ rs -> exists x e, driver_live d c x e /\ (en_when e <= now)%Z /\ r = (en_cb e, en_arg e)).
Proof.
  intros (Hi & Hsound) Ht Htime d' rs. rewrite (on_table_eq _ d c t Ht) in Hsound. unfold driver_timely in Htime.
  rewrite (on_table_eq _ d c t Ht) in Htime. destruct (fired_live t now Hsound) as (H1 & H2 & H3).
  assert (Hlive : forall x e, driver_live d c x e <-> slot_live t x e) by (intros x e; exact (on_table_eq (fun t => slot_live t x e) d c t Ht)).
  assert (Hlive' : forall x e, driver_live d' c x e <-> slot_live (passed now t) x e) by (intros x e; exact (on_table_at (fun t => slot_live t x e) d c t (passed now t) es Ht)).
  split; [eapply driver_at; [exact Hi | exact Ht | apply fired_sound; [exact Hsound | exact Htime | eapply sound_ok; eassumption]] |].
  split; [intros x; unfold driver_issued, d'; rewrite (on_table_at _ d c t _ _ Ht), (on_table_eq _ d c t Ht); auto |].
  split_and!.
  - intros x e He. apply Hlive in He. specialize (H1 x e He). destruct (en_when e <=? now)%Z; [| apply Hlive', H1].
    destruct H1 as [G1 G2]. split; [exact G1 |]. intros Ep e' He'. exact (G2 Ep e' (proj1 (Hlive' x e') He')).
  - intros x e' He'. destruct (H2 x e' (proj1 (Hlive' x e') He')) as (e & He & G). exists e. split; [apply Hlive, He | exact G].
  - intros r Hr. destruct (H3 r Hr) as (x & e & He & G). exists x, e. split; [apply Hlive, He | exact G].
Qed.
End drivers.

(** ** The instances *)

Section instances.
Import Timetable.
Implicit Types (d : driver) (c : nat).

Lemma wp_eq {S A} (body : M S A) (Q : A -> S -> Prop) s a s' : body s = Ok (a, s') -> Q a s' -> wp body Q s.
Proof. unfold wp. intros ->. auto. Qed.

Lemma quiet_calls (cb arg : nat) d : (fun _ _ : nat => (kret tt : T unit)) cb arg d = Ok (tt, d).
Proof. reflexivity. Qed.

(** The interrupt of either driver, its callbacks collected; [es] is what it
    arms after them. *)
Lemma collected_pass isr c now t d es : timetables d !! c = Some t ->
  isr (fun _ _ => kret tt) d = Ok (tt, at_table c (passed now t) (es ++ reverse (omap (run_of c now) (slots t))) d) ->
  Drivers.ran_among (es ++ reverse (omap (run_of c now) (slots t))) = Drivers.ran_among (reverse (omap (run_of c now) (slots t))) ->
  Drivers.collected isr d =
    Ok (omap (run_pair now) (slots t), at_table c (passed now t) (es ++ reverse (omap (run_of c now) (slots t))) d).
Proof.
  intros Ht E Er. unfold Drivers.collected, kbind, kget. rewrite E. unfold kret. do 2 f_equal.
  cbn [time_calls at_table]. rewrite length_app, Nat.add_sub, take_app_length, Er. apply ran_among_fired.
Qed.

Section tickless.
Local Existing Instance Drivers.tickless.

Lemma tickless_isr_eq c now t d : timetables d !! c = Some t -> table_sound t -> Forall (slot_timely now) (slots t) ->
  exists es, timer_isr c now d = Ok (omap (run_pair now) (slots t), at_table c (passed now t) es d).
Proof.
  intros Ht Hs Htime. eexists. apply (collected_pass _ c now t d [rearm_call c (slots (passed now t))] Ht).
  - unfold Tickless.on_timer_isr, kbind. rewrite (fire_due_isr_ok _ c now t d quiet_calls Ht (sound_ok t now Hs Htime)).
    erewrite rearm_eq by exact Ht. reflexivity.
  - unfold Drivers.ran_among, rearm_call. destruct (_ =? _)%Z; reflexivity.
Qed.

#[export] Program Instance tickless_laws : TimeDriverLaws driver := {|
  live := driver_live; issued := driver_issued; in_order := driver_sound; has_room := driver_room; timely := driver_timely
|}.
Next Obligation. intros d c h e e'. apply live_law. Qed.
Next Obligation. intros d c h e. apply live_issued_law. Qed.
Next Obligation.
  intros d c tp cb arg Hd Hroom Htp. pose proof Hd as (Hi & t & Ht & Hs). pose proof Hroom as (t' & Ht' & _ & i & Hf).
  assert (t' = t) as -> by congruence. pose proof Hf as Hf'. apply find_id_Some in Hf' as (s & Hsl & Hid & _).
  pose proof (tickless_schedule_at_eq c t d Ht Hi tp cb arg) as E. rewrite Hf in E. eapply wp_eq; [exact E |].
  exact (claim_law d c t i tp cb arg _ s Hd Ht Hroom Htp Hsl Hid).
Qed.
Next Obligation.
  intros d c h Hd Hne. pose proof Hd as (Hi & t & Ht & Hs).
  pose proof (tickless_cancel_eq c t d Ht Hi h Hne) as E. destruct (find_id h (slots t)) as [i |] eqn:Hf; (eapply wp_eq; [exact E |]).
  - pose proof Hf as Hf'. apply find_id_Some in Hf' as (s & Hsl & Hid & _).
    destruct (free_law d c t i h (rearmed c (freed i t)) s Hd Ht Hsl Hid Hne) as (H1 & H2 & H3 & H4).
    exact (conj H1 (conj (conj (fun _ => H2) (fun _ => eq_refl)) (conj H3 H4))).
  - exact (keep_law d c h t Hd Ht Hne Hf).
Qed.
Next Obligation.
  intros d c now Hd Htime. pose proof Hd as (Hi & t & Ht & Hs). pose proof Htime as (t' & Ht' & Hti). assert (t' = t) as -> by congruence.
  destruct (tickless_isr_eq c now t d Ht Hs Hti) as [es E]. eapply wp_eq; [exact E |]. exact (pass_law d c now t es Hd Ht Htime).
Qed.
End tickless.

Section periodic.
Local Existing Instance Drivers.periodic.

Lemma periodic_isr_eq c now t d : timetables d !! c = Some t -> table_sound t -> Forall (slot_timely now) (slots t) ->
  exists es, timer_isr c now d = Ok (omap (run_pair now) (slots t), at_table c (passed now t) es d).
Proof.
  intros Ht Hs Htime. eexists. apply (collected_pass _ c now t d [] Ht); [| reflexivity].
  unfold Periodic.on_timer_isr. rewrite (fire_due_isr_ok _ c now t d quiet_calls Ht (sound_ok t now Hs Htime)). reflexivity.
Qed.

#[export] Program Instance periodic_laws : TimeDriverLaws driver := {|
  live := driver_live; issued := driver_issued; in_order := driver_sound; has_room := driver_room; timely := driver_timely
|}.
Next Obligation. intros d c h e e'. apply live_law. Qed.
Next Obligation. intros d c h e. apply live_issued_law. Qed.
Next Obligation.
  intros d c tp cb arg Hd Hroom Htp. pose proof Hd as (Hi & t & Ht & Hs). pose proof Hroom as (t' & Ht' & _ & i & Hf).
  assert (t' = t) as -> by congruence. pose proof Hf as Hf'. apply find_id_Some in Hf' as (s & Hsl & Hid & _).
  pose proof (periodic_schedule_at_eq c t d Ht Hi tp cb arg) as E. rewrite Hf in E. eapply wp_eq; [exact E |].
  exact (claim_law d c t i tp cb arg [] s Hd Ht Hroom Htp Hsl Hid).
Qed.
Next Obligation.
  intros d c h Hd Hne. pose proof Hd as (Hi & t & Ht & Hs).
  pose proof (periodic_cancel_eq c t d Ht Hi h Hne) as E. destruct (find_id h (slots t)) as [i |] eqn:Hf; (eapply wp_eq; [exact E |]).
  - pose proof Hf as Hf'. apply find_id_Some in Hf' as (s & Hsl & Hid & _).
    destruct (free_law d c t i h [] s Hd Ht Hsl Hid Hne) as (H1 & H2 & H3 & H4).
    exact (conj H1 (conj (conj (fun _ => H2) (fun _ => eq_refl)) (conj H3 H4))).
  - exact (keep_law d c h t Hd Ht Hne Hf).
Qed.
Next Obligation.
  intros d c now Hd Htime. pose proof Hd as (Hi & t & Ht & Hs). pose proof Htime as (t' & Ht' & Hti). assert (t' = t) as -> by congruence.
  destruct (periodic_isr_eq c now t d Ht Hs Hti) as [es E]. eapply wp_eq; [exact E |]. exact (pass_law d c now t es Hd Ht Htime).
Qed.
End periodic.
End instances.
