(* ===== verification/ChronoProofs.v ===== *)
(** * Alarms keep time

    An alarm is idle, set for a time, or gone off.  Over any driver that keeps
    [TimeDriverLaws], arming, disarming and the timer's interrupt move it
    between the three as [Alarms.step] says, and what goes off wakes its
    waiters, on whatever cores they live. *)

From S2P Require Import Prelude Chain State ReadyQueue WaitQueue WaitQueueProofs Urgency UrgencyProofs Scheduler SchedulerSpec Local SchedulerProofs Switch RoadProofs SwitchProofs Cores ExitProofs Waking Waits Time Chrono ChronoSpec.

(** ** Raising a signal of its own *)

Section raise.
Context `{Config} (cx : cpu).

Definition lowered_signals (a : nat) (s : kernel_state) : kernel_state :=
  set_signals (<[a := CancelSignal (WaitQueue None) true]> (signals s)) s.

Lemma batch_signals s node l ts sgs : batch s node l ts -> batch (set_signals sgs s) node l ts.
Proof. intros [B1 B2 B3 B4 B5]. split; assumption. Qed.

Lemma system_signals s sgs : system_inv s -> system_inv (set_signals sgs s).
Proof.
  intros [[Hlen Hall] Hpin]. split; [split; [exact Hlen |] | exact Hpin]. intros d Hd.
  destruct (Hall d Hd) as (sc & L & Hs & run & I & []). exists sc, L, Hs, run, I. split; assumption.
Qed.

Lemma system_calls s es : system_inv s -> system_inv (set_calls es s).
Proof.
  intros [[Hlen Hall] Hpin]. split; [split; [exact Hlen |] | exact Hpin]. intros d Hd.
  destruct (Hall d Hd) as (sc & L & Hs & run & I & []). exists sc, L, Hs, run, I. split; assumption.
Qed.

Lemma wp_policy policy hint (Q : unit -> kernel_state -> Prop) s : (forall es, Q tt (set_calls es s)) ->
  wp (Switch.apply_reschedule_policy cx policy hint) Q s.
Proof.
  intros HQ. assert (Hsame : Q tt s) by (specialize (HQ (calls s)); destruct s; exact HQ).
  unfold Switch.apply_reschedule_policy. destruct (_ || _); [apply wp_ret, Hsame |].
  destruct (_ || _); [apply wp_emit, HQ | apply wp_ret, Hsame].
Qed.

(** Its waiters are delivered; nobody else's block, and no other node, is
    touched. *)
Record raised_own (a : nat) (l ts : list nat) (s s' : kernel_state) : Prop := {
  ro_system : system_inv s';
  ro_steady : steady (lowered_signals a s) s';
  ro_delivered : forall t v, t ∈ ts -> tcbs s !! t = Some v -> is_finished v = false -> delivered t s';
  ro_others : forall t, t ∉ ts -> unlinked <$> tcbs s' !! t = unlinked <$> tcbs s !! t;
  ro_nodes : forall n, n ∉ l -> nodes s' !! n = nodes s !! n
}.

Lemma raise_own_ok policy s a sg l ts : system_inv s -> signals s !! a = Some sg -> batch s (wq_head (cs_queue sg)) l ts ->
  wp (Switch.raise cx (Switch.own_signal a) policy) (fun _ => raised_own a l ts s) s.
Proof.
  intros Hsys Hsg Hb. unfold Switch.raise, Switch.raise_all, Switch.write_signal, Switch.read_signal.
  apply wp_bind. eapply wp_modify_signal; [exact Hsg |]. apply wp_bind. eapply wp_get_signal; [apply lookup_insert_eq |].
  apply wp_bind. eapply wp_modify_signal; [apply lookup_insert_eq |]. cbn [signals set_signals]. rewrite insert_insert_eq.
  match goal with |- wp _ _ ?st => change st with (lowered_signals a s) end. cbn [cs_queue set_raised_flag].
  pose proof (system_signals s _ Hsys : system_inv (lowered_signals a s)) as Hsys1.
  pose proof (batch_signals s _ l ts _ Hb : batch (lowered_signals a s) _ l ts) as Hb1.
  apply wp_bind, wp_get. apply wp_bind.
  assert (Hlen : length l <= S (size (nodes s))) by (pose proof (chain_length _ _ _ _ (bt_chain _ _ _ _ Hb)); lia).
  eapply wp_mono; [apply (ready_nodes_ok cx l ts _ (lowered_signals a s) _ _ Hsys1 Hb1 Hlen) |].
  intros agg s2 (Hsys2 & Hst & _ & Hd & Hc & _ & Ho). apply wp_policy. intros es.
  split; [apply system_calls, Hsys2 | | exact Hd | exact Hc | exact Ho].
  destruct Hst. split; assumption.
Qed.

Lemma delivered_kept t s s' : unlinked <$> tcbs s' !! t = unlinked <$> tcbs s !! t -> delivered t s -> delivered t s'.
Proof.
  intros E (w & Hw & Hd). rewrite Hw in E. destruct (tcbs s' !! t) as [w' |] eqn:Hw'; [| discriminate]. apply (inj Some) in E.
  exists w'. split; [exact Hw' |].
  change (arrived (unlinked w')). rewrite E. exact Hd.
Qed.
End raise.

(** ** Waiters on several alarms

    [W] tells the nodes on each alarm's queue, and whose they are; a thread
    waits on one alarm at a time. *)

Abbreviation waiting := (gmap nat (list nat * list nat)).

Section attended.
Context `{Config} (cx : cpu).
Implicit Types (k : kernel_state) (W : waiting).

Definition apart W : Prop := forall a b la ta lb tb, a <> b -> W !! a = Some (la, ta) -> W !! b = Some (lb, tb) -> la ## lb /\ ta ## tb.

Record attended k W : Prop := {
  at_system : system_inv k;
  at_waiters : forall a l ts, W !! a = Some (l, ts) -> exists sg, signals k !! a = Some sg /\ batch k (wq_head (cs_queue sg)) l ts;
  at_apart : apart W
}.

Lemma apart_empty W a : apart W -> apart (<[a := ([], [])]> W).
Proof.
  intros HW b c lb tb lc tc Hne Hb Hc. destruct (decide (b = a)) as [-> | Hba].
  - rewrite lookup_insert_eq in Hb. injection Hb as <- <-. split; intros x Hx; inversion Hx.
  - rewrite lookup_insert_ne in Hb by congruence. destruct (decide (c = a)) as [-> | Hca].
    + rewrite lookup_insert_eq in Hc. injection Hc as <- <-. split; intros x _ Hx; inversion Hx.
    + rewrite lookup_insert_ne in Hc by congruence. eauto.
Qed.

Lemma batch_nil k : batch k None [] [].
Proof. split; [reflexivity | constructor | | constructor |]; intros x Hx; inversion Hx. Qed.

Lemma lseg_same ns ns' p (l : list nat) q : (forall x, x ∈ l -> ns' !! x = ns !! x) -> lseg node_next ns p l q -> lseg node_next ns' p l q.
Proof. intros Hs. apply lseg_frame. intros x Hx. rewrite (Hs x Hx). reflexivity. Qed.

Lemma unqueued_apart k k' (l : list nat) n : Urgency.wf (tcbs k) (nodes k) (mutexes k) -> mutexes k' = mutexes k ->
  (forall x, x ∈ l -> unqueued k x) -> (forall x, x ∉ l -> nodes k' !! x = nodes k !! x) -> unqueued k n -> unqueued k' n.
Proof.
  intros [_ _ H3] Em Hl Hn Hu m mx lm Hmx Hch. rewrite Em in Hmx. destruct (H3 m mx Hmx) as (l0 & Hq & _).
  pose proof (WaitQueue.wr_chain _ _ _ _ Hq) as Hc.
  assert (Hc' : chain node_next (nodes k') (wq_head (mutex_queue mx)) l0).
  { eapply lseg_same; [| exact Hc]. intros x Hx. apply Hn. intros Hxl. exact (Hl x Hxl m mx l0 Hmx Hc Hx). }
  rewrite (chain_det _ _ _ _ _ Hch Hc'). exact (Hu m mx l0 Hmx Hc).
Qed.

Lemma batch_apart k k' (l : list nat) node (lb tb : list nat) : system_inv k -> steady k k' -> (forall x, x ∈ l -> unqueued k x) ->
  (forall x, x ∉ l -> nodes k' !! x = nodes k !! x) -> l ## lb -> batch k node lb tb -> batch k' node lb tb.
Proof.
  intros Hsys Hst Hl Hn Hd [B1 B2 B3 B4 B5].
  assert (Hsame : forall x, x ∈ lb -> nodes k' !! x = nodes k !! x) by (intros x Hx; apply Hn; intros Hxl; exact (Hd x Hxl Hx)).
  split.
  - eapply lseg_same; [exact Hsame | exact B1].
  - eapply Forall2_same_length_lookup_2; [eapply Forall2_length, B2 |]. intros i n t Hi Hi'.
    destruct (Forall2_lookup_lr _ _ _ _ _ _ B2 Hi Hi') as (nd & Hnd & Eo). exists nd. split; [| exact Eo].
    rewrite Hsame; [exact Hnd | eapply list_elem_of_lookup_2, Hi].
  - intros t Ht. destruct (B3 t Ht) as (v & Hv). destruct (steady_block k k' t v Hst Hv) as (w & Hw & _). eauto.
  - exact B4.
  - intros n Hx. eapply unqueued_apart; [apply system_wf, Hsys | apply Hst | exact Hl | exact Hn | apply B5, Hx].
Qed.

Lemma attended_raised k k' W a l ts : attended k W -> W !! a = Some (l, ts) -> raised_own a l ts k k' ->
  attended k' (<[a := ([], [])]> W).
Proof.
  intros [A1 A2 A3] Ha [R1 R2 R3 R4 R5]. destruct (A2 a l ts Ha) as (sg & Hsg & Hb). split; [exact R1 | |].
  - intros b lb tb Hb'. destruct (decide (b = a)) as [-> | Hne].
    + rewrite lookup_insert_eq in Hb'. injection Hb' as <- <-. exists (CancelSignal (WaitQueue None) true).
      split; [rewrite (sd_signals _ _ R2); apply lookup_insert_eq | apply batch_nil].
    + rewrite lookup_insert_ne in Hb' by congruence. destruct (A2 b lb tb Hb') as (sb & Hsb & Hbb). exists sb.
      split; [rewrite (sd_signals _ _ R2); cbn; rewrite lookup_insert_ne by congruence; exact Hsb |].
      eapply (batch_apart (lowered_signals a k)); [apply system_signals, A1 | exact R2 | exact (bt_unqueued _ _ _ _ Hb) | exact R5 | | apply batch_signals, Hbb].
      exact (proj1 (A3 a b l ts lb tb ltac:(congruence) Ha Hb')).
  - apply apart_empty, A3.
Qed.

Lemma attended_calls k W es : attended k W -> attended (set_calls es k) W.
Proof.
  intros [A1 A2 A3]. split; [apply system_calls, A1 | | exact A3]. intros a l ts Ha. destruct (A2 a l ts Ha) as (sg & Hsg & [B1 B2 B3 B4 B5]).
  exists sg. split; [exact Hsg | split; assumption].
Qed.
End attended.

(** ** Steps of the world with its time *)

Section clocked.
Context {X R D : Type}.
Implicit Types (ch : clocked X R D).

Definition kern ch : kernel_state := kernel (in_world ch).
Definition with_kern k ch : clocked X R D := set_world (set_kernel k (in_world ch)) ch.

Lemma with_kern_same ch : with_kern (kern ch) ch = ch.
Proof. destruct ch as [[] ? ?]. reflexivity. Qed.

Lemma wp_on_kernel {A} (m : K A) (Q : A -> clocked X R D -> Prop) ch :
  wp m (fun a k => Q a (with_kern k ch)) (kern ch) -> wp (on_kernel m) Q ch.
Proof. unfold wp, on_kernel, on_world, in_kernel, kern. destruct (m _) as [[a s] |]; auto. Qed.

Lemma wp_on_time {A} (m : M D A) (Q : A -> clocked X R D -> Prop) ch :
  wp m (fun a d => Q a (set_time d ch)) (time ch) -> wp (on_time m) Q ch.
Proof. unfold wp, on_time. destruct (m _) as [[a s] |]; auto. Qed.

Lemma wp_get_timer a h (Q : Z -> clocked X R D -> Prop) ch : timers ch !! a = Some h -> Q h ch -> wp (get_timer a) Q ch.
Proof. unfold wp, get_timer. intros ->. auto. Qed.

Lemma wp_signal_raised a sg (Q : bool -> clocked X R D -> Prop) ch : signals (kern ch) !! a = Some sg -> Q (raised_flag sg) ch ->
  wp (Chrono.raised a) Q ch.
Proof.
  intros Hsg HQ. unfold Chrono.raised, Waits.raised. unfold wp, on_world, kbind, in_kernel, Switch.read_signal, get_signal.
  unfold kern in Hsg. rewrite Hsg. cbn. destruct ch as [[] ? ?]. exact HQ.
Qed.
End clocked.

(** ** What the timer's interrupt runs *)

Section callbacks.
Context `{Config} {X R D : Type} `{!TimeDriver D} (cx : cpu) (other : nat -> nat -> C X R D unit).
Implicit Types (ch : clocked X R D) (W : waiting).

Definition rung (rs : list (nat * nat)) (a : nat) : Prop := (Chrono.on_timer_address, a) ∈ rs.
#[export] Instance rung_dec rs a : Decision (rung rs a).
Proof. unfold rung. apply _. Defined.

(** Only alarms and round robin: what else the application schedules is its
    own affair. *)
Definition of_this_library W (r : nat * nat) : Prop :=
  r.1 = Chrono.rotate_address \/ exists a, r = (Chrono.on_timer_address, a) /\ is_Some (W !! a).

Record rang (rs : list (nat * nat)) W k W' k' : Prop := {
  rg_attended : attended k' W';
  rg_waiters : forall a, W' !! a = if decide (rung rs a) then (fun _ => ([], [])) <$> W !! a else W !! a;
  rg_signals : forall a, signals k' !! a = if decide (rung rs a) then Some (CancelSignal (WaitQueue None) true) else signals k !! a;
  rg_steady : steady (set_signals (signals k') k) k';
  rg_delivered : forall a l ts t v, rung rs a -> W !! a = Some (l, ts) -> t ∈ ts -> tcbs k !! t = Some v -> is_finished v = false -> delivered t k';
  rg_others : forall t, (forall a l ts, rung rs a -> W !! a = Some (l, ts) -> t ∉ ts) -> unlinked <$> tcbs k' !! t = unlinked <$> tcbs k !! t
}.

Lemma rang_nil W k : attended k W -> rang [] W k W k.
Proof.
  intros HA. assert (Hno : forall a, ~ rung [] a) by (intros a Hx; inversion Hx).
  split; [exact HA | | | destruct k; reflexivity | | reflexivity].
  - intros a. rewrite decide_False by apply Hno. reflexivity.
  - intros a. rewrite decide_False by apply Hno. reflexivity.
  - intros a l ts t v Hr. destruct (Hno a Hr).
Qed.

Lemma rung_cons_rotate arg rs a : rung ((Chrono.rotate_address, arg) :: rs) a <-> rung rs a.
Proof. unfold rung. rewrite elem_of_cons. split; [intros [E | Hx]; [discriminate | exact Hx] | auto]. Qed.

Lemma rung_cons b rs a : rung ((Chrono.on_timer_address, b) :: rs) a <-> a = b \/ rung rs a.
Proof. unfold rung. rewrite elem_of_cons. split; (intros [E | Hx]; [left; congruence | right; exact Hx]). Qed.

(** A turn of round robin wakes nobody. *)
Lemma rang_rotate arg rs W k W' k' es : rang rs W (set_calls es k) W' k' -> rang ((Chrono.rotate_address, arg) :: rs) W k W' k'.
Proof.
  intros [G1 G2 G3 G4 G5 G6]. split; [exact G1 | | | destruct G4; split; assumption | |].
  - intros a. rewrite G2. destruct (decide (rung rs a)) as [Hr | Hr]; [rewrite decide_True | rewrite decide_False];
      (reflexivity || rewrite rung_cons_rotate; exact Hr).
  - intros a. rewrite G3. destruct (decide (rung rs a)) as [Hr | Hr]; [rewrite decide_True | rewrite decide_False];
      (reflexivity || rewrite rung_cons_rotate; exact Hr).
  - intros a l ts t v Hr. apply rung_cons_rotate in Hr. exact (G5 a l ts t v Hr).
  - intros t Ht. apply G6. intros a l ts Hr. apply Ht. apply rung_cons_rotate, Hr.
Qed.

Lemma rang_raise b l ts rs W k k1 W' k' : attended k W -> W !! b = Some (l, ts) -> raised_own b l ts k k1 ->
  rang rs (<[b := ([], [])]> W) k1 W' k' -> rang ((Chrono.on_timer_address, b) :: rs) W k W' k'.
Proof.
  intros HA Hb Hro [G1 G2 G3 G4 G5 G6]. pose proof Hro as [R1 R2 R3 R4 R5]. split.
  - exact G1.
  - intros a. rewrite G2. destruct (decide (a = b)) as [-> | Hne].
    + rewrite lookup_insert_eq, (decide_True (P := rung (_ :: _) b)) by (apply rung_cons; auto). rewrite Hb. destruct (decide _); reflexivity.
    + rewrite lookup_insert_ne by congruence. destruct (decide (rung rs a)) as [Hr | Hr]; [rewrite decide_True | rewrite decide_False];
        (reflexivity || rewrite rung_cons; tauto).
  - intros a. rewrite G3, (sd_signals _ _ R2). cbn [signals lowered_signals set_signals]. destruct (decide (a = b)) as [-> | Hne].
    + rewrite lookup_insert_eq, (decide_True (P := rung (_ :: _) b)) by (apply rung_cons; auto). destruct (decide _); reflexivity.
    + rewrite lookup_insert_ne by congruence. destruct (decide (rung rs a)) as [Hr | Hr]; [rewrite decide_True | rewrite decide_False];
        (reflexivity || rewrite rung_cons; tauto).
  - destruct R2 as [S1 S2 S3 S4 S5 S6 S7], G4 as [T1 T2 T3 T4 T5 T6 T7]. cbn in *. split; cbn; congruence.
  - intros a la ta t v Hr Ha Ht Hv Hf. apply rung_cons in Hr. destruct (decide (a = b)) as [-> | Hne].
    + assert (E : (la, ta) = (l, ts)) by congruence. injection E as -> ->. pose proof (R3 t v Ht Hv Hf) as Hd.
      eapply delivered_kept; [apply G6 | exact Hd]. intros c lc tc _ Hc Htc. destruct (decide (c = b)) as [-> | Hcb].
      * rewrite lookup_insert_eq in Hc. injection Hc as _ <-. inversion Htc.
      * rewrite lookup_insert_ne in Hc by congruence. exact (proj2 (at_apart _ _ HA b c l ts lc tc ltac:(congruence) Hb Hc) t Ht Htc).
    + destruct Hr as [-> | Hr]; [contradiction |].
      assert (Hnt : t ∉ ts) by (intros Hx; exact (proj2 (at_apart _ _ HA b a l ts la ta ltac:(congruence) Hb Ha) t Hx Ht)).
      pose proof (R4 t Hnt) as E. rewrite Hv in E. destruct (tcbs k1 !! t) as [v1 |] eqn:Hv1; [| discriminate]. apply (inj Some) in E.
      eapply (G5 a la ta t v1); [exact Hr | rewrite lookup_insert_ne by congruence; exact Ha | exact Ht | exact Hv1 |].
      change (is_finished (unlinked v1) = false). rewrite E. exact Hf.
  - intros t Ht. rewrite G6.
    + apply R4. apply (Ht b l ts); [apply rung_cons; auto | exact Hb].
    + intros a la ta Hr Ha. destruct (decide (a = b)) as [-> | Hne].
      * rewrite lookup_insert_eq in Ha. injection Ha as _ <-. intros Hx. inversion Hx.
      * rewrite lookup_insert_ne in Ha by congruence. apply (Ht a la ta); [apply rung_cons; auto | exact Ha].
Qed.

Lemma run_callbacks_ok rs : forall ch W, attended (kern ch) W -> Forall (of_this_library W) rs ->
  wp (Chrono.run_callbacks cx other rs)
    (fun _ ch' => ch' = with_kern (kern ch') ch /\ exists W', rang rs W (kern ch) W' (kern ch')) ch.
Proof.
  induction rs as [| [cb arg] rs IH]; intros ch W HA Hrs.
  - apply wp_ret. split; [rewrite with_kern_same; reflexivity | exists W; apply rang_nil, HA].
  - apply Forall_cons_1 in Hrs as [Hr Hrs]. cbn [Chrono.run_callbacks]. apply wp_bind. destruct Hr as [E | (a & E & [[l ts] Ha])].
    + cbn in E. subst cb. unfold Chrono.callback, Chrono.rotate. cbn [Nat.eqb Chrono.on_timer_address Chrono.rotate_address].
      apply wp_on_kernel, wp_emit. pose proof (attended_calls _ _ (port_pend_reschedule (this_core cx) :: calls (kern ch)) HA) as HA1.
      eapply wp_mono; [apply (IH (with_kern _ ch) W HA1 Hrs) |]. intros _ ch' (E & W' & HG). split; [exact E |]. exists W'.
      eapply rang_rotate, HG.
    + injection E as -> ->. unfold Chrono.callback, Chrono.on_timer. cbn [Nat.eqb Chrono.on_timer_address]. apply wp_on_kernel.
      destruct (at_waiters _ _ HA a l ts Ha) as (sg & Hsg & Hb).
      eapply wp_mono; [apply (raise_own_ok cx ReschedulePolicy.automatic (kern ch) a sg l ts (at_system _ _ HA) Hsg Hb) |].
      intros ? k1 Hro. pose proof (attended_raised _ _ _ _ _ _ HA Ha Hro) as HA1.
      eapply wp_mono; [apply (IH (with_kern k1 ch) _ HA1) |].
      * eapply Forall_impl; [exact Hrs |]. intros r [Hx | (b & Eb & Hx)]; [left; exact Hx | right]. exists b. split; [exact Eb |].
        apply lookup_insert_is_Some'. auto.
      * intros _ ch' (E & W' & HG). split; [exact E |]. exists W'. exact (rang_raise a l ts rs W _ k1 W' _ HA Ha Hro HG).
Qed.
End callbacks.

(** ** What an alarm promises *)

Module Alarms.
Inductive phase := idle | set_for (tp : Z) | gone_off.

#[export] Instance phase_eq_dec : EqDecision phase.
Proof. solve_decision. Defined.

Inductive move :=
| made (a : nat)
| armed (tp : Z) (a : nat)
| asked_pending (a : nat)
| asked_expired (a : nat)
| disarmed (a : nat)
| dropped (a : nat)
| elapsed (now : Z).

Definition by_then (now : Z) (ph : phase) : phase :=
  match ph with set_for tp => if (tp <=? now)%Z then gone_off else ph | _ => ph end.

Definition is_set (ph : phase) : bool := match ph with set_for _ => true | _ => false end.

(** The phases after a move, and what it answers. *)
Definition step (A : gmap nat phase) (mv : move) : option (gmap nat phase * option bool) :=
  match mv with
  | made a => match A !! a with None => Some (<[a := idle]> A, None) | Some _ => None end
  | armed tp a => match A !! a with Some (set_for _) | None => None | Some _ => Some (<[a := set_for tp]> A, None) end
  | asked_pending a => match A !! a with Some ph => Some (A, Some (is_set ph)) | None => None end
  | asked_expired a => match A !! a with Some ph => Some (A, Some (bool_decide (ph = gone_off))) | None => None end
  | disarmed a => match A !! a with Some _ => Some (<[a := idle]> A, None) | None => None end
  | dropped a => match A !! a with Some _ => Some (delete a A, None) | None => None end
  | elapsed now => Some (by_then now <$> A, None)
  end.

Section perform.
Context `{Config} {X R D : Type} `{!TimeDriver D} (cx : cpu) (other : nat -> nat -> C X R D unit).

Definition quietly (m : C X R D unit) : C X R D (option bool) := m ;;* kret None.
Definition answered (m : C X R D bool) : C X R D (option bool) := let* b := m in kret (Some b).

Definition perform (mv : move) : C X R D (option bool) :=
  match mv with
  | made a => quietly (Chrono.new_alarm a)
  | armed tp a => quietly (Chrono.arm_at cx tp a)
  | asked_pending a => answered (Chrono.pending a)
  | asked_expired a => answered (Chrono.expired a)
  | disarmed a => quietly (Chrono.disarm cx a)
  | dropped a => quietly (Chrono.destroy cx a)
  | elapsed now => quietly (Chrono.timer_interrupt cx other now)
  end.

(** What a move needs of the driver, and of its caller. *)
Definition allowed `{!TimeDriverLaws D} (ch : clocked X R D) (W : waiting) (mv : move) : Prop :=
  match mv with
  | made a => True
  | armed tp a => has_room (time ch) (this_core cx) /\ (0 <= tp < 2 ^ 64)%Z
  | dropped a => exists ts, W !! a = Some ([], ts)
  | elapsed now => timely (time ch) (this_core cx) now
  | _ => True
  end.
End perform.
End Alarms.

Section tracking.
Import Alarms.
Context `{Config} {X R D : Type} `{!TimeDriver D} `{!TimeDriverLaws D} (cx : cpu).
Local Abbreviation core := (this_core cx).
Implicit Types (ch : clocked X R D) (A : gmap nat phase) (W : waiting) (d : D).

(** What the handle in [timer] is, in each phase. *)
Definition held d (a : nat) (h : Z) (ph : phase) : Prop :=
  match ph with
  | idle => h = 0%Z
  | set_for tp => live d core h (Entry tp 0 Chrono.on_timer_address a)
  | gone_off => h <> 0%Z /\ issued d core h /\ forall e, ~ live d core h e
  end.

Record tracks ch A W : Prop := {
  tk_attended : attended (kern ch) W;
  tk_order : in_order (time ch) core;
  tk_domain : dom A = dom W;
  tk_alarm : forall a ph, A !! a = Some ph -> exists h sg, timers ch !! a = Some h /\ signals (kern ch) !! a = Some sg /\
    raised_flag sg = bool_decide (ph = gone_off) /\ held (time ch) a h ph;
  tk_live : forall h e, live (time ch) core h e -> en_cb e = Chrono.rotate_address \/
    exists a tp, A !! a = Some (set_for tp) /\ timers ch !! a = Some h /\ e = Entry tp 0 Chrono.on_timer_address a
}.

Lemma held_zero d a h ph : in_order d core -> held d a h ph -> h = 0%Z <-> ph = idle.
Proof.
  intros Hd. destruct ph as [| tp |]; cbn; intros Hh; [tauto | | split; [tauto | discriminate]].
  destruct (live_issued d core h _ Hd Hh) as [_ Hne]. split; [contradiction | discriminate].
Qed.

(** ** An alarm's flag lowered *)

Lemma attended_flag k W a sg b : attended k W -> signals k !! a = Some sg ->
  attended (set_signals (<[a := set_raised_flag b sg]> (signals k)) k) W.
Proof.
  intros [A1 A2 A3] Hsg. split; [apply system_signals, A1 | | exact A3]. intros c l ts Hc. destruct (A2 c l ts Hc) as (sc & Hsc & Hb).
  cbn. destruct (decide (c = a)) as [-> | Hne].
  - rewrite lookup_insert_eq. eexists. split; [reflexivity |]. assert (sc = sg) as -> by congruence. apply batch_signals, Hb.
  - rewrite lookup_insert_ne by congruence. eexists. split; [exact Hsc |]. apply batch_signals, Hb.
Qed.

Definition flag_down (a : nat) (sg : cancel_signal) (k : kernel_state) : kernel_state :=
  set_signals (<[a := set_raised_flag false sg]> (signals k)) k.

Lemma wp_reset a sg (Q : unit -> clocked X R D -> Prop) ch : signals (kern ch) !! a = Some sg ->
  Q tt (with_kern (flag_down a sg (kern ch)) ch) -> wp (Chrono.reset a) Q ch.
Proof. intros Hsg HQ. unfold Chrono.reset, Switch.write_signal. apply wp_on_kernel. eapply wp_modify_signal; [exact Hsg | exact HQ]. Qed.

(** The world of a changed alarm: its phase, its handle, the driver. *)
Lemma tracks_change ch A W a ph h sg d : tracks ch A W -> is_Some (A !! a) -> signals (kern ch) !! a = Some sg ->
  in_order d core -> ph <> gone_off -> held d a h ph ->
  (forall b hb pb, b <> a -> A !! b = Some pb -> timers ch !! b = Some hb -> held (time ch) b hb pb -> held d b hb pb) ->
  (forall x e, live d core x e -> (x = h /\ exists tp, ph = set_for tp /\ e = Entry tp 0 Chrono.on_timer_address a) \/
     (live (time ch) core x e /\ (timers ch !! a <> Some x \/ en_cb e = Chrono.rotate_address))) ->
  tracks (Clocked (set_kernel (flag_down a sg (kern ch)) (in_world ch)) d (<[a := h]> (timers ch))) (<[a := ph]> A) W.
Proof.
  intros [T1 T2 T3 T4 T5] Hin Hsg Hd Hph Hh Hothers Hlive. split; unfold kern; cbn [in_world time timers kernel set_kernel].
  - apply attended_flag; assumption.
  - exact Hd.
  - rewrite dom_insert_L, T3. apply elem_of_dom in Hin. rewrite T3 in Hin. set_solver.
  - intros b pb Hb. destruct (decide (b = a)) as [-> | Hne].
    + rewrite lookup_insert_eq in Hb. injection Hb as <-. exists h, (set_raised_flag false sg). cbn. rewrite !lookup_insert_eq.
      rewrite bool_decide_false by exact Hph. auto.
    + rewrite lookup_insert_ne in Hb by congruence. destruct (T4 b pb Hb) as (hb & sb & H1 & H2 & H3 & H4). exists hb, sb. cbn.
      rewrite !lookup_insert_ne by congruence. split_and!; eauto.
  - intros x e He. destruct (Hlive x e He) as [(-> & tp & -> & ->) | [Hold Hnot]].
    + right. exists a, tp. rewrite !lookup_insert_eq. auto.
    + destruct (T5 x e Hold) as [E | (b & tp & H1 & H2 & ->)]; [auto |]. right. exists b, tp.
      destruct Hnot as [Hnot | Hcb]; [| discriminate]. assert (b <> a) by (intros ->; contradiction).
      rewrite !lookup_insert_ne by congruence. auto.
Qed.

(** ** The operations *)

Lemma wp_pending ch A W a ph (Q : bool -> clocked X R D -> Prop) : tracks ch A W -> A !! a = Some ph -> Q (is_set ph) ch ->
  wp (Chrono.pending a) Q ch.
Proof.
  intros HT Ha HQ. destruct (tk_alarm _ _ _ HT a ph Ha) as (h & sg & Hh & Hsg & Hf & Hheld). unfold Chrono.pending.
  apply wp_bind. eapply wp_get_timer; [exact Hh |]. apply wp_bind. eapply wp_signal_raised; [exact Hsg |]. apply wp_ret.
  rewrite Hf. pose proof (held_zero _ _ _ _ (tk_order _ _ _ HT) Hheld) as Hz.
  destruct ph as [| tp |]; cbn in Hz |- *.
  - rewrite (proj2 (Z.eqb_eq h 0)) by tauto. exact HQ.
  - rewrite (proj2 (Z.eqb_neq h 0)) by (intros E; apply Hz in E; discriminate). exact HQ.
  - rewrite andb_false_r. exact HQ.
Qed.

Lemma new_alarm_ok ch A W a : tracks ch A W -> A !! a = None ->
  wp (Chrono.new_alarm a) (fun _ ch' => tracks ch' (<[a := idle]> A) (<[a := ([], [])]> W) /\ tcbs (kern ch') = tcbs (kern ch)) ch.
Proof.
  intros [T1 T2 T3 T4 T5] Ha. unfold Chrono.new_alarm, set_timer. apply wp_bind, wp_modify, wp_on_kernel, wp_modify.
  assert (Hw : W !! a = None) by (apply not_elem_of_dom; rewrite <- T3; apply not_elem_of_dom, Ha).
  split; [| reflexivity]. split; unfold kern, with_kern; cbn [in_world time timers kernel set_kernel set_timers set_world].
  - destruct T1 as [A1 A2 A3]. split; [apply system_signals, A1 | |].
    + intros b l ts Hb. cbn. destruct (decide (b = a)) as [-> | Hne].
      * rewrite lookup_insert_eq in Hb. rewrite lookup_insert_eq. injection Hb as <- <-. eexists. split; [reflexivity | apply batch_nil].
      * rewrite lookup_insert_ne in Hb by congruence. rewrite lookup_insert_ne by congruence.
        destruct (A2 b l ts Hb) as (sg & Hsg & Hq). exists sg. split; [exact Hsg | apply batch_signals, Hq].
    + apply apart_empty, A3.
  - exact T2.
  - rewrite !dom_insert_L, T3. reflexivity.
  - intros b pb Hb. destruct (decide (b = a)) as [-> | Hne].
    + rewrite lookup_insert_eq in Hb. injection Hb as <-. exists 0%Z, (CancelSignal (WaitQueue None) false). cbn.
      rewrite !lookup_insert_eq. auto.
    + rewrite lookup_insert_ne in Hb by congruence. destruct (T4 b pb Hb) as (h & sg & H1 & H2 & H3 & H4). exists h, sg. cbn.
      rewrite !lookup_insert_ne by congruence. auto.
  - intros x e He. destruct (T5 x e He) as [E | (b & tp & H1 & H2 & H3)]; [auto |]. right. exists b, tp.
    assert (b <> a) by congruence. rewrite !lookup_insert_ne by congruence. auto.
Qed.

Lemma arm_at_ok ch A W a tp ph : tracks ch A W -> A !! a = Some ph -> is_set ph = false ->
  has_room (time ch) core -> (0 <= tp < 2 ^ 64)%Z ->
  wp (Chrono.arm_at cx tp a) (fun _ ch' => tracks ch' (<[a := set_for tp]> A) W /\ tcbs (kern ch') = tcbs (kern ch)) ch.
Proof.
  intros HT Ha Hph Hroom Htp. pose proof (tk_order _ _ _ HT) as Hd. destruct (tk_alarm _ _ _ HT a ph Ha) as (h & sg & Hh & Hsg & Hf & Hheld).
  unfold Chrono.arm_at. apply wp_bind. eapply wp_pending; [exact HT | exact Ha |]. rewrite Hph. apply wp_bind, wp_ensure; [reflexivity |].
  apply wp_bind. eapply wp_reset; [exact Hsg |]. apply wp_bind, wp_on_time. change (time (with_kern _ ch)) with (time ch).
  eapply wp_mono; [apply (schedule_law (time ch) core tp Chrono.on_timer_address a Hd Hroom Htp) |].
  intros h' d (Hd' & Hne & Hfresh & Hiss & Hmono & Hlive). apply wp_bind, wp_modify, wp_ensure; [rewrite (proj2 (Z.eqb_neq _ _)) by exact Hne; reflexivity |].
  split; [| reflexivity]. apply (tracks_change ch A W a (set_for tp) h' sg d HT); [eauto | exact Hsg | exact Hd' | discriminate | | |].
  - apply Hlive. auto.
  - intros b hb pb _ _ _. destruct pb as [| tb |]; cbn; [auto | intros Hl; apply Hlive; auto |].
    intros (G1 & G2 & G3). split_and!; auto. intros e He. apply Hlive in He as [[-> _] | He]; [contradiction | exact (G3 e He)].
  - intros x e He. apply Hlive in He as [[-> ->] | He]; [left; eauto |]. right. split; [exact He |].
    destruct (tk_live _ _ _ HT x e He) as [E | (b & tb & H1 & H2 & ->)]; [auto |]. left.
    intros E. assert (En : b = a \/ b <> a) by lia. destruct En as [-> | Hba].
    + assert (ph = set_for tb) as -> by congruence. discriminate.
    + destruct (tk_alarm _ _ _ HT a ph Ha) as (h0 & _ & Hh0 & _ & _ & Hheld0). assert (h0 = x) as -> by congruence.
      destruct ph as [| |]; [| discriminate |]; cbn in Hheld0.
      * destruct (live_issued _ _ _ _ Hd He) as [_ Hx]. contradiction.
      * destruct Hheld0 as (_ & _ & G). exact (G _ He).
Qed.

Lemma arm_at_refuses ch A W a tp tp' : tracks ch A W -> A !! a = Some (set_for tp') -> Chrono.arm_at cx tp a ch = Panic require_failed.
Proof.
  intros HT Ha. pose proof (wp_pending ch A W a (set_for tp') (fun b ch' => b = true /\ ch' = ch) HT Ha (conj eq_refl eq_refl)) as Hw.
  destruct (wp_elim _ _ _ Hw) as (b & ch' & E & -> & ->). unfold Chrono.arm_at, kbind. rewrite E. reflexivity.
Qed.

(** A disarm never waits: a cancel that missed finds the flag raised. *)
Lemma alarm_disarm_ok ch A W a ph : tracks ch A W -> A !! a = Some ph ->
  wp (Chrono.disarm cx a) (fun _ ch' => tracks ch' (<[a := idle]> A) W /\ tcbs (kern ch') = tcbs (kern ch)) ch.
Proof.
  intros HT Ha. pose proof (tk_order _ _ _ HT) as Hd. destruct (tk_alarm _ _ _ HT a ph Ha) as (h & sg & Hh & Hsg & Hf & Hheld).
  pose proof (held_zero _ _ _ _ Hd Hheld) as Hz.
  assert (Hdone : forall d, in_order d core -> (forall x, issued (time ch) core x -> issued d core x) ->
    (forall x e, live d core x e <-> x <> h /\ live (time ch) core x e) ->
    wp (set_timer a 0 ;;* Chrono.reset a) (fun _ ch' => tracks ch' (<[a := idle]> A) W /\ tcbs (kern ch') = tcbs (kern ch)) (set_time d ch)).
  { intros d Hd' Hmono Hlive. apply wp_bind, wp_modify. eapply wp_reset; [exact Hsg |]. split; [| reflexivity].
    apply (tracks_change ch A W a idle 0%Z sg d HT); [eauto | exact Hsg | exact Hd' | discriminate | reflexivity | |].
    - intros b hb pb Hba Hb Hhb. destruct pb as [| tb |]; cbn; [auto | |].
      + intros Hl. apply Hlive. split; [| exact Hl]. intros ->. destruct ph as [| tp |]; cbn in Hheld.
        * destruct (live_issued _ _ _ _ Hd Hl). contradiction.
        * pose proof (live_once _ _ _ _ _ Hd Hl Hheld) as E. congruence.
        * exact (proj2 (proj2 Hheld) _ Hl).
      + intros (G1 & G2 & G3). split_and!; auto. intros e He. exact (G3 e (proj2 (proj1 (Hlive _ _) He))).
    - intros x e He. apply Hlive in He as [Hne He]. right. split; [exact He |]. left. congruence. }
  unfold Chrono.disarm. apply wp_bind. eapply wp_get_timer; [exact Hh |]. apply wp_bind. destruct (Z.eqb_spec h 0) as [E | Hne]; cbn [negb].
  - apply wp_ret. specialize (Hdone (time ch) Hd (fun x Hx => Hx)). destruct ch as [wd d ts]. apply Hdone. cbn in *.
    intros x e. split; [| tauto]. intros He. split; [| exact He]. intros ->. destruct (live_issued _ _ _ _ Hd He). contradiction.
  - apply wp_bind, wp_on_time. eapply wp_mono; [apply (cancel_law (time ch) core h Hd Hne) |].
    intros b d (Hd' & Hb & Hmono & Hlive). specialize (Hdone d Hd' Hmono Hlive). destruct b; cbn [negb]; [apply wp_ret, Hdone |].
    apply wp_bind. eapply wp_signal_raised; [exact Hsg |]. rewrite Hf. destruct ph as [| tp |]; cbn in Hheld.
    + contradiction.
    + discriminate (proj2 Hb (ex_intro _ _ Hheld)).
    + rewrite bool_decide_true by reflexivity. apply wp_ret, Hdone.
Qed.

Lemma destroy_ok ch A W a ph ts : tracks ch A W -> A !! a = Some ph -> W !! a = Some ([], ts) ->
  wp (Chrono.destroy cx a) (fun _ ch' => tracks ch' (delete a A) (delete a W) /\ tcbs (kern ch') = tcbs (kern ch)) ch.
Proof.
  intros HT Ha Hw. unfold Chrono.destroy. apply wp_bind. eapply wp_mono; [apply (alarm_disarm_ok ch A W a ph HT Ha) |].
  intros _ ch1 ([T1 T2 T3 T4 T5] & Etc). apply wp_bind, wp_on_kernel. destruct (at_waiters _ _ T1 a [] ts Hw) as (sg & Hsg & Hb).
  eapply wp_get_signal; [exact Hsg |]. rewrite with_kern_same. apply wp_bind, wp_ensure; [unfold WaitQueue.empty; rewrite (bt_chain _ _ _ _ Hb); reflexivity |].
  apply wp_bind, wp_modify, wp_on_kernel, wp_modify. split; [| exact Etc].
  split; unfold kern, with_kern; cbn [in_world time timers kernel set_kernel set_timers set_world].
  - destruct T1 as [A1 A2 A3]. split; [apply system_signals, A1 | |].
    + intros b l tb Hb'. apply lookup_delete_Some in Hb' as [Hne Hb']. destruct (A2 b l tb Hb') as (sb & Hsb & Hq). exists sb.
      cbn. rewrite lookup_delete_ne by exact Hne. split; [exact Hsb | apply batch_signals, Hq].
    + intros b c lb tb lc tc Hne Hb' Hc'. apply lookup_delete_Some in Hb' as [_ Hb']. apply lookup_delete_Some in Hc' as [_ Hc']. eauto.
  - exact T2.
  - rewrite dom_insert_L in T3. rewrite !dom_delete_L, <- T3. set_solver.
  - intros b pb Hb'. apply lookup_delete_Some in Hb' as [Hne Hb']. destruct (T4 b pb) as (h & sb & H1 & H2 & H3 & H4);
      [rewrite lookup_insert_ne by exact Hne; exact Hb' |]. exists h, sb. cbn. rewrite !lookup_delete_ne by exact Hne. auto.
  - intros x e He. destruct (T5 x e He) as [E | (b & tp & H1 & H2 & H3)]; [auto |]. right. exists b, tp.
    apply lookup_insert_Some in H1 as [[_ E] | [Hne H1]]; [discriminate |]. rewrite !lookup_delete_ne by exact Hne. auto.
Qed.

(** The interrupt: what it runs are the alarms that are due, and rotations. *)
Lemma interrupt_runs ch A W rs now : tracks ch A W ->
  (forall r, r ∈ rs -> exists x e, live (time ch) core x e /\ (en_when e <= now)%Z /\ r = (en_cb e, en_arg e)) ->
  Forall (of_this_library W) rs /\ forall a, rung rs a -> exists tp, A !! a = Some (set_for tp) /\ (tp <= now)%Z.
Proof.
  intros HT Hrs. split.
  - apply Forall_forall. intros r Hr. destruct (Hrs r Hr) as (x & e & He & _ & ->).
    destruct (tk_live _ _ _ HT x e He) as [E | (b & tp & Hb & _ & ->)]; [left; exact E | right]. exists b. split; [reflexivity |].
    apply elem_of_dom. rewrite <- (tk_domain _ _ _ HT). apply elem_of_dom. eauto.
  - intros a Ha. destruct (Hrs _ Ha) as (x & e & He & Hw & E).
    destruct (tk_live _ _ _ HT x e He) as [Er | (b & tp & Hb & _ & ->)]; [rewrite Er in E; discriminate |].
    cbn in E, Hw. injection E as ->. eauto.
Qed.

Lemma rung_by_then A rs now a ph : (forall b, rung rs b -> exists tp, A !! b = Some (set_for tp) /\ (tp <= now)%Z) ->
  A !! a = Some ph -> (forall tp, ph = set_for tp -> (tp <= now)%Z -> rung rs a) ->
  by_then now ph = if decide (rung rs a) then gone_off else ph.
Proof.
  intros Hr Ha Hdue. destruct (decide (rung rs a)) as [Hx | Hx].
  - destruct (Hr a Hx) as (tp & Ha' & Hle). assert (ph = set_for tp) as -> by congruence. cbn. rewrite (proj2 (Z.leb_le tp now)) by exact Hle. reflexivity.
  - destruct ph as [| tp |]; [reflexivity | cbn | reflexivity]. destruct (Z.leb_spec tp now) as [Hle | Hgt]; [| reflexivity].
    destruct (Hx (Hdue tp eq_refl Hle)).
Qed.

Lemma dom_rung rs W W' : (forall a, W' !! a = if decide (rung rs a) then (fun _ => ([], [])) <$> W !! a else W !! a) -> dom W' = dom W.
Proof.
  intros HW. apply set_eq. intros a. rewrite !elem_of_dom, HW. destruct (decide _); [rewrite fmap_is_Some |]; reflexivity.
Qed.

Lemma rung_waiters rs A W W' now a : dom A = dom W ->
  (forall b, rung rs b -> exists tp, A !! b = Some (set_for tp) /\ (tp <= now)%Z) ->
  (forall b tp, A !! b = Some (set_for tp) -> (tp <= now)%Z -> rung rs b) ->
  (forall b, W' !! b = if decide (rung rs b) then (fun _ => ([], [])) <$> W !! b else W !! b) ->
  W' !! a = if decide (by_then now <$> A !! a = A !! a) then W !! a else Some ([], []).
Proof.
  intros HD Hrung Hring HW. rewrite HW. destruct (A !! a) as [ph |] eqn:Ha.
  - cbn [fmap option_fmap option_map]. rewrite (rung_by_then A rs now a ph Hrung Ha) by (intros tp -> Hle; exact (Hring a tp Ha Hle)).
    destruct (decide (rung rs a)) as [Hr | Hr].
    + destruct (Hrung a Hr) as (tp & Ha2 & _). rewrite decide_False by congruence.
      destruct (W !! a) eqn:Hw; [reflexivity |]. apply not_elem_of_dom in Hw. rewrite <- HD in Hw. apply not_elem_of_dom in Hw. congruence.
    + rewrite decide_True by reflexivity. reflexivity.
  - rewrite (decide_True (P := _ <$> None = None)) by reflexivity. rewrite decide_False; [reflexivity |].
    intros Hr. destruct (Hrung a Hr) as (tp & Ha2 & _). congruence.
Qed.

(** Whom an alarm that goes off wakes. *)
Definition woken (k : kernel_state) A W (now : Z) (k' : kernel_state) : Prop :=
  forall a tp l ts t v, A !! a = Some (set_for tp) -> (tp <= now)%Z -> W !! a = Some (l, ts) -> t ∈ ts ->
    tcbs k !! t = Some v -> is_finished v = false -> delivered t k'.

(** Whom it does not: a thread none of whose alarms is due is as it was. *)
Definition undisturbed (k : kernel_state) A W (now : Z) (k' : kernel_state) : Prop :=
  forall t, (forall a tp l ts, A !! a = Some (set_for tp) -> (tp <= now)%Z -> W !! a = Some (l, ts) -> t ∉ ts) ->
    unlinked <$> tcbs k' !! t = unlinked <$> tcbs k !! t.

Lemma timer_interrupt_ok (other : nat -> nat -> C X R D unit) ch A W now : tracks ch A W -> timely (time ch) core now ->
  wp (Chrono.timer_interrupt cx other now)
    (fun _ ch' => (exists W', tracks ch' (by_then now <$> A) W' /\
         forall a, W' !! a = if decide (by_then now <$> A !! a = A !! a) then W !! a else Some ([], [])) /\
       woken (kern ch) A W now (kern ch') /\ undisturbed (kern ch) A W now (kern ch')) ch.
Proof.
  intros HT Htime. pose proof HT as [T1 T2 T3 T4 T5]. unfold Chrono.timer_interrupt. apply wp_bind, wp_on_time.
  eapply wp_mono; [apply (isr_law (time ch) core now T2 Htime) |]. intros rs d (Hd & Hmono & Hdue & Hfrom & Hrs).
  destruct (interrupt_runs ch A W rs now HT Hrs) as [Hlib Hrung].
  assert (Hring : forall a tp, A !! a = Some (set_for tp) -> (tp <= now)%Z -> rung rs a).
  { intros a tp Ha Hle. destruct (T4 a _ Ha) as (h & _ & _ & _ & _ & Hh). specialize (Hdue _ _ Hh). cbn in Hdue.
    rewrite (proj2 (Z.leb_le tp now)) in Hdue by exact Hle. apply Hdue. }
  eapply wp_mono; [apply (run_callbacks_ok cx other rs (set_time d ch) W T1 Hlib) |].
  intros u ch' (Ech & W' & HG). destruct ch as [wd d0 tms]. cbn in *. assert (Et : time ch' = d) by (rewrite Ech; reflexivity).
  assert (Em : timers ch' = tms) by (rewrite Ech; reflexivity). set (k := kern (Clocked wd d0 tms)) in *. change (kern _) with k in HG at 1.
  destruct HG as [G1 G2 G3 G4 G5 G6]. split_and!.
  - exists W'. split.
    + split; [exact G1 | rewrite Et; exact Hd | | |].
      * rewrite dom_fmap_L, T3. symmetry. apply dom_rung with rs; assumption.
      * intros a ph' Ha'. rewrite lookup_fmap in Ha'. destruct (A !! a) as [ph |] eqn:Ha; [| discriminate]. injection Ha' as <-.
        destruct (T4 a ph Ha) as (h & sg & H1 & H2 & H3 & H4).
        rewrite (rung_by_then A rs now a ph Hrung Ha) by (intros tp -> Hle; exact (Hring a tp Ha Hle)).
        specialize (G3 a). rewrite Em, Et. destruct (decide (rung rs a)) as [Hr | Hr].
        -- exists h. eexists. split_and!; [exact H1 | exact G3 | reflexivity |]. destruct (Hrung a Hr) as (tp & Ha2 & Hle).
           assert (ph = set_for tp) as -> by congruence. cbn in H4. destruct (live_issued _ _ _ _ T2 H4) as [Hi Hne].
           specialize (Hdue _ _ H4). cbn in Hdue. rewrite (proj2 (Z.leb_le tp now)) in Hdue by exact Hle.
           cbn. split_and!; [exact Hne | apply Hmono, Hi | apply Hdue; reflexivity].
        -- exists h, sg. split_and!; [exact H1 | congruence | exact H3 |]. destruct ph as [| tp |]; cbn in H4 |- *; [exact H4 | |].
           ++ specialize (Hdue _ _ H4). cbn in Hdue. destruct (Z.leb_spec tp now) as [Hle | _]; [| exact Hdue]. destruct (Hr (Hring a tp Ha Hle)).
           ++ destruct H4 as (Q1 & Q2 & Q3). split_and!; auto. intros e He. destruct (Hfrom _ _ He) as (e0 & He0 & _). exact (Q3 _ He0).
      * intros x e' He'. rewrite Et in He'. destruct (Hfrom x e' He') as (e & He & C1 & C2 & C3).
        destruct (T5 x e He) as [E | (a & tp & Ha & Htm & ->)]; [left; congruence | right]. specialize (Hdue _ _ He). cbn in Hdue.
        destruct (Z.leb_spec tp now) as [Hle | Hgt]; [destruct (proj2 Hdue eq_refl e' He') |]. exists a, tp. rewrite lookup_fmap, Ha, Em. cbn.
        rewrite (proj2 (Z.leb_gt tp now)) by exact Hgt. split_and!; [reflexivity | exact Htm | exact (live_once _ _ _ _ _ Hd He' Hdue)].
    + intros a. exact (rung_waiters rs A W W' now a T3 Hrung Hring G2).
  - intros a tp l ts t v Ha Hle Hw Ht Hv Hf. exact (G5 a l ts t v (Hring a tp Ha Hle) Hw Ht Hv Hf).
  - intros t Ht. apply G6. intros a l ts Hr Hw. destruct (Hrung a Hr) as (tp & Ha & Hle). exact (Ht a tp l ts Ha Hle Hw).
Qed.
End tracking.
