(* ===== verification/Diagnostics.v ===== *)
(** * The blocking-chain query: diagnostics.cpp

    The walk takes no lock, so the system moves under it.  [h] is the history
    of the kernel's states, and the state of the monad is the time: each atomic
    load reads the state of its instant and takes one.  A history that stands
    still is a query of one state. *)

From S2P Require Import Prelude State.

Module Diagnostics.
Definition max_links : nat := 8.

(** [blocking_chain], its array cut to [length]. *)
Record blocking_chain := BlockingChain {
  holders : list Z;
  deadlocked : bool
}.

Section history.
Context (h : nat -> kernel_state).
Local Abbreviation T := (M nat).

(** One atomic load, through a pointer. *)
Definition load {A} (f : kernel_state -> option A) : T A :=
  fun now => match f (h now) with Some a => Ok (a, S now) | None => Panic bad_pointer end.

Definition next_holder (t : nat) : T (option nat) :=
  let* on := load (fun s => blocked_on <$> tcbs s !! t) in
  match on with
  | None => kret None
  | Some m =>
      let* holder := load (fun s => owner <$> mutexes s !! m) in
      kret (if bool_decide (holder = Some t) then None else holder)
  end.

(** [confirm_cycle] over the nodes from [first] on, [nodes]. *)
Fixpoint confirm_from (first : nat) (nodes : list nat) : T bool :=
  match nodes with
  | [] => kret true
  | node :: rest =>
      let* st := load (fun s => state <$> tcbs s !! node) in
      if negb (bool_decide (st = ThreadState.blocked)) then kret false
      else
        let expected := default first (head rest) in
        let* holder := next_holder node in
        if negb (bool_decide (holder = Some expected)) then kret false else confirm_from first rest
  end.

Definition confirm_cycle (visited : list nat) (first : nat) : T bool :=
  let* start := klift (nonnull (visited !! first)) in
  confirm_from start (drop first visited).

(** The loop, with [links] to go. *)
Fixpoint walk (links : nat) (visited : list nat) (current : nat) (out : blocking_chain) : T blocking_chain :=
  match links with
  | O => kret out
  | S links =>
      let* holder := next_holder current in
      match holder with
      | None => kret out
      | Some holder =>
          match list_find (fun x => x = holder) visited with
          | Some (i, _) => let* d := confirm_cycle visited i in kret (BlockingChain (holders out) d)
          | None =>
              let* id := load (fun s => thread_id <$> tcbs s !! holder) in
              walk links (visited ++ [holder]) holder (BlockingChain (holders out ++ [id]) (deadlocked out))
          end
      end
  end.

(** From the thread's handle, which may be empty. *)
Definition blocking_chain_of (t : option nat) : T blocking_chain :=
  match t with
  | None => kret (BlockingChain [] false)
  | Some start => walk max_links [start] start (BlockingChain [] false)
  end.
End history.
End Diagnostics.
