(* ===== verification/Scenario.v ===== *)
(** * A kernel state to run

    One core's worth of threads in every situation the scheduler tells apart:
    running, ready behind each other at one level, ready and holding a mutex
    another waits for, blocked, and woken from another core.  The witnesses of
    the properties evaluate on it. *)

From S2P Require Import Prelude Chain State ReadyQueue WaitQueue Urgency Scheduler SchedulerSpec Checks Switch Cores ExitProofs Kernel.

Module Scenario.
(** Threads by address: 1 runs at priority 5; 2 and 3 are ready at 5; 4 is
    ready at 7 and holds mutex 50, for which 6 waits at 5; 8 is blocked at
    2; 7, blocked at 5, was woken from another core and is on the intake.
    100 is the idle thread. *)
Definition block (t priority : nat) (id : Z) (st : thread_state) : thread_control_block :=
  set_thread_id id (set_state st (Kernel.new_tcb t priority 1)).

Definition idle_block := block 100 30 0 ThreadState.ready.
Definition holder_block :=
  set_holder_next None (set_held_mask 1 (set_held_slots [Some 50; None; None; None]
    (block 4 7 4 ThreadState.ready))).

Definition blocks_with (request : Z) : heap :=
  list_to_map [
    (1, block 1 5 1 ThreadState.running);
    (2, set_next (Some 3) (block 2 5 2 ThreadState.ready));
    (3, set_next None (block 3 5 3 ThreadState.ready));
    (4, holder_block);
    (6, set_blocked_on (Some 50) (block 6 5 6 ThreadState.blocked));
    (7, set_pending_requests request (block 7 5 7 ThreadState.blocked));
    (8, block 8 2 8 ThreadState.blocked);
    (100, idle_block)].

Definition blocks : heap := blocks_with 1.

Definition wait_nodes : node_heap := {[ 60 := WaitNode 6 None ]}.

Definition held_mutex : base_mutex :=
  BaseMutex (WaitQueue (Some 60)) (InheritanceCache 5 false) (Some 4) 255 0.

Definition levels : Levels.levels := <[5 := [2; 3]]> (replicate 31 []).

Definition ready : thread_ready_matrix :=
  ThreadReadyMatrix (<[5 := ThreadReadyQueue (Some 2) (Some 3)]> (replicate 31 (ThreadReadyQueue None None))) 32.

(** [intake] is what core 0's intake starts at: nothing, or thread 7. *)
Definition core0 (intake : option nat) : scheduler :=
  Scheduler 0 8 (Some 1) (Some 100) ready intake (Some 4) (Some 4) 0.

Definition state_with (intake : option nat) (h : heap) : kernel_state :=
  KernelState h wait_nodes {[ 50 := held_mutex ]} ∅ ∅
    (core0 intake :: replicate 3 Kernel.new_scheduler) true true 7 9 [].

Definition start : kernel_state := state_with (Some 7) blocks.

(** The same with nothing on the intake. *)
Definition settled : kernel_state := state_with None (blocks_with 0).

(** A thread calling from baseline on core 0. *)
Definition at_baseline : cpu := Cpu 0 true false.

Lemma start_inv : core_inv 0 start (core0 (Some 7)) levels [4] (Some 1) [7].
Proof.
  split; [reflexivity | apply core_b_spec; vm_compute; reflexivity | | apply intake_b_spec; vm_compute; reflexivity | discriminate].
  apply (wf_b_spec _ _ _ (fun _ => [60])). vm_compute. reflexivity.
Qed.

Lemma settled_inv : core_inv 0 settled (core0 None) levels [4] (Some 1) [].
Proof.
  split; [reflexivity | apply core_b_spec; vm_compute; reflexivity | | apply intake_b_spec; vm_compute; reflexivity | reflexivity].
  apply (wf_b_spec _ _ _ (fun _ => [60])). vm_compute. reflexivity.
Qed.

(** ** All four cores

    Core 0 as in [settled], except that its running thread is at the end of
    its life, with 9 on this core and 10 on core 1 waiting to join it; the
    other cores run their idle threads. *)
Definition leaver : thread_control_block :=
  set_termination (CancelSignal (WaitQueue (Some 61)) false)
    (set_disposition ThreadDisposition.terminating (block 1 5 1 ThreadState.running)).

Definition idle_on (d : nat) : thread_control_block :=
  set_pinned_core d (block (100 + d) 30 0 ThreadState.running).

Definition all_blocks : heap :=
  <[1 := leaver]> (<[9 := block 9 6 9 ThreadState.blocked]>
    (<[10 := set_pinned_core 1 (block 10 6 10 ThreadState.blocked)]>
      (<[101 := idle_on 1]> (<[102 := idle_on 2]> (<[103 := idle_on 3]> (blocks_with 0)))))).

Definition idling (d : nat) : scheduler :=
  set_core_id d (set_current_thread (Some (100 + d)) (set_idle_thread (Some (100 + d)) Kernel.new_scheduler)).

Definition leaving : kernel_state :=
  set_schedulers [core0 None; idling 1; idling 2; idling 3]
    (set_nodes (<[61 := WaitNode 9 (Some 62)]> (<[62 := WaitNode 10 None]> wait_nodes)) (set_tcbs all_blocks settled)).

Lemma leaving_wf : Urgency.wf (tcbs leaving) (nodes leaving) (mutexes leaving).
Proof. apply (wf_b_spec _ _ _ (fun _ => [60])). vm_compute. reflexivity. Qed.

Lemma leaving_core0 : core_inv 0 leaving (core0 None) levels [4] (Some 1) [].
Proof.
  split; [reflexivity | apply core_b_spec; vm_compute; reflexivity | apply leaving_wf | apply intake_b_spec; vm_compute; reflexivity | reflexivity].
Qed.

Lemma leaving_idling d : 1 <= d < 4 ->
  core_inv d leaving (idling d) (replicate 31 []) [] (Some (100 + d)) [].
Proof.
  intros Hd. assert (Hcases : d = 1 \/ d = 2 \/ d = 3) by lia. destruct Hcases as [-> | [-> | ->]];
    (split; [reflexivity | apply core_b_spec; vm_compute; reflexivity | apply leaving_wf
      | apply intake_b_spec; vm_compute; reflexivity | reflexivity]).
Qed.

Lemma leaving_kernel : kernel_inv leaving.
Proof.
  split; [reflexivity |]. intros d Hd. change cores with 4 in Hd. destruct d as [| d]; [do 5 eexists; exact leaving_core0 |].
  do 5 eexists. apply leaving_idling. lia.
Qed.

Lemma leaving_system : system_inv leaving.
Proof.
  split; [exact leaving_kernel |].
  intros t v Hv. apply Nat.ltb_lt. apply (map_all_spec (fun _ v => pinned_core v <? 4) (tcbs leaving)) with t; [vm_compute; reflexivity | exact Hv].
Qed.

Lemma leaving_exiting : exiting leaving (core0 None) 1 leaver [61; 62] [9; 10].
Proof.
  split; [reflexivity | reflexivity | discriminate | reflexivity | discriminate | | set_solver].
  split.
  - apply chain_b_spec. vm_compute. reflexivity.
  - constructor; [eexists; split; reflexivity |]. constructor; [eexists; split; reflexivity | constructor].
  - intros t Ht. assert (Hcases : t = 9 \/ t = 10) by set_solver. destruct Hcases as [-> | ->]; eexists; reflexivity.
  - repeat constructor; set_solver.
  - intros n Hn m mx l Hmx Hl. assert (E : m = 50 /\ mx = held_mutex).
    { cbn in Hmx. apply lookup_singleton_Some in Hmx as [<- <-]. auto. }
    destruct E as [-> ->]. assert (Hl' : chain node_next (nodes leaving) (Some 60) [60]) by (apply chain_b_spec; vm_compute; reflexivity).
    rewrite (chain_det _ _ _ _ _ Hl Hl'). set_solver.
Qed.
End Scenario.
