(* ===== verification/MutexScenario.v ===== *)
(** * The mutex's accounts, decided, and a kernel to lock in

    A boolean checker for [accounts], and four cores on the first of which
    the thread running holds a mutex another waits for. *)

From S2P Require Import Prelude Chain State ReadyQueue ReadyQueueProofs WaitQueue WaitQueueProofs Urgency UrgencyProofs Scheduler SchedulerSpec Switch Cores ExitProofs Waking Mutex MutexProofs MutexOps Checks Kernel Scenario.

(** Every waiter: the mutex, the node, and whose it is. *)
Definition waiters (ns : node_heap) (ms : gmap nat base_mutex) (waiting : nat -> list nat) : list (nat * nat * nat) :=
  concat ((fun km => omap (fun n => nd ← ns !! n; Some (km.1, n, node_owner nd)) (waiting km.1)) <$> map_to_list ms).

Definition accounts_b (h : heap) (ns : node_heap) (ms : gmap nat base_mutex) (waiting : nat -> list nat) : bool :=
  map_all (fun t v => (length (held_slots v) =? max_held_per_thread) && (0 <=? held_mask v)%Z && (held_mask v <? 16)%Z &&
    (base_priority v <=? 255) &&
    forallb (fun i => match held_slots v !! i with
      | Some (Some m) => Z.testbit (held_mask v) (Z.of_nat i) &&
          match ms !! m with Some mx => bool_decide (owner mx = Some t) && (held_slot mx =? i) | None => false end
      | _ => negb (Z.testbit (held_mask v) (Z.of_nat i))
      end) (seq 0 4)) h &&
  map_all (fun m mx => waiters_b h ns (mutex_queue mx) (waiting m) && cache_b h ns None (waiting m) (mutex_pi mx) &&
    match owner mx with
    | None => held_slot mx =? Mutex.not_held
    | Some t => match h !! t with Some v => bool_decide (held_slots v !! held_slot mx = Some (Some m)) | None => false end
    end) ms &&
  forallb (fun a => forallb (fun b => bool_decide (a.2 <> b.2) || bool_decide (a.1 = b.1)) (waiters ns ms waiting)) (waiters ns ms waiting) &&
  forallb (fun a => match ms !! a.1.1 with Some mx => bool_decide (owner mx <> Some a.2) | None => true end) (waiters ns ms waiting).

Section checked.
Context (h : heap) (ns : node_heap) (ms : gmap nat base_mutex) (waiting : nat -> list nat).

Lemma waiters_elem m n t : (forall mx, ms !! m = Some mx -> chain node_next ns (wq_head (mutex_queue mx)) (waiting m)) ->
  on_queue ns ms m n t -> (m, n, t) ∈ waiters ns ms waiting.
Proof.
  intros Hw (mx & l & nd & Hmx & Hl & Hn & Hnd & Ht). rewrite (chain_det _ _ _ _ _ Hl (Hw mx Hmx)) in Hn.
  unfold waiters. apply list_elem_of_In, in_concat. exists (omap (fun n => nd ← ns !! n; Some (m, n, node_owner nd)) (waiting m)).
  split; apply list_elem_of_In.
  - apply list_elem_of_fmap. exists (m, mx). split; [reflexivity | apply elem_of_map_to_list, Hmx].
  - apply list_elem_of_omap. exists n. split; [exact Hn |]. rewrite Hnd. cbn. congruence.
Qed.

Lemma accounts_b_spec : accounts_b h ns ms waiting = true -> accounts None h ns ms.
Proof.
  unfold accounts_b. rewrite !andb_true_iff. intros [[[H1 H2] H3] H4].
  pose proof (map_all_spec _ _ H1) as Ht. pose proof (map_all_spec _ _ H2) as Hm. clear H1 H2.
  assert (Hrep : forall m mx, ms !! m = Some mx -> WaitQueue.repr h ns (mutex_queue mx) (waiting m) /\
    WaitQueue.cache_ok h ns None (waiting m) (mutex_pi mx)).
  { intros m mx Hmx. specialize (Hm m mx Hmx). cbn beta in Hm. rewrite !andb_true_iff in Hm. destruct Hm as [[E1 E2] _].
    split; [apply waiters_b_spec, E1 | apply cache_b_spec, E2]. }
  assert (Hel : forall m n t, on_queue ns ms m n t -> (m, n, t) ∈ waiters ns ms waiting)
    by (intros m n t; apply waiters_elem; intros mx Hmx; apply (Hrep m mx Hmx)).
  assert (Hblock : forall t v, h !! t = Some v -> length (held_slots v) = max_held_per_thread /\ (0 <= held_mask v < 16)%Z /\ base_priority v <= 255).
  { intros t v Hv. specialize (Ht t v Hv). cbn beta in Ht. rewrite !andb_true_iff, Nat.eqb_eq, Nat.leb_le, Z.leb_le, Z.ltb_lt in Ht. tauto. }
  assert (Hslots : forall t v i, h !! t = Some v -> i < 4 -> _) by (intros t v i Hv Hi; specialize (Ht t v Hv); cbn beta in Ht;
    rewrite !andb_true_iff in Ht; exact (forallb_elem _ _ i (proj2 Ht) (proj2 (elem_of_seq 0 4 i) ltac:(lia)))).
  cbn beta in Hslots. split.
  - exact Hblock.
  - intros t v i m Hv Hi. split; [discriminate |]. assert (Hlt : i < max_held_per_thread) by (rewrite <- (proj1 (Hblock t v Hv)); eapply lookup_lt_Some, Hi).
    specialize (Hslots t v i Hv Hlt). rewrite Hi, andb_true_iff in Hslots. destruct Hslots as [Hb Hs]. split; [exact Hb |].
    destruct (ms !! m) as [mx |]; [| discriminate]. rewrite andb_true_iff, bool_decide_eq_true, Nat.eqb_eq in Hs. destruct Hs. eauto.
  - intros t v i Hv Hb. assert (Hlt : i < 4).
    { destruct (decide (i < 4)); [assumption |]. rewrite (testbit_high _ 4) in Hb by (pose proof (Hblock t v Hv); lia). discriminate. }
    specialize (Hslots t v i Hv Hlt). destruct (held_slots v !! i) as [[m |] |]; [eauto | rewrite Hb in Hslots; discriminate ..].
  - intros m mx t Hmx _ Ho. specialize (Hm m mx Hmx). cbn beta in Hm. rewrite andb_true_iff, Ho in Hm. destruct Hm as [_ Hm].
    destruct (h !! t) as [v |] eqn:Hv; [| discriminate]. apply bool_decide_eq_true in Hm. eauto.
  - intros m mx Hmx _ Ho. specialize (Hm m mx Hmx). cbn beta in Hm. rewrite andb_true_iff, Ho in Hm. apply Nat.eqb_eq, Hm.
  - intros m mx Hmx. exists (waiting m). apply Hrep, Hmx.
  - intros m m' n n' t Hn Hn'. apply Hel in Hn, Hn'. pose proof (forallb_elem _ _ _ H3 Hn) as Hx. cbn beta in Hx.
    pose proof (forallb_elem _ _ _ Hx Hn') as Hy. cbn in Hy. rewrite orb_true_iff, !bool_decide_eq_true in Hy.
    destruct Hy as [Hy | Hy]; [contradiction | injection Hy; auto].
  - intros m mx n t Hmx _ Hn. apply Hel in Hn. pose proof (forallb_elem _ _ _ H4 Hn) as Hx. cbn in Hx. rewrite Hmx in Hx.
    apply bool_decide_eq_true in Hx. exact Hx.
Qed.

Lemma away_spec t : accounts_b h ns ms waiting = true -> forallb (fun a => negb (a.2 =? t)) (waiters ns ms waiting) = true ->
  forall m n, ~ on_queue ns ms m n t.
Proof.
  intros Hb Ha m n Hn. apply (waiters_elem m n t) in Hn.
  - pose proof (forallb_elem _ _ _ Ha Hn) as Hx. cbn in Hx. rewrite Nat.eqb_refl in Hx. discriminate.
  - intros mx Hmx. destruct (ac_queue _ _ _ _ (accounts_b_spec Hb) m mx Hmx) as (l & _).
    unfold accounts_b in Hb. rewrite !andb_true_iff in Hb. destruct Hb as [[[_ H2] _] _].
    pose proof (map_all_spec _ _ H2 m mx Hmx) as Hx. cbn beta in Hx. rewrite !andb_true_iff in Hx. apply (waiters_b_spec h ns), Hx.
Qed.
End checked.

(** ** A kernel to lock in

    On core 0 thread 4 runs, with mutex 50, for which 6 waits; mutex 51 is
    free.  The other cores run their idle threads. *)
Module MutexScenario.
Import Scenario.

Definition owning : thread_control_block :=
  set_state ThreadState.running (set_holder_next (Some 4) holder_block).

Definition blocks : heap :=
  <[1 := block 1 5 1 ThreadState.blocked]> (<[4 := owning]>
    (<[101 := idle_on 1]> (<[102 := idle_on 2]> (<[103 := idle_on 3]> (blocks_with 0))))).

Definition free_mutex : base_mutex := Mutex.new_mutex 255.

Definition core0 : scheduler :=
  set_current_thread (Some 4) (set_holders_head None (set_holders_tail None (Scenario.core0 None))).

Definition holding : kernel_state :=
  set_mutexes {[ 50 := held_mutex; 51 := free_mutex ]}
    (set_schedulers [core0; idling 1; idling 2; idling 3] (set_tcbs blocks settled)).

Definition waiting (m : nat) : list nat := if m =? 50 then [60] else [].

Lemma holding_accounts : accounts None (tcbs holding) (nodes holding) (mutexes holding).
Proof. apply (accounts_b_spec _ _ _ waiting). vm_compute. reflexivity. Qed.

Lemma holding_core0 : core_inv 0 holding core0 levels [] (Some 4) [].
Proof.
  split; [reflexivity | apply core_b_spec; vm_compute; reflexivity | eapply accounts_wf, holding_accounts
    | apply intake_b_spec; vm_compute; reflexivity | reflexivity].
Qed.

Lemma holding_running : all_running holding.
Proof.
  split; [reflexivity |]. intros d Hd. change cores with 4 in Hd. destruct d as [| d]; [do 5 eexists; exact holding_core0 |].
  assert (Hcases : d = 0 \/ d = 1 \/ d = 2) by lia. exists (idling (S d)), (replicate 31 []), [], (100 + S d), [].
  destruct Hcases as [-> | [-> | ->]]; (split; [reflexivity | apply core_b_spec; vm_compute; reflexivity
    | eapply accounts_wf, holding_accounts | apply intake_b_spec; vm_compute; reflexivity | reflexivity]).
Qed.

Lemma holding_no_idle t : t < 100 -> no_idle holding t.
Proof.
  intros Ht d sc Hd. cbn in Hd. destruct d as [| [| [| [| d]]]]; cbn in Hd; [injection Hd as <- .. | discriminate];
    cbn; intros [= <-]; lia.
Qed.

Lemma holding_away : no_queue holding 4.
Proof. intros x n. apply (away_spec (tcbs holding) (nodes holding) (mutexes holding) waiting 4); vm_compute; reflexivity. Qed.
End MutexScenario.
