(* ===== verification/SemaphoreScenario.v ===== *)
(** * A semaphore to run, and waiters to wake

    The steps of [SemaphoreSystem] as an interpreter, and a run of it: a
    thread that goes to sleep in [acquire] and is woken by a handler of
    another core. *)

From S2P Require Import Prelude Chain State ReadyQueue ReadyQueueProofs WaitQueue Urgency Scheduler SchedulerSpec Switch Cores ExitProofs Waking Waits Mutex Sync MutexProofs MutexOps Modes WaitingProofs SweepProofs SyncProofs Checks Kernel Scenario MutexScenario SemaphoreSystem SemaphoreProofs.
Import SemaphoreSystem SemaphoreProofs.

(** A move somebody could make. *)
Inductive move :=
  | call (a : agent) (p : point)
  | go_on (cx : cpu) (t : nat)
  | handle (cx : cpu)
  | switch (cx : cpu) (c : nat).

Section moves.
Context `{Config} `{SizeT} (w : nat) (node_of : nat -> nat) (who : list agent).

Definition runs_b (s : kernel_state) (c t : nat) : bool :=
  match schedulers s !! c, tcbs s !! t with
  | Some sc, Some v => bool_decide (current_thread sc = Some t) && bool_decide (state v = ThreadState.running)
  | _, _ => false
  end.

Lemma runs_b_spec s c t : runs_b s c t = true -> runs s c t.
Proof.
  unfold runs_b. destruct (schedulers s !! c) as [sc |] eqn:Hsc; [| discriminate]. destruct (tcbs s !! t) as [v |] eqn:Hv; [| discriminate].
  rewrite andb_true_iff, !bool_decide_eq_true. intros [H1 H2]. exists sc, v. auto.
Qed.

Definition begins_b (s : kernel_state) (a : agent) (p : point) : bool :=
  match a, p with
  | thread t, acquiring | thread t, releasing _ => existsb (fun c => runs_b s c t) (seq 0 cores)
  | handler _, releasing _ => true
  | _, _ => false
  end.

Lemma begins_b_spec s a p : begins_b s a p = true -> begins s a p.
Proof.
  assert (Hr : forall t, existsb (fun c => runs_b s c t) (seq 0 cores) = true -> exists c, c < cores /\ runs s c t).
  { intros t Hb. apply existsb_exists in Hb as (c & Hc & Hb). apply in_seq in Hc. exists c. split; [lia | apply runs_b_spec, Hb]. }
  destruct a, p; cbn; auto; discriminate.
Qed.

(** A move that cannot be made changes nothing. *)
Definition make (x : move) (sys : system) : system :=
  let '(System wd f) := sys in
  match x with
  | call a p =>
      if bool_decide (a ∈ who) && bool_decide (f a = outside) && begins_b (kernel wd) a p
      then System wd (at_point a p f) else sys
  | go_on cx t =>
      if bool_decide (thread t ∈ who) && (this_core cx <? cores) && runs_b (kernel wd) (this_core cx) t &&
        masked_from_baseline cx && bool_decide (f (thread t) <> outside)
      then match advance w node_of cx t (f (thread t)) wd with
           | Ok (p, wd') => System wd' (at_point (thread t) p f)
           | _ => sys
           end
      else sys
  | handle cx =>
      if bool_decide (handler (this_core cx) ∈ who) && bool_decide (f (handler (this_core cx)) <> outside)
      then match advance_release w cx (f (handler (this_core cx))) wd with
           | Ok (p, wd') => System wd' (at_point (handler (this_core cx)) p f)
           | _ => sys
           end
      else sys
  | switch cx c =>
      if c <? cores
      then match Switch.reschedule cx c (kernel wd) with
           | Ok (_, s') => System (set_kernel s' wd) f
           | _ => sys
           end
      else sys
  end.

Definition make_all (xs : list move) (sys : system) : system := fold_left (fun sys x => make x sys) xs sys.

Lemma make_run x sys : rtc (step w node_of who) sys (make x sys).
Proof.
  destruct sys as [wd f]. destruct x as [a p | cx t | cx | cx c]; cbn [make]; (destruct (_ : bool) eqn:Hb; [| apply rtc_refl]);
    rewrite ?andb_true_iff, ?bool_decide_eq_true, ?Nat.ltb_lt in Hb.
  - destruct Hb as [[H1 H2] H3]. apply rtc_once. constructor; [exact H1 | exact H2 | apply begins_b_spec, H3].
  - destruct Hb as [[[[H1 H2] H3] H4] H5]. destruct (advance _ _ _ _ _ _) as [[p wd'] |] eqn:E; try apply rtc_refl.
    apply rtc_once. econstructor; eauto. apply runs_b_spec, H3.
  - destruct Hb as [H1 H2]. destruct (advance_release _ _ _ _) as [[p wd'] |] eqn:E; try apply rtc_refl.
    apply rtc_once. econstructor; eauto.
  - destruct (Switch.reschedule _ _ _) as [[[] s'] |] eqn:E; try apply rtc_refl. apply rtc_once. econstructor; eauto.
Qed.

Lemma make_all_run xs : forall sys, rtc (step w node_of who) sys (make_all xs sys).
Proof. induction xs as [| x xs IH]; intros sys; [apply rtc_refl |]. etransitivity; [apply make_run | apply IH]. Qed.
End moves.

Module SemaphoreScenario.
#[export] Instance wide : SizeT := {| size_width := 32; size_width_pos := eq_refl |}.

(** Semaphore 70 with no tokens; thread 4, which runs on core 0, and core 1's
    handler use it. *)
Definition who : list agent := [thread 4; handler 1].
Definition node_of (t : nat) : nat := 200 + t.
Definition idle_semaphore : kernel_state := set_waitables {[ 70 := WaitQueue None ]} MutexScenario.holding.
Definition start : system := System (World idle_semaphore 0%Z ∅) (fun _ => outside).

Definition this_side := Cpu 0 true false.
Definition other_side := Cpu 1 false true.

(** Thread 4 finds no token and goes to sleep; core 1's handler releases two;
    core 0 takes the wake in and runs the thread, which takes one. *)
Definition moves : list move :=
  call (thread 4) acquiring :: repeat (go_on this_side 4) 6 ++
  call (handler 1) (releasing 2) :: repeat (handle other_side) 5 ++
  switch this_side 0 :: repeat (go_on this_side 4) 2.

(** The same, up to the wake. *)
Definition asleep_at : system := make_all 70 node_of who (take 7 moves) start.
Definition over : system := make_all 70 node_of who moves start.

Lemma who_nodup : NoDup who.
Proof. repeat constructor; set_solver. Qed.

Lemma nodes_apart t u : thread t ∈ who -> thread u ∈ who -> node_of t = node_of u -> t = u.
Proof. unfold node_of. lia. Qed.

Lemma no_mutex_queue n : n <> 60 -> unqueued idle_semaphore n.
Proof.
  intros Hne m mx l Hmx Hl. assert (Hone : forall hd l', hd = wq_head (mutex_queue mx) -> chain node_next (nodes idle_semaphore) hd l' ->
    n ∉ l' -> n ∉ l) by (intros hd l' -> Hl'; rewrite (chain_det _ _ _ _ _ Hl Hl'); auto).
  cbn in Hmx. apply lookup_insert_Some in Hmx as [[_ <-] | [_ Hmx]]; [| apply lookup_singleton_Some in Hmx as [_ <-]].
  - apply (Hone (Some 60) [60]); [reflexivity | apply chain_b_spec; vm_compute; reflexivity | set_solver].
  - apply (Hone None []); [reflexivity | apply chain_b_spec; vm_compute; reflexivity | set_solver].
Qed.

Lemma start_begun : begun 70 node_of who start.
Proof.
  split; cbn [sy_world start kernel object sy_at].
  - split; [reflexivity |]. intros c Hc. destruct (proj2 MutexScenario.holding_running c Hc) as (sc & L & Hs & prev & I & [J1 J2 J3 J4 J5]).
    exists sc, L, Hs, prev, I. split; assumption.
  - intros t v Hv E. assert (Hb : map_all (fun _ v => negb (bool_decide (mode_of v = gone))) (tcbs idle_semaphore) = true) by (vm_compute; reflexivity).
    pose proof (map_all_spec _ _ Hb t v Hv) as Hx. cbn beta in Hx. rewrite bool_decide_true in Hx by exact E. discriminate.
  - intros t v Hv. assert (Hb : map_all (fun _ v => pinned_core v <? 4) (tcbs idle_semaphore) = true) by (vm_compute; reflexivity).
    apply Nat.ltb_lt, (map_all_spec _ _ Hb t v Hv).
  - split; [| intros n Hn; inversion Hn]. exists (WaitQueue None). split; [reflexivity |]. split; [constructor | intros n Hn; inversion Hn | constructor].
  - split; [reflexivity | vm_compute; reflexivity].
  - reflexivity.
  - intros t Ht. assert (t = 4) as -> by set_solver. split; [eexists; split; reflexivity | apply MutexScenario.holding_no_idle; lia | | discriminate].
    apply no_mutex_queue. discriminate.
Qed.
End SemaphoreScenario.

(** ** Waiters to wake

    The kernel of [MutexScenario] with two waiters, 8 at priority 2 and 1 at
    5, asleep in their waits on waitable 70. *)

Import SemaphoreScenario.

Module SyncScenario.
(** Thread 1 has its record at 301 and 8 at 308; their nodes are at 201 and
    208. *)
Definition own (n : nat) : nat := n - 200.
Definition waiting_block (r t priority : nat) : thread_control_block :=
  set_wait_record (Some r) (Scenario.block t priority (Z.of_nat t) ThreadState.blocked).

Definition blocks : heap := <[1 := waiting_block 301 1 5]> (<[8 := waiting_block 308 8 2]> MutexScenario.blocks).
Definition wait_nodes : node_heap :=
  <[208 := WaitNode 8 (Some 201)]> (<[201 := WaitNode 1 None]> Scenario.wait_nodes).

Definition waited : kernel_state :=
  set_waitables {[ 70 := WaitQueue (Some 208) ]} (set_nodes wait_nodes (set_tcbs blocks MutexScenario.holding)).

Lemma waited_accounts : accounts None (tcbs waited) (nodes waited) (mutexes waited).
Proof. apply (accounts_b_spec _ _ _ MutexScenario.waiting). vm_compute. reflexivity. Qed.

Lemma waited_running : all_running waited.
Proof.
  split; [reflexivity |]. intros d Hd. change cores with 4 in Hd. destruct d as [| d].
  - exists MutexScenario.core0, Scenario.levels, [], 4, [].
    split; [reflexivity | apply core_b_spec; vm_compute; reflexivity | eapply accounts_wf, waited_accounts
      | apply intake_b_spec; vm_compute; reflexivity | reflexivity].
  - assert (Hcases : d = 0 \/ d = 1 \/ d = 2) by lia. exists (Scenario.idling (S d)), (replicate 31 []), [], (100 + S d), [].
    destruct Hcases as [-> | [-> | ->]]; (split; [reflexivity | apply core_b_spec; vm_compute; reflexivity
      | eapply accounts_wf, waited_accounts | apply intake_b_spec; vm_compute; reflexivity | reflexivity]).
Qed.

Lemma waited_lively : lively (tcbs waited).
Proof.
  intros t v Hv E. assert (Hb : map_all (fun _ v => negb (bool_decide (mode_of v = gone))) (tcbs waited) = true) by (vm_compute; reflexivity).
  pose proof (map_all_spec _ _ Hb t v Hv) as Hx. cbn beta in Hx. rewrite bool_decide_true in Hx by exact E. discriminate.
Qed.

Lemma waited_apart n : n <> 60 -> unqueued waited n.
Proof.
  intros Hne m mx l Hmx Hl. assert (Hone : forall hd l', hd = wq_head (mutex_queue mx) -> chain node_next (nodes waited) hd l' ->
    n ∉ l' -> n ∉ l) by (intros hd l' -> Hl'; rewrite (chain_det _ _ _ _ _ Hl Hl'); auto).
  cbn in Hmx. apply lookup_insert_Some in Hmx as [[_ <-] | [_ Hmx]]; [| apply lookup_singleton_Some in Hmx as [_ <-]].
  - apply (Hone (Some 60) [60]); [reflexivity | apply chain_b_spec; vm_compute; reflexivity | set_solver].
  - apply (Hone None []); [reflexivity | apply chain_b_spec; vm_compute; reflexivity | set_solver].
Qed.

Lemma waited_queue : queue_is 70 waited [208; 201].
Proof.
  split; [| intros n Hn; apply waited_apart; set_solver]. exists (WaitQueue (Some 208)). split; [reflexivity |].
  apply waiters_b_spec. vm_compute. reflexivity.
Qed.

(** The waiters' blocks and nodes. *)
Lemma waited_waiter n : n ∈ [208; 201] -> exists nd v, nodes waited !! n = Some nd /\ node_owner nd = own n /\
  tcbs waited !! own n = Some v /\ pinned_core v < 4 /\ thread_id v <> 0%Z.
Proof.
  intros Hn. apply elem_of_cons in Hn as [-> | Hn]; [| apply list_elem_of_singleton in Hn as ->];
    (do 2 eexists; split_and!; [reflexivity | reflexivity | reflexivity | cbn; lia | discriminate]).
Qed.

(** An [event_flags] of no flags: 1 wants flag 0, and 8 flag 1. *)
Definition flags : world Z EventFlags.request :=
  World waited 0%Z {[ 301 := WaiterRecord (Waking.of_waitable 70) 1 false (EventFlags.Request 1 EventFlags.any EventFlags.consume 0);
                      308 := WaiterRecord (Waking.of_waitable 70) 8 false (EventFlags.Request 2 EventFlags.all EventFlags.keep 0) ]}.

(** A [handoff_semaphore] with nothing counted. *)
Definition handoff : world Z bool :=
  World waited 0%Z {[ 301 := WaiterRecord (Waking.of_waitable 70) 1 false false;
                      308 := WaiterRecord (Waking.of_waitable 70) 8 false false ]}.

(** A [condition_variable]: both gave the mutex at 51 up. *)
Definition record_of (n : nat) : nat := n + 100.
Definition condition : world unit ConditionVariable.waiter_state :=
  World waited tt {[ 301 := WaiterRecord (Waking.of_waitable 70) 1 false (ConditionVariable.Waiter 51 true);
                     308 := WaiterRecord (Waking.of_waitable 70) 8 false (ConditionVariable.Waiter 51 true) ]}.

Lemma waited_handable : handable own waited [208; 201].
Proof.
  intros n Hn. destruct (waited_waiter n Hn) as (nd & v & H1 & H2 & H3 & H4 & H5).
  split; [| exists v; auto]. split; [apply waited_apart; set_solver |]. exists nd. split_and!; auto. intros Hx. contradiction.
Qed.

Lemma condition_awaited : awaited 70 own record_of [208; 201] condition.
Proof.
  split; [exact waited_running | exact waited_lively | exact waited_queue | exact waited_handable |].
  intros n Hn. exists 51. apply elem_of_cons in Hn as [-> | Hn]; [| apply list_elem_of_singleton in Hn as ->]; reflexivity.
Qed.

Lemma handoff_ready : ready_for 70 own [208; 201] handoff.
Proof.
  split; [exact waited_running | exact waited_lively | exact waited_queue | exact waited_handable | split; [reflexivity | vm_compute; reflexivity]].
Qed.
End SyncScenario.
