(* ===== verification/MutexProperties.v ===== *)
(** * The properties of the mutex *)

From S2P Require Import Prelude Chain State ReadyQueue ReadyQueueProofs WaitQueue WaitQueueProofs Urgency UrgencyProofs Scheduler SchedulerSpec Local SchedulerProofs DispatchProofs PickProofs Switch RoadProofs SwitchProofs Cores ExitProofs Waking Mutex WakeProofs MutexProofs MutexOps Checks Kernel Scenario MutexScenario.

(** The caller of a mutex's operation: the thread [t] running on [cx]'s core,
    waiting for nothing, in a kernel whose accounts are in step. *)
Record caller `{Config} (cx : cpu) (s : kernel_state) (t : nat) (v : thread_control_block) : Prop := {
  cl_accounts : accounts None (tcbs s) (nodes s) (mutexes s);
  cl_running : all_running s;
  cl_current : exists sc, schedulers s !! this_core cx = Some sc /\ current_thread sc = Some t;
  cl_block : tcbs s !! t = Some v;
  cl_away : no_queue s t;
  cl_idle : no_idle s t
}.

Section unlocking.
Context `{Config} (cx : cpu) (s : kernel_state) (t : nat) (v : thread_control_block) (m : nat) (mx : base_mutex)
  (policy : reschedule_policy).
Context (Hcl : caller cx s t v) (Hmx : mutexes s !! m = Some mx) (Hown : owner mx = Some t).

(** The state between the release of the slot and the handover. *)
Definition released : kernel_state :=
  set_calls (trace_point Trace.mutex_released t :: calls s)
    (set_mutexes (<[m := set_held_slot Mutex.not_held mx]> (mutexes s))
      (set_tcbs (<[t := retired_block v (held_slot mx)]> (tcbs s)) s)).

Lemma released_accounts : accounts (Some m) (tcbs released) (nodes released) (mutexes released) /\ all_running released.
Proof.
  destruct Hcl as [Hac Hrun _ Hv Hq Hi].
  assert (Hac' : accounts (Some m) (tcbs released) (nodes released) (mutexes released)) by (eapply accounts_retire; eassumption).
  split; [exact Hac' |]. eapply all_running_reheld; [| eapply accounts_wf, Hac' | exact Hrun].
  eapply reheld_block with (t := t); [exact Hv | | exact Hi | reflexivity | reflexivity]. reflexivity.
Qed.

Lemma unlock_ok (R : kernel_state -> Prop) :
  wp (Mutex.hand_over cx m policy) (fun _ s' => forall es, R (set_calls (es ++ calls s') s')) released ->
  wp (Mutex.unlock cx m policy) (fun _ s' => R s') s.
Proof.
  destruct Hcl as [Hac Hrun (sc & Hsc & Hcur) Hv Hq Hi]. intros Hh. unfold Mutex.unlock. wp_step.
  unfold wp at 1. rewrite (get_current_ok cx s sc t Hsc Hcur). wp_step. eapply wp_get_mutex; [exact Hmx |].
  wp_step. wp_step; [apply bool_decide_eq_true, Hown |]. wp_step.
  destruct (ac_owner _ _ _ _ Hac m mx t Hmx (no_but m) Hown) as (v' & Hv' & Hslot). assert (v' = v) as -> by congruence.
  destruct (ac_block _ _ _ _ Hac t v Hv) as (Hlen & _).
  eapply wp_mono; [apply (retire_held_ok s m t mx v Hv Hmx) |].
  { rewrite <- Hlen. eapply lookup_lt_Some, Hslot. } { exact Hslot. }
  intros ? s1 ->. wp_step. eapply wp_mono; [exact Hh |]. intros ? s2 HR.
  destruct (_ && _); [apply wp_emit, (HR [port_pend_reschedule (this_core cx)]) |]. apply wp_ret.
  replace s2 with (set_calls ([] ++ calls s2) s2) by (destruct s2; reflexivity). apply HR.
Qed.
End unlocking.

Section mutex_claims.
Context `{Config}.

Lemma kernel_inv_calls s es : kernel_inv s -> kernel_inv (set_calls es s).
Proof.
  intros [H1 H2]. split; [exact H1 |]. intros d Hd. destruct (H2 d Hd) as (sc & L & Hs & run & I & [J1 J2 J3 J4 J5]).
  exists sc, L, Hs, run, I. split; assumption.
Qed.

(** C6: an unlock hands over. With waiters queued, the mutex goes straight
    to the first of them, in a slot of that thread that was free; the waiter
    is off the queue and its wake delivered, whatever core it is on; the four
    records of every mutex's ownership stay in step and every core keeps its
    invariant. *)
Theorem unlock_hands_over cx s t v m mx policy n l nd vu i :
  caller cx s t v -> mutexes s !! m = Some mx -> owner mx = Some t ->
  WaitQueue.repr (tcbs s) (nodes s) (mutex_queue mx) (n :: l) -> nodes s !! n = Some nd ->
  heir s (node_owner nd) vu i ->
  wp (Mutex.unlock cx m policy)
    (fun _ s' => kernel_inv s' /\ accounts None (tcbs s') (nodes s') (mutexes s') /\ delivered (node_owner nd) s' /\
       exists mx', mutexes s' !! m = Some mx' /\ owner mx' = Some (node_owner nd) /\ held_slot mx' = i /\
         ceiling_priority mx' = ceiling_priority mx /\ WaitQueue.repr (tcbs s') (nodes s') (mutex_queue mx') l) s.
Proof.
  intros Hcl Hmx Hown Hq Hnd [Hu1 Hu2 Hu3 Hu4 Hu5 Hu6]. pose proof Hcl as [Hac Hrun _ Hv Haway Hi].
  apply (unlock_ok cx s t v m mx policy Hcl Hmx Hown (fun s' => _)).
  destruct (released_accounts cx s t v m mx Hcl Hmx Hown) as [Hac1 Hrun1].
  assert (Hne : t <> node_owner nd).
  { intros E. apply (Haway m n). exists mx, (n :: l), nd. split_and!; auto; [apply Hq | left]. }
  eapply wp_mono.
  - eapply (hand_over_somebody cx (released s t v m mx) m (set_held_slot Mutex.not_held mx) policy Hac1 (lookup_insert_eq _ _ _) Hrun1 n l (node_owner nd) nd vu i);
      [eapply repr_reheld; [exact Hv | reflexivity | exact Hq] | exact Hnd | reflexivity |].
    split; auto. cbn. rewrite lookup_insert_ne by exact Hne. exact Hu1.
  - intros ? s' (Hk & Ha & Hd & mx' & Hmx' & Hrest) es. split_and!; [apply kernel_inv_calls, Hk | exact Ha | exact Hd |].
    exists mx'. split; [exact Hmx' |]. exact Hrest.
Qed.

Lemma restored_mutex mx t i : owner mx = None -> held_slot mx = Mutex.not_held ->
  set_owner None (set_held_slot Mutex.not_held (set_held_slot i (set_owner (Some t) mx))) = mx.
Proof. destruct mx. cbn. intros -> ->. reflexivity. Qed.

(** C31: an uncontended lock and unlock change nothing. A thread with a slot
    to spare takes a free mutex no thread waits for; giving it up again leaves
    every thread's block and every mutex exactly as before the lock. *)
Theorem lock_unlock_round_trip cx s t v m mx i policy :
  caller cx s t v -> mutexes s !! m = Some mx -> owner mx = None -> within_ceiling mx v = true ->
  WaitQueue.repr (tcbs s) (nodes s) (mutex_queue mx) [] -> Mutex.free_slot v = Some i ->
  wp (let* taken := Mutex.try_lock cx m in Mutex.unlock cx m policy ;;* kret taken)
    (fun taken s' => taken = true /\ tcbs s' = tcbs s /\ nodes s' = nodes s /\ mutexes s' = mutexes s /\ all_running s') s.
Proof.
  intros [Hac Hrun (sc & Hsc & Hcur) Hv Haway Hi] Hmx Ho Hc Hq Hslot. apply wp_bind.
  unfold wp at 1. rewrite (try_lock_unfold cx s sc m t mx v Hsc Hcur Hv Hmx), Hc.
  eapply wp_mono; [apply (take_if_free_ok s m mx Hac Hmx t v i); assumption |].
  intros ? s1 (-> & Hrun1 & Hac1 & Et & Em & En & Es). set (mx1 := set_held_slot i (set_owner (Some t) mx)) in *.
  set (v1 := claimed m v i) in *. pose proof (free_slot_free v i Hslot) as Hfree.
  assert (Hmx1 : mutexes s1 !! m = Some mx1) by (rewrite Em; apply lookup_insert_eq).
  assert (Hv1 : tcbs s1 !! t = Some v1) by (rewrite Et; apply lookup_insert_eq).
  assert (Hcl1 : caller cx s1 t v1).
  { split; auto; [exists sc; rewrite Es; auto | | unfold no_idle; rewrite Es; exact Hi].
    intros x n. rewrite En, Em, (on_queue_mutex _ _ m mx) by auto. apply Haway. }
  apply wp_bind. set (R := fun s' => tcbs s' = tcbs s /\ nodes s' = nodes s /\ mutexes s' = mutexes s /\ all_running s').
  eapply wp_mono with (Q := fun _ s' => R s'); [| intros ? s' Hs'; apply wp_ret; split; [reflexivity | exact Hs']].
  apply (unlock_ok cx s1 t v1 m mx1 policy Hcl1 Hmx1 eq_refl R).
  destruct (released_accounts cx s1 t v1 m mx1 Hcl1 Hmx1 eq_refl) as [Hac2 Hrun2].
  assert (Hv2 : retired_block v1 (held_slot mx1) = v).
  { destruct (ac_block _ _ _ _ Hac t v Hv) as (Hlen & Hm & _). unfold v1, claimed, retired_block. cbn.
    rewrite list_insert_insert_eq, list_insert_id by exact Hfree. rewrite clear_set_bit; [destruct v; reflexivity | exact Hm | |].
    - apply lookup_lt_Some in Hfree. unfold max_held_per_thread in Hlen. lia.
    - apply not_true_iff_false. intros Hb. destruct (ac_bit _ _ _ _ Hac t v i Hv Hb) as [y Hy]. congruence. }
  assert (Etcb : tcbs (released s1 t v1 m mx1) = tcbs s).
  { unfold released. cbn [tcbs set_calls set_mutexes set_tcbs]. rewrite Hv2, Et, insert_insert_eq. apply insert_id, Hv. }
  assert (Enode : nodes (released s1 t v1 m mx1) = nodes s) by exact En.
  eapply wp_mono.
  - eapply (hand_over_nobody cx (released s1 t v1 m mx1) m (set_held_slot Mutex.not_held mx1) policy Hac2 (lookup_insert_eq _ _ _) eq_refl Hrun2).
    rewrite Etcb, Enode. exact Hq.
  - intros ? s' (Hrun' & _ & E) es. split_and!.
    + rewrite E. exact Etcb.
    + rewrite E. exact Enode.
    + rewrite E. cbn. rewrite Em, !insert_insert_eq. apply insert_id. rewrite Hmx. f_equal.
      symmetry. apply restored_mutex; [exact Ho | exact (ac_free _ _ _ _ Hac m mx Hmx (no_but m) Ho)].
    + destruct Hrun' as [H1 H2]. split; [exact H1 |]. intros d Hd. destruct (H2 d Hd) as (sd & L & Hs & prev & I & [J1 J2 J3 J4 J5]).
      exists sd, L, Hs, prev, I. split; assumption.
Qed.

(** A lock attempt takes the mutex exactly when it is free. It never
    blocks: on a free mutex the caller becomes the owner, in its first free
    slot; on an owned one, the caller's own included, the attempt answers no
    and changes nothing. *)
Theorem try_lock_exact cx s t v m mx i :
  caller cx s t v -> mutexes s !! m = Some mx -> within_ceiling mx v = true -> Mutex.free_slot v = Some i ->
  wp (Mutex.try_lock cx m)
    (fun taken s' => taken = bool_decide (owner mx = None) /\ kernel_inv s' /\
       accounts None (tcbs s') (nodes s') (mutexes s') /\
       if taken then tcbs s' = <[t := claimed m v i]> (tcbs s) /\
                     mutexes s' = <[m := set_held_slot i (set_owner (Some t) mx)]> (mutexes s)
       else s' = s) s.
Proof.
  intros [Hac Hrun (sc & Hsc & Hcur) Hv Haway Hi] Hmx Hc Hslot.
  unfold wp at 1. rewrite (try_lock_unfold cx s sc m t mx v Hsc Hcur Hv Hmx), Hc. destruct (owner mx) as [o |] eqn:Ho.
  - rewrite (take_if_free_held s m mx Hmx t o Ho). cbn. split_and!; auto. apply all_running_kernel, Hrun.
  - eapply wp_mono; [apply (take_if_free_ok s m mx Hac Hmx t v i); assumption |].
    intros ? s1 (-> & Hrun1 & Hac1 & Et & Em & _). cbn. split_and!; auto. apply all_running_kernel, Hrun1.
Qed.

(** C32: misuse is refused, as a failed requirement, before anything changes:
    locking a mutex one owns, unlocking one somebody else or nobody owns,
    locking from above the ceiling, and destroying a mutex that is owned or
    waited for. *)
Theorem misuse_is_refused cx s t v m mx policy :
  caller cx s t v -> mutexes s !! m = Some mx ->
  (owner mx = Some t -> Mutex.lock_begin cx m s = Panic require_failed) /\
  (owner mx <> Some t -> Mutex.unlock cx m policy s = Panic require_failed) /\
  (within_ceiling mx v = false -> Mutex.try_lock cx m s = Panic require_failed /\ Mutex.lock_begin cx m s = Panic require_failed) /\
  (owner mx <> None \/ (exists n l, WaitQueue.repr (tcbs s) (nodes s) (mutex_queue mx) (n :: l)) ->
     Mutex.destroy m s = Panic require_failed).
Proof.
  intros [Hac Hrun (sc & Hsc & Hcur) Hv _ _] Hmx.
  assert (Hcurr : get_current_thread (this_core cx) s = Ok (t, s)) by (eapply get_current_ok; eassumption).
  assert (Hget : get_mutex m s = Ok (mx, s)) by (unfold get_mutex; rewrite Hmx; reflexivity).
  split_and!.
  - intros Ho. unfold Mutex.lock_begin, kbind. rewrite Hcurr, Hget. unfold kensure. rewrite bool_decide_true by exact Ho. reflexivity.
  - intros Ho. unfold Mutex.unlock, kbind. rewrite Hcurr, Hget. unfold kensure. rewrite bool_decide_false by exact Ho. reflexivity.
  - intros Hc. split; [rewrite (try_lock_unfold cx s sc m t mx v Hsc Hcur Hv Hmx), Hc; reflexivity |].
    unfold Mutex.lock_begin, kbind. rewrite Hcurr, Hget. unfold kensure. destruct (negb _); [| reflexivity].
    rewrite (check_ceiling_ok s m t mx v Hv Hmx), Hc. reflexivity.
  - intros Ho. unfold Mutex.destroy, kbind. rewrite Hget. unfold kensure. destruct (decide (owner mx = None)) as [En | En].
    + rewrite bool_decide_true by exact En. destruct Ho as [Ho | (n & l & Hq)]; [contradiction |]. rewrite (wr_empty _ _ _ _ Hq). reflexivity.
    + rewrite bool_decide_false by exact En. reflexivity.
Qed.
End mutex_claims.

(** ** Instances *)
Section instances.
Import Scenario MutexScenario.

Lemma holding_caller : caller at_baseline holding 4 owning.
Proof.
  split; [exact holding_accounts | exact holding_running | exists core0; split; reflexivity | reflexivity
    | exact holding_away | apply holding_no_idle; lia].
Qed.

Lemma holding_queue : WaitQueue.repr (tcbs holding) (nodes holding) (mutex_queue held_mutex) [60].
Proof. apply waiters_b_spec. vm_compute. reflexivity. Qed.

Lemma holding_heir : heir holding 6 (set_blocked_on (Some 50) (block 6 5 6 ThreadState.blocked)) 0.
Proof. split; [reflexivity | reflexivity | discriminate | vm_compute; lia | apply holding_no_idle; lia | reflexivity]. Qed.
End instances.

Lemma unlock_hands_over_witness :
  wp (Mutex.unlock Scenario.at_baseline 50 ReschedulePolicy.automatic)
    (fun _ s' => kernel_inv s' /\ delivered 6 s' /\ exists mx', mutexes s' !! 50 = Some mx' /\ owner mx' = Some 6)
    MutexScenario.holding.
Proof.
  eapply wp_mono.
  - apply (unlock_hands_over _ _ 4 _ 50 Scenario.held_mutex ReschedulePolicy.automatic 60 [] (WaitNode 6 None) _ 0 holding_caller eq_refl eq_refl holding_queue eq_refl holding_heir).
  - intros ? s' (Hk & _ & Hd & mx' & Hmx' & Ho & _). cbn in Hd, Ho. eauto 6.
Defined.

Lemma lock_unlock_round_trip_witness :
  wp (let* taken := Mutex.try_lock Scenario.at_baseline 51 in
      Mutex.unlock Scenario.at_baseline 51 ReschedulePolicy.automatic ;;* kret taken)
    (fun taken s' => taken = true /\ tcbs s' = tcbs MutexScenario.holding /\ nodes s' = nodes MutexScenario.holding /\
       mutexes s' = mutexes MutexScenario.holding /\ all_running s') MutexScenario.holding.
Proof.
  apply (lock_unlock_round_trip _ _ 4 MutexScenario.owning 51 MutexScenario.free_mutex 1); [exact holding_caller | reflexivity | reflexivity | reflexivity | | reflexivity].
  apply waiters_b_spec. vm_compute. reflexivity.
Defined.

Lemma try_lock_exact_witness :
  wp (Mutex.try_lock Scenario.at_baseline 50) (fun taken s' => taken = false /\ s' = MutexScenario.holding) MutexScenario.holding.
Proof.
  eapply wp_mono.
  - apply (try_lock_exact _ _ 4 MutexScenario.owning 50 Scenario.held_mutex 1 holding_caller); reflexivity.
  - intros taken s' (-> & _ & _ & Hs). cbn in Hs. auto.
Defined.

Lemma misuse_is_refused_witness :
  Mutex.lock_begin Scenario.at_baseline 50 MutexScenario.holding = Panic require_failed /\
  Mutex.unlock Scenario.at_baseline 51 ReschedulePolicy.automatic MutexScenario.holding = Panic require_failed.
Proof.
  split.
  - apply (proj1 (misuse_is_refused _ _ 4 MutexScenario.owning 50 Scenario.held_mutex ReschedulePolicy.automatic holding_caller eq_refl)). reflexivity.
  - apply (proj1 (proj2 (misuse_is_refused _ _ 4 MutexScenario.owning 51 MutexScenario.free_mutex ReschedulePolicy.automatic holding_caller eq_refl))). discriminate.
Defined.
