(* ===== verification/SyncProperties.v ===== *)
(** * The properties of the synchronisation primitives *)

From S2P Require Import Prelude Chain State ReadyQueue WaitQueue Urgency Scheduler SchedulerSpec Switch Cores Waking Waits Mutex Sync MutexOps Modes WaitingProofs SemaphoreSystem SemaphoreSpec SemaphoreProofs SweepProofs SyncProofs Channel ChannelProofs Scenario MutexScenario SemaphoreScenario.
Import SemaphoreSystem SemaphoreSpec SemaphoreProofs.

Section semaphore.
Context `{Config} `{SizeT}.

(** C1: no wake of a semaphore is lost. From a running kernel, threads that
    acquire and release a semaphore and handlers that release it take steps in
    any order, threads being switched and woken for other reasons meanwhile.
    Whenever every one of them is outside its call or asleep in it, and there
    is a token, none is asleep in it. *)
Theorem semaphore_loses_no_wake (w : nat) (node_of : nat -> nat) (who : list agent) (sys sys' : system) :
  (forall t u, thread t ∈ who -> thread u ∈ who -> node_of t = node_of u -> t = u) -> NoDup who ->
  begun w node_of who sys -> rtc (step w node_of who) sys sys' ->
  (forall a, a ∈ who -> sy_at sys' a = outside \/
     exists t v, a = thread t /\ tcbs (kernel (sy_world sys')) !! t = Some v /\ mode_of v = asleep) ->
  (0 < object (sy_world sys'))%Z ->
  forall t, thread t ∈ who -> sy_at sys' (thread t) = outside.
Proof.
  intros Hinj Hwho Hb Hrun Hrest Hk t Ht.
  destruct (reached w node_of who Hinj Hwho sys sys' Hb Hrun) as (sp & _ & Hrel & Hsane).
  rewrite <- (re_at _ _ _ _ _ Hrel). apply (sane_rests who sp Hsane); [| | exact Ht].
  - intros a Ha. rewrite (re_at _ _ _ _ _ Hrel). destruct (Hrest a Ha) as [E | (u & v & -> & Hv & Hm)]; [auto |].
    right. exists u. split; [reflexivity |]. rewrite (re_stands _ _ _ _ _ Hrel u v Hv). exact Hm.
  - rewrite <- (proj1 (re_tokens _ _ _ _ _ Hrel)). exact Hk.
Qed.

(** C2: a semaphore's calls never stick, and refine counting. Every state the
    system reaches is one that the abstract semaphore, its tokens and queue and
    its threads' modes, reaches by its own steps; and there the code that a
    running thread or a handler has next finishes, no check of it failing. *)
Theorem semaphore_refines_counting (w : nat) (node_of : nat -> nat) (who : list agent) (sys sys' : system) :
  (forall t u, thread t ∈ who -> thread u ∈ who -> node_of t = node_of u -> t = u) -> NoDup who ->
  begun w node_of who sys -> rtc (step w node_of who) sys sys' ->
  (exists sp, rtc (spec_step who) (beginning sys) sp /\ related w node_of who sys' sp) /\
  (forall cx t, thread t ∈ who -> this_core cx < cores -> runs (kernel (sy_world sys')) (this_core cx) t ->
     masked_from_baseline cx = true -> sy_at sys' (thread t) <> outside ->
     exists p wd, advance w node_of cx t (sy_at sys' (thread t)) (sy_world sys') = Ok (p, wd)) /\
  (forall cx c, handler c ∈ who -> sy_at sys' (handler c) <> outside ->
     exists p wd, advance_release w cx (sy_at sys' (handler c)) (sy_world sys') = Ok (p, wd)).
Proof.
  intros Hinj Hwho Hb Hrun. destruct (reached w node_of who Hinj Hwho sys sys' Hb Hrun) as ([k q m g] & Hs & Hrel & Hsane).
  split_and!; [eauto | |]; destruct sys' as [wd f].
  - intros cx t Ht Hc Hr Hm Ho.
    pose proof (thread_advance_ok w node_of who Hinj cx wd f g k q m t Hrel Hsane Ht Hc Hr Hm Ho) as Hok. unfold wp in Hok. cbn.
    destruct (advance _ _ _ _ _ _) as [[p wd'] |]; [eauto | destruct Hok].
  - intros cx c Hh Ho. pose proof (re_handlers _ _ _ _ _ Hrel c Hh) as Hr.
    pose proof (advance_release_ok w node_of who cx wd f g k q m Hrel _ Hh Hsane Hr Ho) as Hok. unfold wp in Hok. cbn.
    destruct (advance_release _ _ _ _) as [[p wd'] |]; [eauto | destruct Hok].
Qed.

(** The interleaved steps are the code, cut up. A release run through its
    steps is [Semaphore.release]; the four steps up to a sleep are the first
    half of a pass of the wait engine's loop, and those after it the second. *)
Theorem semaphore_steps_are_the_code (cx : cpu) (w : nat) (node_of : nat -> nat) :
  (forall n wd, run_through (3 + n) (advance_release w cx) (releasing n) wd = Semaphore.release cx (queue w) n wd) /\
  (forall t wd,
     (let* p := advance w node_of cx t preparing in let* p := advance w node_of cx t p in
      let* p := advance w node_of cx t p in advance w node_of cx t p) wd =
     (let* satisfied := Waits.pass_begin cx (frame_of w node_of t) in kret (disarming satisfied)) wd) /\
  (forall t (satisfied : bool) wd,
     (let* p := advance w node_of cx t (disarming satisfied) in
      if decide (p = outside) then kret outside else advance w node_of cx t p) wd =
     (let* over := Waits.pass_end cx (frame_of w node_of t) satisfied in
      kret (match over with Some _ => outside | None => preparing end)) wd).
Proof. split_and!; intros; [apply run_release | apply run_pass_begin | apply run_pass_end]. Qed.
End semaphore.

Section primitives.
Context `{Config}.

(** C7: setting flags wakes exactly whom it should. [event_flags::set] puts
    the mask in and answers the flags before it; in batches of eight, every
    waiter whose request the flags then meet leaves the queue awake, and every
    other waiter keeps its place and sleeps on. *)
Theorem set_wakes_the_satisfied (cx : cpu) (w : nat) (own : nat -> nat) (wd : world Z EventFlags.request) (m : Z) (l : list nat) :
  all_running (kernel wd) -> lively (tcbs (kernel wd)) -> queue_is w (kernel wd) l ->
  (forall n, n ∈ l -> exists nd v, nodes (kernel wd) !! n = Some nd /\ node_owner nd = own n /\
     tcbs (kernel wd) !! own n = Some v /\ pinned_core v < cores) ->
  wp (EventFlags.set cx (Waking.of_waitable w) m)
    (fun before wd' => before = object wd /\ object wd' = Z.lor (object wd) m /\ records wd' = records wd /\
       swept w (own <$> List.filter (asked w own wd m) l) l (List.filter (fun n => negb (asked w own wd m n)) l)
         (kernel wd) (kernel wd')) wd.
Proof.
  intros Hall Hl Hq Ho. unfold EventFlags.set. wp_step. apply wp_atomically. wp_step. apply wp_atomically. do 3 wp_step.
  apply wp_in_kernel. cbn [kernel object records set_object].
  eapply wp_mono; [apply (wake_all_where_ok cx w own _ (asked w own wd m)) with (l := l); auto |].
  - intros v v' E. unfold EventFlags.wants_of. rewrite E. reflexivity.
  - intros n Hn. destruct (Ho n Hn) as (nd & v & H1 & H2 & H3 & H4). exists nd, v. split_and!; auto. unfold asked. rewrite H3. reflexivity.
  - intros ? s' Hs. wp_step. auto.
Qed.

(** C11: a wait for flags is met exactly, bit by bit. An attempt succeeds just
    when the flags it asked for are up, any or all of them; it then answers
    the flags of its mask that are up, and a consuming one clears those, and
    no other, in the same access; a failed one changes nothing. *)
Theorem attempt_is_exact (self : EventFlags.request) (wd : world Z EventFlags.request) :
  (0 <= object wd < 2 ^ 32)%Z -> (0 <= EventFlags.mask self)%Z ->
  wp (EventFlags.attempt self)
    (fun '(hit, req) wd' =>
       (hit = true <-> meets self (object wd)) /\ (0 <= object wd' < 2 ^ 32)%Z /\
       kernel wd' = kernel wd /\ records wd' = records wd /\
       (hit = false -> object wd' = object wd /\ req = self) /\
       (hit = true -> forall i, (0 <= i)%Z ->
          Z.testbit (EventFlags.matched req) i = Z.testbit (EventFlags.mask self) i && Z.testbit (object wd) i /\
          Z.testbit (object wd') i = Z.testbit (object wd) i &&
            match EventFlags.exit self with
            | EventFlags.keep => true
            | EventFlags.consume => negb (Z.testbit (EventFlags.mask self) i)
            end)) wd.
Proof.
  intros Hb Hm. unfold EventFlags.attempt. apply wp_atomically.
  pose proof (satisfied_meets self (object wd) (proj1 Hb)) as Hs.
  destruct (EventFlags.satisfied_by self (object wd)) eqn:E; cbn [negb].
  - destruct (EventFlags.exit self); cbn [object kernel records set_object].
    + split; [tauto |]. split; [exact Hb |]. split_and!; auto; try discriminate. intros _ i Hi. rewrite andb_true_r. split; [| reflexivity].
      cbn. rewrite Z.land_spec. apply andb_comm.
    + assert (Hc : (0 <= wrap 32 (Z.lnot (Z.land (object wd) (EventFlags.mask self))))%Z) by (apply (wrap_range 32); lia).
      split; [tauto |]. split; [apply land_below; auto |]. split_and!; auto; try discriminate. intros _ i Hi. cbn.
      rewrite !Z.land_spec, wrap_lnot_bit, Z.land_spec by exact Hi. split; [apply andb_comm |].
      case_bool_decide; [| rewrite (below_bit (object wd) i) by lia]; destruct (Z.testbit (object wd) i), (Z.testbit (EventFlags.mask self) i); reflexivity.
  - split; [tauto |]. split; [exact Hb |]. split_and!; auto; discriminate.
Qed.

(** C9: a handoff loses and invents no token. A release of [n] gives one each
    to the first [n] waiters, woken in queue order and off the queue, and
    counts just what is left over. *)
Theorem handoff_release_exact `{SizeT} (cx : cpu) (w : nat) (own : nat -> nat) (n : nat) (l : list nat) (wd : world Z bool) :
  ready_for w own l wd ->
  wp (HandoffSemaphore.release cx (Waking.of_waitable w) n)
    (fun _ wd' => handed w own (own <$> take n l) l (drop n l) (usize (object wd + Z.of_nat (n - length l))) wd wd') wd.
Proof.
  intros Hw. pose proof Hw as [R1 R2 R3 R4 R5]. unfold HandoffSemaphore.release. wp_step.
  eapply wp_mono; [apply (may_have_waiters_ok w own l wd Hw) |]. intros b wd0 [-> ->].
  destruct l as [| x l]; cbn [negb bool_decide]; rewrite ?bool_decide_true, ?bool_decide_false by (reflexivity || discriminate); cbn [negb].
  - wp_step. unfold Tokens.fetch_add. apply wp_atomically.
    assert (Hw1 : ready_for w own [] (set_object (usize (object wd + Z.of_nat n)) wd)) by (split; cbn; auto using usize_range).
    wp_step. eapply wp_mono; [apply (may_have_waiters_ok w own [] _ Hw1) |]. intros b wd0 [-> ->]. rewrite bool_decide_true by reflexivity. cbn [negb].
    wp_step. rewrite take_nil, drop_nil. cbn [length]. rewrite Nat.sub_0_r. split; cbn; auto. apply swept_nothing; assumption.
  - apply hand_over_each_ok, Hw.
Qed.

(** C10: a notify of a condition variable ends waits, and nothing else does.
    With [l] waiting, [notify_one] takes the most urgent off the queue and
    wakes it, and [notify_all] everybody; no thread but those is woken. Then,
    whichever waiter runs next, and for whatever reason, its wait ends if a
    notify took it, and goes round again if none did. *)
Theorem notify_ends_waits (cx : cpu) (w : nat) (own rec : nat -> nat) (l : list nat) (wd : world unit ConditionVariable.waiter_state) :
  awaited w own rec l wd ->
  wp (ConditionVariable.notify_one cx (Waking.of_waitable w))
    (fun _ wd' => notified w own 1 l wd wd' /\ ends_just_off w own rec l (drop 1 l) wd') wd /\
  wp (ConditionVariable.notify_all cx (Waking.of_waitable w))
    (fun _ wd' => notified w own (length l) l wd wd' /\ ends_just_off w own rec l [] wd') wd.
Proof.
  intros Hw. split.
  - eapply wp_mono; [apply (notify_one_ok cx w own rec l wd Hw) |]. intros ? wd' Hn. split; [exact Hn | exact (notified_ends w own rec 1 l wd wd' Hw Hn)].
  - eapply wp_mono; [apply (notify_all_ok cx w own rec l wd Hw) |]. intros ? wd' Hn. split; [exact Hn |].
    pose proof (notified_ends w own rec _ l wd wd' Hw Hn) as He. rewrite drop_all in He. exact He.
Qed.
End primitives.

(** C8: a channel is a bounded FIFO. Whatever its callers do, in whatever
    order, every answer the ring gives is the one a list of at most [Capacity]
    values gives: values come out in the order they went in, none twice and
    none lost but those an overwrite drops; a full or stopped channel refuses;
    a stopped one drains and then is finished. *)
Theorem channel_is_a_bounded_fifo {T : Type} (Capacity : nat) (default : T) (os : list (ChannelProofs.access (T := T))) :
  0 < Capacity ->
  ChannelProofs.answers (ChannelProofs.served Capacity) os (Channel.new_channel Capacity default) =
  ChannelProofs.answers (ChannelProofs.promised Capacity) os ([], false).
Proof. intros Hc. apply (ChannelProofs.answers_promised Capacity Hc os), ChannelProofs.new_holds, Hc. Qed.

Import SemaphoreScenario.

(** Flag 0 goes up: 1, which wants it, is woken, and 8 stays. *)
Lemma set_wakes_the_satisfied_witness : List.filter (asked 70 SyncScenario.own SyncScenario.flags 1) [208; 201] = [201] /\
  wp (EventFlags.set Scenario.at_baseline (Waking.of_waitable 70) 1)
    (fun before wd' => before = 0%Z /\ object wd' = 1%Z /\ records wd' = records SyncScenario.flags /\
       swept 70 [1] [208; 201] [208] (kernel SyncScenario.flags) (kernel wd')) SyncScenario.flags.
Proof.
  split; [vm_compute; reflexivity |].
  refine (set_wakes_the_satisfied Scenario.at_baseline 70 SyncScenario.own SyncScenario.flags 1 [208; 201]
    SyncScenario.waited_running SyncScenario.waited_lively SyncScenario.waited_queue _).
  intros n Hn. destruct (SyncScenario.waited_waiter n Hn) as (nd & v & H1 & H2 & H3 & H4 & H5). exists nd, v. auto.
Defined.

Lemma attempt_is_exact_witness : wp (EventFlags.attempt (EventFlags.Request 6 EventFlags.any EventFlags.consume 0))
  (fun '(hit, req) wd' => hit = true /\ Z.testbit (EventFlags.matched req) 1 = true /\ Z.testbit (EventFlags.matched req) 2 = false /\
     Z.testbit (object wd') 0 = true /\ Z.testbit (object wd') 1 = false) (set_object 3%Z SyncScenario.flags).
Proof.
  eapply wp_mono; [apply (attempt_is_exact (EventFlags.Request 6 EventFlags.any EventFlags.consume 0) (set_object 3%Z SyncScenario.flags)) |].
  - split; [discriminate | reflexivity].
  - discriminate.
  - intros [hit req] wd' (Hm & _ & _ & _ & _ & Hb). assert (hit = true) as -> by (apply Hm; exists 1%Z; split_and!; [discriminate | reflexivity ..]).
    specialize (Hb eq_refl). destruct (Hb 0%Z ltac:(lia)) as [_ B0]. destruct (Hb 1%Z ltac:(lia)) as [A1 B1]. destruct (Hb 2%Z ltac:(lia)) as [A2 _].
    rewrite B0, A1, B1, A2. auto.
Defined.

(** Three tokens for two waiters: one is counted. *)
Lemma handoff_release_exact_witness : wp (HandoffSemaphore.release Scenario.at_baseline (Waking.of_waitable 70) 3)
  (fun _ wd' => handed 70 SyncScenario.own [8; 1] [208; 201] [] 1 SyncScenario.handoff wd') SyncScenario.handoff.
Proof. exact (handoff_release_exact Scenario.at_baseline 70 SyncScenario.own 3 [208; 201] SyncScenario.handoff SyncScenario.handoff_ready). Defined.

(** 8 is chosen, and its wait ends; 1, were it to run, would wait on. *)
Lemma notify_ends_waits_witness : wp (ConditionVariable.notify_one Scenario.at_baseline (Waking.of_waitable 70))
  (fun _ wd' => notified 70 SyncScenario.own 1 [208; 201] SyncScenario.condition wd' /\
     ends_just_off 70 SyncScenario.own SyncScenario.record_of [208; 201] [201] wd') SyncScenario.condition.
Proof.
  exact (proj1 (notify_ends_waits Scenario.at_baseline 70 SyncScenario.own SyncScenario.record_of [208; 201] SyncScenario.condition SyncScenario.condition_awaited)).
Defined.

Lemma channel_is_a_bounded_fifo_witness :
  ChannelProofs.answers (ChannelProofs.served 2)
    [ChannelProofs.placing 1; ChannelProofs.placing 2; ChannelProofs.overwriting 3; ChannelProofs.halting; ChannelProofs.taking; ChannelProofs.placing 4]
    (Channel.new_channel 2 0) =
  [ChannelProofs.sent Channel.queued; ChannelProofs.sent Channel.queued; ChannelProofs.overwrote false false; ChannelProofs.halted true;
   ChannelProofs.took (Some 2) false; ChannelProofs.sent Channel.refused].
Proof.
  rewrite (channel_is_a_bounded_fifo 2 0 _ ltac:(lia)). reflexivity.
Defined.

(** Thread 4, asleep for want of a token, was woken and took one of two. *)
Lemma semaphore_loses_no_wake_witness : object (sy_world over) = 1%Z /\ sy_at over (thread 4) = outside.
Proof.
  split; [vm_compute; reflexivity |].
  apply (semaphore_loses_no_wake 70 node_of who start over nodes_apart who_nodup start_begun (make_all_run 70 node_of who moves start)).
  - intros a Ha. left. apply elem_of_cons in Ha as [-> | Ha]; [| apply list_elem_of_singleton in Ha as ->]; vm_compute; reflexivity.
  - vm_compute. reflexivity.
  - left.
Defined.

Lemma semaphore_refines_counting_witness : sy_at asleep_at (thread 4) = disarming false /\
  exists sp, rtc (spec_step who) (beginning start) sp /\ related 70 node_of who asleep_at sp.
Proof.
  split; [vm_compute; reflexivity |].
  exact (proj1 (semaphore_refines_counting 70 node_of who start asleep_at nodes_apart who_nodup start_begun
    (make_all_run 70 node_of who (take 7 moves) start))).
Defined.
