(* ===== verification/ChronoProperties.v ===== *)
(** * The property of alarms, and an example

    The example is the kernel of [SyncScenario] with its two waiters asleep in
    [sleep_until]: 8 until 100, on the alarm at 50, and 1 until 200, on the one
    at 51.  The tickless driver's first table has their timers. *)

From S2P Require Import Prelude Chain State ReadyQueue WaitQueue WaitQueueProofs Urgency Scheduler SchedulerSpec Switch Waking Waits Mutex Sync Cores ExitProofs Checks Modes WaitingProofs Time TimeProofs Chrono ChronoSpec ChronoProofs Scenario MutexScenario SemaphoreScenario.
Import SemaphoreScenario.

Module ChronoScenario.
Import SyncScenario.

Definition signalled : gmap nat cancel_signal :=
  {[ 50 := CancelSignal (WaitQueue (Some 208)) false; 51 := CancelSignal (WaitQueue (Some 201)) false ]}.

Definition unlinked_nodes : node_heap := <[208 := set_node_next None (WaitNode 8 (Some 201))]> wait_nodes.

Definition sleeping : kernel_state :=
  set_signals signalled (set_nodes unlinked_nodes waited).

Lemma waited_system : system_inv waited.
Proof.
  split.
  - destruct waited_running as [Hlen Hall]. split; [exact Hlen |]. intros d Hd. destruct (Hall d Hd) as (sc & L & Hs & run & I & Hinv). eauto 8.
  - intros t v Hv. assert (Hb : map_all (fun _ v => pinned_core v <? 4) (tcbs waited) = true) by (vm_compute; reflexivity).
    apply Nat.ltb_lt, (map_all_spec _ _ Hb t v Hv).
Qed.

Lemma sleeping_apart n : n <> 60 -> unqueued sleeping n.
Proof.
  intros Hn. apply (unqueued_relink waited 208 (WaitNode 8 (Some 201)) None n (system_wf waited waited_system) eq_refl);
    apply waited_apart; [discriminate | exact Hn].
Qed.

Definition sleepers : waiting := {[ 50 := ([208], [8]); 51 := ([201], [1]) ]}.

Lemma sleeper n : n ∈ [208; 201] -> batch sleeping (Some n) [n] [own n].
Proof.
  intros Hn. apply elem_of_cons in Hn as [-> | Hn]; [| apply list_elem_of_singleton in Hn as ->];
    (split; [apply chain_b_spec; vm_compute; reflexivity | constructor; [eexists; split; reflexivity | constructor]
      | intros t Ht; apply list_elem_of_singleton in Ht as ->; eexists; reflexivity | apply NoDup_singleton
      | intros n Hn; apply list_elem_of_singleton in Hn as ->; apply sleeping_apart; discriminate]).
Qed.

Lemma sleeping_attended : attended sleeping sleepers.
Proof.
  split.
  - apply system_signals, (relink_inv waited 208 (WaitNode 8 (Some 201)) None waited_system eq_refl), waited_apart. discriminate.
  - intros a l ts Ha. unfold sleepers in Ha. apply lookup_insert_Some in Ha as [[<- E] | [_ Ha]]; [| apply lookup_singleton_Some in Ha as [<- E]];
      injection E as <- <-; (eexists; split; [reflexivity |]); apply sleeper; set_solver.
  - intros a b la ta lb tb Hne Ha Hb. unfold sleepers in Ha, Hb.
    apply lookup_insert_Some in Ha as [[<- E] | [_ Ha]]; [| apply lookup_singleton_Some in Ha as [<- E]]; injection E as <- <-;
      (apply lookup_insert_Some in Hb as [[<- E] | [_ Hb]]; [| apply lookup_singleton_Some in Hb as [<- E]]; injection E as <- <-);
      (contradiction || set_solver).
Qed.

(** ** Their timers *)

Definition table : Timetable.timetable :=
  claimed 1 200 0 (Some Chrono.on_timer_address) 51 (claimed 0 100 0 (Some Chrono.on_timer_address) 50 Timetable.new_timetable).

Definition driver : Timetable.driver :=
  Timetable.Driver true 1000 (table :: replicate 3 Timetable.new_timetable) [].

Lemma table_timers : table_sound table /\
  forall x e, slot_live table x e <-> (x = 2%Z /\ e = Entry 200 0 Chrono.on_timer_address 51) \/ (x = 1%Z /\ e = Entry 100 0 Chrono.on_timer_address 50).
Proof.
  destruct fresh_sound as [H0 L0].
  destruct (claimed_sound Timetable.new_timetable 0 100 Chrono.on_timer_address 50 Timetable.free_slot H0) as (H1 & _ & L1);
    [reflexivity | reflexivity | reflexivity | lia |].
  destruct (claimed_sound _ 1 200 Chrono.on_timer_address 51 Timetable.free_slot H1) as (H2 & _ & L2);
    [reflexivity | reflexivity | reflexivity | lia |].
  split; [exact H2 |]. intros x e. unfold table. rewrite L2, L1. pose proof (L0 x e). tauto.
Qed.

Definition chronos : clocked Z EventFlags.request Timetable.driver :=
  Clocked (World sleeping 0%Z ∅) driver {[ 50 := 1%Z; 51 := 2%Z ]}.

Definition phases : gmap nat Alarms.phase := {[ 50 := Alarms.set_for 100; 51 := Alarms.set_for 200 ]}.

Lemma table_timely : driver_timely driver 0 150.
Proof.
  exists table. split; [reflexivity |]. apply Forall_forall. intros s Hs _. unfold table in Hs. cbn in Hs.
  repeat (apply elem_of_cons in Hs as [-> | Hs]; [reflexivity |]). inversion Hs.
Qed.

#[local] Existing Instances Drivers.tickless tickless_laws.

Lemma chronos_track : tracks (Cpu 0 true true) chronos phases sleepers.
Proof.
  destruct table_timers as [Hs Hl]. split.
  - exact sleeping_attended.
  - split; [reflexivity | exists table; split; [reflexivity | exact Hs]].
  - reflexivity.
  - intros a ph Ha. unfold phases in Ha. apply lookup_insert_Some in Ha as [[<- <-] | [_ Ha]]; [| apply lookup_singleton_Some in Ha as [<- <-]];
      (do 2 eexists; split_and!; [reflexivity | reflexivity | reflexivity | exists table; split; [reflexivity | apply Hl; auto]]).
  - intros h e (t & Ht & He). injection Ht as <-. apply Hl in He as [[-> ->] | [-> ->]]; right;
      [exists 51, 200%Z | exists 50, 100%Z]; split_and!; reflexivity.
Qed.
End ChronoScenario.

(** ** The property *)

Section alarms.
Context `{Config} {X R D : Type} `{!TimeDriver D} `{!TimeDriverLaws D} (cx : cpu) (other : nat -> nat -> C X R D unit).

(** What a move leaves of the waiters and of the threads. *)
Definition moved (mv : Alarms.move) (A : gmap nat Alarms.phase) (W : waiting) (k k' : kernel_state) : Prop :=
  match mv with
  | Alarms.elapsed now => woken k A W now k' /\ undisturbed k A W now k'
  | _ => tcbs k' = tcbs k
  end.

(** C12: alarms keep time. Over any driver that keeps its laws, every operation
    on an alarm and the timer's interrupt finish, no check of them failing and
    without waiting for each other, answer what the abstract alarm answers and
    leave it as it: an alarm goes off at the first interrupt at or after its
    time and not before, until it is armed or disarmed again. It then wakes
    every thread that waits on it, wherever that lives, and no other. To arm
    one that is set is refused. *)
Theorem alarms_keep_time (ch : clocked X R D) (A : gmap nat Alarms.phase) (W : waiting) (mv : Alarms.move) :
  tracks cx ch A W ->
  match Alarms.step A mv with
  | Some (A', ans) =>
      Alarms.allowed cx ch W mv ->
      wp (Alarms.perform cx other mv)
        (fun r ch' => r = ans /\ moved mv A W (kern ch) (kern ch') /\
           exists W', tracks cx ch' A' W' /\ forall a, A' !! a = A !! a -> W' !! a = W !! a) ch
  | None =>
      match mv with
      | Alarms.armed _ a => is_Some (A !! a) -> Alarms.perform cx other mv ch = Panic require_failed
      | _ => True
      end
  end.
Proof.
  intros HT. destruct mv as [a | tp a | a | a | a | a | now]; cbn [Alarms.step Alarms.perform Alarms.allowed moved].
  - destruct (A !! a) as [ph |] eqn:Ha; [exact I |]. intros _. apply wp_bind. eapply wp_mono; [apply (new_alarm_ok cx ch A W a HT Ha) |].
    intros _ ch' [HT' E]. apply wp_ret. split_and!; [reflexivity | exact E |]. eexists. split; [exact HT' |].
    intros b. destruct (decide (b = a)) as [-> | Hne]; [rewrite lookup_insert_eq, Ha; discriminate | rewrite !lookup_insert_ne by congruence; auto].
  - destruct (A !! a) as [ph |] eqn:Ha; [| intros [? E]; discriminate]. destruct (Alarms.is_set ph) eqn:Hs; destruct ph as [| tp' |]; try discriminate Hs;
      [intros _; unfold Alarms.quietly, kbind; rewrite (arm_at_refuses cx ch A W a tp tp' HT Ha); reflexivity | |];
      (intros [Hroom Htp]; apply wp_bind; eapply wp_mono; [apply (arm_at_ok cx ch A W a tp _ HT Ha eq_refl Hroom Htp) |];
       intros _ ch' [HT' E]; apply wp_ret; eauto 8).
  - destruct (A !! a) as [ph |] eqn:Ha; [| exact I]. intros _. apply wp_bind. eapply wp_pending; [exact HT | exact Ha |]. apply wp_ret. eauto 8.
  - destruct (A !! a) as [ph |] eqn:Ha; [| exact I]. intros _. destruct (tk_alarm _ _ _ _ HT a ph Ha) as (h & sg & _ & Hsg & Hf & _).
    apply wp_bind. eapply wp_signal_raised; [exact Hsg |]. rewrite Hf. apply wp_ret. eauto 8.
  - destruct (A !! a) as [ph |] eqn:Ha; [| exact I]. intros _. apply wp_bind. eapply wp_mono; [apply (alarm_disarm_ok cx ch A W a ph HT Ha) |].
    intros _ ch' [HT' E]. apply wp_ret. eauto 8.
  - destruct (A !! a) as [ph |] eqn:Ha; [| exact I]. intros [ts Hw]. apply wp_bind. eapply wp_mono; [apply (destroy_ok cx ch A W a ph ts HT Ha Hw) |].
    intros _ ch' [HT' E]. apply wp_ret. split_and!; [reflexivity | exact E |]. eexists. split; [exact HT' |].
    intros b. destruct (decide (b = a)) as [-> | Hne]; [rewrite lookup_delete_eq, Ha; discriminate | rewrite !lookup_delete_ne by congruence; auto].
  - intros Htime. apply wp_bind. eapply wp_mono; [apply (timer_interrupt_ok cx other ch A W now HT Htime) |].
    intros _ ch' ((W' & HT' & HW) & Hwk & Hun). apply wp_ret. split_and!; [reflexivity | exact Hwk | exact Hun |].
    exists W'. split; [exact HT' |]. intros a E. rewrite lookup_fmap in E. rewrite HW, decide_True by exact E. reflexivity.
Qed.
End alarms.

(** At 150 the first sleeper is woken. *)
Lemma alarms_keep_time_witness :
  exists ch', Alarms.perform (TimeDriver0 := Drivers.tickless) (Cpu 0 true true) (fun _ _ => kret tt) (Alarms.elapsed 150) ChronoScenario.chronos = Ok (None, ch') /\
    delivered 8 (kern ch').
Proof.
  pose proof (alarms_keep_time (TimeDriver0 := Drivers.tickless) (TimeDriverLaws0 := tickless_laws) (Cpu 0 true true) (fun _ _ => kret tt)
    ChronoScenario.chronos ChronoScenario.phases ChronoScenario.sleepers (Alarms.elapsed 150) ChronoScenario.chronos_track) as H.
  cbn beta iota delta [Alarms.step Alarms.allowed] in H. destruct (wp_elim _ _ _ (H ChronoScenario.table_timely)) as (r & ch' & E & -> & [Hw _] & _).
  exists ch'. split; [exact E |]. eapply (Hw 50 100%Z [208] [8] 8); [reflexivity | lia | reflexivity | left | reflexivity | reflexivity].
Defined.

(** The longest timed wait does not wait: its deadline wraps into the past. *)
Lemma longest_wait_is_a_poll `{Config} `{SizeT} {D : Type} `{!TimeDriver D} (cx : cpu) (q : Waking.queue_ref) (now now' : Z) (a n cn : nat) :
  (0 < now <= now')%Z -> (now < 2 ^ 64)%Z ->
  Chrono.try_acquire_for (D := D) cx q now (2 ^ 64 - 1) now' a n cn = (let* taken := on_world Tokens.try_acquire in kret (inl taken)).
Proof.
  intros Hnow Hlt. unfold Chrono.try_acquire_for. rewrite (proj2 (Z.eqb_neq _ _)) by lia. unfold Chrono.try_acquire_until.
  assert (E : TimePoint.add now (2 ^ 64 - 1) = (now - 1)%Z).
  { unfold TimePoint.add, u64, wrap. replace (now + (2 ^ 64 - 1))%Z with ((now - 1) + 1 * 2 ^ 64)%Z by lia.
    rewrite Z_mod_plus_full, Z.mod_small; lia. }
  rewrite E, (proj2 (Z.ltb_ge now' (now - 1))) by lia. reflexivity.
Qed.
