(* ===== verification/DiagnosticsProperties.v ===== *)
(** * What the blocking-chain query reports, and its properties

    Where the edges it follows stand still the walk is a function of them,
    [chain_of]; where they do not, what it confirms was so at some instant,
    provided that no edge came back between its two readings. *)

From S2P Require Import Prelude State Diagnostics Scenario.
Import Diagnostics.

(** ** The walk over edges that stand still *)

Section edges.
Context (edge : nat -> option nat) (blk : nat -> bool) (ident : nat -> Z).

(** The threads followed, and the place in [visited] the last hop led back to. *)
Fixpoint chain_of (links : nat) (visited : list nat) (current : nat) : list nat * option nat :=
  match links with
  | O => ([], None)
  | S links =>
      match edge current with
      | None => ([], None)
      | Some holder =>
          match list_find (fun x => x = holder) visited with
          | Some (i, _) => ([], Some i)
          | None => let '(l, back) := chain_of links (visited ++ [holder]) holder in (holder :: l, back)
          end
      end
  end.

Context (h : nat -> kernel_state) (t0 : nat) (D : nat -> Prop).
Context (Hclosed : forall x y, D x -> edge x = Some y -> D y).
Context (Hedge : forall x now, D x -> t0 <= now -> wp (next_holder h x) (fun r now' => r = edge x /\ t0 <= now') now).
Context (Hid : forall x now, D x -> t0 <= now -> thread_id <$> tcbs (h now) !! x = Some (ident x)).
Context (Hstate : forall x now, D x -> t0 <= now -> exists st, state <$> tcbs (h now) !! x = Some st /\
  blk x = bool_decide (st = ThreadState.blocked)).

Lemma wp_load {A} (f : kernel_state -> option A) a (Q : A -> nat -> Prop) now : f (h now) = Some a -> Q a (S now) -> wp (load h f) Q now.
Proof. unfold wp, load. intros ->. auto. Qed.

(** [l] follows itself from [first] round to [first]. *)
Fixpoint closes (first : nat) (l : list nat) : Prop :=
  match l with
  | [] => True
  | x :: rest => edge x = Some (default first (head rest)) /\ closes first rest
  end.

Lemma confirm_from_still first l now : (forall x, x ∈ l -> D x) -> t0 <= now -> closes first l ->
  wp (confirm_from h first l) (fun b _ => b = forallb blk l) now.
Proof.
  revert now. induction l as [| x l IH]; intros now HD Hnow Hc; cbn [confirm_from]; [apply wp_ret; reflexivity |].
  destruct Hc as [Hx Hc]. destruct (Hstate x now (HD x ltac:(left)) Hnow) as (st & Hst & Hb).
  apply wp_bind. eapply wp_load; [exact Hst |]. cbn [forallb]. rewrite Hb.
  case_bool_decide; cbn [negb andb]; [| apply wp_ret; reflexivity].
  apply wp_bind. eapply wp_mono; [apply (Hedge x (S now) (HD x ltac:(left))); lia |].
  intros r now' [-> Hnow']. rewrite Hx, bool_decide_true by reflexivity. cbn [negb]. apply IH; auto.
  intros y Hy. apply HD. right. exact Hy.
Qed.

(** What has been visited: a path along the edges. *)
Fixpoint path (l : list nat) : Prop :=
  match l with
  | x :: ((y :: _) as rest) => edge x = Some y /\ path rest
  | _ => True
  end.

Lemma path_snoc l x y : path (l ++ [x]) -> edge x = Some y -> path (l ++ [x] ++ [y]).
Proof. induction l as [| a [| b l] IH]; cbn; [auto | tauto | intros [E Hp] Hy; split; [exact E | exact (IH Hp Hy)]]. Qed.

Lemma path_step l n x y : path l -> l !! n = Some x -> l !! S n = Some y -> edge x = Some y.
Proof.
  revert n. induction l as [| a l IH]; intros n Hp Hx Hy; [discriminate |]. destruct l as [| b l]; [destruct n; discriminate |].
  destruct n as [| n]; [injection Hx as <-; injection Hy as <-; apply Hp | exact (IH n (proj2 Hp) Hx Hy)].
Qed.

Lemma path_drop n l : path l -> path (drop n l).
Proof.
  revert l. induction n as [| n IH]; intros [| x l] Hp; try exact Hp. cbn [drop]. apply IH.
  destruct l as [| y l]; [exact I | apply Hp].
Qed.

Lemma path_closes first l x : path (l ++ [x]) -> edge x = Some first -> closes first (l ++ [x]).
Proof. induction l as [| a [| b l] IH]; cbn; [auto | tauto | intros [E Hp] Hy; split; [exact E | exact (IH Hp Hy)]]. Qed.

Lemma cycle_closes l x first i : path (l ++ [x]) -> edge x = Some first -> (l ++ [x]) !! i = Some first ->
  closes first (drop i (l ++ [x])).
Proof.
  intros Hp Hx Hi. pose proof (lookup_lt_Some _ _ _ Hi) as Hlt. rewrite length_app in Hlt. cbn in Hlt.
  rewrite drop_app_le by lia. apply path_closes; [| exact Hx]. rewrite <- drop_app_le by lia. apply path_drop, Hp.
Qed.

(** The verdict on a walk that came back to [i]. *)
Definition verdict (visited l : list nat) (back : option nat) : bool :=
  match back with Some i => forallb blk (drop i (visited ++ l)) | None => false end.

Lemma walk_still links : forall visited current out now,
  (forall x, x ∈ visited ++ [current] -> D x) -> path (visited ++ [current]) -> t0 <= now -> deadlocked out = false ->
  wp (walk h links (visited ++ [current]) current out)
    (fun r _ => let '(l, back) := chain_of links (visited ++ [current]) current in
       r = BlockingChain (holders out ++ (ident <$> l)) (verdict (visited ++ [current]) l back)) now.
Proof.
  induction links as [| links IH]; intros visited current out now HD Hp Hnow Hout; cbn [walk chain_of].
  { apply wp_ret. cbn. rewrite app_nil_r. destruct out as [hs d]. cbn in *. congruence. }
  pose proof (HD current ltac:(apply elem_of_app; right; left)) as HDc.
  apply wp_bind. eapply wp_mono; [apply (Hedge current now HDc Hnow) |]. intros r now1 [-> Hnow1].
  destruct (edge current) as [holder |] eqn:He; [| apply wp_ret; cbn; rewrite app_nil_r; destruct out as [hs d]; cbn in *; congruence].
  pose proof (Hclosed current holder HDc He) as HDh.
  destruct (list_find (fun x => x = holder) (visited ++ [current])) as [[i y] |] eqn:Hf.
  - apply list_find_Some in Hf as (Hi & -> & _). unfold confirm_cycle. apply wp_bind, wp_bind, wp_lift. rewrite Hi. cbn [nonnull ok].
    eapply wp_mono; [apply (confirm_from_still holder (drop i (visited ++ [current])) now1) |].
    + intros x Hx. apply HD. rewrite <- (take_drop i (visited ++ [current])). apply elem_of_app. auto.
    + exact Hnow1.
    + apply cycle_closes; assumption.
    + intros b now2 ->. apply wp_ret. cbn. rewrite !app_nil_r. reflexivity.
  - apply wp_bind. eapply wp_load; [apply (Hid holder now1 HDh Hnow1) |].
    specialize (IH (visited ++ [current]) holder (BlockingChain (holders out ++ [ident holder]) (deadlocked out)) (S now1)).
    destruct (chain_of links ((visited ++ [current]) ++ [holder]) holder) as [l back].
    eapply wp_mono; [apply IH |].
    + intros x Hx. apply elem_of_app in Hx as [Hx | Hx]; [apply HD, Hx | apply list_elem_of_singleton in Hx as ->; exact HDh].
    + rewrite <- app_assoc. apply path_snoc; assumption.
    + lia.
    + exact Hout.
    + intros r now2 ->. cbn [holders]. rewrite <- app_assoc. cbn. f_equal. unfold verdict. rewrite <- !app_assoc. reflexivity.
Qed.

(** The path followed has no thread twice; it ends in a thread it has been at,
    in one that waits for nobody, or at the limit. *)
Lemma chain_of_ends links : forall visited current l back, chain_of links (visited ++ [current]) current = (l, back) ->
  NoDup (visited ++ [current]) -> path (visited ++ [current]) ->
  NoDup (visited ++ [current] ++ l) /\ path (visited ++ [current] ++ l) /\ length l <= links /\
  match back with
  | Some i => length l < links /\ exists z y, last (visited ++ [current] ++ l) = Some z /\ edge z = Some y /\ (visited ++ [current] ++ l) !! i = Some y
  | None => length l = links \/ exists z, last (visited ++ [current] ++ l) = Some z /\ edge z = None
  end.
Proof.
  induction links as [| links IH]; intros visited current l back E Hnd Hp; cbn [chain_of] in E.
  { injection E as <- <-. rewrite app_nil_r. split_and!; auto. }
  destruct (edge current) as [holder |] eqn:He.
  - destruct (list_find (fun x => x = holder) (visited ++ [current])) as [[i y] |] eqn:Hf.
    + injection E as <- <-. rewrite app_nil_r. apply list_find_Some in Hf as (Hi & -> & _). split_and!; [exact Hnd | exact Hp | cbn; lia | cbn; lia |].
      exists current, holder. split_and!; [apply last_snoc | exact He | exact Hi].
    + destruct (chain_of links ((visited ++ [current]) ++ [holder]) holder) as [l' back'] eqn:E'. injection E as <- <-.
      apply list_find_None in Hf. rewrite Forall_forall in Hf.
      destruct (IH (visited ++ [current]) holder l' back' E') as (H1 & H2 & H3 & H4).
      * apply NoDup_app. split_and!; [exact Hnd | | apply NoDup_singleton]. intros x Hx Hx'. apply list_elem_of_singleton in Hx' as ->. exact (Hf holder Hx eq_refl).
      * rewrite <- app_assoc. apply path_snoc; assumption.
      * rewrite <- app_assoc in H1, H2, H4. cbn in *. split_and!; [exact H1 | exact H2 | lia |].
        destruct back' as [i |]; [split; [lia | apply H4] | destruct H4 as [H4 | H4]; [left; lia | right; exact H4]].
  - injection E as <- <-. rewrite app_nil_r. split_and!; [exact Hnd | exact Hp | cbn; lia |]. right. exists current. split; [apply last_snoc | exact He].
Qed.
End edges.

(** ** A state that stands still *)

(** Whom a thread waits for, in one state. *)
Definition waits_for (s : kernel_state) (x : nat) : option nat :=
  v ← tcbs s !! x; m ← blocked_on v; mx ← mutexes s !! m; o ← owner mx; if decide (o = x) then None else Some o.

Definition is_blocked (s : kernel_state) (x : nat) : bool :=
  match tcbs s !! x with Some v => bool_decide (state v = ThreadState.blocked) | None => false end.

Definition ident_of (s : kernel_state) (x : nat) : Z := match tcbs s !! x with Some v => thread_id v | None => 0%Z end.

(** A thread is blocked on a mutex there is, held by a thread there is. *)
Definition linked (s : kernel_state) : Prop := forall x v m, tcbs s !! x = Some v -> blocked_on v = Some m ->
  exists mx, mutexes s !! m = Some mx /\ forall o, owner mx = Some o -> is_Some (tcbs s !! o).

Section still.
Context (s : kernel_state) (Hl : linked s).
Local Abbreviation h := (fun _ : nat => s).

Lemma waits_for_there x y : waits_for s x = Some y -> is_Some (tcbs s !! y).
Proof.
  unfold waits_for. destruct (tcbs s !! x) as [v |] eqn:Hv; [| discriminate]. cbn. destruct (blocked_on v) as [m |] eqn:Hm; [| discriminate]. cbn.
  destruct (Hl x v m Hv Hm) as (mx & Hmx & Ho). rewrite Hmx. cbn. destruct (owner mx) as [o |] eqn:Eo; [| discriminate]. cbn.
  destruct (decide (o = x)); [discriminate |]. intros E. injection E as <-. exact (Ho o eq_refl).
Qed.

Lemma next_holder_still x now : is_Some (tcbs s !! x) -> wp (next_holder h x) (fun r now' => r = waits_for s x /\ now <= now') now.
Proof.
  intros [v Hv]. unfold next_holder. apply wp_bind. eapply wp_load; [rewrite Hv; reflexivity |]. unfold waits_for. rewrite Hv. cbn.
  destruct (blocked_on v) as [m |] eqn:Hm; [| apply wp_ret; split; [reflexivity | lia]]. cbn. destruct (Hl x v m Hv Hm) as (mx & Hmx & Ho).
  apply wp_bind. eapply wp_load; [rewrite Hmx; reflexivity |]. apply wp_ret. split; [| lia]. rewrite Hmx. cbn.
  destruct (owner mx) as [o |]; cbn; [| reflexivity]. destruct (decide (o = x)) as [-> | Hne].
  - rewrite bool_decide_true by reflexivity. reflexivity.
  - rewrite bool_decide_false by congruence. reflexivity.
Qed.

(** [l] are the holders in turn behind [t]; [deadlocked] is a circle closed. *)
Record reported (t : nat) (l : list nat) (r : blocking_chain) : Prop := {
  rp_ids : holders r = ident_of s <$> l;
  rp_path : path (waits_for s) (t :: l);
  rp_once : NoDup (t :: l);
  rp_length : length l <= max_links;
  rp_ends : length l = max_links \/ exists z, last (t :: l) = Some z /\
    match waits_for s z with None => True | Some y => y ∈ t :: l end;
  rp_deadlock : deadlocked r = true <-> exists z y i, last (t :: l) = Some z /\ waits_for s z = Some y /\
    (t :: l) !! i = Some y /\ length l < max_links /\ forallb (is_blocked s) (drop i (t :: l)) = true
}.

Lemma blocking_chain_still t now : is_Some (tcbs s !! t) ->
  wp (blocking_chain_of h (Some t)) (fun r _ => exists l, reported t l r) now.
Proof.
  intros Ht. unfold blocking_chain_of.
  eapply wp_mono; [apply (walk_still (waits_for s) (is_blocked s) (ident_of s) h now (fun x => is_Some (tcbs s !! x)) (fun x y _ => waits_for_there x y))
    with (visited := []) |].
  - intros x n Hx Hn. eapply wp_mono; [apply (next_holder_still x n Hx) |]. intros r n' [-> Hn']. split; [reflexivity | lia].
  - intros x n [v Hv] _. rewrite Hv. unfold ident_of. rewrite Hv. reflexivity.
  - intros x n [v Hv] _. exists (state v). rewrite Hv. unfold is_blocked. rewrite Hv. auto.
  - intros x Hx. apply list_elem_of_singleton in Hx as ->. exact Ht.
  - exact I.
  - exact (le_n now).
  - reflexivity.
  - intros r now' E. cbn [app] in E. destruct (chain_of (waits_for s) max_links [t] t) as [l back] eqn:Ec.
    destruct (chain_of_ends (waits_for s) max_links [] t l back Ec (NoDup_singleton t) I) as (H1 & H2 & H3 & H4). cbn [app] in *.
    exists l. subst r. split; cbn [holders deadlocked]; [reflexivity | exact H2 | exact H1 | exact H3 | |].
    + destruct back as [i |].
      * right. destruct H4 as (_ & z & y & Hz & Hy & Hi). exists z. rewrite Hy. split; [exact Hz | eapply list_elem_of_lookup_2, Hi].
      * destruct H4 as [H4 | (z & Hz & Hy)]; [left; exact H4 | right; exists z; rewrite Hy; auto].
    + unfold verdict. cbn [app]. split.
      * destruct back as [i |]; [| discriminate]. destruct H4 as (H4 & z & y & Hz & Hy & Hi). intros Hb. exists z, y, i. auto.
      * intros (z & y & i & Hz & Hy & Hi & Hlt & Hb). destruct back as [i' |].
        -- destruct H4 as (_ & z' & y' & Hz' & Hy' & Hi'). assert (y' = y) as -> by congruence.
           rewrite (NoDup_lookup _ _ _ _ H1 Hi' Hi). exact Hb.
        -- destruct H4 as [H4 | (z' & Hz' & Hy')]; [lia | congruence].
Qed.
End still.

(** ** While the rest of the system moves *)

(** From [t0] on, each of [ds] is blocked behind the next of them: a deadlock,
    or threads behind one. *)
Definition stuck (h : nat -> kernel_state) (t0 : nat) (ds : list nat) (ahead : nat -> nat) : Prop :=
  forall x, x ∈ ds -> ahead x ∈ ds /\ ahead x <> x /\ exists m id, forall now, t0 <= now ->
    exists v mx, tcbs (h now) !! x = Some v /\ state v = ThreadState.blocked /\ blocked_on v = Some m /\ thread_id v = id /\
      mutexes (h now) !! m = Some mx /\ owner mx = Some (ahead x).

Lemma stuck_edge h t0 ds ahead x now : stuck h t0 ds ahead -> x ∈ ds -> t0 <= now ->
  wp (next_holder h x) (fun r now' => r = Some (ahead x) /\ t0 <= now') now.
Proof.
  intros Hs Hx Hnow. destruct (Hs x Hx) as (_ & Hne & m & id & Hall).
  destruct (Hall now Hnow) as (v & _ & Hv & _ & Hm & _ & _). destruct (Hall (S now) ltac:(lia)) as (_ & mx & _ & _ & _ & _ & Hmx & Ho).
  unfold next_holder. apply wp_bind. eapply wp_load; [rewrite Hv; reflexivity |]. rewrite Hm.
  apply wp_bind. eapply wp_load; [rewrite Hmx; reflexivity |]. apply wp_ret. rewrite Ho, bool_decide_false by congruence. split; [reflexivity | lia].
Qed.

Lemma stuck_reported h t0 ds ahead t : stuck h t0 ds ahead -> t ∈ ds -> length ds <= max_links ->
  wp (blocking_chain_of h (Some t)) (fun r _ => deadlocked r = true) t0.
Proof.
  intros Hs Ht Hlen.
  eapply wp_mono; [apply (walk_still (fun x => Some (ahead x)) (fun _ => true) (ident_of (h t0)) h t0 (fun x => x ∈ ds)) with (visited := []) |].
  - intros x y Hx E. injection E as <-. apply (Hs x Hx).
  - intros x now Hx Hnow. exact (stuck_edge h t0 ds ahead x now Hs Hx Hnow).
  - intros x now Hx Hnow. destruct (Hs x Hx) as (_ & _ & m & id & Hall).
    destruct (Hall now Hnow) as (v & _ & Hv & _ & _ & Ei & _). destruct (Hall t0 ltac:(lia)) as (v0 & _ & Hv0 & _ & _ & Ei0 & _).
    rewrite Hv. unfold ident_of. rewrite Hv0. cbn. congruence.
  - intros x now Hx Hnow. destruct (Hs x Hx) as (_ & _ & m & id & Hall). destruct (Hall now Hnow) as (v & _ & Hv & Hb & _).
    exists (state v). rewrite Hv, bool_decide_true by exact Hb. auto.
  - intros x Hx. apply list_elem_of_singleton in Hx as ->. exact Ht.
  - exact I.
  - exact (le_n t0).
  - reflexivity.
  - intros r now' E. cbn [app] in E. destruct (chain_of (fun x => Some (ahead x)) max_links [t] t) as [l back] eqn:Ec.
    destruct (chain_of_ends _ max_links [] t l back Ec (NoDup_singleton t) I) as (H1 & H2 & H3 & H4). cbn [app] in *. subst r.
    destruct back as [i |]; [unfold verdict; cbn; apply forallb_forall; auto |]. exfalso.
    destruct H4 as [H4 | (z & _ & E)]; [| discriminate].
    assert (Hin : t :: l ⊆ ds).
    { intros x Hx. apply list_elem_of_lookup_1 in Hx as [n Hn]. revert x Hn. induction n as [| n IHn]; intros x Hn.
      - injection Hn as <-. exact Ht.
      - destruct ((t :: l) !! n) as [y |] eqn:Hy; [| apply lookup_lt_Some in Hn; apply lookup_ge_None in Hy; lia].
        pose proof (path_step _ _ n y x H2 Hy Hn) as E. injection E as <-. apply (Hs y (IHn y eq_refl)). }
    pose proof (submseteq_length _ _ (NoDup_submseteq _ _ H1 Hin)). cbn in *. lia.
Qed.

(** ** What a report proves *)

Section sound.
Context (h : nat -> kernel_state).

(** A hop read from [a] to [b]. *)
Definition seen (x y a b : nat) : Prop := next_holder h x a = Ok (Some y, b).

(** No hop read twice was away in between. *)
Definition no_return : Prop := forall x y a a' b b', seen x y a a' -> seen x y b b' -> a' <= b ->
  forall now, a' <= now <= b -> waits_for (h now) x = Some y.

Lemma kbind_Ok {A B} (m : M nat A) (k : A -> M nat B) now b now' : kbind m k now = Ok (b, now') ->
  exists a now1, m now = Ok (a, now1) /\ k a now1 = Ok (b, now').
Proof. unfold kbind. destruct (m now) as [[a now1] |]; [eauto | discriminate]. Qed.

Lemma load_later {A} (f : kernel_state -> option A) now a now' : load h f now = Ok (a, now') -> now' = S now.
Proof. unfold load. destruct (f (h now)); [| discriminate]. intros E. injection E as _ <-. reflexivity. Qed.

Lemma next_holder_later x now r now' : next_holder h x now = Ok (r, now') -> now <= now'.
Proof.
  intros E. unfold next_holder in E. apply kbind_Ok in E as (on & n1 & E1 & E). apply load_later in E1 as ->.
  destruct on as [m |]; [| injection E as _ <-; lia]. apply kbind_Ok in E as (o & n2 & E2 & E). apply load_later in E2 as ->.
  injection E as _ <-. lia.
Qed.

(** [l] read from hop to hop by [now], and round to [first] from [now] on. *)
Fixpoint trail (l : list nat) (now : nat) : Prop :=
  match l with
  | x :: ((y :: _) as rest) => (exists a a', seen x y a a' /\ a' <= now) /\ trail rest now
  | _ => True
  end.

Fixpoint confirmed (first : nat) (l : list nat) (now : nat) : Prop :=
  match l with
  | [] => True
  | x :: rest => (exists b b', seen x (default first (head rest)) b b' /\ now <= b) /\ confirmed first rest now
  end.

Lemma trail_later l now now' : now <= now' -> trail l now -> trail l now'.
Proof.
  intros Hle. induction l as [| x [| y l] IH]; cbn; auto. intros [(a & a' & Hs & Ha) Ht]. split; [exists a, a'; split; [exact Hs | lia] | exact (IH Ht)].
Qed.

Lemma trail_snoc l x y a now : trail (l ++ [x]) a -> seen x y a now -> a <= now -> trail ((l ++ [x]) ++ [y]) now.
Proof.
  intros Ht Hs Hle. apply (trail_later _ _ now Hle) in Ht. rewrite <- app_assoc. induction l as [| z [| z' l] IH]; cbn in *.
  - split; [exists a, now; auto | exact I].
  - destruct Ht as [Hz Ht]. split; [exact Hz | split; [exists a, now; auto | exact I]].
  - destruct Ht as [Hz Ht]. split; [exact Hz | exact (IH Ht)].
Qed.

Lemma trail_drop n l now : trail l now -> trail (drop n l) now.
Proof.
  revert l. induction n as [| n IH]; intros [| x l] Ht; try exact Ht. cbn [drop]. apply IH.
  destruct l as [| y l]; [exact I | apply Ht].
Qed.

Lemma confirmed_later first l now now' : now <= now' -> confirmed first l now' -> confirmed first l now.
Proof.
  intros Hle. induction l as [| x l IH]; cbn; auto. intros [(b & b' & Hs & Hb) Hc]. split; [exists b, b'; split; [exact Hs | lia] | exact (IH Hc)].
Qed.

Lemma confirm_from_reads first l : forall now now', confirm_from h first l now = Ok (true, now') -> confirmed first l now.
Proof.
  induction l as [| x l IH]; intros now now' E; cbn [confirm_from confirmed] in *; [exact I |].
  apply kbind_Ok in E as (st & n1 & E1 & E). apply load_later in E1 as ->. destruct (negb _); [discriminate |].
  apply kbind_Ok in E as (r & n2 & E2 & E). pose proof (next_holder_later _ _ _ _ E2) as Hle.
  destruct (bool_decide_reflect (r = Some (default first (head l)))) as [-> |]; cbn [negb] in E; [| discriminate].
  split; [exists (S now), n2; split; [exact E2 | lia] |]. apply confirmed_later with n2; [lia | exact (IH n2 now' E)].
Qed.

(** Read both ways, it held in between: at the time of the confirmation. *)
Lemma held_between first l x z now : no_return -> trail (l ++ [x]) now -> confirmed first (l ++ [x]) now -> seen x first z now ->
  closes (waits_for (h now)) first (l ++ [x]).
Proof.
  intros Hn Ht Hc Hx. induction l as [| a l IH]; cbn in Ht, Hc |- *.
  - destruct Hc as [(b & b' & Hb & Hle) _]. split; [| exact I]. apply (Hn x first z now b b' Hx Hb Hle). lia.
  - destruct Hc as [(b & b' & Hb & Hle) Hc].
    assert (Hab : exists c c', seen a (default first (head (l ++ [x]))) c c' /\ c' <= now /\ trail (l ++ [x]) now)
      by (destruct l as [| a' l]; cbn in Ht |- *; destruct Ht as [(c & c' & Hs & Hcle) Ht]; eauto).
    destruct Hab as (c & c' & Hs & Hcle & Ht'). split; [| exact (IH Ht' Hc)].
    apply (Hn a _ c c' b b' Hs Hb); lia.
Qed.

Lemma walk_sound links : no_return -> forall visited current out now r now', trail (visited ++ [current]) now ->
  walk h links (visited ++ [current]) current out now = Ok (r, now') -> deadlocked out = false -> deadlocked r = true ->
  exists at_time first c, c <> [] /\ head c = Some first /\ closes (waits_for (h at_time)) first c.
Proof.
  intros Hn. induction links as [| links IH]; intros visited current out now r now' Ht E Hout Hr; cbn [walk] in E.
  { injection E as <- _. congruence. }
  apply kbind_Ok in E as (holder & n1 & E1 & E). pose proof (next_holder_later _ _ _ _ E1) as Hle.
  destruct holder as [holder |]; [| injection E as <- _; congruence].
  destruct (list_find (fun x => x = holder) (visited ++ [current])) as [[i y] |] eqn:Hf.
  - apply list_find_Some in Hf as (Hi & -> & _). apply kbind_Ok in E as (d & n2 & E2 & E). injection E as <- _. cbn in Hr. subst d.
    unfold confirm_cycle in E2. rewrite Hi in E2. cbn in E2. pose proof (confirm_from_reads _ _ _ _ E2) as Hc.
    exists n1, holder, (drop i (visited ++ [current])). pose proof (lookup_lt_Some _ _ _ Hi) as Hlt. rewrite length_app in Hlt. cbn in Hlt.
    split_and!.
    + rewrite drop_app_le by lia. destruct (drop i visited); discriminate.
    + rewrite (drop_S _ _ _ Hi). reflexivity.
    + apply (trail_later _ _ n1 Hle) in Ht. apply (trail_drop i) in Ht. rewrite drop_app_le in * by lia.
      exact (held_between holder (drop i visited) current now n1 Hn Ht Hc E1).
  - apply kbind_Ok in E as (id & n2 & E2 & E). apply load_later in E2 as ->.
    eapply (IH (visited ++ [current]) holder _ (S n1)); [| exact E | exact Hout | exact Hr].
    apply trail_later with n1; [lia |]. apply trail_snoc with now; [exact Ht | exact E1 | exact Hle].
Qed.
End sound.

(** ** The properties *)

Import Diagnostics.

(** C13: the blocking-chain query is exact. Of a state that stands still it
    reports, as many as [max_links], the holders the thread is transitively
    blocked behind, each once and in order, up to one that waits for nobody or
    that was there already; and it says deadlock just when the chain comes back
    to itself through blocked threads. It ends, on any chain. *)
Theorem blocking_chain_exact (s : kernel_state) (t now : nat) :
  linked s -> is_Some (tcbs s !! t) -> wp (blocking_chain_of (fun _ => s) (Some t)) (fun r _ => exists l, reported s t l r) now.
Proof. intros Hl Ht. exact (blocking_chain_still s Hl t now Ht). Qed.

(** C14: a deadlock is reported, and what is reported was one. Whatever the
    rest of the system does meanwhile, a query of a thread among at most
    [max_links] that are stuck behind each other says deadlock. And when a query
    says so, of any thread and in any history, then at the time of its second
    reading there was a circle of threads each waiting for the next, provided
    that no hop it read twice had gone and come back in between. *)
Theorem deadlock_reports_are_right (h : nat -> kernel_state) (t now : nat) :
  (forall ds ahead, stuck h now ds ahead -> t ∈ ds -> length ds <= max_links ->
     wp (blocking_chain_of h (Some t)) (fun r _ => deadlocked r = true) now) /\
  (no_return h -> forall r now', blocking_chain_of h (Some t) now = Ok (r, now') -> deadlocked r = true ->
     exists at_time first c, c <> [] /\ head c = Some first /\ closes (waits_for (h at_time)) first c).
Proof.
  split.
  - intros ds ahead Hs Ht Hlen. exact (stuck_reported h now ds ahead t Hs Ht Hlen).
  - intros Hn r now' E Hd. eapply (walk_sound h max_links Hn [] t); [exact I | exact E | reflexivity | exact Hd].
Qed.

(** ** Two threads and two mutexes *)
Module DiagnosticsScenario.
Definition waiter (t : nat) (m : option nat) : thread_control_block :=
  set_blocked_on m (Scenario.block t 5 (Z.of_nat t) (if m then ThreadState.blocked else ThreadState.running)).

Definition held_by (t : nat) : base_mutex := BaseMutex (WaitQueue None) (InheritanceCache 255 false) (Some t) 255 0.

Definition system (on1 on2 : option nat) : kernel_state :=
  set_mutexes {[ 10 := held_by 2; 11 := held_by 1 ]} (set_tcbs {[ 1 := waiter 1 on1; 2 := waiter 2 on2 ]} Scenario.start).

(** Each waits for what the other holds. *)
Definition deadlock : kernel_state := system (Some 10) (Some 11).

Lemma deadlock_linked : linked deadlock.
Proof.
  intros x v m Hv Hm. cbn in Hv. apply lookup_insert_Some in Hv as [[_ <-] | [_ Hv]]; [| apply lookup_singleton_Some in Hv as [_ <-]];
    injection Hm as <-; (eexists; split; [reflexivity |]; intros o Eo; injection Eo as <-; eexists; reflexivity).
Qed.

Lemma deadlock_stuck now : stuck (fun _ => deadlock) now [1; 2] (fun x => 3 - x).
Proof.
  intros x Hx. apply elem_of_cons in Hx as [-> | Hx]; [| apply list_elem_of_singleton in Hx as ->];
    (split; [set_solver |]; split; [discriminate |]; do 2 eexists; intros n _; do 2 eexists; split_and!; reflexivity).
Qed.

(** The two wait in turn, never both. *)
Definition in_turn (now : nat) : kernel_state :=
  if (now <? 3) || ((5 <=? now) && (now <? 8)) then system (Some 10) None else system None (Some 11).
End DiagnosticsScenario.

Lemma blocking_chain_exact_witness :
  wp (blocking_chain_of (fun _ => DiagnosticsScenario.deadlock) (Some 1)) (fun r _ => exists l, reported DiagnosticsScenario.deadlock 1 l r) 0.
Proof. apply (blocking_chain_exact DiagnosticsScenario.deadlock 1 0 DiagnosticsScenario.deadlock_linked). eexists. reflexivity. Defined.

Lemma deadlock_reports_are_right_witness :
  wp (blocking_chain_of (fun _ => DiagnosticsScenario.deadlock) (Some 1)) (fun r _ => deadlocked r = true) 0.
Proof.
  apply (proj1 (deadlock_reports_are_right (fun _ => DiagnosticsScenario.deadlock) 1 0) [1; 2] (fun x => 3 - x));
    [apply DiagnosticsScenario.deadlock_stuck | left | cbn; unfold max_links; lia].
Defined.

(** A deadlock that never was: the second reading finds every hop of the
    first again, though no two of them ever held at once. *)
Lemma phantom_deadlock :
  (exists now', blocking_chain_of DiagnosticsScenario.in_turn (Some 1) 0 = Ok (BlockingChain [2%Z] true, now')) /\
  forall now, ~ (waits_for (DiagnosticsScenario.in_turn now) 1 = Some 2 /\ waits_for (DiagnosticsScenario.in_turn now) 2 = Some 1).
Proof.
  split; [eexists; vm_compute; reflexivity |]. intros now. unfold DiagnosticsScenario.in_turn. destruct (_ || _); vm_compute; intros [? ?]; discriminate.
Qed.
