(* ===== verification/StructureProperties.v ===== *)
(** * The properties of the kernel's data structures

    The ready matrix, the wait queue and the urgency fold, each against its
    specification on lists. *)

From S2P Require Import Prelude Chain State ReadyQueue ReadyQueueProofs WaitQueue WaitQueueProofs Urgency UrgencyProofs PickProofs Checks Kernel Scenario.

(** ** Urgency *)

(** C25: a thread's urgency is exact. When the donation tree behind it is
    within the fold's bounds (eight links, four bridges to a queue), [urgency]
    answers the least of everything the thread is entitled to: its own base
    priority, those of its transitive waiters, and the ceilings these hold. *)
Theorem urgency_exact h ns ms t v :
  Urgency.wf h ns ms -> h !! t = Some v ->
  Urgency.fits h ns ms Urgency.max_inheritance_depth t ->
  exists p, Urgency.urgency h ns ms t = Ok p /\ Urgency.entitled h ns ms t p /\
    forall q, Urgency.entitled h ns ms t q -> p <= q.
Proof.
  intros Hwf Hv Hfit. pose proof (urgency_ok h ns ms Hwf False t v Hv (or_intror Hfit)) as Hok.
  apply ok_elim in Hok as (p & -> & Hle & [[[] _] | He]). eauto.
Qed.

(** C26: a thread's urgency is never under-reported, whatever the shape of the
    wait-for graph: the fold finishes, and on a cycle, a chain too deep or a
    queue too wide it errs towards more urgent only. *)
Theorem urgency_never_under h ns ms t v :
  Urgency.wf h ns ms -> h !! t = Some v ->
  exists p, Urgency.urgency h ns ms t = Ok p /\
    (forall q, Urgency.entitled h ns ms t q -> p <= q) /\
    (p = 0 \/ Urgency.entitled h ns ms t p).
Proof.
  intros Hwf Hv. pose proof (urgency_ok h ns ms Hwf True t v Hv (or_introl I)) as Hok.
  apply ok_elim in Hok as (p & -> & Hle & [[_ ->] | He]); eauto 6.
Qed.

(** ** The ready matrix *)

Section matrix_claims.
Context `{Config}.

(** Filing a ready thread, at either end of its level, finishes, puts it
    there in the abstract lists and nowhere else, keeps the bitmap exact, and
    changes no link outside its level. *)
Theorem enqueue_files_at_level (front : bool) h m L t v :
  matrix_repr h m L -> length L = max_priorities -> h !! t = Some v ->
  state v = ThreadState.ready -> base_priority v < max_priorities -> is_enqueued t v = false ->
  exists m' h', (if front then ReadyMatrix.enqueue_thread_front else ReadyMatrix.enqueue_thread) t m h = Ok (m', h') /\
    matrix_repr h' m' ((if front then Levels.push_front else Levels.push_back) (base_priority v) t L) /\
    relinks (t :: Levels.level L (base_priority v)) h h'.
Proof.
  intros Hm HL Hv Hs Hp Hn. pose proof (enqueue_ok front h m L t v Hm HL Hv Hs Hp Hn) as Hok.
  apply ok_elim in Hok as ([m' h'] & -> & Hq). eauto.
Qed.

(** The best thread is the first of the most urgent level with a thread in
    it, found from the bitmap alone; taking it leaves every other level as it
    was, and with nothing filed the matrix answers nothing. *)
Theorem pop_takes_most_urgent h m L :
  matrix_repr h m L ->
  exists r m' h', ReadyMatrix.pop_best_thread m h = Ok (r, m', h') /\
    match r with
    | None => m' = m /\ h' = h /\ forall p, Levels.level L p = []
    | Some t => exists p rest, Levels.level L p = t :: rest /\
        (forall q, q < p -> Levels.level L q = []) /\
        matrix_repr h' m' (<[p := rest]> L) /\ relinks [t] h h' /\
        (exists v, h' !! t = Some v /\ is_enqueued t v = false)
    end.
Proof.
  intros Hm. pose proof (pop_best_ok h m L Hm) as Hok.
  apply ok_elim in Hok as ([[r m'] h'] & -> & Hq). exists r, m', h'. split; [reflexivity |].
  destruct (Levels.best L) as [p |] eqn:Eb.
  - destruct (pop_best _ _ Eb) as (t & l & Hl & E). rewrite E in Hq. destruct Hq as (-> & Hq).
    exists p, l. apply best_spec in Eb as [_ Hlt]. auto.
  - rewrite (pop_none _ Eb) in Hq. destruct Hq as (-> & -> & ->). split_and!; auto. apply best_none, Eb.
Qed.

(** Unfiling a filed thread finishes, takes it and nothing else from its
    level, order kept, leaves it unlinked, and clears the level's bit exactly
    when it was alone there. *)
Theorem remove_unfiles h m L t v :
  matrix_repr h m L -> length L = max_priorities -> h !! t = Some v ->
  t ∈ Levels.level L (base_priority v) ->
  exists m' h', ReadyMatrix.remove_thread t m h = Ok (m', h') /\
    matrix_repr h' m' (Levels.remove (base_priority v) t L) /\
    (Z.testbit (bitmap m') (Z.of_nat (base_priority v)) = false <-> Levels.level L (base_priority v) = [t]) /\
    exists v', h' !! t = Some v' /\ is_enqueued t v' = false.
Proof.
  intros Hm HL Hv Ht. pose proof (remove_thread_ok h m L t v Hm HL Hv Ht) as Hok.
  apply ok_elim in Hok as ([m' h'] & -> & Hm' & _ & Hv'). exists m', h'. split_and!; auto.
  rewrite (mr_bits _ _ _ Hm'), negb_false_iff, bool_decide_eq_true.
  assert (Hp : base_priority v < length L) by (apply level_nonempty_lt; intros E; rewrite E in Ht; inversion Ht).
  unfold Levels.remove. rewrite level_insert, decide_True by auto.
  pose proof (mr_NoDup _ _ _ (base_priority v) Hm) as Hnd. split.
  - intros E. destruct (Levels.level L (base_priority v)) as [| y l] eqn:El; [inversion Ht |].
    destruct l as [| z l]; [apply list_elem_of_singleton in Ht; congruence |]. exfalso.
    assert (Hx : exists x, x ∈ y :: z :: l /\ x <> t).
    { apply NoDup_cons in Hnd as [Hy _]. destruct (decide (y = t)) as [-> | Hne]; [exists z | exists y]; set_solver. }
    destruct Hx as (x & Hx & Hxt). apply (not_elem_of_nil x). rewrite <- E. apply list_elem_of_filter. auto.
  - intros ->. rewrite filter_cons_False by auto. reflexivity.
Qed.

(** One mask of the bitmap answers whether any level above a thread's is
    occupied, for every priority the code can ask about. *)
Theorem has_more_urgent_exact h m L p :
  matrix_repr h m L -> p <= 31 ->
  ReadyMatrix.has_more_urgent_than m p = true <-> exists k, k < p /\ Levels.level L k <> [].
Proof. intros Hm Hp. apply (has_more_urgent_ok h m L p Hm Hp). Qed.
End matrix_claims.

(** ** The wait queue *)

(** Arming queues a waiter behind every waiter as urgent or more and
    before every other, so first come first served within a priority, and
    leaves the inheritance cache exact. *)
Theorem arm_queues_fifo h ns q l n v o pi excl :
  WaitQueue.repr h ns q l -> hinted h ns excl l pi ->
  ns !! n = Some v -> node_next v = None -> h !! node_owner v = Some o -> n ∉ l ->
  exists q' ns' pi' l1 l2, WaitQueue.arm h n q ns pi = Ok (q', ns', pi') /\
    l = l1 ++ l2 /\ WaitQueue.repr h ns' q' (l1 ++ n :: l2) /\
    (forall x, x ∈ l1 -> WaitQueue.prio h ns x <= WaitQueue.prio h ns n) /\
    (forall x, x ∈ l2 -> WaitQueue.prio h ns n < WaitQueue.prio h ns x) /\
    cached h ns' excl (l1 ++ n :: l2) pi'.
Proof.
  intros Hq Hh Hv Hnx Ho Hn. pose proof (arm_ok h ns q l n v o pi excl Hq Hh Hv Hnx Ho Hn) as Hok.
  apply ok_elim in Hok as ([[q' ns'] pi'] & -> & Hq' & _ & Hc & _).
  destruct (insert_split (WaitQueue.prio h ns) n l (WaitQueue.wr_sorted _ _ _ _ Hq)) as (l1 & l2 & -> & E & H1 & H2).
  rewrite E in *. exists q', ns', pi', l1, l2. split_and!; auto.
Qed.

(** A wake takes the most urgent waiter, the earliest of its priority,
    leaves its node unlinked and the rest queued in order, and refreshes the
    cache to the next waiter's priority. *)
Theorem pop_takes_best_waiter h ns q n l pi excl :
  WaitQueue.repr h ns q (n :: l) -> hinted h ns excl (n :: l) pi ->
  exists v q' ns' pi', ns !! n = Some v /\
    WaitQueue.pop h q ns pi = Ok (Some (node_owner v), q', ns', pi') /\
    WaitQueue.repr h ns' q' l /\ (exists w, ns' !! n = Some w /\ node_next w = None) /\
    (forall x, x ∈ l -> WaitQueue.prio h ns n <= WaitQueue.prio h ns x) /\
    cached h ns' excl l pi'.
Proof.
  intros Hq Hh. pose proof (pop_ok h ns q n l pi excl Hq Hh) as Hok.
  apply ok_elim in Hok as ([[[r q'] ns'] pi'] & -> & (v & Hv & ->) & Hq' & _ & Hc & _ & Hw).
  exists v, q', ns', pi'. split_and!; auto. intros x Hx.
  pose proof (WaitQueue.wr_sorted _ _ _ _ Hq) as Hs. apply StronglySorted_inv in Hs as [_ Hs].
  rewrite Forall_forall in Hs. apply Hs, Hx.
Qed.

(** Disarming answers whether the node was still queued, removes it and
    nothing else when it was, changes nothing when a wake had taken it, and
    so may be called once whichever came first. *)
Theorem disarm_answers_presence h ns q l n pi excl :
  WaitQueue.repr h ns q l -> cached h ns excl l pi ->
  exists q' ns' pi', WaitQueue.disarm h n q ns pi = Ok (bool_decide (n ∈ l), q', ns', pi') /\
    WaitQueue.repr h ns' q' (filter (fun x => x <> n) l) /\
    cached h ns' excl (filter (fun x => x <> n) l) pi' /\
    (n ∉ l -> q' = q /\ ns' = ns /\ pi' = pi).
Proof.
  intros Hq Hc. destruct (decide (n ∈ l)) as [Hn | Hn].
  - pose proof (disarm_ok h ns q l n pi excl Hq Hc Hn) as Hok.
    apply ok_elim in Hok as ([[[f q'] ns'] pi'] & -> & -> & Hq' & _ & Hc' & _).
    exists q', ns', pi'. rewrite bool_decide_true by exact Hn. split_and!; auto. intros Hx. contradiction.
  - rewrite (disarm_absent h ns q l n pi Hq Hn), bool_decide_false by exact Hn.
    assert (E : filter (fun x => x <> n) l = l) by (apply filter_keep_all; intros x Hx ->; contradiction).
    rewrite E. exists q, ns, pi. split_and!; auto.
Qed.

(** ** Instances *)

(** Thread 1 holds mutex 50, ceiling 6; thread 2, at 3, waits for it and
    itself holds mutex 51, for which thread 3 waits at 1. *)
Section donation.
Local Definition plain (priority : nat) : thread_control_block := Kernel.new_tcb 0 priority 1.
Definition holding (m : nat) (v : thread_control_block) : thread_control_block :=
  set_held_mask 1 (set_held_slots [Some m; None; None; None] v).

Definition chain_blocks : heap := {[ 1 := holding 50 (plain 9); 2 := holding 51 (plain 3); 3 := plain 1; 4 := plain 5 ]}.
Definition chain_nodes : node_heap := {[ 60 := WaitNode 2 None; 61 := WaitNode 3 None; 62 := WaitNode 4 None ]}.
Definition chain_mutexes : gmap nat base_mutex :=
  {[ 50 := BaseMutex (WaitQueue (Some 60)) (InheritanceCache 3 true) (Some 1) 6 0;
     51 := BaseMutex (WaitQueue (Some 61)) (InheritanceCache 1 false) (Some 2) 255 0 ]}.

Definition chain_waiting (m : nat) : list nat := if m =? 50 then [60] else [61].

Lemma chain_wf : Urgency.wf chain_blocks chain_nodes chain_mutexes.
Proof. apply (wf_b_spec _ _ _ chain_waiting). vm_compute. reflexivity. Qed.

Lemma chain_repr : forall m mx, chain_mutexes !! m = Some mx ->
  WaitQueue.repr chain_blocks chain_nodes (mutex_queue mx) (chain_waiting m).
Proof. intros m mx Hm. eapply (wf_b_repr _ _ chain_mutexes); [vm_compute; reflexivity | exact Hm]. Qed.
End donation.

Lemma urgency_never_under_witness :
  exists p, Urgency.urgency chain_blocks chain_nodes chain_mutexes 1 = Ok p /\
    (forall q, Urgency.entitled chain_blocks chain_nodes chain_mutexes 1 q -> p <= q) /\
    (p = 0 \/ Urgency.entitled chain_blocks chain_nodes chain_mutexes 1 p).
Proof. eapply urgency_never_under; [exact chain_wf | vm_compute; reflexivity]. Defined.

Lemma urgency_exact_witness :
  exists p, Urgency.urgency chain_blocks chain_nodes chain_mutexes 1 = Ok p /\
    Urgency.entitled chain_blocks chain_nodes chain_mutexes 1 p /\
    forall q, Urgency.entitled chain_blocks chain_nodes chain_mutexes 1 q -> p <= q.
Proof.
  eapply urgency_exact; [exact chain_wf | vm_compute; reflexivity |].
  eapply (fits_b_spec _ _ _ chain_waiting chain_repr). vm_compute. reflexivity.
Defined.

Lemma scenario_matrix : matrix_repr Scenario.blocks Scenario.ready Scenario.levels.
Proof. apply matrix_b_spec. vm_compute. reflexivity. Qed.

Definition fresh_block : thread_control_block := Scenario.block 9 5 9 ThreadState.ready.

Lemma enqueue_files_at_level_witness :
  exists m' h', ReadyMatrix.enqueue_thread 9 Scenario.ready (<[9 := fresh_block]> Scenario.blocks) = Ok (m', h') /\
    matrix_repr h' m' (Levels.push_back 5 9 Scenario.levels) /\
    relinks (9 :: Levels.level Scenario.levels 5) (<[9 := fresh_block]> Scenario.blocks) h'.
Proof.
  refine (enqueue_files_at_level false _ _ _ 9 fresh_block _ _ _ _ _ _).
  - apply matrix_b_spec. vm_compute. reflexivity.
  - reflexivity.
  - vm_compute. reflexivity.
  - reflexivity.
  - cbn. lia.
  - reflexivity.
Defined.

Lemma pop_takes_most_urgent_witness :
  exists m' h', ReadyMatrix.pop_best_thread Scenario.ready Scenario.blocks = Ok (Some 2, m', h').
Proof.
  destruct (pop_takes_most_urgent _ _ _ scenario_matrix) as (r & m' & h' & E & _). exists m', h'. rewrite E.
  vm_compute in E. injection E as <- _ _. reflexivity.
Defined.

Lemma remove_unfiles_witness :
  exists m' h', ReadyMatrix.remove_thread 3 Scenario.ready Scenario.blocks = Ok (m', h') /\
    matrix_repr h' m' (Levels.remove 5 3 Scenario.levels) /\
    (Z.testbit (bitmap m') 5 = false <-> Levels.level Scenario.levels 5 = [3]) /\
    exists v', h' !! 3 = Some v' /\ is_enqueued 3 v' = false.
Proof.
  refine (remove_unfiles _ _ _ 3 (set_next None (Scenario.block 3 5 3 ThreadState.ready)) scenario_matrix _ _ _);
    [reflexivity | vm_compute; reflexivity | vm_compute; right; left].
Defined.

Lemma has_more_urgent_exact_witness :
  ReadyMatrix.has_more_urgent_than Scenario.ready 6 = true <-> exists k, k < 6 /\ Levels.level Scenario.levels k <> [].
Proof. apply (has_more_urgent_exact _ _ _ 6 scenario_matrix). lia. Defined.

(** A queue with waiter 2, at 3, on it; 4, at 5, joins. *)
Lemma two_waiters : WaitQueue.repr chain_blocks chain_nodes (WaitQueue (Some 60)) [60].
Proof. apply waiters_b_spec. vm_compute. reflexivity. Qed.

Lemma two_cached : cached chain_blocks chain_nodes None [60] (Some (InheritanceCache 3 true)).
Proof. apply (cache_b_spec _ _ None). vm_compute. reflexivity. Qed.

Lemma arm_queues_fifo_witness :
  exists q' ns' pi' l1 l2,
    WaitQueue.arm chain_blocks 62 (WaitQueue (Some 60)) chain_nodes (Some (InheritanceCache 3 true)) = Ok (q', ns', pi') /\
    [60] = l1 ++ l2 /\ WaitQueue.repr chain_blocks ns' q' (l1 ++ 62 :: l2) /\
    (forall x, x ∈ l1 -> WaitQueue.prio chain_blocks chain_nodes x <= WaitQueue.prio chain_blocks chain_nodes 62) /\
    (forall x, x ∈ l2 -> WaitQueue.prio chain_blocks chain_nodes 62 < WaitQueue.prio chain_blocks chain_nodes x) /\
    cached chain_blocks ns' None (l1 ++ 62 :: l2) pi'.
Proof.
  eapply arm_queues_fifo; [exact two_waiters | apply cached_hinted, two_cached | vm_compute; reflexivity
    | reflexivity | vm_compute; reflexivity | set_solver].
Defined.

Lemma pop_takes_best_waiter_witness :
  exists v q' ns' pi', chain_nodes !! 60 = Some v /\
    WaitQueue.pop chain_blocks (WaitQueue (Some 60)) chain_nodes (Some (InheritanceCache 3 true)) = Ok (Some (node_owner v), q', ns', pi') /\
    WaitQueue.repr chain_blocks ns' q' [] /\ (exists w, ns' !! 60 = Some w /\ node_next w = None) /\
    (forall x, x ∈ [] -> WaitQueue.prio chain_blocks chain_nodes 60 <= WaitQueue.prio chain_blocks chain_nodes x) /\
    cached chain_blocks ns' None [] pi'.
Proof. eapply pop_takes_best_waiter; [exact two_waiters | apply cached_hinted, two_cached]. Defined.

Lemma disarm_answers_presence_witness :
  exists q' ns' pi',
    WaitQueue.disarm chain_blocks 60 (WaitQueue (Some 60)) chain_nodes (Some (InheritanceCache 3 true)) =
      Ok (bool_decide (60 ∈ [60]), q', ns', pi') /\
    WaitQueue.repr chain_blocks ns' q' (filter (fun x => x <> 60) [60]) /\
    cached chain_blocks ns' None (filter (fun x => x <> 60) [60]) pi' /\
    (60 ∉ [60] -> q' = WaitQueue (Some 60) /\ ns' = chain_nodes /\ pi' = Some (InheritanceCache 3 true)).
Proof. eapply disarm_answers_presence; [exact two_waiters | exact two_cached]. Defined.
