(* ===== verification/Properties.v ===== *)
(** * The properties of scheduling

    Each theorem is one claim about the code, and each that assumes something
    of the state it starts in has an instance at a concrete one ([Scenario]). *)

From S2P Require Import Prelude Chain State ReadyQueue ReadyQueueProofs WaitQueue WaitQueueProofs Urgency UrgencyProofs Scheduler SchedulerSpec Local SchedulerProofs DispatchProofs PickProofs Switch RoadProofs SwitchProofs Checks Kernel Scenario.

(** ** Wakes and switches *)

Section switching.
Context `{Config}.

(** C3: no wake is lost between a thread's decision to block and its park.
    A thread that armed a wait (its disposition is prepared) and parks while
    its wake-up, posted by another core, sits on the intake, is afterwards
    running or ready, never blocked; the park finishes with no check failed. *)
Theorem park_keeps_wake cx c s sc L Hs I t v :
  core_inv c s sc L Hs (Some t) I -> tcbs s !! t = Some v -> t ∈ I ->
  disposition v = ThreadDisposition.prepared -> idle_thread sc <> Some t ->
  this_core cx = c -> masked_from_baseline cx = true ->
  wp (Switch.commit_to_block cx t)
    (fun _ s' => exists next sc' L' Hs' w, core_inv c s' sc' L' Hs' (Some next) [] /\
       tcbs s' !! t = Some w /\ (state w = ThreadState.running \/ state w = ThreadState.ready)) s.
Proof.
  intros Hinv Hv Ht Hd Hi Hcx Hb. unfold Switch.commit_to_block.
  apply wp_bind. eapply wp_get_tcb; [exact Hv |]. rewrite bool_decide_true, Hcx by exact Hd. cbn [negb].
  eapply wp_mono; [apply (park_outcome cx c s sc L Hs I t v Hinv Hv); assumption |].
  intros _ s' (next & sc' & L' & Hs' & rotor' & Esw & Hinv' & _). exists next, sc', L', Hs'.
  pose proof (co_status _ _ _ _ _ _ (ci_core _ _ _ _ _ _ _ Hinv')) as Hst.
  assert (Hf : is_finished v = false) by (apply (running_unfinished c s sc L Hs I t v); congruence).
  destruct (switched_woken c s sc L Hs I t v Hinv Hv _ _ Ht Hf Hi _ _ _ _ Esw) as [-> | Hl].
  - destruct (st_run _ _ _ _ _ _ Hst t eq_refl) as (w & Hw & _ & Hr). eauto 6.
  - destruct (st_listed _ _ _ _ _ _ Hst t Hl) as (w & Hw & _ & Hr & _). eauto 6.
Qed.

(** A preempted thread keeps its turn. A thread that wakes a more urgent
    one at baseline, or whose interrupt does, stops running at once, in
    favour of the thread woken or of one at least as urgent, and is first at
    its own level. *)
Theorem preempted_keeps_turn cx c s sc L Hs prev pv t v policy :
  core_inv c s sc L Hs (Some prev) [] -> tcbs s !! prev = Some pv -> tcbs s !! t = Some v ->
  pinned_core v = c -> state v = ThreadState.blocked -> is_finished v = false ->
  idle_thread sc <> Some t -> idle_thread sc <> Some prev -> holds_nothing pv = true ->
  urg s (tcbs s) t < urg s (tcbs s) prev -> may_switch cx policy = true ->
  wp (Switch.set_thread_ready cx c t policy)
    (fun r s' => r = ScheduleHint.rescheduled /\
       exists next sc' L' Hs', core_inv c s' sc' L' Hs' (Some next) [] /\ next <> prev /\
         (next = t \/ urg s' (tcbs s') next <= urg s (tcbs s) t) /\
         head (Levels.level L' (base_priority pv)) = Some prev) s.
Proof.
  intros Hinv Hpv Hv Hp Hb Hf Hi Hip Hn Hlt Hmay. pose proof (ci_core _ _ _ _ _ _ _ Hinv) as Hok.
  assert (Hne : t <> prev) by (intros ->; lia).
  eapply wp_mono; [apply (set_thread_ready_outcome cx c s sc L Hs [] prev t v policy); assumption |].
  intros r s' (s1 & sc1 & L1 & Hs1 & Hout & Em & Hinv1 & Ei & Hres).
  destruct (ready_outcome_competes _ _ _ _ _ _ _ _ _ _ _ _ _ Hinv Hv Hp Hi Hb Hf Hout Em) as [Hcomp Hmoves].
  assert (Eh : ready_hint s sc (tcbs s) t v L Hs = ScheduleHint.warranted).
  { unfold ready_hint, current_urg. rewrite Hmoves, (co_run _ _ _ _ _ _ Hok prev eq_refl). cbn [andb].
    rewrite (proj2 (Nat.ltb_lt _ _) Hlt). reflexivity. }
  rewrite Eh, Hmay in Hres. cbn in Hres. destruct Hres as [-> Hsw]. split; [reflexivity |].
  destruct Hout as (sc1' & _ & _ & Hloc1 & _).
  destruct (view_transfer _ _ (lc_urgency _ _ _ Hloc1) prev pv Hpv) as (w & Hw & E1 & _ & E3).
  assert (Hnw : holds_nothing w = true) by (unfold holds_nothing in *; rewrite E3; exact Hn).
  assert (Ee : (if holds_nothing v then base_priority v else urg s (tcbs s) t) = urg s (tcbs s) t)
    by (destruct (holds_nothing v) eqn:Ehn; [symmetry; apply urg_holds_nothing; assumption | reflexivity]).
  rewrite Ee in Hcomp. rewrite (urg_holds_nothing s (tcbs s) prev pv Hpv Hn), <- E1 in Hlt. rewrite <- E1.
  apply (preempted_outcome c s1 sc1 L1 Hs1 prev w s' t (urg s (tcbs s) t) Hinv1 Hw Hnw); [congruence | | exact Hlt | exact Hsw].
  destruct Hcomp as [Hc | [Hc Ec]]; [left; exact Hc | right; split; [exact Hc |]].
  rewrite (local_urg _ _ _ _ Hloc1). exact Ec.
Qed.

(** A yield gives every equal its turn first: the thread that yields
    with others ready at its level stops running and is last there. *)
Theorem yield_rotates cx c s sc L Hs prev v :
  core_inv c s sc L Hs (Some prev) [] -> tcbs s !! prev = Some v -> masked_from_baseline cx = true ->
  holds_nothing v = true -> idle_thread sc <> Some prev -> Levels.level L (base_priority v) <> [] ->
  wp (Switch.yield cx c)
    (fun _ s' => exists next sc' L' Hs', core_inv c s' sc' L' Hs' (Some next) [] /\ next <> prev /\
       last (Levels.level L' (base_priority v)) = Some prev) s.
Proof.
  intros Hinv Hv Hb Hn Hi Hne. eapply wp_mono; [apply (yield_outcome cx c s sc L Hs [] prev v); assumption |].
  intros ? s'. apply (yielded_outcome c s sc L Hs prev v); assumption.
Qed.

(** C4: a yield finishes with no check failed, keeps the core's invariant,
    does to the core's lists what the abstract switch does, leaves the
    intake empty, runs a thread at least as urgent as every thread filed,
    and touches no other core. *)
Theorem yield_switches cx c s sc L Hs prev I v :
  core_inv c s sc L Hs (Some prev) I -> tcbs s !! prev = Some v -> masked_from_baseline cx = true ->
  wp (Switch.yield cx c) (fun _ s' => switch_outcome c s sc L Hs I DepartureReason.yielded prev s') s.
Proof. apply yield_outcome. Qed.

(** C29: a wake from this core files the thread once, whatever state it is
    in, keeps the core's invariant, asks for a switch exactly when it moved
    the thread and it is now the more urgent, and switches exactly when it
    may. *)
Theorem wake_files_and_switches cx c s sc L Hs I prev t v policy :
  core_inv c s sc L Hs (Some prev) I -> tcbs s !! t = Some v ->
  pinned_core v = c -> t <> prev ->
  wp (Switch.set_thread_ready cx c t policy)
    (fun r s' => exists s1 sc1 L1 Hs1,
       ready_outcome c s sc L Hs (Some prev) I t v (ready_hint s sc (tcbs s) t v L Hs) s1 /\
       made_ready (idle_thread sc) t v L Hs = (L1, Hs1) /\
       core_inv c s1 sc1 L1 Hs1 (Some prev) I /\ idle_thread sc1 = idle_thread sc /\
       if bool_decide (ready_hint s sc (tcbs s) t v L Hs = ScheduleHint.warranted) && may_switch cx policy then
         r = ScheduleHint.rescheduled /\ switch_outcome c s1 sc1 L1 Hs1 I DepartureReason.preempted prev s'
       else r = ready_hint s sc (tcbs s) t v L Hs /\ s' = s1) s.
Proof. apply set_thread_ready_outcome. Qed.
End switching.

(** Instances. *)
Section switching_instances.
Import Scenario.

Definition preparing : kernel_state :=
  set_tcbs (alter (set_disposition ThreadDisposition.prepared) 7
    (alter (set_state ThreadState.running) 7 (alter (set_state ThreadState.blocked) 1 blocks)))
    (set_schedulers (set_current_thread (Some 7) (core0 (Some 7)) :: replicate 3 Kernel.new_scheduler) start).

Lemma preparing_inv : core_inv 0 preparing (set_current_thread (Some 7) (core0 (Some 7))) levels [4] (Some 7) [7].
Proof.
  split; [reflexivity | apply core_b_spec; vm_compute; reflexivity | | apply intake_b_spec; vm_compute; reflexivity | discriminate].
  apply (wf_b_spec _ _ _ (fun _ => [60])). vm_compute. reflexivity.
Qed.
End switching_instances.

Lemma park_keeps_wake_witness :
  wp (Switch.commit_to_block Scenario.at_baseline 7)
    (fun _ s' => exists next sc' L' Hs' w, core_inv 0 s' sc' L' Hs' (Some next) [] /\
       tcbs s' !! 7 = Some w /\ (state w = ThreadState.running \/ state w = ThreadState.ready)) preparing.
Proof.
  eapply park_keeps_wake; [exact preparing_inv | vm_compute; reflexivity | left | reflexivity | discriminate | reflexivity | reflexivity].
Defined.

Lemma preempted_keeps_turn_witness :
  wp (Switch.set_thread_ready Scenario.at_baseline 0 8 ReschedulePolicy.automatic)
    (fun r s' => r = ScheduleHint.rescheduled /\
       exists next sc' L' Hs', core_inv 0 s' sc' L' Hs' (Some next) [] /\ next <> 1 /\
         (next = 8 \/ urg s' (tcbs s') next <= urg Scenario.settled (tcbs Scenario.settled) 8) /\
         head (Levels.level L' 5) = Some 1) Scenario.settled.
Proof.
  refine (preempted_keeps_turn _ _ _ _ _ _ 1 (Scenario.block 1 5 1 ThreadState.running) 8 (Scenario.block 8 2 8 ThreadState.blocked) _ Scenario.settled_inv _ _ _ _ _ _ _ _ _ _);
    [vm_compute; reflexivity | vm_compute; reflexivity | reflexivity | reflexivity | reflexivity | discriminate
    | discriminate | reflexivity | vm_compute; lia | reflexivity].
Defined.

Lemma yield_rotates_witness :
  wp (Switch.yield Scenario.at_baseline 0)
    (fun _ s' => exists next sc' L' Hs', core_inv 0 s' sc' L' Hs' (Some next) [] /\ next <> 1 /\
       last (Levels.level L' 5) = Some 1) Scenario.settled.
Proof.
  refine (yield_rotates _ _ _ _ _ _ 1 (Scenario.block 1 5 1 ThreadState.running) Scenario.settled_inv _ _ _ _ _);
    [vm_compute; reflexivity | reflexivity | reflexivity | discriminate | discriminate].
Defined.

Lemma yield_switches_witness :
  wp (Switch.yield Scenario.at_baseline 0)
    (fun _ s' => switch_outcome 0 Scenario.start (Scenario.core0 (Some 7)) Scenario.levels [4] [7]
       DepartureReason.yielded 1 s') Scenario.start.
Proof. refine (yield_switches _ _ _ _ _ _ 1 _ _ Scenario.start_inv _ _); [vm_compute; reflexivity | reflexivity]. Defined.

Lemma wake_files_and_switches_witness :
  wp (Switch.set_thread_ready Scenario.at_baseline 0 8 ReschedulePolicy.never)
    (fun r _ => r = ScheduleHint.warranted) Scenario.settled.
Proof.
  eapply wp_mono.
  - refine (wake_files_and_switches _ _ _ _ _ _ _ 1 8 _ ReschedulePolicy.never Scenario.settled_inv _ _ _);
      [vm_compute; reflexivity | reflexivity | discriminate].
  - intros r s' (s1 & sc1 & L1 & Hs1 & _ & _ & _ & _ & Hres). destruct Hres as [-> _]. vm_compute. reflexivity.
Defined.
