(* ===== verification/KernelProperties.v ===== *)
(** * The properties of the kernel's entry points

    Exit, wakes from other cores, the handler's road, ties, placement and
    initialisation, which from the kernel's zeroed state leaves every core with
    an idle thread, nothing filed, nothing running and an empty intake. *)

From S2P Require Import Prelude Chain State ReadyQueue ReadyQueueProofs WaitQueue WaitQueueProofs Urgency UrgencyProofs Scheduler SchedulerSpec Local SchedulerProofs DispatchProofs PickProofs Switch RoadProofs SwitchProofs Cores ExitProofs Checks Kernel WakeProofs Scenario.

Section init.
Context `{Config} (idle : nat -> nat).

Definition idle_tcb (d : nat) : thread_control_block :=
  set_pinned_core d (set_state ThreadState.ready (set_thread_id Kernel.idle_thread_id
    (Kernel.new_tcb (idle d) (max_priorities - 1) (Kernel.from_id d)))).

Definition idle_scheduler (d : nat) : scheduler := set_idle_thread (Some (idle d)) (set_core_id d Kernel.new_scheduler).

(** The first [k] cores initialised. *)
Record booted (k : nat) (s : kernel_state) : Prop := {
  bo_cores : length (schedulers s) = cores;
  bo_done : forall d, d < k -> schedulers s !! d = Some (idle_scheduler d);
  bo_todo : forall d, k <= d < cores -> schedulers s !! d = Some Kernel.new_scheduler;
  bo_blocks : forall x v, tcbs s !! x = Some v <-> exists d, d < k /\ x = idle d /\ v = idle_tcb d;
  bo_mutexes : mutexes s = ∅
}.

Lemma initialise_ok k s : k < cores -> booted k s -> (forall d, d < k -> idle d <> idle k) ->
  wp (Kernel.initialise k k (idle k))
    (fun _ s' => booted (S k) s' /\ initialised s' = initialised s /\ running s' = running s /\
       active_threads s' = active_threads s /\ thread_id_generator s' = thread_id_generator s) s.
Proof.
  intros Hk [H1 H2 H3 H4 H5] Hne. unfold Kernel.initialise. apply wp_bind, wp_ensure; [apply Nat.ltb_lt, Hk |].
  apply wp_bind. eapply wp_modify_scheduler; [apply H3; lia |]. apply wp_bind, wp_modify, wp_bind.
  eapply wp_modify_scheduler; [apply list_lookup_insert_eq; lia |]. cbn [schedulers set_schedulers set_tcbs tcbs].
  rewrite list_insert_insert_eq.
  apply wp_bind. eapply wp_modify_tcb; [apply lookup_insert_eq |]. apply wp_bind. eapply wp_modify_tcb; [apply lookup_insert_eq |].
  eapply wp_modify_tcb; [apply lookup_insert_eq |]. cbn [schedulers set_schedulers set_tcbs tcbs]. rewrite !insert_insert_eq.
  split; [| auto]. split; cbn.
  - rewrite length_insert. exact H1.
  - intros d Hd. destruct (decide (d = k)) as [-> | Hdk]; [apply list_lookup_insert_eq; lia |].
    rewrite list_lookup_insert_ne by congruence. apply H2. lia.
  - intros d Hd. rewrite list_lookup_insert_ne by lia. apply H3. lia.
  - intros x v. destruct (decide (x = idle k)) as [-> | Hx].
    + rewrite lookup_insert_eq. split; [intros [= <-]; exists k; split_and!; [lia | reflexivity | reflexivity] |].
      intros (d & Hd & Ed & ->). assert (d = k) as ->; [| reflexivity].
      destruct (decide (d = k)) as [| Hdk]; [assumption |]. destruct (Hne d ltac:(lia)). congruence.
    + rewrite lookup_insert_ne by congruence. rewrite H4. split; intros (d & Hd & -> & ->).
      * exists d. split_and!; [lia | reflexivity | reflexivity].
      * exists d. split_and!; [| reflexivity | reflexivity]. destruct (decide (d = k)) as [-> |]; [contradiction | lia].
  - exact H5.
Qed.

Lemma initialise_cores_ok todo : forall k s, k + todo = cores -> booted k s ->
  (forall d e, d < e -> e < cores -> idle d <> idle e) ->
  wp (Kernel.initialise_cores todo k idle)
    (fun _ s' => booted cores s' /\ initialised s' = initialised s /\ running s' = running s /\
       active_threads s' = active_threads s /\ thread_id_generator s' = thread_id_generator s) s.
Proof.
  induction todo as [| todo IH]; intros k s Hk Hb Hinj; cbn [Kernel.initialise_cores].
  - apply wp_ret. assert (k = cores) as -> by lia. auto.
  - apply wp_bind. eapply wp_mono; [apply (initialise_ok k s ltac:(lia) Hb)|].
    { intros d Hd. apply Hinj; lia. }
    intros ? s1 (Hb1 & E1 & E2 & E3 & E4). eapply wp_mono; [apply (IH (S k) s1 ltac:(lia) Hb1 Hinj) |].
    intros ? s2 (Hb2 & F1 & F2 & F3 & F4). split_and!; congruence || assumption.
Qed.

(** No thread but the idle ones, on no core but their own. *)
Lemma booted_core s d : booted cores s -> (forall d e, d < e -> e < cores -> idle d <> idle e) -> d < cores ->
  core_inv d s (idle_scheduler d) (replicate max_priorities []) [] None [].
Proof.
  intros [H1 H2 H3 H4 H5] Hinj Hd.
  assert (Hown : forall x v, tcbs s !! x = Some v -> pinned_core v = d -> x = idle d /\ v = idle_tcb d).
  { intros x v Hv Hp. apply H4 in Hv as (e & He & -> & ->). unfold idle_tcb in Hp. cbn in Hp. subst e. auto. }
  assert (Hmine : tcbs s !! idle d = Some (idle_tcb d)) by (apply H4; eauto).
  assert (Hlev : forall p, Levels.level (replicate max_priorities []) p = []).
  { intros p. unfold Levels.level. destruct (replicate max_priorities [] !! p) as [l |] eqn:E; [| reflexivity].
    apply lookup_replicate in E as [-> _]. reflexivity. }
  assert (Hnone : forall t, ~ listed (replicate max_priorities []) [] t).
  { intros t [[p Hx] | Hx]; [rewrite Hlev in Hx |]; inversion Hx. }
  assert (Hend : forall t v, is_enqueued t v = false -> is_enqueued t v = true -> False) by congruence.
  split.
  - apply H2, Hd.
  - split; [reflexivity | | | discriminate | discriminate].
    + split.
      * split; cbn; [| lia | intros p; rewrite Hlev, Z.bits_0; reflexivity | intros p t; rewrite Hlev; inversion 1].
        apply Forall2_replicate. split; reflexivity.
      * apply length_replicate.
      * split; reflexivity.
      * intros t v Hv Hp He. destruct (Hown t v Hv Hp) as [-> ->]. unfold is_enqueued in He. cbn in He.
        rewrite bool_decide_true in He by reflexivity. discriminate.
      * intros t v Hv Hp He. destruct (Hown t v Hv Hp) as [-> ->]. unfold is_listed_holder in He. cbn in He.
        rewrite bool_decide_true in He by reflexivity. discriminate.
    + split.
      * intros t Ht. destruct (Hnone t Ht).
      * intros p t Ht. rewrite Hlev in Ht. inversion Ht.
      * intros t v Hv Hp _ Hi. destruct (Hown t v Hv Hp) as [-> _]. destruct Hi. reflexivity.
      * intros t v Hv Hp Hr. destruct (Hown t v Hv Hp) as [-> ->]. discriminate.
      * discriminate.
      * exists (idle d), (idle_tcb d). split_and!; [reflexivity | exact Hmine | reflexivity | left; reflexivity | reflexivity].
      * intros t v Hv Hp. destruct (Hown t v Hv Hp) as [-> ->]. cbn. pose proof max_priorities_valid. lia.
  - rewrite H5. split.
    + intros t v Hv. apply H4 in Hv as (e & _ & _ & ->). pose proof max_priorities_valid. cbn. split_and!; [reflexivity | lia | lia | lia].
    + intros t m (v & i & Hv & Hb & _). apply H4 in Hv as (e & _ & _ & ->). cbn in Hb. rewrite Z.bits_0 in Hb. discriminate.
    + intros m mx Hm. rewrite lookup_empty in Hm. discriminate.
  - split; [reflexivity | intros t Ht; inversion Ht |]. intros t v Hv Hp _. destruct (Hown t v Hv Hp) as [_ ->]. reflexivity.
  - reflexivity.
Qed.

Lemma boot_booted : booted 0 Kernel.boot.
Proof.
  split; [apply length_replicate | lia | intros d Hd; apply lookup_replicate_2; lia | | reflexivity].
  intros x v. cbn. rewrite lookup_empty. split; [discriminate | intros (d & Hd & _); lia].
Qed.

Lemma kernel_initialise_ok : (forall d e, d < e -> e < cores -> idle d <> idle e) ->
  wp (Kernel.kernel_initialise idle)
    (fun _ s' => kernel_inv s' /\ initialised s' = true /\ running s' = false /\ active_threads s' = 0%Z /\
       thread_id_generator s' = 1%Z /\
       forall d, d < cores -> core_inv d s' (idle_scheduler d) (replicate max_priorities []) [] None []) Kernel.boot.
Proof.
  intros Hinj. unfold Kernel.kernel_initialise. apply wp_bind, wp_get, wp_bind, wp_ensure; [reflexivity |].
  apply wp_bind, wp_emit, wp_bind, wp_emit, wp_bind. set (s0 := set_calls _ _).
  assert (Hb0 : booted 0 s0) by (destruct boot_booted; split; assumption).
  eapply wp_mono; [apply (initialise_cores_ok cores 0 s0 eq_refl Hb0 Hinj) |].
  intros ? s1 (Hb1 & E1 & E2 & E3 & E4). apply wp_bind, wp_get, wp_bind, wp_modify, wp_modify.
  set (s2 := set_initialised _ _). assert (Hb2 : booted cores s2) by (destruct Hb1; split; assumption).
  assert (Hall : forall d, d < cores -> core_inv d s2 (idle_scheduler d) (replicate max_priorities []) [] None [])
    by (intros d Hd; apply booted_core; assumption).
  split_and!; [| reflexivity | exact E2 | exact E3 | cbn; rewrite E4; reflexivity | exact Hall].
  split; [apply Hb2 |]. intros d Hd. eauto 8.
Qed.
End init.

Section kernel_claims.
Context `{Config}.

(** C27: an exit retires its thread. The switch away from a thread at the end
    of its life leaves the whole system's invariant; the thread is terminated,
    its termination raised and no waiter left on it; it is no longer counted;
    every joiner not itself finished, on whatever core, has its wake
    delivered; and the core runs another thread, at least as urgent as every
    thread filed, without saving the context of the one that left. *)
Theorem exit_retires cx c s sc L Hs I t v l ts : this_core cx = c -> c < cores ->
  system_inv s -> core_inv c s sc L Hs (Some t) I -> exiting s sc t v l ts ->
  wp (Switch.reschedule cx c)
    (fun _ s' => system_inv s' /\ retired t s' /\ active_threads s' = u32 (active_threads s - 1) /\
       (forall x w, x ∈ ts -> tcbs s !! x = Some w -> is_finished w = false -> delivered x s') /\
       exists next sc' L' Hs' I', core_inv c s' sc' L' Hs' (Some next) I' /\ next <> t /\
         (forall x e, competes (urg s' (tcbs s')) L' Hs' x e -> urg s' (tcbs s') next <= e) /\
         head (calls s') = Some (port_switch c None next)) s.
Proof. apply reschedule_exit. Qed.

(** C5: no wake is lost. A wake for a live thread, made on any core,
    finishes, keeps every core's invariant and touches no scheduler but the
    thread's own. Made on the thread's own core it leaves the thread awake
    there: its wait, if it was preparing one, called off (disposition [none]),
    and the thread running, filed or the core's idle thread. Made on another it
    leaves the thread on its core's intake, whatever the thread was doing, and
    the next draining of that intake leaves it awake in the same sense. *)
Theorem wake_is_delivered cx c s sc L Hs I prev t v policy :
  kernel_inv s -> core_inv c s sc L Hs (Some prev) I ->
  tcbs s !! t = Some v -> pinned_core v = c -> is_finished v = false -> c < cores ->
  wp (Switch.global_ready_thread cx t policy)
    (fun _ s' => kernel_inv s' /\ local c s s' /\
       (1 < cores -> this_core cx <> c ->
          (exists sc', core_inv c s' sc' L Hs (Some prev) (posted I t)) /\
          forall cy, wp (Switch.drain_intake cy c) (fun _ s2 => awake_on c t s2) s') /\
       (cores = 1 \/ this_core cx = c -> awake_on c t s')) s.
Proof.
  intros Hk Hinv Hv Hp Hf Hc. eapply wp_mono; [eapply global_wake_ok; eassumption |].
  intros ? s' (Hk' & Hloc & _ & Ha). split; [exact Hk' |]. split; [exact Hloc |]. eapply arrives_lands, Ha.
Qed.

(** A wake for another core's thread is one push: the intake gains the
    thread unless it was on it already, the lists are untouched, and the
    other core is interrupted exactly when its intake was empty. *)
Theorem remote_wake_posts cx c s sc L Hs I run t v policy :
  core_inv c s sc L Hs run I -> tcbs s !! t = Some v -> pinned_core v = c ->
  is_finished v = false -> c < cores -> this_core cx <> c -> 1 < cores ->
  wp (Switch.global_ready_thread cx t policy)
    (fun r s' => r = ScheduleHint.unwarranted /\
       (exists sc', core_inv c s' sc' L Hs run (posted I t)) /\ local c s s' /\
       calls s' = (if bool_decide (I = []) then [port_send_reschedule_ipi (this_core cx) c] else []) ++
                  trace_point Trace.remote_wake t :: calls s) s.
Proof. apply remote_wake_ok. Qed.

(** An intake is served in the order its wakes came. Draining it files
    each of its threads, behind those already at its level, earliest first,
    and empties it. *)
Theorem intake_served_in_order cx c s sc L Hs run I :
  core_inv c s sc L Hs run I -> NoDup I ->
  (forall t, t ∈ I -> exists v, tcbs s !! t = Some v /\ is_finished v = false /\ holds_nothing v = true /\
     state v = ThreadState.blocked /\ idle_thread sc <> Some t) ->
  wp (Switch.drain_intake cx c)
    (fun _ s' => exists sc' L' run', core_inv c s' sc' L' Hs run' [] /\
       forall p, Levels.level L' p =
         Levels.level L p ++ filter (fun t => base_priority <$> tcbs s !! t = Some p) (reverse I)) s.
Proof.
  intros Hinv Hnd Hplain. pose proof (ci_core _ _ _ _ _ _ _ Hinv) as Hok. pose proof (ci_intake _ _ _ _ _ _ _ Hinv) as Hin.
  eapply wp_mono; [apply (drain_outcome cx c s sc L Hs I run Hinv) |]. intros ? s' Hout.
  pose proof (arrivals_fifo (idle_thread sc) (tcbs s) (reverse I)) as Hfifo.
  specialize (Hfifo ltac:(rewrite reverse_Permutation; exact Hnd)). specialize (Hfifo ltac:(
    intros t Ht; rewrite elem_of_reverse in Ht; destruct (Hplain t Ht) as (v & Hv & Hf & Hh & _ & Hi);
    destruct (in_claimed _ _ _ _ Hin t Ht) as (v' & Hv' & Hp & _); assert (v' = v) as -> by congruence;
    exists v; split_and!; auto; eapply st_priority; [apply Hok | exact Hv | exact Hp])).
  specialize (Hfifo L Hs run (fl_levels _ _ _ _ _ (co_filed _ _ _ _ _ _ Hok))). specialize (Hfifo ltac:(
    intros t Ht; rewrite elem_of_reverse in Ht; destruct (Hplain t Ht) as (v & Hv & _ & _ & Hb & _);
    eapply running_not_listed; [exact Hok | exact Hv | congruence])).
  destruct (arrivals _ _ _ _ _ _) as [[L' Hs'] run']. destruct Hfifo as [-> Hlev]. destruct Hout as (sc' & Hinv' & _). eauto.
Qed.

(** Ties alternate. When the most urgent holder and the most urgent
    level are equal, the pick takes the side the level's rotor bit names and
    flips that bit, and no other. *)
Theorem ties_alternate c s sc L Hs run I t p :
  core_inv c s sc L Hs run I ->
  first_best (urg s (tcbs s)) Hs None 255 = (Some t, p) -> Levels.best L = Some p ->
  wp (pick_next c)
    (fun r s' => r = (if Z.testbit (tie_rotor sc) (Z.of_nat p) then head (Levels.level L p) else Some t) /\
       exists sc', schedulers s' !! c = Some sc' /\
         forall q, Z.testbit (tie_rotor sc') (Z.of_nat q) = xorb (Z.testbit (tie_rotor sc) (Z.of_nat q)) (bool_decide (p = q))) s.
Proof.
  intros Hinv Ef Eb. eapply wp_mono; [apply (pick_tie c s sc L Hs I run Hinv t p Ef Eb) |].
  intros r s' (-> & sc' & Hsc & Er). split; [reflexivity |]. exists sc'. split; [exact Hsc |].
  intros q. rewrite Er, Z.lxor_spec, testbit_bit. reflexivity.
Qed.

(** Waking a thread that is ready already changes nothing: after one
    [make_ready] another returns at once, warrants no switch and leaves the
    state exactly as it was. *)
Theorem second_wake_changes_nothing c s sc L Hs run I t v :
  core_inv c s sc L Hs run I -> tcbs s !! t = Some v -> pinned_core v = c -> idle_thread sc <> Some t ->
  wp (make_ready c t) (fun _ s1 => make_ready c t s1 = Ok (ScheduleHint.unwarranted, s1)) s.
Proof. intros Hinv. eapply make_ready_twice, Hinv. Qed.

(** C28: away from a thread that is not exiting, the handler's road makes the
    decision its own way, a preemption when a more urgent level is ready and no
    holder is about, a rotation otherwise; and then it is the same abstract
    switch, whose last act saves the thread it leaves and loads the one it now
    runs. *)
Theorem handler_switches cx c s sc L Hs I prev v :
  core_inv c s sc L Hs (Some prev) I -> tcbs s !! prev = Some v -> disposition v <> ThreadDisposition.terminating ->
  wp (Switch.reschedule cx c)
    (fun _ s' => switch_outcome c s sc L Hs I (handler_reason (idle_thread sc) (tcbs s) I prev v L Hs) prev s' /\
       exists sc' next rest, schedulers s' !! c = Some sc' /\ current_thread sc' = Some next /\
         calls s' = port_switch c (Some prev) next :: rest) s.
Proof. apply reschedule_outcome. Qed.

(** A thread is pinned to the first of the least loaded cores its
    affinity allows, and that core's count, alone, goes up by one. *)
Theorem placement_balances s t v :
  length (schedulers s) = cores -> tcbs s !! t = Some v ->
  (forall c sc, schedulers s !! c = Some sc -> core_id sc = c) ->
  (exists c sc, c < cores /\ Kernel.allows (affinity v) c = true /\ schedulers s !! c = Some sc /\
     (pinned_thread_counter sc < Kernel.uint32_max)%Z) ->
  wp (Kernel.pin_thread_to_core t)
    (fun _ s' => exists n sn, least s (affinity v) 0 cores n sn /\
       s' = set_schedulers (<[n := set_pinned_thread_counter (u32 (pinned_thread_counter sn + 1)) sn]> (schedulers s))
              (set_tcbs (<[t := set_pinned_core n v]> (tcbs s)) s)) s.
Proof. apply pin_thread_to_core_ok. Qed.

(** A thread whose affinity allows no core of the system is refused. *)
Theorem placement_refuses s t v :
  length (schedulers s) = cores -> tcbs s !! t = Some v ->
  (forall c, c < cores -> Kernel.allows (affinity v) c = false) ->
  Kernel.pin_thread_to_core t s = Panic require_failed.
Proof. apply pin_thread_to_core_refuses. Qed.

(** C30: initialisation establishes the invariant: from the zeroed kernel
    every core ends with its own idle thread, nothing filed or running, and an
    empty intake; the first identifier handed out will be 1. *)
Theorem initialise_establishes idle : (forall d e, d < e -> e < cores -> idle d <> idle e) ->
  wp (Kernel.kernel_initialise idle)
    (fun _ s' => kernel_inv s' /\ initialised s' = true /\ running s' = false /\ active_threads s' = 0%Z /\
       thread_id_generator s' = 1%Z /\
       forall d, d < cores -> core_inv d s' (idle_scheduler idle d) (replicate max_priorities []) [] None []) Kernel.boot.
Proof. apply kernel_initialise_ok. Qed.
End kernel_claims.

(** Instances. *)
Lemma exit_retires_witness :
  wp (Switch.reschedule Scenario.at_baseline 0)
    (fun _ s' => system_inv s' /\ retired 1 s' /\ active_threads s' = 6%Z /\ delivered 9 s' /\ delivered 10 s') Scenario.leaving.
Proof.
  eapply wp_mono.
  - apply (exit_retires Scenario.at_baseline 0 _ (Scenario.core0 None) Scenario.levels [4] [] 1 Scenario.leaver [61; 62] [9; 10] eq_refl); [apply Nat.ltb_lt; reflexivity
      | exact Scenario.leaving_system | exact Scenario.leaving_core0 | exact Scenario.leaving_exiting].
  - intros ? s' (H1 & H2 & H3 & H4 & _). split_and!; [exact H1 | exact H2 | exact H3 | |].
    + eapply (H4 9); [set_solver | vm_compute; reflexivity | reflexivity].
    + eapply (H4 10); [set_solver | vm_compute; reflexivity | reflexivity].
Defined.

Lemma wake_is_delivered_witness :
  wp (Switch.global_ready_thread Scenario.at_baseline 10 ReschedulePolicy.automatic)
    (fun _ s' => kernel_inv s' /\ wp (Switch.drain_intake Scenario.at_baseline 1) (fun _ s2 => awake_on 1 10 s2) s') Scenario.leaving.
Proof.
  eapply wp_mono.
  - refine (wake_is_delivered _ 1 _ _ _ _ _ _ 10 _ _ Scenario.leaving_kernel (Scenario.leaving_idling 1 _) _ _ _ _);
      [lia | vm_compute; reflexivity | reflexivity | reflexivity | apply Nat.ltb_lt; reflexivity].
  - intros ? s' (Hk & _ & Hremote & _). split; [exact Hk |].
    apply Hremote; [apply Nat.ltb_lt; reflexivity | discriminate].
Defined.

Lemma remote_wake_posts_witness :
  wp (Switch.global_ready_thread Scenario.at_baseline 10 ReschedulePolicy.automatic)
    (fun r s' => r = ScheduleHint.unwarranted /\
       calls s' = [port_send_reschedule_ipi 0 1; trace_point Trace.remote_wake 10]) Scenario.leaving.
Proof.
  eapply wp_mono.
  - refine (remote_wake_posts Scenario.at_baseline 1 _ _ _ _ _ _ 10 _ _ (Scenario.leaving_idling 1 _) _ _ _ _ _ _);
      [lia | vm_compute; reflexivity | reflexivity | reflexivity | apply Nat.ltb_lt; reflexivity | discriminate | apply Nat.ltb_lt; reflexivity].
  - intros r s' (-> & _ & _ & E). split; [reflexivity | exact E].
Defined.

Lemma intake_served_in_order_witness :
  wp (Switch.drain_intake Scenario.at_baseline 0)
    (fun _ s' => exists sc' L' run', core_inv 0 s' sc' L' [4] run' [] /\ Levels.level L' 5 = [2; 3; 7]) Scenario.start.
Proof.
  eapply wp_mono.
  - refine (intake_served_in_order Scenario.at_baseline 0 _ _ _ _ _ _ Scenario.start_inv _ _); [repeat constructor; set_solver |].
    intros t Ht. assert (t = 7) as -> by set_solver. eexists. split_and!; [vm_compute; reflexivity | reflexivity | reflexivity | reflexivity | discriminate].
  - intros ? s' (sc' & L' & run' & Hinv & Hlev). exists sc', L', run'. split; [exact Hinv |]. rewrite Hlev. vm_compute. reflexivity.
Defined.

Lemma ties_alternate_witness :
  wp (pick_next 0) (fun r _ => r = Some 4) Scenario.start.
Proof.
  eapply wp_mono.
  - refine (ties_alternate 0 _ _ _ _ _ _ 4 5 Scenario.start_inv _ _); vm_compute; reflexivity.
  - intros r s' [-> _]. reflexivity.
Defined.

Lemma second_wake_changes_nothing_witness :
  wp (make_ready 0 8) (fun _ s1 => make_ready 0 8 s1 = Ok (ScheduleHint.unwarranted, s1)) Scenario.start.
Proof.
  refine (second_wake_changes_nothing 0 _ _ _ _ _ _ 8 _ Scenario.start_inv _ _ _); [vm_compute; reflexivity | reflexivity | discriminate].
Defined.

Lemma handler_switches_witness :
  wp (Switch.reschedule Scenario.at_baseline 0)
    (fun _ s' => switch_outcome 0 Scenario.start (Scenario.core0 (Some 7)) Scenario.levels [4] [7] DepartureReason.yielded 1 s') Scenario.start.
Proof.
  eapply wp_mono.
  - refine (handler_switches Scenario.at_baseline 0 _ _ _ _ _ 1 (Scenario.block 1 5 1 ThreadState.running) Scenario.start_inv _ _); [vm_compute; reflexivity | discriminate].
  - intros ? s' [Hout _]. exact Hout.
Defined.

Lemma placement_balances_witness :
  wp (Kernel.pin_thread_to_core 8)
    (fun _ s' => exists v, tcbs s' !! 8 = Some v /\ pinned_core v = 1)
    (set_tcbs (alter (set_affinity 7) 8 (tcbs Scenario.leaving)) Scenario.leaving).
Proof.
  eapply wp_mono.
  - refine (placement_balances _ 8 (set_affinity 7 (Scenario.block 8 2 8 ThreadState.blocked)) _ _ _ _);
      [reflexivity | vm_compute; reflexivity | | exists 1, (Scenario.idling 1); split_and!; [apply Nat.ltb_lt; reflexivity | reflexivity | reflexivity | reflexivity]].
    intros c sc Hsc. do 4 (destruct c as [| c]; [injection Hsc as <-; reflexivity |]). discriminate.
  - intros ? s' (n & sn & (Hn & Ha & Hsn & Hmin) & ->). exists (set_pinned_core n (set_affinity 7 (Scenario.block 8 2 8 ThreadState.blocked))).
    split; [apply lookup_insert_eq |]. cbn. change cores with 4 in *.
    pose proof (Hmin 1 (Scenario.idling 1) ltac:(lia) eq_refl eq_refl) as [H1 H2]. cbn in H1.
    destruct n as [| [| n]]; [| reflexivity |].
    + injection Hsn as <-. cbn in H1. lia.
    + specialize (H2 ltac:(lia)). destruct n as [| n]; [injection Hsn as <-; cbn in H2; lia |].
      destruct n as [| n]; [discriminate Ha | lia].
Defined.

Lemma placement_refuses_witness :
  Kernel.pin_thread_to_core 8 (set_tcbs (alter (set_affinity 0) 8 (tcbs Scenario.leaving)) Scenario.leaving) = Panic require_failed.
Proof.
  refine (placement_refuses _ 8 (set_affinity 0 (Scenario.block 8 2 8 ThreadState.blocked)) _ _ _); [reflexivity | vm_compute; reflexivity |].
  intros c _. reflexivity.
Defined.

Lemma initialise_establishes_witness :
  wp (Kernel.kernel_initialise (fun d => 100 + d)) (fun _ s' => kernel_inv s') Kernel.boot.
Proof. eapply wp_mono; [apply initialise_establishes; intros; lia | intros ? s' [Hk _]; exact Hk]. Defined.
