(* ===== verification/PortMasks.v ===== *)
(** * The two masking grades of every port

    A port gives the kernel two facilities, which port_core.h calls independent
    and separately nesting: masking interrupts, and disabling preemption, under
    which interrupts still run but no switch happens.  Each of the seven cores
    cyros runs on builds them from something else: PRIMASK and a software depth,
    PRIMASK and BASEPRI, CPSR.I and the GIC's priority mask, mstatus.MIE and
    mie.MSIE, two fields of one PIL, two counters, or a signal mask computed
    from two counters.  [Masks] is what they have in common, and each module
    below is one of them.

    A module's record holds what of the core the operations read and write.  Of
    the hardware it takes what the port's comments say of it: when an exception
    is let in, and that one let in is taken before the instruction that opened
    the mask (or the barrier after it) is done.  [served] counts the entries into
    the reschedule handler.  A thread is running and no switch is owed: what an
    owed switch adds is not part of the masks. *)

From S2P Require Import Prelude.
Local Open Scope Z_scope.

Class Masks := {
  core : Type;
  irq_save : core -> outcome (Z * core);
  irq_restore : Z -> core -> outcome core;
  preempt_disable : core -> outcome (Z * core);
  preempt_enable : Z -> core -> outcome core;
  pend_reschedule : core -> outcome core;
  interrupts_enabled : core -> bool;
  masked_from_baseline : Z -> core -> bool;
  (* The hardware's: whether the timer's interrupt is let in. *)
  timer_let_in : core -> bool;
  served : core -> nat
}.

(** ** Cortex-M0: PRIMASK, and a depth in software *)
Module Armv6m.
Record core := Core {
  primask : Z;
  handler_mode : bool;
  preempt_depth : Z;
  reschedule_deferred : bool;
  pendsv : bool;
  served : nat
}.

Definition set_primask v c := Core v (handler_mode c) (preempt_depth c) (reschedule_deferred c) (pendsv c) (served c).
Definition set_preempt_depth v c := Core (primask c) (handler_mode c) v (reschedule_deferred c) (pendsv c) (served c).
Definition set_reschedule_deferred v c := Core (primask c) (handler_mode c) (preempt_depth c) v (pendsv c) (served c).
Definition set_pendsv v c := Core (primask c) (handler_mode c) (preempt_depth c) (reschedule_deferred c) v (served c).
Definition reschedule_handler c := Core (primask c) (handler_mode c) (preempt_depth c) (reschedule_deferred c) (pendsv c) (S (served c)).

(** [cyros_port_pendsv_dispatch], nothing owed. *)
Definition pendsv_dispatch (c : core) : core :=
  if negb (preempt_depth c =? 0) then set_reschedule_deferred true c
  else reschedule_handler (set_reschedule_deferred false c).

(** PendSV is taken when nothing keeps it out. *)
Definition isb (c : core) : core :=
  if pendsv c && (primask c =? 0) && negb (handler_mode c) then pendsv_dispatch (set_pendsv false c) else c.

Definition interrupts_enabled (c : core) : bool := primask c =? 0.

Definition irq_save (c : core) : outcome (Z * core) := Ok (primask c, set_primask 1 c).

Definition irq_restore (token : Z) (c : core) : outcome core := Ok (isb (set_primask token c)).

Definition preempt_disable (c : core) : outcome (Z * core) :=
  let token := preempt_depth c in Ok (token, set_preempt_depth (u32 (token + 1)) c).

Definition preempt_enable (token : Z) (c : core) : outcome core :=
  let c := set_preempt_depth token c in
  Ok (if (token =? 0) && reschedule_deferred c then isb (set_pendsv true (set_reschedule_deferred false c)) else c).

Definition pend_reschedule (c : core) : outcome core := Ok (isb (set_pendsv true c)).

Definition masked_from_baseline (token : Z) (c : core) : bool :=
  (token =? 0) && negb (handler_mode c) && (preempt_depth c =? 0).

#[export] Instance masks : Masks := {|
  PortMasks.irq_save := irq_save; PortMasks.irq_restore := irq_restore;
  PortMasks.preempt_disable := preempt_disable; PortMasks.preempt_enable := preempt_enable;
  PortMasks.pend_reschedule := pend_reschedule; PortMasks.interrupts_enabled := interrupts_enabled;
  PortMasks.masked_from_baseline := masked_from_baseline;
  timer_let_in := fun c => primask c =? 0; PortMasks.served := served |}.
End Armv6m.

(** ** Cortex-M3 to M33: PRIMASK and BASEPRI *)
Module Armv7m.
(** What the part decodes of a priority byte, and AIRCR.PRIGROUP. *)
Record part := Part { decoded : Z; prigroup : Z }.

(** The loop of [discover_priority_bits], [masks] the masks still to try. *)
Fixpoint count_bits (masks : list Z) (readback bits : Z) : Z :=
  match masks with
  | [] => bits
  | mask :: masks => if Z.land readback mask =? 0 then bits else count_bits masks readback (bits + 1)
  end.

Definition discover_priority_bits (p : part) : Z :=
  count_bits [128; 64; 32; 16; 8; 4; 2; 1] (Z.land 255 (decoded p)) 0.

Record priorities := Priorities { pendsv_priority : Z; systick_priority : Z; preempt_mask_value : Z }.

(** The priorities [cyros_port_init] derives, and the bytes [init_this_core]
    makes of them. *)
Definition derive (p : part) : outcome priorities :=
  let bits := discover_priority_bits p in
  ensure assert_failed (2 <=? bits) ;;!
  ensure assert_failed (bits <=? 8) ;;!
  let implemented_step := Z.shiftl 1 (8 - bits) in
  let group_step := Z.shiftl 1 (prigroup p + 1) in
  let step := if group_step <? implemented_step then implemented_step else group_step in
  let pendsv := Z.land 255 (Z.lnot (implemented_step - 1)) in
  Ok (Priorities pendsv (u32 (pendsv - step)) pendsv).

Definition shpr (p : part) (priority : Z) : Z := Z.land (u8 priority) (decoded p).

(** BASEPRI keeps out the priorities at or below its own, and only the group
    part of a priority counts. *)
Definition group (p : part) (priority : Z) : Z := Z.land priority (Z.lnot (Z.shiftl 1 (prigroup p + 1) - 1)).

Definition kept_out (p : part) (basepri priority : Z) : bool :=
  negb (basepri =? 0) && (group p basepri <=? group p priority).

Record core := Core { primask : Z; handler_mode : bool; basepri : Z; pendsv : bool; served : nat }.

Definition set_primask v c := Core v (handler_mode c) (basepri c) (pendsv c) (served c).
Definition set_pendsv v c := Core (primask c) (handler_mode c) (basepri c) v (served c).
Definition reschedule_handler c := Core (primask c) (handler_mode c) (basepri c) (pendsv c) (S (served c)).

Section part.
Context (p : part) (prio : priorities).

Definition set_basepri v c := Core (primask c) (handler_mode c) (Z.land (u8 v) (decoded p)) (pendsv c) (served c).

Definition let_in (c : core) (priority : Z) : bool :=
  (primask c =? 0) && negb (kept_out p (basepri c) (shpr p priority)).

Definition isb (c : core) : core :=
  if pendsv c && let_in c (pendsv_priority prio) && negb (handler_mode c) then reschedule_handler (set_pendsv false c) else c.

Definition interrupts_enabled (c : core) : bool := primask c =? 0.

Definition irq_save (c : core) : outcome (Z * core) := Ok (primask c, set_primask 1 c).

Definition irq_restore (token : Z) (c : core) : outcome core := Ok (isb (set_primask token c)).

Definition preempt_disable (c : core) : outcome (Z * core) :=
  let token := basepri c in Ok (token, isb (set_basepri (preempt_mask_value prio) c)).

Definition preempt_enable (token : Z) (c : core) : outcome core := Ok (isb (set_basepri token c)).

Definition pend_reschedule (c : core) : outcome core := Ok (isb (set_pendsv true c)).

Definition masked_from_baseline (token : Z) (c : core) : bool :=
  (token =? 0) && negb (handler_mode c) && (basepri c =? 0).

Definition masks : Masks := {|
  PortMasks.irq_save := irq_save; PortMasks.irq_restore := irq_restore;
  PortMasks.preempt_disable := preempt_disable; PortMasks.preempt_enable := preempt_enable;
  PortMasks.pend_reschedule := pend_reschedule; PortMasks.interrupts_enabled := interrupts_enabled;
  PortMasks.masked_from_baseline := masked_from_baseline;
  timer_let_in := fun c => let_in c (systick_priority prio); PortMasks.served := served |}.
End part.
End Armv7m.

(** ** Cortex-R52: CPSR.I and the GIC's priority mask *)
Module Armv8r.
Definition cpsr_i : Z := Z.shiftl 1 7.

Record priorities := Priorities { pmr_open : Z; reschedule_priority : Z; timer_priority : Z }.

(** The priorities [cyros_port_init] derives, from the bits PMR keeps. *)
Definition derive (kept : Z) : outcome priorities :=
  let pmr_open := Z.land 255 kept in
  let step := Z.land pmr_open (u32 (u32 (Z.lnot pmr_open) + 1)) in
  ensure assert_failed (step <=? 64) ;;!
  Ok (Priorities pmr_open (u32 (pmr_open - step)) (Z.land 128 pmr_open)).

Record core := Core { cpsr : Z; pmr : Z; raised : bool; served : nat }.

Definition set_cpsr v c := Core v (pmr c) (raised c) (served c).
Definition set_raised v c := Core (cpsr c) (pmr c) v (served c).
Definition reschedule_handler c := Core (cpsr c) (pmr c) (raised c) (S (served c)).

Section part.
Context (kept : Z) (prio : priorities).

Definition write_icc_pmr v c := Core (cpsr c) (Z.land v kept) (raised c) (served c).

(** The GIC signals the priorities above its mask's. *)
Definition let_in (c : core) (priority : Z) : bool := (Z.land (cpsr c) cpsr_i =? 0) && (priority <? pmr c).

Definition isb (c : core) : core :=
  if raised c && let_in c (reschedule_priority prio) then reschedule_handler (set_raised false c) else c.

Definition interrupts_enabled (c : core) : bool := Z.land (cpsr c) cpsr_i =? 0.

Definition irq_save (c : core) : outcome (Z * core) :=
  Ok (Z.land (cpsr c) cpsr_i, set_cpsr (Z.lor (cpsr c) cpsr_i) c).

Definition irq_restore (token : Z) (c : core) : outcome core :=
  Ok (if Z.land token cpsr_i =? 0 then isb (set_cpsr (Z.land (cpsr c) (Z.lnot cpsr_i)) c)
      else set_cpsr (Z.lor (cpsr c) cpsr_i) c).

Definition preempt_disable (c : core) : outcome (Z * core) :=
  let previous := pmr c in Ok (previous, write_icc_pmr (reschedule_priority prio) c).

Definition preempt_enable (token : Z) (c : core) : outcome core := Ok (isb (write_icc_pmr token c)).

Definition pend_reschedule (c : core) : outcome core := Ok (isb (set_raised true c)).

Definition masked_from_baseline (token : Z) (c : core) : bool :=
  (Z.land token cpsr_i =? 0) && (pmr c =? pmr_open prio).

Definition masks : Masks := {|
  PortMasks.irq_save := irq_save; PortMasks.irq_restore := irq_restore;
  PortMasks.preempt_disable := preempt_disable; PortMasks.preempt_enable := preempt_enable;
  PortMasks.pend_reschedule := pend_reschedule; PortMasks.interrupts_enabled := interrupts_enabled;
  PortMasks.masked_from_baseline := masked_from_baseline;
  timer_let_in := fun c => let_in c (timer_priority prio); PortMasks.served := served |}.
End part.
End Armv8r.

(** ** RISC-V: mstatus.MIE and mie.MSIE *)
Module Rv32.
Definition mstatus_mie : Z := Z.shiftl 1 3.
Definition mie_msie : Z := Z.shiftl 1 3.
Definition mie_mtie : Z := Z.shiftl 1 7.

Record core := Core { mstatus : Z; mie : Z; msip : bool; served : nat }.

Definition set_mstatus v c := Core v (mie c) (msip c) (served c).
Definition set_mie v c := Core (mstatus c) v (msip c) (served c).
Definition set_msip v c := Core (mstatus c) (mie c) v (served c).
Definition reschedule_handler c := Core (mstatus c) (mie c) (msip c) (S (served c)).

Definition clear_bits (r bits : Z) : Z := Z.land r (Z.lnot bits).

Definition let_in (c : core) (source : Z) : bool :=
  negb (Z.land (mstatus c) mstatus_mie =? 0) && negb (Z.land (mie c) source =? 0).

Definition settle (c : core) : core :=
  if msip c && let_in c mie_msie then reschedule_handler (set_msip false c) else c.

Definition interrupts_enabled (c : core) : bool := negb (Z.land (mstatus c) mstatus_mie =? 0).

Definition irq_save (c : core) : outcome (Z * core) :=
  Ok (Z.land (mstatus c) mstatus_mie, set_mstatus (clear_bits (mstatus c) 8) c).

Definition irq_restore (token : Z) (c : core) : outcome core :=
  Ok (settle (if negb (Z.land token mstatus_mie =? 0) then set_mstatus (Z.lor (mstatus c) mstatus_mie) c
              else set_mstatus (clear_bits (mstatus c) mstatus_mie) c)).

Definition preempt_disable (c : core) : outcome (Z * core) :=
  Ok (Z.land (mie c) mie_msie, set_mie (clear_bits (mie c) 8) c).

Definition preempt_enable (token : Z) (c : core) : outcome core :=
  Ok (settle (if negb (Z.land token mie_msie =? 0) then set_mie (Z.lor (mie c) mie_msie) c
              else set_mie (clear_bits (mie c) mie_msie) c)).

Definition pend_reschedule (c : core) : outcome core :=
  Ok (if negb (Z.land (mstatus c) mstatus_mie =? 0) && negb (Z.land (mie c) mie_msie =? 0) then reschedule_handler c
      else settle (set_msip true c)).

Definition masked_from_baseline (token : Z) (c : core) : bool :=
  negb (Z.land token mstatus_mie =? 0) && negb (Z.land (mie c) mie_msie =? 0).

#[export] Instance masks : Masks := {|
  PortMasks.irq_save := irq_save; PortMasks.irq_restore := irq_restore;
  PortMasks.preempt_disable := preempt_disable; PortMasks.preempt_enable := preempt_enable;
  PortMasks.pend_reschedule := pend_reschedule; PortMasks.interrupts_enabled := interrupts_enabled;
  PortMasks.masked_from_baseline := masked_from_baseline;
  timer_let_in := fun c => let_in c mie_mtie; PortMasks.served := served |}.
End Rv32.

(** ** LEON3: two fields of one PIL *)
Module Sparcv8.
Definition psr_pil_shift : Z := 8.
Definition psr_pil_mask : Z := Z.shiftl 15 psr_pil_shift.
Definition pil_preempt : Z := 1.
Definition pil_masked : Z := 14.
Definition pil_irq_bits : Z := Z.shiftl pil_masked psr_pil_shift.
Definition pil_preempt_bits : Z := Z.shiftl pil_preempt psr_pil_shift.
Definition reschedule_level : Z := 1.

Record core := Core { psr : Z; depth : Z; forced : bool; served : nat }.

Definition set_forced v c := Core (psr c) (depth c) v (served c).
Definition reschedule_handler c := Core (psr c) (depth c) (forced c) (S (served c)).

Definition pil (c : core) : Z := Z.shiftr (Z.land (psr c) psr_pil_mask) psr_pil_shift.

(** PIL masks every level at or below its value but 15. *)
Definition let_in (c : core) (level : Z) : bool := (pil c <? level) || (level =? 15).

(** A level is taken within the three instructions that follow the write. *)
Definition nops (c : core) : core :=
  if forced c && let_in c reschedule_level then reschedule_handler (set_forced false c) else c.

Definition psr_set (bits : Z) (c : core) : Z * core :=
  (psr c, nops (Core (Z.lor (psr c) bits) (depth c) (forced c) (served c))).

Definition psr_restore (field value : Z) (c : core) : core :=
  nops (Core (Z.lor (Z.land value field) (Z.land (psr c) (Z.lnot field))) (depth c) (forced c) (served c)).

Definition interrupts_enabled (c : core) : bool := Z.land (psr c) pil_irq_bits =? 0.

Definition irq_save (c : core) : outcome (Z * core) :=
  let '(previous, c) := psr_set pil_irq_bits c in Ok (Z.land previous pil_irq_bits, c).

Definition irq_restore (token : Z) (c : core) : outcome core := Ok (psr_restore pil_irq_bits token c).

Definition preempt_disable (c : core) : outcome (Z * core) :=
  let '(previous, c) := psr_set pil_preempt_bits c in Ok (Z.land previous pil_preempt_bits, c).

Definition preempt_enable (token : Z) (c : core) : outcome core := Ok (psr_restore pil_preempt_bits token c).

Definition pend_reschedule (c : core) : outcome core := Ok (nops (set_forced true c)).

Definition masked_from_baseline (token : Z) (c : core) : bool :=
  (token =? 0) && (depth c =? 0) && (Z.land (psr c) pil_preempt_bits =? 0).

(** [level] is the timer's. *)
Definition masks (level : Z) : Masks := {|
  PortMasks.irq_save := irq_save; PortMasks.irq_restore := irq_restore;
  PortMasks.preempt_disable := preempt_disable; PortMasks.preempt_enable := preempt_enable;
  PortMasks.pend_reschedule := pend_reschedule; PortMasks.interrupts_enabled := interrupts_enabled;
  PortMasks.masked_from_baseline := masked_from_baseline;
  timer_let_in := fun c => let_in c level; PortMasks.served := served |}.
End Sparcv8.

(** ** Linux, cooperative: two counters *)
Module Coop.
Record core := Core {
  current_context : bool;   (* a thread's context is running *)
  interrupt_disable_depth : Z;
  preempt_disable_depth : Z;
  reschedule_pending : bool;
  served : nat
}.

Definition set_interrupt_disable_depth v c := Core (current_context c) v (preempt_disable_depth c) (reschedule_pending c) (served c).
Definition set_preempt_disable_depth v c := Core (current_context c) (interrupt_disable_depth c) v (reschedule_pending c) (served c).
Definition set_reschedule_pending v c := Core (current_context c) (interrupt_disable_depth c) (preempt_disable_depth c) v (served c).

(** The scheduler context runs the handler, and the thread comes back. *)
Definition switch_to_scheduler_context c :=
  Core (current_context c) (interrupt_disable_depth c) (preempt_disable_depth c) (reschedule_pending c) (S (served c)).

Definition resolve_pending_reschedule_if_baseline (c : core) : core :=
  if negb (reschedule_pending c) then c
  else if negb (interrupt_disable_depth c =? 0) then c
  else if negb (preempt_disable_depth c =? 0) then c
  else if negb (current_context c) then c
  else switch_to_scheduler_context (set_reschedule_pending false c).

Definition interrupts_enabled (c : core) : bool := interrupt_disable_depth c =? 0.

Definition irq_save (c : core) : outcome (Z * core) :=
  Ok (0, set_interrupt_disable_depth (u32 (interrupt_disable_depth c + 1)) c).

Definition irq_restore (token : Z) (c : core) : outcome core :=
  ensure assert_failed (0 <? interrupt_disable_depth c) ;;!
  Ok (resolve_pending_reschedule_if_baseline (set_interrupt_disable_depth (u32 (interrupt_disable_depth c - 1)) c)).

Definition preempt_disable (c : core) : outcome (Z * core) :=
  Ok (0, set_preempt_disable_depth (u32 (preempt_disable_depth c + 1)) c).

Definition preempt_enable (token : Z) (c : core) : outcome core :=
  ensure assert_failed (0 <? preempt_disable_depth c) ;;!
  Ok (resolve_pending_reschedule_if_baseline (set_preempt_disable_depth (u32 (preempt_disable_depth c - 1)) c)).

Definition pend_reschedule (c : core) : outcome core :=
  Ok (if negb (current_context c) then c
      else if (interrupt_disable_depth c =? 0) && (preempt_disable_depth c =? 0) then
        switch_to_scheduler_context (set_reschedule_pending false c)
      else set_reschedule_pending true c).

Definition masked_from_baseline (token : Z) (c : core) : bool :=
  current_context c && (interrupt_disable_depth c =? 1) && (preempt_disable_depth c =? 0).

#[export] Instance masks : Masks := {|
  PortMasks.irq_save := irq_save; PortMasks.irq_restore := irq_restore;
  PortMasks.preempt_disable := preempt_disable; PortMasks.preempt_enable := preempt_enable;
  PortMasks.pend_reschedule := pend_reschedule; PortMasks.interrupts_enabled := interrupts_enabled;
  PortMasks.masked_from_baseline := masked_from_baseline;
  timer_let_in := interrupts_enabled; PortMasks.served := served |}.
End Coop.

(** ** Linux, preemptive: a signal mask that follows two counters *)
Module Preempt.
(** The signals by name, since their numbers are the C library's. *)
Inductive signal := preempt_signo | timer_signo.

#[export] Instance signal_eq_dec : EqDecision signal.
Proof. solve_decision. Defined.

Record owned_signal := OwnedSignal { signo : signal; token_bit : Z; gated_by_preempt : bool }.

Definition mask_token_reschedule : Z := 1.
Definition mask_token_timer : Z := 2.

Definition owned_signals : list owned_signal :=
  [ OwnedSignal preempt_signo mask_token_reschedule true;
    OwnedSignal timer_signo mask_token_timer false ].

Record core := Core {
  current_context : bool;
  interrupt_disable_depth : Z;
  preempt_disable_depth : Z;
  handed_back_bits : Z;
  sigmask : signal -> bool;     (* the OS thread's: which are blocked *)
  pending : bool;               (* the reschedule signal, raised and blocked *)
  served : nat
}.

Definition set_interrupt_disable_depth v c :=
  Core (current_context c) v (preempt_disable_depth c) (handed_back_bits c) (sigmask c) (pending c) (served c).
Definition set_preempt_disable_depth v c :=
  Core (current_context c) (interrupt_disable_depth c) v (handed_back_bits c) (sigmask c) (pending c) (served c).
Definition set_sigmask v c :=
  Core (current_context c) (interrupt_disable_depth c) (preempt_disable_depth c) (handed_back_bits c) v (pending c) (served c).
Definition set_pending v c :=
  Core (current_context c) (interrupt_disable_depth c) (preempt_disable_depth c) (handed_back_bits c) (sigmask c) v (served c).
Definition on_reschedule c :=
  Core (current_context c) (interrupt_disable_depth c) (preempt_disable_depth c) (handed_back_bits c) (sigmask c) (pending c) (S (served c)).

Definition deliver (c : core) : core :=
  if pending c && negb (sigmask c preempt_signo) then on_reschedule (set_pending false c) else c.

(** [pthread_sigmask] with SIG_BLOCK and with SIG_UNBLOCK. *)
Definition sig_block (set : list signal) (c : core) : core :=
  set_sigmask (fun s => bool_decide (s ∈ set) || sigmask c s) c.

Definition sig_unblock (set : list signal) (c : core) : core :=
  deliver (set_sigmask (fun s => negb (bool_decide (s ∈ set)) && sigmask c s) c).

Definition should_block (s : owned_signal) (interrupt_depth preempt_depth : Z) : bool :=
  if 0 <? interrupt_depth then true else gated_by_preempt s && (0 <? preempt_depth).

Definition should_block_now (c : core) (s : owned_signal) : bool :=
  should_block s (interrupt_disable_depth c) (preempt_disable_depth c).

Definition handed_back (c : core) (s : owned_signal) : bool := negb (Z.land (handed_back_bits c) (token_bit s) =? 0).

Definition in_model (c : core) : list owned_signal := List.filter (fun s => negb (handed_back c s)) owned_signals.

Definition nonempty {A} (l : list A) : bool := match l with [] => false | _ => true end.

Definition block_for (interrupt_depth preempt_depth : Z) (c : core) : core :=
  let block := signo <$> List.filter (fun s => should_block s interrupt_depth preempt_depth) (in_model c) in
  if nonempty block then sig_block block c else c.

Definition apply_mask (c : core) : core :=
  let block := signo <$> List.filter (should_block_now c) (in_model c) in
  let unblock := signo <$> List.filter (fun s => negb (should_block_now c s)) (in_model c) in
  let c := if nonempty block then sig_block block c else c in
  if nonempty unblock then sig_unblock unblock c else c.

Definition deliverable_token (c : core) : Z :=
  foldl (fun token s => if negb (should_block_now c s) then Z.lor token (token_bit s) else token) 0 owned_signals.

(** [debug] is CYROS_PORT_DEBUG_MODE. *)
Definition assert_mask_matches_depths (debug : bool) (c : core) : outcome unit :=
  ensure assert_failed (negb debug || forallb (fun s => Bool.eqb (sigmask c (signo s)) (should_block_now c s)) (in_model c)).

Definition interrupts_enabled (c : core) : bool := interrupt_disable_depth c =? 0.

Definition irq_save (debug : bool) (c : core) : outcome (Z * core) :=
  assert_mask_matches_depths debug c ;;!
  let token := deliverable_token c in
  let c := block_for (u32 (interrupt_disable_depth c + 1)) (preempt_disable_depth c) c in
  Ok (token, set_interrupt_disable_depth (u32 (interrupt_disable_depth c + 1)) c).

Definition irq_restore (debug : bool) (token : Z) (c : core) : outcome core :=
  ensure assert_failed (0 <? interrupt_disable_depth c) ;;!
  let c := apply_mask (set_interrupt_disable_depth (u32 (interrupt_disable_depth c - 1)) c) in
  assert_mask_matches_depths debug c ;;!
  Ok c.

Definition preempt_disable (debug : bool) (c : core) : outcome (Z * core) :=
  assert_mask_matches_depths debug c ;;!
  let token := deliverable_token c in
  let c := block_for (interrupt_disable_depth c) (u32 (preempt_disable_depth c + 1)) c in
  Ok (token, set_preempt_disable_depth (u32 (preempt_disable_depth c + 1)) c).

Definition preempt_enable (debug : bool) (token : Z) (c : core) : outcome core :=
  ensure assert_failed (0 <? preempt_disable_depth c) ;;!
  let c := apply_mask (set_preempt_disable_depth (u32 (preempt_disable_depth c - 1)) c) in
  assert_mask_matches_depths debug c ;;!
  Ok c.

Definition pend_reschedule (c : core) : outcome core :=
  Ok (if negb (current_context c) then c else deliver (set_pending true c)).

Definition masked_from_baseline (token : Z) (c : core) : bool :=
  current_context c && (interrupt_disable_depth c =? 1) && (preempt_disable_depth c =? 0).

Definition masks (debug : bool) : Masks := {|
  PortMasks.irq_save := irq_save debug; PortMasks.irq_restore := irq_restore debug;
  PortMasks.preempt_disable := preempt_disable debug; PortMasks.preempt_enable := preempt_enable debug;
  PortMasks.pend_reschedule := pend_reschedule; PortMasks.interrupts_enabled := interrupts_enabled;
  PortMasks.masked_from_baseline := masked_from_baseline;
  timer_let_in := fun c => negb (sigmask c timer_signo); PortMasks.served := served |}.
End Preempt.
