(* ===== verification/PortProperties.v ===== *)
(** * Every port's masks are two depths, and their properties

    The contract of port_core.h as an abstract machine, [grades]: how many
    regions of each grade are open, whether a reschedule waits, and how many
    have run.  [MasksLaws] says that a port's operations do what the machine's
    do, and every port keeps it. *)

From S2P Require Import Prelude PortMasks.
Local Open Scope Z_scope.

Record grades := Grades { irqs : nat; preempts : nat; asked : bool; runs : nat }.

(** At baseline what was asked for is done at once. *)
Definition settled (g : grades) : grades :=
  match g with
  | Grades 0 0 true r => Grades 0 0 false (S r)
  | _ => g
  end.

Inductive op := Mask | Unmask | Disable | Enable | Request.

(** A region that is not open cannot be closed. *)
Definition grade_step (o : op) (g : grades) : option grades :=
  match o, g with
  | Mask, Grades n p a r => Some (Grades (S n) p a r)
  | Unmask, Grades (S n) p a r => Some (settled (Grades n p a r))
  | Disable, Grades n p a r => Some (Grades n (S p) a r)
  | Enable, Grades n (S p) a r => Some (settled (Grades n p a r))
  | Request, Grades n p a r => Some (settled (Grades n p true r))
  | _, _ => None
  end.

(** What a counter of 32 bits can hold. *)
Definition countable (g : grades) : Prop := Z.of_nat (irqs g) < 2 ^ 32 /\ Z.of_nat (preempts g) < 2 ^ 32.

Class MasksLaws (M : Masks) := {
  shows : grades -> core -> Prop;
  (* The tokens of a region opened inside [n] others. *)
  irq_token : nat -> Z -> Prop;
  preempt_token : nat -> Z -> Prop;
  save_law n p a r c : shows (Grades n p a r) c -> countable (Grades (S n) p a r) ->
    ok (irq_save c) (fun tc => irq_token n tc.1 /\ shows (Grades (S n) p a r) tc.2);
  restore_law n p a r c t : shows (Grades (S n) p a r) c -> countable (Grades (S n) p a r) -> irq_token n t ->
    ok (irq_restore t c) (shows (settled (Grades n p a r)));
  disable_law n p a r c : shows (Grades n p a r) c -> countable (Grades n (S p) a r) ->
    ok (preempt_disable c) (fun tc => preempt_token p tc.1 /\ shows (Grades n (S p) a r) tc.2);
  enable_law n p a r c t : shows (Grades n (S p) a r) c -> countable (Grades n (S p) a r) -> preempt_token p t ->
    ok (preempt_enable t c) (shows (settled (Grades n p a r)));
  request_law n p a r c : shows (Grades n p a r) c ->
    ok (pend_reschedule c) (shows (settled (Grades n p true r)));
  enabled_law g c : shows g c -> interrupts_enabled c = bool_decide (irqs g = 0%nat);
  timer_law g c : shows g c -> timer_let_in c = bool_decide (irqs g = 0%nat);
  served_law g c : shows g c -> served c = runs g;
  baseline_law n p a r c t : shows (Grades (S n) p a r) c -> irq_token n t ->
    masked_from_baseline t c = bool_decide (n = 0%nat) && bool_decide (p = 0%nat)
}.

(** A field's value when no region of its grade is open, and when one is. *)
Definition by_depth {A} (n : nat) (closed opened : A) : A := match n with O => closed | S _ => opened end.

(** ** A bit of a word *)

#[local] Arguments Z.testbit : simpl never.
#[local] Arguments Z.land : simpl never.
#[local] Arguments Z.lor : simpl never.

Lemma land_bit (x : Z) (k : nat) : Z.land x (bit k) = if Z.testbit x (Z.of_nat k) then bit k else 0.
Proof.
  apply Z.bits_inj'. intros i Hi. rewrite Z.land_spec. rewrite <- (Z2Nat.id i Hi).
  rewrite testbit_bit. case_bool_decide as E.
  - rewrite <- E. destruct (Z.testbit x (Z.of_nat k)) eqn:Ex; rewrite ?testbit_bit, ?Z.bits_0, ?bool_decide_eq_true_2 by done; reflexivity.
  - rewrite andb_false_r. destruct (Z.testbit x (Z.of_nat k)); rewrite ?testbit_bit, ?Z.bits_0, ?bool_decide_eq_false_2 by done; reflexivity.
Qed.

Lemma land_bit_test (x : Z) (k : nat) : (Z.land x (bit k) =? 0) = negb (Z.testbit x (Z.of_nat k)).
Proof. rewrite land_bit. destruct (Z.testbit x _); [| reflexivity]. pose proof (bit_pos k). destruct (Z.eqb_spec (bit k) 0); [lia | reflexivity]. Qed.

Lemma set_bit (x : Z) (k : nat) : Z.testbit (Z.lor x (bit k)) (Z.of_nat k) = true.
Proof. rewrite Z.lor_spec, testbit_bit, bool_decide_eq_true_2 by reflexivity. apply orb_true_r. Qed.

Lemma clear_bit (x : Z) (k : nat) : Z.testbit (Z.land x (Z.lnot (bit k))) (Z.of_nat k) = false.
Proof.
  rewrite Z.land_spec, Z.lnot_spec, testbit_bit, bool_decide_eq_true_2 by (try lia; reflexivity).
  apply andb_false_r.
Qed.

(** What waits for a grade that is not held. *)
Ltac impossible :=
  exfalso; match goal with H : ?x = ?x -> ?y <> ?y |- _ => exact (H eq_refl eq_refl) end.

(** Depths compared, as the code compares them. *)
Lemma depth_zero n : (Z.of_nat n =? 0) = bool_decide (n = 0%nat).
Proof. destruct n; reflexivity. Qed.

Lemma depth_one n : (Z.of_nat (S n) =? 1) = bool_decide (n = 0%nat).
Proof. destruct n as [| n]; [reflexivity |]. apply Z.eqb_neq. lia. Qed.

Lemma depth_raised n : (0 <? Z.of_nat n) = negb (bool_decide (n = 0%nat)).
Proof. destruct n; reflexivity. Qed.

(** The counters do not wrap. *)
Lemma count_up n : Z.of_nat (S n) < 2 ^ 32 -> u32 (Z.of_nat n + 1) = Z.of_nat (S n).
Proof. intros H. unfold u32. rewrite wrap_small; lia. Qed.

Lemma count_down n : Z.of_nat (S n) < 2 ^ 32 -> u32 (Z.of_nat (S n) - 1) = Z.of_nat n.
Proof. intros H. unfold u32. rewrite wrap_small; lia. Qed.

(** ** The hardware's ports *)

(** What is asked waits for something. *)
Definition waits (g : grades) : Prop := asked g = true -> irqs g <> 0%nat \/ preempts g <> 0%nat.

Lemma waits_settled g : waits (settled g).
Proof. destruct g as [[] [] [] r]; unfold waits; cbn; auto; lia. Qed.

Module Armv6mLaws.
Import PortMasks.Armv6m.
Definition shows (g : grades) (c : core) : Prop :=
  primask c = (by_depth (irqs g) 0 1) /\ handler_mode c = false /\ preempt_depth c = Z.of_nat (preempts g) /\
  (pendsv c = true -> irqs g <> 0%nat) /\ (reschedule_deferred c = true -> preempts g <> 0%nat) /\
  asked g = pendsv c || reschedule_deferred c /\ served c = runs g.

#[export] Instance armv6m_laws : MasksLaws Armv6m.masks.
Proof.
  refine (@Build_MasksLaws Armv6m.masks shows (fun n t => t = by_depth n 0 1) (fun n t => t = Z.of_nat n) _ _ _ _ _ _ _ _ _);
    unfold shows, countable; first [intros n p a r [pm hm d df ps sv] | intros [n p a r] [pm hm d df ps sv]]; cbn.
  - intros (-> & -> & -> & Hp & Hd & -> & ->) _. split_and!; auto.
  - intros ? (-> & -> & -> & Hp & Hd & -> & ->) _ ->.
    destruct n, p, ps, df; cbn; split_and!; try impossible; auto.
  - intros (-> & -> & -> & Hp & Hd & -> & ->) [_ Hb]. split_and!; auto. unfold u32. rewrite wrap_small; lia.
  - intros ? (-> & -> & -> & Hp & Hd & -> & ->) _ ->.
    destruct n, p, ps, df; cbn; split_and!; try impossible; auto.
  - intros (-> & -> & -> & Hp & Hd & -> & ->).
    destruct n, p, ps, df; cbn; split_and!; try impossible; auto.
  - intros (-> & _). destruct n; reflexivity.
  - intros (-> & _). destruct n; reflexivity.
  - intros (_ & _ & _ & _ & _ & _ & ->). reflexivity.
  - intros ? (_ & -> & -> & _) ->. destruct n, p; reflexivity.
Defined.
End Armv6mLaws.

Module Armv7mLaws.
Import PortMasks.Armv7m.

(** A part that decodes its [bits] top bits. *)
Definition part_of (bits prigroup : nat) : part := Part (255 - (Z.shiftl 1 (8 - Z.of_nat bits) - 1)) (Z.of_nat prigroup).

(** BASEPRI at [preempt_mask_value] keeps out PendSV and lets in SysTick. *)
Definition separates (p : part) (prio : priorities) : bool :=
  let m := shpr p (preempt_mask_value prio) in
  kept_out p m (shpr p (pendsv_priority prio)) && negb (kept_out p m (shpr p (systick_priority prio))) && (shpr p m =? m).

Definition derives (p : part) : bool := match derive p with Ok prio => separates p prio | Panic _ => false end.

Lemma armv7m_derives_all bits prigroup : (2 <= bits <= 8)%nat -> (prigroup <= 6)%nat -> derives (part_of bits prigroup) = true.
Proof.
  intros Hb Hp.
  assert (H : forallb (fun b => forallb (fun g => derives (part_of b g)) (seq 0 7)) (seq 2 7) = true) by (vm_compute; reflexivity).
  rewrite forallb_forall in H. specialize (H bits). rewrite in_seq in H. specialize (H ltac:(lia)).
  rewrite forallb_forall in H. apply H. rewrite in_seq. lia.
Qed.

Section part.
Context (p : part) (prio : priorities) (Hsep : separates p prio = true).
Let m := shpr p (preempt_mask_value prio).

Definition shows (g : grades) (c : core) : Prop :=
  primask c = (by_depth (irqs g) 0 1) /\ handler_mode c = false /\ basepri c = (by_depth (preempts g) 0 m) /\
  pendsv c = asked g /\ served c = runs g /\ waits g.

Lemma kept_out_pendsv : kept_out p m (shpr p (pendsv_priority prio)) = true.
Proof. unfold separates in Hsep. fold m in Hsep. apply andb_true_iff in Hsep as [[]%andb_true_iff _]. assumption. Qed.

Lemma let_in_systick : kept_out p m (shpr p (systick_priority prio)) = false.
Proof. unfold separates in Hsep. fold m in Hsep. apply andb_true_iff in Hsep as [[? ?%negb_true_iff]%andb_true_iff _]. assumption. Qed.

Lemma mask_kept : shpr p m = m.
Proof. unfold separates in Hsep. fold m in Hsep. apply andb_true_iff in Hsep as [_ ?%Z.eqb_eq]. assumption. Qed.

Lemma mask_nonzero : (m =? 0) = false.
Proof. pose proof kept_out_pendsv as H. unfold kept_out in H. destruct (m =? 0); [discriminate | reflexivity]. Qed.

(** After the barrier, whatever the grades. *)
Lemma armv7m_isb_settles n k a r :
  shows (settled (Grades n k a r)) (isb p prio (Core (by_depth n 0 1) false (by_depth k 0 m) a r)).
Proof.
  unfold isb, let_in. cbn. destruct a; cbn; [| destruct n, k; split_and!; auto; discriminate].
  destruct n, k; cbn; rewrite ?kept_out_pendsv; cbn; split_and!; auto; unfold waits; cbn; auto.
Qed.

Lemma armv7m_isb_closed n k a r c : shows (Grades n k a r) c -> isb p prio c = c.
Proof.
  destruct c as [pm hm bp ps sv]. unfold shows, isb, let_in, waits; cbn. intros (-> & -> & -> & -> & -> & Hw).
  destruct a; [| reflexivity]. destruct n, k; cbn; rewrite ?kept_out_pendsv; cbn; try reflexivity. exfalso; destruct (Hw eq_refl); auto.
Qed.

Ltac opened H :=
  destruct H as (E1 & E2 & E3 & E4 & E5 & _); cbn in E1, E2, E3, E4, E5; subst.

Lemma armv7m_laws : MasksLaws (Armv7m.masks p prio).
Proof.
  refine (@Build_MasksLaws (Armv7m.masks p prio) shows (fun n t => t = by_depth n 0 1) (fun n t => t = by_depth n 0 m) _ _ _ _ _ _ _ _ _);
    first [intros n k a r [pm hm bp ps sv] | intros [n k a r] [pm hm bp ps sv]].
  - intros H _; opened H. cbn. split; [reflexivity |]. split_and!; auto. intros _; left; discriminate.
  - intros t H _ ->; opened H. apply armv7m_isb_settles.
  - intros H _; opened H. cbn.
    split; [reflexivity |].
    assert (Hs : shows (Grades n (S k) a r) (set_basepri p (preempt_mask_value prio) (Core (by_depth n 0 1) false (by_depth k 0 m) a r))).
    { split_and!; auto. intros _; right; discriminate. }
    rewrite (armv7m_isb_closed _ _ _ _ _ Hs). exact Hs.
  - intros t H _ ->; opened H. cbn. unfold set_basepri. cbn.
    fold (shpr p (by_depth k 0 m)).
    replace (shpr p (by_depth k 0 m)) with (by_depth k 0 m) by (destruct k; [reflexivity | symmetry; apply mask_kept]).
    apply armv7m_isb_settles.
  - intros H; opened H. apply armv7m_isb_settles.
  - intros H; opened H. destruct n; reflexivity.
  - intros H; opened H. unfold timer_let_in; cbn. unfold let_in; cbn. destruct n, k; cbn; rewrite ?let_in_systick; reflexivity.
  - intros H; opened H. reflexivity.
  - intros t H ->; opened H. cbn. destruct n, k; cbn; rewrite ?mask_nonzero; reflexivity.
Defined.
End part.
End Armv7mLaws.

Module Armv8rLaws.
Import PortMasks.Armv8r.

(** A GIC that keeps the [bits] top bits of a priority. *)
Definition kept_of (bits : nat) : Z := 255 - (Z.shiftl 1 (8 - Z.of_nat bits) - 1).

(** PMR at the reschedule's priority keeps it out and lets in the timer; open,
    it lets both in. *)
Definition separates (kept : Z) (prio : priorities) : bool :=
  let m := reschedule_priority prio in
  (timer_priority prio <? m) && (m <? pmr_open prio) && (timer_priority prio <? pmr_open prio) &&
  (Z.land m kept =? m) && (Z.land (pmr_open prio) kept =? pmr_open prio).

Definition derives (kept : Z) : bool := match derive kept with Ok prio => separates kept prio | Panic _ => false end.

Lemma armv8r_derives_all bits : (3 <= bits <= 8)%nat -> derives (kept_of bits) = true.
Proof.
  intros Hb. assert (H : forallb (fun b => derives (kept_of b)) (seq 3 6) = true) by (vm_compute; reflexivity).
  rewrite forallb_forall in H. apply H. rewrite in_seq. lia.
Qed.

Section part.
Context (kept : Z) (prio : priorities) (Hsep : separates kept prio = true).

Definition shows (g : grades) (c : core) : Prop :=
  Z.testbit (cpsr c) 7 = negb (bool_decide (irqs g = 0%nat)) /\
  pmr c = (by_depth (preempts g) (pmr_open prio) (reschedule_priority prio)) /\
  raised c = asked g /\ served c = runs g /\ waits g.

Lemma separated : timer_priority prio < reschedule_priority prio < pmr_open prio /\
  Z.land (reschedule_priority prio) kept = reschedule_priority prio /\ Z.land (pmr_open prio) kept = pmr_open prio.
Proof. unfold separates in Hsep. rewrite !andb_true_iff, !Z.ltb_lt, !Z.eqb_eq in Hsep. tauto. Qed.

Lemma i_clear x : (Z.land x cpsr_i =? 0) = negb (Z.testbit x 7).
Proof. apply (land_bit_test x 7). Qed.

Lemma armv8r_isb_settles n k a r c :
  Z.testbit (cpsr c) 7 = negb (bool_decide (n = 0%nat)) -> pmr c = (by_depth k (pmr_open prio) (reschedule_priority prio)) ->
  raised c = a -> served c = r -> shows (settled (Grades n k a r)) (isb prio c).
Proof.
  destruct c as [ps pm ra sv]. cbn. intros Hi -> -> ->. unfold isb, let_in. cbn. rewrite i_clear, Hi.
  pose proof separated as [[Ht Hr] _].
  destruct a; cbn; [| destruct n, k; split_and!; auto; discriminate].
  destruct n, k; cbn in *; rewrite ?(proj2 (Z.ltb_lt _ _) Hr), ?Z.ltb_irrefl; cbn; split_and!; auto; unfold waits; cbn; auto.
Qed.

Ltac opened H :=
  destruct H as (Hi & E2 & E3 & E4 & Hw); cbn in Hi, E2, E3, E4; subst.

Lemma armv8r_laws : MasksLaws (Armv8r.masks kept prio).
Proof.
  refine (@Build_MasksLaws (Armv8r.masks kept prio) shows (fun n t => t = by_depth n 0 cpsr_i)
            (fun n t => t = by_depth n (pmr_open prio) (reschedule_priority prio)) _ _ _ _ _ _ _ _ _);
    pose proof separated as (Hlt & Hk & Hko); first [intros n k a r [ps pm ra sv] | intros [n k a r] [ps pm ra sv]].
  - intros H _; opened H. split; [| split_and!; auto; [apply (set_bit ps 7) | intros _; left; discriminate]].
    cbn. change cpsr_i with (bit 7). rewrite land_bit. change (Z.of_nat 7) with 7. rewrite Hi. destruct n; reflexivity.
  - intros t H _ ->; opened H. destruct n.
    + apply armv8r_isb_settles; auto. cbn. apply (clear_bit ps 7).
    + split_and!; auto; [apply (set_bit ps 7) | intros _; left; discriminate].
  - intros H _; opened H. split; [reflexivity |]. split_and!; auto. intros _; right; discriminate.
  - intros t H _ ->; opened H. apply armv8r_isb_settles; auto. cbn. destruct k; assumption.
  - intros H; opened H. apply armv8r_isb_settles; auto.
  - intros H; opened H. cbn. unfold interrupts_enabled. cbn. rewrite i_clear, Hi. apply negb_involutive.
  - intros H; opened H. cbn. unfold let_in; cbn. rewrite i_clear, Hi, negb_involutive.
    destruct k; cbn; rewrite (proj2 (Z.ltb_lt _ _)) by lia; apply andb_true_r.
  - intros H; opened H. reflexivity.
  - intros t H ->; opened H. cbn. unfold masked_from_baseline. cbn. rewrite i_clear. destruct n, k; cbn; rewrite ?Z.eqb_refl; try reflexivity.
    destruct (Z.eqb_spec (reschedule_priority prio) (pmr_open prio)); [lia | reflexivity].
Defined.
End part.
End Armv8rLaws.

#[local] Arguments settled : simpl never.

Module Rv32Laws.
Import PortMasks.Rv32.

Definition shows (g : grades) (c : core) : Prop :=
  Z.testbit (mstatus c) 3 = bool_decide (irqs g = 0%nat) /\ Z.testbit (mie c) 3 = bool_decide (preempts g = 0%nat) /\
  Z.testbit (mie c) 7 = true /\ msip c = asked g /\ served c = runs g /\ waits g.

#[local] Arguments shows : simpl never.

Lemma mie_set x : negb (Z.land x mstatus_mie =? 0) = Z.testbit x 3.
Proof. change mstatus_mie with (bit 3). rewrite land_bit_test. apply negb_involutive. Qed.

Lemma mtie_set x : negb (Z.land x mie_mtie =? 0) = Z.testbit x 7.
Proof. change mie_mtie with (bit 7). rewrite land_bit_test. apply negb_involutive. Qed.

Lemma settle_settles n k a r c :
  Z.testbit (mstatus c) 3 = bool_decide (n = 0%nat) -> Z.testbit (mie c) 3 = bool_decide (k = 0%nat) ->
  Z.testbit (mie c) 7 = true -> msip c = a -> served c = r -> shows (settled (Grades n k a r)) (settle c).
Proof.
  destruct c as [ms ie ip sv]. cbn. intros Hs Hk Ht -> ->. unfold settle, let_in. cbn.
  change mie_msie with mstatus_mie. rewrite !mie_set, Hs, Hk.
  destruct n, k, a; split_and!; auto; unfold waits, settled; cbn; auto; discriminate.
Qed.

(** A bit of the mask written, and the others. *)
Lemma write_bit x (b : bool) (k : nat) :
  Z.testbit (if b then Z.lor x (bit k) else clear_bits x (bit k)) (Z.of_nat k) = b.
Proof. destruct b; [apply set_bit | apply clear_bit]. Qed.

Lemma write_other x (b : bool) (k j : nat) : k <> j ->
  Z.testbit (if b then Z.lor x (bit k) else clear_bits x (bit k)) (Z.of_nat j) = Z.testbit x (Z.of_nat j).
Proof.
  intros Hne. unfold clear_bits. destruct b; rewrite ?Z.lor_spec, ?Z.land_spec, ?Z.lnot_spec, testbit_bit, bool_decide_eq_false_2 by (auto; lia).
  - apply orb_false_r.
  - apply andb_true_r.
Qed.

Lemma token_bit x (n : nat) : Z.testbit x 3 = bool_decide (n = 0%nat) -> Z.land x mstatus_mie = by_depth n mstatus_mie 0.
Proof.
  intros H. change mstatus_mie with (bit 3). rewrite land_bit. change (Z.of_nat 3) with 3. rewrite H. destruct n; reflexivity.
Qed.

Lemma token_set n : negb (Z.land (by_depth n mstatus_mie 0) mstatus_mie =? 0) = bool_decide (n = 0%nat).
Proof. destruct n; reflexivity. Qed.

Ltac opened H := destruct H as (Hs & Hp & Ht & E3 & E4 & Hw); cbn in Hs, Hp, Ht, E3, E4; subst.

#[export] Instance rv32_laws : MasksLaws Rv32.masks.
Proof.
  refine (@Build_MasksLaws Rv32.masks shows (fun n t => t = by_depth n mstatus_mie 0) (fun n t => t = by_depth n mstatus_mie 0) _ _ _ _ _ _ _ _ _);
    first [intros n k a r [ms ie ip sv] | intros [n k a r] [ms ie ip sv]].
  - intros H _; opened H. split; [apply token_bit; assumption |]. split_and!; auto; [apply (write_bit ms false 3) | intros _; left; discriminate].
  - intros t H _ ->; opened H. cbn. rewrite token_set. destruct n; apply settle_settles; auto; [apply (write_bit ms true 3) | apply (write_bit ms false 3)].
  - intros H _; opened H. split; [apply token_bit; assumption |].
    split_and!; auto; [apply (write_bit ie false 3) | | intros _; right; discriminate].
    etransitivity; [exact (write_other ie false 3 7 ltac:(discriminate)) | exact Ht].
  - intros t H _ ->; opened H. cbn. change mie_msie with mstatus_mie. rewrite token_set.
    destruct k; apply settle_settles; auto.
    + apply (write_bit ie true 3).
    + etransitivity; [exact (write_other ie true 3 7 ltac:(discriminate)) | exact Ht].
    + apply (write_bit ie false 3).
    + etransitivity; [exact (write_other ie false 3 7 ltac:(discriminate)) | exact Ht].
  - intros H; opened H. cbn. change mie_msie with mstatus_mie. rewrite !mie_set, Hs, Hp.
    destruct n, k; cbn; try (apply settle_settles; auto).
    split_and!; auto; unfold waits; cbn; [| discriminate]. destruct a; [| reflexivity]. exfalso; destruct (Hw eq_refl); auto.
  - intros H; opened H. cbn. unfold interrupts_enabled; cbn. rewrite mie_set. assumption.
  - intros H; opened H. cbn. unfold let_in; cbn. rewrite mie_set, mtie_set, Hs, Ht. apply andb_true_r.
  - intros H; opened H. reflexivity.
  - intros t H ->; opened H. cbn. unfold masked_from_baseline; cbn. rewrite token_set. change mie_msie with mstatus_mie. rewrite mie_set, Hp. reflexivity.
Defined.
End Rv32Laws.

Module CoopLaws.
Import PortMasks.Coop.

Definition shows (g : grades) (c : core) : Prop :=
  current_context c = true /\ interrupt_disable_depth c = Z.of_nat (irqs g) /\ preempt_disable_depth c = Z.of_nat (preempts g) /\
  reschedule_pending c = asked g /\ served c = runs g /\ waits g.

Lemma resolve_settles n k a r :
  shows (settled (Grades n k a r)) (resolve_pending_reschedule_if_baseline (Core true (Z.of_nat n) (Z.of_nat k) a r)).
Proof. destruct n, k, a; split_and!; auto; unfold waits, settled; cbn; auto; discriminate. Qed.

Ltac opened H := destruct H as (E1 & E2 & E3 & E4 & E5 & Hw); cbn in E1, E2, E3, E4, E5; subst.

#[export] Instance coop_laws : MasksLaws Coop.masks.
Proof.
  refine (@Build_MasksLaws Coop.masks shows (fun _ _ => True) (fun _ _ => True) _ _ _ _ _ _ _ _ _);
    first [intros n k a r [cc id pd pe sv] | intros [n k a r] [cc id pd pe sv]].
  - intros H [Hb _]; opened H. split; [exact I |]. split_and!; auto; [apply count_up; assumption | intros _; left; discriminate].
  - intros t H [Hb _] _; opened H. unfold PortMasks.irq_restore; cbn [Coop.masks]. unfold irq_restore, set_interrupt_disable_depth.
    cbn [interrupt_disable_depth current_context preempt_disable_depth reschedule_pending served].
    rewrite (proj2 (Z.ltb_lt _ _)), count_down by (cbn in *; lia). apply resolve_settles.
  - intros H [_ Hb]; opened H. split; [exact I |]. split_and!; auto; [apply count_up; assumption | intros _; right; discriminate].
  - intros t H [_ Hb] _; opened H. unfold PortMasks.preempt_enable; cbn [Coop.masks]. unfold preempt_enable, set_preempt_disable_depth.
    cbn [interrupt_disable_depth current_context preempt_disable_depth reschedule_pending served].
    rewrite (proj2 (Z.ltb_lt _ _)), count_down by (cbn in *; lia). apply resolve_settles.
  - intros H; opened H. destruct n, k; split_and!; auto; unfold waits, settled; cbn; auto; discriminate.
  - intros H; opened H. destruct n; reflexivity.
  - intros H; opened H. destruct n; reflexivity.
  - intros H; opened H. reflexivity.
  - intros t H _; opened H. unfold PortMasks.masked_from_baseline; cbn [masks]. unfold masked_from_baseline.
    cbn [interrupt_disable_depth current_context preempt_disable_depth]. rewrite depth_one, depth_zero. reflexivity.
Defined.
End CoopLaws.

Module Sparcv8Laws.
Import PortMasks.Sparcv8.
Section level.
Context (level : Z) (Hlevel : 1 < level <= 14).

Definition shows (g : grades) (c : core) : Prop :=
  Z.land (psr c) pil_irq_bits = by_depth (irqs g) 0 pil_irq_bits /\
  Z.land (psr c) pil_preempt_bits = by_depth (preempts g) 0 pil_preempt_bits /\
  depth c = 0 /\ forced c = asked g /\ served c = runs g /\ waits g.

#[local] Arguments shows : simpl never.

(** The two fields are the whole of PIL. *)
Lemma pil_shows n k c :
  Z.land (psr c) pil_irq_bits = by_depth n 0 pil_irq_bits -> Z.land (psr c) pil_preempt_bits = by_depth k 0 pil_preempt_bits ->
  pil c = by_depth n (by_depth k 0 1) (by_depth k 14 15).
Proof.
  intros Hn Hk. unfold pil. change psr_pil_mask with (Z.lor pil_irq_bits pil_preempt_bits).
  rewrite Z.land_lor_distr_r, Hn, Hk. destruct n, k; reflexivity.
Qed.

Lemma nops_settles n k a r c :
  Z.land (psr c) pil_irq_bits = by_depth n 0 pil_irq_bits -> Z.land (psr c) pil_preempt_bits = by_depth k 0 pil_preempt_bits ->
  depth c = 0 -> forced c = a -> served c = r -> shows (settled (Grades n k a r)) (nops c).
Proof.
  intros Hn Hk Hd Hf Hr. unfold nops, let_in. rewrite (pil_shows _ _ _ Hn Hk), Hf. destruct c as [ps d f sv]. cbn in *. subst.
  destruct n, k, a; split_and!; auto; unfold waits, settled; cbn; auto; discriminate.
Qed.

(** A field set, restored, and the other field beside it. *)
Lemma field_set x f : Z.land (Z.lor x f) f = f.
Proof. rewrite Z.land_lor_distr_l, Z.land_diag. apply Z.bits_inj'. intros i _. rewrite Z.lor_spec, Z.land_spec. destruct (Z.testbit x i), (Z.testbit f i); reflexivity. Qed.

Lemma field_restored x v f : Z.land (Z.lor (Z.land v f) (Z.land x (Z.lnot f))) f = Z.land v f.
Proof.
  apply Z.bits_inj'. intros i Hi. rewrite Z.land_spec, Z.lor_spec, !Z.land_spec, Z.lnot_spec by assumption.
  destruct (Z.testbit x i), (Z.testbit f i), (Z.testbit v i); reflexivity.
Qed.

Lemma other_set x f g : Z.land f g = 0 -> Z.land (Z.lor x f) g = Z.land x g.
Proof. intros H. rewrite Z.land_lor_distr_l, H. apply Z.lor_0_r. Qed.

Lemma other_restored x v f g : Z.land f g = 0 -> Z.land (Z.lor (Z.land v f) (Z.land x (Z.lnot f))) g = Z.land x g.
Proof.
  intros H. apply Z.bits_inj'. intros i Hi. apply (f_equal (fun z => Z.testbit z i)) in H. rewrite Z.land_spec, Z.bits_0 in H.
  rewrite Z.land_spec, Z.lor_spec, !Z.land_spec, Z.lnot_spec by assumption.
  destruct (Z.testbit x i), (Z.testbit f i), (Z.testbit g i), (Z.testbit v i); try reflexivity; discriminate.
Qed.

Ltac opened H := destruct H as (Hi & Hp & E3 & E4 & E5 & Hw); cbn in Hi, Hp, E3, E4, E5; subst.

Lemma sparcv8_laws : MasksLaws (Sparcv8.masks level).
Proof.
  refine (@Build_MasksLaws (Sparcv8.masks level) shows (fun n t => t = by_depth n 0 pil_irq_bits)
            (fun n t => t = by_depth n 0 pil_preempt_bits) _ _ _ _ _ _ _ _ _);
    first [intros n k a r [ps d fo sv] | intros [n k a r] [ps d fo sv]].
  - intros H _; opened H. split; [exact Hi |].
    change (Grades (S n) k a r) with (settled (Grades (S n) k a r)). apply nops_settles; auto; cbn; [apply field_set | rewrite other_set by reflexivity; exact Hp].
  - intros t H _ ->; opened H. apply nops_settles; auto; cbn; [rewrite field_restored; destruct n; reflexivity | rewrite other_restored by reflexivity; exact Hp].
  - intros H _; opened H. split; [exact Hp |].
    replace (Grades n (S k) a r) with (settled (Grades n (S k) a r)) by (destruct n; reflexivity).
    apply nops_settles; auto; cbn; [rewrite other_set by reflexivity; exact Hi | apply field_set].
  - intros t H _ ->; opened H. apply nops_settles; auto; cbn; [rewrite other_restored by reflexivity; exact Hi | rewrite field_restored; destruct k; reflexivity].
  - intros H; opened H. apply nops_settles; auto.
  - intros H; opened H. cbn. unfold interrupts_enabled; cbn. rewrite Hi. destruct n; reflexivity.
  - intros H; opened H. cbn. unfold let_in. rewrite (pil_shows n k) by assumption.
    rewrite (proj2 (Z.eqb_neq level 15)), orb_false_r by lia.
    destruct n, k; cbn; first [apply Z.ltb_lt; lia | apply Z.ltb_ge; lia].
  - intros H; opened H. reflexivity.
  - intros t H ->; opened H. cbn. unfold masked_from_baseline; cbn. rewrite Hp. destruct n, k; reflexivity.
Defined.
End level.
End Sparcv8Laws.

Module PreemptLaws.
Import PortMasks.Preempt.
Section debug.
Context (debug : bool).

Definition shows (g : grades) (c : core) : Prop :=
  current_context c = true /\ interrupt_disable_depth c = Z.of_nat (irqs g) /\ preempt_disable_depth c = Z.of_nat (preempts g) /\
  handed_back_bits c = 0 /\
  sigmask c timer_signo = negb (bool_decide (irqs g = 0%nat)) /\
  sigmask c preempt_signo = negb (bool_decide (irqs g = 0%nat)) || negb (bool_decide (preempts g = 0%nat)) /\
  pending c = asked g /\ served c = runs g /\ waits g.

#[local] Arguments shows : simpl never.

Ltac opened H := destruct H as (E1 & E2 & E3 & E4 & Et & Ep & E5 & E6 & Hw); cbn in E1, E2, E3, E4, Et, Ep, E5, E6; subst.

Lemma nothing_handed_back c : handed_back_bits c = 0 -> in_model c = owned_signals.
Proof. intros H. unfold in_model, handed_back. rewrite H. reflexivity. Qed.

(** The check passes whenever the mask is the depths'. *)
Lemma matches_depths g c : shows g c -> assert_mask_matches_depths debug c = Ok tt.
Proof.
  destruct g as [n k a r], c as [cc id pd hb sm pe sv]. intros H; opened H.
  unfold assert_mask_matches_depths. rewrite nothing_handed_back by reflexivity. unfold should_block_now, should_block. cbn.
  rewrite Et, Ep, !depth_raised. destruct debug; [| reflexivity]. destruct n, k; reflexivity.
Qed.

(** Whatever the mask was, it becomes the depths', and delivers what it lets in. *)
Lemma apply_mask_settles n k a r sm :
  shows (settled (Grades n k a r)) (apply_mask (Core true (Z.of_nat n) (Z.of_nat k) 0 sm a r)).
Proof.
  destruct n, k, a; split_and!; auto; unfold waits, settled; cbn; auto; try discriminate.
Qed.

Lemma preempt_laws : MasksLaws (Preempt.masks debug).
Proof.
  refine (@Build_MasksLaws (Preempt.masks debug) shows (fun _ _ => True) (fun _ _ => True) _ _ _ _ _ _ _ _ _);
    first [intros n k a r [cc id pd hb sm pe sv] | intros [n k a r] [cc id pd hb sm pe sv]].
  - intros H [Hb _]. unfold PortMasks.irq_save; cbn [masks]. unfold irq_save. rewrite (matches_depths _ _ H); opened H.
    cbn [ok obind interrupt_disable_depth preempt_disable_depth]. rewrite count_up by assumption.
    split; [exact I |]. destruct k; split_and!; cbn; auto; first [apply count_up; assumption | intros _; left; discriminate].
  - intros t H [Hb _] _; opened H. unfold PortMasks.irq_restore; cbn [masks]. unfold irq_restore, set_interrupt_disable_depth.
    cbn [interrupt_disable_depth current_context preempt_disable_depth handed_back_bits sigmask pending served].
    rewrite depth_raised, count_down by assumption. cbn [ensure obind negb bool_decide].
    assert (Hs := apply_mask_settles n k a r sm).
    rewrite (matches_depths _ _ Hs). exact Hs.
  - intros H [_ Hb]. unfold PortMasks.preempt_disable; cbn [masks]. unfold preempt_disable. rewrite (matches_depths _ _ H); opened H.
    cbn [ok obind interrupt_disable_depth preempt_disable_depth]. rewrite count_up by assumption.
    split; [exact I |]. destruct n; split_and!; cbn; rewrite ?Et; auto; first [apply count_up; assumption | intros _; right; discriminate].
  - intros t H [_ Hb] _; opened H. unfold PortMasks.preempt_enable; cbn [masks]. unfold preempt_enable, set_preempt_disable_depth.
    cbn [interrupt_disable_depth current_context preempt_disable_depth handed_back_bits sigmask pending served].
    rewrite depth_raised, count_down by assumption. cbn [ensure obind negb bool_decide].
    assert (Hs := apply_mask_settles n k a r sm).
    rewrite (matches_depths _ _ Hs). exact Hs.
  - intros H; opened H. cbn. unfold deliver. cbn. rewrite Ep.
    destruct n, k; split_and!; cbn; rewrite ?Et, ?Ep; auto; unfold waits, settled; cbn; auto; discriminate.
  - intros H; opened H. cbn. unfold interrupts_enabled; cbn. apply depth_zero.
  - intros H; opened H. cbn. rewrite Et. apply negb_involutive.
  - intros H; opened H. reflexivity.
  - intros t H _; opened H. unfold PortMasks.masked_from_baseline; cbn [masks]. unfold masked_from_baseline.
    cbn [interrupt_disable_depth current_context preempt_disable_depth]. rewrite depth_one, depth_zero. reflexivity.
Defined.
End debug.
End PreemptLaws.

(** ** Code that opens and closes regions

    A caller on a core, with the tokens it keeps.  The two grades' regions may
    overlap in any way; within a grade the last opened is the first closed. *)
Section caller.
Context `{M : Masks}.

Record caller := Caller { at_core : core; irq_tokens : list Z; preempt_tokens : list Z }.

Definition perform (o : op) (w : caller) : outcome caller :=
  match o with
  | Mask => let! '(t, c) := irq_save (at_core w) in Ok (Caller c (t :: irq_tokens w) (preempt_tokens w))
  | Unmask =>
      match irq_tokens w with
      | t :: ts => let! c := irq_restore t (at_core w) in Ok (Caller c ts (preempt_tokens w))
      | [] => Panic require_failed
      end
  | Disable => let! '(t, c) := preempt_disable (at_core w) in Ok (Caller c (irq_tokens w) (t :: preempt_tokens w))
  | Enable =>
      match preempt_tokens w with
      | t :: ts => let! c := preempt_enable t (at_core w) in Ok (Caller c (irq_tokens w) ts)
      | [] => Panic require_failed
      end
  | Request => let! c := pend_reschedule (at_core w) in Ok (Caller c (irq_tokens w) (preempt_tokens w))
  end.

Fixpoint performs (ops : list op) (w : caller) : outcome caller :=
  match ops with
  | [] => Ok w
  | o :: ops => let! w := perform o w in performs ops w
  end.

Fixpoint grade_run (ops : list op) (g : grades) : option grades :=
  match ops with
  | [] => Some g
  | o :: ops => g' ← grade_step o g; grade_run ops g'
  end.

Context `{L : !MasksLaws M}.

(** Each token is one of a region at its depth. *)
Fixpoint tokens (is_token : nat -> Z -> Prop) (n : nat) (ts : list Z) : Prop :=
  match n, ts with
  | O, [] => True
  | S n, t :: ts => is_token n t /\ tokens is_token n ts
  | _, _ => False
  end.

Definition abides (g : grades) (w : caller) : Prop :=
  shows g (at_core w) /\ tokens irq_token (irqs g) (irq_tokens w) /\ tokens preempt_token (preempts g) (preempt_tokens w).

Lemma tokens_length P n ts : tokens P n ts -> length ts = n.
Proof. revert ts. induction n as [| n IH]; intros [| t ts]; cbn; try tauto. intros [_ H]. f_equal. auto. Qed.

Lemma settled_depths g : irqs (settled g) = irqs g /\ preempts (settled g) = preempts g.
Proof. destruct g as [[| n] [| k] [] r]; split; reflexivity. Qed.

Lemma perform_abides o g g' w :
  abides g w -> countable g' -> countable g -> grade_step o g = Some g' -> ok (perform o w) (abides g').
Proof.
  destruct g as [n k a r]. intros (Hs & Hi & Hp) Hc' Hc. destruct o; cbn.
  - intros [= <-]. apply ok_bind. apply ok_mono with (1 := save_law _ _ _ _ _ Hs Hc'). intros [t c] [Ht Hs']. split; [exact Hs' |]. split; [split |]; assumption.
  - destruct n as [| n]; [discriminate |]. destruct (irq_tokens w) as [| t ts] eqn:E; [destruct Hi |]. destruct Hi as [Ht Hi]. intros [= <-].
    apply ok_bind. apply ok_mono with (1 := restore_law _ _ _ _ _ _ Hs Hc Ht). intros c Hs'. cbn.
    destruct (settled_depths (Grades n k a r)) as [En Ek]. split; [exact Hs' |]. rewrite En, Ek. auto.
  - intros [= <-]. apply ok_bind. apply ok_mono with (1 := disable_law _ _ _ _ _ Hs Hc'). intros [t c] [Ht Hs']. split; [exact Hs' |]. split; [| split]; assumption.
  - destruct k as [| k]; [discriminate |]. destruct (preempt_tokens w) as [| t ts] eqn:E; [destruct Hp |]. destruct Hp as [Ht Hp]. intros [= <-].
    apply ok_bind. apply ok_mono with (1 := enable_law _ _ _ _ _ _ Hs Hc Ht). intros c Hs'. cbn.
    destruct (settled_depths (Grades n k a r)) as [En Ek]. split; [exact Hs' |]. rewrite En, Ek. auto.
  - intros [= <-]. apply ok_bind. apply ok_mono with (1 := request_law _ _ _ _ _ Hs). intros c Hs'. cbn.
    destruct (settled_depths (Grades n k true r)) as [En Ek]. split; [exact Hs' |]. rewrite En, Ek. auto.
Qed.

(** One step opens one region at most. *)
Lemma grade_step_depth o g g' : grade_step o g = Some g' -> (irqs g' + preempts g' <= S (irqs g + preempts g))%nat.
Proof.
  destruct g as [n k a r], o; cbn; try (intros [= <-]; cbn; lia); [destruct n | destruct k | ]; try discriminate; intros [= <-].
  - destruct (settled_depths (Grades n k a r)) as [-> ->]. cbn. lia.
  - destruct (settled_depths (Grades n k a r)) as [-> ->]. cbn. lia.
  - destruct (settled_depths (Grades n k true r)) as [-> ->]. cbn. lia.
Qed.

Lemma performs_abides ops : forall g g' w,
  abides g w -> Z.of_nat (irqs g + preempts g + length ops) < 2 ^ 32 -> grade_run ops g = Some g' -> ok (performs ops w) (abides g').
Proof.
  induction ops as [| o ops IH]; intros g g' w Ha Hb; cbn.
  - intros [= <-]. exact Ha.
  - destruct (grade_step o g) as [g1 |] eqn:E; [| discriminate]. cbn. intros Hr.
    pose proof (grade_step_depth _ _ _ E). cbn in Hb. apply ok_bind.
    apply ok_mono with (1 := perform_abides o g g1 w Ha ltac:(unfold countable; lia) ltac:(unfold countable; lia) E).
    intros w1 H1. apply (IH g1); auto. lia.
Qed.
End caller.
#[global] Arguments caller : clear implicits.

(** ** The ports there are *)
Inductive port :=
  | CortexM0
  | CortexM (bits prigroup : nat)     (* the priority bits decoded, AIRCR.PRIGROUP *)
  | CortexR (bits : nat)              (* the priority bits the GIC keeps *)
  | RiscV
  | Sparc (timer_level : Z)
  | LinuxCoop
  | LinuxPreempt (debug : bool).

Definition supported (p : port) : Prop :=
  match p with
  | CortexM bits prigroup => (2 <= bits <= 8)%nat /\ (prigroup <= 6)%nat
  | CortexR bits => (3 <= bits <= 8)%nat
  | Sparc level => 1 < level <= 14
  | _ => True
  end.

(** A port's masks and a core of it at baseline, where its start can derive
    its priorities. *)
Definition at_baseline (p : port) : outcome { M : Masks & @core M } :=
  match p with
  | CortexM0 => Ok (existT Armv6m.masks (Armv6m.Core 0 false 0 false false 0))
  | CortexM bits prigroup =>
      let part := Armv7mLaws.part_of bits prigroup in
      let! prio := Armv7m.derive part in Ok (existT (Armv7m.masks part prio) (Armv7m.Core 0 false 0 false 0))
  | CortexR bits =>
      let kept := Armv8rLaws.kept_of bits in
      let! prio := Armv8r.derive kept in
      Ok (existT (Armv8r.masks kept prio) (Armv8r.Core 31 (Armv8r.pmr_open prio) false 0))
  | RiscV => Ok (existT Rv32.masks (Rv32.Core 8 136 false 0))
  | Sparc level => Ok (existT (Sparcv8.masks level) (Sparcv8.Core 160 0 false 0))
  | LinuxCoop => Ok (existT Coop.masks (Coop.Core true 0 0 false 0))
  | LinuxPreempt debug => Ok (existT (Preempt.masks debug) (Preempt.Core true 0 0 0 (fun _ => false) false 0))
  end.

(** The ports whose interrupt tokens carry nothing. *)
Definition tokenless (p : port) : Prop :=
  match p with LinuxCoop | LinuxPreempt _ => True | _ => False end.

(** Every port keeps the contract, from baseline. *)
Lemma port_laws p : supported p ->
  ok (at_baseline p) (fun b => exists L : MasksLaws (projT1 b),
    shows (Grades 0 0 false 0) (projT2 b) /\ (tokenless p -> forall n t, irq_token (M := projT1 b) n t)).
Proof.
  destruct p as [| bits prigroup | bits | | level | | debug]; cbn [supported at_baseline]; intros Hs.
  - exists Armv6mLaws.armv6m_laws. split; [| solve [intros []]]; hnf; split_and!; auto; try discriminate.
  - pose proof (Armv7mLaws.armv7m_derives_all bits prigroup (proj1 Hs) (proj2 Hs)) as Hd. unfold Armv7mLaws.derives in Hd.
    destruct (Armv7m.derive _) as [prio |]; [| discriminate]. exists (Armv7mLaws.armv7m_laws _ prio Hd). split; [| solve [intros [] | intros; exact I]]; hnf; split_and!; auto; discriminate.
  - pose proof (Armv8rLaws.armv8r_derives_all bits Hs) as Hd. unfold Armv8rLaws.derives in Hd.
    destruct (Armv8r.derive _) as [prio |]; [| discriminate]. exists (Armv8rLaws.armv8r_laws _ prio Hd). split; [| solve [intros [] | intros; exact I]]; hnf; split_and!; auto; discriminate.
  - exists Rv32Laws.rv32_laws. split; [| solve [intros [] | intros; exact I]]; hnf; split_and!; auto; discriminate.
  - exists (Sparcv8Laws.sparcv8_laws level Hs). split; [| solve [intros [] | intros; exact I]]; hnf; split_and!; auto; discriminate.
  - exists CoopLaws.coop_laws. split; [| solve [intros [] | intros; exact I]]; hnf; split_and!; auto; discriminate.
  - exists (PreemptLaws.preempt_laws debug). split; [| solve [intros [] | intros; exact I]]; hnf; split_and!; auto; discriminate.
Qed.

(** ** The properties *)

Local Open Scope Z_scope.

(** C24: on every port, masking and disabling preemption are the two
    independent, separately nesting depths of port_core.h. However the regions
    of the two grades overlap, and however deep they nest, no operation fails;
    interrupts are enabled, and the timer's is let in, just when no masking
    region is open, whatever the preemption grade; a critical section knows
    whether it was entered from baseline; and a reschedule that was asked for
    runs at once at baseline, and otherwise when the last region of either
    grade closes, once for all that asked meanwhile. *)
Theorem ports_keep_masking_contract (p : port) (M : Masks) (c : core) (ops : list op) (g : grades) :
  supported p -> at_baseline p = Ok (existT M c) -> grade_run ops (Grades 0 0 false 0) = Some g -> Z.of_nat (length ops) < 2 ^ 32 ->
  ok (performs ops (@Caller M c [] [])) (fun w =>
    length (irq_tokens w) = irqs g /\ length (preempt_tokens w) = preempts g /\
    interrupts_enabled (at_core w) = bool_decide (irqs g = 0%nat) /\
    timer_let_in (at_core w) = bool_decide (irqs g = 0%nat) /\
    served (at_core w) = runs g /\
    (forall t, head (irq_tokens w) = Some t ->
       masked_from_baseline t (at_core w) = bool_decide (irqs g = 1%nat) && bool_decide (preempts g = 0%nat))).
Proof.
  intros Hs Hb Hr Hl. destruct (ok_elim _ _ (port_laws p Hs)) as (b & Eb & L & Hstart & _).
  rewrite Hb in Eb. injection Eb as <-. cbn in L, Hstart.
  apply ok_mono with (1 := performs_abides ops (Grades 0 0 false 0) g (@Caller M c [] []) (conj Hstart (conj I I)) Hl Hr).
  intros w (Hw & Hi & Hp). split_and!.
  - eapply tokens_length, Hi.
  - eapply tokens_length, Hp.
  - apply (enabled_law _ _ Hw).
  - apply (timer_law _ _ Hw).
  - apply (served_law _ _ Hw).
  - intros t Ht. destruct (irq_tokens w) as [| t' ts]; [discriminate |]. injection Ht as ->.
    destruct g as [[| n] k a r]; [destruct Hi |]. destruct Hi as [Ht _]. cbn in Ht.
    rewrite (baseline_law _ _ _ _ _ _ Hw Ht). cbn. destruct n; reflexivity.
Qed.

(** The two grades crossed, with a reschedule asked for inside both. *)
Definition crossed : list op := [Mask; Disable; Request; Unmask; Request; Enable].

Lemma ports_keep_masking_contract_witness :
  match at_baseline (CortexM 4 3) with
  | Ok (existT M c) => ok (performs crossed (@Caller M c [] [])) (fun w => served (at_core w) = 1%nat)
  | Panic _ => False
  end.
Proof.
  destruct (at_baseline (CortexM 4 3)) as [[M c] |] eqn:E; [| discriminate].
  eapply ok_mono; [apply (ports_keep_masking_contract (CortexM 4 3) M c crossed (Grades 0 0 false 1)) |].
  - cbn. lia.
  - exact E.
  - reflexivity.
  - cbn. lia.
  - intros w (_ & _ & _ & _ & H & _). exact H.
Defined.

(** PRIGROUP 7 leaves no group priority: what the derivation answers puts
    SysTick in PendSV's own group, and a disabled preemption keeps it out. *)
Lemma prigroup_seven_stops_the_clock : forall bits, (2 <= bits <= 8)%nat ->
  ok (Armv7m.derive (Armv7mLaws.part_of bits 7)) (fun prio =>
    Armv7m.shpr (Armv7mLaws.part_of bits 7) (Armv7m.systick_priority prio) = Armv7m.shpr (Armv7mLaws.part_of bits 7) (Armv7m.pendsv_priority prio)).
Proof. intros bits Hb. destruct bits as [| [| [| [| [| [| [| [| [| ?]]]]]]]]]; try lia; vm_compute; reflexivity. Qed.

(** Two bits pass the check, and leave the timer at the reschedule's priority. *)
Lemma two_bits_stop_the_timer :
  Armv8r.derive (Armv8rLaws.kept_of 2) = Ok (Armv8r.Priorities 192 128 128).
Proof. reflexivity. Qed.
