(* ===== verification/Spinlock.v ===== *)
(** * The spinlock: spinlock.hpp, spinlock.cpp and the critical sections of core.cpp

    Cores run side by side, each one access at a time: reading or writing a
    flag, test-and-set, writing or reading the token, masking and unmasking its
    own interrupts.  An interrupt on a core is more code on that core, which
    comes when it is not masked and is over before what it interrupted goes on:
    between two operations a core's code may be its handler's.

    A core's locks nest as spinlock_guard's scopes do: the last taken is the
    first let go. *)

From S2P Require Import Prelude PortMasks.

Record spinlock := Spinlock { flag : bool; token : Z }.

Definition set_flag (v : bool) (l : spinlock) : spinlock := Spinlock v (token l).
Definition set_token (v : Z) (l : spinlock) : spinlock := Spinlock (flag l) v.

(** Where in an operation a core is, with what the operation has in its
    registers. *)
Inductive activity :=
  | Running                                         (* in none *)
  | Taking (l : nat) (saved : Z) (waits : bool)     (* about to [take]; [lock] waits, [try_lock] does not *)
  | Storing (l : nat) (saved : Z)                   (* the flag was read clear: about to set it *)
  | Taken (l : nat) (saved : Z)                     (* about to write [token] *)
  | Refused (saved : Z)                             (* [try_lock]: about to leave the critical section *)
  | Dropped (l : nat).                              (* [unlock]: about to read [token] and leave *)

Inductive action :=
  | Lock (l : nat)
  | TryLock (l : nat)
  | Unlock
  | Advance.

Section spinlock.
Context `{M : Masks}.

(** [held] are the locks the core's code holds, the last taken first, each
    with the mask it was taken from; the code keeps no such list. *)
Record cpu := Cpu { masks : core; doing : activity; held : list (nat * Z) }.

Record system := System { locks : gmap nat spinlock; cpus : list cpu }.

(** [config::cores == 1]: the flag is an atomic bool. *)
Definition single (s : system) : bool := length (cpus s) =? 1.

Definition put_cpu (i : nat) (u : cpu) (s : system) : system := System (locks s) (<[i := u]> (cpus s)).
Definition put_lock (l : nat) (v : spinlock) (s : system) : system := System (<[l := v]> (locks s)) (cpus s).

(** [this_core::enter_critical] and [exit_critical]. *)
Definition enter_critical (u : cpu) : outcome (Z * cpu) :=
  let! '(saved, m) := irq_save (masks u) in Ok (saved, Cpu m (doing u) (held u)).

Definition exit_critical (t : Z) (u : cpu) : outcome cpu :=
  let! m := irq_restore t (masks u) in Ok (Cpu m (doing u) (held u)).

Definition now_doing (a : activity) (u : cpu) : cpu := Cpu (masks u) a (held u).

(** The next access of the operation that core [i], which is [u], is in. *)
Definition advance (i : nat) (u : cpu) (s : system) : outcome system :=
  match doing u with
  | Running => Panic require_failed
  | Taking l saved waits =>
      let! v := deref (locks s) l in
      if flag v then
        Ok (if waits then s else put_cpu i (now_doing (Refused saved) u) s)
      else if single s then Ok (put_cpu i (now_doing (Storing l saved) u) s)
      else Ok (put_cpu i (now_doing (Taken l saved) u) (put_lock l (set_flag true v) s))
  | Storing l saved =>
      let! v := deref (locks s) l in
      Ok (put_cpu i (now_doing (Taken l saved) u) (put_lock l (set_flag true v) s))
  | Taken l saved =>
      let! v := deref (locks s) l in
      Ok (put_cpu i (Cpu (masks u) Running ((l, saved) :: held u)) (put_lock l (set_token saved v) s))
  | Refused saved =>
      let! u := exit_critical saved u in
      Ok (put_cpu i (now_doing Running u) s)
  | Dropped l =>
      let! v := deref (locks s) l in
      let! u := exit_critical (token v) u in
      Ok (put_cpu i (now_doing Running u) s)
  end.

Definition nonnull_cpu (i : nat) (s : system) : outcome cpu :=
  match cpus s !! i with Some u => Ok u | None => Panic bad_pointer end.

(** One step of core [i]. *)
Definition act (i : nat) (a : action) (s : system) : outcome system :=
  let! u := nonnull_cpu i s in
  match a, doing u with
  | Lock l, Running =>
      ensure bad_pointer (bool_decide (is_Some (locks s !! l))) ;;!
      let! '(saved, u) := enter_critical u in
      Ok (put_cpu i (now_doing (Taking l saved true) u) s)
  | TryLock l, Running =>
      ensure bad_pointer (bool_decide (is_Some (locks s !! l))) ;;!
      let! '(saved, u) := enter_critical u in
      Ok (put_cpu i (now_doing (Taking l saved false) u) s)
  | Unlock, Running =>
      match held u with
      | [] => Panic require_failed
      | (l, _) :: held =>
          let! v := deref (locks s) l in
          Ok (put_cpu i (Cpu (masks u) (Dropped l) held) (put_lock l (set_flag false v) s))
      end
  | Advance, _ => advance i u s
  | _, _ => Panic require_failed
  end.

Fixpoint acts (l : list (nat * action)) (s : system) : outcome system :=
  match l with
  | [] => Ok s
  | (i, a) :: l => let! s := act i a s in acts l s
  end.
End spinlock.
