(* ===== verification/SpinlockProperties.v ===== *)
(** * The spinlock: who holds it, under which mask, and its properties *)

From S2P Require Import Prelude PortMasks PortProperties Spinlock.
Section spinlock.
Context `{M : Masks}.
Implicit Types (s : system) (u : cpu) (o : nat -> option nat).

(** A core owns a lock from its flag's taking to its dropping. *)
Definition owns u (l : nat) : Prop := l ∈ (held u).*1 \/ exists saved, doing u = Taken l saved.

(** What a core in the middle of an operation relies on. *)
Definition midway s (a : activity) : Prop :=
  match a with
  | Taking l _ _ | Taken l _ | Dropped l => is_Some (locks s !! l)
  | Storing l _ => single s = true /\ exists v, locks s !! l = Some v /\ flag v = false
  | Running | Refused _ => True
  end.

Record cpu_ok s o (i : nat) u : Prop := {
  ok_owns l : owns u l <-> o l = Some i;
  ok_nodup : NoDup (held u).*1;
  ok_taken l saved : doing u = Taken l saved -> l ∉ (held u).*1;
  ok_tokens l t : (l, t) ∈ held u -> exists v, locks s !! l = Some v /\ token v = t;
  ok_midway : midway s (doing u)
}.

(** [o] says who owns each lock. *)
Record exclusive s o : Prop := {
  ex_flag l v : locks s !! l = Some v -> flag v = bool_decide (is_Some (o l));
  ex_owner l i : o l = Some i -> is_Some (cpus s !! i) /\ is_Some (locks s !! l);
  ex_cpu i u : cpus s !! i = Some u -> cpu_ok s o i u
}.

(** Nobody holds anything. *)
Definition idle s : Prop :=
  (forall l v, locks s !! l = Some v -> flag v = false) /\
  forall i u, cpus s !! i = Some u -> doing u = Running /\ held u = [].

Lemma idle_exclusive s : idle s -> exclusive s (fun _ => None).
Proof.
  intros [Hf Hu]. split; [intros l v Hl; rewrite (Hf l v Hl); reflexivity | discriminate |].
  intros i u Hi. destruct (Hu i u Hi) as [Ed Eh]. split; rewrite ?Eh, ?Ed; cbn; try done; [| constructor | intros l t Hin; inversion Hin].
  intros l. unfold owns. rewrite Eh, Ed. split; [| discriminate]. intros [Hin | [saved Hd]]; [inversion Hin | discriminate].
Qed.

(** A core that leaves the locks alone. *)
Lemma exclusive_put_cpu s o i u u' :
  exclusive s o -> cpus s !! i = Some u -> cpu_ok (put_cpu i u' s) o i u' -> exclusive (put_cpu i u' s) o.
Proof.
  intros He Hi Hu'. split.
  - apply (ex_flag _ _ He).
  - intros l j Hj. destruct (ex_owner _ _ He l j Hj) as [Hc Hl]. split; [| exact Hl]. cbn.
    apply lookup_lt_is_Some. rewrite length_insert. apply lookup_lt_is_Some, Hc.
  - intros j w Hj. cbn in Hj. apply list_lookup_insert_Some in Hj as [(<- & <- & _) | [_ Hj]]; [exact Hu' |].
    destruct (ex_cpu _ _ He j w Hj) as [H1 H2 H3 H4 H5]. split; auto.
    unfold midway, single in *. cbn. rewrite length_insert. exact H5.
Qed.

(** On one core there is no other. *)
Lemma single_index s i j u w : single s = true -> cpus s !! i = Some u -> cpus s !! j = Some w -> i = j.
Proof.
  unfold single. intros Hs%Nat.eqb_eq Hi%lookup_lt_Some Hj%lookup_lt_Some. lia.
Qed.

Definition set_owner o (l : nat) (x : option nat) : nat -> option nat := fun k => if decide (k = l) then x else o k.

Lemma set_owner_eq o l x : set_owner o l x l = x.
Proof. unfold set_owner. rewrite decide_True by reflexivity. reflexivity. Qed.

Lemma set_owner_ne o l k x : k <> l -> set_owner o l x k = o k.
Proof. intros H. unfold set_owner. rewrite decide_False by exact H. reflexivity. Qed.

(** A core that writes a lock no other core owns, before or after. *)
Lemma exclusive_put_lock s o x i u u' l v v' :
  exclusive s o -> cpus s !! i = Some u -> locks s !! l = Some v ->
  (o l = None \/ o l = Some i) -> (x = None \/ x = Some i) -> flag v' = bool_decide (is_Some x) ->
  let s' := put_cpu i u' (put_lock l v' s) in
  cpu_ok s' (set_owner o l x) i u' -> exclusive s' (set_owner o l x).
Proof.
  intros He Hi Hl Ho Hx Hf s' Hu'. split.
  - intros k w Hk. cbn in Hk. destruct (decide (k = l)) as [-> | Hne].
    + rewrite lookup_insert_eq in Hk. injection Hk as <-. rewrite set_owner_eq. exact Hf.
    + rewrite lookup_insert_ne in Hk by auto. rewrite set_owner_ne by exact Hne. apply (ex_flag _ _ He _ _ Hk).
  - intros k j Hj. cbn. assert (Hin : is_Some (cpus s !! j)).
    { destruct (decide (k = l)) as [-> | Hne]; [rewrite set_owner_eq in Hj; destruct Hx as [-> | ->]; simplify_eq; eauto |].
      rewrite set_owner_ne in Hj by exact Hne. apply (ex_owner _ _ He k j Hj). }
    split.
    + apply lookup_lt_is_Some. rewrite length_insert. apply lookup_lt_is_Some, Hin.
    + destruct (decide (k = l)) as [-> | Hne]; [rewrite lookup_insert_eq; eauto |].
      rewrite set_owner_ne in Hj by exact Hne. rewrite lookup_insert_ne by auto. apply (ex_owner _ _ He k j Hj).
  - intros j w Hj. cbn in Hj. apply list_lookup_insert_Some in Hj as [(<- & <- & _) | [Hne Hj]]; [exact Hu' |].
    destruct (ex_cpu _ _ He j w Hj) as [H1 H2 H3 H4 H5]. split; auto.
    + intros k. rewrite H1. destruct (decide (k = l)) as [-> | Hk]; [| rewrite set_owner_ne by exact Hk; reflexivity].
      rewrite set_owner_eq. destruct Ho as [-> | ->], Hx as [-> | ->]; split; congruence.
    + intros k t Hin. destruct (H4 k t Hin) as (y & Hy & Ht). cbn. destruct (decide (k = l)) as [-> | Hk].
      * assert (o l = Some j) by (apply H1; left; apply list_elem_of_fmap; exists (l, t); auto). destruct Ho; congruence.
      * exists y. rewrite lookup_insert_ne by auto. auto.
    + destruct (doing w) eqn:Ed; cbn in *; auto;
        try (destruct (decide (l0 = l)) as [-> | Hk]; [rewrite lookup_insert_eq; eauto | rewrite lookup_insert_ne by auto; exact H5]).
      destruct H5 as [Hs _]. destruct Hne. eapply single_index; eauto.
Qed.

(** The steps that leave the owners alone. *)
Lemma cpu_ok_put s o i u u' :
  cpu_ok s o i u -> held u' = held u -> (forall l saved, doing u <> Taken l saved) -> (forall l saved, doing u' <> Taken l saved) ->
  midway (put_cpu i u' s) (doing u') -> cpu_ok (put_cpu i u' s) o i u'.
Proof.
  intros [H1 H2 H3 H4 H5] Eh Hd Hd' Hm. split; try rewrite Eh; auto.
  - intros l. rewrite <- H1. unfold owns. rewrite Eh. split; (intros [H | [saved H]]; [auto | exfalso; eapply Hd + eapply Hd'; exact H]).
  - intros l saved H. destruct (Hd' _ _ H).
Qed.

Lemma single_put i u l v s : single (put_cpu i u (put_lock l v s)) = single s.
Proof. unfold single. cbn. rewrite length_insert. reflexivity. Qed.

(** A lock taken: the flag is the core's, the token not yet. *)
Lemma exclusive_take s o i u l v saved :
  exclusive s o -> cpus s !! i = Some u -> locks s !! l = Some v -> flag v = false -> (forall k t, doing u <> Taken k t) ->
  exclusive (put_cpu i (now_doing (Taken l saved) u) (put_lock l (set_flag true v) s)) (set_owner o l (Some i)).
Proof.
  intros He Hi Hl Hf Hd. destruct (ex_cpu _ _ He i u Hi) as [H1 H2 H3 H4 H5].
  assert (Ho : o l = None).
  { pose proof (ex_flag _ _ He l v Hl) as E. rewrite Hf in E. symmetry in E. apply bool_decide_eq_false in E. apply eq_None_not_Some, E. }
  assert (Hh : l ∉ (held u).*1) by (intros Hin; assert (o l = Some i) by (apply H1; left; exact Hin); congruence).
  eapply exclusive_put_lock; eauto. split; cbn.
  - intros k. unfold owns. cbn. destruct (decide (k = l)) as [-> | Hk].
    + rewrite set_owner_eq. split; [reflexivity | eauto].
    + rewrite set_owner_ne, <- H1 by exact Hk. unfold owns. split; (intros [Hin | [t E]]; [auto | ]); [simplify_eq | destruct (Hd _ _ E)].
  - exact H2.
  - intros k t [= <- <-]. exact Hh.
  - intros k t Hin. destruct (H4 k t Hin) as (y & Hy & Ht). destruct (decide (k = l)) as [-> | Hk].
    + exfalso. apply Hh. apply list_elem_of_fmap. exists (l, t). auto.
    + exists y. rewrite lookup_insert_ne by auto. auto.
  - rewrite lookup_insert_eq. eauto.
Qed.

(** Its token written: the core holds it. *)
Lemma exclusive_hold s o i u l v saved :
  exclusive s o -> cpus s !! i = Some u -> locks s !! l = Some v -> doing u = Taken l saved ->
  exclusive (put_cpu i (Cpu (masks u) Running ((l, saved) :: held u)) (put_lock l (set_token saved v) s)) (set_owner o l (Some i)).
Proof.
  intros He Hi Hl Hd. destruct (ex_cpu _ _ He i u Hi) as [H1 H2 H3 H4 H5].
  assert (Ho : o l = Some i) by (apply H1; right; eauto).
  pose proof (H3 _ _ Hd) as Hh.
  eapply exclusive_put_lock; eauto.
  { cbn. rewrite (ex_flag _ _ He l v Hl), Ho. reflexivity. }
  split; cbn.
  - intros k. unfold owns. cbn. rewrite elem_of_cons. destruct (decide (k = l)) as [-> | Hk].
    + rewrite set_owner_eq. split; [reflexivity | auto].
    + rewrite set_owner_ne, <- H1 by exact Hk. unfold owns. rewrite Hd. split.
      * intros [[? | ?] | [? [=]]]; [contradiction | auto].
      * intros [Hin | [t [= <- <-]]]; [auto | contradiction].
  - constructor; assumption.
  - discriminate.
  - intros k t [[= -> ->] | Hin]%elem_of_cons; [rewrite lookup_insert_eq; eexists; split; reflexivity |].
    destruct (H4 k t Hin) as (y & Hy & Ht). destruct (decide (k = l)) as [-> | Hk].
    + exfalso. apply Hh. apply list_elem_of_fmap. exists (l, t). auto.
    + exists y. rewrite lookup_insert_ne by auto. auto.
  - exact I.
Qed.

(** Its flag dropped: nobody's. *)
Lemma exclusive_drop s o i u l t rest v :
  exclusive s o -> cpus s !! i = Some u -> locks s !! l = Some v -> doing u = Running -> held u = (l, t) :: rest ->
  exclusive (put_cpu i (Cpu (masks u) (Dropped l) rest) (put_lock l (set_flag false v) s)) (set_owner o l None).
Proof.
  intros He Hi Hl Hd Hh. destruct (ex_cpu _ _ He i u Hi) as [H1 H2 H3 H4 H5]. rewrite Hh in *. cbn in H2.
  apply NoDup_cons in H2 as [Hni H2].
  assert (Ho : o l = Some i) by (apply H1; left; rewrite Hh; left).
  eapply exclusive_put_lock; eauto. split; cbn.
  - intros k. unfold owns. cbn. destruct (decide (k = l)) as [-> | Hk].
    + rewrite set_owner_eq. split; [intros [? | [? [=]]]; contradiction | discriminate].
    + rewrite set_owner_ne, <- H1 by exact Hk. unfold owns. rewrite Hh, Hd. cbn. rewrite elem_of_cons. split.
      * intros [? | [? [=]]]; auto.
      * intros [[? | ?] | [? [=]]]; [contradiction | auto].
  - exact H2.
  - discriminate.
  - intros k t' Hin. destruct (H4 k t' ltac:(right; exact Hin)) as (y & Hy & Ht). destruct (decide (k = l)) as [-> | Hk].
    + exfalso. apply Hni. apply list_elem_of_fmap. exists (l, t'). auto.
    + exists y. rewrite lookup_insert_ne by auto. auto.
  - rewrite lookup_insert_eq. eauto.
Qed.

(** ** Every step *)
Lemma act_exclusive i a s s' o : exclusive s o -> act i a s = Ok s' -> exists o', exclusive s' o'.
Proof.
  intros He. unfold act, nonnull_cpu. destruct (cpus s !! i) as [u |] eqn:Hi; [| discriminate]. cbn [obind].
  pose proof (ex_cpu _ _ He i u Hi) as Hu. pose proof (ok_midway _ _ _ _ Hu) as Hm.
  assert (Hlock : forall l waits E, (let! _ := ensure bad_pointer (bool_decide (is_Some (locks s !! l))) in
      let! '(saved, u0) := enter_critical u in Ok (put_cpu i (now_doing (Taking l saved waits) u0) s)) = E ->
      doing u = Running -> E = Ok s' -> exists o', exclusive s' o').
  { intros l waits E <- Hd Hs. apply obind_inv in Hs as (? & Hl%ensure_inv%bool_decide_eq_true & Hs).
    apply obind_inv in Hs as ([saved u1] & E & Hs). unfold enter_critical in E. apply obind_inv in E as ([t m] & _ & [= <- <-]).
    injection Hs as <-. exists o. apply (exclusive_put_cpu _ _ _ _ _ He Hi). apply (cpu_ok_put _ _ _ _ _ Hu); cbn; auto; try discriminate.
    intros k t'. rewrite Hd. discriminate. }
  destruct a as [l | l | |], (doing u) eqn:Hd; try discriminate; eauto.
  - destruct (held u) as [| [l t] rest] eqn:Hh; [discriminate |]. unfold deref.
    destruct (locks s !! l) as [v |] eqn:Hl; [| discriminate]. cbn. intros [= <-].
    exists (set_owner o l None). eapply exclusive_drop; eauto.
  - intros Hs. unfold advance in Hs. rewrite Hd in Hs. discriminate.
  - unfold advance. rewrite Hd. unfold deref. destruct (locks s !! l) as [v |] eqn:Hl; [| discriminate]. cbn.
    destruct (flag v) eqn:Hf; [destruct waits | destruct (single s) eqn:Hsi]; intros [= <-].
    + eauto.
    + exists o. apply (exclusive_put_cpu _ _ _ _ _ He Hi). apply (cpu_ok_put _ _ _ _ _ Hu); cbn; auto; try discriminate.
      intros k t'. rewrite Hd. discriminate.
    + exists o. apply (exclusive_put_cpu _ _ _ _ _ He Hi). apply (cpu_ok_put _ _ _ _ _ Hu); cbn; auto; try discriminate.
      * intros k t'. rewrite Hd. discriminate.
      * unfold single in *. cbn. rewrite length_insert. eauto.
    + exists (set_owner o l (Some i)). eapply exclusive_take; eauto. intros k t'. rewrite Hd. discriminate.
  - unfold advance. rewrite Hd. cbn in Hm. destruct Hm as (_ & v & Hl & Hf). unfold deref. rewrite Hl. cbn. intros [= <-].
    exists (set_owner o l (Some i)). eapply exclusive_take; eauto. intros k t'. rewrite Hd. discriminate.
  - unfold advance. rewrite Hd. unfold deref. destruct (locks s !! l) as [v |] eqn:Hl; [| discriminate]. cbn. intros [= <-].
    exists (set_owner o l (Some i)). eapply exclusive_hold; eauto.
  - unfold advance, exit_critical. rewrite Hd. intros Hs. apply obind_inv in Hs as (u1 & E & [= <-]). apply obind_inv in E as (m & _ & [= <-]).
    exists o. apply (exclusive_put_cpu _ _ _ _ _ He Hi). apply (cpu_ok_put _ _ _ _ _ Hu); cbn; auto; try discriminate.
    intros k t'. rewrite Hd. discriminate.
  - unfold advance, exit_critical. rewrite Hd. unfold deref. destruct (locks s !! l) as [v |] eqn:Hl; [| discriminate]. cbn.
    intros Hs. apply obind_inv in Hs as (u1 & E & [= <-]). apply obind_inv in E as (m & _ & [= <-]).
    exists o. apply (exclusive_put_cpu _ _ _ _ _ He Hi). apply (cpu_ok_put _ _ _ _ _ Hu); cbn; auto; try discriminate.
    intros k t'. rewrite Hd. discriminate.
Qed.

Lemma acts_exclusive l : forall s s' o, exclusive s o -> acts l s = Ok s' -> exists o', exclusive s' o'.
Proof.
  induction l as [| [i a] l IH]; intros s s' o He; cbn; [intros [= <-]; eauto |].
  intros Hs. apply obind_inv in Hs as (s1 & H1 & Hs). destruct (act_exclusive _ _ _ _ _ He H1) as [o1 H]. eauto.
Qed.
End spinlock.

(** ** The masks under the locks *)
Section masks.
Context {M : Masks} {L : MasksLaws M}.
Implicit Types (s : system) (u : cpu).

(** The critical sections a core is in. *)
Definition sections u : nat := length (held u) + match doing u with Running => 0 | _ => 1 end.

(** The word the operation under way will restore is one of its own depth. *)
Definition will_restore s u (t_ok : Z -> Prop) : Prop :=
  match doing u with
  | Running => True
  | Taking _ t _ | Storing _ t | Taken _ t | Refused t => t_ok t
  | Dropped l => forall v, locks s !! l = Some v -> t_ok (token v)
  end.

Definition masked_ok s u : Prop :=
  (exists a r, shows (Grades (sections u) 0 a r) (masks u)) /\
  tokens irq_token (length (held u)) (held u).*2 /\ will_restore s u (irq_token (length (held u))).

Definition masked s : Prop := forall i u, cpus s !! i = Some u -> masked_ok s u.

(** Nobody else writes a token a core is about to read: there is no other
    core, or the port's tokens carry nothing. *)
Definition tokens_safe s : Prop := single s = true \/ forall n t, irq_token n t.

Definition few_locks s : Prop := (Z.of_nat (S (size (locks s))) < 2 ^ 32)%Z.

Definition enabled (a : action) u s : Prop :=
  match a, doing u with
  | (Lock l | TryLock l), Running => is_Some (locks s !! l)
  | Unlock, Running => held u <> []
  | Advance, Running => False
  | Advance, _ => True
  | _, _ => False
  end.

Lemma act_enabled i a s s' u : cpus s !! i = Some u -> act i a s = Ok s' -> enabled a u s.
Proof.
  intros Hi. unfold act, nonnull_cpu. rewrite Hi. cbn [obind]. unfold enabled. destruct a, (doing u) eqn:Hd; cbn [obind]; try discriminate; auto.
  - intros H. apply obind_inv in H as (? & H%ensure_inv & _). apply bool_decide_eq_true in H. exact H.
  - intros H. apply obind_inv in H as (? & H%ensure_inv & _). apply bool_decide_eq_true in H. exact H.
  - destruct (held u) as [| [? ?] ?]; discriminate.
  - unfold advance. rewrite Hd. discriminate.
Qed.

(** The locks a core holds are among those there are. *)
Lemma held_bound s o i u : cpu_ok s o i u -> exclusive s o -> length (held u) <= size (locks s).
Proof.
  intros Hu He. rewrite <- (length_fmap fst), <- size_dom.
  rewrite <- (size_list_to_set (C := gset nat) (held u).*1) by apply (ok_nodup _ _ _ _ Hu).
  apply subseteq_size. intros l Hl%elem_of_list_to_set. apply elem_of_dom.
  apply (ex_owner _ _ He l i). apply (ok_owns _ _ _ _ Hu). left. exact Hl.
Qed.

Lemma settled_shows n a r c : shows (settled (Grades n 0 a r)) c -> exists a' r', shows (Grades n 0 a' r') c.
Proof. destruct n as [| n], a; eauto. Qed.

(** A step is one core's: the others' masks are theirs, and their tokens safe. *)
Lemma masked_put s s' i u u' :
  masked s -> cpus s !! i = Some u -> cpus s' = <[i := u']> (cpus s) -> tokens_safe s ->
  masked_ok s' u' -> masked s'.
Proof.
  intros Hm Hi Hc Hsafe Hu' j w Hj. rewrite Hc in Hj. apply list_lookup_insert_Some in Hj as [(<- & <- & _) | [Hne Hj]]; [exact Hu' |].
  destruct Hsafe as [Hs | Hin]; [destruct Hne; eapply single_index; eauto |].
  destruct (Hm j w Hj) as (H1 & H2 & H3). split_and!; auto. unfold will_restore in *. destruct (doing w); auto.
Qed.

Lemma enter_masked s u a r : shows (Grades (length (held u)) 0 a r) (masks u) -> doing u = Running ->
  (Z.of_nat (S (length (held u))) < 2 ^ 32)%Z ->
  ok (enter_critical u) (fun '(saved, u') =>
    exists m, u' = Cpu m (doing u) (held u) /\ irq_token (length (held u)) saved /\ shows (Grades (S (length (held u))) 0 a r) m).
Proof.
  intros Hs Hd Hb. unfold enter_critical. apply ok_bind.
  apply ok_mono with (1 := save_law _ _ _ _ _ Hs ltac:(split; cbn; lia)). intros [t m] [Ht Hm]. cbn in *. eauto.
Qed.

Lemma leave_masked u a r t : shows (Grades (S (length (held u))) 0 a r) (masks u) -> irq_token (length (held u)) t ->
  (Z.of_nat (S (length (held u))) < 2 ^ 32)%Z ->
  ok (exit_critical t u) (fun u' => exists m, u' = Cpu m (doing u) (held u) /\ exists a r, shows (Grades (length (held u)) 0 a r) m).
Proof.
  intros Hs Ht Hb. unfold exit_critical. apply ok_bind.
  apply ok_mono with (1 := restore_law _ _ _ _ _ _ Hs ltac:(split; cbn; lia) Ht). intros m Hm. cbn. eauto using settled_shows.
Qed.

(** Every step that may be taken is, and keeps the masks. *)
Lemma act_masked i a s o u :
  exclusive s o -> masked s -> tokens_safe s -> few_locks s -> cpus s !! i = Some u -> enabled a u s -> ok (act i a s) masked.
Proof.
  intros He Hm Hsafe Hfew Hi Hen. pose proof (ex_cpu _ _ He i u Hi) as Hu.
  pose proof (held_bound _ _ _ _ Hu He) as Hlen. unfold few_locks in Hfew.
  assert (Hb : (Z.of_nat (S (length (held u))) < 2 ^ 32)%Z) by lia.
  destruct (Hm i u Hi) as ((b & r & Hsh) & Htok & Hres). unfold sections in Hsh. unfold will_restore in Hres.
  pose proof (ok_midway _ _ _ _ Hu) as Hmid. unfold act, nonnull_cpu. rewrite Hi. cbn [obind].
  unfold enabled in Hen. assert (Hput := fun s' u' => masked_put s s' i u u' Hm Hi).
  destruct a as [l | l | |], (doing u) eqn:Hd; try contradiction; cbn [obind midway] in *; rewrite ?Nat.add_0_r, ?Nat.add_1_r in Hsh.
  1,2: apply ok_bind, ok_ensure; [apply bool_decide_eq_true; exact Hen |]; apply ok_bind;
    apply ok_mono with (1 := enter_masked s u b r Hsh Hd Hb); intros [saved u'] (m & -> & Ht & Hs'); cbn;
    eapply Hput; [reflexivity | exact Hsafe |]; split; [exists b, r; unfold sections; cbn; rewrite Nat.add_1_r; exact Hs' | split; [exact Htok | exact Ht]].
  - destruct (held u) as [| [l t] rest] eqn:Hh; [contradiction |]. destruct Htok as [Ht Htok].
    destruct (ok_tokens _ _ _ _ Hu l t ltac:(rewrite Hh; left)) as (v & Hl & Hv). unfold deref. rewrite Hl. cbn.
    eapply Hput; [reflexivity | exact Hsafe |]. split; [exists b, r; unfold sections; cbn in *; rewrite Nat.add_1_r; exact Hsh | split; [exact Htok |]].
    cbn. intros w. rewrite lookup_insert_eq. intros [= <-]. cbn. rewrite Hv. exact Ht.
  - unfold advance. rewrite Hd. destruct Hmid as [v Hl]. unfold deref. rewrite Hl. cbn [obind].
    destruct (flag v); [destruct waits; [exact Hm |] | destruct (single s)]; cbn [ok]; (eapply Hput; [reflexivity | exact Hsafe |]);
      (split; [exists b, r; unfold sections; cbn; rewrite Nat.add_1_r; exact Hsh | split; [exact Htok | exact Hres]]).
  - unfold advance. rewrite Hd. destruct Hmid as (_ & v & Hl & _). unfold deref. rewrite Hl. cbn [obind ok].
    eapply Hput; [reflexivity | exact Hsafe |]. split; [exists b, r; unfold sections; cbn; rewrite Nat.add_1_r; exact Hsh | split; [exact Htok | exact Hres]].
  - unfold advance. rewrite Hd. destruct Hmid as [v Hl]. unfold deref. rewrite Hl. cbn [obind ok].
    eapply Hput; [reflexivity | exact Hsafe |]. split; [exists b, r; unfold sections; cbn; rewrite Nat.add_0_r; exact Hsh | split; [split; [exact Hres | exact Htok] | exact I]].
  - unfold advance. rewrite Hd. apply ok_bind. apply ok_mono with (1 := leave_masked u b r _ Hsh Hres Hb). intros u' (m & -> & b' & r' & Hs'). cbn [ok].
    eapply Hput; [reflexivity | exact Hsafe |]. split; [exists b', r'; unfold sections; cbn; rewrite Nat.add_0_r; exact Hs' | split; [exact Htok | exact I]].
  - unfold advance. rewrite Hd. destruct Hmid as [v Hl]. unfold deref. rewrite Hl. cbn [obind]. apply ok_bind.
    apply ok_mono with (1 := leave_masked u b r _ Hsh (Hres v Hl) Hb). intros u' (m & -> & b' & r' & Hs'). cbn [ok].
    eapply Hput; [reflexivity | exact Hsafe |]. split; [exists b', r'; unfold sections; cbn; rewrite Nat.add_0_r; exact Hs' | split; [exact Htok | exact I]].
Qed.

(** What a step leaves of the whole. *)
Lemma act_sizes i a s s' : act i a s = Ok s' -> length (cpus s') = length (cpus s) /\ size (locks s') = size (locks s).
Proof.
  assert (Hl : forall l v w, locks s !! l = Some v -> size (<[l := w]> (locks s)) = size (locks s)).
  { intros l v w H. rewrite map_size_insert, H. reflexivity. }
  unfold act, nonnull_cpu. destruct (cpus s !! i) as [u |]; [| discriminate]. cbn [obind].
  assert (Hc : forall u' x, Ok (put_cpu i u' s) = Ok x -> length (cpus x) = length (cpus s) /\ size (locks x) = size (locks s)).
  { intros u' x [= <-]. cbn. rewrite length_insert. auto. }
  assert (Hcl : forall u' l v w x, locks s !! l = Some v -> Ok (put_cpu i u' (put_lock l w s)) = Ok x ->
    length (cpus x) = length (cpus s) /\ size (locks x) = size (locks s)).
  { intros u' l v w x H [= <-]. cbn. rewrite length_insert. eauto. }
  destruct a as [l | l | |], (doing u) eqn:Hd; cbn [obind]; try discriminate.
  1,2: intros H; apply obind_inv in H as (? & _ & H); apply obind_inv in H as ([? ?] & _ & H); eauto.
  2: unfold advance; rewrite Hd; discriminate.
  1: destruct (held u) as [| [l t] rest]; [discriminate |].
  all: unfold advance; rewrite ?Hd; unfold deref; intros H; try (apply obind_inv in H as (? & _ & H); eauto; fail);
    (destruct (locks s !! l) as [v |] eqn:El; [cbn [obind] in H | discriminate]); eauto.
  - destruct (flag v); [destruct waits; [injection H as <-; auto |] | destruct (single s)]; eauto.
  - apply obind_inv in H as (? & _ & H). eauto.
Qed.

Lemma acts_masked l : forall s s' o,
  exclusive s o -> masked s -> tokens_safe s -> few_locks s -> acts l s = Ok s' ->
  (exists o', exclusive s' o') /\ masked s' /\ tokens_safe s' /\ few_locks s'.
Proof.
  induction l as [| [i a] l IH]; intros s s' o He Hm Hs Hf; cbn; [intros [= <-]; eauto |].
  intros H. apply obind_inv in H as (s1 & H1 & H).
  destruct (cpus s !! i) as [u |] eqn:Hi; [| unfold act, nonnull_cpu in H1; rewrite Hi in H1; discriminate].
  pose proof (act_masked i a s o u He Hm Hs Hf Hi (act_enabled _ _ _ _ _ Hi H1)) as Hm1. rewrite H1 in Hm1.
  destruct (act_exclusive _ _ _ _ _ He H1) as [o1 He1]. destruct (act_sizes _ _ _ _ H1) as [Hc Hl].
  apply (IH s1 s' o1 He1 Hm1); [| | exact H].
  - destruct Hs as [Hs | Hs]; [left; unfold single in *; rewrite Hc; exact Hs | right; exact Hs].
  - unfold few_locks in *. rewrite Hl. exact Hf.
Qed.
End masks.

(** ** From power-up *)
Section powered.
Context {M : Masks}.

(** [n] cores with the masks [c], and free locks at [ls]. *)
Definition powered (n : nat) (ls : list nat) (c : core) : system :=
  System (list_to_map ((fun l => (l, Spinlock false 0)) <$> ls)) (replicate n (Cpu c Running [])).

Lemma powered_lock n ls c l v : locks (powered n ls c) !! l = Some v -> v = Spinlock false 0.
Proof. intros H. apply elem_of_list_to_map_2, list_elem_of_fmap in H as (k & [= _ ->] & _). reflexivity. Qed.

Lemma powered_cpu n ls c i u : cpus (powered n ls c) !! i = Some u -> u = Cpu c Running [].
Proof. intros [-> _]%lookup_replicate. reflexivity. Qed.

Lemma powered_idle n ls c : idle (powered n ls c).
Proof. split; [intros l v ->%powered_lock; reflexivity | intros i u ->%powered_cpu; split; reflexivity]. Qed.

Lemma powered_size n ls c : size (locks (powered n ls c)) <= length ls.
Proof.
  cbn. induction ls as [| l ls IH]; cbn; [rewrite map_size_empty; lia |]. rewrite map_size_insert. destruct (_ !! l); cbn; lia.
Qed.

Lemma powered_masked {L : MasksLaws M} n ls c a r : shows (Grades 0 0 a r) c -> masked (powered n ls c).
Proof. intros H i u ->%powered_cpu. split; [exists a, r; exact H | split; exact I]. Qed.
End powered.

(** ** The properties *)

(** C22: a spinlock excludes. However the accesses of any number of cores
    interleave, with a flag taken by test-and-set on several cores and by a load
    and a store on one, no two cores own a lock at a time, from the taking of
    its flag to the dropping; its flag is set just when one does; and while a
    core holds it, its token is the word that core saved. *)
Theorem spinlock_excludes (M : Masks) (c : core) (n : nat) (ls : list nat) (l : list (nat * action)) (s : system) :
  acts l (powered n ls c) = Ok s ->
  (forall i j u w k, cpus s !! i = Some u -> cpus s !! j = Some w -> owns u k -> owns w k -> i = j) /\
  (forall k v, locks s !! k = Some v -> flag v = true <-> exists i u, cpus s !! i = Some u /\ owns u k) /\
  (forall i u k t, cpus s !! i = Some u -> (k, t) ∈ held u -> exists v, locks s !! k = Some v /\ token v = t).
Proof.
  intros H. destruct (acts_exclusive _ _ _ _ (idle_exclusive _ (powered_idle n ls c)) H) as [o He]. split_and!.
  - intros i j u w k Hi Hj Hu Hw.
    apply (ok_owns _ _ _ _ (ex_cpu _ _ He i u Hi)) in Hu. apply (ok_owns _ _ _ _ (ex_cpu _ _ He j w Hj)) in Hw. congruence.
  - intros k v Hk. rewrite (ex_flag _ _ He k v Hk), bool_decide_eq_true. split.
    + intros [i Hi]. destruct (ex_owner _ _ He k i Hi) as [[u Hu] _]. exists i, u. split; [exact Hu |]. apply (ok_owns _ _ _ _ (ex_cpu _ _ He i u Hu)), Hi.
    + intros (i & u & Hu & Ho). exists i. apply (ok_owns _ _ _ _ (ex_cpu _ _ He i u Hu)), Ho.
  - intros i u k t Hi. apply (ok_tokens _ _ _ _ (ex_cpu _ _ He i u Hi)).
Qed.

(** C23: holding a spinlock is a critical section. On one core of any port, and
    on any number of cores of the ports whose tokens carry nothing, a core's
    interrupts are enabled just when it is in no section: it holds no lock and
    is in none's operation. They are masked from the moment it begins to take a
    lock until it has let go of its last: so a refused try_lock leaves its
    caller as it was, and an inner lock's release does not open the outer one's
    section. And no operation that was begun stops short: every next step can
    be taken. *)
Theorem critical_sections_mask (p : port) (M : Masks) (c : core) (n : nat) (ls : list nat) (l : list (nat * action)) (s : system)
    (i : nat) (u : cpu) :
  supported p -> at_baseline p = Ok (existT M c) -> n = 1 \/ tokenless p -> (Z.of_nat (S (length ls)) < 2 ^ 32)%Z ->
  acts l (powered n ls c) = Ok s -> cpus s !! i = Some u ->
  interrupts_enabled (masks u) = bool_decide (sections u = 0) /\
  forall a, enabled a u s -> exists s', act i a s = Ok s'.
Proof.
  intros Hp Hb Hn Hls H Hi. destruct (ok_elim _ _ (port_laws p Hp)) as (b & Eb & L & Hstart & Ht).
  rewrite Hb in Eb. injection Eb as <-. cbn in L, Hstart, Ht.
  destruct (acts_masked l _ s _ (idle_exclusive _ (powered_idle n ls c)) (powered_masked n ls c _ _ Hstart)) as ((o & He) & Hm & Hs & Hf).
  - destruct Hn as [-> | Hn]; [left; reflexivity | right; auto].
  - unfold few_locks. pose proof (powered_size n ls c). lia.
  - exact H.
  - split.
    + destruct (Hm i u Hi) as ((a & r & Hsh) & _). exact (enabled_law _ _ Hsh).
    + intros a Ha. pose proof (act_masked i a s o u He Hm Hs Hf Hi Ha) as Hok. destruct (act i a s); [eauto | destruct Hok].
Qed.

(** [unlock] reads the token after it has dropped the flag. On two cores
    of a port whose token is the saved mask, another core can take the lock in
    between and write its own token, which the first core then restores: here
    it still holds another lock, and its interrupts are enabled. *)
Theorem unlock_restores_anothers_token :
  exists l s u, acts l (powered (M := Armv6m.masks) 2 [1; 2] (Armv6m.Core 0 false 0 false false 0)) = Ok s /\
    cpus s !! 0 = Some u /\ doing u = Running /\ held u <> [] /\ interrupts_enabled (masks u) = true.
Proof.
  exists [(0, Lock 1); (0, Advance); (0, Advance); (0, Lock 2); (0, Advance); (0, Advance); (0, Unlock);
          (1, Lock 2); (1, Advance); (1, Advance); (0, Advance)].
  exists (System (<[2 := Spinlock true 0]> (<[1 := Spinlock true 0]> ∅))
            [Cpu (M := Armv6m.masks) (Armv6m.Core 0 false 0 false false 0) Running [(1, 0%Z)];
             Cpu (M := Armv6m.masks) (Armv6m.Core 1 false 0 false false 0) Running [(2, 0%Z)]]).
  eexists. split; [reflexivity |]. split; [reflexivity |]. split; [reflexivity |]. split; [discriminate | reflexivity].
Qed.

(** Two cores, a lock each tries for. *)
Definition contest : list (nat * action) :=
  [(0, Lock 1); (1, TryLock 1); (0, Advance); (1, Advance); (1, Advance); (0, Advance)].

Lemma spinlock_excludes_witness :
  match acts contest (powered (M := Coop.masks) 2 [1] (Coop.Core true 0 0 false 0)) with
  | Ok s => forall k v, locks s !! k = Some v -> flag v = true <-> exists i u, cpus s !! i = Some u /\ owns u k
  | Panic _ => False
  end.
Proof.
  destruct (acts contest _) as [s |] eqn:E; [| discriminate].
  exact (proj1 (proj2 (spinlock_excludes Coop.masks (Coop.Core true 0 0 false 0) 2 [1] contest s E))).
Defined.

Lemma critical_sections_mask_witness :
  match acts contest (powered (M := Coop.masks) 2 [1] (Coop.Core true 0 0 false 0)) with
  | Ok s => forall u, cpus s !! 1 = Some u -> interrupts_enabled (masks u) = bool_decide (sections u = 0)
  | Panic _ => False
  end.
Proof.
  destruct (acts contest _) as [s |] eqn:E; [| discriminate]. intros u Hu.
  apply (critical_sections_mask LinuxCoop Coop.masks (Coop.Core true 0 0 false 0) 2 [1] contest s 1 u); auto.
  - exact I.
  - right. exact I.
  - reflexivity.
Defined.
