(* ===== verification/Mtime.v ===== *)
(** * The MTIME time source: port_time_mtime.cpp

    One counter that every core reads, and a compare register per core.  MTIME's
    value is an argument of the operations that read it; the compare registers
    and the interrupt enables are the target's (mtime.hpp) and part of the
    state, and so are the driver's callbacks that ran.  An operation masks its
    core's interrupts, or is that core's interrupt, so it is one step for its
    core.  The periodic count is read by other cores without a lock: its stores
    and loads are taken one by one, the loads over a history of the two words. *)

From S2P Require Import Prelude.
Local Open Scope Z_scope.

Module Mtime.
Inductive timer_mode := none | periodic | tickless.

#[export] Instance timer_mode_eq_dec : EqDecision timer_mode.
Proof. solve_decision. Defined.

Definition never : Z := 2 ^ 64 - 1.
Definition time_core : nat := 0.

Record per_core := PerCore { next_tick : Z; armed : Z; delivery : bool }.

Definition set_next_tick v c := PerCore v (armed c) (delivery c).
Definition set_armed v c := PerCore (next_tick c) v (delivery c).
Definition set_delivery v c := PerCore (next_tick c) (armed c) v.

(** The target's registers for one core. *)
Record timer := Timer { compare : Z; interrupt_on : bool }.

Record source := Source {
  cores : list per_core;
  active_mode : timer_mode;
  period : Z;
  configured_tick_hz : Z;
  tick : Z * Z;                     (* tick_high and tick_low *)
  isr_handler : option nat;
  isr_argument : nat;
  timers : list timer;
  calls : list (nat * nat * nat)    (* core, handler and argument, the latest first *)
}.

Definition set_cores v s := Source v (active_mode s) (period s) (configured_tick_hz s) (tick s) (isr_handler s) (isr_argument s) (timers s) (calls s).
Definition set_active_mode v s := Source (cores s) v (period s) (configured_tick_hz s) (tick s) (isr_handler s) (isr_argument s) (timers s) (calls s).
Definition set_period v s := Source (cores s) (active_mode s) v (configured_tick_hz s) (tick s) (isr_handler s) (isr_argument s) (timers s) (calls s).
Definition set_configured_tick_hz v s := Source (cores s) (active_mode s) (period s) v (tick s) (isr_handler s) (isr_argument s) (timers s) (calls s).
Definition set_tick v s := Source (cores s) (active_mode s) (period s) (configured_tick_hz s) v (isr_handler s) (isr_argument s) (timers s) (calls s).
Definition set_isr h a s := Source (cores s) (active_mode s) (period s) (configured_tick_hz s) (tick s) h a (timers s) (calls s).
Definition set_timers v s := Source (cores s) (active_mode s) (period s) (configured_tick_hz s) (tick s) (isr_handler s) (isr_argument s) v (calls s).
Definition set_calls v s := Source (cores s) (active_mode s) (period s) (configured_tick_hz s) (tick s) (isr_handler s) (isr_argument s) (timers s) v.

Local Abbreviation T := (M source).

Definition get_core (core : nat) : T per_core :=
  fun s => match cores s !! core with Some c => Ok (c, s) | None => Panic bad_pointer end.

Definition modify_core (core : nat) (f : per_core -> per_core) : T unit :=
  kmodify (fun s => set_cores (alter f core (cores s)) s).

(** The target's three functions. *)
Definition modify_timer (core : nat) (f : timer -> timer) : T unit :=
  kmodify (fun s => set_timers (alter f core (timers s)) s).

Definition compare_write (core : nat) (v : Z) : T unit := modify_timer core (fun r => Timer v (interrupt_on r)).
Definition interrupt_enable (core : nat) : T unit := modify_timer core (fun r => Timer (compare r) true).
Definition interrupt_disable (core : nat) : T unit := modify_timer core (fun r => Timer (compare r) false).

(** The interrupt's line: raised while MTIME has reached the compare value. *)
Definition raised (now : Z) (r : timer) : bool := interrupt_on r && (compare r <=? now).

(** [advance_count], as what its stores leave in the two words one after
    another. *)
Definition advance_count (ticks : Z) (w : Z * Z) : list (Z * Z) :=
  let '(high, low) := w in
  let next := u32 (low + ticks) in
  if next <? low then [(u32 (high + 1), low); (u32 (high + 1), next)] else [(high, next)].

(** The 64-bit count the two words hold. *)
Definition count_of (w : Z * Z) : Z := Z.lor (Z.shiftl w.1 32) w.2.

(** [periodic_count] over a history of the words, each load at a time of its
    own; [fuel] bounds the retries. *)
Section history.
Context (h : nat -> Z * Z).

Definition load {A} (f : Z * Z -> A) : M nat A := fun now => Ok (f (h now), S now).

Fixpoint periodic_count (fuel : nat) : M nat Z :=
  match fuel with
  | O => fun _ => Panic out_of_fuel
  | S fuel =>
      let* high_before := load fst in
      let* low := load snd in
      let* high_after := load fst in
      if high_before =? high_after then kret (count_of (high_after, low)) else periodic_count fuel
  end.
End history.

(** The driver's callback. *)
Definition call_handler (core : nat) : T unit :=
  let* c := get_core core in
  let* h := kget isr_handler in
  match h with
  | Some h => if delivery c then kmodify (fun s => set_calls ((core, h, isr_argument s) :: calls s) s) else kret tt
  | None => kret tt
  end.

Definition time_setup (core : nat) (clock_hz mtime tick_hz : Z) : T unit :=
  kensure assert_failed (0 <? clock_hz) ;;*
  let wanted := if tick_hz =? 0 then tickless else periodic in
  let wanted_hz := if tick_hz =? 0 then clock_hz else tick_hz in
  let* mode := kget active_mode in
  kensure assert_failed (bool_decide (mode = none \/ mode = wanted)) ;;*
  let* hz := kget configured_tick_hz in
  kensure assert_failed ((hz =? 0) || (hz =? wanted_hz)) ;;*
  kmodify (set_active_mode wanted) ;;*
  kmodify (set_configured_tick_hz wanted_hz) ;;*
  modify_core core (set_delivery false) ;;*
  modify_core core (set_armed never) ;;*
  (if bool_decide (wanted = periodic) then
     kensure assert_failed (tick_hz <=? clock_hz) ;;*
     kmodify (set_period (clock_hz / tick_hz)) ;;*
     (if (core =? time_core)%nat then kmodify (set_tick (0, 0)) else kret tt) ;;*
     let* p := kget period in
     modify_core core (set_next_tick (u64 (mtime + p))) ;;*
     let* c := get_core core in
     compare_write core (next_tick c)
   else compare_write core never) ;;*
  interrupt_enable core.

Definition time_teardown (core : nat) : T unit :=
  interrupt_disable core ;;*
  compare_write core never ;;*
  kmodify (fun s => set_cores ((fun c => set_armed never (set_delivery false c)) <$> cores s) s) ;;*
  kmodify (set_active_mode none) ;;*
  kmodify (set_configured_tick_hz 0) ;;*
  kmodify (set_period 0) ;;*
  kmodify (set_isr None 0).

(** [cyros_port_time_now], where nothing stores the count meanwhile. *)
Definition time_now (mtime : Z) : T Z :=
  let* mode := kget active_mode in
  if bool_decide (mode = tickless) then kret mtime
  else
    let* w := kget tick in
    klift (let! '(n, _) := periodic_count (fun _ => w) 1 0%nat in Ok n).

Definition time_freq_hz : T Z := kget configured_tick_hz.

Definition time_register_isr_handler (handler : option nat) (arg : nat) : T unit := kmodify (set_isr handler arg).

Definition time_irq_enable (core : nat) : T unit := modify_core core (set_delivery true).
Definition time_irq_disable (core : nat) : T unit := modify_core core (set_delivery false).

Definition time_arm (core : nat) (deadline : Z) : T unit :=
  let* mode := kget active_mode in
  kensure assert_failed (bool_decide (mode = tickless)) ;;*
  let* c := get_core core in
  if deadline <? armed c then modify_core core (set_armed deadline) ;;* compare_write core deadline else kret tt.

Definition time_disarm (core : nat) : T unit :=
  let* mode := kget active_mode in
  kensure assert_failed (bool_decide (mode = tickless)) ;;*
  modify_core core (set_armed never) ;;*
  compare_write core never.

(** The loop that steps the compare past [now], counting. *)
Fixpoint step_past (fuel : nat) (next period now ticks : Z) : outcome (Z * Z) :=
  if next <=? now then
    match fuel with
    | O => Panic out_of_fuel
    | S fuel => step_past fuel (u64 (next + period)) period now (u32 (ticks + 1))
    end
  else Ok (next, ticks).

(** [interrupt], MTIME at [now]: one period a pass. *)
Definition interrupt (core : nat) (now : Z) : T unit :=
  let* c := get_core core in
  let* mode := kget active_mode in
  match mode with
  | periodic =>
      let* p := kget period in
      let* '(next, ticks) := klift (step_past (Z.to_nat (now - next_tick c + 1)) (next_tick c) p now 0) in
      modify_core core (set_next_tick next) ;;*
      compare_write core next ;;*
      (if (core =? time_core)%nat then kmodify (fun s => set_tick (default (tick s) (last (advance_count ticks (tick s)))) s) else kret tt) ;;*
      call_handler core
  | tickless =>
      let reached := negb (armed c =? never) && (armed c <=? now) in
      (if reached then modify_core core (set_armed never) else kret tt) ;;*
      compare_write core (if reached then never else armed c) ;;*
      if reached then call_handler core else kret tt
  | none => compare_write core never
  end.
End Mtime.
