(* ===== verification/MtimeProperties.v ===== *)
(** * The MTIME time source: the count, its reading, the one-shot, and its properties *)

From S2P Require Import Prelude TimeProofs Mtime.
Import Mtime.
Local Open Scope Z_scope.

#[local] Arguments Z.ltb : simpl never.
#[local] Arguments Z.leb : simpl never.
#[local] Arguments Z.eqb : simpl never.
#[local] Arguments never : simpl never.

(** ** The two words *)

Definition words (w : Z * Z) : Prop := 0 <= w.1 < 2 ^ 32 /\ 0 <= w.2 < 2 ^ 32.

Lemma count_of_sum w : words w -> count_of w = w.1 * 2 ^ 32 + w.2.
Proof.
  intros [H1 H2]. unfold count_of. rewrite Z.shiftl_mul_pow2 by lia.
  assert (Hd : Z.land (w.1 * 2 ^ 32) w.2 = 0).
  { apply Z.bits_inj'. intros i Hi. rewrite Z.land_spec, Z.bits_0. destruct (Z.ltb_spec i 32).
    - rewrite Z.mul_pow2_bits_low by lia. reflexivity.
    - rewrite (testbit_high w.2 32 i) by lia. apply andb_false_r. }
  rewrite <- Z.lxor_lor, <- Z.add_nocarry_lxor by exact Hd. reflexivity.
Qed.

Lemma count_of_inj v w : words v -> words w -> count_of v = count_of w -> v = w.
Proof.
  intros Hv Hw. rewrite !count_of_sum by assumption. destruct v as [a b], w as [c d], Hv as [? ?], Hw as [? ?]; cbn in *. intros E.
  assert (a = c) by nia. subst. f_equal. lia.
Qed.

(** Its stores taken together, an advance adds to the count. *)
Lemma advance_count_adds ticks w : words w -> 0 <= ticks < 2 ^ 32 -> count_of w + ticks < 2 ^ 64 ->
  exists w', last (advance_count ticks w) = Some w' /\ words w' /\ count_of w' = count_of w + ticks.
Proof.
  intros Hw Ht. pose proof Hw as [H1 H2]. rewrite (count_of_sum w) by exact Hw. destruct w as [high low]. cbn in *. intros Hlt.
  destruct (Z_lt_ge_dec (low + ticks) (2 ^ 32)) as [Hs | Hs].
  - assert (E : u32 (low + ticks) = low + ticks) by (apply wrap_small; lia). rewrite E, (proj2 (Z.ltb_ge _ _)) by lia.
    assert (words (high, low + ticks)) by (split; cbn; lia).
    eexists. split; [reflexivity |]. split; [assumption |]. rewrite count_of_sum by assumption. cbn. lia.
  - assert (E : u32 (low + ticks) = low + ticks - 2 ^ 32).
    { unfold u32, wrap. rewrite <- (Z.mod_add _ (-1)) by lia. apply Z.mod_small. lia. }
    rewrite E, (proj2 (Z.ltb_lt _ _)) by lia.
    assert (Eh : u32 (high + 1) = high + 1) by (apply wrap_small; nia). rewrite Eh.
    assert (words (high + 1, low + ticks - 2 ^ 32)) by (split; cbn; nia).
    eexists. split; [reflexivity |]. split; [assumption |]. rewrite count_of_sum by assumption. cbn. lia.
Qed.

(** ** Reading the count while it moves *)
Section reading.
Context (h : nat -> Z * Z).

(** Every change of the words is a whole advance. *)
Definition whole : Prop := forall n, words (h n) /\ count_of (h n) <= count_of (h (S n)).

Context (Hwhole : whole).

Lemma count_mono n m : (n <= m)%nat -> count_of (h n) <= count_of (h m).
Proof. induction 1 as [| m _ IH]; [lia |]. pose proof (Hwhole m) as [_ ?]. lia. Qed.

Lemma high_mono n m : (n <= m)%nat -> (h n).1 <= (h m).1.
Proof.
  intros H. pose proof (count_mono n m H) as Hc. destruct (Hwhole n) as [Hn _], (Hwhole m) as [Hm _].
  rewrite !count_of_sum in Hc by assumption. destruct Hn, Hm. nia.
Qed.

(** What is read was the count, at a time within the call. *)
Lemma read_at fuel : forall now v now', periodic_count h fuel now = Ok (v, now') ->
  exists t, (now <= t < now')%nat /\ v = count_of (h t).
Proof.
  induction fuel as [| fuel IH]; intros now v now'; cbn; [discriminate |]. unfold kbind, load. cbn.
  destruct (Z.eqb_spec (h now).1 (h (S (S now))).1) as [E | E].
  - intros [= <- <-]. exists (S now). split; [lia |].
    pose proof (high_mono now (S now) ltac:(lia)). pose proof (high_mono (S now) (S (S now)) ltac:(lia)).
    replace (h (S now)).1 with (h (S (S now))).1 by lia. assert (E1 : (h (S now)).1 = (h (S (S now))).1) by lia.
    rewrite <- E1. unfold count_of. reflexivity.
  - intros H. destruct (IH _ _ _ H) as (t & Ht & ->). exists t. split; [lia | reflexivity].
Qed.

(** It retries only while the high word moves. *)
Lemma read_ends moves : forall now, (forall n, (now + 3 * moves <= n)%nat -> (h (S n)).1 = (h n).1) ->
  exists v now', periodic_count h (S moves) now = Ok (v, now').
Proof.
  induction moves as [| moves IH]; intros now Hst.
  - cbn. unfold kbind, load. cbn. rewrite (Hst (S now)), (Hst now), Z.eqb_refl by lia. do 2 eexists. reflexivity.
  - change (periodic_count h (S (S moves)) now) with
      ((let* a := load h fst in let* l := load h snd in let* b := load h fst in
        if a =? b then kret (count_of (b, l)) else periodic_count h (S moves)) now).
    unfold kbind at 1, load at 1. cbn -[periodic_count]. unfold kbind, load. cbn -[periodic_count]. destruct (_ =? _); [do 2 eexists; reflexivity |].
    apply IH. intros n Hn. apply Hst. lia.
Qed.
End reading.

(** ** The compare's steps *)

Lemma step_past_spec fuel : forall next p now ticks,
  0 < p -> 0 <= next -> now + p < 2 ^ 64 -> 0 <= ticks -> ticks + Z.max 0 ((now - next) / p + 1) < 2 ^ 32 -> (now - next) / p + 1 <= Z.of_nat fuel ->
  step_past fuel next p now ticks =
    Ok (if next <=? now then next_grid next p now else next, ticks + Z.max 0 ((now - next) / p + 1)).
Proof.
  induction fuel as [| fuel IH]; intros next p now ticks Hp Hn Hlt Ht Hs Hf; cbn [step_past]; destruct (Z.leb_spec next now) as [Hle | Hgt].
  - pose proof (Z.div_pos (now - next) p ltac:(lia) Hp). lia.
  - assert ((now - next) / p < 0) by (apply Z.div_lt_upper_bound; lia). f_equal. f_equal. lia.
  - pose proof (Z.div_pos (now - next) p ltac:(lia) Hp) as Hd.
    assert (Ed : (now - (next + p)) / p = (now - next) / p - 1).
    { replace (now - (next + p)) with (now - next + (-1) * p) by lia. rewrite Z.div_add by lia. lia. }
    assert (Eu : u64 (next + p) = next + p) by (apply wrap_small; lia). assert (Et : u32 (ticks + 1) = ticks + 1) by (apply wrap_small; lia).
    rewrite Eu, Et, IH by lia. rewrite Ed. f_equal. f_equal; [| lia].
    destruct (Z.leb_spec (next + p) now) as [Hle' | Hgt'].
    + unfold next_grid. rewrite Ed. lia.
    + unfold next_grid. rewrite (Z.div_small (now - next) p) by lia. lia.
  - assert ((now - next) / p < 0) by (apply Z.div_lt_upper_bound; lia). f_equal. f_equal. lia.
Qed.

(** ** The periodic count follows MTIME *)

(** Since [origin], when the time core was set up: the count is the periods
    that were counted, and the compare the end of the next. *)
Record counting (origin : Z) (s : source) (c : per_core) (r : timer) : Prop := {
  co_mode : active_mode s = periodic;
  co_core : cores s !! time_core = Some c;
  co_timer : timers s !! time_core = Some r;
  co_period : 0 < period s;
  co_origin : 0 <= origin;
  co_words : words (tick s);
  co_compare : compare r = next_tick c;
  co_next : next_tick c = origin + (count_of (tick s) + 1) * period s
}.

Definition handled (core : nat) (s : source) (c : per_core) : list (nat * nat * nat) :=
  match isr_handler s with Some h => if delivery c then [(core, h, isr_argument s)] else [] | None => [] end.

Lemma call_handler_spec core s c : cores s !! core = Some c ->
  call_handler core s = Ok (tt, set_calls (handled core s c ++ calls s) s).
Proof.
  intros Hc. unfold call_handler, kbind, get_core, kget, handled. rewrite Hc. destruct (isr_handler s); [destruct (delivery c) |]; destruct s; reflexivity.
Qed.

Lemma interrupt_counts origin s c r now :
  counting origin s c r -> next_tick c <= now -> now + period s < 2 ^ 64 -> (now - next_tick c) / period s + 1 < 2 ^ 32 ->
  exists s', interrupt time_core now s = Ok (tt, s') /\
    counting origin s' (set_next_tick (next_grid (next_tick c) (period s) now) c) (Timer (next_grid (next_tick c) (period s) now) (interrupt_on r)) /\
    period s' = period s /\ count_of (tick s') = (now - origin) / period s /\ calls s' = handled time_core s c ++ calls s.
Proof.
  intros [Hm Hc Hr Hp Ho Hw Hcmp Hnext] Hle Hlt Hfew. set (p := period s) in *. set (n := next_tick c) in *.
  assert (Hcount : 0 <= count_of (tick s)).
  { rewrite count_of_sum by exact Hw. destruct Hw. nia. }
  pose proof (Z.div_pos (now - n) p ltac:(lia) Hp) as Hd.
  assert (Ediv : (now - origin) / p = count_of (tick s) + ((now - n) / p + 1)).
  { replace (now - origin) with (now - n + (count_of (tick s) + 1) * p) by lia. rewrite Z.div_add by lia. lia. }
  destruct (advance_count_adds ((now - n) / p + 1) (tick s) Hw ltac:(lia)) as (w' & Hlast & Hw' & Ew').
  { assert ((now - origin) / p <= now) by (apply Z.div_le_upper_bound; nia). lia. }
  assert (Hstep : step_past (Z.to_nat (now - n + 1)) n p now 0 = Ok (next_grid n p now, (now - n) / p + 1)).
  { assert ((now - n) / p <= now - n) by (apply Z.div_le_upper_bound; nia).
    rewrite step_past_spec by nia. rewrite (proj2 (Z.leb_le _ _)) by lia. f_equal. f_equal. lia. }
  unfold interrupt, kbind, kget, klift, get_core. rewrite Hc, Hm. fold n p. rewrite Hstep.
  unfold compare_write, modify_core, modify_timer, kmodify. cbn [time_core Nat.eqb].
  erewrite call_handler_spec by (cbn; rewrite list_lookup_alter_eq, Hc; reflexivity).
  eexists. split; [reflexivity |]. cbn. rewrite Hlast. cbn. split_and!; auto.
  - split; cbn; auto.
    + rewrite list_lookup_alter_eq, Hc. reflexivity.
    + rewrite list_lookup_alter_eq, Hr. reflexivity.
    + unfold next_grid. rewrite Ew'. fold p n. nia.
  - lia.
Qed.

Lemma setup_counts s clock_hz mtime tick_hz c r :
  active_mode s = none -> configured_tick_hz s = 0 -> cores s !! time_core = Some c -> timers s !! time_core = Some r ->
  0 < tick_hz <= clock_hz -> 0 <= mtime -> mtime + clock_hz < 2 ^ 64 ->
  exists s', time_setup time_core clock_hz mtime tick_hz s = Ok (tt, s') /\
    counting mtime s' (PerCore (mtime + clock_hz / tick_hz) never false) (Timer (mtime + clock_hz / tick_hz) true) /\
    period s' = clock_hz / tick_hz /\ count_of (tick s') = 0 /\ configured_tick_hz s' = tick_hz.
Proof.
  intros Hm Hz Hc Hr Ht Hm0 Hlt.
  assert (Hp : 0 < clock_hz / tick_hz) by (apply Z.div_str_pos; lia).
  assert (clock_hz / tick_hz <= clock_hz) by (apply Z.div_le_upper_bound; nia).
  assert (E : u64 (mtime + clock_hz / tick_hz) = mtime + clock_hz / tick_hz) by (apply wrap_small; lia).
  destruct s as [cs md pd hz tk ih ia ts cl]. cbn in Hm, Hz, Hc, Hr. subst md hz.
  unfold time_setup, interrupt_enable, compare_write, modify_timer, modify_core, get_core, kbind, kget, kensure, kmodify.
  rewrite (proj2 (Z.ltb_lt 0 clock_hz)), (proj2 (Z.eqb_neq tick_hz 0)) by lia. cbn.
  rewrite !bool_decide_eq_true_2 by auto. cbn. rewrite Z.eqb_refl. cbn.
  rewrite (proj2 (Z.leb_le tick_hz clock_hz)) by lia. cbn. rewrite !list_lookup_alter_eq, Hc. cbn. rewrite E.
  eexists. split; [reflexivity |]. cbn. split_and!; auto. split; cbn; auto.
  - rewrite !list_lookup_alter_eq, Hc. reflexivity.
  - rewrite !list_lookup_alter_eq, Hr. reflexivity.
  - split; cbn; lia.
  - change (count_of (0, 0)) with 0. lia.
Qed.

(** ** The one-shot *)
Inductive shot_op := Arm (deadline : Z) | Disarm | Fire (now : Z).

Definition shoot (core : nat) (o : shot_op) : M source unit :=
  match o with Arm d => time_arm core d | Disarm => time_disarm core | Fire now => interrupt core now end.

Fixpoint shoots (core : nat) (l : list shot_op) : M source unit :=
  match l with [] => kret tt | o :: l => shoot core o ;;* shoots core l end.

(** What it is: the earliest deadline armed since it last went off or was
    disarmed, and how often it went off. *)
Definition shot_step (o : shot_op) (a : option Z * nat) : option Z * nat :=
  match o, a with
  | Arm d, (None, n) => (Some d, n)
  | Arm d, (Some x, n) => (Some (Z.min d x), n)
  | Disarm, (_, n) => (None, n)
  | Fire now, (Some x, n) => if x <=? now then (None, S n) else a
  | Fire _, (None, n) => a
  end.

Definition shot_op_ok (o : shot_op) : Prop :=
  match o with Arm d => 0 <= d < never | Disarm => True | Fire now => 0 <= now < never end.

Section one_shot.
Context (core : nat).

Record armed_for (a : option Z * nat) (s0 s : source) (c : per_core) (r : timer) : Prop := {
  ar_mode : active_mode s = tickless;
  ar_core : cores s !! core = Some c;
  ar_timer : timers s !! core = Some r;
  ar_armed : armed c = default never (fst a);
  ar_compare : compare r = armed c;
  ar_deadline x : fst a = Some x -> 0 <= x < never;
  ar_handled : handled core s c = handled core s0 c;
  ar_calls : calls s = mjoin (replicate (snd a) (handled core s0 c)) ++ calls s0
}.

(** A deadline recorded and written to the compare. *)
Definition with_deadline (v : Z) (s : source) : source :=
  set_timers (alter (fun r => Timer v (interrupt_on r)) core (timers s)) (set_cores (alter (set_armed v) core (cores s)) s).

Lemma armed_with a n a' s0 s c r : armed_for (a, n) s0 s c r -> (forall x, a' = Some x -> 0 <= x < never) ->
  armed_for (a', n) s0 (with_deadline (default never a') s) (set_armed (default never a') c) (Timer (default never a') (interrupt_on r)).
Proof.
  intros [Hm Hc Hr Ha Hcmp Hd Hh Hcalls] Hx. split; cbn; auto.
  - rewrite list_lookup_alter_eq, Hc. reflexivity.
  - rewrite list_lookup_alter_eq, Hr. reflexivity.
Qed.

Lemma shot_refines a o s0 s c r : armed_for a s0 s c r -> shot_op_ok o ->
  exists s' c' r', shoot core o s = Ok (tt, s') /\ armed_for (shot_step o a) s0 s' c' r' /\ delivery c' = delivery c /\ interrupt_on r' = interrupt_on r.
Proof.
  intros H Ho. destruct a as [a n]. pose proof H as [Hm Hc Hr Ha Hcmp Hd Hh Hcalls]. cbn [fst snd] in *.
  destruct o as [d | | now]; cbn [shoot shot_op_ok] in *;
    unfold time_arm, time_disarm, interrupt, compare_write, modify_timer, modify_core, get_core, kbind, kget, kensure, kmodify, kret;
    rewrite ?Hc, Hm; rewrite ?bool_decide_eq_true_2 by reflexivity; cbn -[shot_step]; rewrite ?Hc; cbn -[shot_step].
  - rewrite Ha. destruct (Z.ltb_spec d (default never a)) as [Hlt | Hge].
    + exists (with_deadline d s), (set_armed d c), (Timer d (interrupt_on r)). split; [reflexivity |]. split; [| auto].
      replace (shot_step (Arm d) (a, n)) with (Some d, n) by (destruct a; cbn in *; [rewrite Z.min_l by lia |]; reflexivity).
      apply (armed_with _ _ (Some d) _ _ _ _ H). intros x [= <-]. exact Ho.
    + exists s, c, r. split; [reflexivity |]. split; [| auto].
      destruct a as [x |]; cbn in Hge; [| lia]. unfold shot_step. rewrite Z.min_r by lia. exact H.
  - exists (with_deadline never s), (set_armed never c), (Timer never (interrupt_on r)). split; [reflexivity |]. split; [| auto].
    apply (armed_with _ _ None _ _ _ _ H). discriminate.
  - destruct a as [x |]; cbn in Ha; rewrite Ha.
    + destruct (Hd x eq_refl) as [Hx0 Hx]. rewrite (proj2 (Z.eqb_neq x never)) by lia. unfold shot_step.
      destruct (Z.leb_spec x now) as [Hle | Hgt]; cbn.
      * pose proof (armed_with _ n None _ _ _ _ H ltac:(discriminate)) as H'. cbn in H'.
        erewrite call_handler_spec by (cbn; rewrite list_lookup_alter_eq, Hc; reflexivity).
        eexists _, (set_armed never c), (Timer never (interrupt_on r)). split; [reflexivity |]. split; [| auto].
        destruct H' as [? Hc' Hr' ? ? ? Hh' Hcalls']. split; cbn in *; eauto; try discriminate.
        rewrite <- app_assoc. f_equal; [exact Hh' | exact Hcalls'].
      * eexists _, c, (Timer x (interrupt_on r)). split; [reflexivity |]. split; [| auto].
        split; cbn; eauto. rewrite list_lookup_alter_eq, Hr. reflexivity.
    + eexists _, c, (Timer never (interrupt_on r)). split; [reflexivity |]. split; [| auto].
      split; cbn; eauto. rewrite list_lookup_alter_eq, Hr. reflexivity.
Qed.

Lemma shots_refine l : forall a s0 s c r, armed_for a s0 s c r -> Forall shot_op_ok l ->
  exists s' c' r', shoots core l s = Ok (tt, s') /\ armed_for (fold_left (fun a o => shot_step o a) l a) s0 s' c' r' /\
    delivery c' = delivery c /\ interrupt_on r' = interrupt_on r.
Proof.
  induction l as [| o l IH]; intros a s0 s c r H Hl; cbn; [exists s, c, r; auto |].
  apply Forall_cons in Hl as [Ho Hl]. destruct (shot_refines a o s0 s c r H Ho) as (s1 & c1 & r1 & E & H1 & Ed & Ei).
  unfold kbind. rewrite E. destruct (IH _ s0 s1 c1 r1 H1 Hl) as (s2 & c2 & r2 & E2 & H2 & Ed2 & Ei2).
  do 3 eexists. split; [exact E2 |]. split; [exact H2 |]. split; congruence.
Qed.
End one_shot.

(** ** The properties *)

Import Mtime.
Local Open Scope Z_scope.

(** C39: the periodic count is true to MTIME. The time core's setup starts it
    at nothing; and each of its interrupts, however late and whatever it missed,
    finishes, leaves the count at exactly the whole periods since the setup and
    the compare past now by at most one, and runs the callback once if delivery
    is on. *)
Theorem periodic_count_is_true (s : source) (c : per_core) (r : timer) :
  (forall clock_hz mtime tick_hz,
     active_mode s = none -> configured_tick_hz s = 0 -> cores s !! time_core = Some c -> timers s !! time_core = Some r ->
     0 < tick_hz <= clock_hz -> 0 <= mtime -> mtime + clock_hz < 2 ^ 64 ->
     exists s', time_setup time_core clock_hz mtime tick_hz s = Ok (tt, s') /\ period s' = clock_hz / tick_hz /\
       count_of (tick s') = 0 /\ exists c' r', counting mtime s' c' r') /\
  (forall origin now,
     counting origin s c r -> compare r <= now -> now + period s < 2 ^ 64 -> (now - compare r) / period s + 1 < 2 ^ 32 ->
     exists s' c' r', interrupt time_core now s = Ok (tt, s') /\ counting origin s' c' r' /\ period s' = period s /\
       count_of (tick s') = (now - origin) / period s /\ now < compare r' <= now + period s /\
       calls s' = handled time_core s c ++ calls s).
Proof.
  split.
  - intros clock_hz mtime tick_hz Hm Hz Hc Hr Ht H0 Hlt.
    destruct (setup_counts s clock_hz mtime tick_hz c r Hm Hz Hc Hr Ht H0 Hlt) as (s' & E & Hco & Hp & Hn & _). eauto 10.
  - intros origin now Hco. rewrite (co_compare _ _ _ _ Hco). intros Hle Hlt Hfew.
    destruct (interrupt_counts origin s c r now Hco Hle Hlt Hfew) as (s' & E & Hco' & Hp & Hn & Hcalls).
    do 3 eexists. split; [exact E |]. split; [exact Hco' |]. cbn. pose proof (next_grid_after (next_tick c) (period s) now (co_period _ _ _ _ Hco)). auto.
Qed.

(** C40: the tickless one-shot honours the earliest deadline. Any sequence of
    arms, disarms and interrupts of a core finishes and leaves the compare at
    the earliest deadline armed since it last went off or was disarmed, or at
    never; an interrupt at or after that deadline, and no other, sets it off,
    and each time it does the callback runs once if delivery is on. *)
Theorem tickless_honours_earliest (core : nat) (l : list shot_op) (s : source) (c : per_core) (r : timer) :
  active_mode s = tickless -> cores s !! core = Some c -> timers s !! core = Some r -> armed c = never -> compare r = never ->
  Forall shot_op_ok l ->
  let '(deadline, times) := fold_left (fun a o => shot_step o a) l (None, O) in
  exists s' r', shoots core l s = Ok (tt, s') /\ timers s' !! core = Some r' /\ interrupt_on r' = interrupt_on r /\
    compare r' = default never deadline /\
    (forall now, 0 <= now < never -> raised now r' = interrupt_on r && from_option (fun x => x <=? now) false deadline) /\
    calls s' = mjoin (replicate times (handled core s c)) ++ calls s.
Proof.
  intros Hm Hc Hr Ha Hcmp Hl.
  assert (H0 : armed_for core (None, O) s s c r) by (split; cbn; auto; try congruence; discriminate).
  destruct (shots_refine core l (None, O) s s c r H0 Hl) as (s' & c' & r' & E & [_ _ Hr' Ha' Hcmp' Hd' _ Hcalls'] & Hdl & Hi).
  destruct (fold_left _ l _) as [deadline times]. cbn [fst snd] in *.
  exists s', r'. split; [exact E |]. split; [exact Hr' |]. split; [exact Hi |]. split; [congruence |].
  split; [| unfold handled in *; rewrite Hdl in Hcalls'; exact Hcalls'].
  intros now Hnow. unfold raised. rewrite Hi, Hcmp', Ha'. f_equal.
  destruct deadline as [x |]; [reflexivity | apply Z.leb_gt; cbn; lia].
Qed.

(** A count read without a lock was the count. While every advance of the
    time core comes whole, as its interrupt does for what it interrupts, a
    read's answer is what the count was at some time during the read; and the
    read ends, with at most one retry for each carry into the high word. *)
Theorem count_reads_are_counts (h : nat -> Z * Z) (now : nat) :
  (forall n, words (h n) /\ (h (S n) = h n \/
     exists ticks, 0 <= ticks < 2 ^ 32 /\ count_of (h n) + ticks < 2 ^ 64 /\ last (advance_count ticks (h n)) = Some (h (S n)))) ->
  (forall fuel v now', periodic_count h fuel now = Ok (v, now') -> exists t, (now <= t < now')%nat /\ v = count_of (h t)) /\
  (forall carries, (forall n, (now + 3 * carries <= n)%nat -> (h (S n)).1 = (h n).1) ->
     exists v now', periodic_count h (S carries) now = Ok (v, now')).
Proof.
  intros Hh. assert (Hw : whole h).
  { intros n. destruct (Hh n) as [Hn [-> | (ticks & Ht & Hlt & E)]]; [split; [exact Hn | lia] |].
    destruct (advance_count_adds ticks (h n) Hn Ht Hlt) as (w & Ew & _ & Hc). rewrite Ew in E. injection E as <-. split; [exact Hn | lia]. }
  split; [intros fuel v now'; apply (read_at h Hw) | intros carries; apply read_ends].
Qed.

(** On another core an advance does not come whole: a read that falls between
    the two stores of a carry answers 2^32 too much, beyond every count there
    was or came to be. *)
Definition carrying : nat -> Z * Z :=
  fun t => if (t <? 1)%nat then (0, 2 ^ 32 - 1)
           else default (0, 0) (advance_count 1 (0, 2 ^ 32 - 1) !! (if (t <? 4)%nat then 0 else 1)%nat).

Lemma torn_count :
  (exists now', periodic_count carrying 1%nat 1%nat = Ok (2 ^ 33 - 1, now')) /\
  count_of (carrying 0) = 2 ^ 32 - 1 /\ forall t, (4 <= t)%nat -> count_of (carrying t) = 2 ^ 32.
Proof.
  split; [eexists; vm_compute; reflexivity |]. split; [reflexivity |]. intros t Ht. unfold carrying.
  rewrite (proj2 (Nat.ltb_ge t 1)), (proj2 (Nat.ltb_ge t 4)) by lia. reflexivity.
Qed.

(** ** A source of one core *)
Module MtimeScenario.
Definition fresh : source :=
  Source [PerCore 0 0 false] none 0 0 (0, 0) (Some 7%nat) 3%nat [Timer 0 false] [].

(** Set up at 1000, ten counts a tick, delivery on. *)
Definition ticking : source :=
  Source [PerCore 1010 never true] periodic 10 100 (0, 0) (Some 7%nat) 3%nat [Timer 1010 true] [].

Lemma ticking_counts : counting 1000 ticking (PerCore 1010 never true) (Timer 1010 true).
Proof. split; try reflexivity; first [lia | split; cbn; lia]. Qed.

Definition shots : list shot_op := [Arm 50; Arm 20; Fire 10; Fire 25; Arm 60].

Definition quiet : source := Source [PerCore 0 never true] tickless 0 1000 (0, 0) (Some 7%nat) 3%nat [Timer never true] [].
End MtimeScenario.

Lemma periodic_count_is_true_witness :
  exists s', interrupt time_core 1039 MtimeScenario.ticking = Ok (tt, s') /\ count_of (tick s') = 3.
Proof.
  destruct (proj2 (periodic_count_is_true MtimeScenario.ticking (PerCore 1010 never true) (Timer 1010 true)) 1000 1039
              MtimeScenario.ticking_counts ltac:(cbn; lia) ltac:(reflexivity) ltac:(reflexivity)) as (s' & c' & r' & E & _ & _ & Hn & _).
  exists s'. split; [exact E | exact Hn].
Defined.

Lemma tickless_honours_earliest_witness :
  exists s', shoots 0 MtimeScenario.shots MtimeScenario.quiet = Ok (tt, s') /\ calls s' = [(0%nat, 7%nat, 3%nat)].
Proof.
  destruct (tickless_honours_earliest 0 MtimeScenario.shots MtimeScenario.quiet (PerCore 0 never true) (Timer never true)
              eq_refl eq_refl eq_refl eq_refl eq_refl) as (s' & r' & E & _ & _ & _ & _ & Hcalls).
  - repeat (constructor; [cbn; unfold never; lia |]). constructor.
  - exists s'. split; [exact E | exact Hcalls].
Defined.

Lemma count_reads_are_counts_witness : exists v now', periodic_count (fun _ => (3, 5)) 1%nat 0%nat = Ok (v, now').
Proof.
  apply (proj2 (count_reads_are_counts (fun _ => (3, 5)) 0%nat ltac:(intros n; split; [split; cbn; lia | left; reflexivity])) 0%nat). auto.
Defined.
