(* ===== verification/ArmSwitch.v ===== *)
(** * How PendSV switches threads: port_core_armv7m_armv8m.cpp and port_core_armv6m.cpp

    On the M profile every context switch is made by PendSV, the exception of
    the lowest priority.  The kernel decides a switch in three places: in thread
    context, masked, which owes PendSV the switch ([direct_switch]); in an
    interrupt's handler, masked, which owes it too ([owe_switch]); and in its
    reschedule handler, which PendSV calls and which switches there and then.
    Between an owed decision and PendSV the thread the kernel counts as running
    is not the one whose registers are on the core.

    One core.  What runs masked is one step, and so is each access that an
    interrupt may come between.  Interrupts nest in each other and in PendSV, as
    their priorities may have it.  A context is the frame its saved stack
    pointer leads to, and a frame is named by the thread it is of.  The kernel's
    picks are arguments.  Preemption is enabled throughout (what its deferral
    does is in PortMasks.v), and no thread starts or exits. *)

From S2P Require Import Prelude.

(** Where PendSV has got to. *)
Inductive phase :=
  | Entered                      (* the frame is saved, nothing else done *)
  | Carrying (to : nat)          (* Mainline: owed.to read, not null *)
  | Carried                      (* Mainline: the stacks switched, owed.to not cleared *)
  | Cleared                      (* Mainline: about to look at owed.reschedule *)
  | Calling                      (* about to call the reschedule handler *)
  | Deciding (prev : nat)        (* in it: the running thread read, the mask not yet taken *)
  | Switching (prev next : nat)  (* in it: decided, the mask released, about to switch *)
  | Leaving.

(** An interrupt's handler: in its own code, or in [pend_reschedule] with what
    it saw of the owed switch. *)
Definition handler : Type := option bool.

Record core_state := CoreState {
  psp : nat;                     (* whose frame is on the core *)
  running : nat;                 (* the kernel's running thread *)
  stored : gmap nat nat;         (* whose frame a context's sp leads to, where not its own *)
  owed_from : nat;
  owed_to : option nat;
  owed_reschedule : bool;
  pendsvset : bool;
  pendsv : option phase;         (* PendSV, while it is active *)
  handlers : list handler;       (* the interrupts active above it, the innermost first *)
  (* Not the code's: a reschedule was asked for, and the kernel has decided
     nothing since. *)
  asked : bool
}.

Definition set_psp v s := CoreState v (running s) (stored s) (owed_from s) (owed_to s) (owed_reschedule s) (pendsvset s) (pendsv s) (handlers s) (asked s).
Definition set_owed_reschedule v s := CoreState (psp s) (running s) (stored s) (owed_from s) (owed_to s) v (pendsvset s) (pendsv s) (handlers s) (asked s).
Definition set_owed_to v s := CoreState (psp s) (running s) (stored s) (owed_from s) v (owed_reschedule s) (pendsvset s) (pendsv s) (handlers s) (asked s).
Definition set_pendsvset v s := CoreState (psp s) (running s) (stored s) (owed_from s) (owed_to s) (owed_reschedule s) v (pendsv s) (handlers s) (asked s).
Definition set_pendsv v s := CoreState (psp s) (running s) (stored s) (owed_from s) (owed_to s) (owed_reschedule s) (pendsvset s) v (handlers s) (asked s).
Definition set_handlers v s := CoreState (psp s) (running s) (stored s) (owed_from s) (owed_to s) (owed_reschedule s) (pendsvset s) (pendsv s) v (asked s).
Definition set_asked v s := CoreState (psp s) (running s) (stored s) (owed_from s) (owed_to s) (owed_reschedule s) (pendsvset s) (pendsv s) (handlers s) v.

(** The kernel makes [to] its running thread. *)
Definition run (to : nat) s :=
  CoreState (psp s) to (stored s) (owed_from s) (owed_to s) (owed_reschedule s) (pendsvset s) (pendsv s) (handlers s) false.

(** Whose frame [t]'s context leads to. *)
Definition frame_at (stored : gmap nat nat) (t : nat) : nat := default t (stored !! t).

Definition switch_stacks (from to : nat) (s : core_state) : core_state :=
  let stored := <[from := psp s]> (stored s) in
  CoreState (frame_at stored to) (running s) stored (owed_from s) (owed_to s) (owed_reschedule s) (pendsvset s) (pendsv s) (handlers s) (asked s).

Definition owe (from to : nat) (s : core_state) : core_state :=
  CoreState (psp s) (running s) (stored s) from (Some to) (owed_reschedule s) true (pendsv s) (handlers s) (asked s).

(** [cyros_port_direct_switch], the kernel's decision with it. *)
Definition direct_switch (to : nat) (s : core_state) : core_state := run to (owe (running s) to s).

(** [cyros_port_owe_switch], the kernel's decision with it. *)
Definition owe_switch (to : nat) (s : core_state) : core_state :=
  run to (owe (match owed_to s with None => running s | Some _ => owed_from s end) to s).

(** [cyros_port_pend_reschedule], up to the PENDSVSET write. *)
Definition look_and_mark (s : core_state) : bool * core_state :=
  let owed := bool_decide (is_Some (owed_to s)) in
  (owed, set_asked true (if owed then set_owed_reschedule true s else s)).

(** What the two ports differ in: whether the dispatch is masked from its read
    of the owed switch to its look at the request, and where PendSV may be when
    [cyros_port_interrupted_at_baseline] lets an interrupt decide. *)
Record port := Port { masked_dispatch : bool; decides : option phase -> bool }.

Definition armv7m_armv8m : port := Port false (fun p => match p with None => true | Some _ => false end).
Definition armv6m : port := Port true (fun _ => true).

(** [cyros_port_pendsv_dispatch] and the kernel's handler under it: one step of
    PendSV, the kernel picking [pick] where it decides. *)
Definition pendsv_step (p : port) (pick : nat) (ph : phase) (s : core_state) : core_state :=
  match ph with
  | Entered =>
      match owed_to s with
      | None => set_pendsv (Some Calling) s
      | Some to =>
          if masked_dispatch p then
            let again := owed_reschedule s in
            let s := set_owed_reschedule false (set_owed_to None (switch_stacks (owed_from s) to s)) in
            set_pendsv (Some (if again then Calling else Leaving)) s
          else set_pendsv (Some (Carrying to)) s
      end
  | Carrying to => set_pendsv (Some Carried) (switch_stacks (owed_from s) to s)
  | Carried => set_pendsv (Some Cleared) (set_owed_to None s)
  | Cleared =>
      if owed_reschedule s then set_pendsv (Some Calling) (set_owed_reschedule false s)
      else set_pendsv (Some Leaving) s
  | Calling => set_pendsv (Some (Deciding (running s))) s
  | Deciding prev => set_pendsv (Some (Switching prev pick)) (run pick s)
  | Switching prev next => set_pendsv (Some Leaving) (switch_stacks prev next s)
  | Leaving => set_pendsv None s
  end.

Inductive label :=
  | Direct (to : nat)            (* the executing thread yields, parks or wakes a more urgent one *)
  | Pend                         (* the executing thread asks for a reschedule *)
  | TakeInterrupt
  | Look                         (* a handler begins to ask for a reschedule *)
  | Write                        (* and pends PendSV *)
  | Decide (to : nat)            (* a handler's wake decides *)
  | Return                       (* a handler returns *)
  | TakePendSV
  | Step (pick : nat).           (* PendSV goes on *)

(** A thread executes: nothing is active, and PendSV would be taken first. *)
Definition executing (s : core_state) : bool :=
  match pendsv s, handlers s with None, [] => negb (pendsvset s) | _, _ => false end.

Definition step (p : port) (l : label) (s : core_state) : option core_state :=
  match l, handlers s with
  | Direct to, _ => if executing s && negb (to =? running s) then Some (direct_switch to s) else None
  | Pend, _ => if executing s then Some (set_pendsvset true (look_and_mark s).2) else None
  | TakeInterrupt, hs => Some (set_handlers (None :: hs) s)
  | Look, None :: hs => let '(owed, s) := look_and_mark s in Some (set_handlers (Some owed :: hs) s)
  | Write, Some _ :: hs => Some (set_handlers (None :: hs) (set_pendsvset true s))
  | Decide to, None :: _ => if decides p (pendsv s) && negb (to =? running s) then Some (owe_switch to s) else None
  | Return, None :: hs => Some (set_handlers hs s)
  | TakePendSV, [] =>
      match pendsv s with
      | None => if pendsvset s then Some (set_pendsv (Some Entered) (set_pendsvset false s)) else None
      | Some _ => None
      end
  | Step pick, [] => match pendsv s with Some ph => Some (pendsv_step p pick ph s) | None => None end
  | _, _ => None
  end.

Fixpoint steps (p : port) (ls : list label) (s : core_state) : option core_state :=
  match ls with
  | [] => Some s
  | l :: ls => s' ← step p l s; steps p ls s'
  end.

(** Thread [t] executes, every context its own. *)
Definition started (t : nat) : core_state := CoreState t t ∅ t None false false None [] false.
