(* ===== verification/ArmSwitchProperties.v ===== *)
(** * What PendSV's switching keeps, and its properties *)

From S2P Require Import Prelude ArmSwitch.
(** Where a decision may fall: not once the dispatch has read the owed switch
    until it has gone, and not on the way into the reschedule handler. *)
Definition open_phase (p : option phase) : bool :=
  match p with None | Some Entered | Some (Switching _ _) | Some Leaving => true | _ => false end.

Definition guarded (p : port) : Prop := forall ph, decides p ph = true -> open_phase ph = true.

Lemma mainline_guarded : guarded armv7m_armv8m.
Proof. intros [ph |]; [discriminate | reflexivity]. Qed.

(** [n] is whose frame will be on the core before the owed switch is made: the
    kernel runs it, or owes the switch from it to the thread it runs. *)
Definition owed_ok (n : nat) (s : core_state) : Prop :=
  match owed_to s with None => running s = n | Some to => running s = to /\ owed_from s = n end.

Definition agrees (s : core_state) : Prop :=
  match pendsv s with
  | None | Some Entered | Some Leaving => owed_ok (psp s) s
  | Some (Switching prev next) => psp s = prev /\ owed_ok next s
  | Some (Carrying to) => owed_to s = Some to /\ running s = to /\ owed_from s = psp s
  | Some Carried => owed_to s = Some (running s) /\ running s = psp s
  | Some Cleared | Some Calling => owed_to s = None /\ running s = psp s
  | Some (Deciding prev) => owed_to s = None /\ running s = psp s /\ prev = psp s
  end.

Definition carried_later (s : core_state) : Prop :=
  owed_to s <> None -> pendsvset s = true \/ match pendsv s with Some Entered | Some (Carrying _) | Some Carried => True | _ => False end.

Record coherent (s : core_state) : Prop := {
  co_frames t : t <> psp s -> frame_at (stored s) t = t;
  co_agrees : agrees s;
  co_later : carried_later s
}.

(** A request is on its way to a decision. *)
Definition marked (s : core_state) : Prop := owed_to s <> None -> owed_reschedule s = true.

Definition served_soon (s : core_state) : Prop :=
  match pendsv s with
  | Some Entered | Some (Carrying _) | Some Carried => marked s
  | Some Cleared => owed_reschedule s = true
  | Some Calling | Some (Deciding _) => True
  | _ => False
  end.

Definition underway (hs : list handler) : Prop := exists b, Some b ∈ hs.

Record minded (s : core_state) : Prop := {
  mi_marked : asked s = true -> marked s;
  mi_way : asked s = true -> underway (handlers s) \/ pendsvset s = true \/ served_soon s
}.

Lemma started_coherent t : coherent (started t).
Proof. split; [intros u _; apply (lookup_empty (M := gmap nat)) || reflexivity | reflexivity | intros H; destruct (H eq_refl)]. Qed.

Lemma switch_frames to s : (forall t, t <> psp s -> frame_at (stored s) t = t) ->
  psp (switch_stacks (psp s) to s) = to /\ forall t, t <> to -> frame_at (stored (switch_stacks (psp s) to s)) t = t.
Proof.
  assert (E : forall t, frame_at (<[psp s := psp s]> (stored s)) t = if decide (t = psp s) then t else frame_at (stored s) t).
  { intros t. unfold frame_at. destruct (decide (t = psp s)) as [-> | Hne]; [rewrite lookup_insert_eq | rewrite lookup_insert_ne by auto]; reflexivity. }
  intros Hf. cbn. split; [| intros t Ht]; rewrite E; destruct (decide _); auto.
Qed.

(** One step of PendSV. *)
Lemma pendsv_step_coherent p pick ph s : coherent s -> pendsv s = Some ph -> coherent (pendsv_step p pick ph s).
Proof.
  intros [Hf Ha Hl] E. pose proof (fun to => switch_frames to s Hf) as Hsw. unfold agrees in Ha. rewrite E in Ha.
  destruct ph; cbn [pendsv_step].
  - unfold owed_ok in Ha. destruct (owed_to s) as [to |] eqn:Eo; [destruct Ha as [Hr Hfr] |].
    + destruct (masked_dispatch p).
      * rewrite Hfr. destruct (Hsw to) as [Hp Hs]. split; [cbn in *; rewrite Hp; exact Hs | | intros H; destruct (H eq_refl)].
        unfold agrees. destruct (owed_reschedule s); cbn in *; [split |]; auto; congruence.
      * split; [exact Hf | cbn; auto | intros _; right; exact I].
    + split; [exact Hf | cbn; auto | intros H; destruct (H Eo)].
  - destruct Ha as (Eo & Hr & Hfr). rewrite Hfr. destruct (Hsw to) as [Hp Hs].
    split; [cbn in *; rewrite Hp; exact Hs | cbn in *; split; congruence | intros _; right; exact I].
  - destruct Ha as [Eo Hr]. split; [exact Hf | cbn; auto | intros H; destruct (H eq_refl)].
  - destruct Ha as [Eo Hr]. destruct (owed_reschedule s); (split; [exact Hf | | intros H; destruct (H Eo)]); cbn; auto.
    unfold owed_ok. cbn. rewrite Eo. exact Hr.
  - destruct Ha as [Eo Hr]. split; [exact Hf | cbn; auto | intros H; destruct (H Eo)].
  - destruct Ha as (Eo & Hr & ->). split; [exact Hf | | intros H; destruct (H Eo)]. cbn. unfold owed_ok. cbn. rewrite Eo. auto.
  - destruct Ha as [<- Ho]. destruct (Hsw next) as [Hp Hs]. split; [cbn in *; rewrite Hp; exact Hs | | ].
    + unfold agrees. cbn in *. rewrite Hp. exact Ho.
    + intros H. destruct (Hl H) as [Hl' | Hl']; [left; exact Hl' | rewrite E in Hl'; contradiction].
  - split; [exact Hf | exact Ha |]. intros H. destruct (Hl H) as [Hl' | Hl']; [left; exact Hl' | rewrite E in Hl'; contradiction].
Qed.

(** A decision that owes a switch, where the port lets one be made. *)
Lemma owe_coherent from to s : coherent s -> open_phase (pendsv s) = true ->
  from = match owed_to s with None => running s | Some _ => owed_from s end -> coherent (run to (owe from to s)).
Proof.
  intros [Hf Ha Hl] Ho ->. split; [exact Hf | | left; reflexivity].
  assert (H : forall n, owed_ok n s -> owed_ok n (run to (owe (match owed_to s with None => running s | Some _ => owed_from s end) to s))).
  { intros n Hn. unfold owed_ok in *. cbn. split; [reflexivity |]. destruct (owed_to s); [apply Hn | exact Hn]. }
  unfold agrees in *. change (pendsv (run to _)) with (pendsv s).
  destruct (pendsv s) as [[] |]; try discriminate; try exact (H _ Ha). destruct Ha as [? Hn]. exact (conj H0 (H _ Hn)).
Qed.

(** What touches neither the stacks nor what is owed. *)
Lemma coherent_same s s' : coherent s -> psp s' = psp s -> running s' = running s -> stored s' = stored s -> owed_from s' = owed_from s ->
  owed_to s' = owed_to s -> pendsv s' = pendsv s -> (pendsvset s = true -> pendsvset s' = true) -> coherent s'.
Proof.
  intros [Hf Ha Hl] E1 E2 E3 E4 E5 E6 E7. split.
  - rewrite E1, E3. exact Hf.
  - unfold agrees, owed_ok in *. rewrite E1, E2, E4, E5, E6. exact Ha.
  - unfold carried_later in *. rewrite E5, E6. intuition.
Qed.

Lemma look_same s : let s' := (look_and_mark s).2 in
  psp s' = psp s /\ running s' = running s /\ stored s' = stored s /\ owed_from s' = owed_from s /\ owed_to s' = owed_to s /\
  pendsv s' = pendsv s /\ pendsvset s' = pendsvset s /\ handlers s' = handlers s.
Proof. unfold look_and_mark. cbn. destruct (bool_decide _); split_and!; reflexivity. Qed.

Lemma executing_at s : executing s = true -> pendsv s = None /\ handlers s = [] /\ pendsvset s = false.
Proof. unfold executing. destruct (pendsv s), (handlers s); try discriminate. intros ?%negb_true_iff. auto. Qed.

(** A thread that executes is the kernel's, and nothing is owed. *)
Lemma executing_agrees s : coherent s -> executing s = true -> running s = psp s /\ owed_to s = None.
Proof.
  intros [Hf Ha Hl] (E1 & E2 & E3)%executing_at. unfold agrees, owed_ok, carried_later in *. rewrite E1, E3 in *.
  destruct (owed_to s); [| auto]. destruct (Hl ltac:(discriminate)) as [H | H]; [discriminate | destruct H].
Qed.

Lemma step_coherent p l s s' : guarded p -> coherent s -> step p l s = Some s' -> coherent s'.
Proof.
  intros Hg Hc. pose proof (look_same s) as (L1 & L2 & L3 & L4 & L5 & L6 & L7 & L8).
  destruct l; cbn [step].
  - destruct (executing s) eqn:Ex; [| discriminate]. destruct (_ =? _); [discriminate |]. intros [= <-].
    destruct (executing_agrees s Hc Ex) as [_ Eo]. apply owe_coherent; [exact Hc | | rewrite Eo; reflexivity].
    apply executing_at in Ex as [-> _]. reflexivity.
  - destruct (executing s); [| discriminate]. intros [= <-]. eapply coherent_same; [exact Hc | ..]; cbn; auto.
  - intros [= <-]. eapply coherent_same; [exact Hc | ..]; reflexivity || auto.
  - destruct (handlers s) as [| [b |] hs] eqn:Eh; try discriminate. destruct (look_and_mark s) as [owed s1] eqn:El. cbn in *. intros [= <-].
    eapply coherent_same; [exact Hc | ..]; cbn; auto. congruence.
  - destruct (handlers s) as [| [b |] hs] eqn:Eh; try discriminate. intros [= <-]. eapply coherent_same; [exact Hc | ..]; cbn; auto.
  - destruct (handlers s) as [| [b |] hs] eqn:Eh; try discriminate. destruct (decides p (pendsv s)) eqn:Ed; [| discriminate].
    destruct (_ =? _); [discriminate |]. intros [= <-]. apply owe_coherent; auto.
  - destruct (handlers s) as [| [b |] hs] eqn:Eh; try discriminate. intros [= <-]. eapply coherent_same; [exact Hc | ..]; cbn; auto.
  - destruct (handlers s) eqn:Eh; [| discriminate]. destruct (pendsv s) eqn:E; [discriminate |]. destruct (pendsvset s); [| discriminate].
    intros [= <-]. destruct Hc as [Hf Ha Hl]. unfold agrees in Ha. rewrite E in Ha. split; [exact Hf | exact Ha | intros _; right; exact I].
  - destruct (handlers s) eqn:Eh; [| discriminate]. destruct (pendsv s) as [ph |] eqn:E; [| discriminate]. intros [= <-].
    apply pendsv_step_coherent; assumption.
Qed.

(** ** Requests *)

Lemma pendsv_step_minded p pick ph s : coherent s -> minded s -> handlers s = [] -> pendsv s = Some ph -> minded (pendsv_step p pick ph s).
Proof.
  intros [Hf Ha Hl] [Hm Hw] Eh E. unfold agrees in Ha. rewrite E in Ha.
  assert (Hw' : asked s = true -> pendsvset s = true \/ served_soon s).
  { intros H. destruct (Hw H) as [[b Hb] | H']; [rewrite Eh in Hb; inversion Hb | exact H']. }
  unfold served_soon in Hw'. rewrite E in Hw'. clear Hw.
  destruct ph; cbn [pendsv_step].
  - destruct (owed_to s) as [to |] eqn:Eo; [destruct (masked_dispatch p) |].
    + split; cbn; [intros _ H; destruct (H eq_refl) |]. intros Hk. rewrite (Hm Hk) by (rewrite Eo; discriminate). right; right; exact I.
    + split; cbn; [exact Hm |]. intros Hk. right; right. exact (Hm Hk).
    + split; cbn; [exact Hm |]. intros _. right; right; exact I.
  - split; cbn; [exact Hm |]. intros Hk. right; right. exact (Hm Hk).
  - destruct Ha as [Eo _]. split; cbn; [intros _ H; destruct (H eq_refl) |]. intros Hk. right; right. apply (Hm Hk). rewrite Eo. discriminate.
  - destruct Ha as [Eo _]. destruct (owed_reschedule s); split; cbn; try (intros _ H; destruct (H Eo)).
    + intros _. right; right; exact I.
    + intros Hk. destruct (Hw' Hk); [auto | discriminate].
  - destruct Ha as [Eo _]. split; cbn; [intros _ H; destruct (H Eo) |]. intros _. right; right; exact I.
  - split; cbn; discriminate.
  - split; cbn; [exact Hm |]. intros Hk. destruct (Hw' Hk) as [H | []]. auto.
  - split; cbn; [exact Hm |]. intros Hk. destruct (Hw' Hk) as [H | []]. auto.
Qed.

Lemma look_minded s : minded s -> let s' := (look_and_mark s).2 in marked s'.
Proof.
  intros _. unfold look_and_mark, marked. cbn. case_bool_decide as H; cbn; [auto |].
  intros Ho. exfalso. apply H. destruct (owed_to s); [eauto | destruct (Ho eq_refl)].
Qed.

Lemma step_minded p l s s' : guarded p -> coherent s -> minded s -> step p l s = Some s' -> minded s'.
Proof.
  intros Hg Hc Hmi. pose proof (look_minded s Hmi) as Hlook. pose proof Hmi as [Hm Hw].
  pose proof (look_same s) as (L1 & L2 & L3 & L4 & L5 & L6 & L7 & L8).
  destruct l; cbn [step].
  - destruct (_ && _); [| discriminate]. intros [= <-]. split; discriminate.
  - destruct (executing s); [| discriminate]. intros [= <-]. split; [intros _; exact Hlook | right; left; reflexivity].
  - intros [= <-]. split; [exact Hm |]. intros Hk. destruct (Hw Hk) as [[b Hb] | H]; [| right; exact H]. left. exists b. right. exact Hb.
  - destruct (handlers s) as [| [b |] hs] eqn:Eh; try discriminate. destruct (look_and_mark s) as [owed s1] eqn:El. cbn in *. intros [= <-].
    split; [intros _; exact Hlook |]. intros _. left. exists owed. left.
  - destruct (handlers s) as [| [b |] hs] eqn:Eh; try discriminate. intros [= <-]. split; [exact Hm |]. intros _. right; left; reflexivity.
  - destruct (handlers s) as [| [b |] hs] eqn:Eh; try discriminate. destruct (_ && _); [| discriminate]. intros [= <-]. split; discriminate.
  - destruct (handlers s) as [| [b |] hs] eqn:Eh; try discriminate. intros [= <-]. split; [exact Hm |]. intros Hk. cbn in *.
    destruct (Hw Hk) as [[b Hb] | H]; [| right; exact H]. left. exists b. apply elem_of_cons in Hb as [[=] | Hb]. exact Hb.
  - destruct (handlers s) eqn:Eh; [| discriminate]. destruct (pendsv s) eqn:E; [discriminate |]. destruct (pendsvset s) eqn:Ep; [| discriminate].
    intros [= <-]. split; [exact Hm |]. intros Hk. right; right. exact (Hm Hk).
  - destruct (handlers s) eqn:Eh; [| discriminate]. destruct (pendsv s) as [ph |] eqn:E; [| discriminate]. intros [= <-].
    apply pendsv_step_minded; assumption.
Qed.

Lemma steps_keep p ls : guarded p -> forall s s', coherent s -> minded s -> steps p ls s = Some s' -> coherent s' /\ minded s'.
Proof.
  intros Hg. induction ls as [| l ls IH]; intros s s' Hc Hm; cbn; [intros [= <-]; auto |].
  destruct (step p l s) as [s1 |] eqn:E; [| discriminate]. cbn. apply IH; [eapply step_coherent | eapply step_minded]; eauto.
Qed.

Lemma started_minded t : minded (started t).
Proof. split; discriminate. Qed.

(** ** PendSV ends *)

(** PendSV alone, as far as it goes in [fuel] steps. *)
Fixpoint settle (p : port) (pick fuel : nat) (s : core_state) : core_state :=
  match fuel with
  | O => s
  | S fuel =>
      match step p (Step pick) s, step p TakePendSV s with
      | Some s, _ | None, Some s => settle p pick fuel s
      | None, None => s
      end
  end.

(** The steps it has to go, at most. *)
Definition to_go (s : core_state) : nat :=
  (if pendsvset s then 9 else 0) +
  match pendsv s with
  | None => 0 | Some Leaving => 1 | Some (Switching _ _) => 2 | Some (Deciding _) => 3 | Some Calling => 4
  | Some Cleared => 5 | Some Carried => 6 | Some (Carrying _) => 7 | Some Entered => 8
  end.

Lemma pendsv_step_goes p pick ph s : pendsv s = Some ph ->
  to_go (pendsv_step p pick ph s) < to_go s /\ handlers (pendsv_step p pick ph s) = handlers s.
Proof.
  intros E. unfold to_go. rewrite E. destruct ph; cbn [pendsv_step]; try (split; [cbn; lia | reflexivity]).
  - destruct (owed_to s); [destruct (masked_dispatch p); [destruct (owed_reschedule s) |] |]; split; cbn; lia || reflexivity.
  - destruct (owed_reschedule s); split; cbn; lia || reflexivity.
Qed.

Lemma settle_executes p pick fuel : forall s, handlers s = [] -> to_go s <= fuel -> executing (settle p pick fuel s) = true.
Proof.
  assert (Hdone : forall s, handlers s = [] -> pendsv s = None -> pendsvset s = false -> executing s = true).
  { intros s Hh Hp Hs. unfold executing. rewrite Hh, Hp, Hs. reflexivity. }
  induction fuel as [| fuel IH]; intros s Hh Hgo; cbn [settle step].
  - unfold to_go in Hgo. destruct (pendsv s) as [[] |] eqn:E, (pendsvset s) eqn:Es; try lia. auto.
  - rewrite Hh. destruct (pendsv s) as [ph |] eqn:E.
    + destruct (pendsv_step_goes p pick ph s E) as [Hlt Eh]. apply IH; [congruence | lia].
    + destruct (pendsvset s) eqn:Es; [| auto]. apply IH; [exact Hh |]. unfold to_go in *. rewrite E, Es in Hgo. cbn. lia.
Qed.

Lemma to_go_bound s : to_go s <= 17.
Proof. unfold to_go. destruct (pendsvset s), (pendsv s) as [[] |]; lia. Qed.

(** ** The properties *)

(** C15: the two rules of an owed switch. On a port that lets no interrupt
    decide from the dispatch's reading of the owed switch to its going, nor on
    the way into the reschedule handler ([guarded]: the Mainline port is one,
    [mainline_guarded]; the Baseline port is not, and [baseline_loses_a_thread]
    is what comes of it), however interrupts nest: the reschedule handler runs only when nothing is owed and
    the thread the kernel counts as running is the one on the core; a thread
    that executes is the kernel's, with nothing owed; and every other context
    leads to its own thread's frame, so that no switch loses one or resumes one
    in another's place. *)
Theorem owed_switches_come_first (p : port) (t : nat) (ls : list label) (s : core_state) :
  guarded p -> steps p ls (started t) = Some s ->
  (forall ph, pendsv s = Some ph -> ph = Calling \/ ph = Deciding (running s) \/ (exists prev, ph = Deciding prev) ->
     owed_to s = None /\ running s = psp s /\ forall prev, ph = Deciding prev -> prev = psp s) /\
  (executing s = true -> owed_to s = None /\ running s = psp s) /\
  (forall u, u <> psp s -> frame_at (stored s) u = u).
Proof.
  intros Hg H. destruct (steps_keep p ls Hg _ _ (started_coherent t) (started_minded t) H) as [Hc _].
  pose proof Hc as [Hf Ha _]. split; [| split; [| exact Hf]].
  - intros ph E Hph. unfold agrees in Ha. rewrite E in Ha. destruct Hph as [-> | [-> | [prev ->]]].
    + destruct Ha. split_and!; auto. discriminate.
    + destruct Ha as (? & ? & ?). split_and!; auto. intros prev [= <-]. assumption.
    + destruct Ha as (? & ? & ->). split_and!; auto. intros prev [= <-]. reflexivity.
  - intros Ex. destruct (executing_agrees s Hc Ex). auto.
Qed.

(** C16: no request is left behind. From the moment a thread or a handler calls
    for a reschedule, the kernel makes a decision before a thread executes
    again, wherever the request falls in PendSV and whatever nests in it; and
    once the interrupts are over, PendSV is back in a thread within seventeen
    steps. *)
Theorem requests_are_decided (p : port) (t : nat) (ls : list label) (s : core_state) :
  guarded p -> steps p ls (started t) = Some s ->
  (executing s = true -> asked s = false) /\
  (handlers s = [] -> forall pick, executing (settle p pick 17 s) = true).
Proof.
  intros Hg H. destruct (steps_keep p ls Hg _ _ (started_coherent t) (started_minded t) H) as [Hc [Hm Hw]]. split.
  - intros (E1 & E2 & E3)%executing_at. destruct (asked s); [| reflexivity].
    destruct (Hw eq_refl) as [[b Hb] | [Hp | Hs]]; [rewrite E2 in Hb; inversion Hb | congruence | unfold served_soon in Hs; rewrite E1 in Hs; destruct Hs].
  - intros Hh pick. apply settle_executes; [exact Hh | apply to_go_bound].
Qed.

(** The Baseline port lets an interrupt decide inside PendSV, between the
    dispatch's look at what is owed and the reschedule handler's mask. The
    handler then runs for a thread that is not on the core, and stores that
    one's frame in the other's context: here thread 1's frame is gone, and the
    core executes thread 0 while the kernel runs thread 2. *)
Lemma baseline_loses_a_thread :
  exists ls s, steps armv6m ls (started 0) = Some s /\ executing s = true /\ running s = 2 /\ psp s = 0 /\ forall u, frame_at (stored s) u <> 1.
Proof.
  exists [Pend; TakePendSV; Step 0; TakeInterrupt; Decide 1; Return; Step 0; Step 2; Step 0; Step 0; TakePendSV; Step 0; Step 0].
  exists (CoreState 0 2 (<[0 := 2]> (<[1 := 0]> ∅)) 0 None false false None [] false).
  split; [vm_compute; reflexivity |]. split_and!; try reflexivity. intros [| [| u]]; [discriminate | discriminate |].
  unfold frame_at. cbn. rewrite !lookup_insert_ne, lookup_empty by discriminate. discriminate.
Qed.

(** What PendSV goes through. *)
Fixpoint visited (p : port) (ls : list label) (s : core_state) : list (option phase) :=
  pendsv s :: match ls with [] => [] | l :: ls => match step p l s with Some s => visited p ls s | None => [] end end.

(** A request made before the same interrupt's wake decides is not marked, and
    the reschedule handler is not called for it. *)
Lemma request_before_decision_is_dropped :
  let ls := [TakeInterrupt; Look; Write; Decide 1; Return; TakePendSV; Step 0; Step 0; Step 0; Step 0; Step 0] in
  exists s, steps armv7m_armv8m ls (started 0) = Some s /\ executing s = true /\ Some Calling ∉ visited armv7m_armv8m ls (started 0).
Proof.
  eexists. split; [vm_compute; reflexivity |]. split; [reflexivity |].
  match goal with |- _ ∉ ?l => let v := eval vm_compute in l in change l with v end.
  intros H. repeat (apply elem_of_cons in H as [H | H]; [discriminate |]). inversion H.
Qed.

(** An owed switch revised and asked about before PendSV takes it. *)
Definition revised : list label :=
  [Direct 1; TakeInterrupt; Look; TakeInterrupt; Decide 2; Return; Write; Return; TakePendSV; Step 0].

Lemma owed_switches_come_first_witness :
  let s := CoreState 2 2 (<[0 := 0]> ∅) 0 None false false (Some Calling) [] false in
  steps armv7m_armv8m (revised ++ [Step 0; Step 0; Step 0]) (started 0) = Some s /\ owed_to s = None /\ running s = psp s.
Proof.
  intros s. assert (E : steps armv7m_armv8m (revised ++ [Step 0; Step 0; Step 0]) (started 0) = Some s) by (vm_compute; reflexivity).
  split; [exact E |].
  destruct (owed_switches_come_first armv7m_armv8m 0 _ s mainline_guarded E) as [H _].
  destruct (H Calling eq_refl (or_introl eq_refl)) as (? & ? & _). split; assumption.
Defined.

Lemma requests_are_decided_witness :
  let s := CoreState 0 2 ∅ 0 (Some 2) true false (Some (Carrying 2)) [] false in
  steps armv7m_armv8m revised (started 0) = Some s /\ executing (settle armv7m_armv8m 3 17 s) = true.
Proof.
  intros s. assert (E : steps armv7m_armv8m revised (started 0) = Some s) by (vm_compute; reflexivity).
  split; [exact E |]. exact (proj2 (requests_are_decided armv7m_armv8m 0 revised s mainline_guarded E) eq_refl 3).
Defined.
