(* ===== verification/Systick.v ===== *)
(** * The SysTick time sources: port_time_systick.cpp and port_time_systick_smp.cpp

    SysTick is a counter of 24 bits that counts down and reloads itself, and has
    no compare register.  The counter is modelled clock by clock ([tick]): it
    goes to nothing once an interval, which sets COUNTFLAG and pends the
    exception, and reloads at the next clock; a write to it makes it nothing
    without either, and it reloads at the next clock too.  Time passes at each
    access to a register: one clock, and as many more as [pace] says.

    An operation of port_time_systick.cpp masks interrupts or is SysTick's
    handler, so it is one piece for the software, while the counter runs on
    under it.  What is due is pending and is taken when no operation runs. *)

From S2P Require Import Prelude Mtime.
Local Open Scope Z_scope.

Module Systick.
(** ** The counter *)
Record systick := Counter {
  enabled : bool;
  tickint : bool;
  load : Z;
  val : Z;
  countflag : bool;
  pending : bool;      (* SysTick's exception, as ICSR has it *)
  clocks : Z           (* clocks since reset; no register *)
}.

Definition set_ctrl e t d := Counter e t (load d) (val d) (countflag d) (pending d) (clocks d).
Definition set_load v d := Counter (enabled d) (tickint d) v (val d) (countflag d) (pending d) (clocks d).
Definition set_val v d := Counter (enabled d) (tickint d) (load d) v (countflag d) (pending d) (clocks d).
Definition set_countflag v d := Counter (enabled d) (tickint d) (load d) (val d) v (pending d) (clocks d).
Definition set_pending v d := Counter (enabled d) (tickint d) (load d) (val d) (countflag d) v (clocks d).
Definition set_clocks v d := Counter (enabled d) (tickint d) (load d) (val d) (countflag d) (pending d) v.

Definition systick_reload_max : Z := 16777215.

(** One clock.  Only going from 1 to 0 is an event. *)
Definition tick (d : systick) : systick :=
  let d := set_clocks (clocks d + 1) d in
  if negb (enabled d) then d
  else if val d =? 0 then set_val (load d) d
  else
    let d := set_val (val d - 1) d in
    if val d =? 0 then set_countflag true (set_pending (pending d || tickint d) d) else d.

(** ** The driver's state *)
Inductive timer_mode := none | periodic | tickless.

#[export] Instance timer_mode_eq_dec : EqDecision timer_mode.
Proof. solve_decision. Defined.

Definition never : Z := 2 ^ 64 - 1.
Definition max_period : Z := systick_reload_max + 1.
Definition min_period : Z := 64.

Record source := Source {
  timer : systick;
  pace : list nat;       (* the clocks of the accesses to come, past the first of each *)
  active_mode : timer_mode;
  tick_count : Z;
  configured_tick_hz : Z;
  base : Z;
  current_reload : Z;
  armed_deadline : Z;
  delivery_enabled : bool;
  isr_handler : option nat;
  isr_argument : nat;
  calls : list (nat * nat)
}.

Definition set_timer v s := Source v (pace s) (active_mode s) (tick_count s) (configured_tick_hz s) (base s) (current_reload s) (armed_deadline s) (delivery_enabled s) (isr_handler s) (isr_argument s) (calls s).
Definition set_pace v s := Source (timer s) v (active_mode s) (tick_count s) (configured_tick_hz s) (base s) (current_reload s) (armed_deadline s) (delivery_enabled s) (isr_handler s) (isr_argument s) (calls s).
Definition set_active_mode v s := Source (timer s) (pace s) v (tick_count s) (configured_tick_hz s) (base s) (current_reload s) (armed_deadline s) (delivery_enabled s) (isr_handler s) (isr_argument s) (calls s).
Definition set_tick_count v s := Source (timer s) (pace s) (active_mode s) v (configured_tick_hz s) (base s) (current_reload s) (armed_deadline s) (delivery_enabled s) (isr_handler s) (isr_argument s) (calls s).
Definition set_configured_tick_hz v s := Source (timer s) (pace s) (active_mode s) (tick_count s) v (base s) (current_reload s) (armed_deadline s) (delivery_enabled s) (isr_handler s) (isr_argument s) (calls s).
Definition set_base v s := Source (timer s) (pace s) (active_mode s) (tick_count s) (configured_tick_hz s) v (current_reload s) (armed_deadline s) (delivery_enabled s) (isr_handler s) (isr_argument s) (calls s).
Definition set_current_reload v s := Source (timer s) (pace s) (active_mode s) (tick_count s) (configured_tick_hz s) (base s) v (armed_deadline s) (delivery_enabled s) (isr_handler s) (isr_argument s) (calls s).
Definition set_armed_deadline v s := Source (timer s) (pace s) (active_mode s) (tick_count s) (configured_tick_hz s) (base s) (current_reload s) v (delivery_enabled s) (isr_handler s) (isr_argument s) (calls s).
Definition set_delivery v s := Source (timer s) (pace s) (active_mode s) (tick_count s) (configured_tick_hz s) (base s) (current_reload s) (armed_deadline s) v (isr_handler s) (isr_argument s) (calls s).
Definition set_isr h a s := Source (timer s) (pace s) (active_mode s) (tick_count s) (configured_tick_hz s) (base s) (current_reload s) (armed_deadline s) (delivery_enabled s) h a (calls s).
Definition set_calls v s := Source (timer s) (pace s) (active_mode s) (tick_count s) (configured_tick_hz s) (base s) (current_reload s) (armed_deadline s) (delivery_enabled s) (isr_handler s) (isr_argument s) v.

Local Abbreviation T := (M source).

(** ** The registers *)

Definition pass (n : nat) (s : source) : source := set_timer (Nat.iter n tick (timer s)) s.

(** The clocks up to the next access. *)
Definition step (p : list nat) : nat := S (default O (head p)).

Definition elapse : T unit := kmodify (fun s => set_pace (tail (pace s)) (pass (step (pace s)) s)).
Definition update (f : systick -> systick) : T unit := kmodify (fun s => set_timer (f (timer s)) s).

Definition read_val : T Z := elapse ;;* kget (fun s => val (timer s)).

(** Reading CTRL clears COUNTFLAG. *)
Definition read_ctrl : T (bool * bool * bool) :=
  elapse ;;*
  let* d := kget timer in
  update (set_countflag false) ;;*
  kret (enabled d, tickint d, countflag d).

Definition write_ctrl (e t : bool) : T unit := elapse ;;* update (set_ctrl e t).
Definition write_load (v : Z) : T unit := elapse ;;* update (set_load (wrap 24 v)).

(** Any write to VAL leaves nothing there, and clears COUNTFLAG. *)
Definition write_val : T unit := elapse ;;* update (fun d => set_val 0 (set_countflag false d)).
Definition pendstclr : T unit := elapse ;;* update (set_pending false).

(** ** Tickless *)

(** The time, and [*val_out]. *)
Definition now_tickless_locked : T (Z * Z) :=
  let* val := read_val in
  let* '(_, _, countflag) := read_ctrl in
  if countflag then
    let* val := read_val in
    let* b := kget base in
    let* r := kget current_reload in
    kret (u64 (b + (r + 1) + u32 (r - val)), val)
  else
    let* b := kget base in
    let* r := kget current_reload in
    let val_out := if val =? 0 then u32 (r + 1) else val in
    if val =? 0 then kret (b, val_out) else kret (u64 (b + u32 (r - val)), val_out).

Definition desired_reload (deadline from : Z) : Z :=
  let interval :=
    if deadline =? never then max_period
    else
      let interval := if from <? deadline then deadline - from else min_period in
      let interval := if interval <? min_period then min_period else interval in
      if max_period <? interval then max_period else interval in
  u32 (interval - 1).

Definition restart_interval_locked (from : Z) : T unit :=
  let* deadline := kget armed_deadline in
  kmodify (set_current_reload (desired_reload deadline from)) ;;*
  let* r := kget current_reload in
  write_load r ;;*
  write_val ;;*
  pendstclr.

Definition restart_from_now_locked (only_if_changed : bool) : T unit :=
  let* '(from, first) := now_tickless_locked in
  let* deadline := kget armed_deadline in
  let* r := kget current_reload in
  let next := desired_reload deadline from in
  if only_if_changed && (next =? r) then kret tt
  else
    let* raw_second := read_val in
    write_load next ;;*
    write_val ;;*
    pendstclr ;;*
    let second := if raw_second =? 0 then u32 (r + 1) else raw_second in
    let between := if second <=? first then u32 (first - second) else u64 (first + (r + 1 - second)) in
    kmodify (set_base (u64 (from + between))) ;;*
    kmodify (set_current_reload next).

Definition retime_locked : T unit := restart_from_now_locked false.

(** ** The port's functions *)

Definition time_setup (clock_hz tick_hz : Z) : T unit :=
  write_ctrl false false ;;*
  pendstclr ;;*
  kmodify (set_tick_count 0) ;;*
  kmodify (set_base 0) ;;*
  kmodify (set_armed_deadline never) ;;*
  kmodify (set_delivery false) ;;*
  kensure assert_failed (0 <? clock_hz) ;;*
  kensure assert_failed (clock_hz <=? 1000000000) ;;*
  if tick_hz =? 0 then
    kmodify (set_active_mode tickless) ;;*
    kmodify (set_configured_tick_hz clock_hz) ;;*
    restart_interval_locked 0 ;;*
    write_ctrl true true
  else
    kmodify (set_active_mode periodic) ;;*
    let reload := u32 (clock_hz / tick_hz - 1) in
    kensure assert_failed (reload <=? systick_reload_max) ;;*
    kensure assert_failed (0 <? reload) ;;*
    kmodify (set_configured_tick_hz tick_hz) ;;*
    kmodify (set_current_reload reload) ;;*
    write_load reload ;;*
    write_val ;;*
    write_ctrl true false.

Definition time_teardown : T unit :=
  write_ctrl false false ;;*
  pendstclr ;;*
  kmodify (set_active_mode none) ;;*
  kmodify (set_armed_deadline never) ;;*
  kmodify (set_delivery false) ;;*
  kmodify (set_isr None O).

Definition time_now : T Z :=
  let* mode := kget active_mode in
  if bool_decide (mode = tickless) then let* '(now, _) := now_tickless_locked in kret now
  else kget tick_count.

Definition time_freq_hz : T Z := kget configured_tick_hz.
Definition time_register_isr_handler (handler : option nat) (arg : nat) : T unit := kmodify (set_isr handler arg).

(** [irq_enable] and [irq_disable]: in periodic mode TICKINT follows. *)
Definition set_tickint (on : bool) : T unit :=
  let* mode := kget active_mode in
  if bool_decide (mode = periodic) then
    let* '(e, _, _) := read_ctrl in
    write_ctrl e on
  else kret tt.

Definition time_irq_enable : T unit := kmodify (set_delivery true) ;;* set_tickint true.
Definition time_irq_disable : T unit := kmodify (set_delivery false) ;;* set_tickint false.

Definition time_arm (deadline : Z) : T unit :=
  let* mode := kget active_mode in
  kensure assert_failed (bool_decide (mode = tickless)) ;;*
  let* armed := kget armed_deadline in
  (if deadline <? armed then kmodify (set_armed_deadline deadline) else kret tt) ;;*
  let* armed := kget armed_deadline in
  let* b := kget base in
  let* r := kget current_reload in
  if armed <? u64 (b + r + 1) then retime_locked else kret tt.

Definition time_disarm : T unit :=
  let* mode := kget active_mode in
  kensure assert_failed (bool_decide (mode = tickless)) ;;*
  kmodify (set_armed_deadline never).

Definition call_handler : T unit :=
  let* on := kget delivery_enabled in
  let* h := kget isr_handler in
  match h with
  | Some h => if on then kmodify (fun s => set_calls ((h, isr_argument s) :: calls s) s) else kret tt
  | None => kret tt
  end.

(** [SysTick_Handler], entered: the exception is no longer pending. *)
Definition systick_handler : T unit :=
  update (set_pending false) ;;*
  let* mode := kget active_mode in
  if bool_decide (mode = tickless) then
    let* _ := read_ctrl in
    kmodify (fun s => set_base (u64 (base s + (current_reload s + 1))) s) ;;*
    let* armed := kget armed_deadline in
    let* b := kget base in
    let reached := negb (armed =? never) && (armed <=? b) in
    (if reached then kmodify (set_armed_deadline never) else kret tt) ;;*
    restart_from_now_locked true ;;*
    if reached then call_handler else kret tt
  else
    kmodify (fun s => set_tick_count (u64 (tick_count s + 1)) s) ;;*
    call_handler.
End Systick.

(** ** Two cores, a SysTick each: port_time_systick_smp.cpp

    Every core ticks, and one counts.  Nothing here reads a counter, so no time
    passes; a core's tick comes to it when its counter wraps. *)
Module SystickSmp.
Import Systick.

Definition time_core : nat := 0.

Record source := Source {
  timers : list systick;
  tick : Z * Z;                     (* tick_high and tick_low *)
  configured_tick_hz : Z;
  isr_handler : option nat;
  isr_argument : nat;
  calls : list (nat * nat * nat)    (* core, handler and argument, the latest first *)
}.

Definition set_timers v s := Source v (tick s) (configured_tick_hz s) (isr_handler s) (isr_argument s) (calls s).
Definition set_tick v s := Source (timers s) v (configured_tick_hz s) (isr_handler s) (isr_argument s) (calls s).
Definition set_configured_tick_hz v s := Source (timers s) (tick s) v (isr_handler s) (isr_argument s) (calls s).
Definition set_isr h a s := Source (timers s) (tick s) (configured_tick_hz s) h a (calls s).
Definition set_calls v s := Source (timers s) (tick s) (configured_tick_hz s) (isr_handler s) (isr_argument s) v.

Local Abbreviation T := (M source).

(** A core reaches its own SysTick and no other. *)
Definition modify_own (core : nat) (f : systick -> systick) : T unit :=
  kmodify (fun s => set_timers (alter f core (timers s)) s).

Definition time_setup (core : nat) (clock_hz tick_hz : Z) : T unit :=
  kensure assert_failed (0 <? tick_hz) ;;*
  modify_own core (set_ctrl false false) ;;*
  kensure assert_failed (0 <? clock_hz) ;;*
  kensure assert_failed (tick_hz <=? clock_hz) ;;*
  let reload := u32 (clock_hz / tick_hz - 1) in
  kensure assert_failed (reload <=? systick_reload_max) ;;*
  let* hz := kget configured_tick_hz in
  kensure assert_failed ((hz =? 0) || (hz =? tick_hz)) ;;*
  kmodify (set_configured_tick_hz tick_hz) ;;*
  (if (core =? time_core)%nat then kmodify (set_tick (0, 0)) else kret tt) ;;*
  modify_own core (set_load (wrap 24 reload)) ;;*
  modify_own core (fun d => set_val 0 (set_countflag false d)) ;;*
  modify_own core (set_ctrl true true).

Definition time_teardown (core : nat) : T unit :=
  modify_own core (set_ctrl false false) ;;*
  modify_own core (set_pending false) ;;*
  kmodify (set_isr None O) ;;*
  kmodify (set_configured_tick_hz 0).

(** [cyros_port_time_now] takes the same loads as the MTIME source's reader,
    over a history of the two words. *)
Definition time_now (h : nat -> Z * Z) (fuel : nat) : M nat Z := Mtime.periodic_count h fuel.

Definition time_freq_hz : T Z := kget configured_tick_hz.
Definition time_register_isr_handler (handler : option nat) (arg : nat) : T unit := kmodify (set_isr handler arg).

Definition time_irq_enable (core : nat) : T unit :=
  modify_own core (fun d => set_ctrl (enabled d) true (set_countflag false d)).
Definition time_irq_disable (core : nat) : T unit :=
  modify_own core (fun d => set_ctrl (enabled d) false (set_countflag false d)).

Definition time_arm (deadline : Z) : T unit := kensure assert_failed false.
Definition time_disarm : T unit := kensure assert_failed false.

(** The time core's stores, as what they leave in the two words one after
    another. *)
Definition advance (w : Z * Z) : list (Z * Z) :=
  let next := u32 (w.2 + 1) in
  (w.1, next) :: if next =? 0 then [(u32 (w.1 + 1), next)] else [].

(** [SysTick_Handler], entered on [core]. *)
Definition systick_handler (core : nat) : T unit :=
  modify_own core (set_pending false) ;;*
  (if (core =? time_core)%nat then kmodify (fun s => set_tick (default (tick s) (last (advance (tick s)))) s) else kret tt) ;;*
  let* h := kget isr_handler in
  match h with
  | Some h => kmodify (fun s => set_calls ((core, h, isr_argument s) :: calls s) s)
  | None => kret tt
  end.
End SystickSmp.
