(* ===== verification/SystickProperties.v ===== *)
(** * SysTick's tickless time: the counter's age, readings, restarts, and its properties *)

From S2P Require Import Prelude State Mtime MtimeProperties Systick.
Import Systick.
Local Open Scope Z_scope.

#[local] Arguments Z.ltb : simpl never.
#[local] Arguments Z.leb : simpl never.
#[local] Arguments Z.eqb : simpl never.
#[local] Arguments Z.mul : simpl never.
#[local] Arguments never : simpl never.
#[local] Arguments systick_reload_max : simpl never.
#[local] Arguments Nat.iter : simpl never.

(** ** The counter *)

(** What VAL holds [a] clocks after the interval began: nothing at -1, where a
    write left it; the second half is the next interval, whose own end must not
    come before the first's was accounted for. *)
Definition val_at (L a : Z) : Z := if a <? 0 then 0 else if a <=? L then L - a else 2 * L + 1 - a.

(** The counter [a] clocks into an interval of [L + 1], whose end shows in
    COUNTFLAG unless it was read there ([fresh]). *)
Record runs (L : Z) (fresh : bool) (a : Z) (d : systick) : Prop := {
  ru_enabled : enabled d = true;
  ru_tickint : tickint d = true;
  ru_load : load d = L;
  ru_val : val d = val_at L a;
  ru_pending : pending d = (L <=? a);
  ru_flag : countflag d = fresh && (L <=? a);
  ru_fresh : fresh = false -> L <= a
}.

Ltac decide_z :=
  repeat match goal with
  | |- context [?x <? ?y] => destruct (Z.ltb_spec x y)
  | |- context [?x <=? ?y] => destruct (Z.leb_spec x y)
  | |- context [?x =? ?y] => destruct (Z.eqb_spec x y)
  end.

Lemma tick_clocks d : clocks (tick d) = clocks d + 1.
Proof. unfold tick. cbn. destruct (enabled d); cbn; [| reflexivity]. destruct (val d =? 0); cbn; [reflexivity |]. destruct (_ =? 0); reflexivity. Qed.

Lemma tick_runs L f a d : 1 <= L -> -1 <= a -> a + 1 <= 2 * L -> runs L f a d -> runs L f (a + 1) (tick d).
Proof.
  intros HL Ha Hle [He Ht Hl Hv Hp Hf Hfr].
  destruct d as [e t l v c p k]. cbn in *. subst e t l v c p. unfold tick. cbn.
  assert (H1 : val_at L (a + 1) = if val_at L a =? 0 then L else val_at L a - 1) by (unfold val_at; decide_z; lia).
  assert (H2 : (L <=? a + 1) = (L <=? a) || ((val_at L a =? 1))) by (unfold val_at; decide_z; cbn; first [reflexivity | lia]).
  destruct (Z.eqb_spec (val_at L a) 0) as [E | E]; cbn.
  - rewrite E in H2. cbn in H2. rewrite orb_false_r in H2. split; cbn; auto; try congruence. intros H; specialize (Hfr H); lia.
  - destruct (Z.eqb_spec (val_at L a - 1) 0) as [E1 | E1]; cbn.
    + rewrite (proj2 (Z.eqb_eq (val_at L a) 1)), orb_true_r in H2 by lia. split; cbn; auto; try congruence; rewrite ?H2, ?orb_true_r; auto.
      * destruct f; [reflexivity |]. specialize (Hfr eq_refl). exfalso. unfold val_at in *. revert E E1. decide_z; lia.
      * intros H. specialize (Hfr H). lia.
    + rewrite (proj2 (Z.eqb_neq (val_at L a) 1)), orb_false_r in H2 by lia. split; cbn; auto; try congruence. intros H; specialize (Hfr H); lia.
Qed.

Lemma ticks_clocks n : forall d, clocks (Nat.iter n tick d) = clocks d + Z.of_nat n.
Proof. induction n as [| n IH]; intros d; [rewrite Z.add_0_r; reflexivity |]. change (Nat.iter (S n) tick d) with (tick (Nat.iter n tick d)). rewrite tick_clocks, IH. lia. Qed.

Lemma ticks_run L f a d n : 1 <= L -> -1 <= a -> a + Z.of_nat n <= 2 * L -> runs L f a d -> runs L f (a + Z.of_nat n) (Nat.iter n tick d).
Proof.
  intros HL Ha Hle Hr. induction n as [| n IH]; [rewrite Z.add_0_r; exact Hr |].
  change (Nat.iter (S n) tick d) with (tick (Nat.iter n tick d)).
  replace (a + Z.of_nat (S n)) with (a + Z.of_nat n + 1) by lia. apply tick_runs; try lia. apply IH. lia.
Qed.

(** What is pending does not matter to the rest. *)
Lemma tick_pending d : set_pending false (tick d) = set_pending false (tick (set_pending false d)).
Proof. destruct d as [[] t l v c p k]; unfold tick; cbn; [| reflexivity]. destruct (v =? 0); [reflexivity |]. cbn. destruct (v - 1 =? 0); reflexivity. Qed.

Lemma ticks_pending n d : set_pending false (Nat.iter n tick d) = set_pending false (Nat.iter n tick (set_pending false d)).
Proof.
  induction n as [| n IH]; [reflexivity |].
  change (set_pending false (tick (Nat.iter n tick d)) = set_pending false (tick (Nat.iter n tick (set_pending false d)))).
  rewrite tick_pending, IH, <- tick_pending. reflexivity.
Qed.

(** After a restart the old interval's exception is dropped and the new one is
    under way. *)
Lemma restarted_runs L n d : (1 <= n)%nat -> Z.of_nat n <= L -> enabled d = true -> tickint d = true -> load d = L ->
  runs L true (Z.of_nat n - 1) (set_pending false (Nat.iter n tick (set_val 0 (set_countflag false d)))).
Proof.
  intros Hn Hle He Ht Hl. rewrite ticks_pending.
  assert (H0 : runs L true (-1) (set_pending false (set_val 0 (set_countflag false d)))).
  { split; cbn; auto; try discriminate; unfold val_at; decide_z; auto; lia. }
  apply (ticks_run L true (-1) _ n) in H0; try lia. replace (-1 + Z.of_nat n) with (Z.of_nat n - 1) in H0 by lia.
  destruct H0 as [H1 H2 H3 H4 H5 H6 H7]. split; cbn; auto. symmetry. apply Z.leb_gt. lia.
Qed.

(** ** The clocks of accesses *)
Fixpoint pace_of (k : nat) (p : list nat) : Z :=
  match k with O => 0 | S k => Z.of_nat (step p) + pace_of k (tail p) end.

Lemma drop_tail {A} k (p : list A) : drop k (tail p) = drop (S k) p.
Proof. destruct p; [cbn; apply drop_nil | reflexivity]. Qed.

Lemma pace_of_add j : forall k p, pace_of (j + k) p = pace_of j p + pace_of k (drop j p).
Proof. induction j as [| j IH]; intros k p; [reflexivity |]. cbn [pace_of Nat.add]. rewrite IH, drop_tail. lia. Qed.

Lemma pace_of_nonneg k : forall p, Z.of_nat k <= pace_of k p.
Proof. induction k as [| k IH]; intros p; [reflexivity |]. cbn [pace_of]. specialize (IH (tail p)). unfold step. lia. Qed.

Lemma pace_of_mono j k p : (j <= k)%nat -> pace_of j p <= pace_of k p.
Proof. intros H. replace k with (j + (k - j))%nat by lia. rewrite pace_of_add. pose proof (pace_of_nonneg (k - j) (drop j p)). lia. Qed.

(** The state an access is made in. *)
Definition elapsed (s : source) : source := set_pace (tail (pace s)) (pass (step (pace s)) s).

Lemma elapsed_clocks s : clocks (timer (elapsed s)) = clocks (timer s) + Z.of_nat (step (pace s)).
Proof. apply ticks_clocks. Qed.

(** ** The driver's state: [a] clocks since [base], [lag] behind the clock *)
Record at_age (fresh : bool) (lag a : Z) (s : source) : Prop := {
  ag_mode : active_mode s = tickless;
  ag_runs : runs (current_reload s) fresh a (timer s);
  ag_reload : 63 <= current_reload s <= systick_reload_max;
  ag_age : -1 <= a <= 2 * current_reload s;
  ag_base : base s = clocks (timer s) - lag - a;
  ag_nonneg : 0 <= base s
}.

Lemma at_age_elapsed f lag a s : at_age f lag a s -> a + Z.of_nat (step (pace s)) <= 2 * current_reload s ->
  at_age f lag (a + Z.of_nat (step (pace s))) (elapsed s).
Proof.
  intros [Hm Hr HL Ha Hb H0] Hle. split; cbn -[Nat.iter]; auto.
  - apply ticks_run; auto; lia.
  - lia.
  - rewrite ticks_clocks. lia.
Qed.

(** What reading CTRL leaves. *)
Lemma at_age_read_ctrl f lag a s : at_age f lag a s ->
  at_age (negb (current_reload s <=? a)) lag a (set_timer (set_countflag false (timer s)) s).
Proof.
  intros [Hm [? ? ? ? Hp Hf Hfr] HL Ha Hb H0]. split; cbn; auto. split; cbn; auto.
  - destruct (Z.leb_spec (current_reload s) a); reflexivity.
  - intros E. apply negb_false_iff, Z.leb_le in E. exact E.
Qed.

(** The driver's part of the state, which accesses leave alone. *)
Definition soft (s : source) := (active_mode s, configured_tick_hz s, armed_deadline s, delivery_enabled s, isr_handler s, isr_argument s, calls s).

(** A second reading, which VAL's nothing makes the interval's beginning. *)
Definition out_at (L a : Z) : Z := if val_at L a =? 0 then L + 1 else val_at L a.

Lemma u32_fits z : 0 <= z < 2 ^ 32 -> u32 z = z.
Proof. apply wrap_small. Qed.

Lemma u64_fits z : 0 <= z < 2 ^ 64 -> u64 z = z.
Proof. apply wrap_small. Qed.

Lemma wp_read_val Q s : Q (val (timer (elapsed s))) (elapsed s) -> wp read_val Q s.
Proof. auto. Qed.

Lemma wp_read_ctrl Q s :
  Q (enabled (timer (elapsed s)), tickint (timer (elapsed s)), countflag (timer (elapsed s)))
    (set_timer (set_countflag false (timer (elapsed s))) (elapsed s)) -> wp read_ctrl Q s.
Proof. auto. Qed.

(** A reading is the time, of a moment within it. *)
Lemma now_spec lag a s : at_age true lag a s -> a + pace_of 3 (pace s) <= 2 * current_reload s -> base s < 2 ^ 62 ->
  wp now_tickless_locked (fun '(v, out) s' => exists r k f,
    a < r <= a + pace_of k (pace s) /\ (k <= 3)%nat /\ v = base s + Z.max 0 r /\ out = out_at (current_reload s) r /\ r <> current_reload s /\
    at_age f lag (a + pace_of k (pace s)) s' /\ pace s' = drop k (pace s) /\ soft s' = soft s /\
    base s' = base s /\ current_reload s' = current_reload s) s.
Proof.
  intros H Hle Hsmall. pose proof (ag_reload _ _ _ _ H) as HL. pose proof (ag_age _ _ _ _ H) as Ha. pose proof (ag_nonneg _ _ _ _ H) as H0.
  cbn [pace_of] in Hle. set (n1 := Z.of_nat (step (pace s))) in *. set (n2 := Z.of_nat (step (tail (pace s)))) in *.
  set (n3 := Z.of_nat (step (tail (tail (pace s))))) in *.
  assert (1 <= n1 /\ 1 <= n2 /\ 1 <= n3) as (Hn1 & Hn2 & Hn3) by (unfold n1, n2, n3, step; lia).
  assert (HLm : current_reload s < 2 ^ 24) by (unfold systick_reload_max in HL; lia).
  pose proof (at_age_elapsed _ _ _ _ H ltac:(fold n1; lia)) as H1. fold n1 in H1.
  pose proof (at_age_elapsed _ _ _ _ H1 ltac:(cbn; fold n2; lia)) as H2. cbn [elapsed pace set_pace pass] in H2. fold n2 in H2.
  pose proof (at_age_read_ctrl _ _ _ _ H2) as H3. set (s2 := set_timer (set_countflag false (timer (elapsed (elapsed s)))) (elapsed (elapsed s))) in *.
  unfold now_tickless_locked. apply wp_bind, wp_read_val, wp_bind, wp_read_ctrl. fold s2.
  rewrite (ru_val _ _ _ _ (ag_runs _ _ _ _ H1)), (ru_flag _ _ _ _ (ag_runs _ _ _ _ H2)). cbn [andb].
  change (current_reload (elapsed s)) with (current_reload s). change (current_reload (elapsed (elapsed s))) with (current_reload s) in *.
  destruct (Z.leb_spec (current_reload s) (a + n1 + n2)) as [Hw | Hw].
  - apply wp_bind, wp_read_val.
    pose proof (at_age_elapsed _ _ _ _ H3 ltac:(cbn; fold n3; lia)) as H4. change (step (pace s2)) with (step (tail (tail (pace s)))) in H4. fold n3 in H4.
    rewrite (ru_val _ _ _ _ (ag_runs _ _ _ _ H4)).
    apply wp_bind, wp_get, wp_bind, wp_get, wp_ret. change (base (elapsed s2)) with (base s). change (current_reload (elapsed s2)) with (current_reload s).
    assert (Ev : val_at (current_reload s) (a + n1 + n2 + n3) = 2 * current_reload s + 1 - (a + n1 + n2 + n3)) by (unfold val_at; decide_z; lia).
    exists (a + n1 + n2 + n3), 3%nat, false. cbn [pace_of]. fold n1 n2 n3. rewrite Z.add_0_r, !Z.add_assoc in *.
    split_and!; auto; try lia.
    + rewrite Ev, u32_fits by lia. rewrite u64_fits by lia. lia.
    + unfold out_at. rewrite Ev, (proj2 (Z.eqb_neq _ 0)) by lia. reflexivity.
    + cbn. destruct (pace s) as [| ? [| ? []]]; reflexivity.
  - apply wp_bind, wp_get, wp_bind, wp_get. change (base s2) with (base s). change (current_reload s2) with (current_reload s).
    assert (Hq : exists f, (if val_at (current_reload s) (a + n1) =? 0 then (base s) else u64 (base s + u32 (current_reload s - val_at (current_reload s) (a + n1))))
                 = base s + Z.max 0 (a + n1) /\ at_age f lag (a + n1 + n2) s2).
    { eexists. split; [| exact H3]. destruct (Z.ltb_spec (a + n1) 0) as [Hn | Hn].
      - assert (E : val_at (current_reload s) (a + n1) = 0) by (unfold val_at; decide_z; lia). rewrite E. cbn. lia.
      - assert (E : val_at (current_reload s) (a + n1) = current_reload s - (a + n1)) by (unfold val_at; decide_z; lia).
        rewrite E, (proj2 (Z.eqb_neq _ 0)) by lia. rewrite u32_fits by lia. rewrite u64_fits by lia. lia. }
    destruct Hq as (f & Hv & Hf).
    assert (Hq : exists r k f, a < r <= a + pace_of k (pace s) /\ (k <= 3)%nat /\ base s + Z.max 0 (a + n1) = base s + Z.max 0 r /\
                 (if val_at (current_reload s) (a + n1) =? 0 then u32 (current_reload s + 1) else val_at (current_reload s) (a + n1)) = out_at (current_reload s) r /\ r <> current_reload s /\
                 at_age f lag (a + pace_of k (pace s)) s2 /\ pace s2 = drop k (pace s) /\ soft s2 = soft s /\
                 base s2 = base s /\ current_reload s2 = current_reload s).
    { exists (a + n1), 2%nat, f. cbn [pace_of]. fold n1 n2. rewrite Z.add_0_r, !Z.add_assoc. split_and!; auto; try lia.
      + unfold out_at. destruct (_ =? 0); [apply u32_fits; lia | reflexivity].
      + cbn. destruct (pace s) as [| ? []]; reflexivity. }
    rewrite <- Hv in Hq. destruct (_ =? 0); apply wp_ret; exact Hq.
Qed.

(** A reading where an earlier one took the interval's end and its interrupt
    is still to come: short by that one interval, and nothing else. *)
Lemma stale_spec lag a s : at_age false lag a s -> a + pace_of 2 (pace s) <= 2 * current_reload s -> base s < 2 ^ 62 ->
  wp now_tickless_locked (fun x s' => clocks (timer s) <= clocks (timer s') /\
    clocks (timer s) - lag - (current_reload s + 1) <= x.1 <= clocks (timer s') - lag - (current_reload s + 1)) s.
Proof.
  intros H Hle Hsmall. pose proof (ag_reload _ _ _ _ H) as HL. pose proof (ag_age _ _ _ _ H) as Ha. pose proof (ag_nonneg _ _ _ _ H) as H0.
  pose proof (ru_fresh _ _ _ _ (ag_runs _ _ _ _ H) eq_refl) as HLa. pose proof (ag_base _ _ _ _ H) as Hb.
  cbn [pace_of] in Hle. set (n1 := Z.of_nat (step (pace s))) in *. set (n2 := Z.of_nat (step (tail (pace s)))) in *.
  assert (1 <= n1 /\ 1 <= n2) as (Hn1 & Hn2) by (unfold n1, n2, step; lia).
  assert (HLm : current_reload s < 2 ^ 24) by (unfold systick_reload_max in HL; lia).
  pose proof (at_age_elapsed _ _ _ _ H ltac:(fold n1; lia)) as H1. fold n1 in H1.
  pose proof (at_age_elapsed _ _ _ _ H1 ltac:(cbn; fold n2; lia)) as H2. cbn [elapsed pace set_pace pass] in H2. fold n2 in H2.
  pose proof (elapsed_clocks s) as C1. pose proof (elapsed_clocks (elapsed s)) as C2. cbn [pace set_pace elapsed] in C2. fold n1 n2 in C1, C2.
  unfold now_tickless_locked. apply wp_bind, wp_read_val, wp_bind, wp_read_ctrl.
  rewrite (ru_val _ _ _ _ (ag_runs _ _ _ _ H1)), (ru_flag _ _ _ _ (ag_runs _ _ _ _ H2)). cbn [andb].
  change (current_reload (elapsed s)) with (current_reload s).
  assert (E : val_at (current_reload s) (a + n1) = 2 * current_reload s + 1 - (a + n1)) by (unfold val_at; decide_z; lia).
  rewrite E, (proj2 (Z.eqb_neq _ 0)) by lia. apply wp_bind, wp_get, wp_bind, wp_get, wp_ret.
  change (base (set_timer _ (elapsed (elapsed s)))) with (base s). change (current_reload (set_timer _ (elapsed (elapsed s)))) with (current_reload s).
  change (clocks (timer (set_timer (set_countflag false (timer (elapsed (elapsed s)))) (elapsed (elapsed s))))) with (clocks (timer (elapsed (elapsed s)))).
  cbn [fst]. rewrite u32_fits by lia. rewrite u64_fits by lia. lia.
Qed.

(** ** Sizing an interval *)
Lemma desired_reload_range d from : 63 <= desired_reload d from <= systick_reload_max.
Proof.
  unfold desired_reload, max_period, min_period, systick_reload_max.
  destruct (d =? never); [rewrite u32_fits; lia |]. destruct (Z.ltb_spec from d); [destruct (Z.ltb_spec (d - from) 64) | change (64 <? 64) with false]; cbv iota; decide_z; rewrite u32_fits; lia.
Qed.

Lemma desired_reload_ends d from : d <> never -> from + desired_reload d from + 1 <= Z.max d (from + 64).
Proof.
  intros Hd. unfold desired_reload, max_period, min_period, systick_reload_max. rewrite (proj2 (Z.eqb_neq d never)) by exact Hd.
  destruct (Z.ltb_spec from d); [destruct (Z.ltb_spec (d - from) 64) | change (64 <? 64) with false]; cbv iota; decide_z; rewrite u32_fits; lia.
Qed.

(** The clocks between two readings of VAL less than an interval apart. *)
Lemma between_readings L r a : 63 <= L < 2 ^ 24 -> -1 <= r -> r <> L -> r < a -> a - r <= L -> a <= 2 * L ->
  (let first := out_at L r in let second := if val_at L a =? 0 then u32 (L + 1) else val_at L a in
   if second <=? first then u32 (first - second) else u64 (first + (L + 1 - second))) = a - r.
Proof.
  intros HL Hr Hn Hlt Hd Ha. cbv zeta. rewrite u32_fits by lia. unfold out_at.
  assert (Er : (if val_at L r =? 0 then L + 1 else val_at L r) = if r <? L then L - r else 2 * L + 1 - r) by (unfold val_at; decide_z; lia).
  assert (Ea : (if val_at L a =? 0 then L + 1 else val_at L a) = if a <? L then L - a else 2 * L + 1 - a) by (unfold val_at; decide_z; lia).
  rewrite Er, Ea. destruct (Z.ltb_spec r L), (Z.ltb_spec a L); decide_z; rewrite ?u32_fits, ?u64_fits; lia.
Qed.

(** ** Restarting *)

Lemma ticks_config n : forall d, enabled (Nat.iter n tick d) = enabled d /\ tickint (Nat.iter n tick d) = tickint d /\ load (Nat.iter n tick d) = load d.
Proof.
  induction n as [| n IH]; intros d; [auto |]. change (Nat.iter (S n) tick d) with (tick (Nat.iter n tick d)).
  destruct (IH d) as (<- & <- & <-). generalize (Nat.iter n tick d). intros [[] t l v c p k]; unfold tick; cbn; [| auto].
  destruct (v =? 0); cbn; [auto |]. destruct (v - 1 =? 0); auto.
Qed.

(** The next [m] accesses are quick enough: together they take no more than
    [slack] and than an interval, they end before an end unaccounted for is
    followed by another, and none takes longer than the shortest interval. *)
Record fits (m : nat) (slack a : Z) (s : source) : Prop := {
  fi_slack : pace_of m (pace s) <= slack;
  fi_interval : pace_of m (pace s) <= current_reload s;
  fi_age : a + pace_of m (pace s) <= 2 * current_reload s;
  fi_step k : (k < m)%nat -> Z.of_nat (step (drop k (pace s))) <= 63
}.

(** What a reading at this moment would be. *)
Definition reading (lag : Z) (s : source) : Z := Z.max (base s) (clocks (timer s) - lag).

(** The running interval ends no later than [slack] after the deadline, or than
    the shortest interval after its own beginning. *)
Definition timely (slack : Z) (s : source) : Prop :=
  armed_deadline s <> never -> base s + current_reload s + 1 <= Z.max (armed_deadline s + slack) (base s + 64).

(** How one state of the driver follows another: time is not set back, and a
    restart costs it the clocks of two of the next accesses and one more at
    most. *)
Record follows (m : nat) (lag lag' : Z) (s s' : source) : Prop := {
  fo_reading : reading lag s <= reading lag' s';
  fo_clocks : clocks (timer s) <= clocks (timer s');
  fo_lag : lag' = lag \/ exists k, (k <= m)%nat /\ lag < lag' <= lag + pace_of 2 (drop k (pace s)) + 1
}.

Lemma set_timer_same s : set_timer (timer s) s = s.
Proof. destruct s. reflexivity. Qed.

(** The three writes leave the new interval under way. *)
Lemma wp_restart {A} next (k : M source A) Q f lag a s : at_age f lag a s -> 63 <= next <= systick_reload_max ->
  Z.of_nat (step (tail (tail (pace s)))) <= 63 ->
  (forall d, runs next true (Z.of_nat (step (tail (tail (pace s)))) - 1) d -> clocks d = clocks (timer s) + pace_of 3 (pace s) ->
     wp k Q (set_pace (tail (tail (tail (pace s)))) (set_timer d s))) ->
  wp (write_load next ;;* write_val ;;* pendstclr ;;* k) Q s.
Proof.
  intros H Hnext Hn Hk. unfold write_load, write_val, pendstclr, elapse, update. repeat (apply wp_bind; repeat apply wp_bind; repeat wp_step).
  unfold pass. cbn [timer set_timer pace set_pace].
  assert (Ew : wrap 24 next = next) by (apply wrap_small; unfold systick_reload_max in *; lia). rewrite Ew.
  set (d2 := Nat.iter (step (tail (pace s))) tick (set_load next (Nat.iter (step (pace s)) tick (timer s)))).
  set (n := step (tail (tail (pace s)))) in *. change (wp k Q (set_pace (tail (tail (tail (pace s)))) (set_timer
    (set_pending false (Nat.iter n tick (set_val 0 (set_countflag false d2)))) s))). apply Hk.
  - destruct (ticks_config (step (tail (pace s))) (set_load next (Nat.iter (step (pace s)) tick (timer s)))) as (E1 & E2 & E3).
    fold d2 in E1, E2, E3. destruct (ticks_config (step (pace s)) (timer s)) as (F1 & F2 & _).
    apply restarted_runs; [unfold n, step; lia | lia | | | exact E3].
    + etransitivity; [exact E1 |]. etransitivity; [exact F1 |]. apply (ag_runs _ _ _ _ H).
    + etransitivity; [exact E2 |]. etransitivity; [exact F2 |]. apply (ag_runs _ _ _ _ H).
  - cbn -[pace_of]. rewrite ticks_clocks. cbn -[pace_of]. unfold d2. rewrite ticks_clocks. cbn -[pace_of]. rewrite ticks_clocks. cbn [pace_of]. fold n. lia.
Qed.

Lemma restart_spec (only_if_changed : bool) slack lag a s : at_age true lag a s -> fits 7 slack a s -> base s < 2 ^ 62 ->
  wp (restart_from_now_locked only_if_changed) (fun _ s' => exists f' lag' a',
    at_age f' lag' a' s' /\ (only_if_changed = false -> f' = true) /\ soft s' = soft s /\ follows 4 lag lag' s s' /\ timely slack s') s.
Proof.
  intros H [Hsl Hin Hag Hst] Hsmall. pose proof (ag_reload _ _ _ _ H) as HL. pose proof (ag_age _ _ _ _ H) as Ha.
  assert (HLm : current_reload s < 2 ^ 24) by (unfold systick_reload_max in HL; lia).
  pose proof (pace_of_mono 3 7 (pace s) ltac:(lia)) as Hm3. pose proof (pace_of_nonneg 7 (pace s)) as Hp7.
  set (p7 := pace_of 7 (pace s)) in *.
  unfold restart_from_now_locked. apply wp_bind. eapply wp_mono; [apply (now_spec lag a s H); lia |].
  intros [from first] s1 (r & k & f & Hr & Hk & -> & -> & Hrn & H1 & Hp1 & Hs1 & Hb1 & HL1).
  assert (Hm1 : pace_of (k + 4) (pace s) <= p7) by (apply (pace_of_mono (k + 4) 7); lia).
  rewrite pace_of_add, <- Hp1 in Hm1. cbn [pace_of] in Hm1.
  assert (Hsteps : forall j, (j < 4)%nat -> 1 <= Z.of_nat (step (drop j (pace s1))) <= 63).
  { intros j Hj. rewrite Hp1, drop_drop. split; [unfold step; lia | apply Hst; lia]. }
  pose proof (Hsteps 0%nat ltac:(lia)) as Hn0. pose proof (Hsteps 1%nat ltac:(lia)) as Hn1. pose proof (Hsteps 2%nat ltac:(lia)) as Hn2. pose proof (Hsteps 3%nat ltac:(lia)) as Hn3.
  rewrite <- !drop_tail, drop_0 in Hn1. rewrite <- !drop_tail, drop_0 in Hn2. rewrite <- !drop_tail, drop_0 in Hn3. rewrite drop_0 in Hn0. clear Hsteps.
  apply wp_bind, wp_get, wp_bind, wp_get. rewrite HL1.
  assert (Harm : armed_deadline s1 = armed_deadline s) by (unfold soft in Hs1; congruence).
  rewrite Harm. set (from := base s + Z.max 0 r). set (next := desired_reload (armed_deadline s) from).
  pose proof (desired_reload_range (armed_deadline s) from) as Hnext. fold next in Hnext.
  pose proof (ag_base _ _ _ _ H) as Hbase. pose proof (ag_base _ _ _ _ H1) as Hbase1. pose proof (ag_nonneg _ _ _ _ H) as H0.
  destruct (only_if_changed && (next =? current_reload s)) eqn:Eo.
  - apply wp_ret. apply andb_true_iff in Eo as [-> Eo]. apply Z.eqb_eq in Eo.
    exists f, lag, (a + pace_of k (pace s)). split; [exact H1 |]. split; [discriminate |]. split; [exact Hs1 |].
    pose proof (pace_of_nonneg k (pace s)). split; [split; unfold reading; rewrite ?Hb1; auto; lia |].
    unfold timely. rewrite Hb1, HL1, Harm. intros Hd. pose proof (desired_reload_ends (armed_deadline s) from Hd) as He. fold next in He.
    unfold from in He. lia.
  - apply wp_bind, wp_read_val. pose proof (at_age_elapsed _ _ _ _ H1 ltac:(rewrite HL1; lia)) as H2.
    pose proof (elapsed_clocks s1) as Hc2. set (s2 := elapsed s1) in *. set (a2 := a + pace_of k (pace s) + Z.of_nat (step (pace s1))) in *.
    assert (Ea2 : a2 = a + pace_of k (pace s) + Z.of_nat (step (pace s1))) by reflexivity.
    rewrite (ru_val _ _ _ _ (ag_runs _ _ _ _ H2)). change (current_reload s2) with (current_reload s1). rewrite HL1.
    assert (Ebt := between_readings (current_reload s) r a2 ltac:(lia) ltac:(lia) Hrn ltac:(lia) ltac:(lia) ltac:(lia)). cbv zeta in Ebt.
    apply (wp_restart next _ _ _ _ _ _ H2 Hnext); [exact (proj2 Hn3) |]. change (pace s2) with (tail (pace s1)).
    set (n := step (tail (tail (tail (pace s1))))) in *. cbn [pace_of]. fold n. intros d Hrun Hcl. rewrite Z.add_0_r in Hcl.
    repeat wp_step. cbv zeta. rewrite Ebt. cbn [timer set_timer pace set_pace current_reload set_base set_current_reload].
    assert (Eb : u64 (from + (a2 - r)) = from + (a2 - r)) by (apply u64_fits; unfold from; lia). rewrite Eb.
    change (base s2) with (base s1) in *.
    exists true, (lag + (Z.of_nat (step (tail (pace s1))) + Z.of_nat (step (tail (tail (pace s1))))) + (1 + Z.min 0 r)), (Z.of_nat n - 1).
    pose proof (ag_mode _ _ _ _ H2) as Hmode.
    split; [split; cbn [active_mode timer current_reload base set_timer set_pace set_base set_current_reload]; auto; try lia; rewrite ?Hcl; unfold from; try lia |].
    split; [auto |]. split; [exact Hs1 |]. split.
    + split; unfold reading; cbn [timer base set_timer set_pace set_base set_current_reload]; rewrite ?Hcl; unfold from.
      * lia.
      * pose proof (pace_of_nonneg k (pace s)). lia.
      * right. exists (S k). split; [lia |]. rewrite <- drop_tail.
        assert (Ed : drop k (tail (pace s)) = tail (pace s1)) by (rewrite Hp1, drop_tail, <- (drop_0 (tail (drop k (pace s)))), drop_tail, drop_drop; f_equal; lia).
        rewrite Ed. cbn [pace_of]. lia.
    + unfold timely. cbn [armed_deadline base current_reload set_timer set_pace set_base set_current_reload].
      change (armed_deadline s2) with (armed_deadline s1). rewrite Harm. intros Hd.
      pose proof (desired_reload_ends (armed_deadline s) from Hd) as He. fold next in He. pose proof (pace_of_nonneg k (pace s)). lia.
Qed.

(** ** The operations *)
Inductive op := Now | Arm (deadline : Z) | Disarm | Fire | Idle (n : nat) | Deliver (on : bool) | Handler (h : option nat) (arg : nat).

Definition run_op (o : op) : M source (option Z) :=
  match o with
  | Now => let* v := time_now in kret (Some v)
  | Arm d => time_arm d ;;* kret None
  | Disarm => time_disarm ;;* kret None
  | Fire => systick_handler ;;* kret None
  | Idle n => kmodify (pass n) ;;* kret None
  | Deliver on => (if on then time_irq_enable else time_irq_disable) ;;* kret None
  | Handler h arg => time_register_isr_handler h arg ;;* kret None
  end.

(** Whether an end of the interval was read and its interrupt is still to come,
    and the clocks since [base]. *)
Definition is_fresh (s : source) : bool := negb (pending (timer s)) || countflag (timer s).
Definition age (s : source) : Z :=
  let L := current_reload s in let v := val (timer s) in
  if pending (timer s) then if v =? 0 then L else 2 * L + 1 - v else if v =? 0 then -1 else L - v.

Lemma at_age_fresh f lag a s : at_age f lag a s -> is_fresh s = f.
Proof.
  intros [_ [_ _ _ _ Hp Hf Hfr] _ _ _ _]. unfold is_fresh. rewrite Hp, Hf.
  destruct f; [destruct (_ <=? a); reflexivity |]. specialize (Hfr eq_refl). rewrite (proj2 (Z.leb_le _ _)) by exact Hfr. reflexivity.
Qed.

Lemma at_age_age f lag a s : at_age f lag a s -> age s = a.
Proof. intros [_ [_ _ _ Hv Hp _ _] HL Ha _ _]. unfold age. rewrite Hp, Hv. unfold val_at. decide_z; lia. Qed.

(** When an operation may run: an interrupt when its exception is pending, a
    reading or an arm when none read the interval's end before; in time. *)
Definition may (slack : Z) (o : op) (s : source) : Prop :=
  base s < 2 ^ 61 /\
  match o with
  | Now => is_fresh s = true /\ fits 8 slack (age s) s
  | Arm d => is_fresh s = true /\ fits 8 slack (age s) s /\ 0 <= d < never
  | Disarm | Deliver _ | Handler _ _ => True
  | Fire => pending (timer s) = true /\ fits 8 slack (age s) s
  | Idle n => age s + Z.of_nat n <= 2 * current_reload s
  end.

Lemma fits_le j m slack a s : (j <= m)%nat -> fits m slack a s -> fits j slack a s.
Proof.
  intros Hj [? ? ? Hst]. pose proof (pace_of_mono j m (pace s) Hj).
  split; try lia. intros k Hk. apply Hst. lia.
Qed.

Lemma follows_weaken m m' lag lag' s s' : (m <= m')%nat -> follows m lag lag' s s' -> follows m' lag lag' s s'.
Proof. intros Hm [? ? [-> | (k & ? & ?)]]; split; auto. right. exists k. split; [lia | assumption]. Qed.

(** What each does with the deadline and the callback. *)
Definition handled (s : source) : list (nat * nat) :=
  match isr_handler s with Some h => if delivery_enabled s then [(h, isr_argument s)] else [] | None => [] end.

Definition reached (s : source) : bool :=
  negb (armed_deadline s =? never) && (armed_deadline s <=? base s + current_reload s + 1).

Definition deadline_after (o : op) (s : source) : Z :=
  match o with
  | Arm d => Z.min d (armed_deadline s)
  | Disarm => never
  | Fire => if reached s then never else armed_deadline s
  | _ => armed_deadline s
  end.

Definition calls_after (o : op) (s : source) : list (nat * nat) :=
  match o with Fire => if reached s then handled s ++ calls s else calls s | _ => calls s end.

Record op_done (slack lag : Z) (o : op) (s : source) (v : option Z) (s' : source) (fresh' : bool) (lag' a' : Z) : Prop := {
  od_age : at_age fresh' lag' a' s';
  od_timely : timely slack s';
  od_follows : follows 5 lag lag' s s';
  od_lag : match o with Arm _ | Fire => True | _ => lag' = lag end;
  od_deadline : armed_deadline s' = deadline_after o s;
  od_calls : calls s' = calls_after o s;
  od_reading : match o, v with
               | Now, Some v => reading lag s <= v <= reading lag' s'
               | Now, None => False
               | Fire, None => reached s = true -> armed_deadline s <= reading lag' s'
               | _, None => True
               | _, Some _ => False
               end
}.

Lemma now_done slack fresh lag a s : at_age fresh lag a s -> timely slack s -> may slack Now s ->
  wp (run_op Now) (fun v s' => exists fresh' lag' a', op_done slack lag Now s v s' fresh' lag' a') s.
Proof.
  intros H Ht (Hsmall & Hf & Hfit). rewrite (at_age_fresh _ _ _ _ H) in Hf. subst fresh. rewrite (at_age_age _ _ _ _ H) in Hfit.
  destruct (fits_le 3 8 _ _ _ ltac:(lia) Hfit) as [_ _ Hag _]. pose proof (ag_base _ _ _ _ H) as Hb.
  unfold run_op, time_now. repeat wp_step. rewrite bool_decide_eq_true_2 by apply (ag_mode _ _ _ _ H). apply wp_bind.
  eapply wp_mono; [apply (now_spec lag a s H); lia |].
  intros [v out] s' (r & k & f & Hr & _ & -> & _ & _ & H' & _ & Hs' & Hb' & HL'). repeat wp_step.
  pose proof (ag_base _ _ _ _ H') as Hb2. injection Hs' as _ _ Ea _ _ _ Ec.
  exists f, lag, (a + pace_of k (pace s)). split; auto.
  - unfold timely. rewrite Hb', HL', Ea. exact Ht.
  - split; auto; unfold reading; lia.
  - unfold reading. lia.
Qed.

Lemma now_stale slack lag a s : at_age false lag a s -> fits 8 slack a s -> base s < 2 ^ 61 ->
  exists v s', run_op Now s = Ok (Some v, s') /\
    clocks (timer s) - lag - (current_reload s + 1) <= v <= clocks (timer s') - lag - (current_reload s + 1).
Proof.
  intros H Hfit Hsmall. destruct (fits_le 2 8 _ _ _ ltac:(lia) Hfit) as [_ _ Hag _].
  assert (Hw : wp (run_op Now) (fun v s' => exists u, v = Some u /\
    clocks (timer s) - lag - (current_reload s + 1) <= u <= clocks (timer s') - lag - (current_reload s + 1)) s).
  { unfold run_op, time_now. repeat wp_step. rewrite bool_decide_eq_true_2 by apply (ag_mode _ _ _ _ H). apply wp_bind.
    eapply wp_mono; [apply (stale_spec lag a s H); lia |]. intros [u out] s' [_ Hu]. repeat wp_step. eauto. }
  destruct (wp_elim _ _ _ Hw) as (v & s' & E & u & -> & Hu). eauto.
Qed.

Lemma arm_done slack fresh lag a s d : at_age fresh lag a s -> timely slack s -> 0 <= slack -> may slack (Arm d) s ->
  wp (run_op (Arm d)) (fun v s' => exists fresh' lag' a', op_done slack lag (Arm d) s v s' fresh' lag' a') s.
Proof.
  intros H Ht Hsl (Hsmall & Hf & Hfit & Hd). rewrite (at_age_fresh _ _ _ _ H) in Hf. subst fresh. rewrite (at_age_age _ _ _ _ H) in Hfit.
  pose proof (ag_reload _ _ _ _ H) as HL. assert (HLm : current_reload s < 2 ^ 24) by (unfold systick_reload_max in HL; lia). pose proof (ag_nonneg _ _ _ _ H).
  set (s1 := set_armed_deadline (Z.min d (armed_deadline s)) s).
  assert (H1 : at_age true lag a s1) by (destruct H; split; auto).
  unfold run_op, time_arm. repeat wp_step; [apply bool_decide_eq_true_2, H |].
  assert (Harm : forall Q : unit -> source -> Prop, Q tt s1 -> wp (if d <? armed_deadline s then kmodify (set_armed_deadline d) else kret tt) Q s).
  { intros Q HQ. unfold s1 in HQ. destruct (Z.ltb_spec d (armed_deadline s)) as [Hlt | Hge]; [rewrite Z.min_l in HQ by lia | rewrite Z.min_r in HQ by lia];
      repeat wp_step; [exact HQ | destruct s; exact HQ]. }
  apply Harm. repeat wp_step. cbn [armed_deadline base current_reload s1 set_armed_deadline]. rewrite u64_fits by lia.
  destruct (Z.ltb_spec (Z.min d (armed_deadline s)) (base s + current_reload s + 1)) as [Hlt | Hge].
  - unfold retime_locked. eapply wp_mono.
    { apply (restart_spec false slack lag a s1 H1); [| cbn; lia]. apply (fits_le 7 8) in Hfit; [| lia]. destruct Hfit. split; auto. }
    intros [] s' (f' & lag' & a' & H' & _ & Hs' & Hfo & Ht'). repeat wp_step. injection Hs' as _ _ Ea _ _ _ Ec.
    exists f', lag', a'. split; auto. apply (follows_weaken 4 5); [lia |]. destruct Hfo; split; auto.
  - repeat wp_step. exists true, lag, a. split; auto.
    + intros _. cbn. lia.
    + split; auto; unfold reading; cbn; lia.
Qed.

Lemma disarm_done slack fresh lag a s : at_age fresh lag a s ->
  wp (run_op Disarm) (fun v s' => exists fresh' lag' a', op_done slack lag Disarm s v s' fresh' lag' a') s.
Proof.
  intros H. unfold run_op, time_disarm. repeat wp_step; [apply bool_decide_eq_true_2, H |].
  exists fresh, lag, a. split; auto.
  - destruct H; split; auto.
  - intros E. cbn in E. congruence.
  - split; auto; unfold reading; cbn; lia.
Qed.

Lemma deliver_done slack fresh lag a s on : at_age fresh lag a s -> timely slack s ->
  wp (run_op (Deliver on)) (fun v s' => exists fresh' lag' a', op_done slack lag (Deliver on) s v s' fresh' lag' a') s.
Proof.
  intros H Ht. unfold run_op, time_irq_enable, time_irq_disable, set_tickint.
  destruct on; repeat wp_step; cbn [active_mode set_delivery]; (rewrite bool_decide_eq_false_2 by (rewrite (ag_mode _ _ _ _ H); discriminate));
    repeat wp_step; exists fresh, lag, a; (split; auto; [destruct H; split; auto | split; auto; unfold reading; cbn; lia]).
Qed.

Lemma handler_done slack fresh lag a s h arg : at_age fresh lag a s -> timely slack s ->
  wp (run_op (Handler h arg)) (fun v s' => exists fresh' lag' a', op_done slack lag (Handler h arg) s v s' fresh' lag' a') s.
Proof.
  intros H Ht. unfold run_op, time_register_isr_handler. repeat wp_step. exists fresh, lag, a.
  split; auto; [destruct H; split; auto | split; auto; unfold reading; cbn; lia].
Qed.

Lemma idle_done slack fresh lag a s n : at_age fresh lag a s -> timely slack s -> may slack (Idle n) s ->
  wp (run_op (Idle n)) (fun v s' => exists fresh' lag' a', op_done slack lag (Idle n) s v s' fresh' lag' a') s.
Proof.
  intros H Ht (_ & Hn). rewrite (at_age_age _ _ _ _ H) in Hn. unfold run_op. repeat wp_step.
  assert (Ec : clocks (timer (pass n s)) = clocks (timer s) + Z.of_nat n) by apply ticks_clocks.
  exists fresh, lag, (a + Z.of_nat n). split; auto.
  - destruct H as [? ? ? ? ? ?]. split; auto; try lia.
    + apply (ticks_run (current_reload s)); auto; lia.
    + cbn [current_reload pass set_timer]. lia.
    + rewrite Ec. cbn [base pass set_timer]. lia.
  - split; auto; unfold reading; rewrite ?Ec; cbn; lia.
Qed.

Lemma wp_call_handler (Q : unit -> source -> Prop) s : Q tt (set_calls (handled s ++ calls s) s) -> wp call_handler Q s.
Proof.
  intros HQ. unfold call_handler, handled in *. repeat wp_step. destruct (isr_handler s); repeat wp_step; [| destruct s; exact HQ].
  destruct (delivery_enabled s); repeat wp_step; [exact HQ | destruct s; exact HQ].
Qed.

(** Once the interval's end is accounted for, the counter is young again. *)
Lemma accounted fresh lag a s : at_age fresh lag a s -> current_reload s + 1 <= a -> base s < 2 ^ 61 ->
  at_age true lag (a - (current_reload s + 1))
    (set_base (u64 (base s + (current_reload s + 1))) (set_timer (set_countflag false (set_pending false (timer s))) s)).
Proof.
  intros [Hm [He Ht Hl Hv _ _ _] HL Ha Hb H0] Hle Hs. assert (current_reload s < 2 ^ 24) by (unfold systick_reload_max in HL; lia).
  split; cbn; auto; try (rewrite u64_fits by lia); try lia.
  split; cbn; auto; try discriminate.
  - rewrite Hv. unfold val_at. decide_z; lia.
  - symmetry. apply Z.leb_gt. lia.
  - symmetry. apply Z.leb_gt. lia.
Qed.

Lemma quiet_ticks L f a d n : 1 <= L -> L <= a -> a + Z.of_nat n <= 2 * L -> runs L f a d ->
  Nat.iter n tick (set_pending false d) = set_pending false (Nat.iter n tick d).
Proof.
  intros HL Ha Hle Hr. induction n as [| n IH]; [reflexivity |].
  change (tick (Nat.iter n tick (set_pending false d)) = set_pending false (tick (Nat.iter n tick d))).
  rewrite IH by lia. pose proof (ticks_run L f a d n HL ltac:(lia) ltac:(lia) Hr) as [He _ _ Hv _ _ _].
  revert He Hv. generalize (Nat.iter n tick d). intros [e t l v c p k]; cbn. intros -> ->. unfold tick. cbn.
  destruct (Z.eqb_spec (val_at L (a + Z.of_nat n)) 0) as [E | E]; cbn; [reflexivity |].
  destruct (Z.eqb_spec (val_at L (a + Z.of_nat n) - 1) 0) as [E1 | E1]; [| reflexivity].
  exfalso. unfold val_at in *. revert E E1. decide_z; lia.
Qed.

Lemma fire_done slack fresh lag a s : at_age fresh lag a s -> may slack Fire s ->
  wp (run_op Fire) (fun v s' => exists fresh' lag' a', op_done slack lag Fire s v s' fresh' lag' a') s.
Proof.
  intros H (Hsmall & Hp & Hfit). rewrite (at_age_age _ _ _ _ H) in Hfit.
  rewrite (ru_pending _ _ _ _ (ag_runs _ _ _ _ H)) in Hp. apply Z.leb_le in Hp.
  pose proof (ag_reload _ _ _ _ H) as HL. assert (HLm : current_reload s < 2 ^ 24) by (unfold systick_reload_max in HL; lia).
  destruct Hfit as [Hsl Hin Hag Hst]. change 8%nat with (1 + 7)%nat in Hsl, Hin, Hag. rewrite pace_of_add in Hsl, Hin, Hag.
  rewrite <- drop_tail, drop_0 in Hsl, Hin, Hag. change (pace_of 1 (pace s)) with (Z.of_nat (step (pace s)) + 0) in *. rewrite Z.add_0_r in *.
  pose proof (pace_of_nonneg 7 (tail (pace s))) as Hp7. set (p7 := pace_of 7 (tail (pace s))) in *.
  assert (Hn : 1 <= Z.of_nat (step (pace s))) by (unfold step; lia).
  pose proof (at_age_elapsed _ _ _ _ H ltac:(lia)) as H1. pose proof (elapsed_clocks s) as Hc1. pose proof (ag_base _ _ _ _ H) as Hb.
  pose proof (accounted _ _ _ _ H1 ltac:(cbn; lia) ltac:(exact Hsmall)) as H2.
  cbn [current_reload base elapsed set_pace pass set_timer] in H2. set (a2 := a + Z.of_nat (step (pace s)) - (current_reload s + 1)) in *.
  assert (Ea2 : a2 = a + Z.of_nat (step (pace s)) - (current_reload s + 1)) by reflexivity.
  unfold run_op, systick_handler, update. repeat wp_step. cbn [active_mode set_timer]. rewrite bool_decide_eq_true_2 by apply (ag_mode _ _ _ _ H).
  apply wp_bind, wp_bind, wp_read_ctrl. unfold elapsed, pass. cbn [timer pace set_timer set_pace].
  rewrite (quiet_ticks (current_reload s) fresh a (timer s) (step (pace s)) ltac:(lia) ltac:(lia) ltac:(lia) (ag_runs _ _ _ _ H)).
  repeat wp_step. cbn [armed_deadline base current_reload set_timer set_pace set_base].
  rewrite u64_fits in * by (pose proof (ag_nonneg _ _ _ _ H); lia). rewrite Z.add_assoc in *. fold (reached s).
  set (s2 := set_base (base s + current_reload s + 1) _) in H2 |- *.
  set (s3 := set_armed_deadline (if reached s then never else armed_deadline s) s2).
  assert (Harm : forall Q : unit -> source -> Prop, Q tt s3 -> wp (if reached s then kmodify (set_armed_deadline never) else kret tt) Q s2).
  { intros Q HQ. unfold s3 in HQ. destruct (reached s); repeat wp_step; exact HQ. }
  apply Harm. wp_step. assert (H3 : at_age true lag a2 s3) by (destruct H2; split; auto).
  eapply wp_mono.
  { apply (restart_spec true slack lag a2 s3 H3); [| cbn; lia]. split; cbn -[pace_of step drop]; fold p7; try lia.
    intros k Hk. rewrite drop_tail. apply Hst. lia. }
  intros [] s' (f' & lag' & a' & H' & _ & Hs' & Hfo & Ht'). injection Hs' as _ _ Ea Ed Eh Eg Ec.
  assert (Hfo' : follows 5 lag lag' s s').
  { destruct Hfo as [Hr Hc Hl]. change (timer s3) with (timer s2) in *. assert (Ec2 : clocks (timer s2) = clocks (timer s) + Z.of_nat (step (pace s))) by exact Hc1.
    split; [| lia |].
    - etransitivity; [| exact Hr]. unfold reading. change (timer s3) with (timer s2). rewrite Ec2. cbn. lia.
    - destruct Hl as [-> | (k & Hk & Hkl)]; [auto |]. right. exists (S k). split; [lia |]. rewrite <- drop_tail. exact Hkl. }
  assert (Hrd : reached s = true -> armed_deadline s <= reading lag' s').
  { intros E. apply andb_true_iff in E as [_ E]. apply Z.leb_le in E. destruct Hfo as [Hr _ _]. etransitivity; [| exact Hr]. unfold reading. cbn. lia. }
  assert (Hhand : handled s' = handled s) by (unfold handled; rewrite Eh, Ed, Eg; reflexivity).
  destruct (reached s) eqn:Er.
  - apply wp_call_handler. repeat wp_step. exists f', lag', a'. rewrite Hhand.
    split; cbn; rewrite ?Er; auto.
    + destruct H'; split; auto.
    + destruct Hfo'; split; auto.
    + rewrite Ec. reflexivity.
  - repeat wp_step. exists f', lag', a'. split; cbn; rewrite ?Er; auto.
Qed.

Lemma op_spec slack fresh lag a s o : at_age fresh lag a s -> timely slack s -> 0 <= slack -> may slack o s ->
  exists v s' fresh' lag' a', run_op o s = Ok (v, s') /\ op_done slack lag o s v s' fresh' lag' a'.
Proof.
  intros H Ht Hsl Hmay.
  assert (Hw : wp (run_op o) (fun v s' => exists fresh' lag' a', op_done slack lag o s v s' fresh' lag' a') s).
  { destruct o; eauto using now_done, arm_done, disarm_done, fire_done, idle_done, deliver_done, handler_done. }
  apply wp_elim in Hw as (v & s' & E & f' & lag' & a' & Hd). eauto 10.
Qed.

(** ** A run of operations *)
Inductive history (slack : Z) : source -> list (op * option Z) -> source -> Prop :=
  | hi_nil s : history slack s [] s
  | hi_cons s o v s1 l s2 : may slack o s -> run_op o s = Ok (v, s1) -> history slack s1 l s2 -> history slack s ((o, v) :: l) s2.

Definition readings (l : list (op * option Z)) : list Z := omap snd l.

(** How often the counter may have been restarted. *)
Definition may_restart (o : op) : bool := match o with Arm _ | Fire => true | _ => false end.
Fixpoint restarts (l : list (op * option Z)) : Z :=
  match l with [] => 0 | (o, _) :: l => Z.b2z (may_restart o) + restarts l end.

(** A restart's cost is within the operation's time. *)
Lemma op_cost slack o lag lag' s v s' fresh' a' : may slack o s -> op_done slack lag o s v s' fresh' lag' a' ->
  lag <= lag' <= lag + slack * Z.b2z (may_restart o).
Proof.
  intros Hmay [_ _ [_ _ Hl] Hk _ _ _]. assert (Hin : fits 8 slack (age s) s -> lag <= lag' <= lag + slack * 1).
  { intros Hf. pose proof (pace_of_nonneg 8 (pace s)). pose proof (fi_slack _ _ _ _ Hf). destruct Hl as [-> | (k & Hk5 & Hkl)]; [lia |].
    destruct (fits_le (k + (2 + 1)) 8 _ _ _ ltac:(lia) Hf) as [Hs _ _ _]. rewrite !pace_of_add in Hs.
    pose proof (pace_of_nonneg k (pace s)). pose proof (pace_of_nonneg 1 (drop 2 (drop k (pace s)))). lia. }
  destruct o; cbn in Hk, Hmay |- *; try subst lag'; try lia; apply Hin; apply Hmay.
Qed.

(** Everything up to [s] kept the driver's state. *)
Record kept (slack lag0 : Z) (n : Z) (past : Z) (s : source) : Prop := {
  ke_lag : exists fresh lag a, at_age fresh lag a s /\ lag0 <= lag <= lag0 + slack * n /\ past <= reading lag s;
  ke_timely : timely slack s
}.

Lemma history_keeps slack lag0 s l s' : 0 <= slack -> history slack s l s' -> forall n past, kept slack lag0 n past s ->
  exists last, kept slack lag0 (n + restarts l) last s' /\ past <= last /\ Forall (fun v => v <= last) (readings l).
Proof.
  intros Hsl. induction 1 as [s | s o v s1 l s2 Hmay E _ IH]; intros n past Hk.
  - cbn. rewrite Z.add_0_r. exists past. split; [exact Hk |]. split; [lia | constructor].
  - destruct Hk as [(fresh & lag & a & H & Hlag & Hp) Ht]. destruct (op_spec slack fresh lag a s o H Ht Hsl Hmay) as (v' & s1' & f' & lag' & a' & E' & Hd).
    rewrite E in E'. injection E' as <- <-. pose proof (op_cost _ _ _ _ _ _ _ _ _ Hmay Hd) as Hc. destruct Hd as [H' Ht' [Hr _ _] _ _ _ Hrd].
    set (past' := match v with Some v => v | None => past end).
    assert (Hv : past <= past' /\ past' <= reading lag' s1) by (unfold past'; destruct v, o; try contradiction; lia).
    destruct (IH (n + Z.b2z (may_restart o)) past') as (last & Hlast & Hle & Hlate).
    { split; [| exact Ht']. exists f', lag', a'. split; [exact H' |]. split; [lia | apply Hv]. }
    exists last. cbn [restarts]. rewrite Z.add_assoc. split; [exact Hlast |]. split; [lia |].
    unfold readings. cbn. destruct v as [v |]; cbn in *; [constructor; [lia |] |]; exact Hlate.
Qed.

(** ** Setting up *)

(** Stopped, the counter does nothing but age. *)
Lemma stopped_ticks n d : enabled d = false -> Nat.iter n tick d = set_clocks (clocks d + Z.of_nat n) d.
Proof.
  intros He. induction n as [| n IH]; [rewrite Z.add_0_r; destruct d; reflexivity |].
  change (Nat.iter (S n) tick d) with (tick (Nat.iter n tick d)). rewrite IH. unfold tick. cbn. rewrite He. cbn.
  unfold set_clocks. cbn. f_equal. lia.
Qed.

Ltac stop_ticks :=
  repeat (rewrite stopped_ticks by
    (repeat first [reflexivity | progress cbn [enabled set_ctrl set_load set_val set_countflag set_pending] | rewrite (proj1 (ticks_config _ _))])).

Lemma setup_starts clock_hz s : 0 < clock_hz <= 1000000000 ->
  wp (time_setup clock_hz 0) (fun _ s' => configured_tick_hz s' = clock_hz /\ armed_deadline s' = never /\
    at_age true (clocks (timer s') + 1) (-1) s' /\ calls s' = calls s) s.
Proof.
  intros Hhz. unfold time_setup, restart_interval_locked, write_ctrl, write_load, write_val, pendstclr, elapse, update.
  change (0 =? 0) with true. cbv iota. unfold pass.
  repeat first [wp_step; [(apply Z.ltb_lt + apply Z.leb_le); lia | ] | wp_step].
  cbn [timer pace set_timer set_pace set_active_mode set_tick_count set_configured_tick_hz set_base set_current_reload set_armed_deadline set_delivery
       configured_tick_hz armed_deadline current_reload calls].
  stop_ticks. cbn. split; [reflexivity |]. split; [reflexivity |]. split; [| reflexivity].
  change (desired_reload never 0) with 16777215. split; cbn; try reflexivity; try (unfold systick_reload_max; lia).
  split; cbn; auto; try discriminate; try reflexivity.
Qed.

(** ** Periodic mode *)
Lemma periodic_setup clock_hz tick_hz s : 0 < tick_hz < 2 ^ 32 -> 0 < clock_hz <= 1000000000 ->
  if decide (2 <= clock_hz / tick_hz <= max_period)
  then exists s', time_setup clock_hz tick_hz s = Ok (tt, s') /\ active_mode s' = periodic /\ tick_count s' = 0 /\ configured_tick_hz s' = tick_hz /\
         load (timer s') = clock_hz / tick_hz - 1 /\ val (timer s') = 0 /\ enabled (timer s') = true /\ tickint (timer s') = false
  else time_setup clock_hz tick_hz s = Panic assert_failed.
Proof.
  intros Ht Hhz.
  assert (Hq : 0 <= clock_hz / tick_hz <= 1000000000) by (split; [apply Z.div_pos; lia | apply Z.div_le_upper_bound; nia]).
  set (q := clock_hz / tick_hz) in *. unfold time_setup, write_ctrl, write_load, write_val, pendstclr, elapse, update, kbind, kmodify, kensure, kret.
  rewrite (proj2 (Z.ltb_lt 0 clock_hz)), (proj2 (Z.leb_le clock_hz 1000000000)), (proj2 (Z.eqb_neq tick_hz 0)) by lia. fold q. cbv zeta.
  destruct (decide _) as [[H1 H2] | Hn]; unfold max_period, systick_reload_max in *.
  - rewrite u32_fits, (proj2 (Z.leb_le _ _)), (proj2 (Z.ltb_lt _ _)) by lia. eexists. split; [reflexivity |]. cbn. split_and!; auto.
    + stop_ticks. apply wrap_small. lia.
    + stop_ticks. reflexivity.
  - destruct (Z.eq_dec q 0) as [-> | H0]; [reflexivity |]. rewrite u32_fits by lia.
    destruct (Z.leb_spec (q - 1) 16777215); [| reflexivity]. rewrite (proj2 (Z.ltb_ge _ _)) by lia. reflexivity.
Qed.

(** ** The count of the two cores *)
Lemma smp_advance_adds w : words w -> Mtime.count_of w + 1 < 2 ^ 64 ->
  exists w', last (SystickSmp.advance w) = Some w' /\ words w' /\ Mtime.count_of w' = Mtime.count_of w + 1.
Proof.
  intros Hw Hlt. rewrite count_of_sum in Hlt by exact Hw. pose proof Hw as [H1 H2]. destruct w as [high low]. cbn in *.
  unfold SystickSmp.advance. cbn. destruct (Z.eq_dec low (2 ^ 32 - 1)) as [-> | Hne].
  - change (u32 (2 ^ 32 - 1 + 1) =? 0) with true. cbn. rewrite (u32_fits (high + 1)) by nia.
    eexists. split; [reflexivity |]. assert (Hw' : words (high + 1, 0)) by (split; cbn; nia). change (u32 (2 ^ 32 - 1 + 1)) with 0.
    split; [exact Hw' |]. rewrite !count_of_sum by assumption. cbn. lia.
  - rewrite u32_fits, (proj2 (Z.eqb_neq (low + 1) 0)) by lia. cbn.
    eexists. split; [reflexivity |]. assert (Hw' : words (high, low + 1)) by (split; cbn; lia).
    split; [exact Hw' |]. rewrite !count_of_sum by assumption. cbn. lia.
Qed.

(** ** The properties *)

Import Systick.
Local Open Scope Z_scope.

(** What setup leaves, and every history from there. *)
Lemma setup_keeps slack clock_hz s s0 l s' : 0 < clock_hz <= 1000000000 -> 0 <= slack ->
  time_setup clock_hz 0 s = Ok (tt, s0) -> history slack s0 l s' ->
  exists last, kept slack (clocks (timer s0) + 1) (restarts l) last s' /\ Forall (fun v => v <= last) (readings l).
Proof.
  intros Hhz Hsl E Hh. pose proof (setup_starts clock_hz s Hhz) as Hw. unfold wp in Hw. rewrite E in Hw. destruct Hw as (_ & Ha & H0 & _).
  destruct (history_keeps slack (clocks (timer s0) + 1) s0 l s' Hsl Hh 0 (reading (clocks (timer s0) + 1) s0)) as (last & Hk & _ & Hl); [| eauto].
  split; [exists true, (clocks (timer s0) + 1), (-1); split; [exact H0 |]; lia |]. intros Hd. contradiction.
Qed.

(** C37: SysTick's tickless time is the clock's. Take any history from the
    setup of arms, disarms, interrupts, readings, pauses and changes of the
    callback that keeps to [may]: the accesses of an operation together take no
    more than [slack] clocks and than an interval, and each at most 63; no
    second end of an interval passes before the first's interrupt is taken; and
    once a reading has seen an interval's end, no further reading or arm is made
    before that interrupt. Then every operation that [may] follow finishes; a
    reading is never less than an earlier one and never more than the clocks
    since the setup, and is less by at most [slack] for each operation that may
    have restarted the counter. A further reading made before that interrupt,
    which no history has, is short by exactly the one interval that ended: it
    does step back. What an arm made there costs is [arm_loses_an_interval]. *)
Theorem systick_tells_the_time (slack clock_hz : Z) (s : source) : 0 < clock_hz <= 1000000000 -> 0 <= slack ->
  exists s0, time_setup clock_hz 0 s = Ok (tt, s0) /\ configured_tick_hz s0 = clock_hz /\
    forall l s', history slack s0 l s' ->
      (forall o, may slack o s' -> exists v s'', run_op o s' = Ok (v, s'')) /\
      (may slack Now s' -> exists v s'', run_op Now s' = Ok (Some v, s'') /\ Forall (fun u => u <= v) (readings l) /\
         clocks (timer s') - clocks (timer s0) - (1 + slack * restarts l) <= v <= clocks (timer s'') - clocks (timer s0)) /\
      (is_fresh s' = false -> base s' < 2 ^ 61 -> fits 8 slack (age s') s' -> exists v s'', run_op Now s' = Ok (Some v, s'') /\
         clocks (timer s') - clocks (timer s0) - (1 + slack * restarts l) <= v + (current_reload s' + 1) <= clocks (timer s'') - clocks (timer s0)).
Proof.
  intros Hhz Hsl. destruct (wp_elim _ _ _ (setup_starts clock_hz s Hhz)) as ([] & s0 & E & Hc & _).
  exists s0. split; [exact E |]. split; [exact Hc |]. intros l s' Hh.
  destruct (setup_keeps slack clock_hz s s0 l s' Hhz Hsl E Hh) as (last & [(fresh & lag & a & H & Hlag & Hpast) Ht] & Hl). split_and!.
  - intros o Hmay. destruct (op_spec slack fresh lag a s' o H Ht Hsl Hmay) as (v & s'' & f' & lag' & a' & Eo & _). eauto.
  - intros Hmay. destruct (op_spec slack fresh lag a s' Now H Ht Hsl Hmay) as (v & s'' & f' & lag' & a' & Eo & [H' _ _ Hk _ _ Hr]).
    destruct v as [v |]; [| contradiction]. exists v, s''. split; [exact Eo |].
    pose proof (ag_base _ _ _ _ H') as Hb. pose proof (ag_age _ _ _ _ H'). cbn in Hk. unfold reading in *. subst lag'.
    split; [eapply Forall_impl; [exact Hl | cbn; lia] | lia].
  - intros Hfr Hsmall Hfit. rewrite (at_age_fresh _ _ _ _ H) in Hfr. subst fresh. rewrite (at_age_age _ _ _ _ H) in Hfit.
    destruct (now_stale slack lag a s' H Hfit Hsmall) as (v & s'' & Eo & Hv). exists v, s''. split; [exact Eo | lia].
Qed.

(** C38: SysTick's tickless one-shot honours the earliest deadline, and never
    before its time. After any history from the setup that keeps to [may] (the
    accesses in time, and no reading or arm between one that saw an interval's
    end and that end's interrupt), an arm leaves the earlier of the deadlines and
    a disarm none; an interrupt runs the callback, once and if delivery is on,
    just when the interval's end has reached the deadline, and otherwise keeps
    the deadline; the time read after it ran is never short of that deadline; and
    while a deadline is armed, a time read that is both [slack] or more past it
    and 64 or more past the beginning of the interval then running finds the
    interrupt pending. *)
Theorem systick_honours_the_earliest (slack clock_hz : Z) (s s0 : source) (l : list (op * option Z)) (s' : source) :
  0 < clock_hz <= 1000000000 -> 0 <= slack -> time_setup clock_hz 0 s = Ok (tt, s0) -> history slack s0 l s' ->
  (forall o v s'', may slack o s' -> run_op o s' = Ok (v, s'') -> armed_deadline s'' = deadline_after o s' /\ calls s'' = calls_after o s') /\
  (forall s1 l2 s2 v s3, may slack Fire s' -> reached s' = true -> run_op Fire s' = Ok (None, s1) ->
     history slack s1 l2 s2 -> may slack Now s2 -> run_op Now s2 = Ok (Some v, s3) -> armed_deadline s' <= v) /\
  (forall v s'', may slack Now s' -> run_op Now s' = Ok (Some v, s'') -> armed_deadline s' <> never ->
     Z.max (armed_deadline s' + slack) (base s'' + 64) <= v -> pending (timer s'') = true).
Proof.
  intros Hhz Hsl E Hh.
  destruct (setup_keeps slack clock_hz s s0 l s' Hhz Hsl E Hh) as (last & [(fresh & lag & a & H & Hlag & Hpast) Ht] & _).
  assert (Hop : forall o v s'', may slack o s' -> run_op o s' = Ok (v, s'') -> exists f' lag' a', op_done slack lag o s' v s'' f' lag' a').
  { intros o v s'' Hmay Eo. destruct (op_spec slack fresh lag a s' o H Ht Hsl Hmay) as (v' & s1 & f' & lag' & a' & Eo' & Hd).
    rewrite Eo in Eo'. injection Eo' as <- <-. eauto. }
  split; [| split].
  - intros o v s'' Hmay Eo. destruct (Hop o v s'' Hmay Eo) as (f' & lag' & a' & [_ _ _ _ Hd Hcl _]). auto.
  - intros s1 l2 s2 v s3 Hmay Hre E1 Hh2 Hmay2 E2. destruct (Hop Fire None s1 Hmay E1) as (f1 & lag1 & a1 & [H1 Ht1 _ _ _ _ Hr1]).
    specialize (Hr1 Hre).
    destruct (history_keeps slack lag1 s1 l2 s2 Hsl Hh2 0 (armed_deadline s')) as (last2 & [(f2 & lag2 & a2 & H2 & _ & Hp2) Ht2] & Hle & _).
    { split; [| exact Ht1]. exists f1, lag1, a1. split; [exact H1 |]. lia. }
    destruct (op_spec slack f2 lag2 a2 s2 Now H2 Ht2 Hsl Hmay2) as (v' & s3' & f3 & lag3 & a3 & E3 & [_ _ _ _ _ _ Hr]).
    rewrite E2 in E3. injection E3 as <- <-. lia.
  - intros v s'' Hmay Eo Hd Hv. destruct (Hop Now (Some v) s'' Hmay Eo) as (f' & lag' & a' & [H' Ht' _ _ Hd' _ Hr]).
    cbn in Hd'. rewrite (ru_pending _ _ _ _ (ag_runs _ _ _ _ H')). apply Z.leb_le.
    pose proof (ag_base _ _ _ _ H'). unfold timely in Ht'. rewrite Hd' in Ht'. specialize (Ht' Hd). unfold reading in Hr.
lia.
Qed.

(** In periodic mode the rate is what was asked for, rounded down to whole
    clocks, or setup refuses it; and each interrupt is one tick, with the
    callback once if delivery is on. *)
Theorem periodic_ticks (clock_hz tick_hz : Z) (s : source) : 0 < tick_hz < 2 ^ 32 -> 0 < clock_hz <= 1000000000 ->
  (if decide (2 <= clock_hz / tick_hz <= max_period)
   then exists s', time_setup clock_hz tick_hz s = Ok (tt, s') /\ active_mode s' = periodic /\ tick_count s' = 0 /\ configured_tick_hz s' = tick_hz /\
          load (timer s') = clock_hz / tick_hz - 1 /\ val (timer s') = 0 /\ enabled (timer s') = true /\ tickint (timer s') = false
   else time_setup clock_hz tick_hz s = Panic assert_failed) /\
  (active_mode s = periodic -> 0 <= tick_count s < 2 ^ 64 - 1 ->
     exists s', systick_handler s = Ok (tt, s') /\ time_now s' = Ok (tick_count s + 1, s') /\ calls s' = handled s ++ calls s).
Proof.
  intros Ht Hhz. split.
  - apply periodic_setup; lia.
  - intros Hm Hc. assert (Hw : wp systick_handler (fun _ s' => time_now s' = Ok (tick_count s + 1, s') /\ calls s' = handled s ++ calls s) s).
    { unfold systick_handler, update. apply wp_bind, wp_modify, wp_bind, wp_get. cbn [active_mode set_timer]. rewrite Hm. rewrite bool_decide_eq_false_2 by discriminate.
      apply wp_bind, wp_modify, wp_call_handler. cbn. rewrite u64_fits by lia. split; [| reflexivity].
      unfold time_now, kbind, kget. cbn. rewrite Hm. reflexivity. }
    apply wp_elim in Hw as ([] & s' & E & ? & ?). eauto.
Qed.

(** ** A SysTick on each core *)

(** A tick of the time core is one more, of another core none; each calls the
    handler for its own core. A read that no advance comes half way through,
    as on the time core, is what the count was. *)
Theorem smp_ticks_count (core : nat) (s : SystickSmp.source) : words (SystickSmp.tick s) -> Mtime.count_of (SystickSmp.tick s) + 1 < 2 ^ 64 ->
  exists s', SystickSmp.systick_handler core s = Ok (tt, s') /\ words (SystickSmp.tick s') /\
    Mtime.count_of (SystickSmp.tick s') = Mtime.count_of (SystickSmp.tick s) + (if (core =? 0)%nat then 1 else 0) /\
    SystickSmp.calls s' = from_option (fun h => [(core, h, SystickSmp.isr_argument s)]) [] (SystickSmp.isr_handler s) ++ SystickSmp.calls s.
Proof.
  intros Hw Hlt. destruct (smp_advance_adds _ Hw Hlt) as (w & Ew & Hw' & Hc).
  destruct s as [ts tk hz [h |] a cl]; cbn in *; unfold SystickSmp.systick_handler, SystickSmp.modify_own, SystickSmp.time_core;
    destruct (Nat.eqb_spec core 0); unfold kbind, kmodify, kget, kret; cbn; rewrite ?Ew; eexists; (split; [reflexivity |]); cbn; auto with lia.
Qed.

Theorem smp_reads_are_counts (h : nat -> Z * Z) (now : nat) :
  (forall n, words (h n) /\ (h (S n) = h n \/ Mtime.count_of (h n) + 1 < 2 ^ 64 /\ last (SystickSmp.advance (h n)) = Some (h (S n)))) ->
  (forall fuel v now', SystickSmp.time_now h fuel now = Ok (v, now') -> exists t, (now <= t < now')%nat /\ v = Mtime.count_of (h t)) /\
  (forall carries, (forall n, (now + 3 * carries <= n)%nat -> (h (S n)).1 = (h n).1) ->
     exists v now', SystickSmp.time_now h (S carries) now = Ok (v, now')).
Proof.
  intros Hh. assert (Hw : whole h).
  { intros n. destruct (Hh n) as [Hn [-> | (Hlt & E)]]; [split; [exact Hn | lia] |].
    destruct (smp_advance_adds (h n) Hn Hlt) as (w & Ew & _ & Hc). rewrite Ew in E. injection E as <-. split; [exact Hn | lia]. }
  split; [intros fuel v now'; apply (read_at h Hw) | intros carries; apply read_ends].
Qed.

(** ** Where the time does step back

    A reading that finds the interval's end clears COUNTFLAG and leaves [base]
    to the interrupt.  Until that runs the next reading knows of no end: a
    masked section's second reading is a whole interval short of its first; and
    an arm then restarts from that, dropping the interrupt that would have
    mended it, and the interval is lost for good. *)
Module SystickScenario.
Definition handler : nat := 7.

(** 98 clocks into an interval of 100 that began at 1000. *)
Definition ending : source :=
  Source (Counter true true 99 1 false false 1099) [] tickless 0 1000000 1000 99 never true (Some handler) 3 [].

Definition fresh : source := Source (Counter false false 0 0 false false 0) [] none 0 0 0 0 0 false (Some handler) 3 [].

(** Its interrupt pending, with a deadline at 1100. *)
Definition due : source :=
  Source (Counter true true 99 98 true true 1102) [] tickless 0 1000000 1000 99 1100 true (Some handler) 3 [].

(** 10 clocks into the longest interval. *)
Definition beginning : source :=
  Source (Counter true true 16777215 16777205 false false 1011) [] tickless 0 1000000 1000 16777215 never true (Some handler) 3 [].

(** What a program returns, and whether the interrupt is pending after it. *)
Definition answer {A} (m : M source A) (s : source) : option (A * bool) :=
  match m s with Ok (a, s') => Some (a, pending (timer s')) | Panic _ => None end.

Lemma ending_at_age : at_age true 1 98 ending.
Proof. split; try reflexivity; [split; try reflexivity; discriminate | unfold systick_reload_max; cbn; lia | cbn; lia | cbn; lia]. Qed.

Definition up : source := match time_setup 1000000 0 fresh with Ok (_, s) => s | Panic _ => fresh end.
End SystickScenario.
Import SystickScenario.

Lemma now_steps_back : answer (let* u := time_now in let* v := time_now in kret (u, v)) ending = Some (1101, 1002, true).
Proof. vm_compute. reflexivity. Qed.

Lemma arm_loses_an_interval : answer (let* u := time_now in time_arm 1050 ;;* let* v := time_now in kret (u, v)) ending = Some (1101, 1005, false).
Proof. vm_compute. reflexivity. Qed.

(** Arming the deadline that is armed restarts the counter again: an interval
    sized by the first reading and begun at the second ends past its deadline,
    so the check for one that ends in time does not hold. *)
Lemma same_deadline_restarts : let arm_base d := time_arm d ;;* kget base in
  answer (let* u := arm_base 1300 in let* v := arm_base 1300 in kret (u, v)) beginning = Some (1013, 1016, false).
Proof. vm_compute. reflexivity. Qed.

(** On two cores the count steps back by 2^32 ticks: the time core stores the
    wrapped low word, and a reader sees it with the old high word. *)
Definition wrapping : nat -> Z * Z :=
  fun t => if (t <? 1)%nat then (0, 2 ^ 32 - 1)
           else default (0, 0) (SystickSmp.advance (0, 2 ^ 32 - 1) !! (if (t <? 4)%nat then 0 else 1)%nat).

Lemma smp_count_steps_back :
  (exists now', SystickSmp.time_now wrapping 1 1%nat = Ok (0, now')) /\
  Mtime.count_of (wrapping 0) = 2 ^ 32 - 1 /\ forall t, (4 <= t)%nat -> Mtime.count_of (wrapping t) = 2 ^ 32.
Proof.
  split; [eexists; vm_compute; reflexivity |]. split; [reflexivity |]. intros t Ht. unfold wrapping.
  rewrite (proj2 (Nat.ltb_ge t 1)), (proj2 (Nat.ltb_ge t 4)) by lia. reflexivity.
Qed.

(** ** Set up with a clock of 1 MHz *)
Lemma up_is_set_up : time_setup 1000000 0 SystickScenario.fresh = Ok (tt, up).
Proof. vm_compute. reflexivity. Qed.

Definition shot : list (op * option Z) :=
  [(Handler (Some handler) 3, None); (Deliver true, None); (Now, Some 0); (Arm 10, None); (Idle 70, None)].

Definition after (l : list (op * option Z)) (s : source) : source :=
  fold_left (fun s x => match run_op x.1 s with Ok (_, s') => s' | Panic _ => s end) l s.

(** A list of operations played, with what each answered. *)
Fixpoint played (slack : Z) (l : list (op * option Z)) (s : source) : Prop :=
  match l with
  | [] => True
  | x :: l => may slack x.1 s /\ run_op x.1 s = Ok (x.2, after [x] s) /\ played slack l (after [x] s)
  end.

Lemma played_app slack l l' : forall s, played slack l s -> played slack l' (after l s) -> played slack (l ++ l') s.
Proof. induction l as [| x l IH]; intros s; cbn; [auto |]. intros (Hm & E & Hp) Hl. split_and!; auto. Qed.

Lemma played_history slack l : forall s, played slack l s -> history slack s l (after l s).
Proof.
  induction l as [| [o v] l IH]; intros s; cbn; [intros _; constructor |]. intros (Hm & E & Hp).
  eapply hi_cons; [exact Hm | exact E | exact (IH _ Hp)].
Qed.

Ltac play_fits := split; [vm_compute; congruence.. |]; intros k Hk; do 8 (destruct k as [| k]; [vm_compute; congruence |]); lia.

Lemma shot_played : played 140 shot up.
Proof.
  cbn [played shot fst snd].
  split; [split; [reflexivity | exact I] |]. split; [vm_compute; reflexivity |].
  split; [split; [reflexivity | exact I] |]. split; [vm_compute; reflexivity |].
  split; [split; [reflexivity | split; [reflexivity | play_fits]] |]. split; [vm_compute; reflexivity |].
  split; [split; [reflexivity | split; [reflexivity | split; [play_fits | vm_compute; split; congruence]]] |]. split; [vm_compute; reflexivity |].
  split; [split; [reflexivity | vm_compute; congruence] |]. split; [vm_compute; reflexivity |]. exact I.
Qed.

(** Past the end of the interval the arm began, a reading is never less than
    the first; the one after it, made before the interrupt, is 64 less. *)
Lemma shot_read_played : played 140 (shot ++ [(Now, Some 77)]) up.
Proof.
  apply played_app; [exact shot_played |]. cbn [played fst snd].
  split; [split; [reflexivity | split; [reflexivity | play_fits]] |]. split; [vm_compute; reflexivity | exact I].
Qed.

Lemma systick_tells_the_time_witness :
  (exists v s'', run_op Now (after shot up) = Ok (Some v, s'') /\ 0 <= v <= clocks (timer s'') - clocks (timer up)) /\
  exists v s'', run_op Now (after (shot ++ [(Now, Some 77)]) up) = Ok (Some v, s'') /\
    v + 64 <= clocks (timer s'') - clocks (timer up).
Proof.
  destruct (systick_tells_the_time 140 1000000 SystickScenario.fresh ltac:(lia) ltac:(lia)) as (s0 & E & _ & Hh).
  rewrite up_is_set_up in E. injection E as <-. split.
  - destruct (Hh shot (after shot up) (played_history 140 shot up shot_played)) as (_ & Hnow & _).
    destruct Hnow as (v & s'' & En & Hv & Hb); [split; [reflexivity |]; split; [reflexivity | play_fits] |].
    exists v, s''. split; [exact En |]. apply Forall_inv in Hv. split; [exact Hv | apply Hb].
  - destruct (Hh _ _ (played_history 140 _ up shot_read_played)) as (_ & _ & Hstale).
    destruct Hstale as (v & s'' & En & Hv); [vm_compute; reflexivity | reflexivity | play_fits |].
    exists v, s''. split; [exact En |]. vm_compute (current_reload _) in Hv. lia.
Defined.

(** The interrupt of a deadline at 10 runs the callback. *)
Lemma systick_honours_the_earliest_witness :
  may 140 Fire (after shot up) /\ reached (after shot up) = true /\
  calls (after [(Fire, None)] (after shot up)) = [(handler, 3%nat)] /\ armed_deadline (after [(Fire, None)] (after shot up)) = never.
Proof.
  destruct (systick_honours_the_earliest 140 1000000 SystickScenario.fresh up shot (after shot up) ltac:(lia) ltac:(lia)
              up_is_set_up (played_history 140 shot up shot_played)) as (Hop & _).
  assert (Hm : may 140 Fire (after shot up)) by (split; [reflexivity | split; [reflexivity | play_fits]]).
  destruct (Hop Fire None (after [(Fire, None)] (after shot up)) Hm ltac:(vm_compute; reflexivity)) as [Hd Hc].
  split; [exact Hm |]. split; [reflexivity |]. split; [exact Hc | exact Hd].
Defined.
