(* ===== verification/Rv32Switch.v ===== *)
(** * How RV32 switches threads: port_core_rv32.cpp

    The trap entry, the yield's call, the direct switch's call and the trap
    exit, register by register, with the C they call.  A thread is suspended
    with one of three frames: a trap's, which holds every register; a yield's
    or a direct switch's, which hold what a call keeps.  Any exit resumes any of
    them.

    One hart, and threads on stacks of their own.  From the trap or the mask to
    the return everything is masked, so each road is one step.  The C code that
    an entry calls runs on the interrupt stack; it leaves the registers a call
    keeps and may leave anything in the others ([junk]).  What the kernel picks
    and what handlers do (decide, raise the soft interrupt) are arguments; a
    handler takes no fault. *)

From S2P Require Import Prelude.
Local Open Scope Z_scope.

Module Rv32Switch.
(** ** Registers, in the frame's order: word n of a frame is register n's *)
Definition ra : nat := 1.
Definition sp : nat := 2.
Definition gp : nat := 3.
Definition tp : nat := 4.
Definition a0 : nat := 10.

(** What the trap entry stores at once, and what it stores before a reschedule,
    a switch or a fault's handler. *)
Definition clobbered : list nat := [1; 5; 6; 7; 10; 11; 12; 13; 14; 15; 16; 17; 28; 29; 30; 31]%nat.
Definition kept : list nat := [3; 4; 8; 9; 18; 19; 20; 21; 22; 23; 24; 25; 26; 27]%nat.
(** What a yield and a direct switch store. *)
Definition call_kept : list nat := [4; 8; 9; 18; 19; 20; 21; 22; 23; 24; 25; 26; 27]%nat.
(** What the trap exit loads of a trap's frame. *)
Definition whole : list nat := [1; 3; 4; 5; 6; 7; 8; 9; 10; 11; 12; 13; 14; 15; 16; 17; 18; 19; 20; 21; 22; 23; 24; 25; 26; 27; 28; 29; 30; 31]%nat.

Definition frame_words : Z := 32.
Definition frame_bytes : Z := frame_words * 4.

Definition mstatus_mie : Z := Z.shiftl 1 3.
Definition mstatus_mpie : Z := Z.shiftl 1 7.
Definition mstatus_mpp_machine : Z := Z.shiftl 3 11.
Definition mcause_interrupt : Z := Z.shiftl 1 31.
Definition cause_timer_interrupt : Z := 7.
Definition cause_ext_interrupt : Z := 11.

Definition call_kind_yield : Z := 0.
Definition call_kind_switch : Z := 1.

(** ** State *)
Record context := Context { frame : Z; guard : Z }.

Record core_state := CoreState {
  cs_frame : Z;
  interrupt_stack_top : Z;
  trap_depth : Z;
  in_reschedule : Z;
  owed_from : option nat;
  owed_to : option nat
}.

(** A thread's context is at its own number. *)
Record hart := Hart {
  x : gmap nat Z;
  pc : Z;
  mstatus : Z;
  mepc : Z;
  mcause : Z;
  mscratch : Z;
  pmpaddr0 : Z;
  msie : bool;                   (* mie.MSIE *)
  msip : bool;                   (* the soft interrupt, raised *)
  mem : gmap Z Z;
  contexts : gmap nat context;
  core : core_state;
  running : nat;                 (* the kernel's running thread *)
  asked : bool                   (* not the code's: a reschedule asked for since the kernel's last *)
}.

Definition set_x v s := Hart v (pc s) (mstatus s) (mepc s) (mcause s) (mscratch s) (pmpaddr0 s) (msie s) (msip s) (mem s) (contexts s) (core s) (running s) (asked s).
Definition set_pc v s := Hart (x s) v (mstatus s) (mepc s) (mcause s) (mscratch s) (pmpaddr0 s) (msie s) (msip s) (mem s) (contexts s) (core s) (running s) (asked s).
Definition set_mstatus v s := Hart (x s) (pc s) v (mepc s) (mcause s) (mscratch s) (pmpaddr0 s) (msie s) (msip s) (mem s) (contexts s) (core s) (running s) (asked s).
Definition set_mepc v s := Hart (x s) (pc s) (mstatus s) v (mcause s) (mscratch s) (pmpaddr0 s) (msie s) (msip s) (mem s) (contexts s) (core s) (running s) (asked s).
Definition set_mcause v s := Hart (x s) (pc s) (mstatus s) (mepc s) v (mscratch s) (pmpaddr0 s) (msie s) (msip s) (mem s) (contexts s) (core s) (running s) (asked s).
Definition set_mscratch v s := Hart (x s) (pc s) (mstatus s) (mepc s) (mcause s) v (pmpaddr0 s) (msie s) (msip s) (mem s) (contexts s) (core s) (running s) (asked s).
Definition set_pmpaddr0 v s := Hart (x s) (pc s) (mstatus s) (mepc s) (mcause s) (mscratch s) v (msie s) (msip s) (mem s) (contexts s) (core s) (running s) (asked s).
Definition set_msie v s := Hart (x s) (pc s) (mstatus s) (mepc s) (mcause s) (mscratch s) (pmpaddr0 s) v (msip s) (mem s) (contexts s) (core s) (running s) (asked s).
Definition set_msip v s := Hart (x s) (pc s) (mstatus s) (mepc s) (mcause s) (mscratch s) (pmpaddr0 s) (msie s) v (mem s) (contexts s) (core s) (running s) (asked s).
Definition set_mem v s := Hart (x s) (pc s) (mstatus s) (mepc s) (mcause s) (mscratch s) (pmpaddr0 s) (msie s) (msip s) v (contexts s) (core s) (running s) (asked s).
Definition set_contexts v s := Hart (x s) (pc s) (mstatus s) (mepc s) (mcause s) (mscratch s) (pmpaddr0 s) (msie s) (msip s) (mem s) v (core s) (running s) (asked s).
Definition set_core v s := Hart (x s) (pc s) (mstatus s) (mepc s) (mcause s) (mscratch s) (pmpaddr0 s) (msie s) (msip s) (mem s) (contexts s) v (running s) (asked s).
Definition set_running v s := Hart (x s) (pc s) (mstatus s) (mepc s) (mcause s) (mscratch s) (pmpaddr0 s) (msie s) (msip s) (mem s) (contexts s) (core s) v (asked s).
Definition set_asked v s := Hart (x s) (pc s) (mstatus s) (mepc s) (mcause s) (mscratch s) (pmpaddr0 s) (msie s) (msip s) (mem s) (contexts s) (core s) (running s) v.

Definition set_cs_frame v c := CoreState v (interrupt_stack_top c) (trap_depth c) (in_reschedule c) (owed_from c) (owed_to c).
Definition set_interrupt_stack_top v c := CoreState (cs_frame c) v (trap_depth c) (in_reschedule c) (owed_from c) (owed_to c).
Definition set_trap_depth v c := CoreState (cs_frame c) (interrupt_stack_top c) v (in_reschedule c) (owed_from c) (owed_to c).
Definition set_in_reschedule v c := CoreState (cs_frame c) (interrupt_stack_top c) (trap_depth c) v (owed_from c) (owed_to c).
Definition set_owed_from v c := CoreState (cs_frame c) (interrupt_stack_top c) (trap_depth c) (in_reschedule c) v (owed_to c).
Definition set_owed_to v c := CoreState (cs_frame c) (interrupt_stack_top c) (trap_depth c) (in_reschedule c) (owed_from c) v.

Local Abbreviation T := (M hart).

Definition upd_core (f : core_state -> core_state) : T unit := kmodify (fun s => set_core (f (core s)) s).

Definition get_context (t : nat) : T context :=
  fun s => match contexts s !! t with Some c => Ok (c, s) | None => Panic bad_pointer end.

Definition modify_context (t : nat) (f : context -> context) : T unit :=
  get_context t ;;* kmodify (fun s => set_contexts (alter f t (contexts s)) s).

(** ** Instructions *)
Definition reg (r : nat) (s : hart) : Z := default 0 (x s !! r).
Definition word (a : Z) (s : hart) : Z := default 0 (mem s !! a).

Definition li (r : nat) (v : Z) : T unit := kmodify (fun s => set_x (<[r := v]> (x s)) s).
Definition sw_at (a v : Z) : T unit := kmodify (fun s => set_mem (<[a := v]> (mem s)) s).

(** [sw xn, 4n(base)] and [lw xn, 4n(base)] for each register of a list. *)
Definition save (b : Z) (l : list nat) (x : gmap nat Z) (m : gmap Z Z) : gmap Z Z :=
  foldl (fun m r => <[b + 4 * Z.of_nat r := default 0 (x !! r)]> m) m l.
Definition load (b : Z) (l : list nat) (m : gmap Z Z) (x : gmap nat Z) : gmap nat Z :=
  foldl (fun x r => <[r := default 0 (m !! (b + 4 * Z.of_nat r))]> x) x l.

Definition store_regs (base : nat) (l : list nat) : T unit :=
  kmodify (fun s => set_mem (save (reg base s) l (x s) (mem s)) s).
Definition load_regs (base : nat) (l : list nat) : T unit :=
  kmodify (fun s => set_x (load (reg base s) l (mem s) (x s)) s).

Definition mie (m : Z) : bool := Z.testbit m 3.
Definition mpie (m : Z) : bool := Z.testbit m 7.

Definition csrs_mstatus (bits : Z) : T unit := kmodify (fun s => set_mstatus (Z.lor (mstatus s) bits) s).
Definition csrc_mstatus (bits : Z) : T unit := kmodify (fun s => set_mstatus (Z.ldiff (mstatus s) bits) s).

(** Taking a trap, and leaving one: MIE goes to MPIE and comes back from it. *)
Definition trapped (m : Z) : Z := Z.lor (Z.ldiff m (Z.lor mstatus_mie mstatus_mpie)) (Z.lor (if mie m then mstatus_mpie else 0) mstatus_mpp_machine).
Definition returned (m : Z) : Z := Z.lor (Z.ldiff m mstatus_mie) (Z.lor (if mpie m then mstatus_mie else 0) mstatus_mpie).

Definition take_trap (cause : Z) : T unit :=
  kmodify (fun s => set_mstatus (trapped (mstatus s)) (set_mcause cause (set_mepc (pc s) s))).
Definition mret : T unit := kmodify (fun s => set_pc (mepc s) (set_mstatus (returned (mstatus s)) s)).

(** C, called: its caller's registers are its own but for those a call keeps. *)
Definition c_call {A} (junk : gmap nat Z) (f : T A) : T A :=
  let* r := f in
  kmodify (fun s => set_x (foldl (fun x n => <[n := default 0 (junk !! n)]> x) (x s) clobbered) s) ;;*
  kret r.

(** ** The switch, and the switches the kernel decides *)
Section port.
(** Whether threads are guarded: built in, and the target able. *)
Context (guarded : bool).

Definition cyros_port_switch (from : option nat) (to : nat) : T unit :=
  let* c := kget core in
  kensure assert_failed (trap_depth c =? 1) ;;*
  let* to := get_context to in
  kensure assert_failed (negb (frame to =? 0)) ;;*
  (match from with Some from => modify_context from (fun k => Context (cs_frame c) (guard k)) | None => kret tt end) ;;*
  upd_core (set_cs_frame (frame to)) ;;*
  if guarded then kmodify (set_pmpaddr0 (guard to)) else kret tt.

Definition cyros_port_interrupted_at_baseline : T bool :=
  let* c := kget core in
  let* cause := kget mcause in
  let* grade := kget msie in
  kret ((trap_depth c =? 1) && (in_reschedule c =? 0) && negb (Z.land cause mcause_interrupt =? 0) && grade).

Definition cyros_port_owe_switch (from to : nat) : T unit :=
  let* c := kget core in
  kensure assert_failed (trap_depth c =? 1) ;;*
  get_context to ;;*
  kensure assert_failed (negb (to =? from)%nat) ;;*
  (match owed_to c with None => upd_core (set_owed_from (Some from)) | Some _ => kret tt end) ;;*
  upd_core (set_owed_to (Some to)).

Definition soft_irq_raise : T unit := kmodify (fun s => set_asked true (set_msip true s)).
Definition soft_irq_clear : T unit := kmodify (set_msip false).

(** [run_reschedule] with the kernel's handler: it picks, and switches if the
    pick is another; [again] asks for a reschedule on the way. *)
Definition run_reschedule (pick : nat) (again : bool) : T unit :=
  let* c := kget core in
  kensure assert_failed (trap_depth c =? 1) ;;*
  let* prev := kget running in
  kmodify (fun s => set_asked false (set_running pick s)) ;;*
  (if again then soft_irq_raise else kret tt) ;;*
  if (pick =? prev)%nat then kret tt else cyros_port_switch (Some prev) pick.

Definition reschedule_from (frame : Z) (pick : nat) (again : bool) : T Z :=
  upd_core (set_trap_depth 1) ;;*
  upd_core (set_in_reschedule 1) ;;*
  upd_core (set_cs_frame frame) ;;*
  run_reschedule pick again ;;*
  upd_core (set_in_reschedule 0) ;;*
  upd_core (set_trap_depth 0) ;;*
  let* c := kget core in
  kmodify (set_mscratch (interrupt_stack_top c)) ;;*
  kret (cs_frame c).

(** ** The dispatches *)

(** [take_pended_reschedule]; [visible]: a raise has reached mip. *)
Definition take_pended_reschedule (visible : bool) : T bool :=
  let* up := kget msip in
  let* grade := kget msie in
  if up && visible && grade then soft_irq_clear ;;* kret true else kret false.

(** A handler: each wake that the kernel decides there, and whether it asks for
    a reschedule. *)
Definition wake (to : nat) : T unit :=
  let* here := cyros_port_interrupted_at_baseline in
  let* from := kget running in
  if here && negb (to =? from)%nat then cyros_port_owe_switch from to ;;* kmodify (set_running to) else kret tt.

Fixpoint handler (wakes : list nat) (raises : bool) : T unit :=
  match wakes with
  | [] => if raises then soft_irq_raise else kret tt
  | to :: wakes => wake to ;;* handler wakes raises
  end.

Definition exit_owed_switch : Z := 1.
Definition exit_reschedule : Z := 2.

Definition cyros_port_interrupt_dispatch (wakes : list nat) (raises visible : bool) : T Z :=
  upd_core (fun c => set_trap_depth (trap_depth c + 1) c) ;;*
  handler wakes raises ;;*
  let* took := take_pended_reschedule visible in
  let exit := if took then exit_reschedule else 0 in
  let* c := kget core in
  let exit := match owed_to c with Some _ => Z.lor exit exit_owed_switch | None => exit end in
  upd_core (fun c => set_trap_depth (trap_depth c - 1) c) ;;*
  (if exit =? 0 then kmodify (fun s => set_mscratch (interrupt_stack_top (core s)) s) else kret tt) ;;*
  kret exit.

Definition cyros_port_reschedule_dispatch (frame : Z) (pick : nat) (again : bool) : T Z := reschedule_from frame pick again.

Definition cyros_port_soft_irq_dispatch (frame : Z) (pick : nat) (again : bool) : T Z :=
  soft_irq_clear ;;* reschedule_from frame pick again.

Definition cyros_port_owed_switch_dispatch (f exit : Z) (pick : nat) (again : bool) : T Z :=
  let* c := kget core in
  let* to := klift (nonnull (owed_to c)) in
  upd_core (set_owed_to None) ;;*
  let* from := klift (nonnull (owed_from c)) in
  modify_context from (fun k => Context f (guard k)) ;;*
  let* to := get_context to in
  (if guarded then kmodify (set_pmpaddr0 (guard to)) else kret tt) ;;*
  if negb (Z.land exit exit_reschedule =? 0) then reschedule_from (frame to) pick again
  else
    kmodify (fun s => set_mscratch (interrupt_stack_top (core s)) s) ;;*
    kret (frame to).

(** ** The assembly *)

(** [addi sp, sp, n]. *)
Definition addi_sp (n : Z) : T unit := kmodify (fun s => set_x (<[sp := u32 (reg sp s + n)]> (x s)) s).

(** [csrrw t0, mscratch, zero], and to the interrupt stack where there is one. *)
Definition to_interrupt_stack : T unit :=
  let* top := kget mscratch in
  kmodify (set_mscratch 0) ;;*
  let* s := kget (reg sp) in
  let top := if top =? 0 then s else top in
  li 5 top ;;*
  li sp top.

Definition cyros_port_trap_exit : T unit :=
  let* f := kget (reg a0) in
  li sp f ;;*
  let* t0 := kget (word f) in
  li 5 t0 ;;*
  li 6 (Z.land t0 1) ;;*
  if Z.land t0 1 =? 0 then
    kmodify (set_mepc t0) ;;*
    let* t0 := kget (word (f + 8)) in
    li 5 t0 ;;*
    kmodify (set_mstatus t0) ;;*
    load_regs sp whole ;;*
    addi_sp frame_bytes ;;*
    mret
  else
    load_regs sp call_kept ;;*
    addi_sp frame_bytes ;;*
    li 6 (Z.lor mstatus_mpp_machine mstatus_mpie) ;;*
    csrs_mstatus (Z.lor mstatus_mpp_machine mstatus_mpie) ;;*
    kmodify (set_mepc (Z.ldiff t0 1)) ;;*
    mret.

(** The entry's own half: the clobbered registers, mepc and mstatus. *)
Definition trap_save : T unit :=
  addi_sp (- frame_bytes) ;;*
  store_regs sp clobbered ;;*
  let* f := kget (reg sp) in
  let* t0 := kget mepc in
  sw_at f t0 ;;*
  let* t0 := kget mstatus in
  li 5 t0 ;;*
  sw_at (f + 8) t0 ;;*
  li a0 f ;;*
  let* cause := kget mcause in
  li 11 cause ;;*
  to_interrupt_stack.

(** Its return where no reschedule is asked for and no switch owed. *)
Definition trap_return : T unit :=
  let* f := kget (reg a0) in
  li sp f ;;*
  let* t0 := kget (word f) in
  kmodify (set_mepc t0) ;;*
  let* t0 := kget (word (f + 8)) in
  li 5 t0 ;;*
  kmodify (set_mstatus t0) ;;*
  load_regs sp clobbered ;;*
  addi_sp frame_bytes ;;*
  mret.

(** What the C of a trap does, and leaves in the registers. *)
Record doing := Doing {
  wakes : list nat; raises : bool; visible : bool;
  pick : nat; again : bool;
  junk : gmap nat Z; junk' : gmap nat Z
}.

(** [cyros_port_trap_entry], for an interrupt. *)
Definition cyros_port_trap_entry (cause : Z) (d : doing) : T unit :=
  take_trap cause ;;*
  trap_save ;;*
  let* f := kget (reg a0) in
  let* a1 := kget (reg 11) in
  li 6 (mcause_interrupt + 3) ;;*
  if a1 =? mcause_interrupt + 3 then
    store_regs a0 kept ;;*
    let* f := c_call (junk d) (cyros_port_soft_irq_dispatch f (pick d) (again d)) in
    li a0 f ;;*
    cyros_port_trap_exit
  else
    let* exit := c_call (junk d) (cyros_port_interrupt_dispatch (wakes d) (raises d) (visible d)) in
    li a0 f ;;*
    li 11 exit ;;*
    if exit =? 0 then trap_return
    else
      store_regs a0 kept ;;*
      li 5 (Z.land exit 1) ;;*
      let* f := c_call (junk' d) (if Z.land exit 1 =? 0 then cyros_port_reschedule_dispatch f (pick d) (again d)
                                  else cyros_port_owed_switch_dispatch f exit (pick d) (again d)) in
      li a0 f ;;*
      cyros_port_trap_exit.

(** A call frame: the return address marked, and which call it was. *)
Definition call_save (kind : Z) : T unit :=
  addi_sp (- frame_bytes) ;;*
  let* f := kget (reg sp) in
  let* r := kget (reg ra) in
  sw_at f (Z.lor r 1) ;;*
  li 5 (if kind =? 0 then Z.lor r 1 else kind) ;;*
  sw_at (f + 8) kind ;;*
  store_regs sp call_kept.

Definition cyros_port_yield_entry (d : doing) : T unit :=
  csrc_mstatus mstatus_mie ;;*
  call_save call_kind_yield ;;*
  let* f := kget (reg sp) in
  li a0 f ;;*
  to_interrupt_stack ;;*
  let* f := c_call (junk d) (cyros_port_reschedule_dispatch f (pick d) (again d)) in
  li a0 f ;;*
  cyros_port_trap_exit.

(** Returning into a direct switch's frame. *)
Definition switch_return (f : Z) : T unit :=
  li sp f ;;*
  load_regs sp call_kept ;;*
  let* t0 := kget (reg 5) in
  li ra (Z.ldiff t0 1) ;;*
  addi_sp frame_bytes ;;*
  csrs_mstatus mstatus_mie ;;*
  let* r := kget (reg ra) in
  kmodify (set_pc r).

Definition cyros_port_direct_switch (from to : nat) : T unit :=
  call_save call_kind_switch ;;*
  let* f := kget (reg sp) in
  modify_context from (fun k => Context f (guard k)) ;;*
  let* c := get_context to in
  (if guard c =? 0 then kret tt else kmodify (set_pmpaddr0 (guard c))) ;;*
  li a0 (frame c) ;;*
  let* t0 := kget (word (frame c)) in
  li 5 t0 ;;*
  if Z.land t0 1 =? 0 then li 6 (Z.land t0 1) ;;* cyros_port_trap_exit
  else
    let* t1 := kget (word (frame c + 8)) in
    li 6 t1 ;;*
    if t1 =? 0 then cyros_port_trap_exit else switch_return (frame c).

(** ** The calls a thread makes *)
Definition cyros_port_thread_yield (d : doing) : T unit :=
  let* c := kget core in
  kensure assert_failed (trap_depth c =? 0) ;;*
  let* m := kget mstatus in
  kensure assert_failed (mie m) ;;*
  let* grade := kget msie in
  kensure assert_failed grade ;;*
  cyros_port_yield_entry d.

Definition cyros_port_pend_reschedule (d : doing) : T unit :=
  let* m := kget mstatus in
  let* grade := kget msie in
  if mie m && grade then cyros_port_yield_entry d
  else soft_irq_raise.

Definition cyros_port_masked_from_baseline (token : bool) : T bool :=
  let* grade := kget msie in kret (token && grade).

(** ** A thread's first frame *)
Definition guard_bytes : Z := 128.
Definition spill_bytes : Z := 256.
Definition guard_pmpaddr (bottom : Z) : Z := Z.lor (Z.shiftr bottom 2) (guard_bytes / 8 - 1).

Fixpoint zero_words (f : Z) (n : nat) (m : gmap Z Z) : gmap Z Z :=
  match n with O => m | S n => <[f + 4 * Z.of_nat n := 0]> (zero_words f n m) end.

(** [t] is the context's number, [return_trap] is [thread_return_trap]'s address. *)
Definition cyros_port_context_init (t : nat) (stack_base stack_size entry arg return_trap : Z) : T unit :=
  kensure assert_failed (negb (stack_base =? 0)) ;;*
  kensure assert_failed (negb (entry =? 0)) ;;*
  kensure assert_failed (2 * frame_bytes <=? stack_size) ;;*
  let base := stack_base in
  let top := Z.ldiff (u32 (base + stack_size)) 15 in
  kensure assert_failed (base <? u32 (top - frame_bytes)) ;;*
  let bottom := Z.ldiff (u32 (base + spill_bytes + guard_bytes - 1)) (guard_bytes - 1) in
  kensure assert_failed (negb guarded || (u32 (bottom + guard_bytes) <? u32 (top - frame_bytes))) ;;*
  let guard := if guarded then guard_pmpaddr bottom else 0 in
  let f := u32 (top - frame_bytes) in
  kmodify (fun s => set_mem (zero_words f 32 (mem s)) s) ;;*
  let* g := kget (reg gp) in
  sw_at f entry ;;*
  sw_at (f + 8) (Z.lor mstatus_mpp_machine mstatus_mpie) ;;*
  sw_at (f + 4 * Z.of_nat ra) return_trap ;;*
  sw_at (f + 4 * Z.of_nat gp) g ;;*
  sw_at (f + 4 * Z.of_nat tp) 0 ;;*
  sw_at (f + 4 * Z.of_nat a0) arg ;;*
  kmodify (fun s => set_contexts (<[t := Context f guard]> (contexts s)) s).

Definition cyros_port_context_destroy (t : nat) : T unit :=
  kmodify (fun s => set_contexts (<[t := Context 0 0]> (contexts s)) s).

(** [here] is where the core stands: its interrupt stack from now on. *)
Definition cyros_port_start_first (first : nat) (here : Z) : T unit :=
  let* c := get_context first in
  kensure assert_failed (negb (frame c =? 0)) ;;*
  upd_core (set_trap_depth 0) ;;*
  upd_core (set_cs_frame (frame c)) ;;*
  upd_core (set_interrupt_stack_top (Z.ldiff here 15)) ;;*
  kmodify (set_mscratch (Z.ldiff here 15)) ;;*
  (if guarded then kmodify (set_pmpaddr0 (guard c)) else kret tt) ;;*
  li a0 (frame c) ;;*
  cyros_port_trap_exit.

(** ** What may happen *)
Inductive label :=
  | Compute (regs : gmap nat Z) (p : Z) (m : gmap Z Z)   (* the thread computes *)
  | SetMie (on : bool) | SetMsie (on : bool)              (* and masks *)
  | Ring                                                  (* another core asks for a reschedule *)
  | Pend (ret : Z) (d : doing)                            (* the thread asks, calling from before [ret] *)
  | Yield (ret : Z) (d : doing)
  | Direct (ret : Z) (to : nat)                           (* the kernel decides in the thread *)
  | Interrupt (external : bool) (d : doing)
  | SoftIrq (d : doing).

Definition step (l : label) : T unit :=
  match l with
  | Compute regs p m => kmodify (fun s => set_x regs (set_pc p (set_mem m s)))
  | SetMie on => if on then csrs_mstatus mstatus_mie else csrc_mstatus mstatus_mie
  | SetMsie on => kmodify (set_msie on)
  | Ring => soft_irq_raise
  | Pend ret d => li ra ret ;;* kmodify (set_pc ret) ;;* cyros_port_pend_reschedule d
  | Yield ret d => li ra ret ;;* cyros_port_thread_yield d
  | Direct ret to =>
      let* m := kget mstatus in
      csrc_mstatus mstatus_mie ;;*
      let* grade := cyros_port_masked_from_baseline (mie m) in
      kensure require_failed grade ;;*
      let* from := kget running in
      kmodify (set_running to) ;;*
      li ra ret ;;*
      cyros_port_direct_switch from to
  | Interrupt external d => cyros_port_trap_entry (mcause_interrupt + (if external then cause_ext_interrupt else cause_timer_interrupt)) d
  | SoftIrq d => cyros_port_trap_entry (mcause_interrupt + 3) d
  end.

Fixpoint steps (ls : list label) : T unit :=
  match ls with [] => kret tt | l :: ls => step l ;;* steps ls end.
End port.
End Rv32Switch.
