(* ===== verification/Rv32SwitchProperties.v ===== *)
(** * Switching on RV32: what it keeps, and its properties *)

From S2P Require Import Prelude State Rv32Switch.
Import Rv32Switch.
Local Open Scope Z_scope.

(** ** Registers and words *)
Definition rg (m : gmap nat Z) (r : nat) : Z := default 0 (m !! r).
Definition wd (m : gmap Z Z) (a : Z) : Z := default 0 (m !! a).

Lemma rg_insert m r v n : rg (<[r := v]> m) n = if (n =? r)%nat then v else rg m n.
Proof. unfold rg. destruct (Nat.eqb_spec n r) as [-> | Hne]; [rewrite lookup_insert_eq | rewrite lookup_insert_ne by auto]; reflexivity. Qed.

Lemma wd_insert m b v a : wd (<[b := v]> m) a = if a =? b then v else wd m a.
Proof. unfold wd. destruct (Z.eqb_spec a b) as [-> | Hne]; [rewrite lookup_insert_eq | rewrite lookup_insert_ne by auto]; reflexivity. Qed.

Lemma wd_save b x l n : forall m, wd (save b l x m) (b + 4 * Z.of_nat n) = if bool_decide (n ∈ l) then rg x n else wd m (b + 4 * Z.of_nat n).
Proof.
  induction l as [| r l IH] using rev_ind; intros m; [reflexivity |]. unfold save in *. rewrite foldl_app. cbn [foldl]. rewrite wd_insert, IH.
  destruct (Z.eqb_spec (b + 4 * Z.of_nat n) (b + 4 * Z.of_nat r)) as [E | Hne].
  - assert (n = r) by lia. subst. rewrite bool_decide_eq_true_2 by set_solver. reflexivity.
  - assert (n <> r) by (intros ->; lia). rewrite (bool_decide_ext (n ∈ l ++ [r]) (n ∈ l)) by set_solver. reflexivity.
Qed.

Lemma wd_save_out b x l a : (forall n, n ∈ l -> (n < 32)%nat) -> a < b \/ b + 128 <= a -> forall m, wd (save b l x m) a = wd m a.
Proof.
  intros Hl Ha. induction l as [| r l IH] using rev_ind; intros m; [reflexivity |]. unfold save in *. rewrite foldl_app. cbn [foldl]. rewrite wd_insert.
  pose proof (Hl r ltac:(set_solver)). rewrite (proj2 (Z.eqb_neq _ _)) by lia. apply IH. intros n Hn. apply Hl. set_solver.
Qed.

Lemma rg_load b m l n : forall x, rg (load b l m x) n = if bool_decide (n ∈ l) then wd m (b + 4 * Z.of_nat n) else rg x n.
Proof.
  induction l as [| r l IH] using rev_ind; intros x; [reflexivity |]. unfold load in *. rewrite foldl_app. cbn [foldl]. rewrite rg_insert, IH.
  destruct (Nat.eqb_spec n r) as [-> | Hne].
  - rewrite bool_decide_eq_true_2 by set_solver. reflexivity.
  - rewrite (bool_decide_ext (n ∈ l ++ [r]) (n ∈ l)) by set_solver. reflexivity.
Qed.

(** A call's result, register by register. *)
Definition junked (junk : gmap nat Z) (x : gmap nat Z) : gmap nat Z := foldl (fun x n => <[n := default 0 (junk !! n)]> x) x clobbered.

Lemma rg_junked junk x n : ~ n ∈ clobbered -> rg (junked junk x) n = rg x n.
Proof.
  unfold junked. generalize clobbered. intros l Hn. induction l as [| r l IH] using rev_ind; [reflexivity |]. rewrite foldl_app. cbn [foldl].
  rewrite rg_insert. destruct (Nat.eqb_spec n r) as [-> | Hne]; [exfalso; apply Hn; set_solver |]. apply IH. set_solver.
Qed.

Lemma wp_c_call {A} junk (f : M hart A) Q s :
  wp f (fun r s' => Q r (set_x (junked junk (x s')) s')) s -> wp (c_call junk f) Q s.
Proof. intros H. unfold c_call. apply wp_bind. eapply wp_mono; [exact H |]. intros r s' HQ. repeat wp_step. exact HQ. Qed.

(** ** What a thread is owed when it resumes *)
Record view := View { full : bool; vx : gmap nat Z; vpc : Z }.

Definition even (a : Z) : Prop := Z.testbit a 0 = false.

(** Register n of a view, in its frame or in the hart. *)
Definition held (v : view) : list nat := if full v then whole else call_kept.

Record framed (m : gmap Z Z) (f : Z) (v : view) : Prop := {
  fr_pc : wd m f = if full v then vpc v else Z.lor (vpc v) 1;
  fr_even : even (vpc v);
  fr_kind : if full v then mpie (wd m (f + 8)) = true else wd m (f + 8) = 0 \/ wd m (f + 8) = 1;
  fr_regs n : n ∈ held v -> wd m (f + 4 * Z.of_nat n) = rg (vx v) n;
  fr_sp : rg (vx v) sp = f + 128
}.

Record resumes (v : view) (s : hart) : Prop := {
  re_pc : pc s = vpc v;
  re_mie : mie (mstatus s) = true;
  re_sp : rg (x s) sp = rg (vx v) sp;
  re_regs n : n ∈ held v -> rg (x s) n = rg (vx v) n
}.

(** The rest of the hart, which resuming leaves alone. *)
Definition rest (s : hart) := (mscratch s, pmpaddr0 s, msie s, msip s, mem s, contexts s, core s, running s, asked s).

(** ** Bits *)
Lemma land_1 a : Z.land a 1 = Z.b2z (Z.testbit a 0).
Proof. change 1 with (Z.ones 1). rewrite Z.land_ones by lia. rewrite Z.bit0_mod. reflexivity. Qed.

Lemma even_land a : even a -> Z.land a 1 = 0.
Proof. unfold even. intros H. rewrite land_1, H. reflexivity. Qed.

Lemma marked_land a : Z.land (Z.lor a 1) 1 = 1.
Proof. rewrite land_1, Z.lor_spec, orb_true_r. reflexivity. Qed.

Lemma unmarked a : even a -> Z.ldiff (Z.lor a 1) 1 = a.
Proof.
  intros He. apply Z.bits_inj'. intros i Hi. rewrite Z.ldiff_spec, Z.lor_spec. destruct (Z.eq_dec i 0) as [-> | Hne].
  - rewrite He. reflexivity.
  - replace (Z.testbit 1 i) with false by (symmetry; apply Z.bits_above_log2; [lia | cbn; lia]). rewrite orb_false_r, andb_true_r. reflexivity.
Qed.

Lemma mie_returned m : mpie m = true -> mie (returned m) = true.
Proof. unfold returned, mie, mpie. intros ->. rewrite !Z.lor_spec. cbn. apply orb_true_r. Qed.

Lemma mpie_trapped m : mie m = true -> mpie (trapped m) = true.
Proof. unfold trapped, mie, mpie. intros ->. rewrite !Z.lor_spec. cbn. apply orb_true_r. Qed.

Lemma mpie_is_set m : mpie (Z.lor m (Z.lor mstatus_mpp_machine mstatus_mpie)) = true.
Proof. unfold mpie. rewrite Z.lor_spec. cbn. apply orb_true_r. Qed.

Lemma mie_is_set m : mie (Z.lor m mstatus_mie) = true.
Proof. unfold mie. rewrite Z.lor_spec. cbn. apply orb_true_r. Qed.

(** ** The exits *)
Lemma u32_id z : 0 <= z < 2 ^ 32 -> u32 z = z.
Proof. apply wrap_small. Qed.

#[local] Arguments Z.mul : simpl never.
#[local] Arguments Z.add : simpl never.
#[local] Arguments Z.land : simpl never.
#[local] Arguments Z.lor : simpl never.
#[local] Arguments Z.ldiff : simpl never.
#[local] Arguments u32 : simpl never.
#[local] Arguments wrap : simpl never.

#[local] Arguments load : simpl never.
#[local] Arguments save : simpl never.
#[local] Arguments junked : simpl never.
#[local] Arguments rg : simpl never.
#[local] Arguments wd : simpl never.
#[local] Arguments reg : simpl never.
#[local] Arguments returned : simpl never.
#[local] Arguments trapped : simpl never.
#[local] Arguments mie : simpl never.
#[local] Arguments mpie : simpl never.

(** Registers with literal numbers, evaluated. *)
Ltac rg_eval :=
  repeat first [rewrite rg_insert | rewrite rg_load];
  repeat match goal with
  | |- context [bool_decide (?n ∈ ?l)] => let b := eval vm_compute in (bool_decide (n ∈ l)) in
      lazymatch b with true => idtac | false => idtac end; change (bool_decide (n ∈ l)) with b
  | |- context [(?a =? ?b)%nat] => let v := eval vm_compute in (a =? b)%nat in
      lazymatch v with true => idtac | false => idtac end; change (a =? b)%nat with v
  end; cbv iota.

Lemma held_not_sp v n : n ∈ held v -> (n =? sp)%nat = false.
Proof.
  intros Hn. apply Nat.eqb_neq. intros ->. revert Hn. unfold held. destruct (full v); intros Hn; apply (bool_decide_eq_true_2 _) in Hn; vm_compute in Hn; discriminate.
Qed.

Lemma not_in_eqb (n k : nat) (l : list nat) : n ∈ l -> bool_decide (k ∈ l) = false -> (n =? k)%nat = false.
Proof. intros Hn Hk. apply bool_decide_eq_false in Hk. apply Nat.eqb_neq. intros ->. auto. Qed.

Lemma wp_load_regs b l Q s : Q tt (set_x (load (rg (x s) b) l (mem s) (x s)) s) -> wp (load_regs b l) Q s.
Proof. auto. Qed.

Lemma wp_addi_sp n Q s : Q tt (set_x (<[sp := u32 (rg (x s) sp + n)]> (x s)) s) -> wp (addi_sp n) Q s.
Proof. auto. Qed.

(** What a load and the step past the frame leave. *)
Lemma popped s f v : framed (mem s) f v -> rg (x s) sp = f -> 0 <= f -> f + 128 < 2 ^ 32 ->
  let X := load f (held v) (mem s) (x s) in let Y := <[sp := u32 (rg X sp + frame_bytes)]> X in
  rg Y sp = rg (vx v) sp /\ (forall n, n ∈ held v -> rg Y n = rg (vx v) n) /\ (full v = false -> rg Y gp = rg (x s) gp).
Proof.
  intros [_ _ _ Hr Hs] Es H0 Hle X Y. unfold Y, X.
  assert (E : rg (load f (held v) (mem s) (x s)) sp = f) by (rewrite rg_load, bool_decide_eq_false_2; [exact Es | intros Hn; apply held_not_sp in Hn; discriminate]).
  rewrite E. split; [| split].
  - rewrite rg_insert, Nat.eqb_refl, u32_id by (change frame_bytes with 128; lia). rewrite Hs. reflexivity.
  - intros n Hn. rewrite rg_insert, (held_not_sp v) by exact Hn. rewrite rg_load, bool_decide_eq_true_2 by exact Hn. apply Hr, Hn.
  - intros Ef. unfold held. rewrite Ef. rg_eval. reflexivity.
Qed.

Lemma exit_resumes s f v : rg (x s) a0 = f -> framed (mem s) f v -> 0 <= f -> f + 128 < 2 ^ 32 ->
  wp cyros_port_trap_exit (fun _ s' => resumes v s' /\ rest s' = rest s /\ (full v = false -> rg (x s') gp = rg (x s) gp)) s.
Proof.
  intros Ef [Hpc Hev Hk Hr Hs] H0 Hle. unfold cyros_port_trap_exit. apply wp_bind, wp_get. change (reg a0 s) with (rg (x s) a0). rewrite Ef.
  apply wp_bind, wp_modify, wp_bind, wp_get. change (word f _) with (wd (mem s) f). rewrite Hpc.
  apply wp_bind, wp_modify, wp_bind, wp_modify. unfold held in Hr. destruct (full v) eqn:Efull.
  - rewrite even_land by exact Hev. change (0 =? 0) with true. cbv iota.
    apply wp_bind, wp_modify, wp_bind, wp_get. change (word (f + 8) _) with (wd (mem s) (f + 8)).
    apply wp_bind, wp_modify, wp_bind, wp_modify, wp_bind, wp_load_regs, wp_bind, wp_addi_sp, wp_modify.
    set (s1 := set_mstatus (wd (mem s) (f + 8)) _).
    destruct (popped s1 f v) as (P1 & P2 & P3); [split; auto; unfold held; rewrite Efull; auto | cbn; rg_eval; reflexivity | exact H0 | exact Hle |].
    unfold held in P1, P2. rewrite Efull in P1, P2. assert (E : rg (x s1) sp = f) by (cbn; rg_eval; reflexivity). rewrite E. cbn [x set_x mem].
    split; [split; cbn; auto | split; [reflexivity | congruence]].
    + apply mie_returned, Hk.
    + unfold held. rewrite Efull. exact P2.
  - rewrite marked_land. change (1 =? 0) with false. cbv iota.
    apply wp_bind, wp_load_regs, wp_bind, wp_addi_sp, wp_bind, wp_modify, wp_bind, wp_modify, wp_bind, wp_modify, wp_modify.
    match goal with |- context [load _ _ _ (x ?s')] => set (s1 := s') end.
    destruct (popped s1 f v) as (P1 & P2 & P3); [split; auto; unfold held; rewrite Efull; auto | cbn; rg_eval; reflexivity | exact H0 | exact Hle |].
    unfold held in P1, P2, P3. rewrite Efull in P1, P2, P3. assert (E : rg (x s1) sp = f) by (cbn; rg_eval; reflexivity). rewrite E. cbn [x set_x mem].
    split; [split; cbn; auto | split; [reflexivity |]].
    + apply unmarked, Hev.
    + apply mie_returned, mpie_is_set.
    + rewrite rg_insert. exact P1.
    + intros n Hn. unfold held in Hn. rewrite Efull in Hn. rewrite rg_insert, (not_in_eqb n 6 call_kept) by (auto || reflexivity). apply P2, Hn.
    + intros _. cbn. rewrite rg_insert. etransitivity; [apply P3; reflexivity |]. cbn. rg_eval. reflexivity.
Qed.

(** A direct switch's return does the same. *)
Lemma switch_return_resumes s f v : framed (mem s) f v -> full v = false -> rg (x s) 5 = wd (mem s) f -> 0 <= f -> f + 128 < 2 ^ 32 ->
  wp (switch_return f) (fun _ s' => resumes v s' /\ rest s' = rest s /\ rg (x s') gp = rg (x s) gp) s.
Proof.
  intros Hf Efull E5 H0 Hle. pose proof Hf as [Hpc Hev _ _ _]. rewrite Efull in Hpc.
  unfold switch_return. apply wp_bind, wp_modify, wp_bind, wp_load_regs, wp_bind, wp_get, wp_bind, wp_modify, wp_bind, wp_addi_sp, wp_bind, wp_modify, wp_bind, wp_get, wp_modify.
  match goal with |- context [load _ _ _ (x ?s')] => set (s1 := s') end.
  destruct (popped s1 f v) as (P1 & P2 & P3); [exact Hf | cbn; rg_eval; reflexivity | exact H0 | exact Hle |].
  unfold held in P1, P2, P3. rewrite Efull in P1, P2, P3. assert (E : rg (x s1) sp = f) by (cbn; rg_eval; reflexivity). rewrite E in *.
  assert (E5' : reg 5 (set_x (load f call_kept (mem s1) (x s1)) s1) = Z.lor (vpc v) 1).
  { change (rg (load f call_kept (mem s1) (x s1)) 5 = Z.lor (vpc v) 1). rg_eval. cbn. rg_eval. congruence. }
  rewrite E5'. cbn [x set_x mem set_mem pc set_pc mstatus set_mstatus].
  set (L := load f call_kept (mem s1) (x s1)) in *. set (r := Z.ldiff (Z.lor (vpc v) 1) 1).
  assert (Esp : rg (<[ra := r]> L) sp = rg L sp) by (rewrite rg_insert; reflexivity).
  change (rg (x (set_x (<[ra := r]> L) (set_x L s1))) sp) with (rg (<[ra := r]> L) sp). rewrite Esp.
  set (y := u32 (rg L sp + frame_bytes)) in *.
  assert (Ev : forall n, n ∈ gp :: sp :: call_kept -> rg (<[sp := y]> (<[ra := r]> L)) n = rg (<[sp := y]> L) n).
  { intros n Hn. rewrite !rg_insert. rewrite (not_in_eqb n ra _ Hn) by reflexivity. reflexivity. }
  match goal with |- context [reg ra ?s'] => assert (Er : reg ra s' = vpc v) end.
  { transitivity r; [| apply unmarked, Hev]. unfold reg. cbn. change (rg (<[sp := y]> (<[ra := r]> L)) ra = r). rewrite !rg_insert. reflexivity. }
  rewrite Er. split; [split | split; [reflexivity |]].
  - reflexivity.
  - apply mie_is_set.
  - etransitivity; [apply (Ev sp); right; left | exact P1].
  - intros n Hn. unfold held in Hn. rewrite Efull in Hn. etransitivity; [apply (Ev n); right; right; exact Hn | apply P2, Hn].
  - etransitivity; [apply (Ev gp); left |]. etransitivity; [apply P3; reflexivity |]. cbn. rg_eval. reflexivity.
Qed.

(** ** The entries *)

(** What stays of the hart while registers and memory change. *)
Definition quiet (s : hart) := (pmpaddr0 s, msie s, msip s, contexts s, core s, running s, asked s).

Definition outside (f a : Z) : Prop := a < f \/ f + 128 <= a.

Record trap_saved (f : Z) (s s' : hart) : Prop := {
  ts_pc : wd (mem s') f = mepc s;
  ts_mstatus : wd (mem s') (f + 8) = mstatus s;
  ts_words n : n ∈ clobbered -> wd (mem s') (f + 4 * Z.of_nat n) = rg (x s) n;
  ts_out a : outside f a -> wd (mem s') a = wd (mem s) a;
  ts_a0 : rg (x s') a0 = f;
  ts_a1 : rg (x s') 11 = mcause s;
  ts_kept n : n ∈ kept -> rg (x s') n = rg (x s) n;
  ts_mscratch : mscratch s' = 0;
  ts_quiet : quiet s' = quiet s
}.

Lemma clobbered_words n : n ∈ clobbered -> (n < 32)%nat /\ n <> 0%nat /\ n <> 2%nat.
Proof. intros Hn. repeat (apply elem_of_cons in Hn as [-> | Hn]; [lia |]). inversion Hn. Qed.

Lemma kept_words n : n ∈ kept -> (n < 32)%nat /\ n <> 0%nat /\ n <> 2%nat /\ ~ n ∈ clobbered.
Proof. intros Hn. repeat (apply elem_of_cons in Hn as [-> | Hn]; [refine (conj _ (conj _ (conj _ (proj1 (bool_decide_eq_false _) _)))); [lia | lia | lia | reflexivity] |]). inversion Hn. Qed.

Lemma call_kept_kept n : n ∈ call_kept -> n ∈ kept.
Proof. intros Hn. right. exact Hn. Qed.

Lemma wp_store_regs b l Q s : Q tt (set_mem (save (rg (x s) b) l (x s) (mem s)) s) -> wp (store_regs b l) Q s.
Proof. auto. Qed.

Lemma trap_save_spec s f : rg (x s) sp = f + 128 -> 0 <= f -> f + 128 < 2 ^ 32 -> wp trap_save (fun _ s' => trap_saved f s s') s.
Proof.
  intros Es H0 Hle. unfold trap_save, to_interrupt_stack.
  apply wp_bind, wp_addi_sp. rewrite Es, u32_id by (change frame_bytes with 128; lia). replace (f + 128 + - frame_bytes) with f by (change frame_bytes with 128; lia).
  apply wp_bind, wp_store_regs, wp_bind, wp_get. cbn [x set_x mem set_mem]. rewrite rg_insert, Nat.eqb_refl.
  match goal with |- context [reg sp ?s'] => change (reg sp s') with (rg (<[sp := f]> (x s)) sp) end. rewrite rg_insert, Nat.eqb_refl.
  apply wp_bind, wp_get, wp_bind, wp_modify, wp_bind, wp_get, wp_bind, wp_modify, wp_bind, wp_modify, wp_bind, wp_modify, wp_bind, wp_get, wp_bind, wp_modify.
  apply wp_bind, wp_get, wp_bind, wp_modify, wp_bind, wp_get, wp_bind, wp_modify, wp_modify.
  match goal with |- context [if _ =? 0 then ?a else ?b] => set (top := if _ =? 0 then a else b) end.
  split; cbn -[top]; try reflexivity.
  - rewrite !wd_insert, Z.eqb_refl, (proj2 (Z.eqb_neq f (f + 8))) by lia. reflexivity.
  - rewrite !wd_insert, Z.eqb_refl. reflexivity.
  - intros n Hn. destruct (clobbered_words n Hn) as (? & ? & ?). rewrite !wd_insert, !(proj2 (Z.eqb_neq _ _)) by lia.
    rewrite wd_save, bool_decide_eq_true_2 by exact Hn. rewrite rg_insert, (proj2 (Nat.eqb_neq _ _)) by (unfold sp; lia). reflexivity.
  - intros a Ha. unfold outside in Ha. rewrite !wd_insert, !(proj2 (Z.eqb_neq _ _)) by lia. apply wd_save_out; [| exact Ha]. intros n Hn. apply clobbered_words, Hn.
  - rg_eval. reflexivity.
  - rg_eval. reflexivity.
  - intros n Hn. rewrite !rg_insert, !(not_in_eqb n _ _ Hn) by reflexivity. reflexivity.
Qed.

Record call_saved (kind f : Z) (s s' : hart) : Prop := {
  cs_pc : wd (mem s') f = Z.lor (rg (x s) ra) 1;
  cs_kind : wd (mem s') (f + 8) = kind;
  cs_words n : n ∈ call_kept -> wd (mem s') (f + 4 * Z.of_nat n) = rg (x s) n;
  cs_out a : outside f a -> wd (mem s') a = wd (mem s) a;
  cs_sp : rg (x s') sp = f;
  cs_kept n : n ∈ kept -> rg (x s') n = rg (x s) n;
  cs_mstatus : mstatus s' = mstatus s;
  cs_mscratch : mscratch s' = mscratch s;
  cs_quiet : quiet s' = quiet s
}.

Lemma call_save_spec kind s f : rg (x s) sp = f + 128 -> 0 <= f -> f + 128 < 2 ^ 32 -> wp (call_save kind) (fun _ s' => call_saved kind f s s') s.
Proof.
  intros Es H0 Hle. unfold call_save.
  apply wp_bind, wp_addi_sp. rewrite Es, u32_id by (change frame_bytes with 128; lia). replace (f + 128 + - frame_bytes) with f by (change frame_bytes with 128; lia).
  apply wp_bind, wp_get. match goal with |- context [reg sp ?s'] => change (reg sp s') with (rg (<[sp := f]> (x s)) sp) end. rewrite rg_insert, Nat.eqb_refl.
  apply wp_bind, wp_get. match goal with |- context [reg ra ?s'] => change (reg ra s') with (rg (<[sp := f]> (x s)) ra) end. rewrite rg_insert. change (ra =? sp)%nat with false. cbv iota.
  apply wp_bind, wp_modify, wp_bind, wp_modify, wp_bind, wp_modify, wp_store_regs. cbn [x set_x mem set_mem].
  set (t0 := if kind =? 0 then _ else _). rewrite !rg_insert. change (sp =? 5)%nat with false. rewrite Nat.eqb_refl. cbv iota.
  assert (Hn5 : forall n, n ∈ kept -> rg (<[5%nat := t0]> (<[sp := f]> (x s))) n = rg (x s) n).
  { intros n Hn. rewrite !rg_insert, !(not_in_eqb n _ _ Hn) by reflexivity. reflexivity. }
  assert (Hout : forall a, wd (save f call_kept (<[5%nat := t0]> (<[sp := f]> (x s))) (<[f + 8 := kind]> (<[f := Z.lor (rg (x s) ra) 1]> (mem s)))) (f + 4 * Z.of_nat a)
    = if bool_decide (a ∈ call_kept) then rg (x s) a else wd (<[f + 8 := kind]> (<[f := Z.lor (rg (x s) ra) 1]> (mem s))) (f + 4 * Z.of_nat a)).
  { intros n. rewrite wd_save. case_bool_decide as Hn; [apply Hn5, call_kept_kept, Hn | reflexivity]. }
  split; cbn [mem set_mem x set_x]; try reflexivity.
  - specialize (Hout 0%nat). rewrite Z.mul_0_r, Z.add_0_r in Hout. rewrite Hout. cbn.
    rewrite !wd_insert, Z.eqb_refl, (proj2 (Z.eqb_neq f (f + 8))) by lia. reflexivity.
  - specialize (Hout 2%nat). change (4 * Z.of_nat 2) with 8 in Hout. rewrite Hout. cbn. rewrite !wd_insert, Z.eqb_refl. reflexivity.
  - intros n Hn. rewrite Hout, bool_decide_eq_true_2 by exact Hn. reflexivity.
  - intros a Ha. rewrite wd_save_out; [| intros n Hn; apply kept_words, call_kept_kept, Hn | exact Ha]. unfold outside in Ha.
    rewrite !wd_insert, !(proj2 (Z.eqb_neq _ _)) by lia. reflexivity.
  - rg_eval. reflexivity.
  - exact Hn5.
Qed.

(** ** The C between them *)
Section c.
Context (guarded : bool).

(** Every context leads somewhere, and is guarded where threads are. *)
Definition contexts_ok (h : gmap nat context) : Prop :=
  forall t c, h !! t = Some c -> frame c <> 0 /\ (guard c =? 0) = negb guarded.

Definition guard_on (t : nat) (s : hart) : Prop := guarded = true -> forall c, contexts s !! t = Some c -> pmpaddr0 s = guard c.

(** The hart has turned from [t], suspended with its frame at [f], to [u], whose
    frame is at [r]. *)
Record switched (t : nat) (f : Z) (u : nat) (s : hart) (r : Z) (s' : hart) : Prop := {
  sw_x : x s' = x s;
  sw_mem : mem s' = mem s;
  sw_msie : msie s' = msie s;
  sw_running : running s' = u;
  sw_result : if decide (u = t) then r = f else forall c, contexts s !! u = Some c -> r = frame c;
  sw_frame : u <> t -> forall c, contexts s' !! t = Some c -> frame c = f;
  sw_others v : v <> t -> contexts s' !! v = contexts s !! v;
  sw_defined : is_Some (contexts s' !! t);
  sw_contexts : contexts_ok (contexts s');
  sw_core : core s' = CoreState (cs_frame (core s')) (interrupt_stack_top (core s)) 0 0 (owed_from (core s')) None;
  sw_mscratch : mscratch s' = interrupt_stack_top (core s);
  sw_asked : asked s' = true -> msip s' = true;
  sw_guard : guard_on u s'
}.

Lemma alter_frame_others (h : gmap nat context) t f v : v <> t -> alter (fun k => Context f (guard k)) t h !! v = h !! v.
Proof. intros Hne. apply lookup_alter_ne. auto. Qed.

Lemma alter_frame_ok (h : gmap nat context) t f : contexts_ok h -> f <> 0 -> contexts_ok (alter (fun k => Context f (guard k)) t h).
Proof.
  intros Hh Hf v c. destruct (decide (v = t)) as [-> | Hne].
  - rewrite lookup_alter_eq. destruct (h !! t) as [c0 |] eqn:E; cbn; [| discriminate]. intros [= <-]. split; [exact Hf | apply (Hh t c0 E)].
  - rewrite alter_frame_others by exact Hne. apply Hh.
Qed.

Lemma get_context_ok t c Q s : contexts s !! t = Some c -> Q c s -> wp (get_context t) Q s.
Proof. unfold wp, get_context. intros ->. auto. Qed.

Lemma modify_context_ok t f (Q : unit -> hart -> Prop) s : is_Some (contexts s !! t) -> Q tt (set_contexts (alter f t (contexts s)) s) -> wp (modify_context t f) Q s.
Proof. intros [c E] HQ. apply wp_bind, (get_context_ok t c); [exact E |]. apply wp_modify, HQ. Qed.

Lemma switch_spec t u (Q : unit -> hart -> Prop) s cu : trap_depth (core s) = 1 -> is_Some (contexts s !! t) -> contexts s !! u = Some cu -> frame cu <> 0 -> u <> t ->
  Q tt (let s := set_contexts (alter (fun k => Context (cs_frame (core s)) (guard k)) t (contexts s)) s in
        let s := set_core (set_cs_frame (frame cu) (core s)) s in if guarded then set_pmpaddr0 (guard cu) s else s) ->
  wp (cyros_port_switch guarded (Some t) u) Q s.
Proof.
  intros Hd Ht Hu Hf Hne HQ. unfold cyros_port_switch. apply wp_bind, wp_get, wp_bind, wp_ensure; [apply Z.eqb_eq, Hd |].
  apply wp_bind, (get_context_ok u cu); [exact Hu |]. apply wp_bind, wp_ensure; [apply negb_true_iff, Z.eqb_neq, Hf |].
  apply wp_bind, modify_context_ok; [exact Ht |]. apply wp_bind, wp_modify. destruct guarded; apply wp_modify || apply wp_ret; exact HQ.
Qed.

Lemma reschedule_spec t f u again s : running s = t -> is_Some (contexts s !! t) -> is_Some (contexts s !! u) -> f <> 0 -> contexts_ok (contexts s) ->
  guard_on t s -> owed_to (core s) = None ->
  wp (reschedule_from guarded f u again) (fun r s' => switched t f u s r s' /\
    contexts s' = if decide (u = t) then contexts s else alter (fun k => Context f (guard k)) t (contexts s)) s.
Proof.
  intros Hr Ht [cu Hu] Hf Hok Hg Ho. unfold reschedule_from, run_reschedule, soft_irq_raise, upd_core.
  apply wp_bind, wp_modify, wp_bind, wp_modify, wp_bind, wp_modify, wp_bind, wp_bind, wp_get, wp_bind, wp_ensure; [reflexivity |].
  apply wp_bind, wp_get. cbn [running set_core]. rewrite Hr. apply wp_bind, wp_modify, wp_bind.
  assert (Hq : forall Q : unit -> hart -> Prop, (forall s1, core s1 = CoreState f (interrupt_stack_top (core s)) 1 1 (owed_from (core s)) None ->
      x s1 = x s -> mem s1 = mem s -> msie s1 = msie s -> running s1 = u -> contexts s1 = contexts s -> pmpaddr0 s1 = pmpaddr0 s ->
      (asked s1 = true -> msip s1 = true) -> Q tt s1) ->
    wp (if again then kmodify (fun s0 => set_asked true (set_msip true s0)) else kret tt) Q
      (set_asked false (set_running u (set_core (set_cs_frame f (set_in_reschedule 1 (set_trap_depth 1 (core s)))) s)))).
  { intros Q HQ. destruct again; [apply wp_modify | apply wp_ret]; apply HQ; cbn; unfold set_cs_frame, set_in_reschedule, set_trap_depth; cbn; rewrite ?Ho; auto; discriminate. }
  apply Hq. clear Hq. intros s1 Ec Ex Em Ei Er Eh Ep Ea. destruct (Nat.eqb_spec u t) as [-> | Hne].
  - apply wp_ret, wp_bind, wp_modify, wp_bind, wp_modify, wp_bind, wp_get, wp_bind, wp_modify, wp_ret. cbn. rewrite Ec. cbn.
    split; [| rewrite decide_True by reflexivity; exact Eh]. split; cbn; auto; try congruence; rewrite ?Eh; auto.
    + rewrite decide_True by reflexivity. reflexivity.
    + intros Hg' c E. cbn in E |- *. rewrite Eh in E. rewrite Ep. apply Hg; assumption.
  - apply (switch_spec t u _ s1 cu); [rewrite Ec; reflexivity | rewrite Eh; exact Ht | rewrite Eh; exact Hu | apply (Hok u cu Hu) | exact Hne |].
    set (s2 := if guarded then _ else _).
    assert (E2 : core s2 = CoreState (frame cu) (interrupt_stack_top (core s)) 1 1 (owed_from (core s)) None /\ x s2 = x s1 /\ mem s2 = mem s1 /\ msie s2 = msie s1 /\ running s2 = u /\
                 contexts s2 = alter (fun k => Context f (guard k)) t (contexts s) /\ asked s2 = asked s1 /\ msip s2 = msip s1 /\ (guarded = true -> pmpaddr0 s2 = guard cu)).
    { unfold s2. destruct guarded; cbn; rewrite Ec, Eh; cbn; auto 10; repeat split; auto; discriminate. }
    destruct E2 as (F1 & F2 & F3 & F4 & F5 & F6 & F7 & F8 & F9).
    apply wp_bind, wp_modify, wp_bind, wp_modify, wp_bind, wp_get, wp_bind, wp_modify, wp_ret. cbn. rewrite F1. cbn.
    split; [| rewrite decide_False by exact Hne; exact F6]. split; cbn; try congruence; rewrite ?F6; auto.
    + rewrite decide_False by exact Hne. intros c Hc. congruence.
    + intros _ c. rewrite lookup_alter_eq. destruct (contexts s !! t); cbn; [| discriminate]. intros [= <-]. reflexivity.
    + intros v Hv. apply alter_frame_others, Hv.
    + rewrite lookup_alter_eq. destruct Ht as [c ->]. eexists. reflexivity.
    + apply alter_frame_ok; assumption.
    + rewrite F7, F8. exact Ea.
    + intros Hg' c. cbn. rewrite F6, alter_frame_others by exact Hne. intros Hc. rewrite F9 by exact Hg'. congruence.
Qed.

(** In an interrupt's handler: the thread it came in is [t], and what the kernel
    decided is owed. *)
Record deciding (t : nat) (s0 s : hart) : Prop := {
  de_same : (x s, mem s, msie s, contexts s, pmpaddr0 s, mcause s, mscratch s, mepc s, mstatus s) =
            (x s0, mem s0, msie s0, contexts s0, pmpaddr0 s0, mcause s0, mscratch s0, mepc s0, mstatus s0);
  de_depth : trap_depth (core s) = 1;
  de_in : in_reschedule (core s) = 0;
  de_top : interrupt_stack_top (core s) = interrupt_stack_top (core s0);
  de_owed : match owed_to (core s) with
            | None => running s = t
            | Some u => running s = u /\ owed_from (core s) = Some t /\ is_Some (contexts s !! u) /\ msie s = true
            end;
  de_asked : asked s = true -> msip s = true
}.

Lemma wake_spec t s0 s to : deciding t s0 s -> is_Some (contexts s0 !! to) -> wp (wake to) (fun _ s' => deciding t s0 s') s.
Proof.
  intros H [c Hc]. pose proof H as [Hs Hd Hi Htop Ho Ha]. unfold wake, cyros_port_interrupted_at_baseline.
  apply wp_bind, wp_bind, wp_get, wp_bind, wp_get, wp_bind, wp_get, wp_ret, wp_bind, wp_get.
  destruct (_ && negb (to =? running s)%nat) eqn:E; [| apply wp_ret; exact H].
  apply andb_true_iff in E as [Eb En]. apply andb_true_iff in Eb as [_ Eg]. apply negb_true_iff, Nat.eqb_neq in En.
  assert (Eh : contexts s = contexts s0) by congruence. unfold cyros_port_owe_switch, upd_core.
  apply wp_bind, wp_bind, wp_get, wp_bind, wp_ensure; [apply Z.eqb_eq, Hd |]. apply wp_bind, (get_context_ok to c); [rewrite Eh; exact Hc |].
  apply wp_bind, wp_ensure; [apply negb_true_iff, Nat.eqb_neq, En |]. apply wp_bind. destruct (owed_to (core s)) as [u |] eqn:Eu.
  - destruct Ho as (Hr & Hf & Hu & Hm). apply wp_ret, wp_modify, wp_modify. split; cbn; auto. split_and!; auto. rewrite Eh, Hc. eauto.
  - apply wp_modify, wp_modify, wp_modify. split; cbn; auto. split_and!; auto; rewrite Eh, Hc; eauto.
Qed.

Lemma handler_spec t s0 ws rs : forall s, deciding t s0 s -> Forall (fun u => is_Some (contexts s0 !! u)) ws -> wp (handler ws rs) (fun _ s' => deciding t s0 s') s.
Proof.
  induction ws as [| w ws IH]; intros s H Hws; cbn [handler].
  - destruct rs; [apply wp_modify | apply wp_ret; exact H]. destruct H as [? ? ? ? ? ?]. split; auto.
  - apply Forall_cons in Hws as [Hw Hws]. apply wp_bind. eapply wp_mono; [apply (wake_spec t s0 s w H Hw) |]. intros [] s1 H1. apply IH; assumption.
Qed.

(** What an interrupt's dispatch leaves: what its exit must do, and everything
    else as it was. *)
Record dispatched (t : nat) (s0 : hart) (e : Z) (s : hart) : Prop := {
  di_same : (x s, mem s, msie s, contexts s, pmpaddr0 s, mepc s, mstatus s) = (x s0, mem s0, msie s0, contexts s0, pmpaddr0 s0, mepc s0, mstatus s0);
  di_core : trap_depth (core s) = 0 /\ in_reschedule (core s) = 0 /\ interrupt_stack_top (core s) = interrupt_stack_top (core s0);
  di_exit : e = 0 \/ e = 1 \/ e = 2 \/ e = 3;
  di_owed : if Z.land e 1 =? 0 then owed_to (core s) = None /\ running s = t
            else exists u, owed_to (core s) = Some u /\ running s = u /\ owed_from (core s) = Some t /\ is_Some (contexts s !! u);
  di_mscratch : e = 0 -> mscratch s = interrupt_stack_top (core s0);
  di_asked : Z.land e exit_reschedule = 0 -> asked s = true -> msip s = true
}.

Lemma interrupt_dispatch_spec t ws rs vis s : running s = t -> trap_depth (core s) = 0 -> in_reschedule (core s) = 0 -> owed_to (core s) = None ->
  (asked s = true -> msip s = true) -> Forall (fun u => is_Some (contexts s !! u)) ws ->
  wp (cyros_port_interrupt_dispatch ws rs vis) (fun e s' => dispatched t s e s') s.
Proof.
  intros Hr Hd Hi Ho Ha Hws. unfold cyros_port_interrupt_dispatch, upd_core. apply wp_bind, wp_modify, wp_bind.
  eapply wp_mono; [apply (handler_spec t s) |].
  - split; cbn; auto; [rewrite Hd; reflexivity | rewrite Ho; exact Hr].
  - exact Hws.
  - intros [] s1 [Hs1 Hd1 Hi1 Ht1 Ho1 Ha1]. injection Hs1 as Ex Em Eg Eh Ep _ _ Epc Est.
    unfold take_pended_reschedule. apply wp_bind, wp_bind, wp_get, wp_bind, wp_get.
    destruct (msip s1 && vis && msie s1) eqn:Et; [apply wp_bind, wp_modify, wp_ret | apply wp_ret]; apply wp_bind, wp_get; cbn [core set_msip];
      destruct (owed_to (core s1)) as [u |] eqn:Eu; cbv zeta;
      apply wp_bind, wp_modify, wp_bind; (apply wp_ret || (change (0 =? 0) with true; cbv iota; apply wp_modify)); apply wp_ret.
    all: match goal with |- dispatched _ _ ?e _ => let v := eval vm_compute in e in change e with v end.
    all: split; cbn; [congruence | rewrite Hd1; auto | auto | | try discriminate; auto | first [intros E; vm_compute in E; discriminate | auto]].
    + change (Z.land 3 1 =? 0) with false. destruct Ho1 as (? & ? & ? & _). eauto 10.
    + change (Z.land 2 1 =? 0) with true. cbv iota. auto.
    + change (Z.land 1 1 =? 0) with false. destruct Ho1 as (? & ? & ? & _). eauto 10.
    + change (Z.land 0 1 =? 0) with true. cbv iota. auto.
Qed.

(** A switch owed, then the reschedule if that was asked for too. *)
Lemma owed_dispatch_spec t f u e w again s : owed_to (core s) = Some u -> owed_from (core s) = Some t -> running s = u -> is_Some (contexts s !! t) ->
  is_Some (contexts s !! u) -> is_Some (contexts s !! w) -> f <> 0 -> contexts_ok (contexts s) -> trap_depth (core s) = 0 -> in_reschedule (core s) = 0 ->
  (Z.land e exit_reschedule = 0 -> asked s = true -> msip s = true) ->
  wp (cyros_port_owed_switch_dispatch guarded f e w again) (fun r s' => switched t f (if Z.land e exit_reschedule =? 0 then u else w) s r s') s.
Proof.
  intros Hto Hfrom Hr [ct Ht] [cu Hu] Hw Hf Hok Hd Hi Ha. unfold cyros_port_owed_switch_dispatch, upd_core.
  apply wp_bind, wp_get. rewrite Hto, Hfrom. apply wp_bind, wp_lift. cbn [nonnull ok]. apply wp_bind, wp_modify, wp_bind, wp_lift. cbn [nonnull ok].
  apply wp_bind, modify_context_ok; [cbn; rewrite Ht; eauto |]. set (h := alter (fun k => Context f (guard k)) t (contexts s)).
  assert (Hh : contexts_ok h) by (apply alter_frame_ok; assumption).
  assert (Hhu : exists cu', h !! u = Some cu' /\ guard cu' = guard cu /\ frame cu' = if decide (u = t) then f else frame cu).
  { unfold h. destruct (decide (u = t)) as [-> | Hne]; [rewrite lookup_alter_eq | rewrite alter_frame_others by exact Hne]; rewrite Hu; cbn; eauto. }
  destruct Hhu as (cu' & Hu' & Hgu & Hfu).
  apply wp_bind, (get_context_ok u cu'); [exact Hu' |]. apply wp_bind.
  set (s1 := set_contexts h (set_core (set_owed_to None (core s)) s)).
  assert (Hg : forall Q : unit -> hart -> Prop, (forall p, (guarded = true -> p = guard cu') -> Q tt (set_pmpaddr0 p s1)) ->
    wp (if guarded then kmodify (set_pmpaddr0 (guard cu')) else kret tt) Q s1).
  { intros Q HQ. destruct guarded; [apply wp_modify, HQ; auto | apply wp_ret]. specialize (HQ (pmpaddr0 s1) ltac:(discriminate)). exact HQ. }
  apply Hg. clear Hg. intros p Hp. assert (Hgd : guard_on u (set_pmpaddr0 p s1)) by (intros Hgu' c Hc; cbn in *; rewrite Hp by exact Hgu'; congruence).
  assert (Hoth : forall v, v <> t -> h !! v = contexts s !! v) by (intros v Hv; apply alter_frame_others, Hv).
  assert (Hdef : is_Some (h !! t)) by (unfold h; rewrite lookup_alter_eq, Ht; cbn; eauto).
  assert (Hft : forall c, h !! t = Some c -> frame c = f) by (intros c; unfold h; rewrite lookup_alter_eq, Ht; intros [= <-]; reflexivity).
  destruct (Z.eqb_spec (Z.land e exit_reschedule) 0) as [E | E]; cbn [negb].
  - apply wp_bind, wp_modify, wp_ret. split; cbn; auto.
    + destruct (decide (u = t)); [exact Hfu | intros c Hc; congruence].
    + unfold set_owed_to. rewrite Hd, Hi. reflexivity.
  - assert (Hwh : is_Some (h !! w)) by (destruct (decide (w = t)) as [-> | Hne]; [exact Hdef | rewrite Hoth by exact Hne; exact Hw]).
    eapply wp_mono; [apply (reschedule_spec u (frame cu') w again (set_pmpaddr0 p s1)); cbn; eauto; apply (Hh u cu' Hu') |].
    intros r s' [[W1 W2 W3 W4 W5 W6 W7 W8 W9 W10 W11 W12 W13] Wh]. cbn in *.
    assert (Hsame : forall v, contexts s' !! v = h !! v).
    { intros v. rewrite Wh. destruct (decide (w = u)); [reflexivity |]. destruct (decide (v = u)) as [-> | Hv]; [| apply alter_frame_others, Hv].
      rewrite lookup_alter_eq, Hu'. cbn. destruct cu'. reflexivity. }
    split; auto.
    + destruct (decide (w = t)) as [-> | Hwt].
      * destruct (decide (t = u)) as [<- | Htu]; [rewrite W5, Hfu, decide_True by reflexivity; reflexivity |].
        destruct Hdef as [c Hc]. rewrite (W5 c Hc). apply Hft, Hc.
      * intros c Hc. destruct (decide (w = u)) as [-> | Hwu]; [| apply W5; rewrite Hoth by exact Hwt; exact Hc].
        rewrite W5, Hfu, decide_False by exact Hwt. congruence.
    + intros _ c Hc. apply Hft. rewrite <- Hsame. exact Hc.
    + intros v Hv. rewrite Hsame. apply Hoth, Hv.
    + rewrite Hsame. exact Hdef.
Qed.
End c.

(** ** Threads on stacks of their own *)
Section threads.
Context (guarded : bool) (stack : nat -> Z * Z) (gp0 : Z).

Definition stacks_apart : Prop :=
  (forall t, 0 < (stack t).1 /\ (stack t).2 < 2 ^ 32) /\
  forall t u, t <> u -> (stack t).2 <= (stack u).1 \/ (stack u).2 <= (stack t).1.

Definition in_stack (t : nat) (f : Z) : Prop := (stack t).1 <= f /\ f + 128 <= (stack t).2.

(** A view a thread may be resumed with. *)
Definition based (v : view) : Prop := full v = true -> rg (vx v) gp = gp0.

(** Between the roads: nothing is in progress, and every thread but the running
    one is where its view says. *)
Record kept_state (V : nat -> view) (s : hart) : Prop := {
  ks_core : trap_depth (core s) = 0 /\ in_reschedule (core s) = 0 /\ owed_to (core s) = None;
  ks_mscratch : mscratch s = interrupt_stack_top (core s);
  ks_asked : asked s = true -> msip s = true;
  ks_gp : rg (x s) gp = gp0;
  ks_sp : in_stack (running s) (rg (x s) sp - 128);
  ks_pc : even (pc s);
  ks_running : is_Some (contexts s !! running s);
  ks_contexts : contexts_ok guarded (contexts s);
  ks_guard : guard_on guarded (running s) s;
  ks_frames t c : t <> running s -> contexts s !! t = Some c -> in_stack t (frame c) /\ framed (mem s) (frame c) (V t) /\ based (V t)
}.

Definition upd (V : nat -> view) (t : nat) (v : view) : nat -> view := fun n => if decide (n = t) then v else V n.

Lemma upd_eq V t v : upd V t v t = v.
Proof. unfold upd. rewrite decide_True by reflexivity. reflexivity. Qed.

Lemma upd_ne V t v u : u <> t -> upd V t v u = V u.
Proof. intros Hne. unfold upd. rewrite decide_False by exact Hne. reflexivity. Qed.

Lemma held_words v n : n ∈ held v -> (n < 32)%nat.
Proof. unfold held. destruct (full v); intros Hn; repeat (apply elem_of_cons in Hn as [-> | Hn]; [lia |]); inversion Hn. Qed.

Lemma framed_ext m m' f v : (forall a, f <= a < f + 128 -> wd m' a = wd m a) -> framed m f v -> framed m' f v.
Proof.
  intros E [H1 H2 H3 H4 H5]. split; auto.
  - rewrite E by lia. exact H1.
  - rewrite E by lia. exact H3.
  - intros n Hn. pose proof (held_words v n Hn). rewrite E by lia. auto.
Qed.

Context (Hst : stacks_apart).

Lemma in_stack_apart t u f r a : t <> u -> in_stack t f -> in_stack u r -> r <= a < r + 128 -> outside f a.
Proof. intros Hne [? ?] [? ?] Ha. destruct Hst as [_ Hs]. destruct (Hs t u Hne); unfold outside; lia. Qed.

Lemma in_stack_range t f : in_stack t f -> 0 < f /\ f + 128 < 2 ^ 32.
Proof. intros [? ?]. destruct Hst as [Hs _]. specialize (Hs t). lia. Qed.

(** [s'] goes on after [s] left its thread to be resumed with [v]. *)
Definition resumed (V : nat -> view) (s : hart) (v : view) (u : nat) (s' : hart) : Prop :=
  running s' = u /\ kept_state (upd V (running s) v) s' /\ resumes (upd V (running s) v u) s'.

Section turn.
Context (V : nat -> view) (s : hart) (f : Z) (v : view) (u : nat).
Context (Hk : kept_state V s) (Hf : in_stack (running s) f) (Hb : based v) (Hu : is_Some (contexts s !! u)).

(** The frame to resume, once the running thread's is whole. *)
Lemma turn_frame m sB r s2 : framed m f v -> (forall a, outside f a -> wd m a = wd (mem s) a) -> contexts sB = contexts s ->
  switched guarded (running s) f u sB r s2 ->
  in_stack u r /\ framed m r (upd V (running s) v u) /\ based (upd V (running s) v u).
Proof.
  intros Hm Ho Ec Hsw. pose proof (sw_result _ _ _ _ _ _ _ Hsw) as Hr. destruct (decide (u = running s)) as [-> | Hne].
  - subst r. rewrite upd_eq. auto.
  - destruct Hu as [c Hc]. rewrite Ec in Hr. rewrite (Hr c Hc), upd_ne by exact Hne. destruct (ks_frames _ _ Hk u c Hne Hc) as (Hi & Hfr & Hbu).
    split; [exact Hi |]. split; [| exact Hbu]. apply (framed_ext (mem s)); [| exact Hfr].
    intros a Ha. apply Ho, (in_stack_apart (running s) u f (frame c)); auto.
Qed.

Lemma turn_kept m sB r s2 s' : framed m f v -> (forall a, outside f a -> wd m a = wd (mem s) a) -> contexts sB = contexts s ->
  switched guarded (running s) f u sB r s2 -> mem s2 = m -> framed m r (upd V (running s) v u) -> in_stack u r ->
  resumes (upd V (running s) v u) s' -> rest s' = rest s2 -> rg (x s') gp = gp0 -> resumed V s v u s'.
Proof.
  intros Hm Ho Ec [_ _ _ Hrun _ Hown Hoth Hdef Hok Hcore Hms Has Hg] Em Hfr Hi Hre Er Hgp. injection Er as E1 E2 E3 E4 E5 E6 E7 E8 E9.
  pose proof Hre as [Hpc Hmie Hsp _]. split; [congruence |]. split; [| exact Hre]. split.
  - rewrite E7, Hcore. auto.
  - rewrite E1, E7, Hms, Hcore. reflexivity.
  - rewrite E9, E4. exact Has.
  - exact Hgp.
  - rewrite E8, Hrun, Hsp, (fr_sp _ _ _ Hfr). replace (r + 128 - 128) with r by lia. exact Hi.
  - rewrite Hpc. apply (fr_even _ _ _ Hfr).
  - rewrite E6, E8, Hrun. destruct (decide (u = running s)) as [-> | Hne]; [exact Hdef | rewrite Hoth, Ec by exact Hne; exact Hu].
  - rewrite E6. exact Hok.
  - intros Hgd c. rewrite E8, Hrun, E6, E2. apply Hg, Hgd.
  - intros t c Ht Hc. rewrite E8, Hrun in Ht. rewrite E6 in Hc. rewrite E5, Em. destruct (decide (t = running s)) as [-> | Hne].
    + rewrite (Hown ltac:(auto) c Hc), upd_eq. auto.
    + rewrite Hoth, Ec in Hc by exact Hne. rewrite upd_ne by exact Hne. destruct (ks_frames _ _ Hk t c Hne Hc) as (Hti & Htf & Htb).
      split; [exact Hti |]. split; [| exact Htb]. apply (framed_ext (mem s)); [| exact Htf]. intros a Ha. apply Ho, (in_stack_apart (running s) t f (frame c)); auto.
Qed.

(** A dispatch and the trap exit. *)
Lemma turn junk (F : M hart Z) sB : framed (mem sB) f v -> (forall a, outside f a -> wd (mem sB) a = wd (mem s) a) -> contexts sB = contexts s ->
  rg (x sB) gp = gp0 -> wp F (fun r s2 => switched guarded (running s) f u sB r s2) sB ->
  wp (let* f := c_call junk F in li a0 f ;;* cyros_port_trap_exit) (fun _ s' => resumed V s v u s') sB.
Proof.
  intros Hm Ho Ec Hgp HF. apply wp_bind, wp_c_call. eapply wp_mono; [exact HF |]. intros r s2 Hsw.
  destruct (turn_frame _ _ _ _ Hm Ho Ec Hsw) as (Hi & Hfr & Hbu). destruct (in_stack_range u r Hi).
  pose proof (sw_mem _ _ _ _ _ _ _ Hsw) as Em. pose proof (sw_x _ _ _ _ _ _ _ Hsw) as Ex.
  apply wp_bind, wp_modify. eapply wp_mono; [apply (exit_resumes _ r (upd V (running s) v u)) |].
  - cbn. rg_eval. reflexivity.
  - cbn. rewrite Em. exact Hfr.
  - lia.
  - assumption.
  - intros [] s' (Hre & Er & Eg). apply (turn_kept (mem sB) sB r s2 s' Hm Ho Ec Hsw Em Hfr Hi Hre Er).
    destruct (full (upd V (running s) v u)) eqn:Ef.
    + rewrite (re_regs _ _ Hre gp); [apply Hbu, Ef |]. unfold held. rewrite Ef. right; left.
    + rewrite Eg by reflexivity. cbn. rewrite rg_insert. change (gp =? a0)%nat with false. cbv iota. rewrite rg_junked, Ex by (apply (proj1 (bool_decide_eq_false _)); reflexivity). exact Hgp.
Qed.
End turn.

(** ** The roads *)

Lemma whole_halves n : n ∈ whole -> n ∈ clobbered \/ n ∈ kept.
Proof. intros Hn. repeat (apply elem_of_cons in Hn as [-> | Hn]; [first [left; apply (proj1 (bool_decide_eq_true _)); reflexivity | right; apply (proj1 (bool_decide_eq_true _)); reflexivity] |]). inversion Hn. Qed.

(** The interrupted thread's view, and its frame once the kept half is there. *)
Definition trap_view (s : hart) : view := View true (x s) (pc s).

Lemma whole_frame s0 sA f x' : trap_saved f s0 sA -> even (mepc s0) -> mpie (mstatus s0) = true -> rg (x s0) sp = f + 128 ->
  (forall n, n ∈ kept -> rg x' n = rg (x s0) n) ->
  framed (save f kept x' (mem sA)) f (View true (x s0) (mepc s0)) /\ forall a, outside f a -> wd (save f kept x' (mem sA)) a = wd (mem s0) a.
Proof.
  intros [Hpc Hst' Hw Hout _ _ _ _ _] He Hm Hs Hx. split; [split; cbn; auto |].
  - pose proof (wd_save f x' kept 0 (mem sA)) as E. rewrite Z.mul_0_r, Z.add_0_r in E. rewrite E. cbn. exact Hpc.
  - pose proof (wd_save f x' kept 2 (mem sA)) as E. change (4 * Z.of_nat 2) with 8 in E. rewrite E. cbn. rewrite Hst'. exact Hm.
  - intros n Hn. rewrite wd_save. case_bool_decide as Hk; [apply Hx, Hk |]. destruct (whole_halves n Hn) as [Hc | Hc]; [apply Hw, Hc | contradiction].
  - intros a Ha. rewrite wd_save_out; [apply Hout, Ha | intros n Hn; apply kept_words, Hn | exact Ha].
Qed.

(** An interrupt that asks for nothing resumes what it interrupted. *)
Lemma trap_return_resumes s0 sA sC f : trap_saved f s0 sA -> mpie (mstatus s0) = true -> rg (x s0) sp = f + 128 -> 0 <= f -> f + 128 < 2 ^ 32 ->
  mem sC = mem sA -> rg (x sC) a0 = f -> (forall n, n ∈ kept -> rg (x sC) n = rg (x s0) n) ->
  wp trap_return (fun _ s' => resumes (View true (x s0) (mepc s0)) s' /\ rest s' = rest sC) sC.
Proof.
  intros [Hpc Hst' Hw Hout _ _ _ _ _] Hm Hs H0 Hle Em Ea Hx. unfold trap_return. apply wp_bind, wp_get. change (reg a0 sC) with (rg (x sC) a0). rewrite Ea.
  apply wp_bind, wp_modify, wp_bind, wp_get. match goal with |- context [word f ?s'] => change (word f s') with (wd (mem sC) f) end. rewrite Em, Hpc.
  apply wp_bind, wp_modify, wp_bind, wp_get. match goal with |- context [word (f + 8) ?s'] => change (word (f + 8) s') with (wd (mem sC) (f + 8)) end. rewrite Em, Hst'.
  apply wp_bind, wp_modify, wp_bind, wp_modify, wp_bind, wp_load_regs, wp_bind, wp_addi_sp, wp_modify.
  match goal with |- context [load _ _ _ (x ?s')] => set (s1 := s') end.
  assert (E : rg (x s1) sp = f) by (cbn; rg_eval; reflexivity). rewrite E. cbn [x set_x mem].
  assert (Esp : rg (load f clobbered (mem s1) (x s1)) sp = f) by (rg_eval; exact E). rewrite Esp, u32_id by (change frame_bytes with 128; lia).
  split; [split; cbn; auto |].
  - apply mie_returned, Hm.
  - rewrite rg_insert, Nat.eqb_refl. change frame_bytes with 128. symmetry. exact Hs.
  - intros n Hn. rewrite rg_insert, (not_in_eqb n sp _ Hn) by reflexivity. rewrite rg_load. rewrite Em. case_bool_decide as Hc; [apply Hw, Hc |].
    destruct (whole_halves n Hn) as [Hc' | Hk]; [contradiction |]. rewrite !rg_insert, !(not_in_eqb n _ _ Hk) by reflexivity. apply Hx, Hk.
  - unfold rest. cbn. rewrite Em. reflexivity.
Qed.

Definition doing_ok (s : hart) (d : doing) : Prop := Forall (fun u => is_Some (contexts s !! u)) (wakes d) /\ is_Some (contexts s !! pick d).

Lemma soft_irq_dispatch_spec t f u again s : running s = t -> is_Some (contexts s !! t) -> is_Some (contexts s !! u) -> f <> 0 -> contexts_ok guarded (contexts s) ->
  guard_on guarded t s -> owed_to (core s) = None ->
  wp (cyros_port_soft_irq_dispatch guarded f u again) (fun r s' => switched guarded t f u s r s') s.
Proof.
  intros. apply wp_bind, wp_modify. eapply wp_mono; [apply (reschedule_spec guarded t f u again (set_msip false s)); auto |].
  intros r s' [[] _]. split; auto.
Qed.

Lemma soft_irq_entry V s d : kept_state V s -> mie (mstatus s) = true -> doing_ok s d ->
  wp (cyros_port_trap_entry guarded (mcause_interrupt + 3) d) (fun _ s' => resumed V s (trap_view s) (pick d) s') s.
Proof.
  intros Hk Hm [_ Hp]. pose proof (in_stack_range _ _ (ks_sp _ _ Hk)) as [H0 Hle]. set (f := rg (x s) sp - 128) in *.
  set (s0 := set_mstatus (trapped (mstatus s)) (set_mcause (mcause_interrupt + 3) (set_mepc (pc s) s))).
  unfold cyros_port_trap_entry. apply wp_bind, wp_modify, wp_bind. fold s0. eapply wp_mono; [apply (trap_save_spec s0 f); unfold f; cbn; lia |].
  intros [] sA Hs. pose proof Hs as [_ _ _ _ Ha Hc Hx _ Hq]. injection Hq as Q1 Q2 Q3 Q4 Q5 Q6 Q7.
  apply wp_bind, wp_get. change (reg a0 sA) with (rg (x sA) a0). rewrite Ha. apply wp_bind, wp_get. change (reg 11 sA) with (rg (x sA) 11). rewrite Hc.
  apply wp_bind, wp_modify. cbn [mcause s0 set_mstatus set_mcause]. rewrite Z.eqb_refl. apply wp_bind, wp_store_regs.
  match goal with |- context [save ?b kept ?x' ?m'] => assert (Eb : b = f); [cbn; rg_eval; exact Ha |]; rewrite Eb; set (x1 := x') end.
  assert (Hx1 : forall n, n ∈ kept -> rg x1 n = rg (x s0) n).
  { intros n Hn. unfold x1. cbn. rewrite rg_insert, (not_in_eqb n _ _ Hn) by reflexivity. apply Hx, Hn. }
  destruct (whole_frame s0 sA f x1 Hs (ks_pc _ _ Hk) (mpie_trapped _ Hm) ltac:(unfold f; cbn; lia) Hx1) as [Hfr Ho].
  apply (turn V s f (trap_view s) (pick d) Hk (ks_sp _ _ Hk)).
  - intros _. apply (ks_gp _ _ Hk).
  - exact Hp.
  - exact Hfr.
  - exact Ho.
  - cbn. congruence.
  - cbn. fold x1. rewrite Hx1 by (left; reflexivity). apply (ks_gp _ _ Hk).
  - destruct (ks_core _ _ Hk) as (K1 & K2 & K3). apply soft_irq_dispatch_spec; cbn; rewrite ?Q4, ?Q5, ?Q6; auto; try lia; try apply Hk.
    intros Hg c. cbn. rewrite Q4, Q1. apply (ks_guard _ _ Hk Hg).
Qed.

(** A return to the thread that was interrupted, nothing switched. *)
Lemma returned_kept V s s' v : kept_state V s -> resumes v s' -> full v = true -> vx v = x s -> vpc v = pc s ->
  (forall a, outside (rg (x s) sp - 128) a -> wd (mem s') a = wd (mem s) a) ->
  contexts s' = contexts s -> pmpaddr0 s' = pmpaddr0 s -> running s' = running s -> (asked s' = true -> msip s' = true) ->
  trap_depth (core s') = 0 /\ in_reschedule (core s') = 0 /\ owed_to (core s') = None -> mscratch s' = interrupt_stack_top (core s') ->
  resumed V s v (running s) s'.
Proof.
  intros Hk Hre Hf Hx Hpc Hm Ec Ep Er Ha Hcore Hms. split; [exact Er |]. split; [| rewrite upd_eq; exact Hre].
  pose proof Hre as [R1 R2 R3 R4]. split; rewrite ?Ec, ?Er; auto; try apply Hk.
  - rewrite (R4 gp) by (unfold held; rewrite Hf; right; left). rewrite Hx. apply (ks_gp _ _ Hk).
  - rewrite R3, Hx. apply (ks_sp _ _ Hk).
  - rewrite R1, Hpc. apply (ks_pc _ _ Hk).
  - intros Hg c. rewrite Ec, Ep. apply (ks_guard _ _ Hk Hg).
  - intros t c Ht Hc. rewrite upd_ne by exact Ht. destruct (ks_frames _ _ Hk t c Ht Hc) as (Hi & Hfr & Hbt). split; [exact Hi |]. split; [| exact Hbt].
    apply (framed_ext (mem s)); [| exact Hfr]. intros a Ha'. apply Hm, (in_stack_apart (running s) t _ (frame c)); auto. apply (ks_sp _ _ Hk).
Qed.

Lemma interrupt_entry V s cause d : kept_state V s -> mie (mstatus s) = true -> doing_ok s d -> cause <> mcause_interrupt + 3 ->
  wp (cyros_port_trap_entry guarded cause d) (fun _ s' => exists u, resumed V s (trap_view s) u s') s.
Proof.
  intros Hk Hm [Hws Hp] Hne. pose proof (in_stack_range _ _ (ks_sp _ _ Hk)) as [H0 Hle]. set (f := rg (x s) sp - 128) in *.
  set (s0 := set_mstatus (trapped (mstatus s)) (set_mcause cause (set_mepc (pc s) s))).
  unfold cyros_port_trap_entry. apply wp_bind, wp_modify, wp_bind. fold s0. eapply wp_mono; [apply (trap_save_spec s0 f); unfold f; cbn; lia |].
  intros [] sA Hs. pose proof Hs as [_ _ _ Hout Ha Hc Hx _ Hq]. injection Hq as Q1 Q2 Q3 Q4 Q5 Q6 Q7. cbn in Q1, Q2, Q3, Q4, Q5, Q6, Q7.
  apply wp_bind, wp_get. change (reg a0 sA) with (rg (x sA) a0). rewrite Ha. apply wp_bind, wp_get. change (reg 11 sA) with (rg (x sA) 11). rewrite Hc.
  apply wp_bind, wp_modify. cbn [mcause s0 set_mstatus set_mcause]. rewrite (proj2 (Z.eqb_neq _ _)) by exact Hne.
  destruct (ks_core _ _ Hk) as (K1 & K2 & K3). apply wp_bind, wp_c_call. eapply wp_mono.
  { apply (interrupt_dispatch_spec (running s) (wakes d) (raises d) (visible d)); cbn; rewrite ?Q2, ?Q3, ?Q4, ?Q5, ?Q6, ?Q7; auto. apply (ks_asked _ _ Hk). }
  intros e s1 [Hsame [D1 [D2 D3]] He Ho Hms Has]. cbn [x set_x mem msie contexts pmpaddr0 mepc mstatus core] in *. injection Hsame as Sx Sm Si Sh Sp _ _.
  apply wp_bind, wp_modify, wp_bind, wp_modify.
  match goal with |- wp _ _ ?s' => set (s2 := s') end.
  assert (Hx2 : forall n, n ∈ kept -> rg (x s2) n = rg (x s0) n).
  { intros n Hn. unfold s2. cbn. rewrite !rg_insert, !(not_in_eqb n _ _ Hn) by reflexivity. rewrite rg_junked by apply (kept_words n Hn).
    rewrite Sx, rg_insert, (not_in_eqb n _ _ Hn) by reflexivity. apply Hx, Hn. }
  assert (Ha2 : rg (x s2) a0 = f) by (unfold s2; cbn; rg_eval; reflexivity).
  assert (Em2 : mem s2 = mem sA) by exact Sm.
  assert (Hmp : mpie (mstatus s0) = true) by apply mpie_trapped, Hm.
  assert (Hsp0 : rg (x s0) sp = f + 128) by (unfold f; cbn; lia).
  destruct (Z.eqb_spec e 0) as [-> | Hee].
  - change (Z.land 0 1 =? 0) with true in Ho. cbv iota in Ho. destruct Ho as [Ho1 Ho2].
    eapply wp_mono; [apply (trap_return_resumes s0 sA s2 f Hs Hmp Hsp0 ltac:(lia) Hle Em2 Ha2 Hx2) |].
    intros [] s' (Hre & Er). injection Er as E1 E2 E3 E4 E5 E6 E7 E8 E9. cbn in E1, E2, E3, E4, E5, E6, E7, E8, E9. exists (running s).
    apply (returned_kept V s s' (trap_view s) Hk Hre eq_refl eq_refl eq_refl).
    + intros a Hoa. rewrite E5, Sm. apply Hout, Hoa.
    + congruence.
    + congruence.
    + congruence.
    + rewrite E9, E4. apply Has. reflexivity.
    + rewrite E7. auto.
    + rewrite E1, E7, Hms, D3 by reflexivity. reflexivity.
  - apply wp_bind, wp_store_regs, wp_bind, wp_modify. rewrite Ha2.
    destruct (whole_frame s0 sA f (x s2) Hs (ks_pc _ _ Hk) Hmp Hsp0 Hx2) as [Hfr Hoa]. rewrite <- Em2 in Hfr, Hoa.
    set (u := if Z.land e 1 =? 0 then pick d else if Z.land e exit_reschedule =? 0 then running s1 else pick d). eapply wp_mono; [| intros r s' Hres; exists u; exact Hres].
    assert (Hh : contexts s1 = contexts s) by congruence.
    assert (Hu : is_Some (contexts s !! u)).
    { unfold u. destruct (Z.land e 1 =? 0); [exact Hp |]. destruct (Z.land e exit_reschedule =? 0); [| exact Hp]. destruct Ho as (w & _ & -> & _ & Hw). rewrite <- Hh. exact Hw. }
    match goal with |- wp _ _ ?s' => set (s3 := s') end.
    apply (turn V s f (trap_view s) u Hk (ks_sp _ _ Hk) (fun _ => ks_gp _ _ Hk) Hu (junk' d)
             (if Z.land e 1 =? 0 then cyros_port_reschedule_dispatch guarded f (pick d) (again d) else cyros_port_owed_switch_dispatch guarded f e (pick d) (again d)) s3 Hfr Hoa Hh).
    + cbn. rewrite rg_insert. change (gp =? 5)%nat with false. cbv iota. rewrite Hx2 by (left; reflexivity). apply (ks_gp _ _ Hk).
    + unfold u. destruct (Z.land e 1 =? 0).
      * destruct Ho as [Ho1 Ho2]. eapply wp_mono; [apply (reschedule_spec guarded (running s) f (pick d) (again d) s3) | intros r s' [Hsw _]; exact Hsw]; cbn; rewrite ?Hh; auto; try apply Hk; try lia.
        intros Hg c. cbn. rewrite Hh, Sp, Q1. apply (ks_guard _ _ Hk Hg).
      * destruct Ho as (w & Ho1 & Ho2 & Ho3 & Hw). rewrite Ho2.
        apply (owed_dispatch_spec guarded (running s) f w e (pick d) (again d) s3); cbn; rewrite ?Hh in *; auto; try apply Hk; try lia.
Qed.

(** ** A call's frame, and the roads that leave one *)

Definition call_view (X : gmap nat Z) (ret : Z) : view := View false X ret.

Lemma call_frame kind f s0 sA X ret : call_saved kind f s0 sA -> kind = 0 \/ kind = 1 -> rg (x s0) ra = ret -> even ret -> rg (x s0) sp = f + 128 ->
  (forall n, n ∈ sp :: kept -> rg X n = rg (x s0) n) -> framed (mem sA) f (call_view X ret).
Proof.
  intros [C1 C2 C3 _ _ _ _ _ _] Hk Hr He Hs Hx. split; cbn.
  - rewrite C1, Hr. reflexivity.
  - exact He.
  - rewrite C2. exact Hk.
  - intros n Hn. rewrite C3 by exact Hn. symmetry. apply Hx. right. apply call_kept_kept, Hn.
  - rewrite Hx by left. exact Hs.
Qed.

Lemma kept_not_clobbered n : n ∈ kept -> ~ n ∈ clobbered.
Proof. intros Hn. apply (kept_words n Hn). Qed.

(** A yield, from its call. *)
Lemma yield_entry V s X ret d : kept_state V s -> doing_ok s d -> rg (x s) ra = ret -> even ret -> (forall n, n ∈ sp :: kept -> rg X n = rg (x s) n) ->
  wp (cyros_port_yield_entry guarded d) (fun _ s' => resumed V s (call_view X ret) (pick d) s') s.
Proof.
  intros Hk [_ Hp] Hr He Hx. pose proof (in_stack_range _ _ (ks_sp _ _ Hk)) as [H0 Hle]. set (f := rg (x s) sp - 128) in *.
  set (s0 := set_mstatus (Z.ldiff (mstatus s) mstatus_mie) s). assert (Hs0 : rg (x s0) sp = f + 128) by (unfold f; cbn; lia).
  unfold cyros_port_yield_entry. apply wp_bind, wp_modify, wp_bind. fold s0. eapply wp_mono; [apply (call_save_spec call_kind_yield s0 f); lia |].
  intros [] sA Hs. pose proof Hs as [_ _ _ Ho Hsp Hkp _ _ Hq]. injection Hq as Q1 Q2 Q3 Q4 Q5 Q6 Q7. cbn in Q1, Q2, Q3, Q4, Q5, Q6, Q7.
  apply wp_bind, wp_get. change (reg sp sA) with (rg (x sA) sp). rewrite Hsp. apply wp_bind, wp_modify. unfold to_interrupt_stack.
  apply wp_bind, wp_bind, wp_get, wp_bind, wp_modify, wp_bind, wp_get, wp_bind, wp_modify, wp_modify.
  match goal with |- wp _ _ ?s' => set (sB := s') end. destruct (ks_core _ _ Hk) as (K1 & K2 & K3).
  apply (turn V s f (call_view X ret) (pick d) Hk (ks_sp _ _ Hk)).
  - discriminate.
  - exact Hp.
  - apply (call_frame call_kind_yield f s0 sA X ret Hs); auto.
  - exact Ho.
  - exact Q4.
  - unfold sB. cbn. rewrite !rg_insert. change (gp =? sp)%nat with false. change (gp =? 5)%nat with false. change (gp =? a0)%nat with false. cbv iota.
    rewrite Hkp by (left; reflexivity). apply (ks_gp _ _ Hk).
  - eapply wp_mono; [apply (reschedule_spec guarded (running s) f (pick d) (again d) sB) | intros r s' [Hsw _]; exact Hsw]; cbn; rewrite ?Q4, ?Q5, ?Q6; auto; try apply Hk; try lia.
    intros Hg c. cbn. rewrite Q4, Q1. apply (ks_guard _ _ Hk Hg).
Qed.

(** A direct switch, with the kernel's decision made: [s0] before it. *)
Lemma direct_switch_resumes V s0 s X ret to : kept_state V s0 -> rest s = rest (set_running to s0) -> is_Some (contexts s0 !! to) ->
  rg (x s) ra = ret -> even ret -> (forall n, n ∈ sp :: kept -> rg (x s) n = rg (x s0) n /\ rg X n = rg (x s) n) ->
  wp (cyros_port_direct_switch (running s0) to) (fun _ s' => resumed V s0 (call_view X ret) to s') s.
Proof.
  intros Hk Hrest Hto Hr He Hx. pose proof (in_stack_range _ _ (ks_sp _ _ Hk)) as [H0 Hle]. set (f := rg (x s0) sp - 128) in *.
  injection Hrest as R1 R2 R3 R4 R5 R6 R7 R8 R9. cbn in R1, R2, R3, R4, R5, R6, R7, R8, R9.
  assert (Hs0 : rg (x s) sp = f + 128) by (rewrite (proj1 (Hx sp ltac:(left))); unfold f; lia).
  unfold cyros_port_direct_switch. apply wp_bind. eapply wp_mono; [apply (call_save_spec call_kind_switch s f); lia |].
  intros [] sA Hs. pose proof Hs as [_ _ _ Ho Hsp Hkp _ Hms Hq]. injection Hq as Q1 Q2 Q3 Q4 Q5 Q6 Q7.
  assert (Ec : contexts sA = contexts s0) by congruence.
  apply wp_bind, wp_get. change (reg sp sA) with (rg (x sA) sp). rewrite Hsp.
  apply wp_bind, modify_context_ok; [rewrite Ec; apply (ks_running _ _ Hk) |].
  set (h := alter (fun k => Context f (guard k)) (running s0) (contexts sA)). set (sB := set_contexts h sA).
  assert (Hh : contexts_ok guarded h) by (apply alter_frame_ok; [rewrite Ec; apply (ks_contexts _ _ Hk) | lia]).
  assert (Hto' : exists c, h !! to = Some c /\ if decide (to = running s0) then frame c = f else contexts s0 !! to = Some c).
  { unfold h. rewrite Ec. destruct (decide (to = running s0)) as [-> | Hne].
    - rewrite lookup_alter_eq. destruct (ks_running _ _ Hk) as [c ->]. cbn. eauto.
    - rewrite alter_frame_others by exact Hne. destruct Hto as [c Hc]. eauto. }
  destruct Hto' as (c & Hc & Hfc). destruct (Hh to c Hc) as [Hf0 Hgc].
  apply wp_bind, (get_context_ok to c); [exact Hc |]. apply wp_bind.
  assert (Hg : forall Q : unit -> hart -> Prop, (forall p, (guarded = true -> p = guard c) -> Q tt (set_pmpaddr0 p sB)) ->
    wp (if guard c =? 0 then kret tt else kmodify (set_pmpaddr0 (guard c))) Q sB).
  { intros Q HQ. rewrite Hgc. destruct guarded; cbn [negb]; [apply wp_modify, HQ; auto | apply wp_ret]. specialize (HQ (pmpaddr0 sB) ltac:(discriminate)). exact HQ. }
  apply Hg. clear Hg. intros p Hp. set (s2 := set_pmpaddr0 p sB).
  assert (Hfr : framed (mem sA) f (call_view X ret)).
  { apply (call_frame call_kind_switch f s sA X ret Hs); auto. intros n Hn. apply Hx, Hn. }
  assert (Hoa : forall a, outside f a -> wd (mem sA) a = wd (mem s0) a) by (intros a Ha; rewrite Ho by exact Ha; congruence).
  assert (Hsw : switched guarded (running s0) f to sA (frame c) s2).
  { destruct (ks_core _ _ Hk) as (K1 & K2 & K3). split; try reflexivity.
    - cbn. congruence.
    - destruct (decide (to = running s0)); [exact Hfc | intros c' Hc'; congruence].
    - intros _ c'. cbn. unfold h. rewrite lookup_alter_eq. destruct (contexts sA !! running s0); cbn; [| discriminate]. intros [= <-]. reflexivity.
    - intros v Hv. apply alter_frame_others, Hv.
    - cbn. unfold h. rewrite lookup_alter_eq, Ec. destruct (ks_running _ _ Hk) as [c' ->]. cbn. eauto.
    - exact Hh.
    - cbn. rewrite Q5, R7. destruct (core s0); cbn in *. congruence.
    - cbn. rewrite Hms, Q5, R7, R1. apply (ks_mscratch _ _ Hk).
    - cbn. rewrite Q7, R9, Q3, R4. apply (ks_asked _ _ Hk).
    - intros Hgd c'. cbn. intros Hc'. rewrite Hp by exact Hgd. congruence. }
  assert (Hgp : rg (x sA) gp = gp0).
  { rewrite Hkp by (left; reflexivity). rewrite (proj1 (Hx gp ltac:(right; left))). apply (ks_gp _ _ Hk). }
  assert (Hb : based (call_view X ret)) by discriminate.
  destruct (turn_frame V s0 f (call_view X ret) to Hk (ks_sp _ _ Hk) Hb Hto (mem sA) sA (frame c) s2 Hfr Hoa Ec Hsw) as (Hi & Hf2 & Hb2).
  destruct (in_stack_range to _ Hi) as [Hr0 Hrle]. set (v := upd V (running s0) (call_view X ret) to) in *.
  assert (Hend : forall s3 s', rest s3 = rest s2 -> resumes v s' -> rest s' = rest s3 -> (full v = false -> rg (x s') gp = rg (x s3) gp) -> rg (x s3) gp = gp0 ->
    resumed V s0 (call_view X ret) to s').
  { intros s3 s' E3 Hre E Eg E3g. apply (turn_kept V s0 f (call_view X ret) to Hk (ks_sp _ _ Hk) Hb Hto (mem sA) sA (frame c) s2 s'); auto; [congruence |].
    destruct (full v) eqn:Ef; [| rewrite Eg by reflexivity; exact E3g].
    rewrite (re_regs _ _ Hre gp); [apply Hb2, Ef |]. unfold held. rewrite Ef. right; left. }
  apply wp_bind, wp_modify, wp_bind, wp_get. match goal with |- context [word (frame c) ?s'] => change (word (frame c) s') with (wd (mem sA) (frame c)) end.
  apply wp_bind, wp_modify. pose proof (fr_pc _ _ _ Hf2) as Epc. pose proof (fr_kind _ _ _ Hf2) as Ekind.
  destruct (full v) eqn:Ef.
  - rewrite Epc, even_land by apply (fr_even _ _ _ Hf2). change (0 =? 0) with true. cbv iota. apply wp_bind, wp_modify.
    match goal with |- wp _ _ ?s' => set (s3 := s') end.
    eapply wp_mono; [apply (exit_resumes s3 (frame c) v); [unfold s3; cbn; rg_eval; reflexivity | exact Hf2 | lia | exact Hrle] |].
    intros [] s' (Hre & E & Eg). apply (Hend s3 s'); auto; [intros; congruence |]. unfold s3. cbn. rewrite !rg_insert. exact Hgp.
  - rewrite Epc, marked_land. change (1 =? 0) with false. cbv iota. apply wp_bind, wp_get.
    match goal with |- context [word (frame c + 8) ?s'] => change (word (frame c + 8) s') with (wd (mem sA) (frame c + 8)) end.
    apply wp_bind, wp_modify. match goal with |- wp _ _ ?s' => set (s3 := s') end.
    assert (Hgp3 : rg (x s3) gp = gp0) by (unfold s3; cbn; rewrite !rg_insert; exact Hgp).
    destruct Ekind as [-> | ->]; [change (0 =? 0) with true | change (1 =? 0) with false]; cbv iota.
    + eapply wp_mono; [apply (exit_resumes s3 (frame c) v); [unfold s3; cbn; rg_eval; reflexivity | exact Hf2 | lia | exact Hrle] |].
      intros [] s' (Hre & E & Eg). apply (Hend s3 s'); auto.
    + eapply wp_mono; [apply (switch_return_resumes s3 (frame c) v Hf2 Ef); [unfold s3; cbn; rg_eval; symmetry; exact Epc | lia | exact Hrle] |].
      intros [] s' (Hre & E & Eg). apply (Hend s3 s'); auto.
Qed.

(** ** The steps *)

(** What a thread may do, and what may come: it stays on its own stack and away
    from the others', and a trap comes only where it is let in. *)
Definition enabled (l : label) (s : hart) : Prop :=
  match l with
  | Compute regs p m =>
      even p /\ rg regs gp = gp0 /\ in_stack (running s) (rg regs sp - 128) /\
      forall t a, t <> running s -> (stack t).1 <= a < (stack t).2 -> wd m a = wd (mem s) a
  | SetMie _ | SetMsie _ | Ring => True
  | Pend ret d => even ret /\ (mie (mstatus s) && msie s = true -> doing_ok s d)
  | Yield ret d => even ret /\ doing_ok s d /\ mie (mstatus s) = true /\ msie s = true
  | Direct ret to => even ret /\ is_Some (contexts s !! to) /\ mie (mstatus s) = true /\ msie s = true
  | Interrupt _ d => doing_ok s d /\ mie (mstatus s) = true
  | SoftIrq d => doing_ok s d /\ mie (mstatus s) = true /\ msie s = true /\ msip s = true
  end.

(** Where the running thread is left, if it is. *)
Definition left_at (l : label) (s : hart) : option view :=
  match l with
  | Compute _ _ _ | SetMie _ | SetMsie _ | Ring => None
  | Pend ret _ => if mie (mstatus s) && msie s then Some (call_view (x s) ret) else None
  | Yield ret _ | Direct ret _ => Some (call_view (x s) ret)
  | Interrupt _ _ | SoftIrq _ => Some (trap_view s)
  end.

(** Which thread is resumed then: the kernel's pick, or in an interrupt what
    its handler left. *)
Definition goes_to (l : label) (u : nat) : Prop :=
  match l with
  | Pend _ d | Yield _ d | SoftIrq d => u = pick d
  | Direct _ to => u = to
  | _ => True
  end.

Definition follows (V : nat -> view) (s : hart) (l : label) (s' : hart) : Prop :=
  match left_at l s with
  | None => running s' = running s /\ kept_state V s'
  | Some v => exists u, goes_to l u /\ resumed V s v u s'
  end.

Lemma kept_same V s s' : kept_state V s -> trap_depth (core s') = 0 /\ in_reschedule (core s') = 0 /\ owed_to (core s') = None ->
  mscratch s' = interrupt_stack_top (core s') -> (asked s' = true -> msip s' = true) -> rg (x s') gp = gp0 -> in_stack (running s) (rg (x s') sp - 128) -> even (pc s') ->
  running s' = running s -> contexts s' = contexts s -> pmpaddr0 s' = pmpaddr0 s ->
  (forall t a, t <> running s -> (stack t).1 <= a < (stack t).2 -> wd (mem s') a = wd (mem s) a) -> kept_state V s'.
Proof.
  intros Hk H1 H2 H3 H4 H5 H6 Er Ec Ep Em. split; rewrite ?Er, ?Ec; auto; try apply Hk.
  - intros Hg c. rewrite Ec, Ep. apply (ks_guard _ _ Hk Hg).
  - intros t c Ht Hc. destruct (ks_frames _ _ Hk t c Ht Hc) as (Hi & Hf & Hb). split; [exact Hi |]. split; [| exact Hb].
    apply (framed_ext (mem s)); [| exact Hf]. intros a Ha. apply (Em t); [exact Ht |]. destruct Hi. lia.
Qed.

(** The register a call leaves its return address in. *)
Lemma kept_ra V s ret : kept_state V s -> kept_state V (set_x (<[ra := ret]> (x s)) s).
Proof.
  intros Hk. apply (kept_same V s); auto; try apply Hk; cbn; rewrite rg_insert; apply Hk.
Qed.

Lemma calling_regs s ret n : n ∈ sp :: kept -> rg (x s) n = rg (<[ra := ret]> (x s)) n.
Proof. intros Hn. rewrite rg_insert, (not_in_eqb n _ _ Hn) by reflexivity. reflexivity. Qed.

Lemma step_follows V s l : kept_state V s -> enabled l s -> wp (step guarded l) (fun _ s' => follows V s l s') s.
Proof.
  intros Hk He. unfold follows. destruct l as [regs p m | on | on | | ret d | ret d | ret to | ext d | d]; cbn [step left_at enabled goes_to] in *.
  - destruct He as (E1 & E2 & E3 & E4). apply wp_modify. split; [reflexivity |]. apply (kept_same V s); auto; apply Hk.
  - destruct on; apply wp_modify; (split; [reflexivity |]); apply (kept_same V s); auto; apply Hk.
  - apply wp_modify. split; [reflexivity |]. apply (kept_same V s); auto; apply Hk.
  - apply wp_modify. split; [reflexivity |]. apply (kept_same V s); auto; apply Hk.
  - destruct He as [He Hd]. apply wp_bind, wp_modify, wp_bind, wp_modify. unfold cyros_port_pend_reschedule. apply wp_bind, wp_get, wp_bind, wp_get.
    cbn [mstatus msie set_x set_pc]. destruct (mie (mstatus s) && msie s) eqn:E.
    + eapply wp_mono; [apply (yield_entry V _ (x s) ret d) | intros [] s' Hres; exists (pick d); split; [reflexivity | exact Hres]].
      * apply (kept_same V s); auto; try apply Hk; cbn; rewrite rg_insert; apply Hk.
      * apply Hd. reflexivity.
      * cbn. rewrite rg_insert. reflexivity.
      * exact He.
      * apply calling_regs.
    + apply wp_modify. split; [reflexivity |]. apply (kept_same V s); auto; try apply Hk; cbn; rewrite rg_insert; apply Hk.
  - destruct He as (He & Hd & Hm & Hi). apply wp_bind, wp_modify. unfold cyros_port_thread_yield. destruct (ks_core _ _ Hk) as (K1 & K2 & K3).
    apply wp_bind, wp_get, wp_bind, wp_ensure; [apply Z.eqb_eq; exact K1 |]. apply wp_bind, wp_get, wp_bind, wp_ensure; [exact Hm |].
    apply wp_bind, wp_get, wp_bind, wp_ensure; [exact Hi |].
    eapply wp_mono; [apply (yield_entry V _ (x s) ret d) | intros [] s' Hres; exists (pick d); split; [reflexivity | exact Hres]].
    + apply kept_ra, Hk.
    + exact Hd.
    + cbn. rewrite rg_insert. reflexivity.
    + exact He.
    + apply calling_regs.
  - destruct He as (He & Hto & Hm & Hi). unfold cyros_port_masked_from_baseline. apply wp_bind, wp_get, wp_bind, wp_modify, wp_bind, wp_bind, wp_get, wp_ret.
    apply wp_bind, wp_ensure; [rewrite Hm; exact Hi |]. apply wp_bind, wp_get, wp_bind, wp_modify, wp_bind, wp_modify.
    eapply wp_mono; [apply (direct_switch_resumes V s _ (x s) ret to) | intros [] s' Hres; exists to; split; [reflexivity | exact Hres]]; auto.
    + cbn. rewrite rg_insert. reflexivity.
    + intros n Hn. split; [symmetry |]; apply (calling_regs s ret n Hn).
  - destruct He as [Hd Hm]. eapply wp_mono; [apply (interrupt_entry V s _ d Hk Hm Hd); destruct ext; discriminate |]. intros [] s' [u Hres]. exists u. split; [exact I | exact Hres].
  - destruct He as (Hd & Hm & _ & _). eapply wp_mono; [apply (soft_irq_entry V s d Hk Hm Hd) |]. intros [] s' Hres. exists (pick d). split; [reflexivity | exact Hres].
Qed.

(** ** Runs *)

(** Where each thread is left, after some steps. *)
Definition leave (V : nat -> view) (s : hart) (l : label) : nat -> view :=
  match left_at l s with Some v => upd V (running s) v | None => V end.

Inductive ran : (nat -> view) -> hart -> list label -> (nat -> view) -> hart -> Prop :=
  | ran_none V s : ran V s [] V s
  | ran_step V s l s' ls W s'' : enabled l s -> step guarded l s = Ok (tt, s') -> ran (leave V s l) s' ls W s'' -> ran V s (l :: ls) W s''.

Lemma follows_kept V s l s' : follows V s l s' -> kept_state (leave V s l) s'.
Proof. unfold follows, leave. destruct (left_at l s); [intros (u & _ & _ & Hk & _) | intros [_ Hk]]; exact Hk. Qed.

Lemma ran_kept V s ls W s' : ran V s ls W s' -> kept_state V s -> kept_state W s'.
Proof.
  induction 1 as [| V s l s1 ls W s' He Hs Hr IH]; intros Hk; [exact Hk |]. apply IH.
  pose proof (step_follows V s l Hk He) as Hf. unfold wp in Hf. rewrite Hs in Hf. apply follows_kept, Hf.
Qed.

(** ** The start *)

(** Every thread suspended, as [cyros_port_context_init] leaves them. *)
Record prepared (V : nat -> view) (s : hart) : Prop := {
  pr_core : in_reschedule (core s) = 0 /\ owed_to (core s) = None;
  pr_asked : asked s = true -> msip s = true;
  pr_gp : rg (x s) gp = gp0;
  pr_contexts : contexts_ok guarded (contexts s);
  pr_frames t c : contexts s !! t = Some c -> in_stack t (frame c) /\ framed (mem s) (frame c) (V t) /\ based (V t)
}.

Lemma start_first_spec V s first here : prepared V s -> running s = first -> is_Some (contexts s !! first) ->
  wp (cyros_port_start_first guarded first here) (fun _ s' => running s' = first /\ kept_state V s' /\ resumes (V first) s') s.
Proof.
  intros [[P1 P2] P3 P4 P5 P6] Hr [c Hc]. destruct (P5 first c Hc) as [Hf0 _]. destruct (P6 first c Hc) as (Hi & Hf & Hb). destruct (in_stack_range _ _ Hi).
  unfold cyros_port_start_first, upd_core. apply wp_bind, (get_context_ok first c); [exact Hc |]. apply wp_bind, wp_ensure; [apply negb_true_iff, Z.eqb_neq, Hf0 |].
  apply wp_bind, wp_modify, wp_bind, wp_modify, wp_bind, wp_modify, wp_bind, wp_modify, wp_bind.
  assert (Hg : forall s1 (Q : unit -> hart -> Prop), (forall p, (guarded = true -> p = guard c) -> Q tt (set_pmpaddr0 p s1)) ->
    wp (if guarded then kmodify (set_pmpaddr0 (guard c)) else kret tt) Q s1).
  { intros s1 Q HQ. destruct guarded; [apply wp_modify, HQ; auto | apply wp_ret]. specialize (HQ (pmpaddr0 s1) ltac:(discriminate)). destruct s1. exact HQ. }
  apply Hg. intros p Hp. apply wp_bind, wp_modify. match goal with |- wp _ _ ?s' => set (s3 := s') end.
  eapply wp_mono; [apply (exit_resumes s3 (frame c) (V first)); [unfold s3; cbn; rg_eval; reflexivity | exact Hf | lia | assumption] |].
  intros [] s' (Hre & E & Eg). injection E as E1 E2 E3 E4 E5 E6 E7 E8 E9. cbn in E1, E2, E3, E4, E5, E6, E7, E8, E9.
  pose proof Hre as [R1 R2 R3 R4]. split; [congruence |]. split; [| exact Hre]. split; rewrite ?E8, ?E6, ?E7; cbn; auto.
  - rewrite E9, E4. exact P3.
  - destruct (full (V first)) eqn:Ef; [rewrite (R4 gp) by (unfold held; rewrite Ef; right; left); apply Hb, Ef | rewrite Eg by reflexivity; unfold s3; cbn; rewrite rg_insert; exact P4].
  - rewrite R3, (fr_sp _ _ _ Hf), Hr. replace (frame c + 128 - 128) with (frame c) by lia. exact Hi.
  - rewrite R1. apply (fr_even _ _ _ Hf).
  - rewrite Hr. eauto.
  - intros Hgd c'. rewrite E6, E2, Hr. intros Hc'. rewrite Hp by exact Hgd. congruence.
  - intros t c' _ Hc'. rewrite E5. apply P6, Hc'.
Qed.

(** ** A thread's first frame *)

Definition frame_of (base size : Z) : Z := Z.ldiff (base + size) 15 - 128.
Definition guard_bottom (base : Z) : Z := Z.ldiff (base + spill_bytes + guard_bytes - 1) (guard_bytes - 1).

(** The stack the call is given has room for all of it. *)
Definition fits (base size entry : Z) : Prop :=
  base <> 0 /\ entry <> 0 /\ 2 * frame_bytes <= size /\ base < frame_of base size /\ (guarded = true -> guard_bottom base + guard_bytes < frame_of base size).

Definition first_view (g base size entry arg return_trap : Z) : view :=
  View true (<[ra := return_trap]> (<[gp := g]> (<[a0 := arg]> (<[sp := frame_of base size + 128]> ∅)))) entry.

(** Where a pmpaddr puts a guard: NAPOT, [guard_bytes] long. *)
Definition guarded_from (p : Z) : Z := Z.shiftl (Z.ldiff p (guard_bytes / 8 - 1)) 2.

Lemma ldiff_ones a k : 0 <= k -> Z.ldiff a (Z.ones k) = 2 ^ k * (a / 2 ^ k).
Proof. intros Hk. rewrite Z.ldiff_ones_r, Z.shiftl_mul_pow2, Z.shiftr_div_pow2 by exact Hk. lia. Qed.

Lemma guard_pmpaddr_spec q : guarded_from (guard_pmpaddr (128 * q)) = 128 * q /\ guard_pmpaddr (128 * q) <> 0.
Proof.
  unfold guarded_from, guard_pmpaddr. change (guard_bytes / 8 - 1) with (Z.ones 4).
  assert (E : Z.ldiff (Z.lor (Z.shiftr (128 * q) 2) (Z.ones 4)) (Z.ones 4) = 32 * q).
  { transitivity (Z.ldiff (Z.shiftr (128 * q) 2) (Z.ones 4)).
    - apply Z.bits_inj'. intros i _. rewrite !Z.ldiff_spec, Z.lor_spec. destruct (Z.testbit (Z.ones 4) i), (Z.testbit (Z.shiftr (128 * q) 2) i); reflexivity.
    - rewrite ldiff_ones, Z.shiftr_div_pow2 by lia. change (2 ^ 4) with 16. change (2 ^ 2) with 4. Z.div_mod_to_equations. lia. }
  rewrite E. split; [rewrite Z.shiftl_mul_pow2 by lia; change (2 ^ 2) with 4; lia |].
  intros E0. apply (f_equal (fun a => Z.testbit a 0)) in E0. rewrite Z.lor_spec in E0. cbn in E0. rewrite orb_true_r in E0. discriminate.
Qed.

Lemma wd_zero f m n : forall k, (k < n)%nat -> wd (zero_words f n m) (f + 4 * Z.of_nat k) = 0.
Proof.
  induction n as [| n IH]; intros k Hk; [lia |]. cbn [zero_words]. rewrite wd_insert. destruct (Z.eqb_spec (f + 4 * Z.of_nat k) (f + 4 * Z.of_nat n)); [reflexivity |].
  apply IH. lia.
Qed.

Lemma wd_zero_out f m a n : (n <= 32)%nat -> outside f a -> wd (zero_words f n m) a = wd m a.
Proof.
  induction n as [| n IH]; intros Hn Ha; [reflexivity |]. cbn [zero_words]. unfold outside in Ha. rewrite wd_insert, (proj2 (Z.eqb_neq _ _)) by lia. apply IH; [lia | exact Ha].
Qed.

(** The frame's words once they are all written. *)
Lemma wd_first f m entry st rt g arg n : (n < 32)%nat ->
  wd (<[f + 4 * Z.of_nat a0 := arg]> (<[f + 4 * Z.of_nat tp := 0]> (<[f + 4 * Z.of_nat gp := g]> (<[f + 4 * Z.of_nat ra := rt]> (<[f + 8 := st]> (<[f := entry]> (zero_words f 32 m)))))))
    (f + 4 * Z.of_nat n) =
  if (n =? a0)%nat then arg else if (n =? tp)%nat then 0 else if (n =? gp)%nat then g else if (n =? ra)%nat then rt else if (n =? 2)%nat then st else if (n =? 0)%nat then entry else 0.
Proof.
  intros Hn. assert (E : forall k, (f + 4 * Z.of_nat n =? f + 4 * Z.of_nat k) = (n =? k)%nat).
  { intros k. destruct (Nat.eqb_spec n k) as [-> | Hne]; [apply Z.eqb_refl | apply Z.eqb_neq; lia]. }
  pose proof (E 0%nat) as E0. rewrite Z.mul_0_r, Z.add_0_r in E0. pose proof (E 2%nat) as E2. change (4 * Z.of_nat 2) with 8 in E2.
  rewrite !wd_insert, !E, E0, E2, wd_zero by exact Hn. reflexivity.
Qed.

Lemma first_framed f m base size g arg rt entry : f = frame_of base size -> even entry ->
  framed (<[f + 4 * Z.of_nat a0 := arg]> (<[f + 4 * Z.of_nat tp := 0]> (<[f + 4 * Z.of_nat gp := g]> (<[f + 4 * Z.of_nat ra := rt]>
    (<[f + 8 := Z.lor mstatus_mpp_machine mstatus_mpie]> (<[f := entry]> (zero_words f 32 m)))))))
    f (first_view g base size entry arg rt).
Proof.
  intros Ef He. pose proof (fun n => wd_first f m entry (Z.lor mstatus_mpp_machine mstatus_mpie) rt g arg n) as Hw. split; cbn [full vx vpc first_view held].
  - specialize (Hw 0%nat ltac:(lia)). rewrite Z.mul_0_r, Z.add_0_r in Hw. exact Hw.
  - exact He.
  - specialize (Hw 2%nat ltac:(lia)). change (4 * Z.of_nat 2) with 8 in Hw. rewrite Hw. reflexivity.
  - intros n Hn. rewrite Hw by exact (held_words (first_view g base size entry arg rt) n Hn). rewrite !rg_insert.
    rewrite (not_in_eqb n 2 _ Hn), (not_in_eqb n 0 _ Hn), (not_in_eqb n sp _ Hn) by reflexivity.
    destruct (Nat.eqb_spec n a0) as [-> | _]; [reflexivity |]. destruct (Nat.eqb_spec n tp) as [-> | _]; [reflexivity |].
    destruct (Nat.eqb_spec n gp) as [-> | _]; [reflexivity |]. destruct (Nat.eqb_spec n ra) as [-> | _]; reflexivity.
  - rewrite Ef. rg_eval. reflexivity.
Qed.


(** What the call computes, with no wrap-around. *)
Lemma geometry base size : 0 <= base -> 2 * frame_bytes <= size -> base + size < 2 ^ 32 ->
  u32 (base + size) = base + size /\ u32 (Z.ldiff (base + size) 15 - frame_bytes) = frame_of base size /\
  frame_of base size mod 16 = 0 /\ 0 <= frame_of base size /\ frame_of base size + 128 <= base + size.
Proof.
  intros Hb Hs Hle. change (2 * frame_bytes) with 256 in Hs. change frame_bytes with 128. unfold frame_of.
  assert (E : Z.ldiff (base + size) 15 = 16 * ((base + size) / 16)) by (change 15 with (Z.ones 4); rewrite ldiff_ones by lia; reflexivity).
  rewrite E. split_and!; try (apply u32_id); Z.div_mod_to_equations; lia.
Qed.

Lemma guard_geometry base : 0 <= base -> base + 512 < 2 ^ 32 ->
  u32 (base + spill_bytes + guard_bytes - 1) = base + spill_bytes + guard_bytes - 1 /\
  exists q, guard_bottom base = 128 * q /\ base + spill_bytes <= 128 * q /\ 128 * q < base + spill_bytes + guard_bytes.
Proof.
  intros Hb Hle. unfold guard_bottom. change (guard_bytes - 1) with (Z.ones 7). rewrite ldiff_ones by lia. change (2 ^ 7) with 128. change spill_bytes with 256. change guard_bytes with 128.
  split; [apply u32_id; lia |]. eexists. split; [reflexivity |]. Z.div_mod_to_equations. lia.
Qed.

(** A context made: the frame at the stack's top, the guard below it. *)
Record made (t : nat) (base size entry arg rt : Z) (s s' : hart) (c : context) : Prop := {
  ma_frame : frame c = frame_of base size;
  ma_aligned : frame c mod 16 = 0;
  ma_framed : framed (mem s') (frame c) (first_view (rg (x s) gp) base size entry arg rt);
  ma_out a : outside (frame c) a -> wd (mem s') a = wd (mem s) a;
  ma_guard : if guarded then guard c <> 0 /\ exists q, guarded_from (guard c) = guard_bytes * q /\ base + spill_bytes <= guard_bytes * q /\ guard_bytes * q + guard_bytes < frame c
             else guard c = 0;
  ma_rest : s' = set_contexts (<[t := c]> (contexts s)) (set_mem (mem s') s)
}.

Lemma context_init_spec s t base size entry arg rt : 0 <= base -> base + size + 512 <= 2 ^ 32 -> even entry -> fits base size entry ->
  wp (cyros_port_context_init guarded t base size entry arg rt) (fun _ s' => exists c, made t base size entry arg rt s s' c) s.
Proof.
  intros Hb Hle He (F1 & F2 & F3 & F4 & F5). pose proof F3 as F3'. change (2 * frame_bytes) with 256 in F3'.
  destruct (geometry base size Hb F3 ltac:(lia)) as (G1 & G2 & G3 & G4 & G5). destruct (guard_geometry base Hb ltac:(lia)) as (G6 & q & G7 & G8 & G9).
  change guard_bytes with 128 in *. change spill_bytes with 256 in *.
  assert (G10 : Z.ldiff (base + 256 + 128 - 1) (128 - 1) = 128 * q) by (rewrite <- G7; reflexivity).
  assert (G11 : u32 (128 * q + 128) = 128 * q + 128) by (apply u32_id; lia).
  unfold cyros_port_context_init. change guard_bytes with 128. change spill_bytes with 256. rewrite G1, G2, G6, G10, G11.
  apply wp_bind, wp_ensure; [apply negb_true_iff, Z.eqb_neq, F1 |]. apply wp_bind, wp_ensure; [apply negb_true_iff, Z.eqb_neq, F2 |].
  apply wp_bind, wp_ensure; [apply Z.leb_le, F3 |]. apply wp_bind, wp_ensure; [apply Z.ltb_lt, F4 |].
  apply wp_bind, wp_ensure; [destruct guarded; [apply Z.ltb_lt; rewrite <- G7; apply F5; reflexivity | reflexivity] |].
  set (f := frame_of base size) in *. set (g := if guarded then _ else 0).
  apply wp_bind, wp_modify, wp_bind, wp_get. match goal with |- context [reg gp ?s'] => change (reg gp s') with (rg (x s) gp) end.
  do 6 apply wp_bind, wp_modify. apply wp_modify. exists (Context f g).
  match goal with |- made _ _ _ _ _ _ _ ?s' _ => set (s1 := s') end. split; cbn [frame guard].
  - reflexivity.
  - exact G3.
  - apply first_framed; [reflexivity | exact He].
  - intros a Ha. unfold s1. cbn [mem set_contexts set_mem]. pose proof Ha as Ha'. unfold outside in Ha'.
    rewrite !wd_insert, !(proj2 (Z.eqb_neq _ _)) by (unfold a0, tp, gp, ra; lia). apply wd_zero_out; [lia | exact Ha].
  - unfold g. change guard_bytes with 128. destruct guarded; [| reflexivity]. destruct (guard_pmpaddr_spec q) as [E1 E2]. split; [exact E2 |].
    exists q. split_and!; [exact E1 | change spill_bytes with 256; lia | rewrite <- G7; apply F5; reflexivity].
  - reflexivity.
Qed.

Lemma context_init_refuses s t base size entry arg rt : 0 <= base -> base + size + 512 <= 2 ^ 32 -> 0 <= size -> ~ fits base size entry ->
  cyros_port_context_init guarded t base size entry arg rt s = Panic assert_failed.
Proof.
  intros Hb Hle Hs Hn. unfold cyros_port_context_init, kensure, kbind.
  destruct (Z.eqb_spec base 0) as [| F1]; [reflexivity |]. destruct (Z.eqb_spec entry 0) as [| F2]; [reflexivity |]. cbn [negb].
  destruct (Z.leb_spec (2 * frame_bytes) size) as [F3 |]; [| reflexivity].
  pose proof F3 as F3'. change (2 * frame_bytes) with 256 in F3'.
  destruct (geometry base size Hb F3 ltac:(lia)) as (G1 & G2 & G3 & G4 & G5). destruct (guard_geometry base Hb ltac:(lia)) as (G6 & q & G7 & G8 & G9).
  rewrite G1, G2, G6. cbn [ok]. destruct (Z.ltb_spec base (frame_of base size)) as [F4 |]; [| reflexivity].
  fold (guard_bottom base). change guard_bytes with 128 in *. change spill_bytes with 256 in *. rewrite G7, u32_id by lia.
  destruct guarded eqn:Eg; cbn [negb orb].
  - destruct (Z.ltb_spec (128 * q + 128) (frame_of base size)) as [F5 |]; [| reflexivity]. exfalso. apply Hn. split_and!; auto. intros _. rewrite G7. exact F5.
  - exfalso. apply Hn. split_and!; auto. congruence.
Qed.

(** Made one after the other, the contexts are all ready. *)
Lemma made_prepared V s s' t base size entry arg rt c : made t base size entry arg rt s s' c -> 0 < frame c -> prepared V s -> in_stack t (frame c) ->
  prepared (upd V t (first_view (rg (x s) gp) base size entry arg rt)) s'.
Proof.
  intros [M1 M2 M3 M4 M5 M6] Hc [P1 P2 P3 P4 P5] Hi. assert (Ec : contexts s' = <[t := c]> (contexts s)) by (rewrite M6; reflexivity).
  split.
  - rewrite M6. exact P1.
  - rewrite M6. exact P2.
  - rewrite M6. exact P3.
  - rewrite Ec. intros u c'. destruct (decide (u = t)) as [-> | Hne].
    + rewrite lookup_insert_eq. intros [= <-]. split; [lia |]. destruct guarded; [apply Z.eqb_neq, M5 | apply Z.eqb_eq, M5].
    + rewrite lookup_insert_ne by auto. apply P4.
  - rewrite Ec. intros u c'. destruct (decide (u = t)) as [-> | Hne].
    + rewrite lookup_insert_eq, upd_eq. intros [= <-]. split; [exact Hi |]. split; [exact M3 |]. intros _. cbn. rewrite !rg_insert. exact P3.
    + rewrite lookup_insert_ne, upd_ne by auto. intros Hu. destruct (P5 u c' Hu) as (Hiu & Hfu & Hbu). split; [exact Hiu |]. split; [| exact Hbu].
      apply (framed_ext (mem s)); [| exact Hfu]. intros a Ha. apply M4, (in_stack_apart t u (frame c) (frame c')); auto.
Qed.
End threads.

(** ** The properties *)

(** C17: a thread goes on where it was left.  From [cyros_port_start_first] on,
    whatever frame a thread was left with, by an interrupt, the soft interrupt,
    a yield, a reschedule it asked for or a direct switch, and whichever of the
    exits takes it up: the thread the kernel picks is resumed at its own return
    address, unmasked, on its own stack, with every register that its way out
    held; every other thread stays where it was left, the core is ready for the
    next trap, the guard is the running thread's, and a reschedule that was
    asked for and not yet made is pending at the hart.  None of the ways fails. *)
Theorem rv32_threads_go_on (guarded : bool) (stack : nat -> Z * Z) (gp0 : Z) (V : nat -> view) (s : hart) (here : Z) (s1 : hart) (ls : list label) (W : nat -> view) (s' : hart) :
  stacks_apart stack -> prepared guarded stack gp0 V s -> is_Some (contexts s !! running s) ->
  cyros_port_start_first guarded (running s) here s = Ok (tt, s1) -> ran guarded stack gp0 V s1 ls W s' ->
  resumes (V (running s)) s1 /\ kept_state guarded stack gp0 W s' /\
  forall l, enabled stack gp0 l s' -> exists s'', step guarded l s' = Ok (tt, s'') /\ follows guarded stack gp0 W s' l s''.
Proof.
  intros Hst Hp Hc E Hr. pose proof (start_first_spec guarded stack gp0 Hst V s (running s) here Hp eq_refl Hc) as Hs. unfold wp in Hs. rewrite E in Hs.
  destruct Hs as (_ & Hk1 & Hre). pose proof (ran_kept guarded stack gp0 Hst V s1 ls W s' Hr Hk1) as Hk. split; [exact Hre |]. split; [exact Hk |].
  intros l He. pose proof (step_follows guarded stack gp0 Hst W s' l Hk He) as Hf. unfold wp in Hf.
  destruct (step guarded l s') as [[[] s''] |]; [| destruct Hf]. exists s''. split; [reflexivity | exact Hf].
Qed.

(** [cyros_port_context_init] refuses a stack that has no room, and makes of
    any other a thread to start: its frame at the stack's 16-aligned top, from
    which the entry function is entered with its argument, the image's gp and a
    return address that catches its return; where threads are guarded, the
    guard, decoded as the hart does, lies above the spill zone and below the
    frame; and nothing else is touched. *)
Theorem rv32_first_frame (guarded : bool) (s : hart) (t : nat) (base size entry arg rt : Z) :
  0 <= base -> 0 <= size -> base + size + 512 <= 2 ^ 32 -> even entry ->
  (fits guarded base size entry -> exists s' c, cyros_port_context_init guarded t base size entry arg rt s = Ok (tt, s') /\ made guarded t base size entry arg rt s s' c) /\
  (~ fits guarded base size entry -> cyros_port_context_init guarded t base size entry arg rt s = Panic assert_failed).
Proof.
  intros Hb Hs Hle He. split; [intros Hf | intros Hn; apply context_init_refuses; assumption].
  pose proof (context_init_spec guarded s t base size entry arg rt Hb Hle He Hf) as H. unfold wp in H.
  destruct (cyros_port_context_init _ _ _ _ _ _ _ s) as [[[] s'] |]; [| destruct H]. destruct H as [c H]. exists s', c. split; [reflexivity | exact H].
Qed.

(** ** An example: two threads, guarded *)
Definition after {A} (m : M hart A) (s : hart) : hart := match m s with Ok (_, s') => s' | Panic _ => s end.

Definition blank : hart := Hart ∅ 0 0 0 0 0 0 true false ∅ ∅ (CoreState 0 0 0 0 None None) 0 false.
Definition nowhere : nat -> view := fun _ => call_view ∅ 0.
Definition two_stacks (t : nat) : Z * Z := match t with 0%nat => (4480, 5120) | 1%nat => (8576, 9216) | _ => (1, 0) end.

Definition init0 : M hart unit := cyros_port_context_init true 0 4096 1024 512 7 256.
Definition init1 : M hart unit := cyros_port_context_init true 1 8192 1024 640 9 256.
Definition two_threads : hart := after init1 (after init0 blank).
Definition two_views : nat -> view := upd (upd nowhere 0 (first_view 0 4096 1024 512 7 256)) 1 (first_view 0 8192 1024 640 9 256).
Definition started : hart := after (cyros_port_start_first true 0 16384) two_threads.

Definition picking (u : nat) : doing := Doing [] false false u false ∅ ∅.

(** Thread 0 yields to thread 1, and 1 switches back; an interrupt wakes 1
    again, and asks for a reschedule. *)
Definition some_labels : list label :=
  [Yield 520 (picking 1); Direct 650 0; Interrupt false (Doing [1%nat] true true 0 false ∅ ∅); Ring; SoftIrq (picking 1)].

Lemma two_stacks_apart : stacks_apart two_stacks.
Proof.
  split.
  - intros [| [| t]]; cbn; lia.
  - intros [| [| t]] [| [| u]] Hne; cbn; try lia; destruct (Hne eq_refl).
Qed.

Lemma two_prepared : prepared true two_stacks 0 two_views two_threads.
Proof.
  assert (Hb : prepared true two_stacks 0 nowhere blank).
  { split; try (split; reflexivity); try discriminate; try reflexivity; intros t c; cbn; rewrite lookup_empty; discriminate. }
  assert (F0 : fits true 4096 1024 512) by (split_and!; try discriminate; intros; reflexivity).
  assert (F1 : fits true 8192 1024 640) by (split_and!; try discriminate; intros; reflexivity).
  pose proof (context_init_spec true blank 0 4096 1024 512 7 256 ltac:(lia) ltac:(lia) eq_refl F0) as H0. unfold wp in H0.
  assert (E0 : init0 blank = Ok (tt, after init0 blank)) by (vm_compute; reflexivity). fold init0 in H0. rewrite E0 in H0. destruct H0 as [c0 M0].
  pose proof (made_prepared true two_stacks 0 two_stacks_apart nowhere blank _ _ _ _ _ _ _ c0 M0) as P0.
  rewrite (ma_frame _ _ _ _ _ _ _ _ _ _ M0) in P0. specialize (P0 ltac:(reflexivity) Hb ltac:(split; cbn; discriminate)).
  set (s0 := after init0 blank) in *.
  pose proof (context_init_spec true s0 1 8192 1024 640 9 256 ltac:(lia) ltac:(lia) eq_refl F1) as H1. unfold wp in H1.
  assert (E1 : init1 s0 = Ok (tt, after init1 s0)) by (vm_compute; reflexivity). fold init1 in H1. rewrite E1 in H1. destruct H1 as [c1 M1].
  pose proof (made_prepared true two_stacks 0 two_stacks_apart (upd nowhere 0 (first_view 0 4096 1024 512 7 256)) s0 _ _ _ _ _ _ _ c1 M1) as P1.
  rewrite (ma_frame _ _ _ _ _ _ _ _ _ _ M1) in P1. specialize (P1 ltac:(reflexivity) P0 ltac:(split; cbn; discriminate)). exact P1.
Qed.

Ltac known := apply (bool_decide_unpack _); vm_compute; exact I.
Ltac allowed := split_and?; first [exact I | reflexivity | known | apply Forall_nil; exact I | apply Forall_singleton; known].

Definition passed (ls : list label) : hart := foldl (fun s l => after (step true l) s) started ls.

Lemma rv32_threads_go_on_witness :
  exists W, ran true two_stacks 0 two_views started some_labels W (passed some_labels) /\ running (passed some_labels) = 1%nat /\
    kept_state true two_stacks 0 W (passed some_labels) /\ vpc (W 0%nat) = 520.
Proof.
  assert (Hr : exists W, ran true two_stacks 0 two_views started some_labels W (passed some_labels) /\ vpc (W 0%nat) = 520).
  { eexists. split.
    - apply (ran_step _ _ _ _ _ _ (passed (take 1 some_labels))); [allowed | vm_compute; reflexivity |].
      apply (ran_step _ _ _ _ _ _ (passed (take 2 some_labels))); [allowed | vm_compute; reflexivity |].
      apply (ran_step _ _ _ _ _ _ (passed (take 3 some_labels))); [allowed | vm_compute; reflexivity |].
      apply (ran_step _ _ _ _ _ _ (passed (take 4 some_labels))); [allowed | vm_compute; reflexivity |].
      apply (ran_step _ _ _ _ _ _ (passed some_labels)); [allowed | vm_compute; reflexivity |].
      apply ran_none.
    - vm_compute. reflexivity. }
  destruct Hr as (W & Hr & Hw). exists W. split; [exact Hr |]. split; [vm_compute; reflexivity |]. split; [| exact Hw].
  exact (proj1 (proj2 (rv32_threads_go_on true two_stacks 0 two_views two_threads 16384 started some_labels W (passed some_labels)
    two_stacks_apart two_prepared ltac:(known) ltac:(vm_compute; reflexivity) Hr))).
Defined.

Lemma rv32_first_frame_witness : exists s' c, init0 blank = Ok (tt, s') /\ made true 0 4096 1024 512 7 256 blank s' c.
Proof.
  apply (proj1 (rv32_first_frame true blank 0 4096 1024 512 7 256 ltac:(lia) ltac:(lia) ltac:(lia) eq_refl)).
  split_and!; try discriminate; intros; reflexivity.
Defined.
