(* ===== verification/Function.v ===== *)
(** * cyros::function: a callable, its type erased (function.hpp)

    A function holds one callable: inline in its buffer if it fits and the
    policy lets it, else on the heap.  Two pointers stand for its type: how to
    invoke it, and how to move and destroy it, which an inline callable that is
    trivially copyable needs not.

    A world is the functions there are, the heap they allocate from, and a log
    of what the callables' own constructors and destructors and the heap see.  A
    callable's type is a number; its size, alignment and triviality, and what a
    call of it does, are arguments.  A move carries a callable's state along; a
    callable does not touch the function it is called through.  What the
    compiler refuses (a [static_assert]) is a failed check. *)

From S2P Require Import Prelude.
Local Open Scope Z_scope.

Module Function.
Inductive heap_policy := no_heap | can_use_heap | must_use_heap.

(** What the compiler knows of a callable's type. *)
Record traits := Traits { size : Z; align : Z; trivially_copyable : bool }.

Inductive operation := move | destroy_.

Inductive event := Constructed (F : nat) | Destroyed (F : nat) | Allocated (a : nat) | Freed (a : nat).

#[global] Instance event_eq_dec : EqDecision event.
Proof. solve_decision. Defined.

Section function.
Context {V A R : Type}.
Context (InlineSize storage_align : Z) (Policy : heap_policy).
Context (type : nat -> traits) (call : nat -> V -> A -> R * V).

(** The buffer: no object in it, a callable, or the address of one. *)
Inductive storage := none | inline_storage (F : nat) (v : V) | heap_ptr (a : nat).
Inductive invoke_function := invoke_inline (F : nat) | invoke_heap (F : nat).
Inductive manage_function := manage_inline (F : nat) | manage_heap (F : nat).

Record function := Fn { buffer : storage; invoker : option invoke_function; manager : option manage_function }.

Record world := World { functions : gmap nat function; heap : gmap nat (nat * V); log : list event }.

Local Abbreviation W := (M world).

Definition dangling {B} : W B := klift (Panic bad_pointer).
Definition emit (e : event) : W unit := kmodify (fun w => World (functions w) (heap w) (log w ++ [e])).
Definition get (t : nat) : W function := fun w => match functions w !! t with Some f => Ok (f, w) | None => Panic bad_pointer end.
Definition put (t : nat) (f : function) : W unit := kmodify (fun w => World (<[t := f]> (functions w)) (heap w) (log w)).

(** A callable's constructors and destructor, if there is anything to see. *)
Definition construct (F : nat) : W unit := if trivially_copyable (type F) then kret tt else emit (Constructed F).
Definition destruct_ (F : nat) : W unit := if trivially_copyable (type F) then kret tt else emit (Destroyed F).

Definition new_ (F : nat) (v : V) : W nat :=
  let* h := kget heap in
  let a := fresh (dom h) in
  kmodify (fun w => World (functions w) (<[a := (F, v)]> (heap w)) (log w)) ;;*
  emit (Allocated a) ;;* construct F ;;* kret a.

Definition delete_ (F a : nat) : W unit :=
  let* h := kget heap in
  match h !! a with
  | Some (G, _) =>
      kensure bad_pointer (G =? F)%nat ;;* destruct_ F ;;* emit (Freed a) ;;*
      kmodify (fun w => World (functions w) (delete a (heap w)) (log w))
  | None => dangling
  end.

(** [object<F>]: the callable in the buffer, which must be there. *)
Definition object (F : nat) (s : storage) : outcome V :=
  match s with inline_storage G v => if (G =? F)%nat then Ok v else Panic bad_pointer | _ => Panic bad_pointer end.

Definition set_buffer (t : nat) (b : storage) : W unit := let* f := get t in put t (Fn b (invoker f) (manager f)).

Definition hand_over_pointers (self other : nat) : W unit :=
  let* o := get other in
  let* s := get self in
  put self (Fn (buffer s) (invoker o) (manager o)) ;;*
  let* o := get other in
  put other (Fn (buffer o) None None).

Definition manage (m : manage_function) (op : operation) (self other : nat) : W unit :=
  match m, op with
  | manage_inline F, move =>
      let* o := get other in
      let* v := klift (object F (buffer o)) in
      construct F ;;* set_buffer self (inline_storage F v) ;;*
      destruct_ F ;;* set_buffer other none ;;*
      hand_over_pointers self other
  | manage_inline F, destroy_ =>
      let* s := get self in
      klift (object F (buffer s)) ;;*
      destruct_ F ;;* set_buffer self none
  | manage_heap F, move =>
      let* o := get other in
      set_buffer self (buffer o) ;;*
      hand_over_pointers self other
  | manage_heap F, destroy_ =>
      let* s := get self in
      match buffer s with heap_ptr a => delete_ F a | _ => dangling end
  end.

Definition destroy (t : nat) : W unit :=
  let* f := get t in
  match manager f with Some m => manage m destroy_ t t | None => kret tt end.

Definition take (t other : nat) : W unit :=
  let* o := get other in
  match manager o with
  | Some m => manage m move t other
  | None => set_buffer t (buffer o) ;;* hand_over_pointers t other
  end.

Definition fits_inline (F : nat) : bool := (size (type F) <=? InlineSize) && (align (type F) <=? storage_align).
Definition use_heap (F : nat) : bool := match Policy with must_use_heap => true | _ => negb (fits_inline F) end.
Definition accepted (F : nat) : bool := negb (use_heap F) || match Policy with no_heap => false | _ => true end.

Definition emplace (t F : nat) (v : V) : W unit :=
  kensure assert_failed (accepted F) ;;*
  destroy t ;;*
  if use_heap F then
    let* a := new_ F v in
    put t (Fn (heap_ptr a) (Some (invoke_heap F)) (Some (manage_heap F)))
  else
    construct F ;;*
    put t (Fn (inline_storage F v) (Some (invoke_inline F)) (if trivially_copyable (type F) then None else Some (manage_inline F))).

Definition reset (t : nat) : W unit :=
  destroy t ;;*
  let* f := get t in
  put t (Fn (buffer f) None None).

(** [invoke_inline] and [invoke_heap], through the pointer. *)
Definition invoke (i : invoke_function) (t : nat) (a : A) : W R :=
  let* f := get t in
  match i with
  | invoke_inline F =>
      let* v := klift (object F (buffer f)) in
      let '(r, v') := call F v a in
      put t (Fn (inline_storage F v') (invoker f) (manager f)) ;;* kret r
  | invoke_heap F =>
      match buffer f with
      | heap_ptr p =>
          let* h := kget heap in
          match h !! p with
          | Some (G, v) =>
              kensure bad_pointer (G =? F)%nat ;;*
              let '(r, v') := call F v a in
              kmodify (fun w => World (functions w) (<[p := (F, v')]> (heap w)) (log w)) ;;* kret r
          | None => dangling
          end
      | _ => dangling
      end
  end.

Definition operator_call (t : nat) (a : A) : W R :=
  let* f := get t in
  match invoker f with Some i => invoke i t a | None => dangling end.

Definition operator_bool (t : nat) : W bool := let* f := get t in kret (bool_decide (is_Some (invoker f))).

(** Constructors make a function where there was none; the destructor ends it. *)
Definition make (t : nat) : W unit :=
  let* fs := kget functions in
  kensure bad_pointer (bool_decide (fs !! t = None)) ;;*
  put t (Fn none None None).
Definition function_of (t F : nat) (v : V) : W unit := make t ;;* emplace t F v.
Definition function_move (t other : nat) : W unit := make t ;;* take t other.
Definition function_end (t : nat) : W unit := destroy t ;;* kmodify (fun w => World (delete t (functions w)) (heap w) (log w)).

Definition assign_move (t other : nat) : W unit := if (t =? other)%nat then get t ;;* kret tt else destroy t ;;* take t other.
Definition assign_null (t : nat) : W unit := reset t.
Definition assign (t F : nat) (v : V) : W unit := emplace t F v.

(** ** A program's use of them *)
Inductive use :=
  | Make (t : nat) | Of (t F : nat) (v : V) | MoveMake (t other : nat) | End (t : nat)
  | AssignMove (t other : nat) | AssignNull (t : nat) | Assign (t F : nat) (v : V) | Emplace (t F : nat) (v : V) | Reset (t : nat)
  | Call (t : nat) (a : A) | Test (t : nat).

Inductive answer := Done | Returned (r : R) | Holds (b : bool).

Definition done (m : W unit) : W answer := m ;;* kret Done.

Definition act (u : use) : W answer :=
  match u with
  | Make t => done (make t) | Of t F v => done (function_of t F v) | MoveMake t o => done (function_move t o) | End t => done (function_end t)
  | AssignMove t o => done (assign_move t o) | AssignNull t => done (assign_null t) | Assign t F v => done (assign t F v)
  | Emplace t F v => done (emplace t F v) | Reset t => done (reset t)
  | Call t a => let* r := operator_call t a in kret (Returned r)
  | Test t => let* b := operator_bool t in kret (Holds b)
  end.

Fixpoint acts (us : list use) : W (list answer) :=
  match us with [] => kret [] | u :: us => let* a := act u in let* l := acts us in kret (a :: l) end.
End function.
#[global] Arguments storage V : clear implicits.
#[global] Arguments function V : clear implicits.
#[global] Arguments world V : clear implicits.
#[global] Arguments use V A : clear implicits.
#[global] Arguments answer R : clear implicits.
End Function.
