(* ===== verification/FunctionProperties.v ===== *)
(** * What a function owns, and its properties

    A function is an owner of at most one callable ([spec]).  [structure] says
    what of the buffers, the pointers and the heap stands for it; [balanced]
    that every callable made is held or was destroyed. *)

From S2P Require Import Prelude State Function.
Import Function.
Local Open Scope Z_scope.

Section owner.
Context {V A R : Type}.
Context (InlineSize storage_align : Z) (Policy : heap_policy).
Context (type : nat -> traits) (call : nat -> V -> A -> R * V).

Local Abbreviation use_heap := (use_heap InlineSize storage_align Policy type).
Local Abbreviation accepted := (accepted InlineSize storage_align Policy type).
Local Abbreviation act := (act InlineSize storage_align Policy type call).
Local Abbreviation acts := (acts InlineSize storage_align Policy type call).
Local Abbreviation world := (world V).
Local Abbreviation function := (function V).

(** ** The abstract owner *)
Local Abbreviation owners := (gmap nat (option (nat * V))).

Definition spec (u : use V A) (m : owners) : option (owners * answer R) :=
  match u with
  | Make t => match m !! t with None => Some (<[t := None]> m, Done) | _ => None end
  | Of t F v => match m !! t with None => if accepted F then Some (<[t := Some (F, v)]> m, Done) else None | _ => None end
  | MoveMake t o => match m !! t, m !! o with None, Some h => Some (<[o := None]> (<[t := h]> m), Done) | _, _ => None end
  | End t => match m !! t with Some _ => Some (delete t m, Done) | None => None end
  | AssignMove t o => match m !! t, m !! o with Some _, Some h => Some (if (t =? o)%nat then m else <[o := None]> (<[t := h]> m), Done) | _, _ => None end
  | AssignNull t | Reset t => match m !! t with Some _ => Some (<[t := None]> m, Done) | None => None end
  | Assign t F v | Emplace t F v => match m !! t with Some _ => if accepted F then Some (<[t := Some (F, v)]> m, Done) else None | None => None end
  | Call t a => match m !! t with Some (Some (F, v)) => let '(r, v') := call F v a in Some (<[t := Some (F, v')]> m, Returned r) | _ => None end
  | Test t => match m !! t with Some h => Some (m, Holds (bool_decide (is_Some h))) | None => None end
  end.

Fixpoint specs (us : list (use V A)) (m : owners) : option (owners * list (answer R)) :=
  match us with
  | [] => Some (m, [])
  | u :: us => match spec u m with
               | Some (m, a) => match specs us m with Some (m, l) => Some (m, a :: l) | None => None end
               | None => None
               end
  end.

(** ** What stands for it *)
Definition pointer (f : function) : option nat :=
  match manager f, buffer f with Some (manage_heap _), heap_ptr a => Some a | _, _ => None end.

Definition represents (hp : gmap nat (nat * V)) (f : function) (h : option (nat * V)) : Prop :=
  match h with
  | None => invoker f = None /\ manager f = None
  | Some (F, v) => accepted F = true /\
      if use_heap F then exists a, f = Fn (heap_ptr a) (Some (invoke_heap F)) (Some (manage_heap F)) /\ hp !! a = Some (F, v)
      else f = Fn (inline_storage F v) (Some (invoke_inline F)) (if trivially_copyable (type F) then None else Some (manage_inline F))
  end.

Record structure (fs : gmap nat function) (hp : gmap nat (nat * V)) (m : owners) : Prop := {
  st_fns t : match fs !! t, m !! t with Some f, Some h => represents hp f h | None, None => True | _, _ => False end;
  st_own a : is_Some (hp !! a) -> exists t f, fs !! t = Some f /\ pointer f = Some a;
  st_apart t u f g a : fs !! t = Some f -> fs !! u = Some g -> pointer f = Some a -> pointer g = Some a -> t = u
}.

Definition unheap (f : function) (hp : gmap nat (nat * V)) : gmap nat (nat * V) :=
  match pointer f with Some a => delete a hp | None => hp end.

Lemma represents_pointer hp f h a : represents hp f h -> pointer f = Some a -> is_Some (hp !! a).
Proof.
  unfold represents, pointer. destruct h as [[F v] |]; [intros [_ H] | intros [_ ->]; discriminate].
  destruct (use_heap F); [destruct H as (b & -> & Hb); cbn; intros [= <-]; eauto | subst f; cbn; destruct (trivially_copyable _); discriminate].
Qed.

Lemma represents_ext hp hp' f h : (forall a, pointer f = Some a -> hp' !! a = hp !! a) -> represents hp f h -> represents hp' f h.
Proof.
  intros He. unfold represents. destruct h as [[F v] |]; [| auto]. intros [Ha H]. split; [exact Ha |].
  destruct (use_heap F); [| exact H]. destruct H as (a & -> & H). exists a. split; [reflexivity |]. rewrite He by reflexivity. exact H.
Qed.

(** An owner taken out, its heap with it; and one put in. *)
Lemma spill fs hp m t f : structure fs hp m -> fs !! t = Some f -> structure (delete t fs) (unheap f hp) (delete t m).
Proof.
  intros [Hf Ho Ha] Et. assert (Hne : forall u g a, u <> t -> fs !! u = Some g -> pointer g = Some a -> unheap f hp !! a = hp !! a).
  { intros u g a Hu Eu Hp. unfold unheap. destruct (pointer f) as [b |] eqn:Ef; [| reflexivity].
    destruct (decide (a = b)) as [-> | Hab]; [destruct Hu; exact (Ha u t g f b Eu Et Hp Ef) | apply lookup_delete_ne; auto]. }
  split.
  - intros u. destruct (decide (u = t)) as [-> | Hu]; [rewrite !lookup_delete_eq; exact I |]. rewrite !lookup_delete_ne by auto.
    specialize (Hf u). destruct (fs !! u) as [g |] eqn:Eu, (m !! u); auto. apply (represents_ext hp); [| exact Hf]. intros a Hp. eapply Hne; eauto.
  - intros a Hs. assert (Hs' : is_Some (hp !! a) /\ pointer f <> Some a).
    { unfold unheap in Hs. destruct (pointer f) as [b |]; [| split; [exact Hs | discriminate]].
      destruct (decide (a = b)) as [-> | Hab]; [rewrite lookup_delete_eq in Hs; destruct Hs; discriminate |]. rewrite lookup_delete_ne in Hs by auto. split; [exact Hs | congruence]. }
    destruct Hs' as [Hs' Hn]. destruct (Ho a Hs') as (u & g & Eu & Hp). exists u, g. split; [| exact Hp]. rewrite lookup_delete_ne; [exact Eu | intros ->; congruence].
  - intros u v g k a Eu Ev. apply lookup_delete_Some in Eu as [_ Eu]. apply lookup_delete_Some in Ev as [_ Ev]. eauto.
Qed.

Lemma fill fs hp m t f h hp' : structure fs hp m -> fs !! t = None -> represents hp' f h -> unheap f hp' = hp ->
  (forall a, pointer f = Some a -> hp !! a = None) -> structure (<[t := f]> fs) hp' (<[t := h]> m).
Proof.
  intros [Hf Ho Ha] Et Hr He Hn. assert (Hold : forall u g a, fs !! u = Some g -> pointer g = Some a -> pointer f <> Some a /\ hp' !! a = hp !! a).
  { intros u g a Eu Hp. specialize (Hf u). rewrite Eu in Hf. destruct (m !! u) as [k |]; [| destruct Hf]. destruct (represents_pointer _ _ _ _ Hf Hp) as [x Hx].
    assert (Hpf : pointer f <> Some a) by (intros E; rewrite (Hn a E) in Hx; discriminate). split; [exact Hpf |].
    rewrite <- He. unfold unheap. destruct (pointer f); [rewrite lookup_delete_ne by congruence |]; reflexivity. }
  split.
  - intros u. destruct (decide (u = t)) as [-> | Hu]; [rewrite !lookup_insert_eq; exact Hr |]. rewrite !lookup_insert_ne by auto.
    specialize (Hf u). destruct (fs !! u) as [g |] eqn:Eu, (m !! u); auto. apply (represents_ext hp); [| exact Hf]. intros a Hp. eapply Hold; eauto.
  - intros a Hs. destruct (decide (pointer f = Some a)) as [Hp | Hp]; [exists t, f; split; [apply lookup_insert_eq | exact Hp] |].
    assert (Hs' : is_Some (hp !! a)) by (rewrite <- He; unfold unheap; destruct (pointer f); [rewrite lookup_delete_ne by congruence |]; exact Hs).
    destruct (Ho a Hs') as (u & g & Eu & Hg). exists u, g. split; [rewrite lookup_insert_ne; [exact Eu | congruence] | exact Hg].
  - intros u v g k a Eu Ev Hg Hk. destruct (decide (u = t)) as [-> | Hu], (decide (v = t)) as [-> | Hv]; [reflexivity | | |].
    + rewrite lookup_insert_eq in Eu. rewrite lookup_insert_ne in Ev by auto. destruct (Hold v k a Ev Hk). congruence.
    + rewrite lookup_insert_eq in Ev. rewrite lookup_insert_ne in Eu by auto. destruct (Hold u g a Eu Hg). congruence.
    + rewrite lookup_insert_ne in Eu, Ev by auto. eauto.
Qed.

(** ** What is made and destroyed *)
Definition counts (e : event) (l : list event) : nat := length (filter (eq e) l).

Lemma counts_app e l l' : counts e (l ++ l') = (counts e l + counts e l')%nat.
Proof. unfold counts. rewrite filter_app, length_app. reflexivity. Qed.

Definition is_of (F : nat) (h : option (nat * V)) : nat := match h with Some (G, _) => if decide (G = F) then 1 else 0 | None => 0 end.

(** How many callables of a type are held. *)
Definition tally (F : nat) (m : owners) : nat := map_fold (fun _ h n => is_of F h + n)%nat 0%nat m.

Lemma tally_insert F m t h : m !! t = None -> tally F (<[t := h]> m) = (is_of F h + tally F m)%nat.
Proof. intros Ht. unfold tally. rewrite map_fold_insert_L; [reflexivity | intros; lia | exact Ht]. Qed.

Lemma tally_delete F m t h : m !! t = Some h -> tally F m = (is_of F h + tally F (delete t m))%nat.
Proof. intros Ht. rewrite <- (tally_insert F (delete t m) t h) by apply lookup_delete_eq. rewrite insert_delete_id by exact Ht. reflexivity. Qed.

Definition seen (F : nat) (e : event) : list event := if trivially_copyable (type F) then [] else [e].

Definition balanced (l : list event) (m : owners) : Prop :=
  forall F, trivially_copyable (type F) = false -> counts (Constructed F) l = (counts (Destroyed F) l + tally F m)%nat.

Record owning (m : owners) (w : world) : Prop := {
  ow_structure : structure (functions w) (heap w) m;
  ow_balanced : balanced (log w) m
}.

(** An owner's callable destroyed, and one made. *)
Definition freed (f : function) : list event := match pointer f with Some a => [Freed a] | None => [] end.
Definition shed (f : function) (h : option (nat * V)) : list event := match h with Some (F, _) => seen F (Destroyed F) ++ freed f | None => [] end.

Lemma counts_one e e' : counts e [e'] = if decide (e = e') then 1%nat else 0%nat.
Proof. unfold counts. rewrite filter_cons. destruct (decide (e = e')); reflexivity. Qed.

Lemma counts_freed e f : (forall a, e <> Freed a) -> counts e (freed f) = 0%nat.
Proof. intros He. unfold freed. destruct (pointer f); [| reflexivity]. rewrite counts_one, decide_False by apply He. reflexivity. Qed.

Lemma balanced_shed l m t f h : balanced l m -> m !! t = Some h -> balanced (l ++ shed f h) (delete t m).
Proof.
  intros Hb Ht G HG. rewrite !counts_app. specialize (Hb G HG). rewrite (tally_delete _ _ _ _ Ht) in Hb. destruct h as [[F v] |]; cbn [shed is_of] in *; [| cbn; lia].
  rewrite !counts_app, !counts_freed by discriminate. unfold seen. destruct (decide (F = G)) as [-> | Hne].
  - rewrite HG, !counts_one, decide_False, decide_True by congruence. lia.
  - destruct (trivially_copyable (type F)); [cbn; lia |]. rewrite !counts_one, !decide_False by congruence. lia.
Qed.

Lemma balanced_made l m t F v : balanced l m -> m !! t = None -> balanced (l ++ seen F (Constructed F)) (<[t := Some (F, v)]> m).
Proof.
  intros Hb Ht G HG. rewrite !counts_app, tally_insert by exact Ht. specialize (Hb G HG). cbn [is_of]. unfold seen. destruct (decide (F = G)) as [-> | Hne].
  - rewrite HG, !counts_one, decide_True, decide_False by congruence. lia.
  - destruct (trivially_copyable (type F)); [cbn; lia |]. rewrite !counts_one, !decide_False by congruence. lia.
Qed.

Lemma balanced_same l m m' : balanced l m -> (forall F, tally F m' = tally F m) -> balanced l m'.
Proof. intros Hb Ht F HF. rewrite Ht. auto. Qed.

Lemma balanced_quiet l l' m : balanced l m -> (forall F, counts (Constructed F) l' = counts (Destroyed F) l') -> balanced (l ++ l') m.
Proof. intros Hb Hq F HF. rewrite !counts_app, Hq. specialize (Hb F HF). lia. Qed.

(** ** The operations *)
Ltac same_map := apply map_eq; intros ?; rewrite ?lookup_insert, ?lookup_delete; repeat case_decide; subst; try congruence; auto.

Lemma get_does fs hp l t (f : function) : fs !! t = Some f -> get t (World fs hp l) = Ok (f, World fs hp l).
Proof. unfold get. cbn. intros ->. reflexivity. Qed.

Lemma destruct_does F fs hp l : destruct_ type F (World fs hp l) = Ok (tt, World fs hp (l ++ seen F (Destroyed F)) : world).
Proof. unfold destruct_, seen. destruct (trivially_copyable (type F)); [rewrite app_nil_r |]; reflexivity. Qed.

Lemma construct_does F fs hp l : construct type F (World fs hp l) = Ok (tt, World fs hp (l ++ seen F (Constructed F)) : world).
Proof. unfold construct, seen. destruct (trivially_copyable (type F)); [rewrite app_nil_r |]; reflexivity. Qed.

Ltac does := cbn beta iota; unfold kbind at 1;
  first [erewrite get_does by (rewrite ?lookup_insert_eq; first [eassumption | reflexivity | rewrite !lookup_insert_ne by auto; rewrite ?lookup_insert_eq; first [eassumption | reflexivity]])
        | rewrite destruct_does | rewrite construct_does | idtac]; cbn beta iota.

Lemma destroy_does fs hp l t f h : fs !! t = Some f -> represents hp f h ->
  exists f', destroy type t (World fs hp l) = Ok (tt, World (<[t := f']> fs) (unheap f hp) (l ++ shed f h)).
Proof.
  intros Et Hr. unfold destroy. does. unfold represents, unheap, shed, freed, pointer in *. destruct h as [[F v] |].
  - destruct Hr as [_ Hr]. destruct (use_heap F).
    + destruct Hr as (a & -> & Ha). cbn. exists (Fn (heap_ptr a) (Some (invoke_heap F)) (Some (manage_heap F))). rewrite insert_id by exact Et.
      does. cbn. unfold delete_, kget, kensure. unfold kbind at 1. cbn. rewrite Ha, Nat.eqb_refl. cbn. unfold kbind. rewrite destruct_does. cbn. rewrite <- app_assoc. reflexivity.
    + subst f. destruct (trivially_copyable (type F)) eqn:Etr; cbn.
      * eexists. rewrite insert_id by exact Et. unfold seen. rewrite Etr, app_nil_r. reflexivity.
      * exists (Fn none (Some (invoke_inline F)) (Some (manage_inline F))). does. cbn. rewrite Nat.eqb_refl. unfold klift. unfold kbind at 1. cbn. does. unfold set_buffer. does. rewrite app_nil_r. reflexivity.
  - destruct Hr as [_ ->]. exists f. rewrite insert_id by exact Et. rewrite app_nil_r. destruct (buffer f); reflexivity.
Qed.

Definition moved (h : option (nat * V)) : list event :=
  match h with Some (F, _) => if use_heap F then [] else seen F (Constructed F) ++ seen F (Destroyed F) | None => [] end.

(** The move of a buffer that no manager looks after. *)
Lemma plain_take fs hp l t o f0 g l' : t <> o -> fs !! t = Some f0 -> fs !! o = Some g -> manager g = None -> l' = l ->
  exists go, invoker go = None /\ manager go = None /\
    (set_buffer t (buffer g) ;;* hand_over_pointers t o) (World fs hp l) = Ok (tt, World (<[o := go]> (<[t := g]> fs)) hp l' : world).
Proof.
  intros Hne Et Eo Hm ->. exists (Fn (buffer g) None None). split; [reflexivity |]. split; [reflexivity |].
  unfold set_buffer. unfold kbind at 1. does. unfold put, kmodify. cbn. unfold hand_over_pointers. does. does. unfold put, kmodify. unfold kbind at 1. cbn. does. cbn.
  f_equal. f_equal. f_equal. destruct g. same_map.
Qed.

Lemma take_does fs hp l t o f0 g h : t <> o -> fs !! t = Some f0 -> fs !! o = Some g -> represents hp g h ->
  exists go, invoker go = None /\ manager go = None /\ take type t o (World fs hp l) = Ok (tt, World (<[o := go]> (<[t := g]> fs)) hp (l ++ moved h)).
Proof.
  intros Hne Et Eo Hr. unfold take. does. unfold represents, moved in *. destruct h as [[F v] |].
  - destruct Hr as [_ Hr]. destruct (use_heap F).
    + destruct Hr as (a & -> & _). cbn. exists (Fn (heap_ptr a) None None). split; [reflexivity |]. split; [reflexivity |].
      does. unfold set_buffer. unfold kbind at 1. does. unfold put, kmodify. cbn. unfold hand_over_pointers. does. does. unfold put, kmodify. unfold kbind at 1. cbn. does. cbn.
      rewrite app_nil_r. f_equal. f_equal. f_equal. same_map.
    + subst g. destruct (trivially_copyable (type F)) eqn:Etr; cbn.
      * apply (plain_take fs hp l t o f0 _ _ Hne Et Eo eq_refl). unfold seen. rewrite Etr. apply app_nil_r.
      * exists (Fn none None None). split; [reflexivity |]. split; [reflexivity |].
        does. cbn. rewrite Nat.eqb_refl. unfold klift. unfold kbind at 1. cbn. does. unfold set_buffer. unfold kbind at 1. does. unfold put, kmodify. cbn.
        does. unfold kbind at 1. does. cbn. unfold hand_over_pointers. does. does. unfold put, kmodify. unfold kbind at 1. cbn. does. cbn.
        rewrite <- app_assoc. f_equal. f_equal. f_equal. same_map.
  - destruct Hr as [Hi Hm]. rewrite Hm. apply (plain_take fs hp l t o f0 g _ Hne Et Eo Hm). apply app_nil_r.
Qed.

(** One owner's content replaced by another. *)
Lemma refill fs hp m t f h f2 h2 hp2 : structure fs hp m -> fs !! t = Some f -> m !! t = Some h -> represents hp2 f2 h2 -> unheap f2 hp2 = unheap f hp ->
  (forall a, pointer f2 = Some a -> unheap f hp !! a = None) -> structure (<[t := f2]> fs) hp2 (<[t := h2]> m).
Proof.
  intros Hs Et Em Hr Hu Hn. pose proof (spill fs hp m t f Hs Et) as H1.
  rewrite <- (insert_delete_eq fs), <- (insert_delete_eq m). apply (fill _ (unheap f hp)); auto. apply lookup_delete_eq.
Qed.

Lemma structure_at fs hp m t h : structure fs hp m -> m !! t = Some h -> exists f, fs !! t = Some f /\ represents hp f h.
Proof. intros [Hf _ _] Em. specialize (Hf t). rewrite Em in Hf. destruct (fs !! t) as [f |]; [eauto | destruct Hf]. Qed.

Lemma structure_none fs hp m t : structure fs hp m -> m !! t = None -> fs !! t = None.
Proof. intros [Hf _ _] Em. specialize (Hf t). rewrite Em in Hf. destruct (fs !! t); [destruct Hf | reflexivity]. Qed.

Lemma balanced_dropped l m t f h : balanced l m -> m !! t = Some h -> balanced (l ++ shed f h) (<[t := None]> m).
Proof.
  intros Hb Em. apply (balanced_same _ (delete t m)); [apply balanced_shed; assumption |].
  intros F. rewrite <- (insert_delete_eq m), tally_insert by apply lookup_delete_eq. reflexivity.
Qed.

Lemma balanced_replaced l m t f h F v : balanced l m -> m !! t = Some h -> balanced ((l ++ shed f h) ++ seen F (Constructed F)) (<[t := Some (F, v)]> m).
Proof. intros Hb Em. rewrite <- (insert_delete_eq m). apply balanced_made; [apply balanced_shed; assumption | apply lookup_delete_eq]. Qed.

Lemma emplace_does m w t F v : owning m w -> is_Some (m !! t) -> accepted F = true ->
  exists w', emplace InlineSize storage_align Policy type t F v w = Ok (tt, w') /\ owning (<[t := Some (F, v)]> m) w'.
Proof.
  destruct w as [fs hp l]. intros [Hs Hb] [h Em] Ha. cbn in Hs, Hb. destruct (structure_at _ _ _ _ _ Hs Em) as (f & Ef & Hr).
  destruct (destroy_does fs hp l t f h Ef Hr) as [f' Hd].
  unfold emplace. unfold kensure at 1. unfold kbind at 1. rewrite Ha. unfold kbind at 1. rewrite Hd. cbn beta iota. destruct (use_heap F) eqn:Eh.
  - unfold new_, kget, kmodify, emit. unfold kbind at 2. cbn beta iota zeta. cbn [heap]. set (h1 := unheap f hp). set (a := fresh (dom h1)).
    assert (Hfr : h1 !! a = None) by (apply not_elem_of_dom, is_fresh).
    unfold kbind. cbn. rewrite construct_does. cbn. eexists. split; [reflexivity |]. split; cbn.
    + rewrite insert_insert_eq. apply (refill fs hp m t f h); auto.
      * split; [exact Ha |]. rewrite Eh. exists a. split; [reflexivity | apply lookup_insert_eq].
      * unfold unheap at 1. cbn. apply delete_insert_id. exact Hfr.
      * cbn. intros b [= <-]. exact Hfr.
    + rewrite <- !app_assoc. intros G HG. rewrite !counts_app. pose proof (balanced_replaced l m t f h F v Hb Em G HG) as H. rewrite !counts_app in H.
      rewrite !counts_one, !decide_False by discriminate. lia.
  - unfold kbind. rewrite construct_does. cbn. eexists. split; [reflexivity |]. split; cbn.
    + rewrite insert_insert_eq. apply (refill fs hp m t f h); auto.
      * split; [exact Ha |]. rewrite Eh. reflexivity.
      * unfold unheap at 1, pointer. cbn. destruct (trivially_copyable (type F)); reflexivity.
      * unfold pointer. cbn. destruct (trivially_copyable (type F)); discriminate.
    + apply balanced_replaced; assumption.
Qed.

Lemma reset_does m w t : owning m w -> is_Some (m !! t) -> exists w', reset type t w = Ok (tt, w') /\ owning (<[t := None]> m) w'.
Proof.
  destruct w as [fs hp l]. intros [Hs Hb] [h Em]. cbn in Hs, Hb. destruct (structure_at _ _ _ _ _ Hs Em) as (f & Ef & Hr).
  destruct (destroy_does fs hp l t f h Ef Hr) as [f' Hd]. unfold reset. unfold kbind at 1. rewrite Hd. cbn beta iota. does. unfold put, kmodify. cbn.
  eexists. split; [reflexivity |]. split; cbn.
  - rewrite insert_insert_eq. apply (refill fs hp m t f h); auto; [split; reflexivity | intros a; cbn; discriminate].
  - apply balanced_dropped; assumption.
Qed.

Lemma end_does m w t : owning m w -> is_Some (m !! t) -> exists w', function_end type t w = Ok (tt, w') /\ owning (delete t m) w'.
Proof.
  destruct w as [fs hp l]. intros [Hs Hb] [h Em]. cbn in Hs, Hb. destruct (structure_at _ _ _ _ _ Hs Em) as (f & Ef & Hr).
  destruct (destroy_does fs hp l t f h Ef Hr) as [f' Hd]. unfold function_end. unfold kbind at 1. rewrite Hd. cbn.
  eexists. split; [reflexivity |]. split; cbn.
  - rewrite delete_insert_eq. apply spill; assumption.
  - apply balanced_shed; assumption.
Qed.

(** A callable moved from [o] to [t], which holds none. *)
Lemma take_structure fs hp m t o g go h : structure fs hp m -> fs !! t = None -> m !! t = None -> t <> o -> fs !! o = Some g -> m !! o = Some h ->
  invoker go = None -> manager go = None -> structure (<[o := go]> (<[t := g]> fs)) hp (<[o := None]> (<[t := h]> m)).
Proof.
  intros Hs Et Em Hne Eo Emo Hi Hm. destruct (structure_at _ _ _ _ _ Hs Emo) as (g' & Eg & Hr). assert (g' = g) by congruence. subst g'.
  pose proof (spill fs hp m o g Hs Eo) as H1. assert (Hpn : pointer go = None) by (unfold pointer; rewrite Hm; reflexivity).
  assert (H2 : structure (<[t := g]> (delete o fs)) hp (<[t := h]> (delete o m))).
  { apply (fill _ (unheap g hp)); auto; [rewrite lookup_delete_ne by auto; exact Et |]. intros a Ha. unfold unheap. rewrite Ha. apply lookup_delete_eq. }
  replace (<[o := go]> (<[t := g]> fs)) with (<[o := go]> (<[t := g]> (delete o fs))) by same_map.
  replace (<[o := None]> (<[t := h]> m)) with (<[o := None]> (<[t := h]> (delete o m))) by same_map.
  apply (fill _ hp); auto.
  - rewrite lookup_insert_ne by auto. apply lookup_delete_eq.
  - split; assumption.
  - unfold unheap. rewrite Hpn. reflexivity.
  - rewrite Hpn. discriminate.
Qed.

Lemma tally_moved F m t o h : m !! t = None -> t <> o -> m !! o = Some h -> tally F (<[o := None]> (<[t := h]> m)) = tally F m.
Proof.
  intros Em Hne Eo. rewrite (tally_delete F m o h Eo).
  replace (<[o := None]> (<[t := h]> m)) with (<[o := None]> (<[t := h]> (delete o m))) by same_map.
  rewrite !tally_insert; [reflexivity | rewrite lookup_delete_ne by auto; exact Em | rewrite lookup_insert_ne by auto; apply lookup_delete_eq].
Qed.

Lemma moved_quiet F h : counts (Constructed F) (moved h) = counts (Destroyed F) (moved h).
Proof.
  unfold moved, seen. destruct h as [[G v] |]; [| reflexivity]. destruct (use_heap G); [reflexivity |]. destruct (trivially_copyable (type G)); [reflexivity |].
  rewrite !counts_app, !counts_one. repeat case_decide; congruence || lia.
Qed.

(** [take] into a function that holds nothing yet, or no longer. *)
Lemma take_owning fs hp l m t o f0 h : structure (delete t fs) hp (delete t m) -> balanced l (delete t m) -> fs !! t = Some f0 -> t <> o -> m !! o = Some h ->
  exists w', take type t o (World fs hp l) = Ok (tt, w') /\ owning (<[o := None]> (<[t := h]> m)) w'.
Proof.
  intros Hs Hb Et Hne Eo. assert (Eo' : delete t m !! o = Some h) by (rewrite lookup_delete_ne by auto; exact Eo).
  destruct (structure_at _ _ _ _ _ Hs Eo') as (g & Eg & Hr). rewrite lookup_delete_ne in Eg by auto.
  destruct (take_does fs hp l t o f0 g h Hne Et Eg Hr) as (go & Hi & Hm & Ht). rewrite Ht. eexists. split; [reflexivity |].
  replace (<[o := None]> (<[t := h]> m)) with (<[o := None]> (<[t := h]> (delete t m))) by same_map. split; cbn.
  - replace (<[o := go]> (<[t := g]> fs)) with (<[o := go]> (<[t := g]> (delete t fs))) by same_map.
    apply take_structure; auto; try apply lookup_delete_eq. rewrite lookup_delete_ne by auto. exact Eg.
  - apply balanced_quiet; [| intros F; apply moved_quiet]. apply (balanced_same _ (delete t m)); [exact Hb |].
    intros F. apply tally_moved; auto. apply lookup_delete_eq.
Qed.

Lemma make_does m w t : owning m w -> m !! t = None -> exists w', make t w = Ok (tt, w') /\ owning (<[t := None]> m) w' /\
  functions w' = <[t := Fn none None None]> (functions w) /\ heap w' = heap w /\ log w' = log w.
Proof.
  destruct w as [fs hp l]. intros [Hs Hb] Em. cbn in Hs, Hb. pose proof (structure_none _ _ _ _ Hs Em) as Et.
  unfold make, kget, kensure, put, kmodify, kbind. cbn. rewrite bool_decide_eq_true_2 by exact Et. cbn. eexists. split; [reflexivity |]. cbn. split_and!; auto. split; cbn.
  - apply (fill _ hp); auto; [split; reflexivity | discriminate].
  - apply (balanced_same _ m); [exact Hb |]. intros F. rewrite tally_insert by exact Em. reflexivity.
Qed.

Lemma move_does m w t o h : owning m w -> m !! t = None -> m !! o = Some h ->
  exists w', function_move type t o w = Ok (tt, w') /\ owning (<[o := None]> (<[t := h]> m)) w'.
Proof.
  intros Hw Em Eo. destruct (make_does m w t Hw Em) as (w1 & E1 & _ & Ef & Eh & El). unfold function_move. unfold kbind at 1. rewrite E1. cbn beta iota.
  destruct w1 as [fs hp l]. cbn in Ef, Eh, El. subst fs hp l. destruct Hw as [Hs Hb].
  apply (take_owning _ _ _ m t o (Fn none None None) h); auto.
  - rewrite delete_insert_id, delete_id by eauto using structure_none. exact Hs.
  - rewrite delete_id by exact Em. exact Hb.
  - apply lookup_insert_eq.
  - intros ->. congruence.
Qed.

Lemma assign_does m w t o h : owning m w -> is_Some (m !! t) -> m !! o = Some h ->
  exists w', assign_move type t o w = Ok (tt, w') /\ owning (if (t =? o)%nat then m else <[o := None]> (<[t := h]> m)) w'.
Proof.
  destruct w as [fs hp l]. intros [Hs Hb] [k Em] Eo. cbn in Hs, Hb. destruct (structure_at _ _ _ _ _ Hs Em) as (f & Ef & Hr). unfold assign_move.
  destruct (Nat.eqb_spec t o) as [-> | Hne].
  - does. eexists. split; [reflexivity |]. split; assumption.
  - destruct (destroy_does fs hp l t f k Ef Hr) as [f' Hd]. unfold kbind. rewrite Hd.
    apply (take_owning _ _ _ m t o f' h); auto.
    + rewrite delete_insert_eq. apply spill; assumption.
    + apply balanced_shed; assumption.
    + apply lookup_insert_eq.
Qed.

Lemma tally_called F G m t v v' : m !! t = Some (Some (G, v)) -> tally F (<[t := Some (G, v')]> m) = tally F m.
Proof. intros Em. rewrite (tally_delete F m t _ Em). rewrite <- (insert_delete_eq m), tally_insert by apply lookup_delete_eq. reflexivity. Qed.

Lemma call_does m w t F v a r v' : owning m w -> m !! t = Some (Some (F, v)) -> call F v a = (r, v') ->
  exists w', operator_call call t a w = Ok (r, w') /\ owning (<[t := Some (F, v')]> m) w'.
Proof.
  destruct w as [fs hp l]. intros [Hs Hb] Em Hc. cbn in Hs, Hb. destruct (structure_at _ _ _ _ _ Hs Em) as (f & Ef & Hr). pose proof Hr as [Ha Hrep].
  unfold operator_call. does. destruct (use_heap F) eqn:Eh.
  - destruct Hrep as (p & -> & Hp). cbn. unfold invoke. does. cbn. unfold kget, kensure, kmodify, kret. unfold kbind at 1. cbn. rewrite Hp, Nat.eqb_refl. unfold kbind. cbn. rewrite Hc.
    eexists. split; [reflexivity |]. split; cbn; [| apply (balanced_same _ m); [exact Hb | intros G; eapply tally_called, Em]].
    rewrite <- (insert_id fs t _ Ef). apply (refill fs hp m t _ _ _ _ _ Hs Ef Em).
    + split; [exact Ha |]. rewrite Eh. exists p. split; [reflexivity | apply lookup_insert_eq].
    + unfold unheap. cbn. apply delete_insert_eq.
    + cbn. intros b [= <-]. unfold unheap. cbn. apply lookup_delete_eq.
  - subst f. cbn. unfold invoke. does. cbn. rewrite Nat.eqb_refl. unfold klift, kbind. cbn. rewrite Hc. cbn. eexists. split; [reflexivity |].
    split; cbn; [| apply (balanced_same _ m); [exact Hb | intros G; eapply tally_called, Em]]. apply (refill fs hp m t _ _ _ _ _ Hs Ef Em).
    + split; [exact Ha |]. rewrite Eh. reflexivity.
    + unfold unheap, pointer. cbn. destruct (trivially_copyable (type F)); reflexivity.
    + unfold pointer. cbn. destruct (trivially_copyable (type F)); discriminate.
Qed.

Lemma test_does m w t h : owning m w -> m !! t = Some h -> operator_bool t w = Ok (bool_decide (is_Some h), w).
Proof.
  destruct w as [fs hp l]. intros [Hs _] Em. cbn in Hs. destruct (structure_at _ _ _ _ _ Hs Em) as (f & Ef & Hr). unfold operator_bool. does. unfold kret. do 2 f_equal.
  apply bool_decide_ext. unfold represents in Hr. destruct h as [[F v] |].
  - destruct Hr as [_ Hr]. split; [eauto | intros _]. destruct (use_heap F); [destruct Hr as (a & -> & _) | subst f]; cbn; eauto.
  - destruct Hr as [-> _]. split; intros [? ?]; discriminate.
Qed.

Lemma done_ok (f : M world unit) w w' : f w = Ok (tt, w') -> done f w = Ok (Done (R := R), w').
Proof. unfold done, kbind. intros ->. reflexivity. Qed.

Lemma act_owns u m w m' a : owning m w -> spec u m = Some (m', a) -> exists w', act u w = Ok (a, w') /\ owning m' w'.
Proof.
  intros Hw Hs. destruct u as [t | t F v | t o | t | t o | t | t F v | t F v | t | t x | t]; cbn [spec Function.act] in *.
  - destruct (m !! t) eqn:Em; [discriminate |]. injection Hs as <- <-. destruct (make_does m w t Hw Em) as (w' & E & Ho & _). exists w'. split; [apply done_ok, E | exact Ho].
  - destruct (m !! t) eqn:Em; [discriminate |]. destruct (accepted F) eqn:Ea; [| discriminate]. injection Hs as <- <-.
    destruct (make_does m w t Hw Em) as (w1 & E1 & Ho & _). destruct (emplace_does _ w1 t F v Ho) as (w' & E & Ho'); [rewrite lookup_insert_eq; eauto | exact Ea |].
    exists w'. split; [apply done_ok; unfold function_of, kbind; rewrite E1; exact E |]. rewrite insert_insert_eq in Ho'. exact Ho'.
  - destruct (m !! t) eqn:Em; [discriminate |]. destruct (m !! o) eqn:Eo; [| discriminate]. injection Hs as <- <-.
    destruct (move_does m w t o _ Hw Em Eo) as (w' & E & Ho). exists w'. split; [apply done_ok, E | exact Ho].
  - destruct (m !! t) eqn:Em; [| discriminate]. injection Hs as <- <-. destruct (end_does m w t Hw) as (w' & E & Ho); [eauto |]. exists w'. split; [apply done_ok, E | exact Ho].
  - destruct (m !! t) eqn:Em; [| discriminate]. destruct (m !! o) eqn:Eo; [| discriminate]. injection Hs as <- <-.
    destruct (assign_does m w t o _ Hw ltac:(eauto) Eo) as (w' & E & Ho). exists w'. split; [apply done_ok, E | exact Ho].
  - destruct (m !! t) eqn:Em; [| discriminate]. injection Hs as <- <-. destruct (reset_does m w t Hw) as (w' & E & Ho); [eauto |]. exists w'. split; [apply done_ok, E | exact Ho].
  - destruct (m !! t) eqn:Em; [| discriminate]. destruct (accepted F) eqn:Ea; [| discriminate]. injection Hs as <- <-.
    destruct (emplace_does m w t F v Hw) as (w' & E & Ho); [eauto | exact Ea |]. exists w'. split; [apply done_ok, E | exact Ho].
  - destruct (m !! t) eqn:Em; [| discriminate]. destruct (accepted F) eqn:Ea; [| discriminate]. injection Hs as <- <-.
    destruct (emplace_does m w t F v Hw) as (w' & E & Ho); [eauto | exact Ea |]. exists w'. split; [apply done_ok, E | exact Ho].
  - destruct (m !! t) eqn:Em; [| discriminate]. injection Hs as <- <-. destruct (reset_does m w t Hw) as (w' & E & Ho); [eauto |]. exists w'. split; [apply done_ok, E | exact Ho].
  - destruct (m !! t) as [[[F v] |] |] eqn:Em; try discriminate. destruct (call F v x) as [r v'] eqn:Ec. injection Hs as <- <-.
    destruct (call_does m w t F v x r v' Hw Em Ec) as (w' & E & Ho). exists w'. unfold kbind. rewrite E. split; [reflexivity | exact Ho].
  - destruct (m !! t) eqn:Em; [| discriminate]. injection Hs as <- <-. exists w. unfold kbind. rewrite (test_does m w t _ Hw Em). split; [reflexivity | exact Hw].
Qed.

Lemma acts_own us : forall m w m' l, owning m w -> specs us m = Some (m', l) -> exists w', acts us w = Ok (l, w') /\ owning m' w'.
Proof.
  induction us as [| u us IH]; intros m w m' l Hw; cbn [specs Function.acts].
  - intros [= <- <-]. exists w. split; [reflexivity | exact Hw].
  - destruct (spec u m) as [[m1 a] |] eqn:E1; [| discriminate]. destruct (specs us m1) as [[m2 l2] |] eqn:E2; [| discriminate]. intros [= <- <-].
    destruct (act_owns u m w m1 a Hw E1) as (w1 & A1 & Hw1). destruct (IH m1 w1 m2 l2 Hw1 E2) as (w2 & A2 & Hw2). exists w2. unfold kbind. rewrite A1, A2. split; [reflexivity | exact Hw2].
Qed.

Definition nothing : world := World ∅ ∅ [].

Lemma nothing_owning : owning ∅ nothing.
Proof.
  split; [split; cbn |].
  - intros t. rewrite !lookup_empty. exact I.
  - intros a [? H]. rewrite lookup_empty in H. discriminate.
  - intros t u f g a H. rewrite lookup_empty in H. discriminate.
  - intros F HF. reflexivity.
Qed.

(** What is on the heap is some owner's. *)
Lemma heap_owned fs hp m a : structure fs hp m -> is_Some (hp !! a) -> exists t F v, m !! t = Some (Some (F, v)) /\ use_heap F = true /\ accepted F = true /\ hp !! a = Some (F, v).
Proof.
  intros [Hf Ho _] Ha. destruct (Ho a Ha) as (t & f & Et & Hp). specialize (Hf t). rewrite Et in Hf. destruct (m !! t) as [[[F v] |] |] eqn:Em; [| | destruct Hf].
  - destruct Hf as [Hacc Hf]. exists t, F, v. destruct (use_heap F) eqn:Eh; [destruct Hf as (b & -> & Hb); injection Hp as <-; auto |].
    subst f. unfold pointer in Hp. cbn in Hp. destruct (trivially_copyable _); discriminate.
  - destruct Hf as [_ Hm]. unfold pointer in Hp. rewrite Hm in Hp. discriminate.
Qed.

Lemma tally_none F m : (forall t h, m !! t = Some h -> h = None) -> tally F m = 0%nat.
Proof.
  unfold tally. induction m as [| t h m Ht IH] using map_ind; intros H; [reflexivity |].
  change (tally F (<[t := h]> m) = 0%nat). rewrite tally_insert by exact Ht. rewrite (H t h) by apply lookup_insert_eq. cbn. apply IH.
  intros u k Hu. apply (H u). rewrite lookup_insert_ne by congruence. exact Hu.
Qed.
End owner.

(** C21: a function owns at most one callable, and nothing is lost or destroyed
    twice.  Whatever a program does with functions, as long as it touches only
    those there are, calls none that is empty and stores nothing that the policy
    refuses: every operation finishes and answers as if each function simply
    held its callable's value, moves, self-assignments and replacements
    included; every callable that was constructed is held or was destroyed, just
    once; whatever is on the heap is the callable of one function; with no_heap
    nothing ever is; and when no function holds anything the heap is empty and
    everything has been destroyed. *)
Theorem functions_own_what_they_hold {V A R : Type} (InlineSize storage_align : Z) (Policy : heap_policy) (type : nat -> traits) (call : nat -> V -> A -> R * V)
  (us : list (use V A)) (m : gmap nat (option (nat * V))) (l : list (answer R)) :
  specs InlineSize storage_align Policy type call us ∅ = Some (m, l) ->
  exists w, acts InlineSize storage_align Policy type call us nothing = Ok (l, w) /\
    (forall F, trivially_copyable (type F) = false -> counts (Constructed F) (log w) = (counts (Destroyed F) (log w) + tally F m)%nat) /\
    (forall a, is_Some (heap w !! a) -> exists t F v, m !! t = Some (Some (F, v)) /\ heap w !! a = Some (F, v)) /\
    (Policy = no_heap -> heap w = ∅) /\
    ((forall t h, m !! t = Some h -> h = None) ->
      heap w = ∅ /\ forall F, trivially_copyable (type F) = false -> counts (Constructed F) (log w) = counts (Destroyed F) (log w)).
Proof.
  intros Hs. destruct (acts_own InlineSize storage_align Policy type call us ∅ nothing m l (nothing_owning _ _ _ _) Hs) as (w & E & [Hst Hb]).
  pose proof (fun a => heap_owned InlineSize storage_align Policy type _ _ m a Hst) as Ho. exists w. split_and!.
  - exact E.
  - exact Hb.
  - intros a Ha. destruct (Ho a Ha) as (t & F & v & Hm & _ & _ & Hv). eauto.
  - intros ->. apply map_empty. intros a. destruct (heap w !! a) as [p |] eqn:Ea; [exfalso | reflexivity].
    destruct (Ho a ltac:(eauto)) as (t & F & v & _ & Hu & Hacc & _). unfold accepted in Hacc. rewrite Hu in Hacc. discriminate.
  - intros Hn. split.
    + apply map_empty. intros a. destruct (heap w !! a) as [p |] eqn:Ea; [exfalso | reflexivity].
      destruct (Ho a ltac:(eauto)) as (t & F & v & Hm & _). specialize (Hn _ _ Hm). discriminate.
    + intros F HF. rewrite (Hb F HF), (tally_none F m Hn). lia.
Qed.

(** Type 0 is plain and small, 1 small with a destructor, 2 too big to be
    inline. *)
Definition some_types (F : nat) : traits := match F with 0%nat => Traits 8 8 true | 1%nat => Traits 24 8 false | _ => Traits 64 8 false end.
Definition counting (F : nat) (v a : Z) : Z * Z := (v + a, v + 1).

Definition some_uses : list (use Z Z) :=
  [Of 0 0 5; Of 1 1 6; Make 2; AssignMove 2 1; Call 2 10; Call 2 10; Emplace 1 2 7; MoveMake 3 1; Test 1; Call 3 0; AssignMove 3 3; AssignMove 0 3; Test 0; Call 0 1;
   AssignNull 0; Reset 2; End 3; End 1].

Definition some_answers : list (answer Z) :=
  [Done; Done; Done; Done; Returned 16; Returned 17; Done; Done; Holds false; Returned 7; Done; Done; Holds true; Returned 9; Done; Done; Done; Done].
Definition some_owners : gmap nat (option (nat * Z)) := <[2%nat := None]> (<[0%nat := None]> ∅).

Lemma functions_own_what_they_hold_witness :
  exists w, acts 32 16 can_use_heap some_types counting some_uses nothing = Ok (some_answers, w) /\
    heap w = ∅ /\ counts (Constructed 1) (log w) = counts (Destroyed 1) (log w) /\ counts (Constructed 2) (log w) = counts (Destroyed 2) (log w).
Proof.
  destruct (functions_own_what_they_hold 32 16 can_use_heap some_types counting some_uses some_owners some_answers ltac:(vm_compute; reflexivity)) as (w & E & _ & _ & _ & H).
  exists w. split; [exact E |]. destruct H as [Hh Hc].
  - intros t h Ht. unfold some_owners in Ht. apply lookup_insert_Some in Ht as [[_ <-] | [_ Ht]]; [reflexivity |]. apply lookup_insert_Some in Ht as [[_ <-] | [_ Ht]]; [reflexivity |]. rewrite lookup_empty in Ht. discriminate.
  - split; [exact Hh |]. split; apply Hc; reflexivity.
Defined.
