(* ===== verification/SparcSwitch.v ===== *)
(** * How SPARC V8 switches threads: port_core_sparcv8.cpp

    A call's registers are in a window; the windows are a ring, one of them
    invalid, and a thread's older windows are on its stack.  The window traps
    spill and fill; the trap entry and exit save, switch and resume; the C
    dispatch between them, the handlers it calls, and the interrupts that nest
    in those, call and return and so use windows of their own.

    One core, soft float.  A thread, a handler and the interrupt stack each have
    memory of their own; the words here are those of the stacks.  C is seen as
    its calls ([act]): each pushes a window, leaves what it likes in the locals,
    the outs but its stack pointer, and the globals, and pops.  The error state,
    a trap while traps are off, is a failed check ([fatal_failed]).  The kernel's
    picks and the handlers' decisions are arguments; nothing nests in the entry
    and exit themselves, which run at level 15, and a handler takes no fault. *)

From S2P Require Import Prelude.
Local Open Scope Z_scope.

Module SparcSwitch.
(** ** Constants *)
Definition F_PSR : Z := 0.
Definition F_PC : Z := 4.
Definition F_NPC : Z := 8.
Definition F_Y : Z := 12.
Definition F_G0 : Z := 16.
Definition F_O0 : Z := 48.
Definition F_BYTES : Z := 80.
Definition window_save_bytes : Z := 64.
Definition min_frame_bytes : Z := 96.

Definition psr_cwp_mask : Z := 31.
Definition psr_et : Z := Z.shiftl 1 5.
Definition psr_ps : Z := Z.shiftl 1 6.
Definition psr_s : Z := Z.shiftl 1 7.
Definition psr_pil_mask : Z := Z.shiftl 15 8.
Definition pil_irq_bits : Z := Z.shiftl 14 8.
Definition pil_preempt_bits : Z := Z.shiftl 1 8.
Definition pil_masked_preempt : Z := 15.
Definition reschedule_level : Z := 1.
Definition tt_window_overflow : Z := 5.
Definition tt_window_underflow : Z := 6.
Definition tt_interrupt_first : Z := 17.
Definition tt_interrupt_last : Z := 31.
Definition tt_software : Z := 128.
Definition tt_flush : Z := tt_software + 3.
Definition tt_yield : Z := tt_software + 9.
Definition tt_direct_switch : Z := tt_software + 10.

(** ** State *)

(** A window's registers: locals 0 to 7, ins 8 to 15.  Its outs are the ins of
    the window below. *)
Abbreviation window := (gmap nat Z).

Record core_state := CoreState { cs_frame : Z; irq_stack : Z; depth : Z }.
Record interrupt_decision := Decision { owed_from : option nat; owed_to : option nat; outer_interrupt : bool }.

(** [psr] is the register without CWP and ET.  A thread's context, its frame's
    address, is at its own number. *)
Record cpu := Cpu {
  cwp : nat;
  et : bool;
  psr : Z;
  wim : Z;
  file : gmap nat window;
  glob : gmap nat Z;
  yreg : Z;
  pc : Z;
  npc : Z;
  mem : gmap Z Z;
  contexts : gmap nat Z;
  core : core_state;
  decision : interrupt_decision;
  running : nat;
  raised : bool                  (* the reschedule, at the interrupt controller *)
}.

Definition set_cwp v s := Cpu v (et s) (psr s) (wim s) (file s) (glob s) (yreg s) (pc s) (npc s) (mem s) (contexts s) (core s) (decision s) (running s) (raised s).
Definition set_et v s := Cpu (cwp s) v (psr s) (wim s) (file s) (glob s) (yreg s) (pc s) (npc s) (mem s) (contexts s) (core s) (decision s) (running s) (raised s).
Definition set_psr v s := Cpu (cwp s) (et s) v (wim s) (file s) (glob s) (yreg s) (pc s) (npc s) (mem s) (contexts s) (core s) (decision s) (running s) (raised s).
Definition set_wim v s := Cpu (cwp s) (et s) (psr s) v (file s) (glob s) (yreg s) (pc s) (npc s) (mem s) (contexts s) (core s) (decision s) (running s) (raised s).
Definition set_file v s := Cpu (cwp s) (et s) (psr s) (wim s) v (glob s) (yreg s) (pc s) (npc s) (mem s) (contexts s) (core s) (decision s) (running s) (raised s).
Definition set_glob v s := Cpu (cwp s) (et s) (psr s) (wim s) (file s) v (yreg s) (pc s) (npc s) (mem s) (contexts s) (core s) (decision s) (running s) (raised s).
Definition set_yreg v s := Cpu (cwp s) (et s) (psr s) (wim s) (file s) (glob s) v (pc s) (npc s) (mem s) (contexts s) (core s) (decision s) (running s) (raised s).
Definition set_pcs v w s := Cpu (cwp s) (et s) (psr s) (wim s) (file s) (glob s) (yreg s) v w (mem s) (contexts s) (core s) (decision s) (running s) (raised s).
Definition set_mem v s := Cpu (cwp s) (et s) (psr s) (wim s) (file s) (glob s) (yreg s) (pc s) (npc s) v (contexts s) (core s) (decision s) (running s) (raised s).
Definition set_contexts v s := Cpu (cwp s) (et s) (psr s) (wim s) (file s) (glob s) (yreg s) (pc s) (npc s) (mem s) v (core s) (decision s) (running s) (raised s).
Definition set_core v s := Cpu (cwp s) (et s) (psr s) (wim s) (file s) (glob s) (yreg s) (pc s) (npc s) (mem s) (contexts s) v (decision s) (running s) (raised s).
Definition set_decision v s := Cpu (cwp s) (et s) (psr s) (wim s) (file s) (glob s) (yreg s) (pc s) (npc s) (mem s) (contexts s) (core s) v (running s) (raised s).
Definition set_running v s := Cpu (cwp s) (et s) (psr s) (wim s) (file s) (glob s) (yreg s) (pc s) (npc s) (mem s) (contexts s) (core s) (decision s) v (raised s).
Definition set_raised v s := Cpu (cwp s) (et s) (psr s) (wim s) (file s) (glob s) (yreg s) (pc s) (npc s) (mem s) (contexts s) (core s) (decision s) (running s) v.

Definition set_cs_frame v c := CoreState v (irq_stack c) (depth c).
Definition set_irq_stack v c := CoreState (cs_frame c) v (depth c).
Definition set_depth v c := CoreState (cs_frame c) (irq_stack c) v.

Local Abbreviation T := (M cpu).

Definition get_context (t : nat) : T Z := fun s => match contexts s !! t with Some c => Ok (c, s) | None => Panic bad_pointer end.

(** ** Registers, windows, words *)
Definition rg (m : gmap nat Z) (r : nat) : Z := default 0 (m !! r).
Definition wd (m : gmap Z Z) (a : Z) : Z := default 0 (m !! a).
Definition wn (f : gmap nat window) (w : nat) : window := default ∅ (f !! w).
Definition reg (f : gmap nat window) (w r : nat) : Z := rg (wn f w) r.
Definition setr (w r : nat) (v : Z) (f : gmap nat window) : gmap nat window := <[w := <[r := v]> (wn f w)]> f.

Section windows.
Context (N : nat).    (* how many *)

Definition up (w : nat) : nat := if (w + 1 <? N)%nat then (w + 1)%nat else 0%nat.
Definition down (w : nat) : nat := match w with O => (N - 1)%nat | S w => w end.
Definition invalid (s : cpu) (w : nat) : bool := Z.testbit (wim s) (Z.of_nat w).

Definition get_l (j : nat) (s : cpu) : Z := reg (file s) (cwp s) j.
Definition get_i (j : nat) (s : cpu) : Z := reg (file s) (cwp s) (8 + j).
Definition get_o (j : nat) (s : cpu) : Z := reg (file s) (down (cwp s)) (8 + j).
Definition get_g (j : nat) (s : cpu) : Z := rg (glob s) j.
Definition set_win (w r : nat) (v : Z) (s : cpu) : cpu := set_file (setr w r v (file s)) s.
Definition li_l (j : nat) (v : Z) : T unit := kmodify (fun s => set_win (cwp s) j v s).
Definition li_i (j : nat) (v : Z) : T unit := kmodify (fun s => set_win (cwp s) (8 + j) v s).
Definition li_o (j : nat) (v : Z) : T unit := kmodify (fun s => set_win (down (cwp s)) (8 + j) v s).
Definition li_g (j : nat) (v : Z) : T unit := kmodify (fun s => set_glob (<[j := v]> (glob s)) s).
Definition sp_of (s : cpu) : Z := get_o 6 s.
Definition st (a v : Z) : T unit := kmodify (fun s => set_mem (<[a := v]> (mem s)) s).

(** The eight [std]s and [ldd]s of a window at its own sp. *)
Definition save16 (a : Z) (w : window) (m : gmap Z Z) : gmap Z Z := foldl (fun m r => <[a + 4 * Z.of_nat r := rg w r]> m) m (seq 0 16).
Definition load16 (a : Z) (m : gmap Z Z) : window := foldl (fun w r => <[r := wd m (a + 4 * Z.of_nat r)]> w) ∅ (seq 0 16).
Definition std16 : T unit := kmodify (fun s => set_mem (save16 (sp_of s) (wn (file s) (cwp s)) (mem s)) s).
Definition ldd16 : T unit := kmodify (fun s => set_file (<[cwp s := load16 (sp_of s) (mem s)]> (file s)) s).

(** [wr %wim]: the bits of windows there are not do not exist. *)
Definition wr_wim (v : Z) : T unit := kmodify (set_wim (Z.land v (Z.ones (Z.of_nat N)))).

(** The PSR as it is read and written. *)
Definition rd_psr (s : cpu) : Z := Z.lor (psr s) (Z.lor (Z.of_nat (cwp s)) (if et s then psr_et else 0)).
Definition wr_psr (v : Z) : T unit :=
  kmodify (fun s => set_psr (Z.ldiff v (Z.lor psr_cwp_mask psr_et)) (set_et (Z.testbit v 5) (set_cwp (Z.to_nat (Z.land v psr_cwp_mask)) s))).

(** [save] and [restore] with traps off: into the invalid window is the error
    state. *)
Definition save_ : T unit :=
  let* s := kget id in
  kensure fatal_failed (negb (invalid s (down (cwp s)))) ;;* kmodify (set_cwp (down (cwp s))).
Definition restore_ : T unit :=
  let* s := kget id in
  kensure fatal_failed (negb (invalid s (up (cwp s)))) ;;* kmodify (set_cwp (up (cwp s))).

(** A trap, and its table entry; and the way back. *)
Definition take_trap (tt : Z) : T unit :=
  let* on := kget et in
  kensure fatal_failed on ;;*
  kmodify (fun s => set_cwp (down (cwp s)) (set_et false s)) ;;*
  let* p := kget pc in li_l 1 p ;;*
  let* p := kget npc in li_l 2 p ;;*
  let* p := kget rd_psr in li_l 0 p ;;*
  li_l 3 tt.

(** [jmp a; rett b]. *)
Definition rett (a b : Z) : T unit :=
  let* s := kget id in
  kensure fatal_failed (negb (et s)) ;;*
  kensure fatal_failed (negb (invalid s (up (cwp s)))) ;;*
  kmodify (fun s => set_pcs a b (set_et true (set_cwp (up (cwp s)) s))).

(** ** The window traps *)
Definition srl (v : Z) (n : Z) : Z := Z.shiftr (u32 v) (n mod 32).
Definition sll (v : Z) (n : Z) : Z := u32 (Z.shiftl v (n mod 32)).

Definition window_overflow : T unit :=
  take_trap tt_window_overflow ;;*
  let* w := kget wim in li_l 3 w ;;*
  let* g1 := kget (get_g 1) in li_l 7 g1 ;;*
  li_g 1 (srl w 1) ;;*
  li_l 4 (sll w (Z.of_nat (N - 1))) ;;*
  let* l4 := kget (get_l 4) in
  let* g1 := kget (get_g 1) in
  li_g 1 (Z.lor l4 g1) ;;*
  save_ ;;*
  let* g1 := kget (get_g 1) in wr_wim g1 ;;*
  std16 ;;*
  restore_ ;;*
  let* l7 := kget (get_l 7) in li_g 1 l7 ;;*
  let* l1 := kget (get_l 1) in
  let* l2 := kget (get_l 2) in
  rett l1 l2.

Definition window_underflow : T unit :=
  take_trap tt_window_underflow ;;*
  let* w := kget wim in li_l 3 w ;;*
  li_l 4 (sll w 1) ;;*
  li_l 5 (srl w (Z.of_nat (N - 1))) ;;*
  let* l4 := kget (get_l 4) in
  let* l5 := kget (get_l 5) in
  li_l 5 (Z.lor l5 l4) ;;*
  let* l5 := kget (get_l 5) in wr_wim l5 ;;*
  restore_ ;;* restore_ ;;*
  ldd16 ;;*
  save_ ;;* save_ ;;*
  let* l1 := kget (get_l 1) in
  let* l2 := kget (get_l 2) in
  rett l1 l2.

(** [save] and [restore] with traps on: re-executed after their trap. *)
Definition save (n : Z) : T unit :=
  let* s := kget id in
  (if invalid s (down (cwp s)) then window_overflow else kret tt) ;;*
  let* sp := kget sp_of in
  save_ ;;*
  li_o 6 (u32 (sp - n)).

Definition restore : T unit :=
  let* s := kget id in
  (if invalid s (up (cwp s)) then window_underflow else kret tt) ;;*
  restore_.

(** [WINDOW_UP]: add, compare, subtract if too far. *)
Definition window_up (v n : Z) : Z := let v := v + n in if v <? Z.of_nat N then v else v - Z.of_nat N.

(** The walk of the flushes: each window above, up to the invalid one, to its
    stack.  The window's number is in %g[gn], WIM in %g2; [put] says where the
    mask is made. *)
Fixpoint walk (gn : nat) (put : Z -> T unit) (fuel : nat) : T unit :=
  match fuel with
  | O => klift (Panic out_of_fuel)
  | S fuel =>
      let* n := kget (get_g gn) in li_g gn (window_up n 1) ;;*
      let* n := kget (get_g gn) in put (sll 1 n) ;;*
      let* g2 := kget (get_g 2) in
      if negb (Z.land (sll 1 n) g2 =? 0) then kret tt
      else restore_ ;;* std16 ;;* walk gn put fuel
  end.

Definition flush_windows : T unit :=
  take_trap tt_flush ;;*
  let* g := kget (get_g 1) in li_l 3 g ;;*
  let* g := kget (get_g 2) in li_l 4 g ;;*
  let* g := kget (get_g 3) in li_l 5 g ;;*
  let* g := kget (get_g 4) in li_l 6 g ;;*
  let* l0 := kget (get_l 0) in li_g 4 l0 ;;*
  let* w := kget wim in li_g 2 w ;;*
  li_g 1 (window_up (Z.land l0 psr_cwp_mask) 1) ;;*
  restore_ ;;*
  walk 1 (li_g 3) N ;;*
  let* g4 := kget (get_g 4) in wr_psr g4 ;;*
  li_g 1 (window_up (Z.land g4 psr_cwp_mask) 2) ;;*
  let* g1 := kget (get_g 1) in li_g 3 (sll 1 g1) ;;*
  let* g3 := kget (get_g 3) in wr_wim g3 ;;*
  let* l := kget (get_l 3) in li_g 1 l ;;*
  let* l := kget (get_l 4) in li_g 2 l ;;*
  let* l := kget (get_l 5) in li_g 3 l ;;*
  let* l := kget (get_l 6) in li_g 4 l ;;*
  let* l2 := kget (get_l 2) in
  rett l2 (u32 (l2 + 4)).

(** ** The trap entry *)

(** [ta 9]'s and [ta 10]'s own half: every window of the thread's to its
    stack. *)
Definition yield_entry : T unit :=
  let* g := kget (get_g 1) in li_l 4 g ;;*
  let* g := kget (get_g 2) in li_l 5 g ;;*
  let* g := kget (get_g 3) in li_l 6 g ;;*
  let* l0 := kget (get_l 0) in li_g 3 l0 ;;*
  let* w := kget wim in li_g 2 w ;;*
  li_g 1 (Z.land l0 psr_cwp_mask) ;;*
  walk 1 (li_l 7) N ;;*
  let* g3 := kget (get_g 3) in wr_psr g3 ;;*
  li_g 1 (window_up (Z.land g3 psr_cwp_mask) 1) ;;*
  let* g1 := kget (get_g 1) in li_g 2 (sll 1 g1) ;;*
  let* g2 := kget (get_g 2) in wr_wim g2 ;;*
  let* l := kget (get_l 4) in li_g 1 l ;;*
  let* l := kget (get_l 5) in li_g 2 l ;;*
  let* l := kget (get_l 6) in li_g 3 l.

(** Its first step: the trap's own window made valid, if it was not. *)
Definition own_window : T unit :=
  let* w := kget wim in li_g 1 w ;;*
  let* l0 := kget (get_l 0) in
  li_g 2 (srl w l0) ;;*
  let* g2 := kget (get_g 2) in
  li_g 2 (sll w (Z.of_nat (N - 1))) ;;*
  if g2 =? 1 then
    li_g 1 (srl w 1) ;;*
    let* g1 := kget (get_g 1) in
    let* g2 := kget (get_g 2) in
    li_g 1 (Z.lor g1 g2) ;;*
    save_ ;;*
    let* g1 := kget (get_g 1) in wr_wim g1 ;;*
    std16 ;;*
    restore_
  else kret tt.

(** Registers to consecutive words, and back. *)
Definition put_words (a : Z) (l : list Z) : T unit :=
  kmodify (fun s => set_mem (foldl (fun m j => <[a + 4 * Z.of_nat j := nth j l 0]> m) (mem s) (seq 0 (length l))) s).
Definition ins (s : cpu) : list Z := map (fun j => get_i j s) (seq 0 8).
Definition fill_ins (a : Z) : T unit :=
  kmodify (fun s => set_file (<[cwp s := foldl (fun w j => <[(8 + j)%nat := wd (mem s) (a + 4 * Z.of_nat j)]> w) (wn (file s) (cwp s)) (seq 0 8)]> (file s)) s).

Definition store_frame (f : Z) : T unit :=
  let* l0 := kget (get_l 0) in st (f + F_PSR) l0 ;;*
  let* l1 := kget (get_l 1) in st (f + F_PC) l1 ;;*
  let* l2 := kget (get_l 2) in st (f + F_NPC) l2 ;;*
  let* y := kget yreg in st (f + F_Y) y ;;*
  let* l4 := kget (get_l 4) in
  let* l5 := kget (get_l 5) in
  let* g := kget glob in
  put_words (f + F_G0) [0; l4; l5; rg g 3; rg g 4; rg g 5; rg g 6; rg g 7] ;;*
  let* i := kget ins in
  put_words (f + F_O0) i.

(** The trap counted, its frame the thread's if it is the outermost; the stack
    its handler runs on. *)
Definition count_trap (f : Z) : T unit :=
  let* c := kget core in
  kmodify (set_core (set_depth (depth c + 1) c)) ;;*
  let* g1 :=
    if negb (depth c =? 0) then kret f
    else
      let* c := kget core in
      kmodify (set_core (set_cs_frame f c)) ;;*
      kret (if irq_stack c =? 0 then f else irq_stack c) in
  li_o 6 (g1 - 96).

(** ** The trap exit *)

Definition trap_resume : T unit :=
  let* l5 := kget (get_l 5) in
  fill_ins (l5 + F_O0) ;;*
  let* m := kget mem in
  li_g 1 (wd m (l5 + F_Y)) ;;*
  let* g1 := kget (get_g 1) in kmodify (set_yreg g1) ;;*
  kmodify (fun s => set_glob (foldl (fun g j => <[j := wd m (l5 + F_G0 + 4 * Z.of_nat j)]> g) (glob s) (seq 2 6)) s) ;;*
  li_l 0 (wd m (l5 + F_PSR)) ;;*
  li_l 1 (wd m (l5 + F_PC)) ;;*
  li_l 2 (wd m (l5 + F_NPC)) ;;*
  let* p := kget rd_psr in li_l 3 (Z.land p psr_cwp_mask) ;;*
  let* l0 := kget (get_l 0) in
  let* l3 := kget (get_l 3) in
  li_l 0 (Z.lor (Z.ldiff l0 63) l3) ;;*
  let* l0 := kget (get_l 0) in wr_psr l0 ;;*
  li_g 1 (wd m (l5 + F_G0 + 4)) ;;*
  let* l1 := kget (get_l 1) in
  let* l2 := kget (get_l 2) in
  rett l1 l2.

Definition trap_fill : T unit :=
  let* g3 := kget (get_g 3) in li_g 4 (window_up g3 2) ;;*
  let* g4 := kget (get_g 4) in li_g 5 (sll 1 g4) ;;*
  let* g5 := kget (get_g 5) in wr_wim g5 ;;*
  let* l5 := kget (get_l 5) in
  fill_ins (l5 + F_O0) ;;*
  restore_ ;;* ldd16 ;;* save_ ;;*
  trap_resume.

Definition trap_exit : T unit :=
  let* p := kget rd_psr in li_g 1 (Z.ldiff p psr_et) ;;*
  let* g1 := kget (get_g 1) in wr_psr g1 ;;*
  kmodify (fun s => set_core (set_depth (depth (core s) - 1) (core s)) s) ;;*
  li_g 3 (Z.land g1 psr_cwp_mask) ;;*
  let* w := kget wim in li_g 2 w ;;*
  let* l5 := kget (get_l 5) in
  let* l6 := kget (get_l 6) in
  let* g3 := kget (get_g 3) in
  if l5 =? l6 then
    li_g 4 (window_up g3 1) ;;*
    let* g4 := kget (get_g 4) in li_g 5 (sll 1 g4) ;;*
    let* g5 := kget (get_g 5) in
    let* g2 := kget (get_g 2) in
    if Z.land g5 g2 =? 0 then trap_resume else trap_fill
  else
    li_g 4 g3 ;;*
    walk 4 (li_g 5) N ;;*
    let* g1 := kget (get_g 1) in wr_psr g1 ;;*
    trap_fill.

(** ** The switch, and the switches the kernel decides *)
Definition set_pil (level : Z) : T unit := kmodify (fun s => set_psr (Z.lor (Z.ldiff (psr s) psr_pil_mask) (Z.shiftl level 8)) s).

Definition cyros_port_switch (from : option nat) (to : nat) : T unit :=
  let* c := kget core in
  kensure assert_failed (depth c =? 1) ;;*
  let* f := get_context to in
  kensure assert_failed (negb (f =? 0)) ;;*
  (match from with Some from => get_context from ;;* kmodify (fun s => set_contexts (<[from := cs_frame c]> (contexts s)) s) | None => kret tt end) ;;*
  let* f := get_context to in
  kmodify (fun s => set_core (set_cs_frame f (core s)) s).

Definition cyros_port_interrupted_at_baseline : T bool :=
  let* d := kget decision in
  let* c := kget core in
  let* m := kget mem in
  kret (outer_interrupt d && (Z.land (wd m (cs_frame c + F_PSR)) pil_preempt_bits =? 0)).

Definition cyros_port_owe_switch (from to : nat) : T unit :=
  let* d := kget decision in
  kensure assert_failed (outer_interrupt d) ;;*
  get_context to ;;*
  kensure assert_failed (negb (to =? from)%nat) ;;*
  kmodify (set_decision (Decision (match owed_to d with None => Some from | Some _ => owed_from d end) (Some to) (outer_interrupt d))).

Definition cyros_port_masked_from_baseline (token : Z) : T bool :=
  let* s := kget id in
  kret ((token =? 0) && (depth (core s) =? 0) && (Z.land (psr s) pil_preempt_bits =? 0)).

Definition reschedule_raise : T unit := kmodify (set_raised true).
Definition cyros_port_pend_reschedule : T unit := reschedule_raise.

(** ** C *)

(** A function's use of its registers: locals and arguments as it likes, its
    outs but the stack pointer, and the globals. *)
Definition junk_locals (junk : gmap nat Z) (w : window) : window := foldl (fun w j => <[j := rg junk j]> w) w (seq 0 14).
Definition junk_outs (junk : gmap nat Z) (w : window) : window := foldl (fun w j => <[(8 + j)%nat := rg junk (16 + j)]> w) w [0; 1; 2; 3; 4; 5; 7]%nat.
Definition junk_globals (junk : gmap nat Z) (g : gmap nat Z) : gmap nat Z := foldl (fun g j => <[j := rg junk (24 + j)]> g) g (seq 1 7).
Definition scribble (junk : gmap nat Z) : T unit :=
  kmodify (fun s => set_file (<[cwp s := junk_locals junk (wn (file s) (cwp s))]> (file s)) s) ;;*
  kmodify (fun s => set_file (<[down (cwp s) := junk_outs junk (wn (file s) (down (cwp s)))]> (file s)) s) ;;*
  kmodify (fun s => set_glob (junk_globals junk (glob s)) s).

(** A function's size on the stack, and its registers. *)
Record extent := Extent { size : Z; junk : gmap nat Z }.

Definition called {A} (e : extent) (body : T A) : T A :=
  save (size e) ;;* scribble (junk e) ;;*
  let* r := body in
  restore ;;* kret r.

Inductive act :=
  | Call (e : extent) (body : list act)                    (* a function *)
  | Nest (level : Z) (e : extent) (body : list act)        (* an interrupt, the dispatch's extent, and its handler *)
  | Wake (to : nat)                                        (* the kernel decides in a handler *)
  | Pend.                                                  (* and asks for a reschedule *)

(** A wake the kernel decides in a handler, where it may. *)
Definition wake (to : nat) : T unit :=
  let* here := cyros_port_interrupted_at_baseline in
  let* from := kget running in
  if here && negb (to =? from)%nat then cyros_port_owe_switch from to ;;* kmodify (set_running to) else kret tt.

(** [trap_dispatch]'s branch for an interrupt that is no reschedule, around its
    handler. *)
Definition interrupt_dispatch (frame level : Z) (handler : T unit) : T Z :=
  let* c := kget core in
  let outermost := depth c =? 1 in
  set_pil level ;;*
  (if outermost then kmodify (fun s => set_decision (Decision (owed_from (decision s)) (owed_to (decision s)) true) s) else kret tt) ;;*
  handler ;;*
  set_pil pil_masked_preempt ;;*
  (if outermost then
     kmodify (fun s => set_decision (Decision (owed_from (decision s)) (owed_to (decision s)) false) s) ;;*
     let* d := kget decision in
     match owed_to d with
     | Some to => kmodify (fun s => set_decision (Decision (owed_from (decision s)) None (outer_interrupt (decision s))) s) ;;* cyros_port_switch (owed_from d) to
     | None => kret tt
     end
   else kret tt) ;;*
  let* c := kget core in
  kret (if outermost then cs_frame c else frame).

(** The trap entry's steps 2 to 4, up to its call of the dispatch: the frame
    and the trap's type, its arguments. *)
Definition frame_and_stack : T (Z * Z) :=
  let* fp := kget (get_i 6) in
  let l6 := fp - F_BYTES in
  store_frame l6 ;;*
  li_l 6 l6 ;;*
  count_trap l6 ;;*
  let* l0 := kget (get_l 0) in
  wr_psr (Z.lxor (Z.lor l0 (Z.shiftl 15 8)) psr_et) ;;*
  let* l6 := kget (get_l 6) in
  let* l3 := kget (get_l 3) in
  kret (l6, l3).

Definition trap_enter : T (Z * Z) :=
  let* g1 := kget (get_g 1) in li_l 4 g1 ;;*
  let* g2 := kget (get_g 2) in li_l 5 g2 ;;*
  own_window ;;*
  frame_and_stack.

Definition trap_entry (dispatch : Z -> Z -> T Z) : T unit :=
  let* o := trap_enter in
  let* l5 := dispatch o.1 o.2 in
  li_l 5 l5 ;;*
  trap_exit.

Fixpoint run_act (a : act) : T unit :=
  match a with
  | Call e body => called e ((fix run l := match l with [] => kret tt | a :: l => run_act a ;;* run l end) body)
  | Nest level e body =>
      take_trap (16 + level) ;;*
      trap_entry (fun f ty => called e (interrupt_dispatch f (ty - 16) ((fix run l := match l with [] => kret tt | a :: l => run_act a ;;* run l end) body)))
  | Wake to => wake to
  | Pend => reschedule_raise
  end.

Fixpoint run (l : list act) : T unit := match l with [] => kret tt | a :: l => run_act a ;;* run l end.

(** ** The dispatch *)

(** The dispatch's extent, and the kernel's handler: what it does before it
    decides, its pick, and what it does after. *)
Record doing := Doing { own : extent; before : list act; pick : nat; behind : list act }.

Definition run_reschedule (d : doing) : T unit :=
  let* c := kget core in
  kensure assert_failed (depth c =? 1) ;;*
  run (before d) ;;*
  let* prev := kget running in
  kmodify (set_running (pick d)) ;;*
  (if (pick d =? prev)%nat then kret tt else cyros_port_switch (Some prev) (pick d)) ;;*
  run (behind d).

Definition cyros_sparc_trap_dispatch (d : doing) (frame ty : Z) : T Z :=
  let* c := kget core in
  let outermost := depth c =? 1 in
  if (tt_interrupt_first <=? ty) && (ty <=? tt_interrupt_last) then
    let level := ty - 16 in
    if level =? reschedule_level then
      set_pil level ;;*
      run_reschedule d ;;*
      set_pil pil_masked_preempt ;;*
      let* c := kget core in kret (if outermost then cs_frame c else frame)
    else interrupt_dispatch frame level (run (before d))
  else if ((ty =? tt_yield) || (ty =? tt_direct_switch)) && outermost then
    let* m := kget mem in
    st (frame + F_PC) (wd m (frame + F_NPC)) ;;*
    st (frame + F_NPC) (u32 (wd m (frame + F_NPC) + 4)) ;;*
    (if ty =? tt_yield then set_pil reschedule_level ;;* run_reschedule d ;;* set_pil pil_masked_preempt
     else let* m := kget mem in cyros_port_switch (Some (Z.to_nat (wd m (frame + F_O0)))) (Z.to_nat (wd m (frame + F_O0 + 4)))) ;;*
    let* c := kget core in kret (if outermost then cs_frame c else frame)
  else klift (Panic fatal_failed).

(** A trap, through the table. *)
Definition trap (ty : Z) (d : doing) : T unit :=
  take_trap ty ;;*
  (if (ty =? tt_yield) || (ty =? tt_direct_switch) then yield_entry else kret tt) ;;*
  trap_entry (fun f ty => called (own d) (cyros_sparc_trap_dispatch d f ty)).

(** ** The calls a thread makes *)
Definition cyros_port_thread_yield (d : doing) : T unit :=
  let* c := kget core in
  kensure assert_failed (depth c =? 0) ;;*
  let* p := kget psr in
  kensure assert_failed (Z.land p psr_pil_mask =? 0) ;;*
  trap tt_yield d.

(** Up to its trap's return; the token is restored after it. *)
Definition cyros_port_direct_switch (e : extent) (from to : nat) : T unit :=
  li_o 0 (Z.of_nat from) ;;*
  li_o 1 (Z.of_nat to) ;;*
  trap tt_direct_switch (Doing e [] 0 []).

Definition cyros_port_irq_save : T Z :=
  let* p := kget psr in
  kmodify (set_psr (Z.lor p pil_irq_bits)) ;;* kret (Z.land p pil_irq_bits).

(** ** A thread's first frame *)
Fixpoint zero_words (f : Z) (n : nat) (m : gmap Z Z) : gmap Z Z :=
  match n with O => m | S n => <[f + 4 * Z.of_nat n := 0]> (zero_words f n m) end.

Definition cyros_port_context_init (t : nat) (stack_base stack_size entry arg return_trap : Z) : T unit :=
  kensure assert_failed (negb (stack_base =? 0)) ;;*
  kensure assert_failed (negb (entry =? 0)) ;;*
  kensure assert_failed (min_frame_bytes + 2 * F_BYTES <=? stack_size) ;;*
  let top := Z.ldiff (u32 (stack_base + stack_size)) 7 in
  let sp := u32 (top - min_frame_bytes) in
  kensure assert_failed (stack_base <? u32 (sp - F_BYTES)) ;;*
  kmodify (fun s => set_mem (zero_words sp 24 (mem s)) s) ;;*
  let f := u32 (sp - F_BYTES) in
  kmodify (fun s => set_mem (zero_words f 20 (mem s)) s) ;;*
  st (f + F_PSR) (Z.lor psr_s psr_ps) ;;*
  st (f + F_PC) entry ;;*
  st (f + F_NPC) (u32 (entry + 4)) ;;*
  st (f + F_O0) arg ;;*
  st (f + F_O0 + 24) sp ;;*
  st (f + F_O0 + 28) (u32 (return_trap - 8)) ;;*
  kmodify (fun s => set_contexts (<[t := f]> (contexts s)) s).

Definition cyros_port_context_destroy (t : nat) : T unit :=
  kmodify (fun s => set_contexts (<[t := 0]> (contexts s)) s).

Definition cyros_port_start_first (first : nat) : T unit :=
  let* f := get_context first in
  kensure assert_failed (negb (f =? 0)) ;;*
  let* s := kget id in
  let sp := sp_of s in
  kmodify (set_core (CoreState f (Z.ldiff sp 7) 0)) ;;*
  li_l 5 f ;;*
  let* g1 := kget rd_psr in
  let g1 := Z.ldiff g1 psr_et in
  wr_psr g1 ;;*
  li_g 3 (Z.land g1 psr_cwp_mask) ;;*
  trap_fill.

(** ** What may happen *)
Inductive label :=
  | Compute (w : window) (o : gmap nat Z) (g : gmap nat Z) (y p q : Z) (m : gmap Z Z)   (* the thread computes in its window *)
  | SetPil (level : Z)                                   (* and masks *)
  | Save (n : Z) | Restore | Flush                       (* calls, returns and flushes *)
  | Raise                                                (* a reschedule is asked for, here or elsewhere *)
  | Yield (d : doing)
  | Direct (e : extent) (to : nat)                       (* the kernel decides in the thread *)
  | Interrupt (level : Z) (e : extent) (body : list act)
  | Reschedule (d : doing).

Definition step (l : label) : T unit :=
  match l with
  | Compute w o g y p q m =>
      kmodify (fun s => let d := down (cwp s) in
        set_file (<[d := foldl (fun w j => <[(8 + j)%nat := rg o j]> w) (wn (file s) d) (seq 0 8)]> (<[cwp s := w]> (file s)))
          (set_glob g (set_yreg y (set_pcs p q (set_mem m s)))))
  | SetPil level => set_pil level
  | Save n => save n
  | Restore => restore
  | Flush => flush_windows
  | Raise => reschedule_raise
  | Yield d => cyros_port_thread_yield d
  | Direct e to =>
      let* token := cyros_port_irq_save in
      let* base := cyros_port_masked_from_baseline token in
      kensure require_failed base ;;*
      let* from := kget running in
      kmodify (set_running to) ;;*
      cyros_port_direct_switch e from to
  | Interrupt level e body => trap (16 + level) (Doing e body 0 [])
  | Reschedule d => kmodify (set_raised false) ;;* trap (16 + reschedule_level) d
  end.
End windows.
End SparcSwitch.
