(* ===== verification/SparcWindows.v ===== *)
(** * The register windows of SPARC V8 hold a stack

    [rep]: the windows from the current one up to the invalid one, and the save
    areas of the rest, hold a list of windows.  The window traps, [save],
    [restore] and the flushes keep it. *)

From S2P Require Import Prelude State SparcSwitch.
Import SparcSwitch.
Local Open Scope Z_scope.

(** ** Registers and words *)
Abbreviation rgw s := (reg (file s)).

Lemma sparc_rg_insert m r v n : rg (<[r := v]> m) n = if (n =? r)%nat then v else rg m n.
Proof. unfold rg. destruct (Nat.eqb_spec n r) as [-> | Hne]; [rewrite lookup_insert_eq | rewrite lookup_insert_ne by auto]; reflexivity. Qed.

Lemma sparc_wd_insert m b v a : wd (<[b := v]> m) a = if a =? b then v else wd m a.
Proof. unfold wd. destruct (Z.eqb_spec a b) as [-> | Hne]; [rewrite lookup_insert_eq | rewrite lookup_insert_ne by auto]; reflexivity. Qed.

Lemma wn_insert w v f w' : wn (<[w := v]> f) w' = if (w' =? w)%nat then v else wn f w'.
Proof. unfold wn. destruct (Nat.eqb_spec w' w) as [-> | Hne]; [rewrite lookup_insert_eq | rewrite lookup_insert_ne by auto]; reflexivity. Qed.

Lemma reg_setr w r v f w' r' : reg (setr w r v f) w' r' = if (w' =? w)%nat && (r' =? r)%nat then v else reg f w' r'.
Proof.
  unfold reg, setr. rewrite wn_insert. destruct (Nat.eqb_spec w' w) as [-> |]; [| reflexivity]. cbn [andb]. rewrite sparc_rg_insert. reflexivity.
Qed.

Lemma reg_insert w x f w' r : reg (<[w := x]> f) w' r = if (w' =? w)%nat then rg x r else reg f w' r.
Proof. unfold reg. rewrite wn_insert. destruct (w' =? w)%nat; reflexivity. Qed.

Lemma foldl_words (f : nat -> Z) a (l : list nat) r m : r ∈ l -> wd (foldl (fun m r => <[a + 4 * Z.of_nat r := f r]> m) m l) (a + 4 * Z.of_nat r) = f r.
Proof.
  revert m. induction l as [| r' l IH] using rev_ind; intros m Hr; [inversion Hr |]. rewrite foldl_app. cbn [foldl]. rewrite sparc_wd_insert.
  destruct (Z.eqb_spec (a + 4 * Z.of_nat r) (a + 4 * Z.of_nat r')); [f_equal; lia |]. apply IH. apply elem_of_app in Hr as [Hr | Hr]; [exact Hr |]. apply list_elem_of_singleton in Hr. subst. contradiction.
Qed.

Lemma foldl_words_out (f : nat -> Z) a (l : list nat) x m : (forall r, r ∈ l -> x <> a + 4 * Z.of_nat r) -> wd (foldl (fun m r => <[a + 4 * Z.of_nat r := f r]> m) m l) x = wd m x.
Proof.
  revert m. induction l as [| r l IH] using rev_ind; intros m Hx; [reflexivity |]. rewrite foldl_app. cbn [foldl].
  rewrite sparc_wd_insert, (proj2 (Z.eqb_neq _ _)) by (apply Hx, elem_of_app; right; left). apply IH. intros r' Hr'. apply Hx, elem_of_app. left. exact Hr'.
Qed.

Lemma foldl_regs (f : nat -> Z) k (l : list nat) r w : r ∈ l -> rg (foldl (fun w r => <[(k + r)%nat := f r]> w) w l) (k + r) = f r.
Proof.
  revert w. induction l as [| r' l IH] using rev_ind; intros w Hr; [inversion Hr |]. rewrite foldl_app. cbn [foldl]. rewrite sparc_rg_insert.
  destruct (Nat.eqb_spec (k + r) (k + r')); [f_equal; lia |]. apply IH. apply elem_of_app in Hr as [Hr | Hr]; [exact Hr |]. apply list_elem_of_singleton in Hr. subst. contradiction.
Qed.

Lemma foldl_regs_out (f : nat -> Z) k (l : list nat) n w : (forall r, r ∈ l -> n <> (k + r)%nat) -> rg (foldl (fun w r => <[(k + r)%nat := f r]> w) w l) n = rg w n.
Proof.
  revert w. induction l as [| r l IH] using rev_ind; intros w Hn; [reflexivity |]. rewrite foldl_app. cbn [foldl].
  rewrite sparc_rg_insert, (proj2 (Nat.eqb_neq _ _)) by (apply Hn, elem_of_app; right; left). apply IH. intros r' Hr'. apply Hn, elem_of_app. left. exact Hr'.
Qed.

Lemma wd_save16 a w m j : (j < 16)%nat -> wd (save16 a w m) (a + 4 * Z.of_nat j) = rg w j.
Proof. intros Hj. apply (foldl_words (rg w)), elem_of_seq. lia. Qed.

Lemma wd_save16_out a w m x : x < a \/ a + 64 <= x -> wd (save16 a w m) x = wd m x.
Proof. intros Hx. apply (foldl_words_out (rg w)). intros r Hr. apply elem_of_seq in Hr. lia. Qed.

Lemma rg_load16 a m j : (j < 16)%nat -> rg (load16 a m) j = wd m (a + 4 * Z.of_nat j).
Proof. intros Hj. apply (foldl_regs (fun r => wd m (a + 4 * Z.of_nat r)) 0), elem_of_seq. lia. Qed.

(** ** Automation *)

(** What no window trap changes. *)
Definition others (s : cpu) := (psr s, yreg s, pc s, npc s, contexts s, core s, decision s, running s, raised s).

#[global] Arguments Z.lor : simpl never.
#[global] Arguments Z.land : simpl never.
#[global] Arguments Z.mul : simpl never.
#[global] Arguments Z.add : simpl never.
#[global] Arguments Z.pow : simpl never.
#[global] Arguments srl : simpl never.
#[global] Arguments sll : simpl never.
#[global] Arguments reg : simpl never.
#[global] Arguments setr : simpl never.
#[global] Arguments wn : simpl never.
#[global] Arguments rg : simpl never.
#[global] Arguments wd : simpl never.
#[global] Arguments save16 : simpl never.
#[global] Arguments load16 : simpl never.
#[global] Arguments SparcSwitch.down : simpl never.
#[global] Arguments SparcSwitch.up : simpl never.

(** Fields of a state that is written out. *)
Ltac fields := lazy beta iota zeta delta [SparcSwitch.cwp SparcSwitch.et SparcSwitch.psr SparcSwitch.wim SparcSwitch.file SparcSwitch.glob SparcSwitch.yreg SparcSwitch.pc SparcSwitch.npc SparcSwitch.mem
  SparcSwitch.contexts SparcSwitch.core SparcSwitch.decision SparcSwitch.running SparcSwitch.raised
  set_cwp set_et set_psr set_wim set_file set_glob set_yreg set_pcs set_mem set_contexts set_core set_decision set_running set_raised
  get_l get_i get_o get_g sp_of set_win invalid rd_psr others id].

(** Registers read back. *)
Ltac regs := repeat first [rewrite andb_false_r | rewrite reg_setr | rewrite reg_insert | rewrite sparc_rg_insert | rewrite Nat.eqb_refl
  | match goal with
    | H : ?a <> ?b |- context [(?a =? ?b)%nat] => rewrite (proj2 (Nat.eqb_neq a b) H)
    | H : ?b <> ?a |- context [(?a =? ?b)%nat] => rewrite (proj2 (Nat.eqb_neq a b) (not_eq_sym H))
    end
  | progress cbn [Nat.eqb andb Nat.add]].

(** One instruction. *)
Ltac instr := lazymatch goal with
  | |- wp (kbind (kget _) _) _ _ => apply wp_bind, wp_get
  | |- wp (kget _) _ _ => apply wp_get
  | |- wp (kbind _ _) _ _ => apply wp_bind, wp_modify
  | |- _ => apply wp_modify
  end; fields.

(** ** The ring *)
Section ring.
Context (N : nat) (HN : (4 <= N <= 32)%nat).

Local Abbreviation up := (up N).
Local Abbreviation down := (down N).

(** The window [k] above. *)
Definition at_ (w k : nat) : nat := if (w + k <? N)%nat then (w + k)%nat else (w + k - N)%nat.

Lemma down_eq w : down w = if (0 <? w)%nat then (w - 1)%nat else (N - 1)%nat.
Proof. unfold SparcSwitch.down. destruct w; cbn; lia. Qed.

Ltac ringed := rewrite ?down_eq in *; unfold at_, SparcSwitch.up in *; repeat match goal with
  | |- context [(?a <? ?b)%nat] => destruct (Nat.ltb_spec a b)
  | H : context [(?a <? ?b)%nat] |- _ => destruct (Nat.ltb_spec a b)
  end; lia.

Lemma at_lt w k : (w < N)%nat -> (k < N)%nat -> (at_ w k < N)%nat.
Proof. intros. ringed. Qed.
Lemma at_0 w : (w < N)%nat -> at_ w 0 = w.
Proof. intros. ringed. Qed.
Lemma at_inj w k k' : (w < N)%nat -> (k < N)%nat -> (k' < N)%nat -> at_ w k = at_ w k' -> k = k'.
Proof. intros. ringed. Qed.
Lemma up_at w k : (w < N)%nat -> (k < N)%nat -> up (at_ w k) = at_ w (S k).
Proof. intros. ringed. Qed.
Lemma at_down w k : (w < N)%nat -> (k < N)%nat -> at_ (down w) (S k) = at_ w k.
Proof. intros. ringed. Qed.
Lemma at_up w k : (w < N)%nat -> (S k < N)%nat -> at_ (up w) k = at_ w (S k).
Proof. intros. ringed. Qed.
Lemma down_at w : (w < N)%nat -> down w = at_ w (N - 1).
Proof. intros. ringed. Qed.
Lemma down_down_at w : (w < N)%nat -> down (down w) = at_ w (N - 2).
Proof. intros. ringed. Qed.
Lemma down_S w k : (w < N)%nat -> (S k < N)%nat -> down (at_ w (S k)) = at_ w k.
Proof. intros. ringed. Qed.
Lemma down_lt w : (w < N)%nat -> (down w < N)%nat.
Proof. intros. ringed. Qed.
Lemma up_lt w : (w < N)%nat -> (up w < N)%nat.
Proof. intros. ringed. Qed.
Lemma up_down w : (w < N)%nat -> up (down w) = w.
Proof. intros. ringed. Qed.
Lemma down_up w : (w < N)%nat -> down (up w) = w.
Proof. intros. ringed. Qed.
Lemma at_full w : (w < N)%nat -> at_ w N = w.
Proof. intros. ringed. Qed.
Lemma down_ne w : (w < N)%nat -> down w <> w.
Proof. intros. ringed. Qed.

(** ** The mask: one bit *)
Definition bit (w : nat) : Z := 2 ^ Z.of_nat w.

Lemma bit_test w i : Z.testbit (bit w) (Z.of_nat i) = (i =? w)%nat.
Proof. clear HN. unfold bit. rewrite Z.pow2_bits_eqb by lia. destruct (Nat.eqb_spec i w) as [-> |]; [apply Z.eqb_refl | apply Z.eqb_neq; lia]. Qed.

Lemma bit_range w : (w < N)%nat -> 0 < bit w < 2 ^ 32.
Proof. intros Hw. unfold bit. split; [apply Z.pow_pos_nonneg; lia | apply Z.pow_lt_mono_r; lia]. Qed.

Lemma bit_testz w i : 0 <= i -> Z.testbit (bit w) i = (i =? Z.of_nat w).
Proof. clear HN. intros Hi. unfold bit. rewrite Z.pow2_bits_eqb by lia. apply Z.eqb_sym. Qed.

Lemma land_bits w i : (Z.land (bit w) (bit i) =? 0) = negb (w =? i)%nat.
Proof. clear HN.
  destruct (Nat.eqb_spec w i) as [-> | Hne].
  - rewrite Z.land_diag. cbn. apply Z.eqb_neq. unfold bit. pose proof (Z.pow_pos_nonneg 2 (Z.of_nat i) ltac:(lia) ltac:(lia)). lia.
  - cbn. apply Z.eqb_eq, Z.bits_inj'. intros k Hk. rewrite Z.land_spec, !bit_testz, Z.bits_0 by exact Hk.
    destruct (Z.eqb_spec k (Z.of_nat w)); [| reflexivity]. apply Z.eqb_neq. lia.
Qed.

Lemma u32_bit w : (w < N)%nat -> u32 (bit w) = bit w.
Proof. intros Hw. apply wrap_small. pose proof (bit_range w Hw). unfold bit in *. lia. Qed.

Lemma sll_1 w : (w < N)%nat -> sll 1 (Z.of_nat w) = bit w.
Proof.
  intros Hw. unfold sll. rewrite Z.mod_small by lia. rewrite Z.shiftl_mul_pow2, Z.mul_1_l by lia. apply u32_bit, Hw.
Qed.

Lemma wim_bit w : (w < N)%nat -> Z.land (bit w) (Z.ones (Z.of_nat N)) = bit w.
Proof.
  intros Hw. rewrite Z.land_ones by lia. apply Z.mod_small. unfold bit. split; [apply Z.pow_nonneg; lia | apply Z.pow_lt_mono_r; lia].
Qed.

Lemma srl_bit w n : (w < N)%nat -> (n < 32)%nat -> srl (bit w) (Z.of_nat n) = if (n <=? w)%nat then bit (w - n) else 0.
Proof.
  intros Hw Hn. unfold srl. rewrite u32_bit, Z.mod_small by lia. apply Z.bits_inj'. intros k Hk.
  rewrite Z.shiftr_spec, bit_testz by lia. destruct (Nat.leb_spec n w); [rewrite bit_testz by exact Hk | rewrite Z.bits_0].
  - destruct (Z.eqb_spec (k + Z.of_nat n) (Z.of_nat w)), (Z.eqb_spec k (Z.of_nat (w - n))); lia || reflexivity.
  - apply Z.eqb_neq. lia.
Qed.

Lemma testbit_u32 z k : 0 <= k -> Z.testbit (u32 z) k = (k <? 32) && Z.testbit z k.
Proof. clear HN.
  intros Hk. unfold u32, wrap. change (Z.of_nat 32) with 32. destruct (Z.ltb_spec k 32); [apply Z.mod_pow2_bits_low; lia | apply Z.mod_pow2_bits_high; lia].
Qed.

Lemma sll_bit_test w n k : (w < N)%nat -> (n < 32)%nat -> 0 <= k < Z.of_nat N -> Z.testbit (sll (bit w) (Z.of_nat n)) k = (k =? Z.of_nat (w + n)).
Proof.
  intros Hw Hn Hk. unfold sll. rewrite Z.mod_small by lia. rewrite testbit_u32, Z.shiftl_spec by lia. rewrite (proj2 (Z.ltb_lt _ _)) by lia. cbn [andb].
  destruct (Z.ltb_spec k (Z.of_nat n)); [rewrite Z.testbit_neg_r by lia; symmetry; apply Z.eqb_neq; lia |]. rewrite bit_testz by lia.
  destruct (Z.eqb_spec (k - Z.of_nat n) (Z.of_nat w)), (Z.eqb_spec k (Z.of_nat (w + n))); lia || reflexivity.
Qed.

Lemma rotate w a b c : (w < N)%nat -> (c < N)%nat -> (forall k, 0 <= k < Z.of_nat N -> Z.testbit (Z.lor a b) k = (k =? Z.of_nat c)) -> Z.land (Z.lor a b) (Z.ones (Z.of_nat N)) = bit c.
Proof.
  intros Hw Hc H. apply Z.bits_inj'. intros k Hk. rewrite Z.land_spec, bit_testz by exact Hk. destruct (Z.ltb_spec k (Z.of_nat N)).
  - rewrite Z.ones_spec_low, andb_true_r by lia. apply H. lia.
  - rewrite Z.ones_spec_high, andb_false_r by lia. symmetry. apply Z.eqb_neq. lia.
Qed.

Lemma rotate_right w : (w < N)%nat -> Z.land (Z.lor (sll (bit w) (Z.of_nat (N - 1))) (srl (bit w) 1)) (Z.ones (Z.of_nat N)) = bit (down w).
Proof.
  intros Hw. apply (rotate w); [exact Hw | apply down_lt, Hw |]. intros k Hk. rewrite Z.lor_spec, sll_bit_test by lia. change 1 with (Z.of_nat 1).
  rewrite srl_bit by lia. unfold SparcSwitch.down. destruct (Nat.leb_spec 1 w).
  - rewrite bit_testz by lia. destruct w; [lia |]. destruct (Z.eqb_spec k (Z.of_nat (S w + (N - 1)))), (Z.eqb_spec k (Z.of_nat (S w - 1))), (Z.eqb_spec k (Z.of_nat w)); lia || reflexivity.
  - rewrite Z.bits_0, orb_false_r. destruct w; [reflexivity | lia].
Qed.

Lemma rotate_left w : (w < N)%nat -> Z.land (Z.lor (srl (bit w) (Z.of_nat (N - 1))) (sll (bit w) 1)) (Z.ones (Z.of_nat N)) = bit (up w).
Proof.
  intros Hw. apply (rotate w); [exact Hw | apply up_lt, Hw |]. intros k Hk. rewrite Z.lor_spec. change 1 with (Z.of_nat 1). rewrite sll_bit_test, srl_bit by lia.
  unfold SparcSwitch.up. destruct (Nat.leb_spec (N - 1) w), (Nat.ltb_spec (w + 1) N); try lia.
  - rewrite bit_testz by lia. destruct (Z.eqb_spec k (Z.of_nat (w - (N - 1)))), (Z.eqb_spec k (Z.of_nat (w + 1))), (Z.eqb_spec k (Z.of_nat 0)); lia || reflexivity.
  - rewrite Z.bits_0. reflexivity.
Qed.

Lemma window_up_1 w : (w < N)%nat -> window_up N (Z.of_nat w) 1 = Z.of_nat (up w).
Proof. intros Hw. unfold window_up, SparcSwitch.up. destruct (Nat.ltb_spec (w + 1) N), (Z.ltb_spec (Z.of_nat w + 1) (Z.of_nat N)); lia. Qed.

Lemma window_up_2 w : (w < N)%nat -> window_up N (Z.of_nat w) 2 = Z.of_nat (up (up w)).
Proof. intros Hw. unfold window_up. destruct (Z.ltb_spec (Z.of_nat w + 2) (Z.of_nat N)); ringed. Qed.

(** ** A list of windows, in the file and on the stack *)
Definition fp (v : window) : Z := rg v 14.

(** The [k]th window's save area, the first's at [a]; the areas apart. *)
Fixpoint sp_at (a : Z) (ws : list window) (k : nat) : Z := match k, ws with S k, v :: ws => sp_at (fp v) ws k | _, _ => a end.
Definition apart (a b : Z) : Prop := a + 64 <= b \/ b + 64 <= a.
Definition sep (a : Z) (ws : list window) : Prop := forall i j, (i < j < length ws)%nat -> apart (sp_at a ws i) (sp_at a ws j).
Definition in_area (a x : Z) : Prop := a <= x < a + 64.

(** A window saved at [a]. *)
Definition saved (mm : gmap Z Z) (a : Z) (v : window) : Prop := forall j, (j < 16)%nat -> wd mm (a + 4 * Z.of_nat j) = rg v j.

Lemma saved_ext mm mm' a v : (forall x, in_area a x -> wd mm' x = wd mm x) -> saved mm a v -> saved mm' a v.
Proof. clear HN. intros He H j Hj. rewrite He by (unfold in_area; lia). apply H, Hj. Qed.

Lemma sp_at_S ws : forall a k v, ws !! k = Some v -> sp_at a ws (S k) = fp v.
Proof. induction ws as [| u ws IH]; intros a [| k] v; cbn; try discriminate; [intros [= <-]; destruct ws; reflexivity |]. intros H. exact (IH _ k v H). Qed.

Lemma sp_at_0 a ws : sp_at a ws 0 = a.
Proof. destruct ws; reflexivity. Qed.

Lemma sep_tail a v ws : sep a (v :: ws) -> sep (fp v) ws.
Proof. intros H i j Hij. apply (H (S i) (S j)). cbn. lia. Qed.

(** The first [m] windows from [cw] up are in the file, the rest saved. *)
Record holds (R : nat -> nat -> Z) (cw m : nat) (mm : gmap Z Z) (a : Z) (ws : list window) : Prop := {
  ho_len : (m <= length ws)%nat;
  ho_file k v : (k < m)%nat -> ws !! k = Some v -> forall j, (j < 16)%nat -> R (at_ cw k) j = rg v j;
  ho_mem k v : (m <= k)%nat -> ws !! k = Some v -> saved mm (sp_at a ws k) v
}.

Lemma holds_file_ext R R' cw m mm a ws : (forall k j, (k < m)%nat -> (j < 16)%nat -> R' (at_ cw k) j = R (at_ cw k) j) -> holds R cw m mm a ws -> holds R' cw m mm a ws.
Proof. intros He [H1 H2 H3]. split; auto. intros k v Hk Hv j Hj. rewrite He by assumption. eauto. Qed.

Lemma holds_mem_ext R cw m mm mm' a ws : (forall k x, (m <= k < length ws)%nat -> in_area (sp_at a ws k) x -> wd mm' x = wd mm x) -> holds R cw m mm a ws -> holds R cw m mm' a ws.
Proof.
  intros He [H1 H2 H3]. split; auto. intros k v Hk Hv. apply (saved_ext mm); [| eauto]. intros x. apply He. apply lookup_lt_Some in Hv. lia.
Qed.

(** The last window in the file is saved. *)
Lemma holds_spill R cw m mm mm' a ws : holds R cw (S m) mm a ws -> sep a ws ->
  (forall j, (j < 16)%nat -> wd mm' (sp_at a ws m + 4 * Z.of_nat j) = R (at_ cw m) j) -> (forall x, ~ in_area (sp_at a ws m) x -> wd mm' x = wd mm x) ->
  holds R cw m mm' a ws.
Proof.
  intros [H1 H2 H3] Hs Hw Ho. split; [lia | intros k u Hk; apply H2; lia |]. intros k v Hk Hv. apply lookup_lt_Some in Hv as Hl.
  destruct (decide (k = m)) as [-> | Hne].
  - intros j Hj. rewrite Hw by exact Hj. apply (H2 m v); auto.
  - apply (saved_ext mm); [| apply H3; [lia | exact Hv]]. intros x Hx. apply Ho. pose proof (Hs m k ltac:(lia)). unfold in_area, apart in *. lia.
Qed.

(** And loaded. *)
Lemma holds_fill R R' cw m mm a ws v : holds R cw m mm a ws -> ws !! m = Some v ->
  (forall j, (j < 16)%nat -> R' (at_ cw m) j = wd mm (sp_at a ws m + 4 * Z.of_nat j)) -> (forall k j, (k < m)%nat -> (j < 16)%nat -> R' (at_ cw k) j = R (at_ cw k) j) ->
  holds R' cw (S m) mm a ws.
Proof.
  intros [H1 H2 H3] Hv Hw Ho. apply lookup_lt_Some in Hv as Hl. split; [lia | | intros k u Hk; apply H3; lia].
  intros k u Hk Hu j Hj. destruct (decide (k = m)) as [-> | Hne].
  - rewrite Hw by exact Hj. apply (H3 m u); auto.
  - rewrite Ho by lia. apply (H2 k u); auto. lia.
Qed.

Lemma holds_pop R cw m mm a v ws : (cw < N)%nat -> (S m < N)%nat -> holds R cw (S m) mm a (v :: ws) -> holds R (up cw) m mm (fp v) ws.
Proof.
  intros Hc Hm [H1 H2 H3]. cbn in H1. split; [lia | |].
  - intros k u Hk Hu j Hj. rewrite at_up by lia. apply (H2 (S k) u); [lia | exact Hu | exact Hj].
  - intros k u Hk Hu. apply (H3 (S k)); [lia | exact Hu].
Qed.

Lemma holds_push R R' cw m mm a a' v ws : (cw < N)%nat -> holds R cw m mm a ws -> (m < N)%nat -> fp v = a -> (forall j, (j < 16)%nat -> R' (down cw) j = rg v j) ->
  (forall k j, (k < m)%nat -> (j < 16)%nat -> R' (at_ cw k) j = R (at_ cw k) j) -> holds R' (down cw) (S m) mm a' (v :: ws).
Proof.
  intros Hc [H1 H2 H3] Hm Hf Hv Ho. split; [cbn; lia | |].
  - intros [| k] u Hk Hu j Hj; [injection Hu as <-; rewrite at_0 by (apply down_lt, Hc); apply Hv, Hj |].
    rewrite at_down by lia. rewrite Ho by lia. apply (H2 k u); [lia | exact Hu | exact Hj].
  - intros [| k] u Hk Hu; [lia |]. cbn. rewrite Hf. apply H3; [lia | exact Hu].
Qed.

(** ** The machine *)

Definition psr_plain (p : Z) : Prop := Z.land p 63 = 0.

Record rep (s : cpu) (m : nat) (ws : list window) : Prop := {
  rp_cwp : (cwp s < N)%nat;
  rp_m : (1 <= m < N)%nat;
  rp_wim : wim s = bit (at_ (cwp s) m);
  rp_psr : psr_plain (psr s);
  rp_holds : holds (rgw s) (cwp s) m (mem s) (sp_of N s) ws
}.

Lemma rep_invalid s m ws w : rep s m ws -> invalid s w = (w =? at_ (cwp s) m)%nat.
Proof. intros [_ _ E _ _]. unfold invalid. rewrite E. apply bit_test. Qed.

Lemma plain_bit p i : psr_plain p -> 0 <= i < 6 -> Z.testbit p i = false.
Proof. clear HN.
  intros Hp Hi. assert (H : Z.testbit (Z.land p 63) i = false) by (rewrite Hp; apply Z.bits_0).
  rewrite Z.land_spec in H. change 63 with (Z.ones 6) in H. rewrite Z.ones_spec_low, andb_true_r in H by lia. exact H.
Qed.

Lemma cwp_bits c i : (c < 32)%nat -> 5 <= i -> Z.testbit (Z.of_nat c) i = false.
Proof. clear HN. intros Hc Hi. destruct c; [apply Z.bits_0 |]. apply Z.bits_above_log2; [lia |]. apply Z.lt_le_trans with 5; [| exact Hi]. apply Z.log2_lt_pow2; lia. Qed.

Definition psr_value (p : Z) (c : nat) (e : bool) : Z := Z.lor p (Z.lor (Z.of_nat c) (if e then psr_et else 0)).

Lemma psr_cwp p c e : psr_plain p -> (c < 32)%nat -> Z.land (psr_value p c e) psr_cwp_mask = Z.of_nat c.
Proof. clear HN.
  intros Hp Hc. apply Z.bits_inj'. intros i Hi. unfold psr_value. rewrite Z.land_spec, !Z.lor_spec. change psr_cwp_mask with (Z.ones 5). destruct (Z.ltb_spec i 5).
  - rewrite Z.ones_spec_low, andb_true_r, (plain_bit p i Hp) by lia.
    replace (Z.testbit (if e then psr_et else 0) i) with false; [apply orb_false_r |]. symmetry. destruct e; [| apply Z.bits_0]. change psr_et with (2 ^ 5). apply Z.pow2_bits_false. lia.
  - rewrite Z.ones_spec_high, andb_false_r by lia. symmetry. apply cwp_bits; assumption.
Qed.

Lemma psr_rest p c e : psr_plain p -> (c < 32)%nat -> Z.ldiff (psr_value p c e) 63 = p.
Proof. clear HN.
  intros Hp Hc. apply Z.bits_inj'. intros i Hi. unfold psr_value. rewrite Z.ldiff_spec, !Z.lor_spec. change 63 with (Z.ones 6). destruct (Z.ltb_spec i 6).
  - rewrite Z.ones_spec_low, andb_false_r, (plain_bit p i Hp) by lia. reflexivity.
  - rewrite Z.ones_spec_high, (cwp_bits c i Hc), andb_true_r by lia.
    replace (Z.testbit (if e then psr_et else 0) i) with false; [rewrite !orb_false_r; reflexivity |]. symmetry. destruct e; [| apply Z.bits_0]. change psr_et with (2 ^ 5). apply Z.pow2_bits_false. lia.
Qed.

Lemma psr_et_bit p c e : psr_plain p -> (c < 32)%nat -> Z.testbit (psr_value p c e) 5 = e.
Proof. clear HN. intros Hp Hc. unfold psr_value. rewrite !Z.lor_spec, (plain_bit p 5 Hp), (cwp_bits c 5 Hc) by lia. destruct e; reflexivity. Qed.

Lemma psr_no_et p c : psr_plain p -> (c < 32)%nat -> Z.ldiff (psr_value p c true) psr_et = psr_value p c false.
Proof. clear HN.
  intros Hp Hc. apply Z.bits_inj'. intros i Hi. unfold psr_value. rewrite Z.ldiff_spec, !Z.lor_spec, Z.bits_0, orb_false_r. change psr_et with (2 ^ 5).
  destruct (Z.eqb_spec i 5) as [-> | Hne].
  - rewrite (plain_bit p 5 Hp), (cwp_bits c 5 Hc) by lia. reflexivity.
  - rewrite Z.pow2_bits_false by lia. rewrite orb_false_r, andb_true_r. reflexivity.
Qed.

Lemma plain_ldiff v : psr_plain (Z.ldiff v (Z.lor psr_cwp_mask psr_et)).
Proof. unfold psr_plain. change (Z.lor psr_cwp_mask psr_et) with 63. apply Z.bits_inj'. intros i Hi. rewrite Z.land_spec, Z.ldiff_spec, Z.bits_0. destruct (Z.testbit v i), (Z.testbit 63 i); reflexivity. Qed.

(** A whole PSR written back. *)
Lemma wp_wr_psr p c e Q s : psr_plain p -> (c < 32)%nat -> Q tt (set_psr p (set_et e (set_cwp c s))) -> wp (wr_psr (psr_value p c e)) Q s.
Proof. clear HN.
  intros Hp Hc HQ. apply wp_modify. change (Z.lor psr_cwp_mask psr_et) with 63. rewrite psr_rest, psr_et_bit, psr_cwp, Nat2Z.id by assumption. exact HQ.
Qed.

Lemma wp_save_ Q s : invalid s (down (cwp s)) = false -> Q tt (set_cwp (down (cwp s)) s) -> wp (save_ N) Q s.
Proof. intros H HQ. apply wp_bind, wp_get, wp_bind, wp_ensure; [unfold id; rewrite H; reflexivity |]. apply wp_modify, HQ. Qed.

Lemma wp_restore_ Q s : invalid s (up (cwp s)) = false -> Q tt (set_cwp (up (cwp s)) s) -> wp (restore_ N) Q s.
Proof. intros H HQ. apply wp_bind, wp_get, wp_bind, wp_ensure; [unfold id; rewrite H; reflexivity |]. apply wp_modify, HQ. Qed.

Lemma wp_rett a b Q s : et s = false -> invalid s (up (cwp s)) = false -> Q tt (set_pcs a b (set_et true (set_cwp (up (cwp s)) s))) -> wp (rett N a b) Q s.
Proof.
  intros He H HQ. apply wp_bind, wp_get, wp_bind, wp_ensure; [unfold id; rewrite He; reflexivity |]. apply wp_bind, wp_ensure; [unfold id; rewrite H; reflexivity |]. apply wp_modify, HQ.
Qed.

(** A trap's window, on the way to its handler. *)
Record trapped (t : nat) (l0 l1 l2 l3 : Z) (f f1 : gmap nat window) : Prop := {
  tp_l0 : reg f1 t 0 = l0;
  tp_l1 : reg f1 t 1 = l1;
  tp_l2 : reg f1 t 2 = l2;
  tp_l3 : reg f1 t 3 = l3;
  tp_regs w r : w <> t \/ (4 <= r)%nat -> reg f1 w r = reg f w r
}.

Lemma wp_take_trap ty (Q : unit -> cpu -> Prop) s : et s = true ->
  (forall f1, trapped (down (cwp s)) (psr_value (psr s) (down (cwp s)) false) (pc s) (npc s) ty (file s) f1 -> Q tt (set_file f1 (set_cwp (down (cwp s)) (set_et false s)))) ->
  wp (take_trap N ty) Q s.
Proof.
  intros He HQ. destruct s as [c e p w f g y pc0 npc0 m ctx co d ru ra]. cbn in He. subst e. unfold take_trap. instr. apply wp_bind, wp_ensure; [reflexivity |].
  do 8 instr. unfold rd_psr. fields. apply HQ. fields.
  split; [..| intros w' r H]; rewrite !reg_setr, ?Nat.eqb_refl; try reflexivity.
  destruct (Nat.eqb_spec w' (down c)) as [-> |]; [| reflexivity]. destruct H as [H | H]; [destruct (H eq_refl) |]. do 4 (destruct r as [| r]; [lia |]). reflexivity.
Qed.

(** A window's own sp is where its save area is. *)
Lemma own_sp R cw m mm a ws k : (cw < N)%nat -> (m < N)%nat -> holds R cw m mm a ws -> a = R (down cw) 14%nat -> (k <= m)%nat -> (k < N)%nat -> R (down (at_ cw k)) 14%nat = sp_at a ws k.
Proof.
  intros Hc Hm [H1 H2 H3] Ha Hk Hn. destruct k as [| k].
  - rewrite at_0 by exact Hc. rewrite sp_at_0. auto.
  - rewrite down_S by lia. destruct (lookup_lt_is_Some_2 ws k ltac:(lia)) as [v Hv]. rewrite (sp_at_S ws a k v Hv). apply (H2 k v); [lia | exact Hv | lia].
Qed.

(** The effect of a window trap on the rest of the machine. *)
Record around (s s' : cpu) : Prop := {
  ar_cwp : cwp s' = cwp s;
  ar_et : et s' = et s;
  ar_glob j : rg (glob s') j = rg (glob s) j;
  ar_others : others s' = others s;
  ar_outs j : (8 <= j < 16)%nat -> rgw s' (down (cwp s)) j = rgw s (down (cwp s)) j
}.

Lemma overflow_spec s ws : rep s (N - 1) ws -> et s = true -> sep (sp_of N s) ws ->
  wp (window_overflow N) (fun _ s' => rep s' (N - 2) ws /\ around s s' /\ forall x, ~ in_area (sp_at (sp_of N s) ws (N - 2)) x -> wd (mem s') x = wd (mem s) x) s.
Proof.
  intros [Hc Hm Hw Hp Hh] He Hs. destruct s as [c e p w f g y pc0 npc0 m ctx co d ru ra]. fields. cbn in Hc, Hm, Hw, Hp, Hh, He, Hs. subst e.
  remember (down c) as t eqn:Et. assert (Ht : (t < N)%nat) by (subst t; apply down_lt, Hc). rewrite <- down_at, <- Et in Hw by exact Hc.
  assert (Hut : up t = c) by (subst t; apply up_down, Hc). assert (Hdt : down t <> t) by (apply down_ne, Ht).
  assert (E2 : down t = at_ c (N - 2)) by (subst t; apply down_down_at, Hc). assert (Hcd : c <> down t) by (rewrite E2; rewrite <- (at_0 c) at 1 by exact Hc; intros E; apply at_inj in E; lia).
  unfold window_overflow. apply wp_bind, wp_take_trap; [reflexivity |]. fields. rewrite <- Et. intros f1 [T0 T1 T2 T3 Tr].
  match goal with |- wp _ ?Q _ => set (Q0 := Q) end.
  do 9 instr. regs. apply wp_bind, wp_save_; fields; [rewrite Hw, bit_test; apply Nat.eqb_neq, Hdt |].
  do 2 instr. regs. rewrite Hw, rotate_right by assumption. instr. regs.
  apply wp_bind, wp_restore_; fields; rewrite ?up_down by exact Ht; [rewrite bit_test; apply Nat.eqb_neq; auto |].
  do 2 instr. do 2 instr. regs. apply wp_rett; fields; [reflexivity | rewrite Hut, bit_test; apply Nat.eqb_neq, Hcd |]. rewrite Hut, T1, T2.
  assert (Hddt : down (down t) <> t) by (rewrite (down_down_at t Ht); rewrite <- (at_0 t) at 2 by exact Ht; intros E; apply at_inj in E; lia).
  assert (Hks : forall k, (k < N - 1)%nat -> at_ c k <> t) by (intros k Hk; rewrite Et, down_at by exact Hc; intros E; apply at_inj in E; lia).
  assert (Hsp : reg f1 t 14 = reg f t 14) by (apply Tr; lia). assert (Hcw : sp_of N (Cpu c true p (bit t) f g y pc0 npc0 m ctx co d ru ra) = reg f t 14) by (unfold sp_of, get_o; cbn; rewrite <- Et; reflexivity).
  subst Q0. cbv beta. rewrite Hw in *. rewrite Hcw in *. assert (Hown : reg f1 (down (down t)) 14 = sp_at (reg f t 14) ws (N - 2)).
  { rewrite Tr by auto. rewrite E2. apply (own_sp (reg f) c (N - 1) m); try lia; [exact Hh | rewrite <- Et; reflexivity]. }
  rewrite Hown. set (F := setr t 4 _ _). assert (HF : forall w r, w <> t \/ (8 <= r)%nat -> reg F w r = reg f w r).
  { intros w' r H. unfold F. rewrite !reg_setr, Tr by (destruct H; auto; right; lia). destruct (Nat.eqb_spec w' t); [| reflexivity]. destruct H; [contradiction |]. do 8 (destruct r as [| r]; [lia |]). reflexivity. }
  split; [| split].
  - split; cbn [cwp wim psr mem file sp_of]; auto; [lia |].
    assert (E : sp_of N (Cpu c true p (bit (down t)) F (<[1%nat:=rg g 1]> (<[1%nat:=Z.lor (sll (bit t) (Z.of_nat (N - 1))) (srl (bit t) 1)]> (<[1%nat:=srl (bit t) 1]> g))) y pc0 npc0 (save16 (sp_at (reg f t 14) ws (N - 2)) (wn F (down t)) m) ctx co d ru ra) = reg f t 14).
    { unfold sp_of, get_o. cbn. rewrite <- Et. apply HF. right. lia. }
    rewrite E. apply (holds_spill _ c (N - 2) m).
    + replace (S (N - 2)) with (N - 1)%nat by lia. apply (holds_file_ext (reg f)); [| exact Hh]. intros k j Hk Hj. apply HF. left. apply Hks. exact Hk.
    + exact Hs.
    + intros j Hj. rewrite wd_save16, <- E2 by exact Hj. reflexivity.
    + intros x Hx. apply wd_save16_out. unfold in_area in Hx. lia.
  - split; cbn; try reflexivity.
    + intros j. rewrite !sparc_rg_insert. destruct (Nat.eqb_spec j 1) as [-> |]; reflexivity.
    + intros j Hj. rewrite <- Et. apply HF. right. lia.
  - intros x Hx. apply wd_save16_out. unfold in_area in Hx. cbn [Nat.add] in Hx. lia.
Qed.
Lemma underflow_spec s ws : rep s 1 ws -> et s = true -> (1 < length ws)%nat ->
  wp (window_underflow N) (fun _ s' => rep s' 2 ws /\ around s s' /\ mem s' = mem s) s.
Proof.
  intros [Hc Hm Hw Hp Hh] He Hl. match goal with |- wp _ ?Q _ => set (Q0 := Q) end. destruct s as [c e p w f g y pc0 npc0 m ctx co d ru ra]. cbn in Hc, Hm, Hw, Hp, Hh, He. subst e.
  destruct (lookup_lt_is_Some_2 ws 1 Hl) as [v Hv].
  remember (down c) as t eqn:Et. assert (Ht : (t < N)%nat) by (subst t; apply down_lt, Hc).
  assert (Hut : up t = c) by (subst t; apply up_down, Hc). assert (Hdu : down (up c) = c) by (apply down_up, Hc).
  assert (Hu : (up c < N)%nat) by (apply up_lt, Hc). assert (E1 : at_ c 1 = up c) by (rewrite <- (at_0 c) at 2 by exact Hc; rewrite up_at by lia; reflexivity). rewrite E1 in Hw.
  assert (Hks : forall j k, (j < N)%nat -> (k < N)%nat -> j <> k -> at_ c j <> at_ c k) by (intros j k Hj Hk Hne E; apply at_inj in E; lia).
  assert (E2 : up (up c) = at_ c 2) by (rewrite <- E1; apply up_at; lia). assert (Ec : t = at_ c (N - 1)) by (rewrite Et; apply down_at, Hc).
  assert (Hcu : c <> up c) by (rewrite <- E1, <- (at_0 c) at 1 by exact Hc; apply Hks; lia). assert (Hcuu : c <> up (up c)) by (rewrite E2, <- (at_0 c) at 1 by exact Hc; apply Hks; lia).
  assert (Htu : t <> up c) by (rewrite Ec, <- E1; apply Hks; lia). assert (Htuu : t <> up (up c)) by (rewrite Ec, E2; apply Hks; lia).
  assert (Huuu : up c <> up (up c)) by (rewrite E2, <- E1; apply Hks; lia). assert (Htc : t <> c) by (rewrite Ec; rewrite <- (at_0 c) at 2 by exact Hc; apply Hks; lia).
  unfold window_underflow. apply wp_bind, wp_take_trap; [reflexivity |]. fields. rewrite <- Et. intros f1 [T0 T1 T2 T3 Tr].
  do 8 instr. regs. instr. regs. rewrite Hw, rotate_left by exact Hu. 
  apply wp_bind, wp_restore_; fields; rewrite Hut; [rewrite bit_test; apply Nat.eqb_neq, Hcuu |].
  apply wp_bind, wp_restore_; fields; [rewrite bit_test; apply Nat.eqb_neq, Huuu |].
  instr. rewrite Hdu. regs.
  apply wp_bind, wp_save_; fields; rewrite Hdu; [rewrite bit_test; apply Nat.eqb_neq, Hcuu |].
  apply wp_bind, wp_save_; fields; rewrite <- Et; [rewrite bit_test; apply Nat.eqb_neq, Htuu |].
  do 2 instr. apply wp_rett; fields; rewrite ?Hut; [reflexivity | rewrite bit_test; apply Nat.eqb_neq, Hcuu |].
  regs. rewrite T1, T2. set (F := <[up c := _]> _). assert (HF : forall w r, w <> up c -> w <> t \/ (8 <= r)%nat -> reg F w r = reg f w r).
  { intros w' r Hne H. unfold F. rewrite reg_insert, (proj2 (Nat.eqb_neq _ _) Hne), !reg_setr, Tr by (destruct H; auto; right; lia).
    destruct (Nat.eqb_spec w' t); [| reflexivity]. destruct H; [contradiction |]. do 8 (destruct r as [| r]; [lia |]). reflexivity. }
  assert (Hsp : reg F t 14 = reg f t 14) by (apply HF; [exact Htu | right; lia]).
  assert (Hcw : sp_of N (Cpu c true p w f g y pc0 npc0 m ctx co d ru ra) = reg f t 14) by (unfold sp_of, get_o; cbn [cwp file Nat.add]; rewrite <- Et; reflexivity). rewrite Hcw in Hh.
  assert (Hown : reg f1 c 14 = sp_at (reg f t 14) ws 1).
  { rewrite Tr by (left; auto). rewrite <- Hdu, <- E1. apply (own_sp (reg f) c 1 m); try lia; [exact Hh | rewrite <- Et; reflexivity]. }
  subst Q0. cbv beta. split; [| split]; [split | split |]; cbn [SparcSwitch.cwp SparcSwitch.wim SparcSwitch.psr SparcSwitch.mem SparcSwitch.file SparcSwitch.et SparcSwitch.glob others]; auto; [lia | |].
  - match goal with |- holds _ _ _ _ ?a _ => change a with (reg F (down c) 14) end. rewrite <- Et, Hsp. apply (holds_fill (reg f) _ c 1 m _ _ v); [exact Hh | exact Hv | |].
    + intros j Hj. rewrite E1. unfold F. rewrite reg_insert, Nat.eqb_refl, rg_load16, Hown by exact Hj. reflexivity.
    + intros k j Hk Hj. assert (k = 0%nat) by lia. subst k. rewrite at_0 by exact Hc. apply HF; auto.
  - intros j Hj. rewrite <- Et. apply HF; [exact Htu | right; lia].
Qed.
Lemma rep_len s m ws : rep s m ws -> (1 <= m <= length ws)%nat.
Proof. intros [_ Hm _ _ [Hl _ _]]. lia. Qed.

(** A state read through its fields. *)
Lemma rep_intro s m ws c w p f mm a : cwp s = c -> wim s = w -> psr s = p -> file s = f -> mem s = mm -> reg f (down c) 14 = a ->
  (c < N)%nat -> (1 <= m < N)%nat -> w = bit (at_ c m) -> psr_plain p -> holds (reg f) c m mm a ws -> rep s m ws.
Proof. intros <- <- <- <- <- <-. intros. split; assumption. Qed.

Definition outs (s : cpu) (j : nat) : Z := rgw s (down (cwp s)) (8 + j).

(** What neither [save] nor [restore] touches. *)
Record besides (s s' : cpu) : Prop := {
  be_et : et s' = et s;
  be_glob j : rg (glob s') j = rg (glob s) j;
  be_others : others s' = others s
}.

Lemma besides_trans s s1 s2 : besides s s1 -> besides s1 s2 -> besides s s2.
Proof. intros [A1 A2 A3] [B1 B2 B3]. split; [congruence | intros j; rewrite B2; apply A2 | congruence]. Qed.

Lemma around_besides s s' : around s s' -> besides s s'.
Proof. intros [_ A1 A2 A3 _]. split; assumption. Qed.

Lemma around_sp s s' : around s s' -> sp_of N s' = sp_of N s.
Proof. intros [E _ _ _ H]. unfold sp_of, get_o. rewrite E. apply H. lia. Qed.

Definition elsewhere (a : Z) (ws : list window) (x : Z) : Prop := forall k, (k < length ws)%nat -> ~ in_area (sp_at a ws k) x.

(** [save] once there is room. *)
Lemma save_room s m ws n : rep s m ws -> (m < N - 1)%nat -> et s = true ->
  wp (save_ N ;;* li_o N 6 n) (fun _ s' => exists v, rep s' (S m) (v :: ws) /\ v = wn (file s') (cwp s') /\ (forall j, (j < 8)%nat -> rg v (8 + j) = outs s j) /\ sp_of N s' = n /\ besides s s' /\ mem s' = mem s) s.
Proof.
  intros [Hc Hm Hw Hp Hh] Hr He. destruct s as [c e p w f g y pc0 npc0 m0 ctx co d ru ra]. cbn in Hc, Hw, Hp, He. subst e. unfold outs. cbn [SparcSwitch.cwp SparcSwitch.file] in *.
  assert (Ht : (down c < N)%nat) by (apply down_lt, Hc). assert (Hne : down c <> down (down c)) by (apply not_eq_sym, down_ne, Ht).
  apply wp_bind, wp_save_; fields; [rewrite Hw, bit_test; apply Nat.eqb_neq; rewrite down_at by exact Hc; intros E; apply at_inj in E; lia |].
  instr. exists (wn f (down c)). split; [| split; [unfold setr; rewrite wn_insert, (proj2 (Nat.eqb_neq _ _) Hne); reflexivity | split; [| split; [| split]]]].
  - eapply rep_intro; [fields; reflexivity | fields; reflexivity | fields; reflexivity | fields; reflexivity | fields; reflexivity | fields; reflexivity | exact Ht | lia | rewrite Hw; rewrite at_down by lia; reflexivity | exact Hp |]. eapply (holds_push (reg f)); [exact Hc | exact Hh | lia | reflexivity | |].
    + intros j Hj. regs. reflexivity.
    + intros k j Hk Hj. rewrite reg_setr, (proj2 (Nat.eqb_neq (at_ c k) _)); [reflexivity |]. rewrite down_down_at by exact Hc. intros E. apply at_inj in E; lia.
  - reflexivity.
  - unfold sp_of, get_o. fields. regs. reflexivity.
  - split; reflexivity.
  - reflexivity.
Qed.

Lemma save_spec s m ws n : rep s m ws -> et s = true -> sep (sp_of N s) ws ->
  wp (save N n) (fun _ s' => exists v m', rep s' m' (v :: ws) /\ v = wn (file s') (cwp s') /\ (forall j, (j < 8)%nat -> rg v (8 + j) = outs s j) /\ sp_of N s' = u32 (sp_of N s - n) /\ besides s s' /\
    forall x, elsewhere (sp_of N s) ws x -> wd (mem s') x = wd (mem s) x) s.
Proof.
  intros Hr He Hs. pose proof Hr as [Hc Hm _ _ _]. unfold save. apply wp_bind, wp_get. rewrite (rep_invalid s m ws) by exact Hr. unfold id.
  destruct (Nat.eqb_spec (down (cwp s)) (at_ (cwp s) m)) as [E | Hne].
  - assert (m = N - 1)%nat by (rewrite down_at in E by exact Hc; apply at_inj in E; lia). subst m.
    apply wp_bind. eapply wp_mono; [apply overflow_spec; eassumption |]. intros [] s1 (Hr1 & Ha & Hx).
    apply wp_bind, wp_get. eapply wp_mono; [apply (save_room s1 (N - 2) ws); [exact Hr1 | lia | rewrite (ar_et _ _ Ha); exact He] |].
    intros [] s2 (v & Hr2 & Ev & Hv & Hsp & Hb & Hmem). exists v, (S (N - 2)). split; [exact Hr2 |]. split; [exact Ev |]. rewrite (around_sp _ _ Ha) in Hsp. split; [| split; [exact Hsp | split]].
    + intros j Hj. rewrite Hv by exact Hj. unfold outs. rewrite (ar_cwp _ _ Ha). apply (ar_outs _ _ Ha). lia.
    + apply (besides_trans s s1); [apply around_besides, Ha | exact Hb].
    + intros x He'. rewrite Hmem. apply Hx, He'. pose proof (rep_len _ _ _ Hr). lia.
  - apply wp_bind, wp_ret, wp_bind, wp_get. eapply wp_mono; [apply (save_room s m ws); [exact Hr | | exact He] |].
    + assert (m <> N - 1)%nat by (intros ->; apply Hne, down_at, Hc). lia.
    + intros [] s2 (v & Hr2 & Ev & Hv & Hsp & Hb & Hmem). exists v, (S m). split; [exact Hr2 |]. split; [exact Ev |]. split; [exact Hv | split; [exact Hsp | split; [exact Hb | intros x _; rewrite Hmem; reflexivity]]].
Qed.

(** [restore] once the window is there. *)
Lemma restore_room s m v ws : rep s (S m) (v :: ws) -> (1 <= m)%nat ->
  wp (restore_ N) (fun _ s' => rep s' m ws /\ (forall j, (j < 8)%nat -> outs s' j = rg v (8 + j)) /\ besides s s' /\ mem s' = mem s) s.
Proof.
  intros [Hc Hm Hw Hp Hh] H1. destruct s as [c e p w f g y pc0 npc0 m0 ctx co d ru ra]. cbn in Hc, Hw, Hp. cbn [SparcSwitch.cwp SparcSwitch.file SparcSwitch.mem] in *.
  assert (E1 : at_ c 1 = up c) by (rewrite <- (at_0 c) at 2 by exact Hc; rewrite up_at by lia; reflexivity).
  assert (Hv : forall j, (j < 16)%nat -> reg f c j = rg v j) by (intros j Hj; rewrite <- (at_0 c Hc) at 1; apply (ho_file _ _ _ _ _ _ Hh 0 v); [lia | reflexivity | exact Hj]).
  apply wp_restore_; fields; [rewrite Hw, bit_test, <- E1; apply Nat.eqb_neq; intros E; apply at_inj in E; lia |].
  split; [| split; [| split]].
  - eapply rep_intro; [fields; reflexivity | fields; reflexivity | fields; reflexivity | fields; reflexivity | fields; reflexivity | fields; reflexivity | apply up_lt, Hc | lia | rewrite Hw; rewrite at_up by lia; reflexivity | exact Hp |].
    rewrite down_up, Hv by (exact Hc || lia). eapply holds_pop; [exact Hc | lia | exact Hh].
  - intros j Hj. unfold outs. cbn [SparcSwitch.cwp SparcSwitch.file]. rewrite down_up by exact Hc. apply Hv. lia.
  - split; reflexivity.
  - reflexivity.
Qed.

Lemma restore_spec s m v ws : rep s m (v :: ws) -> et s = true -> (1 <= length ws)%nat ->
  wp (restore N) (fun _ s' => exists m', rep s' m' ws /\ (forall j, (j < 8)%nat -> outs s' j = rg v (8 + j)) /\ besides s s' /\ mem s' = mem s) s.
Proof.
  intros Hr He Hl. pose proof Hr as [Hc Hm _ _ _]. unfold restore. apply wp_bind, wp_get. rewrite (rep_invalid s m (v :: ws)) by exact Hr. unfold id.
  assert (E1 : at_ (cwp s) 1 = up (cwp s)) by (rewrite <- (at_0 (cwp s)) at 2 by exact Hc; rewrite up_at by lia; reflexivity). rewrite <- E1.
  destruct (Nat.eqb_spec (at_ (cwp s) 1) (at_ (cwp s) m)) as [E | Hne].
  - assert (m = 1)%nat by (apply at_inj in E; lia). subst m.
    apply wp_bind. eapply wp_mono; [apply underflow_spec; [exact Hr | exact He | cbn; lia] |]. intros [] s1 (Hr1 & Ha & Hx).
    eapply wp_mono; [apply (restore_room s1 1 v ws); [exact Hr1 | lia] |]. intros [] s2 (Hr2 & Ho & Hb & Hmem). exists 1%nat. split; [exact Hr2 |]. split; [exact Ho |]. split; [| congruence].
    apply (besides_trans s s1); [apply around_besides, Ha | exact Hb].
  - apply wp_bind, wp_ret. destruct m as [| m]; [lia |]. eapply wp_mono; [apply (restore_room s m v ws); [exact Hr |] |].
    + assert (S m <> 1)%nat by congruence. lia.
    + intros [] s2 H. exists m. exact H.
Qed.
(** ** The walk *)

(** Where the walks make their mask. *)
Definition put_in (pl : bool) (gs : nat) (v : Z) : M cpu unit := if pl then li_l 7 v else li_g gs v.

Record walked (pl : bool) (gn gs : nat) (t k m : nat) (a : Z) (ws : list window) (s s' : cpu) : Prop := {
  wk_cwp : cwp s' = at_ t m;
  wk_same : wim s' = wim s /\ et s' = et s /\ others s' = others s;
  wk_file w r : r <> 7%nat \/ pl = false -> rgw s' w r = rgw s w r;
  wk_glob j : j <> gn -> j <> gs \/ pl = true -> rg (glob s') j = rg (glob s) j;
  wk_saved i v : (k <= i < m)%nat -> ws !! i = Some v -> saved (mem s') (sp_at a ws i) v;
  wk_mem x : (forall i, (k <= i < m)%nat -> ~ in_area (sp_at a ws i) x) -> wd (mem s') x = wd (mem s) x
}.

Lemma walk_spec pl gn gs t m a ws : gn <> gs -> gn <> 2%nat -> gs <> 2%nat -> (t < N)%nat -> (m < N)%nat -> (m <= length ws)%nat -> sep a ws ->
  forall fuel k s, (k <= m)%nat -> (m - k < fuel)%nat ->
    cwp s = at_ t k -> rg (glob s) gn = Z.of_nat (at_ t k) -> rg (glob s) 2 = bit (at_ (up t) m) -> wim s = bit (at_ (up t) m) ->
    (forall i v, (k <= i < m)%nat -> ws !! i = Some v -> forall j, (j < 16)%nat -> rgw s (at_ (up t) i) j = rg v j) ->
    (forall i, (k <= i < m)%nat -> rgw s (down (at_ (up t) i)) 14 = sp_at a ws i) ->
    wp (walk N gn (put_in pl gs) fuel) (fun _ s' => walked pl gn gs t k m a ws s s') s.
Proof.
  intros Hg1 Hg2 Hg3 Ht Hm Hl Hs. induction fuel as [| fuel IH]; [lia |]. intros k s Hk Hf Hc Hgn H2 Hw Hfile Hsp.
  assert (Hu : (up t < N)%nat) by (apply up_lt, Ht). assert (Hck : (at_ t k < N)%nat) by (apply at_lt; lia).
  assert (Eu : forall i, (i < N)%nat -> at_ (up t) i = up (at_ t i)) by (intros i Hi; rewrite up_at, <- (down_up t Ht), at_down, up_down by (rewrite ?down_up by exact Ht; lia); reflexivity).
  cbn [walk]. match goal with |- wp _ ?Q _ => set (Q0 := Q) end.
  destruct s as [c e p w f g y pc0 npc0 mm ctx co d ru ra]. cbn in Hc, Hgn, H2, Hw. cbn [SparcSwitch.file] in *. subst c.
  do 3 instr. regs. rewrite Hgn, window_up_1 by exact Hck. rewrite <- Eu by lia.
  set (F := if pl then setr (at_ t k) 7 (sll 1 (Z.of_nat (at_ (up t) k))) f else f).
  set (G0 := <[gn := Z.of_nat (at_ (up t) k)]> g). set (G := if pl then G0 else <[gs := sll 1 (Z.of_nat (at_ (up t) k))]> G0).
  assert (HG2 : rg G 2 = bit (at_ (up t) m)) by (unfold G, G0; destruct pl; regs; exact H2).
  assert (HF : forall w r, w <> at_ t k \/ r <> 7%nat \/ pl = false -> reg F w r = reg f w r).
  { intros w' r H. unfold F. destruct pl; [| reflexivity]. rewrite reg_setr. destruct (Nat.eqb_spec w' (at_ t k)), (Nat.eqb_spec r 7); try reflexivity. cbn [andb]. intuition discriminate. }
  assert (HG : forall j, j <> gn -> j <> gs \/ pl = true -> rg G j = rg g j).
  { intros j H1 H3. unfold G, G0. destruct pl; regs; [reflexivity |]. destruct H3 as [H3 |]; [| discriminate]. regs. reflexivity. }
  assert (HGn : rg G gn = Z.of_nat (at_ (up t) k)) by (unfold G, G0; destruct pl; regs; reflexivity).
  apply wp_bind. assert (Hput : forall Q : unit -> cpu -> Prop, Q tt (Cpu (at_ t k) e p w F G y pc0 npc0 mm ctx co d ru ra) -> wp (put_in pl gs (sll 1 (Z.of_nat (at_ (up t) k)))) Q (Cpu (at_ t k) e p w f G0 y pc0 npc0 mm ctx co d ru ra)).
  { intros Q HQ. unfold put_in, F, G in *. destruct pl; instr; exact HQ. }
  apply Hput. clear Hput. instr. rewrite HG2, sll_1, land_bits by (apply at_lt; lia).
  destruct (Nat.eqb_spec (at_ (up t) k) (at_ (up t) m)) as [E | Hne]; cbn [negb].
  - apply at_inj in E; try lia. subst k. apply wp_ret. subst Q0. cbv beta. split; cbn [SparcSwitch.cwp SparcSwitch.wim SparcSwitch.et SparcSwitch.mem SparcSwitch.file SparcSwitch.glob others]; auto; [intros; lia].
  - assert (Hkm : (k < m)%nat) by (destruct (decide (k = m)) as [-> |]; [contradiction | lia]).
    apply wp_bind, wp_restore_; fields; rewrite <- Eu by lia; [rewrite Hw, bit_test; apply Nat.eqb_neq, Hne |].
    instr. assert (Hat : forall i, (k <= i < m)%nat -> at_ (up t) i <> at_ t k) by (intros i Hi; rewrite <- (down_up t Ht) at 2; rewrite at_up by lia; rewrite down_up by exact Ht; intros E; apply at_inj in E; lia).
    assert (Hsp' : forall i, (k <= i < m)%nat -> reg F (down (at_ (up t) i)) 14 = sp_at a ws i) by (intros i Hi; rewrite HF by auto; apply Hsp, Hi).
    change (8 + 6)%nat with 14%nat. rewrite Hsp' by lia.
    destruct (lookup_lt_is_Some_2 ws k ltac:(lia)) as [v Hv].
    assert (Hs1 : saved (save16 (sp_at a ws k) (wn F (at_ (up t) k)) mm) (sp_at a ws k) v).
    { intros j Hj. rewrite wd_save16 by exact Hj. change (rg (wn F (at_ (up t) k)) j) with (reg F (at_ (up t) k) j). rewrite HF by (left; apply Hat; lia). apply (Hfile k v); auto; lia. }
    assert (ES : at_ (up t) k = at_ t (S k)) by (rewrite at_up by lia; reflexivity). rewrite ES in *.
    eapply wp_mono; [apply (IH (S k)); cbn [SparcSwitch.cwp SparcSwitch.wim SparcSwitch.file SparcSwitch.glob]; auto; try lia |].
    + intros i u Hi Hu' j Hj. rewrite HF by (left; apply Hat; lia). apply Hfile; auto; lia.
    + intros i Hi. apply Hsp'. lia.
    + intros [] s2 [W1 (W2 & W3 & W4) W5 W6 W7 W8]. subst Q0. cbv beta. cbn [SparcSwitch.cwp SparcSwitch.wim SparcSwitch.et SparcSwitch.mem SparcSwitch.file SparcSwitch.glob others] in *. split; cbn [SparcSwitch.cwp SparcSwitch.wim SparcSwitch.et SparcSwitch.mem SparcSwitch.file SparcSwitch.glob others]; auto.
      * intros w' r H. rewrite W5, HF by (auto || tauto). reflexivity.
      * intros j H H3. rewrite W6, HG by auto. reflexivity.
      * intros i u Hi Hu'. destruct (decide (i = k)) as [-> | Hik]; [| apply W7; auto; lia]. assert (u = v) by congruence. subst u.
        apply (saved_ext (save16 (sp_at a ws k) (wn F (at_ t (S k))) mm)); [| exact Hs1]. intros x Hx. apply W8. intros i Hi' Hin. pose proof (Hs k i ltac:(lia)). unfold apart, in_area in *. lia.
      * intros x Hx. rewrite W8 by (intros i Hi'; apply Hx; lia). apply wd_save16_out. specialize (Hx k ltac:(lia)). unfold in_area in Hx. lia.
Qed.
(** ** The flush *)
Lemma flush_spec s m ws : rep s m ws -> et s = true -> sep (sp_of N s) ws ->
  wp (flush_windows N) (fun _ s' => rep s' 1 ws /\ around (set_pcs (npc s) (u32 (npc s + 4)) s) s' /\ forall x, elsewhere (sp_of N s) ws x -> wd (mem s') x = wd (mem s) x) s.
Proof.
  intros [Hc Hm Hw Hp Hh] He Hs. match goal with |- wp _ ?Q _ => set (Q0 := Q) end. destruct s as [c e p w f g y pc0 npc0 mm ctx co d ru ra].
  cbn in Hc, Hw, Hp, He. subst e. change (rgw (Cpu c true p w f g y pc0 npc0 mm ctx co d ru ra)) with (reg f) in Hh. cbn [SparcSwitch.cwp SparcSwitch.mem] in Hh. unfold sp_of, get_o in Hs, Hh. cbn [SparcSwitch.cwp SparcSwitch.file] in Hs, Hh. change (8 + 6)%nat with 14%nat in *.
  remember (down c) as t eqn:Et. assert (Ht : (t < N)%nat) by (subst t; apply down_lt, Hc). assert (Hut : up t = c) by (subst t; apply up_down, Hc).
  assert (Hks : forall j k, (j < N)%nat -> (k < N)%nat -> j <> k -> at_ c j <> at_ c k) by (intros j k Hj Hk Hne E; apply at_inj in E; lia).
  assert (Hc0 : forall k, (1 <= k < N)%nat -> c <> at_ c k) by (intros k Hk; rewrite <- (at_0 c) at 1 by exact Hc; apply Hks; lia).
  assert (Ec : t = at_ c (N - 1)) by (rewrite Et; apply down_at, Hc). assert (E1 : at_ t 1 = c) by (rewrite Et, at_down, at_0 by lia; reflexivity).
  assert (Eup : up c = at_ c 1) by (rewrite <- (at_0 c) at 1 by exact Hc; apply up_at; lia).
  pose proof (ho_len _ _ _ _ _ _ Hh) as Hl.
  unfold flush_windows. apply wp_bind, wp_take_trap; [reflexivity |]. fields. rewrite <- Et. intros f1 [T0 T1 T2 T3 Tr].
  do 9 instr. regs. rewrite T0. do 4 instr. rewrite psr_cwp, window_up_1, Hut by (assumption || lia).
  apply wp_bind, wp_restore_; fields; rewrite Hut; [rewrite Hw, bit_test; apply Nat.eqb_neq, Hc0; lia |].
  regs. set (F := setr t 6 _ _). set (G := <[1%nat := _]> _).
  assert (HF : forall w r, w <> t \/ (8 <= r)%nat -> reg F w r = reg f w r).
  { intros w' r H. unfold F. rewrite !reg_setr, Tr by (destruct H; auto; right; lia). destruct (Nat.eqb_spec w' t); [| reflexivity]. destruct H; [contradiction |]. do 8 (destruct r as [| r]; [lia |]). reflexivity. }
  apply wp_bind. eapply wp_mono; [apply (walk_spec false 1 3 t m (reg f t 14) ws) with (k := 1%nat); cbn [SparcSwitch.cwp SparcSwitch.wim SparcSwitch.file SparcSwitch.glob]; rewrite ?Hut; auto; try lia |].
  - unfold G. regs. rewrite E1. reflexivity.
  - unfold G. regs. exact Hw.
  - intros i v Hi Hv j Hj. rewrite HF by (left; rewrite Ec; apply Hks; lia). apply (ho_file _ _ _ _ _ _ Hh i v); [lia | exact Hv | exact Hj].
  - intros i Hi. rewrite HF by (right; lia). apply (own_sp (reg f) c m mm); try lia; [exact Hh | rewrite <- Et; reflexivity].
  - intros [] s2 [W1 (W2 & W3 & W4) W5 W6 W7 W8].
    destruct s2 as [c2 e2 p2 w2 f2 g2 y2 pc2 npc2 mm2 ctx2 co2 d2 ru2 ra2]. cbn [SparcSwitch.cwp SparcSwitch.wim SparcSwitch.et SparcSwitch.mem SparcSwitch.file SparcSwitch.glob others] in W1, W2, W3, W4, W5, W6, W7, W8.
    unfold others in W4. cbn in W4. injection W4 as -> -> -> -> -> -> -> -> ->. subst c2 w2 e2.
    assert (W5' : forall w r, reg f2 w r = reg F w r) by (intros; apply W5; auto). assert (W6' : forall j, j <> 1%nat -> j <> 3%nat -> rg g2 j = rg G j) by (intros; apply W6; auto).
    instr. rewrite W6' by lia. replace (rg G 4) with (psr_value p t false) by (unfold G; regs; reflexivity).
    apply wp_bind, wp_wr_psr; [exact Hp | lia |]. fields. instr. rewrite psr_cwp, window_up_2, Hut, Eup by (assumption || lia).
    do 2 instr. regs. rewrite sll_1 by (apply at_lt; lia). do 2 instr. regs. rewrite wim_bit by (apply at_lt; lia).
    do 9 instr. regs. rewrite !W5'.
    assert (Fl : reg F t 2 = npc0 /\ reg F t 3 = rg g 1 /\ reg F t 4 = rg g 2 /\ reg F t 5 = rg g 3 /\ reg F t 6 = rg g 4) by (unfold F; regs; rewrite T2; auto).
    destruct Fl as (-> & -> & -> & -> & ->). apply wp_rett; fields; rewrite ?Hut; [reflexivity | rewrite bit_test; apply Nat.eqb_neq, Hc0; lia |].
    assert (Hf : forall w r, w <> t \/ (8 <= r)%nat -> reg f2 w r = reg f w r) by (intros; rewrite W5'; auto).
    subst Q0. cbv beta. fields. rewrite <- Et. split; [| split].
    + eapply rep_intro; [fields; reflexivity | fields; reflexivity | fields; reflexivity | fields; reflexivity | fields; reflexivity | fields; reflexivity | exact Hc | lia | reflexivity | exact Hp |].
      rewrite <- Et, Hf by lia. split; [lia | |].
      * intros k v Hk Hv j Hj. assert (k = 0%nat) by lia. subst k. rewrite Hf by (left; rewrite at_0 by exact Hc; rewrite Ec; apply Hc0; lia). apply (ho_file _ _ _ _ _ _ Hh 0 v); [lia | exact Hv | exact Hj].
      * intros k v Hk Hv. destruct (Nat.lt_ge_cases k m) as [Hkm | Hkm]; [apply W7; [lia | exact Hv] |].
        apply (saved_ext mm); [| apply (ho_mem _ _ _ _ _ _ Hh); assumption]. intros x Hx. apply W8. intros i Hi Hin. apply lookup_lt_Some in Hv. pose proof (Hs i k ltac:(lia)). unfold apart, in_area in *. lia.
    + split; cbn [SparcSwitch.cwp SparcSwitch.et SparcSwitch.glob SparcSwitch.file]; try reflexivity.
      * intros j. fields. rewrite !sparc_rg_insert. do 5 (destruct j as [| j]; [try reflexivity; unfold G in W6'; rewrite W6' by lia; regs; reflexivity |]). cbn [Nat.eqb]. rewrite W6' by lia. unfold G. regs. reflexivity.
      * intros j Hj. fields. rewrite <- Et. apply Hf. right. lia.
    + intros x Hx. apply W8. intros i Hi. apply Hx. lia.
Qed.
End ring.
