(* ===== verification/SparcTraps.v ===== *)
(** * The trap path of SPARC V8

    What a trap's entry leaves in the frame and in the trap's window, what C
    may do in between, and what each way out resumes. *)

From S2P Require Import Prelude State SparcSwitch SparcWindows.
Import SparcSwitch.
Local Open Scope Z_scope.

(** ** A context's view of the machine *)

(** The windows it holds, its own first, its PSR without CWP and ET, and the
    rest of what it is owed. *)
Record view := View {
  v_ws : list window;
  v_psr : Z;
  v_pc : Z;
  v_npc : Z;
  v_y : Z;
  v_g : nat -> Z;
  v_o : nat -> Z
}.

Definition v_sp (v : view) : Z := v_o v 6.

(** What no trap's own code touches. *)
Definition kernels (s : cpu) := (contexts s, decision s, running s, raised s).

Section traps.
Context (N : nat) (HN : (4 <= N <= 32)%nat).

Local Abbreviation up := (up N).
Local Abbreviation down := (down N).
Local Abbreviation at_ := (at_ N).
Local Abbreviation rep := (rep N).
Local Abbreviation holds := (holds N).
Local Abbreviation outs := (outs N).
Local Abbreviation sll_1 := (SparcWindows.sll_1 N HN).
Local Abbreviation srl_bit := (SparcWindows.srl_bit N HN).
Local Abbreviation wim_bit := (SparcWindows.wim_bit N HN).
Local Abbreviation rotate_right := (SparcWindows.rotate_right N HN).
Local Abbreviation window_up_1 := (SparcWindows.window_up_1 N HN).
Local Abbreviation window_up_2 := (SparcWindows.window_up_2 N HN).

(** It runs. *)
Record runs (s : cpu) (m : nat) (v : view) : Prop := {
  ru_rep : rep s m (v_ws v);
  ru_et : et s = true;
  ru_psr : psr s = v_psr v;
  ru_pc : pc s = v_pc v;
  ru_npc : npc s = v_npc v;
  ru_y : yreg s = v_y v;
  ru_glob j : (1 <= j < 8)%nat -> rg (glob s) j = v_g v j;
  ru_outs j : (j < 8)%nat -> outs s j = v_o v j
}.

(** A trap's window, the context's windows above it. *)
Record trap_window (s : cpu) (ty : Z) (m : nat) (v : view) : Prop := {
  tw_cwp : (cwp s < N)%nat;
  tw_m : (m < N)%nat;
  tw_wim : wim s = bit (at_ (up (cwp s)) m);
  tw_et : et s = false;
  tw_psr : psr s = v_psr v;
  tw_plain : psr_plain (v_psr v);
  tw_y : yreg s = v_y v;
  tw_l0 : rgw s (cwp s) 0 = psr_value (v_psr v) (cwp s) false;
  tw_l1 : rgw s (cwp s) 1 = v_pc v;
  tw_l2 : rgw s (cwp s) 2 = v_npc v;
  tw_l3 : rgw s (cwp s) 3 = ty;
  tw_outs j : (j < 8)%nat -> rgw s (cwp s) (8 + j) = v_o v j;
  tw_holds : holds (rgw s) (up (cwp s)) m (mem s) (v_sp v) (v_ws v)
}.

Definition globals (s : cpu) (v : view) : Prop := forall j, (1 <= j < 8)%nat -> rg (glob s) j = v_g v j.

Lemma runs_sp s m v : runs s m v -> sp_of N s = v_sp v.
Proof. intros H. exact (ru_outs _ _ _ H 6 ltac:(lia)). Qed.

Lemma take_trap_spec s ty m v : runs s m v ->
  wp (take_trap N ty) (fun _ s' => trap_window s' ty m v /\ globals s' v /\ core s' = core s /\ kernels s' = kernels s /\ mem s' = mem s) s.
Proof.
  intros Hr. pose proof (runs_sp _ _ _ Hr) as Hsp. destruct Hr as [[Hc Hm Hw Hp Hh] He Hps Hpc Hnpc Hy Hg Ho]. apply (wp_take_trap N HN); [exact He |]. intros f1 [T0 T1 T2 T3 Tr].
  assert (Hu : up (down (cwp s)) = cwp s) by (apply up_down; assumption). rewrite Hsp in Hh.
  split; [| split; [exact Hg | auto]]. split; cbn [cwp wim et psr yreg file mem set_file set_cwp set_et]; rewrite ?Hu; try congruence; auto.
  - apply down_lt; assumption.
  - lia.
  - intros j Hj. rewrite Tr by (right; lia). apply Ho, Hj.
  - eapply holds_file_ext; [| exact Hh]. intros k j Hk Hj. apply Tr. left. rewrite down_at by assumption. intros E. apply at_inj in E; lia.
Qed.
(** A trap window seen again. *)
Lemma trap_window_same s s' ty m m' v : trap_window s ty m v -> cwp s' = cwp s -> et s' = et s -> psr s' = psr s -> yreg s' = yreg s ->
  (forall r, (r < 4)%nat \/ (8 <= r)%nat -> rgw s' (cwp s) r = rgw s (cwp s) r) ->
  (m' < N)%nat -> wim s' = bit (at_ (up (cwp s)) m') -> holds (rgw s') (up (cwp s)) m' (mem s') (v_sp v) (v_ws v) -> trap_window s' ty m' v.
Proof.
  intros [Hc Hm Hw He Hps Hpl Hy H0 H1 H2 H3 Ho Hh] Ec Ee Ep Ey Ef Hm' Ew Hh'. split; rewrite ?Ec; try congruence; try (rewrite Ef by lia; assumption).
  intros j Hj. rewrite Ef by lia. apply Ho, Hj.
Qed.

Lemma srl_psr x p c e : psr_plain p -> (c < N)%nat -> srl x (psr_value p c e) = srl x (Z.of_nat c).
Proof.
  intros Hp Hc. unfold srl. f_equal. rewrite (Z.mod_small (Z.of_nat c)) by lia. rewrite <- (psr_cwp p c e) by (assumption || lia).
  change psr_cwp_mask with (Z.ones 5). rewrite Z.land_ones by lia. reflexivity.
Qed.

Lemma own_window_spec s ty m v : trap_window s ty m v -> sep (v_sp v) (v_ws v) ->
  wp (own_window N) (fun _ s' => exists m', (m' < N - 1)%nat /\ trap_window s' ty m' v /\ (forall j, rgw s' (cwp s) j = rgw s (cwp s) j) /\ cwp s' = cwp s /\
    (forall j, (3 <= j)%nat -> rg (glob s') j = rg (glob s) j) /\ core s' = core s /\ kernels s' = kernels s /\ forall x, elsewhere (v_sp v) (v_ws v) x -> wd (mem s') x = wd (mem s) x) s.
Proof.
  intros Htw Hs. pose proof Htw as [Hc Hm Hw He Hps Hpl Hy H0 H1 H2 H3 Ho Hh]. match goal with |- wp _ ?Q _ => set (Q0 := Q) end.
  remember s as s0 eqn:Es. destruct s as [t e p w f g y pc0 npc0 mm ctx co d ru ra]. subst s0. cbn in Hc, Hm, Hw, He, Hps, Hy, H0, H1, H2, H3, Ho. cbn [cwp file mem] in Hh. subst e.
  assert (Hup : (up t < N)%nat) by (apply up_lt; assumption). assert (Hdu : down (up t) = t) by (apply down_up; assumption).
  unfold own_window. do 4 instr. rewrite H0, srl_psr by assumption. regs. do 2 instr. regs.
  rewrite Hw, srl_bit by (try assumption; try (apply at_lt; assumption); lia).
  assert (E : ((if (t <=? at_ (up t) m)%nat then bit (at_ (up t) m - t) else 0) =? 1) = (m =? N - 1)%nat).
  { destruct (Nat.eqb_spec m (N - 1)) as [-> | Hne].
    - rewrite <- down_at, Hdu, Nat.leb_refl, Nat.sub_diag by assumption. reflexivity.
    - destruct (Nat.leb_spec t (at_ (up t) m)) as [Hle |]; [| reflexivity]. apply Z.eqb_neq. unfold bit. intros E.
      assert (Z.of_nat (at_ (up t) m - t) = 0) by (apply (Z.pow_inj_r 2); [lia | lia | lia | exact E]). assert (E' : at_ (up t) m = down (up t)) by (rewrite Hdu; lia).
      rewrite down_at in E' by assumption. apply at_inj in E'; lia. }
  rewrite E. destruct (Nat.eqb_spec m (N - 1)) as [-> | Hne].
  - rewrite <- down_at, Hdu in Hw by assumption. assert (Hd : (down t < N)%nat) by (apply down_lt; assumption). assert (Hdt : down t <> t) by (apply down_ne; assumption).
    rewrite <- down_at, Hdu by assumption. do 4 instr. regs. rewrite Z.lor_comm.
    apply wp_bind, wp_save_; fields; [rewrite bit_test; apply Nat.eqb_neq, Hdt |].
    do 2 instr. regs. rewrite rotate_right by assumption. instr.
    apply wp_restore_; fields; rewrite ?up_down by assumption; [rewrite bit_test; apply Nat.eqb_neq; auto |].
    assert (E2 : down t = at_ (up t) (N - 2)) by (rewrite <- Hdu at 1; apply down_down_at; assumption).
    assert (Hown : reg f (down (down t)) 14 = sp_at (v_sp v) (v_ws v) (N - 2)).
    { rewrite E2. apply (own_sp N HN (reg f) (up t) (N - 1) mm); try lia; [exact Hh |]. rewrite Hdu. symmetry. apply (Ho 6%nat). lia. }
    change (8 + 6)%nat with 14%nat. rewrite Hown. subst Q0. cbv beta. exists (N - 2)%nat. split; [lia |]. split; [| split; [reflexivity | split; [reflexivity | split; [| split; [reflexivity | split; [reflexivity |]]]]]].
    + eapply trap_window_same; [exact Htw | reflexivity | reflexivity | reflexivity | reflexivity | reflexivity | lia | cbn [cwp wim]; rewrite <- E2; reflexivity |]. cbn [cwp file mem].
      eapply (holds_spill N HN); [replace (S (N - 2)) with (N - 1)%nat by lia; exact Hh | exact Hs | |].
      * intros j Hj. rewrite <- E2. rewrite wd_save16 by exact Hj. reflexivity.
      * intros x Hx. apply wd_save16_out. unfold in_area in Hx. lia.
    + intros j Hj. cbn [glob]. regs. do 3 (destruct j as [| j]; [lia |]). reflexivity.
    + intros x Hx. cbn [mem]. apply wd_save16_out. specialize (Hx (N - 2)%nat). pose proof (ho_len _ _ _ _ _ _ _ Hh). unfold in_area in Hx. lia.
  - apply wp_ret. subst Q0. cbv beta. exists m. split; [lia |]. split; [| split; [reflexivity | split; [reflexivity | split; [| split; [reflexivity | split; [reflexivity | reflexivity]]]]]].
    + eapply trap_window_same; [exact Htw | reflexivity | reflexivity | reflexivity | reflexivity | reflexivity | lia | first [exact Hw | reflexivity] | exact Hh].
    + intros j Hj. cbn [glob]. regs. do 3 (destruct j as [| j]; [lia |]). reflexivity.
Qed.
(** After a yield's own half nothing of its thread is left in the file but the
    trap's window. *)
Lemma yield_entry_spec s ty m v : trap_window s ty m v -> globals s v -> sep (v_sp v) (v_ws v) ->
  wp (yield_entry N) (fun _ s' => trap_window s' ty 0 v /\ globals s' v /\ core s' = core s /\ kernels s' = kernels s /\ forall x, elsewhere (v_sp v) (v_ws v) x -> wd (mem s') x = wd (mem s) x) s.
Proof.
  intros Htw Hgl Hs. pose proof Htw as [Hc Hm Hw He Hps Hpl Hy H0 H1 H2 H3 Ho Hh]. match goal with |- wp _ ?Q _ => set (Q0 := Q) end.
  remember s as s0 eqn:Es. destruct s as [t e p w f g y pc0 npc0 mm ctx co d ru ra]. subst s0. cbn in Hc, Hm, Hw, He, Hps, Hy, H0, H1, H2, H3, Ho. cbn [cwp file mem] in Hh. unfold globals in Hgl. cbn [glob] in Hgl. subst e.
  assert (Hup : (up t < N)%nat) by (apply up_lt; assumption). assert (Hdu : down (up t) = t) by (apply down_up; assumption).
  assert (Hat : forall i, (i < N - 1)%nat -> at_ (up t) i <> t) by (intros i Hi E; assert (E2 : at_ (up t) i = at_ (up t) (N - 1)) by (rewrite E, <- down_at by assumption; auto); apply at_inj in E2; lia).
  pose proof (ho_len _ _ _ _ _ _ _ Hh) as Hl.
  unfold yield_entry. do 7 instr. regs. rewrite H0. do 4 instr. rewrite psr_cwp by (assumption || lia). regs.
  set (F := setr t 6 _ _). set (G := <[1%nat := _]> _).
  assert (HF : forall w r, w <> t \/ (r < 4)%nat \/ (8 <= r)%nat -> reg F w r = reg f w r).
  { intros w' r H. unfold F. rewrite !reg_setr. destruct (Nat.eqb_spec w' t); [| reflexivity]. destruct H as [H | H]; [contradiction |]. do 8 (destruct r as [| r]; [try reflexivity; lia |]). reflexivity. }
  assert (Hsp : reg f t 14 = v_sp v) by (apply (Ho 6%nat); lia).
  apply wp_bind. change (walk N 1 (li_l 7) N) with (walk N 1 (put_in true 3) N).
  eapply wp_mono; [apply (walk_spec N HN true 1 3 t m (v_sp v) (v_ws v)) with (k := 0%nat); cbn [cwp wim file glob]; auto; try lia |].
  - symmetry. apply at_0; assumption.
  - unfold G. regs. rewrite at_0 by assumption. reflexivity.
  - unfold G. regs. exact Hw.
  - intros i u Hi Hu j Hj. rewrite HF by (left; apply Hat; lia). apply (ho_file _ _ _ _ _ _ _ Hh i u); [lia | exact Hu | exact Hj].
  - intros i Hi. rewrite HF by (right; lia). apply (own_sp N HN (reg f) (up t) m mm); try lia; [exact Hh | rewrite Hdu; congruence].
  - intros [] s2 [W1 (W2 & W3 & W4) W5 W6 W7 W8].
    destruct s2 as [c2 e2 p2 w2 f2 g2 y2 pc2 npc2 mm2 ctx2 co2 d2 ru2 ra2]. cbn [cwp wim et mem file glob] in W1, W2, W3, W5, W6, W7, W8.
    unfold others in W4. cbn in W4. injection W4 as -> -> -> -> -> -> -> -> ->. subst c2 w2 e2 p.
    assert (W6' : forall j, j <> 1%nat -> rg g2 j = rg G j) by (intros; apply W6; auto). assert (W5' : forall w r, r <> 7%nat -> reg f2 w r = reg F w r) by (intros; apply W5; auto).
    instr. rewrite W6' by lia. replace (rg G 3) with (psr_value (v_psr v) t false) by (unfold G; regs; reflexivity).
    apply wp_bind, wp_wr_psr; [exact Hpl | lia |]. fields. instr. rewrite psr_cwp, window_up_1 by (assumption || lia).
    do 2 instr. regs. rewrite sll_1 by assumption. do 2 instr. regs. rewrite wim_bit by assumption.
    do 6 instr. rewrite !W5' by lia.
    assert (Fl : reg F t 4 = rg g 1 /\ reg F t 5 = rg g 2 /\ reg F t 6 = rg g 3) by (unfold F; regs; auto). destruct Fl as (-> & -> & ->).
    subst Q0. cbv beta. split; [| split; [| split; [reflexivity | split; [reflexivity |]]]].
    + eapply trap_window_same; [exact Htw | reflexivity | reflexivity | reflexivity | reflexivity | | lia | cbn [cwp wim]; rewrite at_0 by assumption; reflexivity |].
      * intros r Hr. cbn [cwp file]. rewrite W5', HF by lia. reflexivity.
      * cbn [cwp file mem]. split; [lia | intros; lia |]. intros k u _ Hu. destruct (Nat.lt_ge_cases k m) as [Hkm | Hkm]; [apply W7; [lia | exact Hu] |].
        apply (saved_ext mm); [| apply (ho_mem _ _ _ _ _ _ _ Hh); assumption]. intros x Hx. apply W8. intros i Hi Hin. apply lookup_lt_Some in Hu. pose proof (Hs i k ltac:(lia)). unfold apart, in_area in *. lia.
    + intros j Hj. cbn [glob]. rewrite <- Hgl by exact Hj. rewrite !sparc_rg_insert. do 4 (destruct j as [| j]; [reflexivity || lia |]). cbn [Nat.eqb]. rewrite W6' by lia. unfold G. regs. reflexivity.
    + intros x Hx. cbn [mem]. apply W8. intros i Hi. apply Hx. lia.
Qed.
(** ** The frame *)
Record framed (m : gmap Z Z) (f : Z) (v : view) : Prop := {
  fr_psr : Z.ldiff (wd m (f + F_PSR)) 63 = v_psr v;
  fr_pc : wd m (f + F_PC) = v_pc v;
  fr_npc : wd m (f + F_NPC) = v_npc v;
  fr_y : wd m (f + F_Y) = v_y v;
  fr_g j : (1 <= j < 8)%nat -> wd m (f + F_G0 + 4 * Z.of_nat j) = v_g v j;
  fr_o j : (j < 8)%nat -> wd m (f + F_O0 + 4 * Z.of_nat j) = v_o v j;
  fr_sp : v_sp v = f + F_BYTES
}.

Definition in_frame (f x : Z) : Prop := f <= x < f + F_BYTES.

Lemma sparc_framed_ext m m' f v : (forall x, in_frame f x -> wd m' x = wd m x) -> framed m f v -> framed m' f v.
Proof. clear HN.
  intros He [H1 H2 H3 H4 H5 H6 H7]. unfold in_frame, F_PSR, F_PC, F_NPC, F_Y, F_G0, F_O0, F_BYTES in *.
  split; auto; unfold F_PSR, F_PC, F_NPC, F_Y, F_G0, F_O0; try (rewrite He by lia; assumption); intros j Hj; rewrite He by lia; auto.
Qed.

(** Words in a row. *)
Definition row (a : Z) (l : list Z) (m : gmap Z Z) : gmap Z Z := foldl (fun m j => <[a + 4 * Z.of_nat j := nth j l 0]> m) m (seq 0 (length l)).

Lemma wd_row a l m j : (j < length l)%nat -> wd (row a l m) (a + 4 * Z.of_nat j) = nth j l 0.
Proof. clear HN. intros Hj. apply (foldl_words (fun j => nth j l 0)), elem_of_seq. lia. Qed.

Lemma wd_row_out a l m x : x < a \/ a + 4 * Z.of_nat (length l) <= x -> wd (row a l m) x = wd m x.
Proof. clear HN. intros Hx. apply (foldl_words_out (fun j => nth j l 0)). intros r Hr. apply elem_of_seq in Hr. lia. Qed.

Lemma wp_put_words a l Q s : Q tt (set_mem (row a l (mem s)) s) -> wp (put_words a l) Q s.
Proof. auto. Qed.

Definition frame_words (f psr pc npc y : Z) (g o : list Z) (m : gmap Z Z) : gmap Z Z :=
  row (f + F_O0) o (row (f + F_G0) g (<[f + F_Y := y]> (<[f + F_NPC := npc]> (<[f + F_PC := pc]> (<[f + F_PSR := psr]> m))))).

#[local] Arguments row : simpl never.

Lemma frame_words_out f psr pc npc y g o m x : length g = 8%nat -> length o = 8%nat -> ~ in_frame f x -> wd (frame_words f psr pc npc y g o m) x = wd m x.
Proof. clear HN.
  intros Hg Ho Hx. unfold in_frame, frame_words, F_PSR, F_PC, F_NPC, F_Y, F_G0, F_O0, F_BYTES in *.
  rewrite !wd_row_out, !sparc_wd_insert by lia. rewrite !(proj2 (Z.eqb_neq _ _)) by lia. reflexivity.
Qed.

Lemma frame_words_framed f p c m v g o : psr_plain (v_psr v) -> (c < N)%nat -> p = psr_value (v_psr v) c false -> v_sp v = f + F_BYTES -> length g = 8%nat -> length o = 8%nat ->
  (forall j, (1 <= j < 8)%nat -> nth j g 0 = v_g v j) -> (forall j, (j < 8)%nat -> nth j o 0 = v_o v j) ->
  framed (frame_words f p (v_pc v) (v_npc v) (v_y v) g o m) f v.
Proof.
  intros Hp Hc -> Hsp Lg Lo Hg Ho. unfold frame_words, F_PSR, F_PC, F_NPC, F_Y, F_G0, F_O0 in *.
  split; [.. | exact Hsp]; unfold F_PSR, F_PC, F_NPC, F_Y, F_G0, F_O0.
  1-4: rewrite !wd_row_out by lia; rewrite !sparc_wd_insert; rewrite ?Z.eqb_refl; try reflexivity; rewrite !(proj2 (Z.eqb_neq _ _)) by lia; try reflexivity.
  - rewrite psr_rest by (assumption || lia). reflexivity.
  - intros j Hj. rewrite wd_row_out by lia. rewrite wd_row by lia. apply Hg, Hj.
  - intros j Hj. rewrite wd_row by lia. apply Ho, Hj.
Qed.
(** ** The entry *)
Definition masked (p : Z) : Z := Z.lor p (Z.shiftl 15 8).

Lemma psr_on p c : psr_plain p -> (c < N)%nat -> Z.lxor (masked (psr_value p c false)) psr_et = psr_value (masked p) c true.
Proof.
  intros Hp Hc. apply Z.bits_inj'. intros i Hi. unfold masked, psr_value. rewrite Z.lxor_spec, !Z.lor_spec, Z.bits_0, orb_false_r. change psr_et with (2 ^ 5).
  destruct (Z.eqb_spec i 5) as [-> | Hne].
  - rewrite (plain_bit p 5 Hp), (cwp_bits c 5) by lia. reflexivity.
  - rewrite Z.pow2_bits_false by lia. rewrite xorb_false_r, orb_false_r. destruct (Z.testbit p i), (Z.testbit (Z.of_nat c) i), (Z.testbit (Z.shiftl 15 8) i); reflexivity.
Qed.

Lemma plain_masked p : psr_plain p -> psr_plain (masked p).
Proof. clear HN. unfold psr_plain, masked. intros Hp. rewrite Z.land_lor_distr_l, Hp. reflexivity. Qed.

(** The stack a trap's handler starts on, and the core it finds. *)
Definition handler_sp (c : core_state) (f : Z) : Z := if depth c =? 0 then (if irq_stack c =? 0 then f else irq_stack c) else f.
Definition counted (c : core_state) (f : Z) : core_state := CoreState (if depth c =? 0 then f else cs_frame c) (irq_stack c) (depth c + 1).

(** The save areas do not lie where the frame goes. *)
Definition clear_of (lo hi : Z) (a : Z) (ws : list window) : Prop := forall k, (k < length ws)%nat -> hi <= sp_at a ws k \/ sp_at a ws k + 64 <= lo.

Record entered (s : cpu) (v : view) (f : Z) (s' : cpu) : Prop := {
  en_rep : exists m w, rep s' m (w :: v_ws v) /\ rg w 6 = f /\ fp w = v_sp v;
  en_et : et s' = true;
  en_framed : framed (mem s') f v;
  en_sp : sp_of N s' = handler_sp (core s) f - 96;
  en_core : core s' = counted (core s) f;
  en_kernels : kernels s' = kernels s;
  en_mem x : ~ in_frame f x -> elsewhere (v_sp v) (v_ws v) x -> wd (mem s') x = wd (mem s) x
}.

Lemma wp_count_trap f (Q : unit -> cpu -> Prop) s : Q tt (set_win (down (cwp s)) 14 (handler_sp (core s) f - 96) (set_core (counted (core s) f) s)) -> wp (count_trap N f) Q s.
Proof.
  intros HQ. destruct s as [c e p w f0 g y pc0 npc0 mm ctx [cf irq d] de ru ra]. unfold handler_sp, counted in HQ. cbn [core cwp depth irq_stack cs_frame] in HQ.
  unfold count_trap. do 2 instr. cbn [depth cs_frame irq_stack set_depth].
  destruct (d =? 0); cbn [negb] in *; apply wp_bind.
  - instr. instr. cbn [irq_stack set_cs_frame depth cs_frame]. apply wp_ret. instr. exact HQ.
  - apply wp_ret. instr. exact HQ.
Qed.
Lemma clear_elsewhere lo hi a ws x : clear_of lo hi a ws -> lo <= x < hi -> elsewhere a ws x.
Proof. clear HN. intros H Hx k Hk Hin. specialize (H k Hk). unfold in_area in Hin. lia. Qed.

(** The frame and the stack, once the window is there. *)
Lemma frame_and_stack_spec s ty m v : trap_window s ty m v -> (m < N - 1)%nat -> rgw s (cwp s) 4 = v_g v 1 -> rgw s (cwp s) 5 = v_g v 2 -> (forall j, (3 <= j < 8)%nat -> rg (glob s) j = v_g v j) ->
  clear_of (v_sp v - F_BYTES) (v_sp v) (v_sp v) (v_ws v) ->
  wp (frame_and_stack N) (fun o s' => o = (v_sp v - F_BYTES, ty) /\ entered s v (v_sp v - F_BYTES) s') s.
Proof.
  intros Htw Hm1 H4 H5 Hg Hcl. destruct Htw as [Hc Hm Hw He Hps Hpl Hy H0 H1 H2 H3 Ho Hh]. match goal with |- wp _ ?Q _ => set (Q0 := Q) end.
  remember s as s0 eqn:Es. destruct s as [t e p w f g y pc0 npc0 mm ctx co d ru ra]. subst s0. cbn in Hc, Hm, Hw, He, Hps, Hy, H0, H1, H2, H3, H4, H5, Ho, Hg. cbn [cwp file mem] in Hh. subst e.
  assert (Hup : (up t < N)%nat) by (apply up_lt; assumption). assert (Hdu : down (up t) = t) by (apply down_up; assumption).
  assert (Hat : forall i, (i < N - 1)%nat -> at_ (up t) i <> t) by (intros i Hi E; assert (E2 : at_ (up t) i = at_ (up t) (N - 1)) by (rewrite E, <- down_at by assumption; auto); apply at_inj in E2; lia).
  assert (Hdt : down t <> t) by (apply down_ne; assumption).
  assert (Hsp : reg f t 14 = v_sp v) by (apply (Ho 6%nat); lia).
  unfold frame_and_stack. instr. change (8 + 6)%nat with 14%nat. rewrite Hsp. set (fr := v_sp v - F_BYTES) in *.
  apply wp_bind. unfold store_frame. do 4 (apply wp_bind, wp_get, wp_bind, wp_modify; fields). do 3 instr. apply wp_bind, wp_put_words; fields. instr. apply wp_put_words; fields.
  rewrite H0, H1, H2, H4, H5, Hy. match goal with |- context [row (fr + F_O0) ?o (row (fr + F_G0) ?g ?m)] => set (L := o); set (G := g); set (mm' := row (fr + F_O0) L (row (fr + F_G0) G m)) end.
  assert (Emm : mm' = frame_words fr (psr_value (v_psr v) t false) (v_pc v) (v_npc v) (v_y v) G L mm) by reflexivity.
  instr. apply wp_bind, wp_count_trap; fields. instr. regs. rewrite H0. fold (masked (psr_value (v_psr v) t false)). rewrite psr_on by assumption.
  apply wp_bind, wp_wr_psr; [apply plain_masked, Hpl | lia |]. fields. do 2 instr. apply wp_ret. regs. subst Q0. cbv beta.
  assert (LG : length G = 8%nat) by reflexivity. assert (LL : length L = 8%nat) by reflexivity.
  rewrite H3. split; [reflexivity |]. set (F := setr (down t) 14 _ _). split; cbn [cwp wim et psr mem file glob core kernels].
  - exists (S m), (wn F t). assert (HF : forall w r, w <> down t -> r <> 6%nat -> reg F w r = reg f w r).
    { intros w' r Hne Hr. unfold F. rewrite !reg_setr, (proj2 (Nat.eqb_neq _ _) Hne), (proj2 (Nat.eqb_neq _ _) Hr), andb_false_r. reflexivity. }
    assert (HF2 : forall w r, w <> t -> w <> down t -> reg F w r = reg f w r).
    { intros w' r Hne Hne2. unfold F. rewrite !reg_setr, (proj2 (Nat.eqb_neq _ _) Hne), (proj2 (Nat.eqb_neq _ _) Hne2). reflexivity. }
    assert (E14 : reg F t 14 = v_sp v) by (rewrite HF by (auto || lia); exact Hsp).
    split; [| split; [change (reg F t 6 = fr); unfold F; regs; reflexivity | exact E14]].
    assert (Ea : at_ t (S m) = at_ (up t) m) by (rewrite <- Hdu at 1; apply at_down; lia).
    eapply rep_intro; [reflexivity | reflexivity | reflexivity | reflexivity | reflexivity | reflexivity | exact Hc | lia | cbn [wim cwp]; rewrite Ea; exact Hw | apply plain_masked, Hpl |].
    cbn [cwp file mem]. pose proof (holds_push N HN (reg f) (reg F) (up t) m mm' (v_sp v) (reg F (down t) 14) (wn F t) (v_ws v)) as P. rewrite Hdu in P. apply P; clear P; [exact Hup | | lia | exact E14 | reflexivity |].
    + apply (holds_mem_ext N HN (reg f) (up t) m mm); [| exact Hh]. intros k x Hk Hx. rewrite Emm. apply frame_words_out; [reflexivity | reflexivity |].
      specialize (Hcl k ltac:(lia)). unfold in_frame, in_area, fr, F_BYTES in *. lia.
    + intros k j Hk Hj. apply HF2; [apply Hat; lia |]. assert (E2 : down t = at_ (up t) (N - 2)) by (rewrite <- Hdu at 1; apply down_down_at; assumption). rewrite E2. intros E. apply at_inj in E; lia.
  - reflexivity.
  - rewrite Emm. eapply frame_words_framed; [exact Hpl | exact Hc | reflexivity | unfold fr; lia | exact LG | exact LL | |].
    + intros j Hj. do 8 (destruct j as [| j]; [try reflexivity; try (apply Hg; lia); lia |]). lia.
    + intros j Hj. do 8 (destruct j as [| j]; [cbn; apply Ho; lia |]). lia.
  - unfold sp_of, get_o. cbn [cwp file]. unfold F. regs. reflexivity.
  - reflexivity.
  - reflexivity.
  - intros x Hx _. rewrite Emm. apply frame_words_out; [reflexivity | reflexivity | exact Hx].
Qed.
Lemma trap_enter_spec s ty m v : trap_window s ty m v -> globals s v -> sep (v_sp v) (v_ws v) -> clear_of (v_sp v - F_BYTES) (v_sp v) (v_sp v) (v_ws v) ->
  wp (trap_enter N) (fun o s' => o = (v_sp v - F_BYTES, ty) /\ entered s v (v_sp v - F_BYTES) s') s.
Proof.
  intros Htw Hg Hs Hcl. unfold trap_enter. apply wp_bind, wp_get, wp_bind, wp_modify, wp_bind, wp_get, wp_bind, wp_modify.
  set (s1 := set_win (cwp s) 4 (get_g 1 s) s). set (s2 := set_win (cwp s1) 5 (get_g 2 s1) s1).
  assert (E : cwp s2 = cwp s /\ core s2 = core s /\ kernels s2 = kernels s /\ mem s2 = mem s /\ glob s2 = glob s) by (destruct s; repeat split). destruct E as (Ec & Eco & Ek & Em & Eg).
  assert (Ef : forall w r, rgw s2 w r = if (w =? cwp s)%nat && (r =? 5)%nat then rg (glob s) 2 else if (w =? cwp s)%nat && (r =? 4)%nat then rg (glob s) 1 else rgw s w r) by (intros w r; destruct s; cbn; rewrite !reg_setr; reflexivity).
  assert (Htw2 : trap_window s2 ty m v).
  { eapply trap_window_same; [exact Htw | exact Ec | destruct s; reflexivity | destruct s; reflexivity | destruct s; reflexivity | | apply Htw | destruct s; apply Htw |].
    - intros r Hr. rewrite Ef, (proj2 (Nat.eqb_neq r 5)), (proj2 (Nat.eqb_neq r 4)), !andb_false_r by lia. reflexivity.
    - rewrite Em. eapply holds_file_ext; [| apply Htw]. intros k j Hk Hj. rewrite Ef. rewrite (proj2 (Nat.eqb_neq (at_ (up (cwp s)) k) (cwp s))); [reflexivity |]. pose proof (tw_cwp _ _ _ _ Htw). pose proof (tw_m _ _ _ _ Htw).
      intros E. assert (E2 : at_ (up (cwp s)) k = at_ (up (cwp s)) (N - 1)) by (rewrite E, <- down_at, down_up by (try assumption; apply up_lt; assumption); reflexivity). apply at_inj in E2; [lia | assumption | apply up_lt; assumption | lia | lia]. }
  apply wp_bind. eapply wp_mono; [apply (own_window_spec s2 ty m v Htw2 Hs) |]. intros [] s3 (m' & Hm' & Htw3 & Hf3 & Ec3 & Hg3 & Eco3 & Ek3 & Hmem3).
  eapply wp_mono; [apply (frame_and_stack_spec s3 ty m' v Htw3 Hm') |].
  - rewrite Ec3, Hf3, Ef, Ec, Nat.eqb_refl. cbn. apply Hg. lia.
  - rewrite Ec3, Hf3, Ef, Ec, Nat.eqb_refl. cbn. apply Hg. lia.
  - intros j Hj. rewrite Hg3, Eg by lia. apply Hg. lia.
  - exact Hcl.
  - intros o s4 [Eo [R1 R2 R3 R4 R5 R6 R7]]. split; [exact Eo |]. split; try assumption; try congruence.
    intros x Hx Hex. rewrite R7, Hmem3 by assumption. rewrite Em. reflexivity.
Qed.
(** ** The exit *)

(** A trap window on its way out, the frame to resume in %l5. *)
Record leaving (s : cpu) (f : Z) (v : view) : Prop := {
  le_cwp : (cwp s < N)%nat;
  le_et : et s = false;
  le_psr : psr_plain (psr s);
  le_plain : psr_plain (v_psr v);
  le_l5 : rgw s (cwp s) 5 = f;
  le_framed : framed (mem s) f v
}.

Definition filled_ins (f : Z) (m : gmap Z Z) (w : window) : window := foldl (fun w j => <[(8 + j)%nat := wd m (f + F_O0 + 4 * Z.of_nat j)]> w) w (seq 0 8).

Lemma rg_filled f m w v r : framed m f v -> rg (filled_ins f m w) r = if (8 <=? r)%nat && (r <? 16)%nat then v_o v (r - 8) else rg w r.
Proof. clear HN.
  intros Hf. destruct (Nat.leb_spec 8 r), (Nat.ltb_spec r 16); cbn [andb].
  - replace r with (8 + (r - 8))%nat at 1 by lia. unfold filled_ins. rewrite (foldl_regs (fun j => wd m (f + F_O0 + 4 * Z.of_nat j))) by (apply elem_of_seq; lia). apply Hf. lia.
  - apply (foldl_regs_out (fun j => wd m (f + F_O0 + 4 * Z.of_nat j))). intros j Hj. apply elem_of_seq in Hj. lia.
  - apply (foldl_regs_out (fun j => wd m (f + F_O0 + 4 * Z.of_nat j))). intros j Hj. apply elem_of_seq in Hj. lia.
  - lia.
Qed.
#[local] Arguments filled_ins : simpl never.

Lemma wp_fill_ins f Q s : Q tt (set_file (<[cwp s := filled_ins f (mem s) (wn (file s) (cwp s))]> (file s)) s) -> wp (fill_ins (f + F_O0)) Q s.
Proof. auto. Qed.

Definition loaded_globals (f : Z) (m : gmap Z Z) (g : gmap nat Z) : gmap nat Z := foldl (fun g j => <[(0 + j)%nat := wd m (f + F_G0 + 4 * Z.of_nat j)]> g) g (seq 2 6).

Lemma rg_loaded f m g v j : framed m f v -> (2 <= j < 8)%nat -> rg (loaded_globals f m g) j = v_g v j.
Proof. clear HN. intros Hf Hj. unfold loaded_globals. change j with (0 + j)%nat at 1. rewrite (foldl_regs (fun j => wd m (f + F_G0 + 4 * Z.of_nat j))) by (apply elem_of_seq; lia). apply Hf. lia. Qed.
#[local] Arguments loaded_globals : simpl never.

Definition resumed (v : view) (m : nat) (s s' : cpu) : Prop := runs s' m v /\ core s' = core s /\ kernels s' = kernels s /\ mem s' = mem s.

Lemma trap_resume_spec s f v m : leaving s f v -> (1 <= m < N)%nat -> wim s = bit (at_ (up (cwp s)) m) -> holds (rgw s) (up (cwp s)) m (mem s) (v_sp v) (v_ws v) ->
  wp (trap_resume N) (fun _ s' => resumed v m s s') s.
Proof.
  intros [Hc He Hp Hpl H5 Hf] Hm Hw Hh. match goal with |- wp _ ?Q _ => set (Q0 := Q) end.
  remember s as s0 eqn:Es. destruct s as [t e p w f0 g y pc0 npc0 mm ctx co d ru ra]. subst s0. cbn in Hc, Hw, He, Hp, H5. cbn [cwp file mem] in *. subst e.
  assert (Hup : (up t < N)%nat) by (apply up_lt; assumption). assert (Hdu : down (up t) = t) by (apply down_up; assumption).
  assert (Hat : forall i, (i < N - 1)%nat -> at_ (up t) i <> t) by (intros i Hi E; assert (E2 : at_ (up t) i = at_ (up t) (N - 1)) by (rewrite E, <- down_at by assumption; auto); apply at_inj in E2; lia).
  unfold trap_resume. instr. rewrite H5. apply wp_bind, wp_fill_ins; fields. do 4 instr. regs. 
  apply wp_bind, wp_modify. change (foldl (fun (g : gmap nat Z) (j : nat) => <[j := wd mm (f + F_G0 + 4 * Z.of_nat j)]> g)) with (foldl (fun (g : gmap nat Z) (j : nat) => <[(0 + j)%nat := wd mm (f + F_G0 + 4 * Z.of_nat j)]> g)). fields. fold (loaded_globals f mm (<[1%nat := wd mm (f + F_Y)]> g)).
  do 5 instr. change (Z.lor p (Z.lor (Z.of_nat t) 0)) with (psr_value p t false). rewrite psr_cwp by (assumption || lia). 
  do 2 instr. regs. rewrite (fr_psr _ _ _ Hf). do 2 instr. regs. replace (Z.lor (v_psr v) (Z.of_nat t)) with (psr_value (v_psr v) t false) by (unfold psr_value; rewrite Z.lor_0_r; reflexivity).
  apply wp_bind, wp_wr_psr; [exact Hpl | lia |]. fields. do 3 instr. regs.
  apply wp_rett; fields; [reflexivity | rewrite Hw, bit_test; rewrite <- (at_0 N HN (up t)) at 1 by assumption; apply Nat.eqb_neq; intros E; apply at_inj in E; lia |].
  subst Q0. cbv beta. set (F := setr t 0 _ _). split; [| split; [reflexivity | split; reflexivity]].
  assert (HF : forall w r, w <> t -> reg F w r = reg f0 w r) by (intros w' r Hne; unfold F; rewrite !reg_setr, reg_insert, (proj2 (Nat.eqb_neq _ _) Hne); reflexivity).
  assert (HFo : forall j, (j < 8)%nat -> reg F t (8 + j) = v_o v j).
  { intros j Hj. unfold F. rewrite !reg_setr, reg_insert, Nat.eqb_refl. cbn [andb]. rewrite !(proj2 (Nat.eqb_neq (8 + j) _)) by lia.
    rewrite (rg_filled f mm _ v) by exact Hf. rewrite (proj2 (Nat.leb_le _ _)), (proj2 (Nat.ltb_lt _ _)) by lia. cbn [andb]. f_equal. lia. }
  split; cbn [cwp wim et psr yreg pc npc mem file glob v_ws]; try reflexivity; try apply Hf.
  - eapply rep_intro; [reflexivity | reflexivity | reflexivity | reflexivity | reflexivity | reflexivity | exact Hup | exact Hm | exact Hw | exact Hpl |].
    cbn [cwp file mem]. rewrite Hdu. replace (reg F t 14) with (v_sp v) by (symmetry; apply (HFo 6%nat); lia). eapply holds_file_ext; [| exact Hh]. intros k j Hk Hj. apply HF, Hat. lia.
  - intros j Hj. regs. destruct (Nat.eqb_spec j 1) as [-> |]; [change 4 with (4 * Z.of_nat 1); apply Hf; lia |]. apply rg_loaded; [exact Hf | lia].
  - intros j Hj. unfold SparcWindows.outs. cbn [cwp file]. rewrite Hdu. apply HFo, Hj.
Qed.

(** With no window of the resumed context in the file, its first is loaded. *)
Lemma trap_fill_spec s f v : leaving s f v -> rg (glob s) 3 = Z.of_nat (cwp s) -> (1 <= length (v_ws v))%nat ->
  (forall k u, v_ws v !! k = Some u -> saved (mem s) (sp_at (v_sp v) (v_ws v) k) u) ->
  wp (trap_fill N) (fun _ s' => resumed v 1 s s') s.
Proof.
  intros [Hc He Hp Hpl H5 Hf] Hg Hl Hsv. match goal with |- wp _ ?Q _ => set (Q0 := Q) end.
  remember s as s0 eqn:Es. destruct s as [t e p w f0 g y pc0 npc0 mm ctx co d ru ra]. subst s0. cbn in Hc, He, Hp, H5, Hg. cbn [cwp file mem] in *. subst e.
  assert (Hup : (up t < N)%nat) by (apply up_lt; assumption). assert (Hdu : down (up t) = t) by (apply down_up; assumption).
  assert (E1 : up (up t) = at_ (up t) 1) by (rewrite <- (at_0 N HN (up t)) at 1 by assumption; apply up_at; [exact HN | assumption | lia]).
  assert (Hut : up t <> up (up t)) by (rewrite E1; rewrite <- (at_0 N HN (up t)) at 1 by assumption; intros E; apply at_inj in E; lia).
  assert (Htu : t <> up t) by (intros E; apply (down_ne N HN (up t) Hup); congruence).
  assert (Htuu : t <> up (up t)) by (intros E; assert (E2 : at_ (up t) (N - 1) = at_ (up t) 1) by (rewrite <- down_at, Hdu, <- E1 by assumption; exact E); apply at_inj in E2; lia).
  destruct (lookup_lt_is_Some_2 (v_ws v) 0 ltac:(lia)) as [u Hu].
  unfold trap_fill. do 5 instr. regs. rewrite Hg, window_up_2 by assumption. rewrite sll_1 by (apply up_lt; assumption). instr. rewrite wim_bit by (apply up_lt; assumption). instr. rewrite H5.
  apply wp_bind, wp_fill_ins; fields.
  apply wp_bind, wp_restore_; fields; [rewrite bit_test; apply Nat.eqb_neq, Hut |].
  instr. rewrite Hdu. rewrite reg_insert, Nat.eqb_refl, (rg_filled f mm _ v) by exact Hf. change ((8 <=? 8 + 6)%nat && (8 + 6 <? 16)%nat) with true. cbv iota. change (v_o v (8 + 6 - 8)) with (v_sp v).
  apply wp_bind, wp_save_; fields; rewrite Hdu; [rewrite bit_test; apply Nat.eqb_neq, Htuu |].
  eapply wp_mono; [apply (trap_resume_spec _ f v 1); [split; cbn [cwp et psr file mem]; try assumption; try reflexivity | lia | cbn [cwp wim]; rewrite E1; reflexivity |] |].
  - rewrite !reg_insert, (proj2 (Nat.eqb_neq _ _) Htu), Nat.eqb_refl. rewrite (rg_filled f mm _ v) by exact Hf. exact H5.
  - cbn [cwp file mem]. split; [lia | |].
    + intros k u' Hk Hu' j Hj. assert (k = 0%nat) by lia. subst k. rewrite at_0 by assumption. rewrite reg_insert, Nat.eqb_refl, rg_load16 by exact Hj. rewrite <- (sp_at_0 (v_sp v) (v_ws v)). apply (Hsv 0%nat u' Hu'), Hj.
    + intros k u' _ Hu'. apply Hsv, Hu'.
  - intros [] s2 H. exact H.
Qed.
Definition uncounted (c : core_state) : core_state := set_depth (depth c - 1) c.

(** A trap's end in its own window, with the context it interrupted above. *)
Record ending (s : cpu) (m : nat) (l5 l6 a : Z) (ws : list window) : Prop := {
  ed_rep : exists w, rep s (S m) (w :: ws) /\ rg w 5 = l5 /\ rg w 6 = l6 /\ fp w = a;
  ed_et : et s = true
}.

(** The exit up to its choice. *)
Lemma ending_facts s m l5 l6 a ws : ending s m l5 l6 a ws ->
  (cwp s < N)%nat /\ psr_plain (psr s) /\ et s = true /\ (m < N - 1)%nat /\ wim s = bit (at_ (up (cwp s)) m) /\ rgw s (cwp s) 5 = l5 /\ rgw s (cwp s) 6 = l6 /\ rgw s (cwp s) 14 = a /\
  holds (rgw s) (up (cwp s)) m (mem s) a ws.
Proof.
  intros [(w & Hr & H5 & H6 & Ha) He]. destruct Hr as [Hc Hm Hw Hp Hh].
  assert (Hv : forall j, (j < 16)%nat -> rgw s (cwp s) j = rg w j) by (intros j Hj; rewrite <- (at_0 N HN (cwp s) Hc) at 1; apply (ho_file _ _ _ _ _ _ _ Hh 0 w); [lia | reflexivity | exact Hj]).
  pose proof (holds_pop N HN (rgw s) (cwp s) m (mem s) (sp_of N s) w ws Hc ltac:(lia) Hh) as Hp'. rewrite Ha in Hp'.
  rewrite !Hv by lia. split_and!; auto; try lia. rewrite at_up by lia. exact Hw.
Qed.

Definition ended (v : view) (s s' : cpu) : Prop := exists m, runs s' m v /\ core s' = uncounted (core s) /\ kernels s' = kernels s.

Lemma exit_same s m f v : ending s m f f (v_sp v) (v_ws v) -> psr_plain (v_psr v) -> framed (mem s) f v -> (1 <= length (v_ws v))%nat ->
  wp (trap_exit N) (fun _ s' => ended v s s' /\ mem s' = mem s) s.
Proof.
  intros Hend Hpl Hf Hl. destruct (ending_facts _ _ _ _ _ _ Hend) as (Hc & Hp & He & Hm & Hw & H5 & H6 & H14 & Hh). match goal with |- wp _ ?Q _ => set (Q0 := Q) end.
  remember s as s0 eqn:Es. destruct s as [t e p w f0 g y pc0 npc0 mm ctx co d ru ra]. subst s0. cbn in Hc, Hw, He, Hp, H5, H6, H14. cbn [cwp file mem] in *. subst e.
  assert (Hup : (up t < N)%nat) by (apply up_lt; assumption).
  unfold trap_exit. do 2 instr. change (Z.lor p (Z.lor (Z.of_nat t) psr_et)) with (psr_value p t true). rewrite psr_no_et by (assumption || lia).
  instr. regs. apply wp_bind, wp_wr_psr; [exact Hp | lia |]. fields. do 2 instr. rewrite psr_cwp by (assumption || lia). do 5 instr. regs. rewrite H5, H6, Z.eqb_refl.
  instr. rewrite window_up_1 by assumption. do 2 instr. regs. rewrite sll_1 by assumption. do 2 instr. regs. rewrite Hw, land_bits.
  set (s1 := Cpu _ _ _ _ _ _ _ _ _ _ _ _ _ _ _).
  assert (Hle : leaving s1 f v) by (split; assumption || reflexivity).
  destruct (Nat.eqb_spec (up t) (at_ (up t) m)) as [E | Hne]; cbn [negb].
  - assert (m = 0%nat) by (rewrite <- (at_0 N HN (up t)) in E at 1 by assumption; apply at_inj in E; lia). subst m.
    eapply wp_mono; [apply (trap_fill_spec s1 f v Hle); [unfold s1; cbn [glob cwp]; regs; reflexivity | exact Hl |] |].
    + intros k u Hu. apply (ho_mem _ _ _ _ _ _ _ Hh); [lia | exact Hu].
    + intros [] s2 (R1 & R2 & R3 & R4). split; [exists 1%nat; auto | exact R4].
  - assert (m <> 0%nat) by (intros ->; apply Hne; symmetry; apply at_0; assumption).
    eapply wp_mono; [apply (trap_resume_spec s1 f v m Hle); [lia | exact Hw || reflexivity | exact Hh] |].
    intros [] s2 (R1 & R2 & R3 & R4). split; [exists m; auto | exact R4].
Qed.

Lemma exit_switch s m l6 a ws f v : ending s m f l6 a ws -> f <> l6 -> sep a ws -> psr_plain (v_psr v) -> framed (mem s) f v -> (1 <= length (v_ws v))%nat ->
  (forall k u, v_ws v !! k = Some u -> saved (mem s) (sp_at (v_sp v) (v_ws v) k) u) ->
  clear_of f (f + F_BYTES) a ws -> (forall k, (k < length (v_ws v))%nat -> clear_of (sp_at (v_sp v) (v_ws v) k) (sp_at (v_sp v) (v_ws v) k + 64) a ws) ->
  wp (trap_exit N) (fun _ s' => ended v s s' /\ (forall k u, ws !! k = Some u -> saved (mem s') (sp_at a ws k) u) /\ forall x, elsewhere a ws x -> wd (mem s') x = wd (mem s) x) s.
Proof.
  intros Hend Hne Hs Hpl Hf Hl Hsv Hcf Hcs. destruct (ending_facts _ _ _ _ _ _ Hend) as (Hc & Hp & He & Hm & Hw & H5 & H6 & H14 & Hh). match goal with |- wp _ ?Q _ => set (Q0 := Q) end.
  remember s as s0 eqn:Es. destruct s as [t e p w f0 g y pc0 npc0 mm ctx co d ru ra]. subst s0. cbn in Hc, Hw, He, Hp, H5, H6, H14. cbn [cwp file mem] in *. subst e.
  assert (Hup : (up t < N)%nat) by (apply up_lt; assumption). assert (Hdu : down (up t) = t) by (apply down_up; assumption). pose proof (ho_len _ _ _ _ _ _ _ Hh) as Hlen.
  unfold trap_exit. do 2 instr. change (Z.lor p (Z.lor (Z.of_nat t) psr_et)) with (psr_value p t true). rewrite psr_no_et by (assumption || lia).
  instr. regs. apply wp_bind, wp_wr_psr; [exact Hp | lia |]. fields. do 2 instr. rewrite psr_cwp by (assumption || lia). do 5 instr. regs. rewrite H5, H6, (proj2 (Z.eqb_neq _ _) Hne).
  instr. apply wp_bind. change (walk N 4 (li_g 5) N) with (walk N 4 (put_in false 5) N). set (G := <[4%nat := _]> _).
  eapply wp_mono; [apply (walk_spec N HN false 4 5 t m a ws) with (k := 0%nat); cbn [cwp wim file glob]; auto; try lia |].
  - symmetry. apply at_0; assumption.
  - unfold G. regs. rewrite at_0 by assumption. reflexivity.
  - unfold G. regs. exact Hw.
  - intros i u Hi Hu j Hj. apply (ho_file _ _ _ _ _ _ _ Hh i u); [lia | exact Hu | exact Hj].
  - intros i Hi. apply (own_sp N HN (reg f0) (up t) m mm); try lia; [exact Hh | rewrite Hdu; congruence].
  - intros [] s2 [W1 (W2 & W3 & W4) W5 W6 W7 W8].
    destruct s2 as [c2 e2 p2 w2 f2 g2 y2 pc2 npc2 mm2 ctx2 co2 d2 ru2 ra2]. cbn [cwp wim et mem file glob] in W1, W2, W3, W5, W6, W7, W8.
    unfold others in W4. cbn in W4. injection W4 as -> -> -> -> -> -> -> -> ->. subst c2 w2 e2.
    assert (W6' : forall j, j <> 4%nat -> j <> 5%nat -> rg g2 j = rg G j) by (intros; apply W6; auto).
    assert (Hout : forall x, elsewhere a ws x -> wd mm2 x = wd mm x) by (intros x Hx; apply W8; intros i Hi; apply Hx; lia).
    instr. rewrite W6' by lia. replace (rg G 1) with (psr_value p t false) by (unfold G; regs; reflexivity). apply wp_bind, wp_wr_psr; [exact Hp | lia |]. fields.
    set (s1 := Cpu _ _ _ _ _ _ _ _ _ _ _ _ _ _ _).
    eapply wp_mono; [apply (trap_fill_spec s1 f v) |].
    + split; cbn [cwp et psr file mem s1]; try assumption; try reflexivity; [rewrite W5 by auto; exact H5 |].
      apply (sparc_framed_ext mm); [| exact Hf]. intros x Hx. apply Hout. eapply clear_elsewhere; [exact Hcf | exact Hx].
    + unfold s1. cbn [glob cwp]. rewrite W6' by lia. unfold G. regs. reflexivity.
    + exact Hl.
    + intros k u Hu. apply (saved_ext mm); [| apply Hsv, Hu]. intros x Hx. apply Hout. eapply clear_elsewhere; [apply (Hcs k); apply lookup_lt_Some in Hu; exact Hu | exact Hx].
    + intros [] s3 (R1 & R2 & R3 & R4). subst Q0. cbv beta. split; [exists 1%nat; auto |]. rewrite R4. split; [| exact Hout].
      intros k u Hu. destruct (Nat.lt_ge_cases k m) as [Hkm | Hkm]; [apply W7; [lia | exact Hu] |].
      apply (saved_ext mm); [| apply (ho_mem _ _ _ _ _ _ _ Hh); assumption]. intros x Hx. apply W8. intros i Hi Hin. apply lookup_lt_Some in Hu. pose proof (Hs i k ltac:(lia)). unfold apart, in_area in *. lia.
Qed.
(** ** C *)
Section c.
Context (lo : Z).    (* the bottom of the stack the handlers have *)

(** Windows whose save areas C's frames, down from [sp], do not reach. *)
Record layout (sp : Z) (W : list window) : Prop := {
  la_sep : sep sp W;
  la_clear k : (1 <= k < length W)%nat -> sp <= sp_at sp W k \/ sp_at sp W k + 64 <= lo;
  la_range : 0 <= lo <= sp /\ sp < 2 ^ 32
}.

Record in_c (s : cpu) (sp : Z) (W : list window) : Prop := {
  ic_rep : exists m, rep s m W;
  ic_et : et s = true;
  ic_sp : sp_of N s = sp
}.

Lemma layout_push sp W w n : layout sp W -> 64 <= n -> lo <= sp - n -> fp w = sp -> layout (sp - n) (w :: W).
Proof.
  intros [Hs Hc Hr] Hn Hle Hw. split; [| | lia].
  - intros [| i] [| j] Hij; cbn in Hij |- *; try lia; rewrite ?Hw.
    + destruct j as [| j]; [rewrite sp_at_0; left; lia |]. unfold apart. specialize (Hc (S j) ltac:(lia)). lia.
    + apply Hs. lia.
  - intros [| k] Hk; [lia |]. cbn in Hk |- *. rewrite Hw. destruct k as [| k]; [rewrite sp_at_0; lia |]. specialize (Hc (S k) ltac:(lia)). lia.
Qed.

(** A switch owed in a handler of a trap that interrupted thread [A]. *)
Definition owes (A : nat) (s : cpu) : Prop :=
  owed_to (decision s) = None /\ running s = A \/
  exists x, owed_to (decision s) = Some x /\ owed_from (decision s) = Some A /\ running s = x /\ is_Some (contexts s !! x).

(** What C keeps of the kernel's state. *)
Record quiet (s s' : cpu) : Prop := {
  qu_core : core s' = core s;
  qu_contexts : contexts s' = contexts s;
  qu_outer : outer_interrupt (decision s') = outer_interrupt (decision s);
  qu_owes A : owes A s -> owes A s';
  qu_none : outer_interrupt (decision s) = false -> decision s' = decision s /\ running s' = running s;
  qu_raised : raised s = true -> raised s' = true
}.

Lemma quiet_refl s : quiet s s.
Proof. split; auto. Qed.

Lemma quiet_trans s1 s2 s3 : quiet s1 s2 -> quiet s2 s3 -> quiet s1 s3.
Proof.
  intros [A1 A2 A3 A4 A5 A6] [B1 B2 B3 B4 B5 B6]. split; try congruence; auto. intros H. destruct (A5 H) as [E1 E2]. destruct (B5 ltac:(congruence)) as [E3 E4]. split; congruence.
Qed.

Lemma quiet_kernels s s' : core s' = core s -> kernels s' = kernels s -> quiet s s'.
Proof.
  intros Ec Ek. unfold kernels in Ek. injection Ek as E1 E2 E3 E4. split; try congruence; auto.
  unfold owes. rewrite E1, E2, E3. auto.
Qed.

Record c_done (s : cpu) (sp : Z) (W : list window) (s' : cpu) : Prop := {
  cd_in : in_c s' sp W;
  cd_quiet : quiet s s';
  cd_mem x : ~ (lo <= x < sp) -> elsewhere sp W x -> wd (mem s') x = wd (mem s) x
}.

Lemma c_done_refl s sp W : in_c s sp W -> c_done s sp W s.
Proof. intros H. split; [exact H | apply quiet_refl | reflexivity]. Qed.

Lemma c_done_trans s1 s2 s3 sp W : c_done s1 sp W s2 -> c_done s2 sp W s3 -> c_done s1 sp W s3.
Proof. intros [A1 A2 A3] [B1 B2 B3]. split; [exact B1 | apply (quiet_trans s1 s2); assumption | intros x H1 H2; rewrite B3, A3 by assumption; reflexivity]. Qed.

(** C's state seen again. *)
Lemma in_c_same s s' sp W : in_c s sp W -> cwp s' = cwp s -> et s' = et s -> wim s' = wim s -> psr_plain (psr s') -> file s' = file s -> mem s' = mem s -> in_c s' sp W.
Proof.
  intros [[m [Hc Hm Hw Hp Hh]] He Hsp] E1 E2 E3 Hp' E4 E5. assert (Es : sp_of N s' = sp_of N s) by (unfold sp_of, get_o; rewrite E1, E4; reflexivity).
  split; [exists m; split | congruence | congruence]; try rewrite E1; try rewrite E3; try rewrite Es; try rewrite E4; try rewrite E5; assumption.
Qed.

Lemma plain_pil p level : psr_plain p -> psr_plain (Z.lor (Z.ldiff p psr_pil_mask) (Z.shiftl level 8)).
Proof. clear HN.
  unfold psr_plain. intros Hp. rewrite Z.land_lor_distr_l. replace (Z.land (Z.shiftl level 8) 63) with 0.
  - rewrite Z.lor_0_r. apply Z.bits_inj'. intros i Hi. assert (H : Z.testbit (Z.land p 63) i = false) by (rewrite Hp; apply Z.bits_0).
    rewrite Z.land_spec in H. rewrite Z.land_spec, Z.ldiff_spec, Z.bits_0. destruct (Z.testbit p i), (Z.testbit 63 i); try discriminate; rewrite ?andb_false_r; reflexivity.
  - symmetry. apply Z.bits_inj'. intros i Hi. rewrite Z.land_spec, Z.bits_0. destruct (Z.ltb_spec i 8).
    + rewrite Z.shiftl_spec_low by lia. reflexivity.
    + change 63 with (Z.ones 6). rewrite Z.ones_spec_high, andb_false_r by lia. reflexivity.
Qed.

Lemma set_pil_done s sp W level Q : in_c s sp W -> (forall s', c_done s sp W s' -> core s' = core s -> decision s' = decision s -> running s' = running s -> contexts s' = contexts s -> raised s' = raised s -> mem s' = mem s -> Q tt s') -> wp (set_pil level) Q s.
Proof.
  intros Hi HQ. apply wp_modify. apply HQ; try (destruct s; reflexivity). split; [| apply quiet_kernels; destruct s; reflexivity | destruct s; reflexivity].
  eapply in_c_same; [exact Hi | destruct s; reflexivity | destruct s; reflexivity | destruct s; reflexivity | | destruct s; reflexivity | destruct s; reflexivity].
  destruct Hi as [[m [_ _ _ Hp _]] _ _]. destruct s. cbn in *. apply plain_pil, Hp.
Qed.
(** A function's own use of its registers leaves its frame's bounds. *)
Lemma junk_locals_out j w r : (14 <= r)%nat -> rg (junk_locals j w) r = rg w r.
Proof. intros Hr. apply (foldl_regs_out (rg j) 0). intros k Hk. apply elem_of_seq in Hk. lia. Qed.

Lemma junk_outs_sp j w : rg (junk_outs j w) 14 = rg w 14.
Proof. apply (foldl_regs_out (fun k => rg j (16 + k)) 8). intros k Hk. set_unfold. lia. Qed.

(** The list's first window changed. *)
Lemma holds_first R R' cw m mm a w w' W : (cw < N)%nat -> (1 <= m < N)%nat -> fp w' = fp w -> (forall j, (j < 16)%nat -> R' cw j = rg w' j) ->
  (forall k j, (1 <= k < m)%nat -> (j < 16)%nat -> R' (at_ cw k) j = R (at_ cw k) j) -> holds R cw m mm a (w :: W) -> holds R' cw m mm a (w' :: W).
Proof.
  intros Hc Hm Hf Hw Ho [H1 H2 H3]. split; [exact H1 | |].
  - intros [| k] u Hk Hu j Hj; [injection Hu as <-; rewrite at_0 by assumption; apply Hw, Hj |]. rewrite Ho by lia. apply (H2 (S k) u); auto.
  - intros [| k] u Hk Hu; [lia |]. cbn. rewrite Hf. apply (H3 (S k)); [exact Hk | exact Hu].
Qed.

Lemma scribble_spec j s sp w W : in_c s sp (w :: W) -> wp (scribble N j) (fun _ s' => exists w', fp w' = fp w /\ in_c s' sp (w' :: W) /\ core s' = core s /\ kernels s' = kernels s /\ mem s' = mem s) s.
Proof.
  intros [[m [Hc Hm Hw Hp Hh]] He Hsp]. destruct s as [t e p wi f g y pc0 npc0 mm ctx co d ru ra]. cbn in Hc, Hw, Hp, He. cbn [cwp file mem] in *. unfold sp_of, get_o in Hsp, Hh. cbn [cwp file] in Hsp, Hh. change (8 + 6)%nat with 14%nat in *.
  assert (Hdt : down t <> t) by (apply down_ne; assumption). assert (Hd : (down t < N)%nat) by (apply down_lt; assumption).
  assert (Hk0 : forall k, (1 <= k < N)%nat -> at_ t k <> t) by (intros k Hk E; rewrite <- (at_0 N HN t) in E at 2 by assumption; apply at_inj in E; lia).
  assert (Hkd : forall k, (k < N - 1)%nat -> at_ t k <> down t) by (intros k Hk; rewrite down_at by assumption; intros E; apply at_inj in E; lia).
  unfold scribble. do 3 instr. set (F := <[down t := _]> _).
  assert (Hv : forall r, (r < 16)%nat -> reg f t r = rg w r) by (intros r Hr; rewrite <- (at_0 N HN t Hc) at 1; apply (ho_file _ _ _ _ _ _ _ Hh 0 w); [lia | reflexivity | exact Hr]).
  assert (Ht : wn F t = junk_locals j (wn f t)) by (unfold F; rewrite !wn_insert, (proj2 (Nat.eqb_neq _ _) (not_eq_sym Hdt)), Nat.eqb_refl; reflexivity).
  assert (Hsp' : reg F (down t) 14 = sp) by (unfold F; rewrite reg_insert, Nat.eqb_refl, junk_outs_sp, wn_insert, (proj2 (Nat.eqb_neq _ _) Hdt); exact Hsp).
  exists (wn F t). assert (Hfp : fp (wn F t) = fp w) by (unfold fp; rewrite Ht, junk_locals_out by lia; apply (Hv 14%nat); lia).
  split; [exact Hfp |]. split; [| split; [reflexivity | split; reflexivity]]. split; [exists m | exact He | unfold sp_of, get_o; cbn [cwp file]; exact Hsp'].
  eapply rep_intro; [reflexivity | reflexivity | reflexivity | reflexivity | reflexivity | reflexivity | exact Hc | exact Hm | exact Hw | exact Hp |]. cbn [cwp file mem]. rewrite Hsp'. rewrite Hsp in Hh.
  eapply (holds_first (reg f)); [exact Hc | exact Hm | exact Hfp | reflexivity | | exact Hh].
  intros k r Hk Hr. unfold F. rewrite !reg_insert, (proj2 (Nat.eqb_neq _ _) (Hk0 k ltac:(lia))), (proj2 (Nat.eqb_neq _ _) (Hkd k ltac:(lia))). reflexivity.
Qed.

Lemma besides_kernels s s' : besides s s' -> et s' = et s /\ core s' = core s /\ kernels s' = kernels s.
Proof. intros [H1 _ H2]. unfold others in H2. injection H2 as E1 E2 E3 E4 E5 E6 E7 E8 E9. unfold kernels. repeat split; congruence. Qed.

(** The same but for the registers. *)
Definition alike (s s' : cpu) : Prop := core s' = core s /\ kernels s' = kernels s /\ mem s' = mem s.

(** A call: whatever it does in its own frame, it returns to its caller's
    windows as they were. *)
Lemma called_spec {A} e (body : M cpu A) (P : A -> cpu -> Prop) s sp W : layout sp W -> in_c s sp W -> 64 <= size e -> lo <= sp - size e ->
  (forall r s2 s3, alike s2 s3 -> P r s2 -> P r s3) ->
  (forall w s1, fp w = sp -> layout (sp - size e) (w :: W) -> in_c s1 (sp - size e) (w :: W) -> core s1 = core s -> kernels s1 = kernels s -> (forall x, elsewhere sp W x -> wd (mem s1) x = wd (mem s) x) ->
    wp body (fun r s2 => in_c s2 (sp - size e) (w :: W) /\ P r s2) s1) ->
  wp (called N e body) (fun r s' => in_c s' sp W /\ P r s') s.
Proof.
  intros Hl Hi Hn Hle HP Hb. pose proof Hl as [Hs Hc Hr]. destruct Hi as [[m Hrep] He Hsp].
  assert (Hlen : (1 <= length W)%nat) by (pose proof (rep_len N HN _ _ _ Hrep); lia).
  unfold called. apply wp_bind. eapply wp_mono; [apply (save_spec N HN s m W (size e) Hrep He); rewrite Hsp; exact Hs |].
  intros [] s1 (v & m1 & Hr1 & _ & Ho & Hsp1 & Hb1 & Hm1). rewrite Hsp in Hsp1, Hm1. assert (Hu : u32 (sp - size e) = sp - size e) by (apply wrap_small; lia). rewrite Hu in Hsp1.
  assert (Hfv : fp v = sp) by (rewrite <- Hsp; apply (Ho 6%nat); lia). destruct (besides_kernels _ _ Hb1) as (E1 & E2 & E3).
  assert (Hi1 : in_c s1 (sp - size e) (v :: W)) by (split; [exists m1; exact Hr1 | congruence | exact Hsp1]).
  apply wp_bind. eapply wp_mono; [apply (scribble_spec (junk e) s1 _ v W Hi1) |]. intros [] s2 (w & Hfw & Hi2 & E4 & E5 & E6).
  apply wp_bind. eapply wp_mono; [apply (Hb w s2); [congruence | apply layout_push; auto; congruence | exact Hi2 | congruence | congruence | intros x Hx; rewrite E6; apply Hm1, Hx] |].
  intros r s3 [[[m3 Hr3] He3 Hsp3] Hp3]. apply wp_bind. eapply wp_mono; [apply (restore_spec N HN s3 m3 w W Hr3 He3 Hlen) |].
  intros [] s4 (m4 & Hr4 & Ho4 & Hb4 & Hm4). destruct (besides_kernels _ _ Hb4) as (F1 & F2 & F3). apply wp_ret. split.
  - split; [exists m4; exact Hr4 | congruence |]. transitivity (fp w); [apply (Ho4 6%nat); lia | congruence].
  - apply (HP r s3); [split_and!; assumption | exact Hp3].
Qed.

(** A wake in a handler. *)
Lemma sparc_wake_spec s sp W to : in_c s sp W -> is_Some (contexts s !! to) -> wp (wake to) (fun _ s' => c_done s sp W s') s.
Proof.
  intros Hi Ht. unfold wake, cyros_port_interrupted_at_baseline. apply wp_bind, wp_bind, wp_get, wp_bind, wp_get, wp_bind, wp_get, wp_ret, wp_bind, wp_get.
  destruct (outer_interrupt (decision s)) eqn:Eo; cbn [andb]; [| apply wp_ret, c_done_refl, Hi]. destruct (Z.land _ _ =? 0); cbn [andb]; [| apply wp_ret, c_done_refl, Hi].
  destruct (Nat.eqb_spec to (running s)) as [E | Hne]; cbn [negb]; [apply wp_ret, c_done_refl, Hi |].
  destruct Ht as [c Hcx]. unfold cyros_port_owe_switch. apply wp_bind, wp_bind, wp_get, wp_bind, wp_ensure; [exact Eo |]. apply wp_bind. unfold wp at 1, get_context. rewrite Hcx.
  apply wp_bind, wp_ensure; [apply negb_true_iff, Nat.eqb_neq, Hne |]. apply wp_modify, wp_modify.
  set (s' := set_running to _). assert (Ed : decision s' = Decision (match owed_to (decision s) with None => Some (running s) | Some _ => owed_from (decision s) end) (Some to) (outer_interrupt (decision s))) by (destruct s; reflexivity).
  assert (Er : running s' = to) by (destruct s; reflexivity). assert (Ec : contexts s' = contexts s) by (destruct s; reflexivity).
  split; [| | destruct s; reflexivity].
  - eapply in_c_same; [exact Hi | ..]; try (destruct s; reflexivity). destruct Hi as [[m [_ _ _ Hp _]] _ _]. destruct s. exact Hp.
  - split; [destruct s; reflexivity | exact Ec | rewrite Ed; reflexivity | | intros E; congruence | destruct s; auto].
    intros A HA. right. exists to. rewrite Ed, Er, Ec. cbn. split; [reflexivity |]. split; [| eauto].
    destruct HA as [[-> ->] | (x & -> & -> & _)]; reflexivity.
Qed.
(** ** A trap around its dispatch *)
Definition view_of (s : cpu) (W : list window) : view := View W (psr s) (pc s) (npc s) (yreg s) (rg (glob s)) (outs s).

Lemma runs_view s m W : rep s m W -> et s = true -> runs s m (view_of s W).
Proof. intros Hr He. split; auto. Qed.

Lemma wp_assoc {A B C} (f : M cpu A) (g : A -> M cpu B) (h : B -> M cpu C) Q s : wp (kbind f (fun x => kbind (g x) h)) Q s -> wp (kbind (kbind f g) h) Q s.
Proof. unfold wp, kbind. destruct (f s) as [[x s1] |]; auto. Qed.

Lemma trap_entry_spec s ty m v (F : Z -> Z -> M cpu Z) Q : trap_window s ty m v -> globals s v -> sep (v_sp v) (v_ws v) -> clear_of (v_sp v - F_BYTES) (v_sp v) (v_sp v) (v_ws v) ->
  (forall s1, entered s v (v_sp v - F_BYTES) s1 -> wp (F (v_sp v - F_BYTES) ty) (fun l5 s2 => wp (li_l 5 l5 ;;* trap_exit N) Q s2) s1) ->
  wp (trap_entry N F) Q s.
Proof.
  intros Ht Hg Hs Hc HF. unfold trap_entry. apply wp_bind. eapply wp_mono; [apply (trap_enter_spec s ty m v Ht Hg Hs Hc) |].
  intros o s1 [-> He]. apply wp_bind. exact (HF s1 He).
Qed.

(** The dispatch's answer, in the trap's window. *)
Lemma ending_intro s sp w W l5 Q : in_c s sp (w :: W) -> (forall m s', ending s' m l5 (rg w 6) (fp w) W -> alike s s' -> wp (trap_exit N) Q s') -> wp (li_l 5 l5 ;;* trap_exit N) Q s.
Proof.
  intros [[m [Hc Hm Hw Hp Hh]] He Hsp] HQ. apply wp_bind, wp_modify. destruct s as [t e p wi f g y pc0 npc0 mm ctx co d ru ra]. cbn in Hc, Hw, Hp, He. cbn [cwp file mem] in *. unfold sp_of, get_o in Hsp, Hh. cbn [cwp file] in Hsp, Hh. change (8 + 6)%nat with 14%nat in *.
  destruct m as [| m]; [lia |]. apply (HQ m); [| repeat split]. fields.
  assert (Hd : down t <> t) by (apply down_ne; assumption). assert (E : reg (setr t 5 l5 f) (down t) 14 = reg f (down t) 14) by (regs; reflexivity).
  split; [| exact He]. exists (<[5%nat := l5]> w). split; [| split; [rewrite sparc_rg_insert; reflexivity | split; [rewrite sparc_rg_insert; reflexivity | unfold fp; rewrite sparc_rg_insert; reflexivity]]].
  eapply rep_intro; [reflexivity | reflexivity | reflexivity | reflexivity | reflexivity | reflexivity | exact Hc | exact Hm | exact Hw | exact Hp |]. cbn [cwp file mem]. rewrite E.
  eapply (holds_first (reg f)); [exact Hc | exact Hm | unfold fp; rewrite sparc_rg_insert; reflexivity | | | exact Hh].
  - intros j Hj. rewrite reg_setr, Nat.eqb_refl, sparc_rg_insert. cbn [andb]. destruct (j =? 5)%nat; [reflexivity |]. rewrite <- (at_0 N HN t Hc) at 1. apply (ho_file _ _ _ _ _ _ _ Hh 0 w); [lia | reflexivity | exact Hj].
  - intros k j Hk Hj. rewrite reg_setr, (proj2 (Nat.eqb_neq _ _)); [reflexivity |]. intros E2. rewrite <- (at_0 N HN t) in E2 at 2 by assumption. apply at_inj in E2; lia.
Qed.

(** An interrupt in C: its handler's end resumes C where it was. *)
Lemma nested_dispatch f level (H : M cpu unit) s sp W : in_c s sp W -> depth (core s) <> 1 ->
  (forall s1, in_c s1 sp W -> core s1 = core s -> contexts s1 = contexts s -> wp H (fun _ s' => c_done s1 sp W s') s1) ->
  wp (interrupt_dispatch f level H) (fun r s' => r = f /\ c_done s sp W s') s.
Proof.
  intros Hi Hd HH. unfold interrupt_dispatch. apply wp_bind, wp_get. rewrite (proj2 (Z.eqb_neq _ _)) by exact Hd. apply wp_bind. apply (set_pil_done s sp W); [exact Hi |].
  intros s1 D1 E1 _ _ E2 _ _. apply wp_bind, wp_ret, wp_bind. eapply wp_mono; [apply (HH s1); [apply D1 | exact E1 | exact E2] |]. intros [] s2 D2.
  apply wp_bind. apply (set_pil_done s2 sp W); [apply D2 |]. intros s3 D3 _ _ _ _ _ _. apply wp_bind, wp_ret, wp_bind, wp_get, wp_ret. split; [reflexivity |].
  apply (c_done_trans s s2); [apply (c_done_trans s s1); assumption | exact D3].
Qed.

Lemma nest_spec s sp W ty e (H : M cpu unit) : layout sp W -> in_c s sp W -> 1 <= depth (core s) -> 64 <= size e -> lo <= sp - 176 - size e ->
  (forall sp1 W1 s1, sp1 = sp - 176 - size e -> layout sp1 W1 -> in_c s1 sp1 W1 -> 1 <= depth (core s1) -> contexts s1 = contexts s -> wp H (fun _ s' => c_done s1 sp1 W1 s') s1) ->
  wp (take_trap N ty ;;* trap_entry N (fun f ty => called N e (interrupt_dispatch f (ty - 16) H))) (fun _ s' => c_done s sp W s') s.
Proof.
  intros Hl Hi Hd Hn Hle HH. pose proof Hl as [Hs Hc Hr]. pose proof Hi as [[m Hrep] He Hsp]. set (v := view_of s W). assert (Hv : v_sp v = sp) by exact Hsp.
  apply wp_bind. eapply wp_mono; [apply (take_trap_spec s ty m v (runs_view s m W Hrep He)) |]. intros [] s1 (Htw & Hg & E1 & E2 & E3).
  assert (Hcl : clear_of (sp - F_BYTES) sp sp W) by (intros [| k] Hk; [rewrite sp_at_0; lia | specialize (Hc (S k) ltac:(lia)); unfold F_BYTES; lia]).
  eapply (trap_entry_spec s1 ty m v); [exact Htw | exact Hg | rewrite Hv; exact Hs | rewrite Hv; exact Hcl |]. rewrite Hv.
  intros s2 [(m2 & w & Hr2 & H6 & Hfp) He2 Hf2 Hsp2 Eco2 Ek2 Hm2]. rewrite Hv in *. cbn [v_ws v view_of] in Hm2, Hr2.
  assert (Hds : (depth (core s1) =? 0) = false) by (rewrite E1; apply Z.eqb_neq; lia). unfold handler_sp, counted in *. rewrite Hds in *.
  assert (Esp : sp - F_BYTES - 96 = sp - 176) by (unfold F_BYTES; lia). rewrite Esp in Hsp2.
  assert (Hi2 : in_c s2 (sp - 176) (w :: W)) by (split; [exists m2; exact Hr2 | exact He2 | exact Hsp2]).
  assert (Hl2 : layout (sp - 176) (w :: W)) by (apply layout_push; auto; lia).
  eapply wp_mono; [eapply (called_spec e _ (fun r s' => r = sp - F_BYTES /\ quiet s2 s' /\ forall x, ~ (lo <= x < sp - 176) -> elsewhere (sp - 176) (w :: W) x -> wd (mem s') x = wd (mem s2) x)); [exact Hl2 | exact Hi2 | exact Hn | lia | |] |].
  - intros r a b (A1 & A2 & A3) (B1 & B2 & B3). split; [exact B1 |]. split; [apply (quiet_trans s2 a); [exact B2 | apply quiet_kernels; assumption] |]. intros x Hx1 Hx2. rewrite A3. auto.
  - intros w1 s3 Hfw Hl3 Hi3 Eco3 Ek3 Hm3. eapply wp_mono; [apply (nested_dispatch _ _ H s3 _ _ Hi3); [rewrite Eco3, Eco2; cbn; rewrite E1; lia |] |].
    + intros s4 Hi4 E4 E5. eapply HH; [reflexivity | exact Hl3 | exact Hi4 | rewrite E4, Eco3, Eco2; cbn; rewrite E1; lia |].
      rewrite E5. unfold kernels in *. congruence.
    + intros r s4 [-> D4]. split; [apply D4 |]. split; [reflexivity |]. split; [apply (quiet_trans s2 s3); [apply quiet_kernels; assumption | apply D4] |].
      intros x Hx1 Hx2. rewrite (cd_mem _ _ _ _ D4), Hm3; [reflexivity | exact Hx2 | intros ?; lia |].
      intros [| k] Hk; [rewrite sp_at_0; unfold in_area; lia |]. cbn. rewrite Hfw. apply Hx2. cbn in Hk |- *. lia.
  - intros r s3 (Hi3 & -> & Hq3 & Hm3). cbv beta. eapply (ending_intro s3); [exact Hi3 |]. intros m4 s4 Hend (F1 & F2 & F3). rewrite H6 in Hend. rewrite Hfp in Hend.
    assert (Hlen : (1 <= length W)%nat) by (pose proof (rep_len N HN _ _ _ Hrep); lia).
    eapply wp_mono; [apply (exit_same s4 m4 (sp - F_BYTES) v); [rewrite Hv; exact Hend | apply Hrep | | exact Hlen] |].
    + apply (sparc_framed_ext (mem s2)); [| exact Hf2]. intros x Hx. unfold in_frame, F_BYTES in Hx. rewrite F3. apply Hm3; [lia |].
      intros [| k] Hk; [rewrite sp_at_0; unfold in_area; lia |]. cbn. rewrite Hfp. cbn in Hk. specialize (Hcl k ltac:(lia)). unfold in_area, F_BYTES in *. lia.
    + intros [] s5 [(m5 & R5 & Eco5 & Ek5) Hm5]. split.
      * split; [exists m5; exact (ru_rep _ _ _ R5) | apply R5 | rewrite (runs_sp _ _ _ R5); exact Hv].
      * assert (Q25 : quiet s2 s3) by exact Hq3. destruct Q25 as [Q1 Q2 Q3 Q4 Q5 Q6]. unfold kernels in *. injection E2 as G1 G2 G3 G4. injection Ek2 as G5 G6 G7 G8. injection F2 as G9 G10 G11 G12. injection Ek5 as G13 G14 G15 G16.
        assert (Ecs : core s5 = core s) by (rewrite Eco5, F1, Q1, Eco2, E1; unfold uncounted, set_depth; cbn; destruct (core s); cbn; f_equal; lia).
        split; [exact Ecs | congruence | congruence | | | intros Hra; rewrite G16, G12; apply Q6; congruence].
        -- intros A HA. assert (HA2 : owes A s2) by (unfold owes in *; rewrite G5, G6, G7, G1, G2, G3; exact HA). apply Q4 in HA2. unfold owes in *. rewrite G13, G14, G15, G9, G10, G11. exact HA2.
        -- intros Ho. destruct Q5 as [Q5a Q5b]; [congruence |]. split; congruence.
      * intros x Hx1 Hx2. rewrite Hm5, F3, Hm3, Hm2, E3; [reflexivity | unfold in_frame, F_BYTES; lia | exact Hx2 | lia |].
        intros [| k] Hk; [rewrite sp_at_0; unfold in_area; lia |]. cbn. rewrite Hfp. apply Hx2. cbn in Hk. lia.
Qed.
(** ** What C does *)

(** There is room for it below [sp], and it wakes threads there are. *)
Fixpoint room (known : nat -> Prop) (sp : Z) (a : act) : Prop :=
  match a with
  | Call e body => 64 <= size e /\ lo <= sp - size e /\ (fix rooms l := match l with [] => True | a :: l => room known (sp - size e) a /\ rooms l end) body
  | Nest _ e body => 64 <= size e /\ lo <= sp - 176 - size e /\ (fix rooms l := match l with [] => True | a :: l => room known (sp - 176 - size e) a /\ rooms l end) body
  | Wake to => known to
  | Pend => True
  end.
Definition rooms (known : nat -> Prop) (sp : Z) : list act -> Prop := fix rooms l := match l with [] => True | a :: l => room known sp a /\ rooms l end.

Lemma act_deep (P : act -> Prop) : (forall e body, Forall P body -> P (Call e body)) -> (forall level e body, Forall P body -> P (Nest level e body)) -> (forall to, P (Wake to)) -> P Pend -> forall a, P a.
Proof.
  intros H1 H2 H3 H4. fix IH 1. intros [e body | level e body | to |]; [apply H1 | apply H2 | apply H3 | apply H4].
  - induction body as [| a body IHb]; constructor; [apply IH | exact IHb].
  - induction body as [| a body IHb]; constructor; [apply IH | exact IHb].
Qed.

Definition act_runs (a : act) : Prop := forall s sp W, layout sp W -> in_c s sp W -> 1 <= depth (core s) -> room (fun t => is_Some (contexts s !! t)) sp a -> wp (run_act N a) (fun _ s' => c_done s sp W s') s.

Lemma acts_run l : Forall act_runs l -> forall s sp W, layout sp W -> in_c s sp W -> 1 <= depth (core s) -> rooms (fun t => is_Some (contexts s !! t)) sp l -> wp (run N l) (fun _ s' => c_done s sp W s') s.
Proof.
  induction 1 as [| a l Ha _ IH]; intros s sp W Hl Hi Hd Hr; [apply wp_ret, c_done_refl, Hi |]. destruct Hr as [Hra Hrl].
  cbn [run]. apply wp_bind. eapply wp_mono; [apply (Ha s sp W); assumption |]. intros [] s1 D1. pose proof D1 as [Hi1 Hq1 _].
  eapply wp_mono; [apply (IH s1 sp W); [exact Hl | exact Hi1 | rewrite (qu_core _ _ Hq1); exact Hd | rewrite (qu_contexts _ _ Hq1); exact Hrl] |].
  intros [] s2 D2. exact (c_done_trans _ _ _ _ _ D1 D2).
Qed.

Lemma every_act_runs a : act_runs a.
Proof.
  induction a as [e body IH | level e body IH | to |] using act_deep; intros s sp W Hl Hi Hd Hr.
  - destruct Hr as (Hn & Hle & Hb). change (rooms (fun t => is_Some (contexts s !! t)) (sp - size e) body) in Hb. change (run_act N (Call e body)) with (called N e (run N body)).
    eapply wp_mono; [apply (called_spec e _ (fun _ s' => quiet s s' /\ forall x, ~ (lo <= x < sp) -> elsewhere sp W x -> wd (mem s') x = wd (mem s) x) s sp W Hl Hi Hn Hle) |].
    + intros r a b (A1 & A2 & A3) (B1 & B2). split; [apply (quiet_trans s a); [exact B1 | apply quiet_kernels; assumption] |]. intros x Hx1 Hx2. rewrite A3. auto.
    + intros w s1 Hfw Hl1 Hi1 Eco1 Ek1 Hm1. assert (Ec1 : contexts s1 = contexts s) by (unfold kernels in Ek1; congruence).
      eapply wp_mono; [apply (acts_run body IH s1 _ _ Hl1 Hi1); [rewrite Eco1; exact Hd | rewrite Ec1; exact Hb] |].
      intros [] s2 [D1 D2 D3]. split; [exact D1 |]. split; [apply (quiet_trans s s1); [apply quiet_kernels; assumption | exact D2] |].
      intros x Hx1 Hx2. rewrite D3, Hm1; [reflexivity | exact Hx2 | lia |]. intros [| k] Hk; [rewrite sp_at_0; unfold in_area; lia |]. cbn. rewrite Hfw. apply Hx2. cbn in Hk. lia.
    + intros [] s2 (Hi2 & Hq2 & Hm2). split; assumption.
  - destruct Hr as (Hn & Hle & Hb). change (rooms (fun t => is_Some (contexts s !! t)) (sp - 176 - size e) body) in Hb.
    change (run_act N (Nest level e body)) with (take_trap N (16 + level) ;;* trap_entry N (fun f ty => called N e (interrupt_dispatch f (ty - 16) (run N body)))).
    apply nest_spec; try assumption. intros sp1 W1 s1 -> Hl1 Hi1 Hd1 Ec1. apply (acts_run body IH s1 _ _ Hl1 Hi1 Hd1). rewrite Ec1. exact Hb.
  - apply sparc_wake_spec; assumption.
  - apply wp_modify. split; [eapply in_c_same; [exact Hi | ..]; try (destruct s; reflexivity) | | destruct s; reflexivity].
    + destruct Hi as [[m [_ _ _ Hp _]] _ _]. destruct s. exact Hp.
    + split; try (destruct s; reflexivity); destruct s; auto.
Qed.

Lemma run_spec l s sp W : layout sp W -> in_c s sp W -> 1 <= depth (core s) -> rooms (fun t => is_Some (contexts s !! t)) sp l -> wp (run N l) (fun _ s' => c_done s sp W s') s.
Proof. apply acts_run. induction l; constructor; [apply every_act_runs | assumption]. Qed.
End c.
End traps.
