(* ===== verification/SparcSwitchProperties.v ===== *)
(** * Switching on SPARC V8: what it keeps, and its properties *)

From S2P Require Import Prelude State SparcSwitch SparcWindows SparcTraps.
Import SparcSwitch.
Local Open Scope Z_scope.

Section threads.
Context (N : nat) (HN : (4 <= N <= 32)%nat).
Context (lo itop : Z).           (* the stack the handlers have *)
Context (stack : nat -> Z * Z).  (* a thread's stack, from its bottom up to its top *)

Local Abbreviation rep := (rep N).
Local Abbreviation runs := (runs N).
Local Abbreviation in_c := (in_c N).
Local Abbreviation c_done := (c_done N lo).

(** The stacks lie apart. *)
Record stacks_apart : Prop := {
  sa_irq : 0 < lo <= itop - 96 /\ itop < 2 ^ 32;
  sa_low t : 0 < (stack t).1;
  sa_top t : (stack t).2 <= 2 ^ 32;
  sa_threads t u : t <> u -> (stack t).2 <= (stack u).1 \/ (stack u).2 <= (stack t).1;
  sa_handlers t : (stack t).2 <= lo \/ itop <= (stack t).1
}.
Hypothesis Hst : stacks_apart.

(** A thread's windows and the frame below them, on its stack. *)
Record placed (t : nat) (v : view) : Prop := {
  pl_len : (1 <= length (v_ws v))%nat;
  pl_plain : psr_plain (v_psr v);
  pl_rises i j : (i < j < length (v_ws v))%nat -> sp_at (v_sp v) (v_ws v) i + 64 <= sp_at (v_sp v) (v_ws v) j;
  pl_low : (stack t).1 + F_BYTES <= v_sp v;
  pl_high k : (k < length (v_ws v))%nat -> sp_at (v_sp v) (v_ws v) k + 64 <= (stack t).2
}.

(** All its windows in their save areas. *)
Definition all_saved (m : gmap Z Z) (v : view) : Prop := forall k u, v_ws v !! k = Some u -> saved m (sp_at (v_sp v) (v_ws v) k) u.

(** What is owed to each thread: the running one has it, every other one is at
    its frame. *)
Record kept_state (V : nat -> view) (s : cpu) : Prop := {
  ks_runs : exists m, runs s m (V (running s));
  ks_placed : placed (running s) (V (running s));
  ks_depth : depth (core s) = 0;
  ks_irq : irq_stack (core s) = itop;
  ks_owed : owed_to (decision s) = None /\ outer_interrupt (decision s) = false;
  ks_running : exists c, contexts s !! running s = Some c /\ c <> 0;
  ks_others t f : t <> running s -> contexts s !! t = Some f -> framed (mem s) f (V t) /\ all_saved (mem s) (V t) /\ placed t (V t)
}.

Definition upd (V : nat -> view) (t : nat) (v : view) : nat -> view := fun n => if decide (n = t) then v else V n.

Lemma sparc_upd_eq V t v : upd V t v t = v.
Proof. unfold upd. rewrite decide_True by reflexivity. reflexivity. Qed.

Lemma sparc_upd_ne V t v u : u <> t -> upd V t v u = V u.
Proof. intros Hne. unfold upd. rewrite decide_False by exact Hne. reflexivity. Qed.

Lemma area_low t v k : placed t v -> (k < length (v_ws v))%nat -> v_sp v <= sp_at (v_sp v) (v_ws v) k.
Proof. clear HN Hst. intros [_ _ Hr _ _] Hk. destruct k as [| k]; [rewrite sp_at_0; lia |]. specialize (Hr 0%nat (S k) ltac:(lia)). rewrite sp_at_0 in Hr. lia. Qed.

Lemma placed_sep t v : placed t v -> sep (v_sp v) (v_ws v).
Proof. clear HN Hst. intros [_ _ Hr _ _] i j Hij. left. apply Hr, Hij. Qed.

Lemma placed_clear t v : placed t v -> clear_of (v_sp v - F_BYTES) (v_sp v) (v_sp v) (v_ws v).
Proof. clear HN Hst. intros Hp k Hk. left. apply (area_low t v k Hp Hk). Qed.

(** A word of the thread's stack. *)
Definition on_stack (t : nat) (x : Z) : Prop := (stack t).1 <= x < (stack t).2.

Lemma placed_area t v k x : placed t v -> (k < length (v_ws v))%nat -> in_area (sp_at (v_sp v) (v_ws v) k) x -> on_stack t x.
Proof. clear HN Hst. intros Hp Hk Hx. pose proof (area_low t v k Hp Hk). pose proof (pl_high _ _ Hp k Hk). pose proof (pl_low _ _ Hp). unfold in_area, on_stack, F_BYTES in *. lia. Qed.

Lemma placed_frame t v f x : placed t v -> v_sp v = f + F_BYTES -> in_frame f x -> on_stack t x.
Proof. clear HN Hst. intros Hp Hf Hx. pose proof (pl_low _ _ Hp). pose proof (pl_high _ _ Hp 0%nat (pl_len _ _ Hp)) as Hh. rewrite sp_at_0 in Hh. unfold in_frame, on_stack, F_BYTES in *. lia. Qed.

Lemma on_one t u x : t <> u -> on_stack t x -> on_stack u x -> False.
Proof. clear HN. intros Hne H1 H2. destruct (sa_threads Hst t u Hne); unfold on_stack in *; lia. Qed.

Lemma on_thread t x : on_stack t x -> ~ (lo <= x < itop).
Proof. clear HN. intros Hx. destruct (sa_handlers Hst t); unfold on_stack in *; lia. Qed.

Lemma elsewhere_off t u v x : placed t v -> t <> u -> on_stack u x -> elsewhere (v_sp v) (v_ws v) x.
Proof. clear HN. intros Hp Hne Hx k Hk Hin. apply (on_one t u x Hne); [apply (placed_area t v k); assumption | exact Hx]. Qed.

(** A suspended thread is not disturbed by what others do to their own. *)
Lemma suspended_ext m m' t f v : placed t v -> (forall x, on_stack t x -> wd m' x = wd m x) -> framed m f v /\ all_saved m v -> framed m' f v /\ all_saved m' v.
Proof. clear HN Hst.
  intros Hp He [Hf Hs]. split.
  - apply (sparc_framed_ext m); [| exact Hf]. intros x Hx. apply He. apply (placed_frame t v f x Hp (fr_sp _ _ _ Hf) Hx).
  - intros k u Hu. apply (saved_ext m); [| apply Hs, Hu]. intros x Hx. apply He. apply (placed_area t v k); [exact Hp | apply lookup_lt_Some in Hu; exact Hu | exact Hx].
Qed.

(** ** The dispatch's decision *)

(** Thread [A] was interrupted at [f]; thread [u] goes on, at [r]. *)
Record decided (s : cpu) (A : nat) (f : Z) (u : nat) (r : Z) (s' : cpu) : Prop := {
  de_result : u = A /\ r = f \/ u <> A /\ contexts s !! u = Some r /\ contexts s' !! A = Some f;
  de_contexts t : t <> A -> contexts s' !! t = contexts s !! t;
  de_source : exists c, contexts s' !! A = Some c /\ c <> 0;
  de_running : running s' = u;
  de_decision : owed_to (decision s') = None /\ outer_interrupt (decision s') = false;
  de_core : depth (core s') = 1 /\ irq_stack (core s') = itop;
  de_raised : raised s = true -> raised s' = true
}.

(** Each suspended thread of [s] still there. *)
Definition others_kept (V : nat -> view) (A : nat) (s : cpu) : Prop := forall t f, t <> A -> contexts s !! t = Some f -> framed (mem s) f (V t) /\ all_saved (mem s) (V t) /\ placed t (V t).

Lemma sparc_turn V s A f u r v w s3 : others_kept V A s -> placed A v -> decided s A f u r s3 -> in_c s3 (itop - 96) (w :: v_ws v) -> rg w 6 = f -> fp w = v_sp v ->
  framed (mem s3) f v -> (forall t x, t <> A -> on_stack t x -> wd (mem s3) x = wd (mem s) x) ->
  wp (li_l 5 r ;;* trap_exit N) (fun _ s' => kept_state (upd V A v) s' /\ running s' = u /\ (raised s = true -> raised s' = true)) s3.
Proof.
  intros Ho Hp Hd Hi H6 Hfp Hf Hm. pose proof Hd as [Hres Hctx Hsrc Hrun Hdec [Hdep Hirq] Hra].
  eapply (ending_intro N HN s3); [exact Hi |]. intros m4 s4 Hend (F1 & F2 & F3). rewrite H6, Hfp in Hend. pose proof F2 as F2'. unfold kernels in F2'. injection F2' as G1 G2 G3 G4.
  assert (Hot : forall t c, t <> A -> contexts s3 !! t = Some c -> framed (mem s3) c (V t) /\ all_saved (mem s3) (V t) /\ placed t (V t)).
  { intros t c Ht Hc. rewrite Hctx in Hc by exact Ht. destruct (Ho t c Ht Hc) as (O1 & O2 & O3). destruct (suspended_ext (mem s) (mem s3) t c (V t) O3) as [P1 P2]; [intros x Hx; apply (Hm t x Ht Hx) | auto |]. auto. }
  destruct Hres as [[-> ->] | (Hne & Hu & HA)].
  - eapply wp_mono; [apply (exit_same N HN s4 m4 f v Hend); [apply Hp | rewrite F3; exact Hf | apply Hp] |].
    intros [] s5 [(m5 & R5 & Eco & Ek) Hm5]. unfold kernels in Ek. injection Ek as K1 K2 K3 K4.
    assert (Er : running s5 = A) by congruence. split; [| split; [exact Er | rewrite K4, G4; exact Hra]]. split; rewrite ?Er, ?sparc_upd_eq, ?Eco, ?F1, ?K1, ?K2, ?G1, ?G2.
    + exists m5. exact R5.
    + exact Hp.
    + unfold uncounted. cbn. lia.
    + exact Hirq.
    + exact Hdec.
    + exact Hsrc.
    + intros t c Ht Hc. rewrite sparc_upd_ne by exact Ht. rewrite Hm5, F3. apply Hot; [exact Ht | exact Hc].
  - assert (Hu3 : contexts s3 !! u = Some r) by (rewrite Hctx; assumption). destruct (Hot u r Hne Hu3) as (U1 & U2 & U3).
    assert (Hfr : v_sp (V u) = r + F_BYTES) by apply U1. assert (Hff : v_sp v = f + F_BYTES) by apply Hf.
    eapply wp_mono; [apply (exit_switch N HN s4 m4 f (v_sp v) (v_ws v) r (V u) Hend) |].
    + intros ->. apply (on_one A u f (not_eq_sym Hne)); [apply (placed_frame A v f f Hp Hff) | apply (placed_frame u (V u) f f U3 Hfr)]; unfold in_frame, F_BYTES; lia.
    + exact (placed_sep A v Hp).
    + apply U3.
    + rewrite F3. exact U1.
    + apply U3.
    + rewrite F3. exact U2.
    + intros k Hk. assert (HL := area_low A v k Hp Hk). assert (HH := pl_high _ _ Hp k Hk). assert (HR := pl_low _ _ Hp). assert (HRu := pl_low _ _ U3). pose proof (pl_high _ _ U3 0%nat (pl_len _ _ U3)) as HHu. rewrite sp_at_0 in HHu.
      destruct (sa_threads Hst u A Hne); unfold F_BYTES in *; lia.
    + intros k Hk k' Hk'. assert (HL := area_low A v k' Hp Hk'). assert (HH := pl_high _ _ Hp k' Hk'). assert (HR := pl_low _ _ Hp). assert (HRu := pl_low _ _ U3). assert (HLu := area_low u (V u) k U3 Hk). pose proof (pl_high _ _ U3 k Hk) as HHu.
      destruct (sa_threads Hst u A Hne); unfold F_BYTES in *; lia.
    + intros [] s5 [(m5 & R5 & Eco & Ek) [Hsv Hm5]]. unfold kernels in Ek. injection Ek as K1 K2 K3 K4.
      assert (Er : running s5 = u) by congruence. split; [| split; [exact Er | rewrite K4, G4; exact Hra]]. split; rewrite ?Er, ?(sparc_upd_ne V A v u Hne), ?Eco, ?F1, ?K1, ?K2, ?G1, ?G2.
      * exists m5. exact R5.
      * exact U3.
      * unfold uncounted. cbn. lia.
      * exact Hirq.
      * exact Hdec.
      * exists r. split; [exact Hu3 |]. pose proof (pl_low _ _ U3). pose proof (sa_low Hst u). lia.
      * intros t c Ht Hc. destruct (decide (t = A)) as [-> | HtA].
        -- rewrite sparc_upd_eq. rewrite HA in Hc. injection Hc as <-. split; [| split; [exact Hsv | exact Hp]].
           apply (sparc_framed_ext (mem s3)); [| exact Hf]. intros x Hx. rewrite Hm5, F3; [reflexivity |]. apply (clear_elsewhere (v_sp v - F_BYTES) (v_sp v)); [apply (placed_clear A v Hp) | unfold in_frame, F_BYTES in *; lia].
        -- rewrite sparc_upd_ne by exact HtA. destruct (Hot t c HtA Hc) as (O1 & O2 & O3). destruct (suspended_ext (mem s3) (mem s5) t c (V t) O3) as [P1 P2]; [| auto | auto].
           intros x Hx. rewrite Hm5, F3; [reflexivity |]. apply (elsewhere_off A t v x Hp); auto.
Qed.
(** ** The dispatch, for the outermost trap *)

Lemma decided_quiet s0 A f u r s s' : decided s0 A f u r s -> quiet s s' -> decided s0 A f u r s'.
Proof.
  intros [D1 D2 D3 D4 [D5 D5'] D6 D7] [Q1 Q2 Q3 Q4 Q5 Q6]. destruct (Q5 D5') as [E1 E2]. split; rewrite ?Q1, ?Q2, ?E1, ?E2; auto.
Qed.

(** The kernel's state in a trap that interrupted [A], nothing decided yet. *)
Record undecided (s0 : cpu) (A : nat) (f : Z) (s : cpu) : Prop := {
  un_core : core s = CoreState f itop 1;
  un_contexts : contexts s = contexts s0;
  un_source : exists c, contexts s !! A = Some c /\ c <> 0;
  un_frame : f <> 0;
  un_raised : raised s0 = true -> raised s = true
}.

Lemma undecided_quiet s0 A f s s' : undecided s0 A f s -> quiet s s' -> undecided s0 A f s'.
Proof. intros [U1 U2 U3 U4 U5] [Q1 Q2 Q3 Q4 Q5 Q6]. split; rewrite ?Q1, ?Q2; auto. Qed.

Definition known (s : cpu) (t : nat) : Prop := is_Some (contexts s !! t).
Definition frames_there (s : cpu) (A : nat) : Prop := forall t c, t <> A -> contexts s !! t = Some c -> c <> 0.

(** No switch: nothing is owed, and the thread's own frame goes on. *)
Lemma stay_decided s0 A f s : undecided s0 A f s -> running s = A -> owed_to (decision s) = None -> outer_interrupt (decision s) = false -> decided s0 A f A (cs_frame (core s)) s.
Proof. intros [U1 U2 U3 U4 U5] Hr Ho Hi. split; auto; rewrite ?U1; auto. intros t _. rewrite U2. reflexivity. Qed.

Lemma switch_decided s0 A f to s Q : undecided s0 A f s -> frames_there s0 A -> known s0 to ->
  running s = to -> owed_to (decision s) = None -> outer_interrupt (decision s) = false ->
  (forall s', decided s0 A f to (cs_frame (core s')) s' -> cwp s' = cwp s -> et s' = et s -> wim s' = wim s -> psr s' = psr s -> file s' = file s -> mem s' = mem s -> Q tt s') ->
  wp (cyros_port_switch (Some A) to) Q s.
Proof.
  intros [U1 U2 (cA & HA & HA0) U4 U5] Hfr [c Hc] Hr Ho Hi HQ. rewrite <- U2 in Hc.
  assert (Hc0 : c <> 0) by (destruct (decide (to = A)) as [-> | Hne]; [congruence | apply (Hfr to c Hne); congruence]).
  unfold cyros_port_switch. apply wp_bind, wp_get, wp_bind, wp_ensure; [rewrite U1; reflexivity |]. apply wp_bind. unfold wp at 1, get_context. rewrite Hc.
  apply wp_bind, wp_ensure; [apply negb_true_iff, Z.eqb_neq, Hc0 |]. apply wp_bind, wp_bind. unfold wp at 1, get_context. rewrite HA. apply wp_modify.
  apply wp_bind. destruct s as [cw e p w fl g y pc0 npc0 mm ctx co d ru ra]. cbn in U1, U2, U5, Ho, Hi, Hr, HA. subst co. cbn [contexts] in *. unfold wp at 1, get_context. cbn [contexts set_contexts cs_frame core].
  destruct (decide (to = A)) as [-> | Hne].
  - rewrite lookup_insert_eq. apply wp_modify. apply HQ; try reflexivity. split; cbn; auto.
    + intros t Ht. rewrite lookup_insert_ne, U2 by auto. reflexivity.
    + exists f. split; [apply lookup_insert_eq | exact U4].
  - rewrite lookup_insert_ne by auto. rewrite Hc. apply wp_modify. apply HQ; try reflexivity. split; cbn; auto.
    + right. split; [exact Hne |]. split; [congruence | apply lookup_insert_eq].
    + intros t Ht. rewrite lookup_insert_ne, U2 by auto. reflexivity.
    + exists f. split; [apply lookup_insert_eq | exact U4].
Qed.

Lemma rooms_known (P P' : nat -> Prop) : (forall t, P t -> P' t) -> forall l sp, rooms lo P sp l -> rooms lo P' sp l.
Proof. clear HN.
  intros H. assert (Ha : forall a sp, room lo P sp a -> room lo P' sp a).
  { induction a as [e body IH | level e body IH | to |] using act_deep; intros sp; cbn [room]; auto; intros (H1 & H2 & H3); (split; [exact H1 | split; [exact H2 |]]);
    (induction IH as [| a l Ha _ IHl]; [exact I | destruct H3 as [H3 H4]; split; [apply Ha, H3 | apply IHl, H4]]). }
  induction l as [| a l IHl]; intros sp; cbn; [auto |]. intros [H1 H2]. split; [apply Ha, H1 | apply IHl, H2].
Qed.

(** A handler's windows, and the words its frames do not reach. *)
Section handler.
Context (A : nat) (v : view) (f sp : Z) (WW : list window).
Hypothesis Hlay : layout lo sp WW.
Definition beyond (x : Z) : Prop := ~ (lo <= x < sp) /\ elsewhere sp WW x.

Record handled (P : cpu -> Prop) (s s' : cpu) : Prop := {
  hd_in : in_c s' sp WW;
  hd_kernel : P s';
  hd_mem x : beyond x -> wd (mem s') x = wd (mem s) x
}.

Lemma run_handled s0 l s (P : cpu -> Prop) : in_c s sp WW -> 1 <= depth (core s) -> (forall t, known s0 t -> known s t) -> rooms lo (known s0) sp l ->
  (forall s', c_done s sp WW s' -> P s') -> wp (run N l) (fun _ s' => handled P s s') s.
Proof.
  intros Hi Hd Hk Hr HP. eapply wp_mono; [apply (run_spec N HN lo l s sp WW Hlay Hi Hd); apply (rooms_known (known s0)); [exact Hk | exact Hr] |].
  intros [] s' D. split; [apply D | apply HP, D | intros x [H1 H2]; apply D; assumption].
Qed.

Lemma reschedule_handled s0 s d : in_c s sp WW -> undecided s0 A f s -> frames_there s0 A -> running s = A -> owed_to (decision s) = None -> outer_interrupt (decision s) = false ->
  rooms lo (known s0) sp (before d) -> rooms lo (known s0) sp (behind d) -> known s0 (pick d) ->
  wp (run_reschedule N d) (fun _ s' => handled (fun s' => decided s0 A f (pick d) (cs_frame (core s')) s') s s') s.
Proof.
  intros Hi Hu Hfr Hr Ho Hf Hrb Hra Hk. unfold run_reschedule. apply wp_bind, wp_get, wp_bind, wp_ensure; [rewrite (un_core _ _ _ _ Hu); reflexivity |].
  apply wp_bind. eapply wp_mono; [apply (run_handled s0 (before d) s (fun s' => quiet s s') Hi); [rewrite (un_core _ _ _ _ Hu); cbn; lia | intros t; unfold known; rewrite (un_contexts _ _ _ _ Hu); auto | exact Hrb | intros s' D; apply D] |].
  intros [] s1 [Hi1 Hq1 Hm1]. pose proof (undecided_quiet _ _ _ _ _ Hu Hq1) as Hu1. destruct (qu_none _ _ Hq1 Hf) as [Ed Er]. apply wp_bind, wp_get, wp_bind, wp_modify. rewrite Er, Hr.
  set (s2 := set_running (pick d) s1). assert (Hi2 : in_c s2 sp WW) by (eapply in_c_same; [exact Hi1 | ..]; try (destruct s1; reflexivity); destruct Hi1 as [[m [_ _ _ Hp _]] _ _]; destruct s1; exact Hp).
  assert (Hu2 : undecided s0 A f s2) by (destruct Hu1; destruct s1; split; assumption). assert (Hd2 : decision s2 = decision s) by (rewrite <- Ed; destruct s1; reflexivity). assert (Hr2 : running s2 = pick d) by (destruct s1; reflexivity). assert (Hm2 : mem s2 = mem s1) by (destruct s1; reflexivity).
  assert (Hend : forall s3, decided s0 A f (pick d) (cs_frame (core s3)) s3 -> in_c s3 sp WW -> mem s3 = mem s1 -> wp (run N (behind d)) (fun _ s' => handled (fun s' => decided s0 A f (pick d) (cs_frame (core s')) s') s s') s3).
  { intros s3 D3 Hi3 Hm3. eapply wp_mono; [apply (run_handled s0 (behind d) s3 (fun s' => quiet s3 s') Hi3); [destruct (de_core _ _ _ _ _ _ D3) as [-> _]; lia | | exact Hra | intros s' D; apply D] |].
    - intros t Ht. unfold known. destruct (decide (t = A)) as [-> | Hne]; [destruct (de_source _ _ _ _ _ _ D3) as (c & -> & _); eauto | rewrite (de_contexts _ _ _ _ _ _ D3 t Hne); exact Ht].
    - intros [] s4 [Hi4 Hq4 Hm4]. split; [exact Hi4 | rewrite (qu_core _ _ Hq4); apply (decided_quiet _ _ _ _ _ s3); assumption |]. intros x Hx. rewrite Hm4, Hm3, Hm1 by exact Hx. reflexivity. }
  apply wp_bind. destruct (Nat.eqb_spec (pick d) A) as [E | Hne].
  - apply wp_ret, Hend; [| exact Hi2 | exact Hm2]. rewrite E in *. apply stay_decided; auto; rewrite Hd2; assumption.
  - apply (switch_decided s0 A f (pick d)); [exact Hu2 | exact Hfr | exact Hk | exact Hr2 | rewrite Hd2; exact Ho | rewrite Hd2; exact Hf |].
    intros s3 D3 E1 E2 E3 E4 E5 E6. apply Hend; [exact D3 | | congruence]. eapply in_c_same; [exact Hi2 | | | | | |]; try assumption. rewrite E4. destruct Hi2 as [[m [_ _ _ Hp _]] _ _]. exact Hp.
Qed.
Lemma interrupt_handled s0 s level l : in_c s sp WW -> undecided s0 A f s -> frames_there s0 A -> running s = A -> owed_to (decision s) = None -> rooms lo (known s0) sp l ->
  wp (interrupt_dispatch f level (run N l)) (fun r s' => handled (fun s' => exists u, decided s0 A f u r s') s s') s.
Proof.
  intros Hi Hu Hfr Hr Ho Hl. unfold interrupt_dispatch. apply wp_bind, wp_get. rewrite (un_core _ _ _ _ Hu). change (1 =? 1) with true. cbv iota.
  apply wp_bind. apply (set_pil_done N lo s sp WW level); [exact Hi |]. intros s1 [Hi1 Hq1 Hm1] E1 E2 E3 E4 E5 E6.
  apply wp_bind, wp_modify. set (s2 := set_decision _ s1).
  assert (Hu2 : undecided s0 A f s2) by (pose proof (undecided_quiet _ _ _ _ _ Hu Hq1) as []; destruct s1; split; assumption).
  assert (Hi2 : in_c s2 sp WW) by (eapply in_c_same; [exact Hi1 | ..]; try (destruct s1; reflexivity); destruct Hi1 as [[m [_ _ _ Hp _]] _ _]; destruct s1; exact Hp).
  assert (Hd2 : owed_to (decision s2) = None /\ running s2 = A /\ mem s2 = mem s) by (rewrite <- E2 in Ho; destruct s1; cbn in *; split_and!; congruence). destruct Hd2 as (Hd2 & Hr2 & Hm2).
  apply wp_bind. eapply wp_mono; [apply (run_handled s0 l s2 (fun s' => quiet s2 s') Hi2); [rewrite (un_core _ _ _ _ Hu2); cbn; lia | intros t; unfold known; rewrite (un_contexts _ _ _ _ Hu2); auto | exact Hl | intros s' D; apply D] |].
  intros [] s3 [Hi3 Hq3 Hm3]. pose proof (undecided_quiet _ _ _ _ _ Hu2 Hq3) as Hu3. pose proof (qu_owes _ _ Hq3 A (or_introl (conj Hd2 Hr2))) as Hw3.
  apply wp_bind. apply (set_pil_done N lo s3 sp WW); [exact Hi3 |]. intros s4 [Hi4 Hq4 _] _ F2 F3 F4 F5 F6. pose proof (undecided_quiet _ _ _ _ _ Hu3 Hq4) as Hu4.
  assert (Hw4 : owes A s4) by (unfold owes in *; rewrite F2, F3, F4; exact Hw3).
  apply wp_bind, wp_bind, wp_modify, wp_bind, wp_get. set (s5 := set_decision _ s4).
  assert (Hi5 : forall D, in_c (set_decision D s4) sp WW) by (intros D; eapply in_c_same; [exact Hi4 | ..]; try (destruct s4; reflexivity); destruct Hi4 as [[m [_ _ _ Hp _]] _ _]; destruct s4; exact Hp).
  assert (Hu5 : forall D, undecided s0 A f (set_decision D s4)) by (intros D; destruct Hu4; destruct s4; split; assumption).
  assert (Hm5 : forall x, beyond x -> wd (mem s4) x = wd (mem s) x) by (intros x Hx; rewrite F6, Hm3, Hm2 by exact Hx; reflexivity).
  destruct Hw4 as [[W1 W2] | (x & W1 & W2 & W3 & W4)].
  - assert (E : owed_to (decision s5) = None /\ outer_interrupt (decision s5) = false /\ running s5 = A /\ mem s5 = mem s4) by (destruct s4; cbn in *; auto). destruct E as (G1 & G2 & G3 & G4). rewrite G1.
    apply wp_ret, wp_bind, wp_get, wp_ret. split; [apply Hi5 | exists A; apply stay_decided; auto; apply Hu5 | rewrite G4; exact Hm5].
  - assert (E : owed_to (decision s5) = Some x /\ owed_from (decision s5) = Some A) by (destruct s4; cbn in *; auto). destruct E as (G1 & G2). rewrite G1, G2.
    apply wp_bind, wp_modify. set (s6 := set_decision _ s5). assert (Es6 : exists D, s6 = set_decision D s4) by (eexists; unfold s6, s5; destruct s4; reflexivity).
    assert (G : owed_to (decision s6) = None /\ outer_interrupt (decision s6) = false /\ running s6 = x /\ mem s6 = mem s4) by (destruct s4; cbn in *; auto). destruct G as (G3 & G4 & G5 & G6). destruct Es6 as [D ED]. clearbody s6. subst s6.
    apply (switch_decided s0 A f x); [apply Hu5 | exact Hfr | unfold known; rewrite <- (un_contexts _ _ _ _ Hu4); exact W4 | exact G5 | exact G3 | exact G4 |].
    intros s7 D7 K1 K2 K3 K4 K5 K6. apply wp_bind, wp_get, wp_ret. split; [| exists x; exact D7 | rewrite K6, G6; exact Hm5].
    eapply in_c_same; [apply (Hi5 D) | | | | | |]; try assumption. rewrite K4. destruct (Hi5 D) as [[m [_ _ _ Hp _]] _ _]. exact Hp.
Qed.

Hypothesis Hframe : forall x, in_frame f x -> beyond x.

Definition answered (s0 : cpu) (G : nat -> Prop) (v' : view) (s : cpu) (r : Z) (s' : cpu) : Prop :=
  in_c s' sp WW /\ (exists u, G u /\ decided s0 A f u r s') /\ framed (mem s') f v' /\ forall x, beyond x -> ~ in_frame f x -> wd (mem s') x = wd (mem s) x.

Lemma answered_handled s0 (G : nat -> Prop) s r s' : framed (mem s) f v -> handled (fun s' => exists u, G u /\ decided s0 A f u r s') s s' -> answered s0 G v s r s'.
Proof.
  intros Hf [H1 H2 H3]. split; [exact H1 |]. split; [exact H2 |]. split; [apply (sparc_framed_ext (mem s)); [| exact Hf]; intros x Hx; apply H3, Hframe, Hx | intros x Hx _; apply H3, Hx].
Qed.

(** A word of the frame written. *)
Lemma in_c_st s a x : in_c s sp WW -> in_frame f a -> in_c (set_mem (<[a := x]> (mem s)) s) sp WW.
Proof.
  intros [[m [Hc Hm Hw Hp Hh]] He Hsp] Ha. split; [exists m | destruct s; exact He | destruct s; exact Hsp].
  apply (rep_intro N _ m WW (cwp s) (wim s) (psr s) (file s) (<[a := x]> (mem s)) (sp_of N s)); [destruct s; reflexivity | destruct s; reflexivity | destruct s; reflexivity | destruct s; reflexivity | destruct s; reflexivity | destruct s; reflexivity | exact Hc | exact Hm | exact Hw | exact Hp |].
  apply (holds_mem_ext N HN _ _ _ (mem s)); [| exact Hh]. intros k y Hk Hy. rewrite sparc_wd_insert. destruct (Z.eqb_spec y a) as [-> |]; [| reflexivity].
  exfalso. destruct (Hframe a Ha) as [_ He']. apply (He' k); [lia |]. rewrite <- Hsp. exact Hy.
Qed.

(** A yield resumes past its trap instruction. *)
Definition past (v : view) : view := View (v_ws v) (v_psr v) (v_npc v) (u32 (v_npc v + 4)) (v_y v) (v_g v) (v_o v).

Lemma past_framed m : framed m f v -> framed (<[f + F_NPC := u32 (wd m (f + F_NPC) + 4)]> (<[f + F_PC := wd m (f + F_NPC)]> m)) f (past v).
Proof.
  intros [H1 H2 H3 H4 H5 H6 H7]. unfold F_PSR, F_PC, F_NPC, F_Y, F_G0, F_O0, F_BYTES in *.
  split; cbn [past v_psr v_pc v_npc v_y v_g v_o]; unfold F_PSR, F_PC, F_NPC, F_Y, F_G0, F_O0; try exact H7;
    [| | | | intros j Hj | intros j Hj]; rewrite !sparc_wd_insert; rewrite ?Z.eqb_refl; rewrite ?(proj2 (Z.eqb_neq _ _)) by lia; rewrite ?H3; auto.
Qed.
Lemma wp_assoc3 {B} (a b c : M cpu unit) (rest : M cpu B) Q s : wp ((a ;;* b ;;* c) ;;* rest) Q s -> wp (a ;;* b ;;* c ;;* rest) Q s.
Proof. unfold wp, kbind. destruct (a s) as [[[] s1] |]; [| auto]. destruct (b s1) as [[[] s2] |]; auto. Qed.

Definition goes (u : nat) : nat -> Prop := fun t => t = u.

Lemma rescheduled s0 s d : in_c s sp WW -> undecided s0 A f s -> frames_there s0 A -> running s = A -> owed_to (decision s) = None -> outer_interrupt (decision s) = false ->
  rooms lo (known s0) sp (before d) -> rooms lo (known s0) sp (behind d) -> known s0 (pick d) ->
  wp (set_pil reschedule_level ;;* run_reschedule N d ;;* set_pil pil_masked_preempt) (fun _ s' => handled (fun s' => decided s0 A f (pick d) (cs_frame (core s')) s') s s') s.
Proof.
  intros Hi Hu Hfr Hr Ho Hf Hrb Hra Hk. apply wp_bind. apply (set_pil_done N lo s sp WW); [exact Hi |]. intros s1 [Hi1 Hq1 _] E1 E2 E3 E4 E5 E6.
  apply wp_bind. eapply wp_mono; [apply (reschedule_handled s0 s1 d Hi1 (undecided_quiet _ _ _ _ _ Hu Hq1) Hfr); rewrite ?E2, ?E3; assumption |].
  intros [] s2 [H1 H2 H3]. apply (set_pil_done N lo s2 sp WW); [exact H1 |]. intros s3 [Hi3 Hq3 _] F1 F2 F3 F4 F5 F6.
  split; [exact Hi3 | rewrite F1; apply (decided_quiet _ _ _ _ _ s2); assumption | intros x Hx; rewrite F6, H3, E6 by exact Hx; reflexivity].
Qed.

Lemma dispatch_interrupt s0 s level e l : framed (mem s) f v -> in_c s sp WW -> undecided s0 A f s -> frames_there s0 A -> running s = A -> owed_to (decision s) = None -> rooms lo (known s0) sp l -> 2 <= level <= 15 ->
  wp (cyros_sparc_trap_dispatch N (Doing e l 0 []) f (16 + level)) (answered s0 (fun _ => True) v s) s.
Proof.
  intros Hf Hi Hu Hfr Hr Ho Hl Hle. unfold cyros_sparc_trap_dispatch. apply wp_bind, wp_get. unfold tt_interrupt_first, tt_interrupt_last, reschedule_level.
  rewrite (proj2 (Z.leb_le 17 _)), (proj2 (Z.leb_le _ 31)) by lia. cbn [andb]. replace (16 + level - 16) with level by lia. rewrite (proj2 (Z.eqb_neq level 1)) by lia.
  eapply wp_mono; [apply (interrupt_handled s0 s level l); assumption |]. intros r s' [H1 (u & H2) H3]. apply answered_handled; [exact Hf |]. split; [exact H1 | exists u; split; [exact I | exact H2] | exact H3].
Qed.

Lemma dispatch_reschedule s0 s d : framed (mem s) f v -> in_c s sp WW -> undecided s0 A f s -> frames_there s0 A -> running s = A -> owed_to (decision s) = None -> outer_interrupt (decision s) = false ->
  rooms lo (known s0) sp (before d) -> rooms lo (known s0) sp (behind d) -> known s0 (pick d) ->
  wp (cyros_sparc_trap_dispatch N d f (16 + reschedule_level)) (answered s0 (goes (pick d)) v s) s.
Proof.
  intros Hf Hi Hu Hfr Hr Ho Hff Hrb Hra Hk. unfold cyros_sparc_trap_dispatch. apply wp_bind, wp_get. change ((tt_interrupt_first <=? 16 + reschedule_level) && (16 + reschedule_level <=? tt_interrupt_last)) with true.
  change (16 + reschedule_level - 16) with reschedule_level. change (reschedule_level =? reschedule_level) with true. rewrite (un_core _ _ _ _ Hu). change (depth (CoreState f itop 1) =? 1) with true. cbv iota zeta.
  apply wp_assoc3, wp_bind. eapply wp_mono; [apply (rescheduled s0 s d); assumption |]. intros [] s' [H1 H2 H3]. apply wp_bind, wp_get, wp_ret.
  apply answered_handled; [exact Hf |]. split; [exact H1 | exists (pick d); split; [reflexivity | exact H2] | exact H3].
Qed.

(** The two traps a thread makes: past the instruction first. *)
Definition advanced (s : cpu) : cpu := set_mem (<[f + F_NPC := u32 (wd (mem s) (f + F_NPC) + 4)]> (<[f + F_PC := wd (mem s) (f + F_NPC)]> (mem s))) s.

Lemma advanced_facts s0 s : framed (mem s) f v -> in_c s sp WW -> undecided s0 A f s ->
  framed (mem (advanced s)) f (past v) /\ in_c (advanced s) sp WW /\ undecided s0 A f (advanced s) /\ running (advanced s) = running s /\ decision (advanced s) = decision s /\
  forall x, ~ in_frame f x -> wd (mem (advanced s)) x = wd (mem s) x.
Proof.
  intros Hf Hi Hu. split_and!.
  - destruct s; apply past_framed, Hf.
  - pose proof (in_c_st s (f + F_PC) (wd (mem s) (f + F_NPC)) Hi ltac:(unfold in_frame, F_PC, F_BYTES; lia)) as H1.
    pose proof (in_c_st _ (f + F_NPC) (u32 (wd (mem s) (f + F_NPC) + 4)) H1 ltac:(unfold in_frame, F_NPC, F_BYTES; lia)) as H2. destruct s. exact H2.
  - destruct Hu. destruct s. split; assumption.
  - destruct s; reflexivity.
  - destruct s; reflexivity.
  - intros x Hx. destruct s. cbn. unfold in_frame, F_BYTES, F_NPC, F_PC in *. rewrite !sparc_wd_insert, !(proj2 (Z.eqb_neq _ _)) by lia. reflexivity.
Qed.

Lemma answered_advanced s0 (G : nat -> Prop) s r s' : framed (mem (advanced s)) f (past v) -> (forall x, ~ in_frame f x -> wd (mem (advanced s)) x = wd (mem s) x) ->
  handled (fun s' => exists u, G u /\ decided s0 A f u r s') (advanced s) s' -> answered s0 G (past v) s r s'.
Proof.
  intros Hf Hm [H1 H2 H3]. split; [exact H1 |]. split; [exact H2 |]. split; [apply (sparc_framed_ext (mem (advanced s))); [| exact Hf]; intros x Hx; apply H3, Hframe, Hx |].
  intros x Hx Hn. rewrite H3, Hm by assumption. reflexivity.
Qed.

Lemma dispatch_yield s0 s d : framed (mem s) f v -> in_c s sp WW -> undecided s0 A f s -> frames_there s0 A -> running s = A -> owed_to (decision s) = None -> outer_interrupt (decision s) = false ->
  rooms lo (known s0) sp (before d) -> rooms lo (known s0) sp (behind d) -> known s0 (pick d) ->
  wp (cyros_sparc_trap_dispatch N d f tt_yield) (answered s0 (goes (pick d)) (past v) s) s.
Proof.
  intros Hf Hi Hu Hfr Hr Ho Hff Hrb Hra Hk. destruct (advanced_facts s0 s Hf Hi Hu) as (A1 & A2 & A3 & A4 & A5 & A6).
  unfold cyros_sparc_trap_dispatch. apply wp_bind, wp_get. rewrite (un_core _ _ _ _ Hu). change (depth (CoreState f itop 1) =? 1) with true.
  change ((tt_interrupt_first <=? tt_yield) && (tt_yield <=? tt_interrupt_last)) with false. change ((tt_yield =? tt_yield) || (tt_yield =? tt_direct_switch)) with true. change (tt_yield =? tt_yield) with true. cbv iota zeta. cbn [andb].
  apply wp_bind, wp_get, wp_bind, wp_modify, wp_bind, wp_modify. match goal with |- wp _ _ ?S => change S with (advanced s) end.
  apply wp_bind. eapply wp_mono; [apply (rescheduled s0 (advanced s) d); rewrite ?A4, ?A5; assumption |]. intros [] s' [H1 H2 H3]. apply wp_bind, wp_get, wp_ret.
  apply answered_advanced; [exact A1 | exact A6 |]. split; [exact H1 | exists (pick d); split; [reflexivity | exact H2] | exact H3].
Qed.

Lemma dispatch_direct s0 s e to : framed (mem s) f v -> in_c s sp WW -> undecided s0 A f s -> frames_there s0 A -> running s = to -> owed_to (decision s) = None -> outer_interrupt (decision s) = false ->
  known s0 to -> v_o v 0 = Z.of_nat A -> v_o v 1 = Z.of_nat to ->
  wp (cyros_sparc_trap_dispatch N (Doing e [] 0 []) f tt_direct_switch) (answered s0 (goes to) (past v) s) s.
Proof.
  intros Hf Hi Hu Hfr Hr Ho Hff Hk Ho0 Ho1. destruct (advanced_facts s0 s Hf Hi Hu) as (A1 & A2 & A3 & A4 & A5 & A6).
  unfold cyros_sparc_trap_dispatch. apply wp_bind, wp_get. rewrite (un_core _ _ _ _ Hu). change (depth (CoreState f itop 1) =? 1) with true.
  change ((tt_interrupt_first <=? tt_direct_switch) && (tt_direct_switch <=? tt_interrupt_last)) with false. change ((tt_direct_switch =? tt_yield) || (tt_direct_switch =? tt_direct_switch)) with true. change (tt_direct_switch =? tt_yield) with false. cbv iota zeta. cbn [andb].
  apply wp_bind, wp_get, wp_bind, wp_modify, wp_bind, wp_modify. match goal with |- wp _ _ ?S => change S with (advanced s) end.
  apply wp_bind, wp_bind, wp_get. replace (wd (mem (advanced s)) (f + F_O0)) with (Z.of_nat A) by (pose proof (fr_o _ _ _ A1 0 ltac:(lia)) as E; rewrite Z.add_0_r in E; rewrite E; symmetry; exact Ho0).
  replace (wd (mem (advanced s)) (f + F_O0 + 4)) with (Z.of_nat to) by (pose proof (fr_o _ _ _ A1 1 ltac:(lia)) as E; change (4 * Z.of_nat 1) with 4 in E; rewrite E; symmetry; exact Ho1). rewrite !Nat2Z.id.
  apply (switch_decided s0 A f to); [exact A3 | exact Hfr | exact Hk | congruence | rewrite A5; exact Ho | rewrite A5; exact Hff |].
  intros s' D E1 E2 E3 E4 E5 E6. apply wp_bind, wp_get, wp_ret. apply answered_advanced; [exact A1 | exact A6 |]. split; [| exists to; split; [reflexivity | exact D] | intros x _; rewrite E6; reflexivity].
  eapply in_c_same; [exact A2 | | | | | |]; try assumption. rewrite E4. destruct A2 as [[m [_ _ _ Hp _]] _ _]. exact Hp.
Qed.
End handler.
(** ** A thread's trap, whole *)

(** Thread [A] runs as [v], whatever the kernel says is running. *)
Record ready (V : nat -> view) (A : nat) (v : view) (s : cpu) : Prop := {
  rd_runs : exists m, runs s m v;
  rd_placed : placed A v;
  rd_depth : depth (core s) = 0;
  rd_irq : irq_stack (core s) = itop;
  rd_owed : owed_to (decision s) = None /\ outer_interrupt (decision s) = false;
  rd_source : exists c, contexts s !! A = Some c /\ c <> 0;
  rd_others : others_kept V A s
}.

Lemma kept_ready V s : kept_state V s -> ready V (running s) (V (running s)) s.
Proof. intros []. split; auto. Qed.

Lemma ready_frames V A v s : ready V A v s -> frames_there s A.
Proof.
  intros [_ _ _ _ _ _ Ho] t c Ht Hc. destruct (Ho t c Ht Hc) as (H1 & _ & H3). pose proof (pl_low _ _ H3). pose proof (fr_sp _ _ _ H1). pose proof (sa_low Hst t). lia.
Qed.

Lemma handler_layout t v w : placed t v -> fp w = v_sp v -> layout lo (itop - 96) (w :: v_ws v).
Proof. clear HN.
  intros Hp Hw. pose proof (sa_irq Hst) as [Hi1 Hi2]. assert (Hk : forall k, (k < length (v_ws v))%nat -> itop <= sp_at (v_sp v) (v_ws v) k \/ sp_at (v_sp v) (v_ws v) k + 64 <= lo).
  { intros k Hk. pose proof (area_low t v k Hp Hk). pose proof (pl_high _ _ Hp k Hk). pose proof (pl_low _ _ Hp). destruct (sa_handlers Hst t); unfold F_BYTES in *; lia. }
  split; [| | lia].
  - intros [| i] [| j] Hij; cbn in Hij |- *; try lia; rewrite ?Hw; [specialize (Hk j ltac:(lia)); unfold apart; lia | apply (placed_sep t v Hp); lia].
  - intros [| k] Hk'; [lia |]. cbn in Hk' |- *. rewrite Hw. specialize (Hk k ltac:(lia)). lia.
Qed.

(** Words the handlers do not reach, seen from under the dispatch. *)
Lemma under_dispatch t v w w1 sp x : placed t v -> fp w = v_sp v -> fp w1 = itop - 96 -> lo <= sp -> sp + 64 <= itop - 96 -> ~ (lo <= x < itop) -> elsewhere (v_sp v) (v_ws v) x -> beyond sp (w1 :: w :: v_ws v) x.
Proof. clear HN.
  intros Hp Hw Hw1 H1 H2 Hx He. pose proof (sa_irq Hst). split; [lia |]. intros [| [| k]] Hk; cbn; rewrite ?Hw1, ?Hw; unfold in_area; try (rewrite sp_at_0; lia); try lia.
  cbn in Hk. pose proof (He k ltac:(lia)) as Hn. unfold in_area in Hn. exact Hn.
Qed.

Lemma trap_turn V A v v' s ty d (G : nat -> Prop) : ready V A v s -> v_ws v' = v_ws v -> v_sp v' = v_sp v -> placed A v' -> 64 <= size (own d) -> lo <= itop - 96 - size (own d) ->
  (forall sp WW s1, sp = itop - 96 - size (own d) -> layout lo sp WW -> in_c s1 sp WW -> undecided s A (v_sp v - F_BYTES) s1 -> kernels s1 = kernels s -> framed (mem s1) (v_sp v - F_BYTES) v ->
    (forall x, in_frame (v_sp v - F_BYTES) x -> beyond sp WW x) ->
    wp (cyros_sparc_trap_dispatch N d (v_sp v - F_BYTES) ty) (answered A (v_sp v - F_BYTES) sp WW s G v' s1) s1) ->
  wp (trap N ty d) (fun _ s' => kept_state (upd V A v') s' /\ G (running s') /\ (raised s = true -> raised s' = true)) s.
Proof.
  intros Hrd Ews Esp Hp' Hn Hle Hdis. pose proof Hrd as [[m Hr] Hp Hdep Hirq Howed Hsrc Hoth]. pose proof (sa_irq Hst) as [Hi1 Hi2]. set (f := v_sp v - F_BYTES) in *.
  pose proof (placed_sep A v Hp) as Hsep. pose proof (placed_clear A v Hp) as Hcl.
  assert (Hfon : forall x, in_frame f x -> on_stack A x) by (intros x Hx; apply (placed_frame A v f x Hp); [unfold f; lia | exact Hx]).
  assert (Hfel : forall x, in_frame f x -> elsewhere (v_sp v) (v_ws v) x) by (intros x Hx; apply (clear_elsewhere f (v_sp v)); [exact Hcl | unfold in_frame, f, F_BYTES in *; lia]).
  unfold trap. apply wp_bind. eapply wp_mono; [apply (take_trap_spec N HN s ty m v Hr) |]. intros [] s1 (Htw & Hg & E1 & E2 & E3).
  apply wp_bind. eapply (wp_mono _ (fun _ s2 => exists m2, trap_window N s2 ty m2 v /\ globals s2 v /\ core s2 = core s /\ kernels s2 = kernels s /\ forall x, elsewhere (v_sp v) (v_ws v) x -> wd (mem s2) x = wd (mem s) x)).
  { destruct ((ty =? tt_yield) || (ty =? tt_direct_switch)).
    - eapply wp_mono; [apply (yield_entry_spec N HN s1 ty m v Htw Hg Hsep) |]. intros [] s2 (Y1 & Y2 & Y3 & Y4 & Y5). exists 0%nat. split_and!; try congruence; auto. intros x Hx. rewrite Y5, E3 by exact Hx. reflexivity.
    - apply wp_ret. exists m. split_and!; auto. intros x _. rewrite E3. reflexivity. }
  intros [] s2 (m2 & Htw2 & Hg2 & Eco2 & Ek2 & Hm2). eapply (trap_entry_spec N HN s2 ty m2 v); [exact Htw2 | exact Hg2 | exact Hsep | exact Hcl |].
  intros s3 [(m3 & w & Hr3 & H6 & Hfp) He3 Hf3 Hsp3 Eco3 Ek3 Hm3]. fold f in H6, Hf3, Hsp3, Eco3, Hm3.
  unfold handler_sp, counted in Hsp3, Eco3. rewrite Eco2, Hdep in Hsp3, Eco3. change (0 =? 0) with true in Hsp3, Eco3. rewrite Hirq in Hsp3, Eco3. rewrite (proj2 (Z.eqb_neq itop 0)) in Hsp3 by lia. change (0 + 1) with 1 in Eco3.
  assert (Hi3 : in_c s3 (itop - 96) (w :: v_ws v)) by (split; [exists m3; exact Hr3 | exact He3 | exact Hsp3]).
  assert (Ek : kernels s3 = kernels s) by congruence. pose proof Ek as Ek'. unfold kernels in Ek'. injection Ek' as K1 K2 K3 K4.
  assert (Hf0 : f <> 0) by (pose proof (pl_low _ _ Hp); pose proof (sa_low Hst A); unfold f; lia).
  eapply wp_mono; [apply (called_spec N HN lo (own d) _ (fun r s4 => exists u, G u /\ decided s A f u r s4 /\ framed (mem s4) f v' /\ forall t x, t <> A -> on_stack t x -> wd (mem s4) x = wd (mem s) x) s3 (itop - 96) (w :: v_ws v)); [apply (handler_layout A v w Hp Hfp) | exact Hi3 | exact Hn | exact Hle | |] |].
  - intros r a b (A1 & A2 & A3) (u & B1 & [B2 B3 B4 B5 B6 B7 B8] & B9 & B10). unfold kernels in A2. injection A2 as C1 C2 C3 C4. exists u. split; [exact B1 |]. split; [split; rewrite ?A1, ?C1, ?C2, ?C3, ?C4; auto |]. rewrite A3. auto.
  - intros w1 s4 Hfw Hl4 Hi4 Eco4 Ek4 Hm4. pose proof Ek4 as Ek4'. unfold kernels in Ek4'. injection Ek4' as L1 L2 L3 L4.
    assert (Hbey : forall x, ~ (lo <= x < itop) -> elsewhere (v_sp v) (v_ws v) x -> beyond (itop - 96 - size (own d)) (w1 :: w :: v_ws v) x) by (intros x Hx1 Hx2; apply (under_dispatch A v); auto; lia).
    assert (Helse : forall x, ~ (lo <= x < itop) -> elsewhere (v_sp v) (v_ws v) x -> elsewhere (itop - 96) (w :: v_ws v) x).
    { intros x Hx1 Hx2 [| k] Hk; cbn; [unfold in_area; lia |]. rewrite Hfp. apply Hx2. cbn in Hk. lia. }
    assert (Hf4 : framed (mem s4) f v) by (apply (sparc_framed_ext (mem s3)); [| exact Hf3]; intros x Hx; apply Hm4, Helse; [apply (on_thread A), Hfon, Hx | apply Hfel, Hx]).
    assert (Hun : undecided s A f s4) by (split; [congruence | congruence | rewrite L1, K1; exact Hsrc | exact Hf0 | congruence]).
    eapply wp_mono; [apply (Hdis _ (w1 :: w :: v_ws v) s4 eq_refl Hl4 Hi4 Hun); [congruence | exact Hf4 | intros x Hx; apply Hbey; [apply (on_thread A), Hfon, Hx | apply Hfel, Hx]] |].
    intros r s5 (R1 & (u & R2 & R3) & R4 & R5). split; [exact R1 |]. exists u. split; [exact R2 |]. split; [exact R3 |]. split; [exact R4 |].
    intros t x Ht Hx. assert (X1 : ~ (lo <= x < itop)) by (apply (on_thread t), Hx). assert (X2 : elsewhere (v_sp v) (v_ws v) x) by (apply (elsewhere_off A t); auto).
    assert (X3 : ~ in_frame f x) by (intros Hin; apply (on_one A t x); auto).
    rewrite R5, Hm4, Hm3, Hm2; auto.
  - intros r s4 (Hi4 & u & Hu & Hd & Hf4 & Hm4). cbv beta. rewrite <- Ews in Hi4. eapply wp_mono; [apply (sparc_turn V s A f u r v' w s4 Hoth Hp' Hd Hi4 H6); [congruence | exact Hf4 | exact Hm4] |].
    intros [] s5 (T1 & T2 & T3). split; [exact T1 |]. split; [rewrite T2; exact Hu | exact T3].
Qed.
(** ** Every step *)
Definition extent_ok (e : extent) : Prop := 64 <= size e /\ lo <= itop - 96 - size e.
Definition doing_ok (s : cpu) (d : doing) : Prop :=
  extent_ok (own d) /\ rooms lo (known s) (itop - 96 - size (own d)) (before d) /\ rooms lo (known s) (itop - 96 - size (own d)) (behind d) /\ known s (pick d).
Definition at_baseline (s : cpu) : Prop := Z.land (psr s) psr_pil_mask = 0.

(** The registers a switch passes its contexts in. *)
Definition passing (v : view) (A to : nat) : view :=
  View (v_ws v) (Z.lor (v_psr v) pil_irq_bits) (v_pc v) (v_npc v) (v_y v) (v_g v) (fun j => match j with 0%nat => Z.of_nat A | 1%nat => Z.of_nat to | _ => v_o v j end).

(** A thread computes in its window and its own memory, but for the save areas
    of its callers, which are not its to write. *)
Definition computed (v : view) (w : window) (o : gmap nat Z) (g : gmap nat Z) (y p q : Z) : view := View (w :: tail (v_ws v)) (v_psr v) p q y (rg g) (rg o).

Definition enabled (V : nat -> view) (l : label) (s : cpu) : Prop :=
  let A := running s in let v := V A in
  match l with
  | Compute w o g y p q m =>
      placed A (computed v w o g y p q) /\ (forall u, head (v_ws v) = Some u -> fp w = fp u) /\
      (forall t x, t <> A -> on_stack t x -> wd m x = wd (mem s) x) /\
      (forall k x, (1 <= k < length (v_ws v))%nat -> in_area (sp_at (v_sp v) (v_ws v) k) x -> wd m x = wd (mem s) x)
  | SetPil _ | Flush | Raise => True
  | Save n => 64 <= n /\ (stack A).1 + F_BYTES <= v_sp v - n
  | Restore => (2 <= length (v_ws v))%nat
  | Yield d => doing_ok s d /\ at_baseline s
  | Direct e to => extent_ok e /\ known s to /\ at_baseline s
  | Interrupt level e body => extent_ok e /\ rooms lo (known s) (itop - 96 - size e) body /\ 2 <= level <= 15
  | Reschedule d => doing_ok s d /\ at_baseline s /\ raised s = true
  end.

(** What the thread is owed after it, [s'] the state it leaves: a call's window
    and outs are what it finds there. *)
Definition moved (l : label) (A : nat) (v : view) (s' : cpu) : view :=
  match l with
  | Compute w o g y p q _ => computed v w o g y p q
  | SetPil level => View (v_ws v) (Z.lor (Z.ldiff (v_psr v) psr_pil_mask) (Z.shiftl level 8)) (v_pc v) (v_npc v) (v_y v) (v_g v) (v_o v)
  | Save _ => View (wn (file s') (cwp s') :: v_ws v) (v_psr v) (v_pc v) (v_npc v) (v_y v) (v_g v) (outs N s')
  | Restore => match v_ws v with w :: ws => View ws (v_psr v) (v_pc v) (v_npc v) (v_y v) (v_g v) (fun j => rg w (8 + j)) | [] => v end
  | Flush | Yield _ => past v
  | Direct _ to => past (passing v A to)
  | Raise | Interrupt _ _ _ | Reschedule _ => v
  end.

(** A call's ins are its caller's outs, and its stack lies below. *)
Definition called_with (l : label) (v : view) (s' : cpu) : Prop :=
  match l with
  | Save n => (forall j, (j < 8)%nat -> rg (wn (file s') (cwp s')) (8 + j) = v_o v j) /\ outs N s' 6 = v_sp v - n
  | _ => True
  end.

(** Who goes on. *)
Definition goes_to (l : label) (A u : nat) : Prop :=
  match l with
  | Yield d | Reschedule d => u = pick d
  | Direct _ to => u = to
  | Interrupt _ _ _ => True
  | _ => u = A
  end.

Definition follows (V : nat -> view) (s : cpu) (l : label) (s' : cpu) : Prop :=
  kept_state (upd V (running s) (moved l (running s) (V (running s)) s')) s' /\ goes_to l (running s) (running s') /\ called_with l (V (running s)) s' /\
    (raised s = true -> raised s' = true \/ exists d, l = Reschedule d).

Lemma sparc_kept_same V s s' v' : kept_state V s -> core s' = core s -> kernels s' = kernels s -> (exists m, runs s' m v') -> placed (running s) v' ->
  (forall t x, t <> running s -> on_stack t x -> wd (mem s') x = wd (mem s) x) -> kept_state (upd V (running s) v') s' /\ running s' = running s /\ raised s' = raised s.
Proof.
  intros [K1 K2 K3 K4 K5 K6 K7] Ec Ek Hr Hp Hm. unfold kernels in Ek. injection Ek as E1 E2 E3 E4. split; [| auto].
  split; rewrite ?E3, ?sparc_upd_eq, ?Ec, ?E1, ?E2; auto. intros t c Ht Hc. rewrite sparc_upd_ne by exact Ht. destruct (K7 t c Ht Hc) as (H1 & H2 & H3).
  destruct (suspended_ext (mem s) (mem s') t c (V t) H3) as [P1 P2]; [intros x; apply Hm, Ht | auto | auto].
Qed.

Lemma same_follows V s l s' v' : kept_state V s -> core s' = core s -> kernels s' = kernels s -> (exists m, runs s' m v') -> placed (running s) v' ->
  (forall t x, t <> running s -> on_stack t x -> wd (mem s') x = wd (mem s) x) -> v' = moved l (running s) (V (running s)) s' -> goes_to l (running s) (running s) -> called_with l (V (running s)) s' -> follows V s l s'.
Proof.
  intros Hk Ec Ek Hr Hp Hm Hmv Hg Hc. destruct (sparc_kept_same V s s' v' Hk Ec Ek Hr Hp Hm) as (H1 & H2 & H3). unfold follows. rewrite H2, H3, <- Hmv. auto.
Qed.

(** A thread's own area list, one longer. *)
Lemma placed_push t v w o n : placed t v -> fp w = v_sp v -> o 6%nat = v_sp v - n -> 64 <= n -> (stack t).1 + F_BYTES <= v_sp v - n ->
  placed t (View (w :: v_ws v) (v_psr v) (v_pc v) (v_npc v) (v_y v) (v_g v) o).
Proof. clear HN Hst.
  intros Hp Hw Ho Hn Hlow. pose proof Hp as [H1 H2 H3 H4 H5]. split; unfold v_sp in *; cbn [v_ws v_psr v_o length]; [lia | exact H2 | | lia |]; rewrite ?Ho.
  - intros [| i] [| j] Hij; cbn; try lia; rewrite Hw; [pose proof (area_low t v j Hp ltac:(lia)) as Ha; unfold v_sp in Ha; lia | apply H3; lia].
  - intros [| k] Hk; cbn; [specialize (H5 0%nat H1); rewrite sp_at_0 in H5; lia |]. rewrite Hw. apply H5. lia.
Qed.

Lemma placed_pop t v w ws o : placed t v -> v_ws v = w :: ws -> (1 <= length ws)%nat -> o 6%nat = fp w -> placed t (View ws (v_psr v) (v_pc v) (v_npc v) (v_y v) (v_g v) o).
Proof. clear HN Hst.
  intros [H1 H2 H3 H4 H5] E Hl Ho. unfold v_sp in *. rewrite E in *. cbn [length] in *. pose proof (H3 0%nat 1%nat ltac:(lia)) as H01. cbn in H01. rewrite sp_at_0 in H01.
  split; unfold v_sp; cbn [v_ws v_psr v_o]; rewrite ?Ho; [exact Hl | exact H2 | | lia |].
  - intros i j Hij. apply (H3 (S i) (S j)). lia.
  - intros k Hk. apply (H5 (S k)). lia.
Qed.

Lemma placed_same t v p a b y g o : placed t v -> psr_plain p -> o 6%nat = v_sp v -> placed t (View (v_ws v) p a b y g o).
Proof. clear HN Hst. intros [H1 H2 H3 H4 H5] Hp Ho. unfold v_sp in *. split; unfold v_sp; cbn [v_ws v_psr v_o]; rewrite ?Ho; assumption. Qed.
Lemma compute_follows V s w o g y p q m : kept_state V s -> enabled V (Compute w o g y p q m) s -> wp (step N (Compute w o g y p q m)) (fun _ s' => follows V s (Compute w o g y p q m) s') s.
Proof.
  intros Hk (Hp & Hw & Hm1 & Hm2). pose proof (ks_runs _ _ Hk) as [mm Hr]. set (v := V (running s)) in *. apply wp_modify. set (s' := set_file _ _).
  destruct Hr as [[Hc Hm Hwi Hpl Hh] He Hps Hpc Hnpc Hy Hg Ho]. destruct (v_ws v) as [| u ws] eqn:Ews; [pose proof (pl_len _ _ (ks_placed _ _ Hk)) as H; unfold v in Ews; rewrite Ews in H; cbn in H; lia |].
  assert (Hsp : sp_of N s = v_sp v) by (apply (Ho 6%nat); lia). rewrite Hsp in Hh. specialize (Hw u eq_refl).
  assert (Hd : (down N (cwp s) < N)%nat) by (apply down_lt; assumption). assert (Hdc : down N (cwp s) <> cwp s) by (apply down_ne; assumption).
  assert (Ho' : forall j, (j < 8)%nat -> rgw s' (down N (cwp s)) (8 + j) = rg o j).
  { intros j Hj. unfold s'. destruct s; cbn [file set_file set_glob set_yreg set_pcs set_mem cwp]. rewrite reg_insert, Nat.eqb_refl. apply (foldl_regs (rg o)), elem_of_seq. lia. }
  assert (Hw' : forall r, rgw s' (cwp s) r = rg w r).
  { intros r. unfold s'. destruct s; cbn [file set_file set_glob set_yreg set_pcs set_mem cwp] in *. rewrite !reg_insert, Nat.eqb_refl, (proj2 (Nat.eqb_neq _ _)) by auto. reflexivity. }
  assert (Hoth : forall k r, (1 <= k < mm)%nat -> rgw s' (at_ N (cwp s) k) r = rgw s (at_ N (cwp s) k) r).
  { intros k r Hk'. assert (at_ N (cwp s) k <> cwp s) by (rewrite <- (at_0 N HN (cwp s)) at 2 by assumption; intros E; apply at_inj in E; lia).
    assert (at_ N (cwp s) k <> down N (cwp s)) by (rewrite down_at by assumption; intros E; apply at_inj in E; lia).
    unfold s'. destruct s; cbn [file set_file set_glob set_yreg set_pcs set_mem cwp] in *. rewrite !reg_insert, !(proj2 (Nat.eqb_neq _ _)) by assumption. reflexivity. }
  assert (Ecwp : cwp s' = cwp s) by (destruct s; reflexivity). assert (Emem : mem s' = m) by (destruct s; reflexivity).
  assert (Hsp' : sp_of N s' = rg o 6) by (unfold sp_of, get_o; rewrite Ecwp; apply (Ho' 6%nat); lia).
  apply (same_follows V s _ s' (computed v w o g y p q)); [exact Hk | destruct s; reflexivity | destruct s; reflexivity | exists mm | exact Hp | rewrite Emem; exact Hm1 | reflexivity | reflexivity | exact I].
  split; cbn [computed v_ws v_psr v_pc v_npc v_y v_g v_o]; try (destruct s; reflexivity || exact He || exact Hps).
  - unfold v in Ews. fold v in Ews. rewrite Ews. cbn [tail]. split; rewrite ?Ecwp; [exact Hc | exact Hm | destruct s; exact Hwi | destruct s; exact Hpl |]. rewrite Hsp', Emem. destruct Hh as [L1 L2 L3].
    assert (Ea : forall k, sp_at (rg o 6) (w :: ws) (S k) = sp_at (v_sp v) (u :: ws) (S k)) by (intros k; cbn; rewrite Hw; reflexivity).
    split; [exact L1 | |].
    + intros [| k] u' Hk' Hu' j Hj; [injection Hu' as <-; rewrite at_0 by assumption; apply Hw' |]. rewrite Hoth by lia. apply (L2 (S k) u'); assumption.
    + intros [| k] u' Hk' Hu'; [lia |]. rewrite Ea. apply (saved_ext (mem s)); [| apply (L3 (S k)); assumption]. intros x Hx. apply (Hm2 (S k)); [apply lookup_lt_Some in Hu'; cbn in *; lia | exact Hx].
  - intros j Hj. unfold outs. rewrite Ecwp. apply Ho', Hj.
Qed.

Lemma set_pil_follows V s level : kept_state V s -> wp (step N (SetPil level)) (fun _ s' => follows V s (SetPil level) s') s.
Proof.
  intros Hk. pose proof (ks_runs _ _ Hk) as [mm [[Hc Hm Hwi Hpl Hh] He Hps Hpc Hnpc Hy Hg Ho]]. pose proof (ks_placed _ _ Hk) as Hp. apply wp_modify.
  eapply (same_follows V s); [exact Hk | destruct s; reflexivity | destruct s; reflexivity | exists mm | | destruct s; reflexivity | reflexivity | reflexivity | exact I].
  - split; cbn [v_ws v_psr v_pc v_npc v_y v_g v_o]; try (destruct s; assumption); [| destruct s; cbn in *; rewrite <- Hps; reflexivity].
    destruct s. split; try assumption. apply plain_pil, Hpl.
  - apply (placed_same _ _ _ _ _ _ _ _ Hp); [apply plain_pil, Hp | reflexivity].
Qed.

Lemma save_follows V s n : kept_state V s -> enabled V (Save n) s -> wp (step N (Save n)) (fun _ s' => follows V s (Save n) s') s.
Proof.
  intros Hk [Hn Hlow]. pose proof (ks_runs _ _ Hk) as [mm Hr]. pose proof (ks_placed _ _ Hk) as Hp. set (v := V (running s)) in *. pose proof (runs_sp N HN _ _ _ Hr) as Hsp.
  eapply wp_mono; [apply (save_spec N HN s mm (v_ws v) n (ru_rep _ _ _ _ Hr) (ru_et _ _ _ _ Hr)); rewrite Hsp; apply (placed_sep _ _ Hp) |].
  intros [] s' (w & m' & Hr' & Ew & Ho & Hsp' & Hb & Hmem). rewrite Hsp in *. destruct (besides_kernels _ _ Hb) as (E1 & E2 & E3). pose proof (be_others _ _ Hb) as Eo. unfold others in Eo. injection Eo as O1 O2 O3 O4 _ _ _ _ _.
  assert (Hu : u32 (v_sp v - n) = v_sp v - n).
  { apply wrap_small. pose proof (sa_low Hst (running s)). pose proof (pl_high _ _ Hp 0%nat (pl_len _ _ Hp)) as Hh. rewrite sp_at_0 in Hh. pose proof (sa_top Hst (running s)). unfold F_BYTES in *. lia. }
  rewrite Hu in Hsp'. assert (Ho2 : forall j, (j < 8)%nat -> rg w (8 + j) = v_o v j) by (intros j Hj; rewrite Ho by exact Hj; apply Hr; exact Hj).
  eapply (same_follows V s _ s'); [exact Hk | exact E2 | exact E3 | exists m' | | | cbn [moved]; rewrite <- Ew; reflexivity | reflexivity | split; [rewrite <- Ew; exact Ho2 | exact Hsp']].
  - split; cbn [v_ws v_psr v_pc v_npc v_y v_g v_o]; [exact Hr' | rewrite E1; apply Hr | rewrite O1; apply Hr | rewrite O3; apply Hr | rewrite O4; apply Hr | rewrite O2; apply Hr | | auto].
    intros j Hj. rewrite (be_glob _ _ Hb). apply Hr, Hj.
  - apply (placed_push _ _ w _ n Hp); [apply (Ho2 6%nat); lia | exact Hsp' | exact Hn | exact Hlow].
  - intros t x Ht Hx. apply Hmem. apply (elsewhere_off (running s) t); auto.
Qed.

Lemma restore_follows V s : kept_state V s -> enabled V Restore s -> wp (step N Restore) (fun _ s' => follows V s Restore s') s.
Proof.
  intros Hk Hlen. pose proof (ks_runs _ _ Hk) as [mm Hr]. pose proof (ks_placed _ _ Hk) as Hp. cbn in Hlen. set (v := V (running s)) in *.
  destruct (v_ws v) as [| w ws] eqn:Ews; [cbn in Hlen; lia |]. cbn in Hlen. pose proof (ru_rep _ _ _ _ Hr) as Hrep. rewrite Ews in Hrep.
  eapply wp_mono; [apply (restore_spec N HN s mm w ws Hrep (ru_et _ _ _ _ Hr)); lia |].
  intros [] s' (m' & Hr' & Ho & Hb & Hmem). destruct (besides_kernels _ _ Hb) as (E1 & E2 & E3). pose proof (be_others _ _ Hb) as Eo. unfold others in Eo. injection Eo as O1 O2 O3 O4 _ _ _ _ _.
  eapply (same_follows V s _ s'); [exact Hk | exact E2 | exact E3 | exists m' | | intros t x _ _; rewrite Hmem; reflexivity | cbn [moved]; fold v; rewrite Ews; reflexivity | reflexivity | exact I].
  - split; cbn [v_ws v_psr v_pc v_npc v_y v_g v_o]; fold v; [exact Hr' | rewrite E1; apply Hr | rewrite O1; apply Hr | rewrite O3; apply Hr | rewrite O4; apply Hr | rewrite O2; apply Hr | | exact Ho].
    intros j Hj. rewrite (be_glob _ _ Hb). apply Hr, Hj.
  - apply (placed_pop _ v w ws _ Hp Ews); [lia | reflexivity].
Qed.

Lemma flush_follows V s : kept_state V s -> wp (step N Flush) (fun _ s' => follows V s Flush s') s.
Proof.
  intros Hk. pose proof (ks_runs _ _ Hk) as [mm Hr]. pose proof (ks_placed _ _ Hk) as Hp. set (v := V (running s)) in *. pose proof (runs_sp N HN _ _ _ Hr) as Hsp.
  eapply wp_mono; [apply (flush_spec N HN s mm (v_ws v) (ru_rep _ _ _ _ Hr) (ru_et _ _ _ _ Hr)); rewrite Hsp; apply (placed_sep _ _ Hp) |].
  intros [] s' (Hr' & [A1 A2 A3 A4 A5] & Hmem). rewrite Hsp in *. unfold others in A4. cbn in A4. injection A4 as O1 O2 O3 O4 O5 O6 O7 O8 O9.
  apply (same_follows V s _ s' (past v)); [exact Hk | exact O6 | unfold kernels; congruence | exists 1%nat | apply (placed_same _ _ _ _ _ _ _ _ Hp); [apply Hp | reflexivity] | | reflexivity | reflexivity | exact I].
  - split; cbn [past v_ws v_psr v_pc v_npc v_y v_g v_o]; [exact Hr' | rewrite A2; apply Hr | rewrite O1; apply Hr | rewrite O3; apply Hr | rewrite O4; rewrite (ru_npc _ _ _ _ Hr); reflexivity | rewrite O2; apply Hr | |].
    + intros j Hj. rewrite A3. apply Hr, Hj.
    + intros j Hj. unfold outs. rewrite A1. cbn. rewrite A5 by lia. apply Hr, Hj.
  - intros t x Ht Hx. apply Hmem. apply (elsewhere_off (running s) t); auto.
Qed.

Lemma raise_follows V s : kept_state V s -> wp (step N Raise) (fun _ s' => follows V s Raise s') s.
Proof.
  intros Hk. apply wp_modify. split; [| split; [destruct s; reflexivity | split; [exact I | left; destruct s; reflexivity]]]. cbn [moved].
  destruct Hk as [[m Hr] K2 K3 K4 K5 K6 K7]. destruct s. split; cbn [running set_raised] in *; rewrite ?sparc_upd_eq; try assumption.
  - exists m. destruct Hr as [[] R2 R3 R4 R5 R6 R7 R8]. split; try assumption. split; assumption.
  - intros t f Ht Hc. rewrite sparc_upd_ne by exact Ht. apply K7; assumption.
Qed.
(** ** The traps *)
Lemma past_placed t v : placed t v -> placed t (past v).
Proof. clear HN Hst. intros Hp. apply (placed_same _ _ _ _ _ _ _ _ Hp); [apply Hp | reflexivity]. Qed.

Lemma yield_follows V s d : kept_state V s -> enabled V (Yield d) s -> wp (step N (Yield d)) (fun _ s' => follows V s (Yield d) s') s.
Proof.
  intros Hk [([Hn Hle] & Hb & Ha & Hp) Hpil]. pose proof (kept_ready _ _ Hk) as Hrd. cbn [step]. unfold cyros_port_thread_yield.
  apply wp_bind, wp_get, wp_bind, wp_ensure; [rewrite (ks_depth _ _ Hk); reflexivity |]. apply wp_bind, wp_get, wp_bind, wp_ensure; [rewrite Hpil; reflexivity |].
  eapply wp_mono; [apply (trap_turn V (running s) (V (running s)) (past (V (running s))) s tt_yield d (goes (pick d)) Hrd); [reflexivity | reflexivity | apply past_placed, Hk | exact Hn | exact Hle |] |].
  - intros sp WW s1 -> Hl Hi Hu Ek Hf Hfr. unfold kernels in Ek. injection Ek as K1 K2 K3 K4. destruct (ks_owed _ _ Hk) as [O1 O2].
    apply dispatch_yield; try assumption; [exact (ready_frames _ _ _ _ Hrd) | rewrite K2; exact O1 | rewrite K2; exact O2].
  - intros [] s' (T1 & T2 & T3). split; [exact T1 | split; [exact T2 | split; [exact I | auto]]].
Qed.

Lemma interrupt_follows V s level e body : kept_state V s -> enabled V (Interrupt level e body) s -> wp (step N (Interrupt level e body)) (fun _ s' => follows V s (Interrupt level e body) s') s.
Proof.
  intros Hk ([Hn Hle] & Hb & Hlev). pose proof (kept_ready _ _ Hk) as Hrd. cbn [step].
  eapply wp_mono; [apply (trap_turn V (running s) (V (running s)) (V (running s)) s (16 + level) (Doing e body 0 []) (fun _ => True) Hrd); [reflexivity | reflexivity | apply Hk | exact Hn | exact Hle |] |].
  - intros sp WW s1 -> Hl Hi Hu Ek Hf Hfr. unfold kernels in Ek. injection Ek as K1 K2 K3 K4. destruct (ks_owed _ _ Hk) as [O1 O2].
    apply dispatch_interrupt; try assumption; [exact (ready_frames _ _ _ _ Hrd) | rewrite K2; exact O1].
  - intros [] s' (T1 & T2 & T3). split; [exact T1 | split; [exact T2 | split; [exact I | auto]]].
Qed.

(** What the traps leave unread may change before them. *)
Lemma ready_same V A v s s' : ready V A v s -> (exists m, runs s' m v) -> core s' = core s -> decision s' = decision s -> contexts s' = contexts s -> mem s' = mem s -> ready V A v s'.
Proof. intros [] Hr Ec Ed Ex Em. split; try rewrite Ec; try rewrite Ed; try rewrite Ex; auto. intros t f Ht Hf. rewrite Em. rewrite Ex in Hf. eauto. Qed.

Lemma reschedule_follows V s d : kept_state V s -> enabled V (Reschedule d) s -> wp (step N (Reschedule d)) (fun _ s' => follows V s (Reschedule d) s') s.
Proof.
  intros Hk [([Hn Hle] & Hb & Ha & Hp) _]. cbn [step]. apply wp_bind, wp_modify. set (s0 := set_raised false s).
  assert (Hrd : ready V (running s) (V (running s)) s0).
  { pose proof (kept_ready _ _ Hk) as Hr. apply (ready_same _ _ _ s); [exact Hr | | destruct s; reflexivity ..]. destruct Hr as [[m [[] R2 R3 R4 R5 R6 R7 R8]] _ _ _ _ _ _].
    exists m. destruct s. split; try assumption. split; assumption. }
  eapply wp_mono; [apply (trap_turn V (running s) (V (running s)) (V (running s)) s0 (16 + reschedule_level) d (goes (pick d)) Hrd); [reflexivity | reflexivity | apply Hk | exact Hn | exact Hle |] |].
  - intros sp WW s1 -> Hl Hi Hu Ek Hf Hfr. unfold kernels in Ek. injection Ek as K1 K2 K3 K4. destruct (ks_owed _ _ Hk) as [O1 O2]. assert (Ed : decision s1 = decision s) by (rewrite K2; destruct s; reflexivity).
    apply dispatch_reschedule; try assumption; try (destruct s; assumption); [exact (ready_frames _ _ _ _ Hrd) | rewrite Ed; exact O1 | rewrite Ed; exact O2].
  - intros [] s' (T1 & T2 & _). split; [exact T1 | split; [exact T2 | split; [exact I | eauto]]].
Qed.

Lemma plain_irq p : psr_plain p -> psr_plain (Z.lor p pil_irq_bits).
Proof. unfold psr_plain. intros Hp. rewrite Z.land_lor_distr_l, Hp. reflexivity. Qed.

Lemma runs_set_o s m v j x : runs s m v -> (j < 8)%nat -> j <> 6%nat ->
  runs (set_win (down N (cwp s)) (8 + j) x s) m (View (v_ws v) (v_psr v) (v_pc v) (v_npc v) (v_y v) (v_g v) (fun k => if (k =? j)%nat then x else v_o v k)).
Proof.
  intros [[Hc Hm Hw Hp Hh] He Hps Hpc Hnpc Hy Hg Ho] Hj Hj6. destruct s as [t e p wi f g y pc0 npc0 mm ctx co d ru ra]. cbn [cwp file mem wim psr et pc npc yreg glob set_win set_file] in *.
  split; cbn [v_ws v_psr v_pc v_npc v_y v_g v_o cwp file mem wim psr et pc npc yreg glob]; auto.
  - assert (E : reg (setr (down N t) (8 + j) x f) (down N t) 14 = reg f (down N t) 14) by (rewrite reg_setr, (proj2 (Nat.eqb_neq 14 (8 + j))), andb_false_r by lia; reflexivity).
    eapply rep_intro; [reflexivity | reflexivity | reflexivity | reflexivity | reflexivity | reflexivity | exact Hc | exact Hm | exact Hw | exact Hp |]. change (holds N (reg (setr (down N t) (8 + j) x f)) t m mm (reg (setr (down N t) (8 + j) x f) (down N t) 14) (v_ws v)). rewrite E.
    eapply holds_file_ext; [| exact Hh]. intros k r Hk Hr. rewrite reg_setr, (proj2 (Nat.eqb_neq _ _)); [reflexivity |]. rewrite down_at by assumption. intros E2. apply at_inj in E2; lia.
  - intros k Hk. change (reg (setr (down N t) (8 + j) x f) (down N t) (8 + k) = if (k =? j)%nat then x else v_o v k). rewrite reg_setr, Nat.eqb_refl. cbn [andb]. destruct (Nat.eqb_spec k j) as [-> | Hne]; [rewrite Nat.eqb_refl; reflexivity |].
    rewrite (proj2 (Nat.eqb_neq _ _)) by lia. apply Ho, Hk.
Qed.

Lemma runs_ext s m v v' : runs s m v -> v_ws v' = v_ws v -> v_psr v' = v_psr v -> v_pc v' = v_pc v -> v_npc v' = v_npc v -> v_y v' = v_y v -> (forall j, v_g v' j = v_g v j) -> (forall j, (j < 8)%nat -> v_o v' j = v_o v j) -> runs s m v'.
Proof. intros [] E1 E2 E3 E4 E5 E6 E7. split; rewrite ?E1, ?E2, ?E3, ?E4, ?E5; auto; intros j Hj; [rewrite E6 | rewrite E7]; auto. Qed.

Lemma direct_follows V s e to : kept_state V s -> enabled V (Direct e to) s -> wp (step N (Direct e to)) (fun _ s' => follows V s (Direct e to) s') s.
Proof.
  intros Hk ([Hn Hle] & Hto & Hpil). pose proof (kept_ready _ _ Hk) as Hrd. destruct (rd_runs _ _ _ _ Hrd) as [m Hr]. set (A := running s) in *. set (v := V A) in *.
  assert (Htok : Z.land (psr s) pil_irq_bits = 0) by (change pil_irq_bits with (Z.land psr_pil_mask pil_irq_bits); rewrite Z.land_assoc; unfold at_baseline in Hpil; rewrite Hpil; reflexivity).
  assert (Hpre : Z.land (Z.lor (psr s) pil_irq_bits) pil_preempt_bits = 0).
  { rewrite Z.land_lor_distr_l. change (Z.land pil_irq_bits pil_preempt_bits) with 0. rewrite Z.lor_0_r. change pil_preempt_bits with (Z.land psr_pil_mask pil_preempt_bits). rewrite Z.land_assoc. unfold at_baseline in Hpil. rewrite Hpil. reflexivity. }
  cbn [step]. apply wp_bind. unfold cyros_port_irq_save. apply wp_bind, wp_get, wp_bind, wp_modify, wp_ret. rewrite Htok.
  apply wp_bind. unfold cyros_port_masked_from_baseline. apply wp_bind, wp_get, wp_ret. apply wp_bind, wp_ensure.
  { unfold id. replace (depth (core _)) with 0 by (destruct s; symmetry; apply Hk). replace (psr (set_psr _ s)) with (Z.lor (psr s) pil_irq_bits) by (destruct s; reflexivity). rewrite Hpre. reflexivity. }
  apply wp_bind, wp_get. replace (running (set_psr (Z.lor (psr s) pil_irq_bits) s)) with A by (destruct s; reflexivity). apply wp_bind, wp_modify. unfold cyros_port_direct_switch. apply wp_bind, wp_modify, wp_bind, wp_modify.
  set (sa := set_running to _). set (sb := set_win _ _ _ sa). set (sc := set_win _ _ _ sb).
  set (va := View (v_ws v) (Z.lor (v_psr v) pil_irq_bits) (v_pc v) (v_npc v) (v_y v) (v_g v) (v_o v)).
  assert (Hra : runs sa m va).
  { pose proof Hr as [[R1a R1b R1c R1d R1e] R2 R3 R4 R5 R6 R7 R8]. destruct s. split; cbn in *; try assumption; [| congruence]. split; try assumption. apply plain_irq, R1d. }
  pose proof (runs_set_o sa m va 0 (Z.of_nat A) Hra ltac:(lia) ltac:(lia)) as Hrb. fold sb in Hrb. pose proof (runs_set_o sb m _ 1 (Z.of_nat to) Hrb ltac:(lia) ltac:(lia)) as Hrc. fold sc in Hrc.
  assert (Hrv : runs sc m (passing v A to)).
  { eapply runs_ext; [exact Hrc | reflexivity .. | reflexivity |]. intros [| [| j]] _; reflexivity. }
  assert (Es : core sc = core s /\ decision sc = decision s /\ contexts sc = contexts s /\ mem sc = mem s /\ running sc = to /\ raised sc = raised s) by (destruct s; repeat split). destruct Es as (E1 & E2 & E3 & E4 & E5 & E6).
  assert (Hpv : placed A (passing v A to)) by (apply (placed_same _ v _ _ _ _ _ _); [apply Hk | apply plain_irq, Hk | reflexivity]).
  assert (Hrd' : ready V A (passing v A to) sc).
  { destruct Hrd as [D1 D2 D3 D4 D5 D6 D7]. split; rewrite ?E1, ?E2, ?E3; [exists m; exact Hrv | exact Hpv | exact D3 | exact D4 | exact D5 | exact D6 |]. intros t c Ht Hc. rewrite E4. rewrite E3 in Hc. apply D7; assumption. }
  eapply wp_mono; [apply (trap_turn V A (passing v A to) (past (passing v A to)) sc tt_direct_switch (Doing e [] 0 []) (goes to) Hrd'); [reflexivity | reflexivity | apply past_placed, Hpv | exact Hn | exact Hle |] |].
  - intros sp WW s1 -> Hl Hi Hu Ek Hf Hfr. unfold kernels in Ek. injection Ek as K1 K2 K3 K4. destruct (ks_owed _ _ Hk) as [O1 O2].
    apply dispatch_direct; try assumption; [exact (ready_frames _ _ _ _ Hrd') | congruence | congruence | reflexivity | reflexivity].
  - intros [] s' (T1 & T2 & T3). split; [exact T1 | split; [exact T2 | split; [exact I | rewrite E6 in T3; auto]]].
Qed.

Lemma sparc_step_follows V s l : kept_state V s -> enabled V l s -> wp (step N l) (fun _ s' => follows V s l s') s.
Proof.
  intros Hk He. destruct l; [apply compute_follows | apply set_pil_follows | apply save_follows | apply restore_follows | apply flush_follows | apply raise_follows | apply yield_follows | apply direct_follows | apply interrupt_follows | apply reschedule_follows]; assumption.
Qed.
(** ** Runs *)
Definition leave (V : nat -> view) (s : cpu) (l : label) (s' : cpu) : nat -> view := upd V (running s) (moved l (running s) (V (running s)) s').

Inductive ran : (nat -> view) -> cpu -> list label -> (nat -> view) -> cpu -> Prop :=
  | ran_none V s : ran V s [] V s
  | ran_step V s l s' ls W s'' : enabled V l s -> step N l s = Ok (tt, s') -> ran (leave V s l s') s' ls W s'' -> ran V s (l :: ls) W s''.

Lemma sparc_ran_kept V s ls W s' : ran V s ls W s' -> kept_state V s -> kept_state W s'.
Proof.
  induction 1 as [| V s l s1 ls W s' He Hs Hr IH]; intros Hk; [exact Hk |]. apply IH.
  pose proof (sparc_step_follows V s l Hk He) as Hf. unfold wp in Hf. rewrite Hs in Hf. apply Hf.
Qed.

(** ** The first thread *)

(** Before it, on the stack that the handlers get. *)
Record prepared (V : nat -> view) (s : cpu) : Prop := {
  pr_cwp : (cwp s < N)%nat;
  pr_et : et s = true;
  pr_plain : psr_plain (psr s);
  pr_stack : Z.ldiff (sp_of N s) 7 = itop;
  pr_owed : owed_to (decision s) = None /\ outer_interrupt (decision s) = false;
  pr_frames t f : contexts s !! t = Some f -> framed (mem s) f (V t) /\ all_saved (mem s) (V t) /\ placed t (V t)
}.

Lemma sparc_start_first_spec V s : prepared V s -> is_Some (contexts s !! running s) -> wp (cyros_port_start_first N (running s)) (fun _ s' => kept_state V s' /\ running s' = running s) s.
Proof.
  intros [Hc He Hp Hst' Ho Hf] [f Hcx]. destruct (Hf _ _ Hcx) as (F1 & F2 & F3). assert (Hf0 : 0 < f) by (pose proof (pl_low _ _ F3); pose proof (sa_low Hst (running s)); pose proof (fr_sp _ _ _ F1); lia).
  unfold cyros_port_start_first. apply wp_bind. unfold wp at 1, get_context. rewrite Hcx. apply wp_bind, wp_ensure; [apply negb_true_iff, Z.eqb_neq; lia |]. apply wp_bind, wp_get. unfold id. rewrite Hst'.
  destruct s as [t e p w fl g y pc0 npc0 mm ctx co d ru ra]. cbn in Hc, He, Hp, Ho, Hcx, Hf0, F1, F2, F3. cbn [contexts mem running] in Hf. subst e.
  do 3 instr. change (Z.lor p (Z.lor (Z.of_nat t) psr_et)) with (psr_value p t true). rewrite psr_no_et by (assumption || lia).
  apply wp_bind, wp_wr_psr; [exact Hp | lia |]. fields. instr. rewrite psr_cwp by (assumption || lia).
  eapply wp_mono; [apply (trap_fill_spec N HN _ f (V ru)) |].
  - split; cbn [cwp et psr file mem]; try assumption; [reflexivity | apply F3 | regs; reflexivity].
  - cbn [glob cwp]. regs. reflexivity.
  - apply F3.
  - exact F2.
  - intros [] s2 (R1 & R2 & R3 & R4). cbn [core mem] in R2, R4. unfold kernels in R3. cbn in R3. injection R3 as K1 K2 K3 K4. assert (Er : running s2 = ru) by exact K3. split; [| exact Er].
    split; rewrite ?Er, ?R2, ?K1, ?K2; auto.
    + exists 1%nat. exact R1.
    + cbn in *. exists f. split; [exact Hcx | lia].
    + intros t' f' _ Ht'. rewrite R4. apply Hf, Ht'.
Qed.
End threads.

(** ** A thread's first frame *)
Section first.
Definition sp_of_stack (base size : Z) : Z := Z.ldiff (base + size) 7 - 96.

(** The stack the call is given has room for all of it. *)
Definition fits (base size entry : Z) : Prop := base <> 0 /\ entry <> 0 /\ 256 <= size /\ base < sp_of_stack base size - F_BYTES.

Definition first_view (base size entry arg return_trap : Z) : view :=
  View [∅] (Z.lor psr_s psr_ps) entry (u32 (entry + 4)) 0 (fun _ => 0)
    (fun j => match j with 0%nat => arg | 6%nat => sp_of_stack base size | 7%nat => u32 (return_trap - 8) | _ => 0 end).

Lemma sparc_wd_zero f m n : forall k, (k < n)%nat -> wd (zero_words f n m) (f + 4 * Z.of_nat k) = 0.
Proof.
  induction n as [| n IH]; intros k Hk; [lia |]. cbn [zero_words]. rewrite sparc_wd_insert. destruct (Z.eqb_spec (f + 4 * Z.of_nat k) (f + 4 * Z.of_nat n)); [reflexivity |].
  apply IH. lia.
Qed.

Lemma sparc_wd_zero_out f m a n : ~ (f <= a < f + 4 * Z.of_nat n) -> wd (zero_words f n m) a = wd m a.
Proof.
  induction n as [| n IH]; intros Ha; [reflexivity |]. cbn [zero_words]. rewrite sparc_wd_insert, (proj2 (Z.eqb_neq _ _)) by lia. apply IH. lia.
Qed.

(** What [cyros_port_context_init] writes. *)
Definition first_words (sp entry arg rt : Z) (m : gmap Z Z) : gmap Z Z :=
  let f := sp - F_BYTES in
  <[f + F_O0 + 28 := u32 (rt - 8)]> (<[f + F_O0 + 24 := sp]> (<[f + F_O0 := arg]> (<[f + F_NPC := u32 (entry + 4)]> (<[f + F_PC := entry]> (<[f + F_PSR := Z.lor psr_s psr_ps]> (zero_words f 20 (zero_words sp 24 m))))))).

Lemma first_words_out sp entry arg rt m x : ~ (sp - F_BYTES <= x < sp + 96) -> wd (first_words sp entry arg rt m) x = wd m x.
Proof.
  intros Hx. unfold first_words, F_BYTES, F_O0, F_NPC, F_PC, F_PSR in *. rewrite !sparc_wd_insert, !(proj2 (Z.eqb_neq _ _)) by lia. rewrite !sparc_wd_zero_out by lia. reflexivity.
Qed.

Lemma first_words_saved sp entry arg rt m v : v = ∅ -> saved (first_words sp entry arg rt m) sp v.
Proof.
  intros -> j Hj. unfold first_words, F_BYTES, F_O0, F_NPC, F_PC, F_PSR. rewrite !sparc_wd_insert, !(proj2 (Z.eqb_neq _ _)) by lia. rewrite sparc_wd_zero_out by lia. rewrite sparc_wd_zero by lia. unfold rg. rewrite lookup_empty. reflexivity.
Qed.

Lemma first_words_framed base size entry arg rt m : framed (first_words (sp_of_stack base size) entry arg rt m) (sp_of_stack base size - F_BYTES) (first_view base size entry arg rt).
Proof.
  set (sp := sp_of_stack base size). unfold first_words. set (f := sp - F_BYTES).
  assert (Hz : forall n, (n < 20)%nat -> wd (zero_words f 20 (zero_words sp 24 m)) (f + 4 * Z.of_nat n) = 0) by (intros n Hn; apply sparc_wd_zero, Hn).
  unfold F_PSR, F_PC, F_NPC, F_Y, F_G0, F_O0.
  split; unfold F_PSR, F_PC, F_NPC, F_Y, F_G0, F_O0; cbn [first_view v_psr v_pc v_npc v_y v_g v_o].
  - rewrite !sparc_wd_insert. rewrite Z.eqb_refl, !(proj2 (Z.eqb_neq _ _)) by lia. reflexivity.
  - rewrite !sparc_wd_insert. rewrite Z.eqb_refl, !(proj2 (Z.eqb_neq _ _)) by lia. reflexivity.
  - rewrite !sparc_wd_insert. rewrite Z.eqb_refl, !(proj2 (Z.eqb_neq _ _)) by lia. reflexivity.
  - rewrite !sparc_wd_insert, !(proj2 (Z.eqb_neq _ _)) by lia. apply (Hz 3%nat). lia.
  - intros j Hj. rewrite !sparc_wd_insert, !(proj2 (Z.eqb_neq _ _)) by lia. replace (f + 16 + 4 * Z.of_nat j) with (f + 4 * Z.of_nat (4 + j)) by lia. apply Hz. lia.
  - intros j Hj. assert (Hz' : wd (zero_words f 20 (zero_words sp 24 m)) (f + 48 + 4 * Z.of_nat j) = 0) by (replace (f + 48 + 4 * Z.of_nat j) with (f + 4 * Z.of_nat (12 + j)) by lia; apply Hz; lia).
    rewrite !sparc_wd_insert, Hz'. do 8 (destruct j as [| j]; [repeat match goal with |- context [?a =? ?b] => destruct (Z.eqb_spec a b); try (exfalso; lia) end; reflexivity |]). lia.
  - unfold v_sp. cbn. fold sp. unfold f. lia.
Qed.

(** A context made: its frame and its first window at the stack's top. *)
Record made (t : nat) (base size entry arg rt : Z) (s s' : cpu) : Prop := {
  ma_framed : framed (mem s') (sp_of_stack base size - F_BYTES) (first_view base size entry arg rt);
  ma_saved : all_saved (mem s') (first_view base size entry arg rt);
  ma_out x : ~ (sp_of_stack base size - F_BYTES <= x < base + size) -> wd (mem s') x = wd (mem s) x;
  ma_rest : s' = set_contexts (<[t := sp_of_stack base size - F_BYTES]> (contexts s)) (set_mem (mem s') s)
}.

Lemma stack_geometry base size : 0 <= base -> 256 <= size -> base + size < 2 ^ 32 ->
  u32 (base + size) = base + size /\ u32 (Z.ldiff (base + size) 7 - 96) = sp_of_stack base size /\ u32 (sp_of_stack base size - F_BYTES) = sp_of_stack base size - F_BYTES /\
  0 <= sp_of_stack base size - F_BYTES /\ sp_of_stack base size + 96 <= base + size /\ sp_of_stack base size mod 8 = 0.
Proof.
  intros Hb Hs Hle. unfold sp_of_stack, F_BYTES.
  assert (E : Z.ldiff (base + size) 7 = 8 * ((base + size) / 8)) by (change 7 with (Z.ones 3); rewrite Z.ldiff_ones_r, Z.shiftl_mul_pow2, Z.shiftr_div_pow2 by lia; change (2 ^ 3) with 8; lia).
  rewrite E. split_and!; try (apply wrap_small); Z.div_mod_to_equations; lia.
Qed.

Lemma sparc_context_init_spec s t base size entry arg rt : 0 <= base -> base + size < 2 ^ 32 -> fits base size entry ->
  wp (cyros_port_context_init t base size entry arg rt) (fun _ s' => made t base size entry arg rt s s') s.
Proof.
  intros Hb Hle (F1 & F2 & F3 & F4). destruct (stack_geometry base size Hb F3 Hle) as (G1 & G2 & G3 & G4 & G5 & G6). set (sp := sp_of_stack base size) in *.
  unfold cyros_port_context_init. rewrite G1. change min_frame_bytes with 96. rewrite G2, G3. change (96 + 2 * F_BYTES) with 256.
  apply wp_bind, wp_ensure; [apply negb_true_iff, Z.eqb_neq, F1 |]. apply wp_bind, wp_ensure; [apply negb_true_iff, Z.eqb_neq, F2 |].
  apply wp_bind, wp_ensure; [apply Z.leb_le, F3 |]. apply wp_bind, wp_ensure; [apply Z.ltb_lt, F4 |].
  do 8 apply wp_bind, wp_modify. apply wp_modify. match goal with |- made _ _ _ _ _ _ _ ?s' => set (s1 := s') end.
  assert (E : mem s1 = first_words sp entry arg rt (mem s)) by (destruct s; reflexivity).
  split; rewrite ?E; [apply first_words_framed | | | destruct s; reflexivity].
  - intros [| k] u Hu; [injection Hu as <-; apply first_words_saved; reflexivity | destruct k; discriminate].
  - intros x Hx. fold sp in Hx. apply first_words_out. lia.
Qed.

Lemma init_made s t base size entry arg rt : 0 <= base -> base + size < 2 ^ 32 -> fits base size entry -> exists s', cyros_port_context_init t base size entry arg rt s = Ok (tt, s') /\ made t base size entry arg rt s s'.
Proof.
  intros Hb Hle Hf. pose proof (sparc_context_init_spec s t base size entry arg rt Hb Hle Hf) as H. unfold wp in H.
  destruct (cyros_port_context_init _ _ _ _ _ _ _) as [[[] s'] |]; [| destruct H]. exists s'. split; [reflexivity | exact H].
Qed.

Lemma sparc_context_init_refuses s t base size entry arg rt : 0 <= base -> base + size < 2 ^ 32 -> 0 <= size -> ~ fits base size entry ->
  cyros_port_context_init t base size entry arg rt s = Panic assert_failed.
Proof.
  intros Hb Hle Hs Hn. unfold cyros_port_context_init, kensure, kbind. change (min_frame_bytes + 2 * F_BYTES) with 256.
  destruct (Z.eqb_spec base 0) as [| F1]; [reflexivity |]. destruct (Z.eqb_spec entry 0) as [| F2]; [reflexivity |]. cbn [negb].
  destruct (Z.leb_spec 256 size) as [F3 |]; [| reflexivity]. destruct (stack_geometry base size Hb F3 Hle) as (G1 & G2 & G3 & G4 & G5 & G6).
  rewrite G1. change min_frame_bytes with 96. rewrite G2, G3. destruct (Z.ltb_spec base (sp_of_stack base size - F_BYTES)) as [F4 |]; [| reflexivity].
  exfalso. apply Hn. split_and!; assumption.
Qed.
End first.

(** Made one after the other, the contexts are all ready. *)
Lemma sparc_made_prepared N lo itop stack V s s' t base size entry arg rt : (4 <= N <= 32)%nat -> stacks_apart lo itop stack -> prepared N itop stack V s -> made t base size entry arg rt s s' ->
  (stack t).1 <= sp_of_stack base size - F_BYTES -> base + size <= (stack t).2 -> sp_of_stack base size + 96 <= base + size ->
  prepared N itop stack (upd V t (first_view base size entry arg rt)) s'.
Proof.
  intros HN Hst [P1 P2 P3 P4 P5 P6] [M1 M2 M3 M4] Hlow Hhigh Hsz.
  assert (E : cwp s' = cwp s /\ et s' = et s /\ psr s' = psr s /\ sp_of N s' = sp_of N s /\ decision s' = decision s /\ contexts s' = <[t := sp_of_stack base size - F_BYTES]> (contexts s)) by (rewrite M4; destruct s; repeat split).
  destruct E as (E1 & E2 & E3 & E4 & E5 & E6). split; rewrite ?E1, ?E2, ?E3, ?E4, ?E5; auto. rewrite E6. intros u f Hu. destruct (decide (u = t)) as [-> | Hne].
  - rewrite lookup_insert_eq in Hu. injection Hu as <-. rewrite sparc_upd_eq. split; [exact M1 |]. split; [exact M2 |].
    split; cbn [first_view v_ws v_psr length]; [lia | reflexivity | intros; lia | unfold v_sp; cbn; unfold F_BYTES in *; lia |].
    intros k Hk. assert (k = 0%nat) by lia. subst k. unfold v_sp. cbn. lia.
  - rewrite lookup_insert_ne in Hu by auto. rewrite sparc_upd_ne by exact Hne. destruct (P6 u f Hu) as (H1 & H2 & H3).
    destruct (suspended_ext stack (mem s) (mem s') u f (V u) H3) as [Q1 Q2]; [| auto | auto].
    intros x Hx. apply M3. intros Hin. apply (on_one lo itop stack Hst u t x Hne Hx). unfold on_stack. lia.
Qed.

(** ** The properties *)

(** C18: a thread goes on where it was left, with all its windows.  From
    [cyros_port_start_first] on, however deep the calls of the threads and of
    the handlers that interrupt them, and whatever the window traps spilled and
    filled: the thread the kernel picks, by a yield, a reschedule, a direct
    switch or a wake in an interrupt's handler, nested or not, is resumed with
    the windows, the outs, the globals, the Y, the PSR and the PCs it was left
    with, past its trap instruction if that is what took it; every other thread
    stays in its frame and its save areas; a reschedule that was asked for is
    not lost; and none of it fails or meets a trap with traps off. *)
Theorem sparc_threads_go_on (N : nat) (lo itop : Z) (stack : nat -> Z * Z) (V : nat -> view) (s : cpu) :
  (4 <= N <= 32)%nat -> stacks_apart lo itop stack -> prepared N itop stack V s -> is_Some (contexts s !! running s) ->
  exists s1, cyros_port_start_first N (running s) s = Ok (tt, s1) /\ kept_state N itop stack V s1 /\ running s1 = running s /\
    forall ls W s', ran N lo itop stack V s1 ls W s' -> kept_state N itop stack W s' /\
      forall l, enabled lo itop stack W l s' -> exists s'', step N l s' = Ok (tt, s'') /\ follows N itop stack W s' l s''.
Proof.
  intros HN Hst Hp Hc. pose proof (sparc_start_first_spec N HN lo itop stack Hst V s Hp Hc) as Hs. unfold wp in Hs. destruct (cyros_port_start_first N (running s) s) as [[[] s1] |]; [| destruct Hs].
  destruct Hs as [Hk Hr]. exists s1. split; [reflexivity |]. split; [exact Hk |]. split; [exact Hr |]. intros ls W s' Hran. pose proof (sparc_ran_kept N HN lo itop stack Hst V s1 ls W s' Hran Hk) as Hk'.
  split; [exact Hk' |]. intros l He. pose proof (sparc_step_follows N HN lo itop stack Hst W s' l Hk' He) as Hf. unfold wp in Hf.
  destruct (step N l s') as [[[] s''] |]; [| destruct Hf]. exists s''. split; [reflexivity | exact Hf].
Qed.

(** [cyros_port_context_init] refuses a stack that has no room, and makes of
    any other a thread to start: its frame and its first window, all zero, at
    the stack's 8-aligned top, and nothing else touched. *)
Theorem sparc_first_frame (s : cpu) (t : nat) (base size entry arg rt : Z) :
  0 <= base -> 0 <= size -> base + size < 2 ^ 32 ->
  (fits base size entry -> exists s', cyros_port_context_init t base size entry arg rt s = Ok (tt, s') /\ made t base size entry arg rt s s') /\
  (~ fits base size entry -> cyros_port_context_init t base size entry arg rt s = Panic assert_failed).
Proof.
  intros Hb Hs Hle. split; [apply init_made | apply sparc_context_init_refuses]; assumption.
Qed.

(** ** An example: two threads on eight windows *)
Definition after {A} (m : M cpu A) (s : cpu) : cpu := match m s with Ok (_, s') => s' | Panic _ => s end.

Definition blank : cpu := Cpu 3 true 192 1 (setr 2 14 16384 ∅) ∅ 0 0 0 ∅ ∅ (CoreState 0 0 0) (Decision None None false) 0 false.
Definition nowhere : nat -> view := fun _ => View [] 0 0 0 0 (fun _ => 0) (fun _ => 0).
Definition two_stacks (t : nat) : Z * Z := match t with 0%nat => (20480, 24576) | 1%nat => (24576, 28672) | _ => (1, 0) end.

Definition init0 : M cpu unit := cyros_port_context_init 0 20480 4096 512 7 256.
Definition init1 : M cpu unit := cyros_port_context_init 1 24576 4096 640 9 256.
Definition two_threads : cpu := after init1 (after init0 blank).
Definition two_views : nat -> view := upd (upd nowhere 0 (first_view 20480 4096 512 7 256)) 1 (first_view 24576 4096 640 9 256).
Definition started : cpu := after (cyros_port_start_first 8 0) two_threads.

Definition some_extent : extent := Extent 96 (<[1%nat := 5]> ∅).
Definition picking (u : nat) : doing := Doing some_extent [Call some_extent []] u [].

(** Thread 0 calls nine deep and yields to thread 1, which calls and switches
    back; 0 returns from four; then an interrupt, in whose handler another
    nests, which wakes 1. *)
Definition some_labels : list label :=
  replicate 9 (Save 96) ++ [Yield (picking 1); Save 96; Direct some_extent 0] ++ replicate 4 Restore ++
  [Flush; Interrupt 5 some_extent [Call some_extent [Nest 7 some_extent [Wake 1]]; Pend]].

Definition passed (n : nat) : cpu := foldl (fun s l => after (step 8 l) s) started (take n some_labels).

Lemma sparc_two_stacks_apart : stacks_apart 8192 16384 two_stacks.
Proof.
  split; [lia | | | |].
  - intros [| [| t]]; cbn; lia.
  - intros [| [| t]]; cbn; lia.
  - intros [| [| t]] [| [| u]] Hne; cbn; try lia; destruct (Hne eq_refl).
  - intros [| [| t]]; cbn; lia.
Qed.

Ltac evaluated := apply (bool_decide_unpack _); vm_compute; exact I.

Lemma sparc_two_prepared : prepared 8 16384 two_stacks two_views two_threads.
Proof.
  assert (Hb : prepared 8 16384 two_stacks nowhere blank) by (split; [evaluated | reflexivity | reflexivity | reflexivity | split; reflexivity | intros t f; cbn; rewrite lookup_empty; discriminate]).
  assert (F0 : fits 20480 4096 512) by (split_and!; evaluated). assert (F1 : fits 24576 4096 640) by (split_and!; evaluated).
  destruct (init_made blank 0 20480 4096 512 7 256 ltac:(lia) ltac:(lia) F0) as (s0 & E0 & M0).
  destruct (init_made s0 1 24576 4096 640 9 256 ltac:(lia) ltac:(lia) F1) as (s1 & E1 & M1).
  assert (Es : two_threads = s1) by (unfold two_threads, after, init0, init1; rewrite E0, E1; reflexivity). rewrite Es.
  eapply (sparc_made_prepared 8 8192 16384 two_stacks _ s0); [lia | exact sparc_two_stacks_apart | | exact M1 | evaluated | evaluated | evaluated].
  eapply (sparc_made_prepared 8 8192 16384 two_stacks _ blank); [lia | exact sparc_two_stacks_apart | exact Hb | exact M0 | evaluated | evaluated | evaluated].
Qed.

Ltac allowed := unfold enabled, doing_ok, extent_ok, picking; cbn [own before behind pick rooms room]; split_and?; first [exact I | evaluated].
Ltac stepped n := apply (ran_step _ _ _ _ _ _ _ (passed n)); [allowed | vm_compute; reflexivity |].

Lemma sparc_threads_go_on_witness :
  exists s1 W, cyros_port_start_first 8 0 two_threads = Ok (tt, s1) /\ ran 8 8192 16384 two_stacks two_views s1 some_labels W (passed 18) /\
    kept_state 8 16384 two_stacks W (passed 18) /\ running (passed 18) = 1%nat /\ length (v_ws (W 0%nat)) = 6%nat /\ v_pc (W 0%nat) = 520.
Proof.
  assert (Hr : exists W, ran 8 8192 16384 two_stacks two_views started some_labels W (passed 18) /\ length (v_ws (W 0%nat)) = 6%nat /\ v_pc (W 0%nat) = 520).
  { eexists. split; [| split].
    - change some_labels with [Save 96; Save 96; Save 96; Save 96; Save 96; Save 96; Save 96; Save 96; Save 96; Yield (picking 1); Save 96; Direct some_extent 0; Restore; Restore; Restore; Restore; Flush;
        Interrupt 5 some_extent [Call some_extent [Nest 7 some_extent [Wake 1]]; Pend]].
      stepped 1%nat. stepped 2%nat. stepped 3%nat. stepped 4%nat. stepped 5%nat. stepped 6%nat. stepped 7%nat. stepped 8%nat. stepped 9%nat. stepped 10%nat.
      stepped 11%nat. stepped 12%nat. stepped 13%nat. stepped 14%nat. stepped 15%nat. stepped 16%nat. stepped 17%nat. stepped 18%nat. apply ran_none.
    - vm_compute. reflexivity.
    - vm_compute. reflexivity. }
  destruct Hr as (W & Hr & Hl & Hw).
  destruct (sparc_threads_go_on 8 8192 16384 two_stacks two_views two_threads ltac:(lia) sparc_two_stacks_apart sparc_two_prepared ltac:(evaluated)) as (s1 & E1 & _ & _ & Hgo).
  assert (Es : s1 = started) by (unfold started, after; change (running two_threads) with 0%nat in E1; rewrite E1; reflexivity). subst s1.
  exists started, W. split; [exact E1 |]. split; [exact Hr |]. split; [exact (proj1 (Hgo _ _ _ Hr)) |]. split; [vm_compute; reflexivity |]. split; assumption.
Defined.

Lemma sparc_first_frame_witness : exists s', init0 blank = Ok (tt, s') /\ made 0 20480 4096 512 7 256 blank s'.
Proof. apply (proj1 (sparc_first_frame blank 0 20480 4096 512 7 256 ltac:(lia) ltac:(lia) ltac:(lia))). split_and!; evaluated. Defined.
