(* ===== verification/CoopSwitch.v ===== *)
(** * How the cooperative Linux port switches: port_linux_coop.cpp

    A core is a pthread; its scheduler, its threads and the pthread's own stack
    are contexts that jump to one another.  Jumping is Boost.Context's, here the
    class [Fcontext] with the laws its documentation states.  What a jump leaves
    behind is where in this file it was made ([site]); what it enters goes on
    there.

    [CoopSwitch] is one core's switching, from [start_scheduler] to its return.
    Its state is its own; what cores share is changed by others too ([Elsewhere]).
    The kernel's choices are arguments, and between its calls of the port it
    changes nothing of this.  [CoopIdle] is one core's [cyros_port_idle] against
    any number of [cyros_port_send_reschedule_ipi]s to it, an access at a time,
    over the mutex and the condition variable of the class [Pthread].

    Not modelled: ThreadSanitizer's fibers, the guard page's [mprotect], creating
    and joining the pthreads. *)

From S2P Require Import Prelude.
Local Open Scope Z_scope.

Module CoopSwitch.
(** ** Contexts *)

(** Whose stack. *)
Inductive fiber := os | scheduler | thread (t : nat).

(** Where a context goes on: at its entry, or after the jump it made. *)
Inductive site :=
  | at_scheduler_trampoline
  | at_thread_trampoline
  | in_start_scheduler
  | in_scheduler_trampoline
  | in_switch_to_scheduler_context
  | in_cyros_port_switch
  | in_cyros_port_direct_switch.

#[global] Instance fiber_eq_dec : EqDecision fiber.
Proof. solve_decision. Defined.
#[global] Instance site_eq_dec : EqDecision site.
Proof. solve_decision. Defined.

(** [make_fcontext] and [jump_fcontext]; [resumes] is what a handle stands for.
    A handle is spent by the jump to it, and may come again. *)
Class Fcontext := {
  fcontext_t : Type;
  stacks : Type;
  resumes : stacks -> fcontext_t -> option (fiber * site);
  make_fcontext : fiber -> site -> stacks -> fcontext_t * stacks;
  jump_fcontext : fcontext_t -> fiber -> site -> stacks -> fcontext_t * stacks
}.

(** A new context, and the one that jumps, is on its own stack, and leaves those
    on other stacks as they are. *)
Class FcontextLaws (F : Fcontext) : Prop := {
  make_resumes f a p : resumes (make_fcontext f a p).2 (make_fcontext f a p).1 = Some (f, a);
  make_keeps f a p j e : resumes p j = Some e -> e.1 <> f -> resumes (make_fcontext f a p).2 j = Some e;
  jump_resumes k f a p e : resumes p k = Some e -> e.1 <> f -> resumes (jump_fcontext k f a p).2 (jump_fcontext k f a p).1 = Some (f, a);
  jump_keeps k f a p e j e' : resumes p k = Some e -> e.1 <> f -> resumes p j = Some e' -> e'.1 <> f -> e'.1 <> e.1 ->
    resumes (jump_fcontext k f a p).2 j = Some e'
}.

Section switching.
Context `{F : Fcontext} (CYROS_PORT_CORE_COUNT : nat).

(** ** Data *)

(** [transfer_t::data]. *)
Record handoff := Handoff { to : nat; from : option nat }.
Inductive data := nullptr | the_core | a_handoff (h : handoff).
Record transfer_t := Transfer { fctx : fcontext_t; sent : data }.

(** A context_handle is the fcontext_t in it, if there is one. *)
Abbreviation context_handle := (option fcontext_t).

Record cyros_port_context := Context_ { thread_ : context_handle; stack_top : Z; stack_size : Z; entry : Z; arg : Z }.

Record current_core_state := CurrentCore {
  scheduler_context : context_handle;
  scheduler_mapping : bool;               (* mapped *)
  current_context : option nat;
  thread_caller : context_handle;
  os_caller : context_handle;
  interrupt_disable_depth : Z;
  preempt_disable_depth : Z;
  reschedule_pending : bool
}.

(** What is left of a [cyros_port_context_destroy], an access at a time. *)
Inductive quiescing :=
  | Count                 (* request_shutdown_if_quiesced reads the count *)
  | Claim                 (* makes the exchange that one core wins *)
  | Poke (c : nat).
Inductive work := Shutdown (q : quiescing) | Drop (t : nat).   (* the context is abandoned *)

(** [contexts] are the cyros_port_contexts there are, at their addresses;
    [launched] is global.cores.size(); [poked] are the cores sent to, the last
    first; [running] is whose stack the core is on, [todo] what each stack has
    left to do of a call, and [went_on] where each jump went on, the last
    first. *)
Record core := Core {
  stacks_ : stacks;
  contexts : gmap nat cyros_port_context;
  current_core : current_core_state;
  active_contexts : Z;
  shutdown_requested : bool;
  launched : nat;
  core_id : nat;
  poked : list nat;
  running : fiber;
  todo : fiber -> list work;
  went_on : list (fiber * site)
}.

Definition set_stacks v s := Core v (contexts s) (current_core s) (active_contexts s) (shutdown_requested s) (launched s) (core_id s) (poked s) (running s) (todo s) (went_on s).
Definition set_contexts v s := Core (stacks_ s) v (current_core s) (active_contexts s) (shutdown_requested s) (launched s) (core_id s) (poked s) (running s) (todo s) (went_on s).
Definition set_current_core v s := Core (stacks_ s) (contexts s) v (active_contexts s) (shutdown_requested s) (launched s) (core_id s) (poked s) (running s) (todo s) (went_on s).
Definition set_active_contexts v s := Core (stacks_ s) (contexts s) (current_core s) v (shutdown_requested s) (launched s) (core_id s) (poked s) (running s) (todo s) (went_on s).
Definition set_shutdown_requested v s := Core (stacks_ s) (contexts s) (current_core s) (active_contexts s) v (launched s) (core_id s) (poked s) (running s) (todo s) (went_on s).
Definition set_launched v s := Core (stacks_ s) (contexts s) (current_core s) (active_contexts s) (shutdown_requested s) v (core_id s) (poked s) (running s) (todo s) (went_on s).
Definition set_poked v s := Core (stacks_ s) (contexts s) (current_core s) (active_contexts s) (shutdown_requested s) (launched s) (core_id s) v (running s) (todo s) (went_on s).
Definition set_todo f l s := Core (stacks_ s) (contexts s) (current_core s) (active_contexts s) (shutdown_requested s) (launched s) (core_id s) (poked s) (running s) (fun g => if decide (g = f) then l else todo s g) (went_on s).
Definition enter e s := Core (stacks_ s) (contexts s) (current_core s) (active_contexts s) (shutdown_requested s) (launched s) (core_id s) (poked s) e.1 (todo s) (e :: went_on s).

Definition set_scheduler_context v c := CurrentCore v (scheduler_mapping c) (current_context c) (thread_caller c) (os_caller c) (interrupt_disable_depth c) (preempt_disable_depth c) (reschedule_pending c).
Definition set_scheduler_mapping v c := CurrentCore (scheduler_context c) v (current_context c) (thread_caller c) (os_caller c) (interrupt_disable_depth c) (preempt_disable_depth c) (reschedule_pending c).
Definition set_current_context v c := CurrentCore (scheduler_context c) (scheduler_mapping c) v (thread_caller c) (os_caller c) (interrupt_disable_depth c) (preempt_disable_depth c) (reschedule_pending c).
Definition set_thread_caller v c := CurrentCore (scheduler_context c) (scheduler_mapping c) (current_context c) v (os_caller c) (interrupt_disable_depth c) (preempt_disable_depth c) (reschedule_pending c).
Definition set_os_caller v c := CurrentCore (scheduler_context c) (scheduler_mapping c) (current_context c) (thread_caller c) v (interrupt_disable_depth c) (preempt_disable_depth c) (reschedule_pending c).
Definition set_interrupt_disable_depth v c := CurrentCore (scheduler_context c) (scheduler_mapping c) (current_context c) (thread_caller c) (os_caller c) v (preempt_disable_depth c) (reschedule_pending c).
Definition set_preempt_disable_depth v c := CurrentCore (scheduler_context c) (scheduler_mapping c) (current_context c) (thread_caller c) (os_caller c) (interrupt_disable_depth c) v (reschedule_pending c).
Definition set_reschedule_pending v c := CurrentCore (scheduler_context c) (scheduler_mapping c) (current_context c) (thread_caller c) (os_caller c) (interrupt_disable_depth c) (preempt_disable_depth c) v.

Local Abbreviation T := (M core).
Definition here {A} (f : current_core_state -> A) : T A := kget (fun s => f (current_core s)).
Definition put (f : current_core_state -> current_core_state) : T unit := kmodify (fun s => set_current_core (f (current_core s)) s).
Definition is_some {A} (o : option A) : bool := match o with Some _ => true | None => false end.

Definition get_context (t : nat) : T cyros_port_context := fun s => match contexts s !! t with Some c => Ok (c, s) | None => Panic bad_pointer end.
Definition set_thread (t : nat) (h : context_handle) : T unit :=
  let* c := get_context t in
  kmodify (fun s => set_contexts (<[t := Context_ h (stack_top c) (stack_size c) (entry c) (arg c)]> (contexts s)) s).

(** ** Jumps *)

Definition arrive (tr : transfer_t) : T unit :=
  match sent tr with
  | a_handoff h =>
      put (set_current_context (Some (to h))) ;;*
      match from h with
      | Some t => set_thread t (Some (fctx tr))
      | None => put (set_thread_caller (Some (fctx tr)))
      end
  | _ => klift (Panic bad_pointer)
  end.

Definition free_scheduler_stack : T unit := put (set_scheduler_mapping false).

(** The code after each jump, up to its return or to the kernel's. *)
Definition go_on (a : site) (tr : transfer_t) : T unit :=
  match a with
  | at_scheduler_trampoline =>
      match sent tr with the_core => put (set_os_caller (Some (fctx tr))) | _ => klift (Panic bad_pointer) end
  | at_thread_trampoline | in_switch_to_scheduler_context | in_cyros_port_direct_switch => arrive tr
  | in_start_scheduler => free_scheduler_stack
  | in_cyros_port_switch =>
      let* t := here current_context in
      match t with
      | Some t => set_thread t (Some (fctx tr)) ;;* put (set_current_context None)
      | None => klift (Panic bad_pointer)
      end
  | in_scheduler_trampoline => klift (Panic fatal_failed)
  end.

(** [context_handle::jump], of the handle [h], which [spend] empties, made at
    [a]. *)
Definition jump (h : context_handle) (spend : T unit) (a : site) (d : data) : T unit :=
  match h with
  | None => klift (Panic assert_failed)
  | Some k =>
      spend ;;*
      let* s := kget id in
      match resumes (stacks_ s) k with
      | None => klift (Panic bad_pointer)
      | Some e =>
          let j := jump_fcontext k (running s) a (stacks_ s) in
          kmodify (set_stacks j.2) ;;* kmodify (enter e) ;;*
          go_on e.2 (Transfer j.1 d)
      end
  end.

(** ** The scheduler's context *)
Definition allocate_scheduler_stack (mapped : bool) : T unit :=
  kensure assert_failed mapped ;;* put (set_scheduler_mapping true).

Definition start_scheduler (mapped : bool) : T unit :=
  allocate_scheduler_stack mapped ;;*
  let* p := kget stacks_ in
  let k := make_fcontext scheduler at_scheduler_trampoline p in
  kmodify (set_stacks k.2) ;;*
  put (set_scheduler_context (Some k.1)) ;;*
  jump (Some k.1) (put (set_scheduler_context None)) in_start_scheduler the_core.

(** Core 0's half of [cyros_port_start_cores] before its [start_scheduler], and
    what it does once every core is back. *)
Definition no_core_state : current_core_state := CurrentCore None false None None None 0 0 false.
Definition cyros_port_start_cores (cores_to_use : nat) : T unit :=
  kensure assert_failed (0 <? cores_to_use)%nat ;;*
  kensure assert_failed (cores_to_use <=? CYROS_PORT_CORE_COUNT)%nat ;;*
  kmodify (set_launched cores_to_use) ;;*
  put (fun _ => no_core_state).
Definition reset : T unit :=
  kmodify (set_shutdown_requested false) ;;* kmodify (set_launched 0%nat).

(** The pump of [scheduler_trampoline]: what it called, the kernel's entry or
    its handler, has returned; the handler is called again, or it leaves. *)
Definition scheduler_trampoline_loop : T unit :=
  let* stop := kget shutdown_requested in
  if negb stop then kret tt
  else
    let* h := here os_caller in
    jump h (put (set_os_caller None)) in_scheduler_trampoline nullptr.

Definition switch_to_scheduler_context : T unit :=
  let* c := here id in
  kensure assert_failed (is_some (current_context c)) ;;*
  kensure assert_failed (is_some (thread_caller c)) ;;*
  jump (thread_caller c) (put (set_thread_caller None)) in_switch_to_scheduler_context nullptr.

Definition resolve_pending_reschedule_if_baseline : T unit :=
  let* c := here id in
  if negb (reschedule_pending c) then kret tt
  else if negb (interrupt_disable_depth c =? 0) then kret tt
  else if negb (preempt_disable_depth c =? 0) then kret tt
  else if negb (is_some (current_context c)) then kret tt
  else put (set_reschedule_pending false) ;;* switch_to_scheduler_context.

(** ** Reschedule requests *)
Definition cyros_port_thread_yield : T unit :=
  let* c := here id in
  kensure assert_failed (is_some (current_context c)) ;;*
  kensure assert_failed (interrupt_disable_depth c =? 0) ;;*
  kensure assert_failed (preempt_disable_depth c =? 0) ;;*
  switch_to_scheduler_context.

Definition cyros_port_pend_reschedule : T unit :=
  let* c := here id in
  if negb (is_some (current_context c)) then kret tt
  else if (interrupt_disable_depth c =? 0) && (preempt_disable_depth c =? 0) then
    put (set_reschedule_pending false) ;;* switch_to_scheduler_context
  else put (set_reschedule_pending true).

(** The poke itself is [CoopIdle.send]'s. *)
Definition cyros_port_send_reschedule_ipi (c : nat) : T unit :=
  let* s := kget id in
  kensure assert_failed (c <? launched s)%nat ;;*
  kmodify (fun s => set_poked (c :: poked s) s) ;;*
  if (c =? core_id s)%nat && is_some (current_context (current_core s)) then cyros_port_pend_reschedule else kret tt.

(** Its wait is [CoopIdle.idle]'s. *)
Definition cyros_port_idle : T unit := switch_to_scheduler_context.

(** ** Masks *)
Definition cyros_port_interrupts_enabled : T bool :=
  let* c := here id in kret (interrupt_disable_depth c =? 0).

Definition cyros_port_irq_save : T Z :=
  put (fun c => set_interrupt_disable_depth (u32 (interrupt_disable_depth c + 1)) c) ;;* kret 0.

Definition cyros_port_irq_restore (token : Z) : T unit :=
  let* c := here id in
  kensure assert_failed (0 <? interrupt_disable_depth c) ;;*
  put (fun c => set_interrupt_disable_depth (u32 (interrupt_disable_depth c - 1)) c) ;;*
  resolve_pending_reschedule_if_baseline.

Definition cyros_port_preempt_disable : T Z :=
  put (fun c => set_preempt_disable_depth (u32 (preempt_disable_depth c + 1)) c) ;;* kret 0.

Definition cyros_port_preempt_enable (token : Z) : T unit :=
  let* c := here id in
  kensure assert_failed (0 <? preempt_disable_depth c) ;;*
  put (fun c => set_preempt_disable_depth (u32 (preempt_disable_depth c - 1)) c) ;;*
  resolve_pending_reschedule_if_baseline.

(** ** Contexts and switches *)
Definition cyros_port_context_init (t : nat) (stack_base stack_size entry arg : Z) : T unit :=
  kmodify (fun s => set_active_contexts (u32 (active_contexts s + 1)) s) ;;*
  kmodify (fun s => set_contexts (<[t := Context_ None (stack_base + stack_size) stack_size entry arg]> (contexts s)) s) ;;*
  let* p := kget stacks_ in
  let k := make_fcontext (thread t) at_thread_trampoline p in
  kmodify (set_stacks k.2) ;;*
  set_thread t (Some k.1).

(** Up to its counting; the rest is [todo]. *)
Definition cyros_port_context_destroy (t : nat) : T unit :=
  let* s := kget id in
  kensure assert_failed (negb (active_contexts s =? 0)) ;;*
  kmodify (fun s => set_active_contexts (u32 (active_contexts s - 1)) s) ;;*
  kmodify (set_todo (running s) ((if (0 <? launched s)%nat then [Shutdown Count] else []) ++ [Drop t])).

Definition request_shutdown_if_quiesced (q : quiescing) (rest : list work) : T unit :=
  let* s := kget id in
  match q with
  | Count =>
      if Z.of_nat (launched s) <? active_contexts s then kret tt
      else kmodify (set_todo (running s) (Shutdown Claim :: rest))
  | Claim =>
      if shutdown_requested s then kret tt
      else
        kmodify (set_shutdown_requested true) ;;*
        kmodify (set_todo (running s) (map (fun c => Shutdown (Poke c)) (seq 0 (launched s)) ++ rest))
  | Poke c => cyros_port_send_reschedule_ipi c
  end.

Definition drop (t : nat) : T unit := get_context t ;;* kmodify (fun s => set_contexts (delete t (contexts s)) s).

(** The next of what is left. *)
Definition work_on : T unit :=
  let* s := kget id in
  match todo s (running s) with
  | [] => kret tt
  | w :: rest =>
      kmodify (set_todo (running s) rest) ;;*
      match w with Shutdown q => request_shutdown_if_quiesced q rest | Drop t => drop t end
  end.

Definition cyros_port_switch (to : nat) : T unit :=
  let* c := get_context to in
  kensure assert_failed (is_some (thread_ c)) ;;*
  jump (thread_ c) (set_thread to None) in_cyros_port_switch (a_handoff (Handoff to None)).

Definition cyros_port_direct_switch (from to : nat) : T unit :=
  let* c := here id in
  kensure assert_failed (bool_decide (current_context c = Some from)) ;;*
  kensure assert_failed (interrupt_disable_depth c =? 1) ;;*
  kensure assert_failed (preempt_disable_depth c =? 0) ;;*
  kensure assert_failed (negb (reschedule_pending c)) ;;*
  let* k := get_context to in
  kensure assert_failed (is_some (thread_ k)) ;;*
  put (set_interrupt_disable_depth 0) ;;*
  jump (thread_ k) (set_thread to None) in_cyros_port_direct_switch (a_handoff (Handoff to (Some from))).

Definition cyros_port_interrupted_at_baseline : T bool := kret false.

Definition cyros_port_owe_switch (from to : nat) : T unit := klift (Panic fatal_failed).

Definition cyros_port_masked_from_baseline (token : Z) : T bool :=
  let* c := here id in
  kret (is_some (current_context c) && (interrupt_disable_depth c =? 1) && (preempt_disable_depth c =? 0)).

Definition cyros_port_start_first (first : nat) : T unit := cyros_port_switch first.

(** ** What may happen *)
Inductive label :=
  | Launch (cores : nat)                        (* core 0 starts the cores *)
  | Start (mapped : bool)                       (* the pthread enters its scheduler *)
  | Reset                                       (* and, once all are back, forgets them *)
  | Init (t : nat) (base size entry arg : Z)
  | Destroy (t : nat)
  | Work                                        (* and goes on with it *)
  | First (t : nat) | Switch (t : nat)          (* the kernel in the scheduler's context *)
  | Returned                                    (* and its return *)
  | Save | Restore_ | Disable | Enable
  | Yield | Idle_ | Direct (t : nat)            (* a thread's *)
  | Pend | Ipi (c : nat)
  | Elsewhere (active : Z) (stop : bool).       (* another core counts contexts or asks to stop *)

Definition step (l : label) : T unit :=
  match l with
  | Launch cores => cyros_port_start_cores cores
  | Start mapped => start_scheduler mapped
  | Reset => reset
  | Init t base size entry arg => cyros_port_context_init t base size entry arg
  | Destroy t => cyros_port_context_destroy t
  | Work => work_on
  | First t => cyros_port_start_first t
  | Switch t => cyros_port_switch t
  | Returned => scheduler_trampoline_loop
  | Save => cyros_port_irq_save ;;* kret tt
  | Restore_ => cyros_port_irq_restore 0
  | Disable => cyros_port_preempt_disable ;;* kret tt
  | Enable => cyros_port_preempt_enable 0
  | Yield => cyros_port_thread_yield
  | Idle_ => cyros_port_idle
  | Direct t =>
      let* base := cyros_port_masked_from_baseline 0 in
      kensure require_failed base ;;*
      let* from := here current_context in
      match from with Some from => cyros_port_direct_switch from t | None => klift (Panic bad_pointer) end
  | Pend => cyros_port_pend_reschedule
  | Ipi c => cyros_port_send_reschedule_ipi c
  | Elsewhere active stop => kmodify (fun s => set_active_contexts active (set_shutdown_requested (stop || shutdown_requested s) s))
  end.

Fixpoint steps (ls : list label) : T unit := match ls with [] => kret tt | l :: ls => step l ;;* steps ls end.

(** A core as its pthread begins: its thread-local state as it is declared. *)
Definition booted (p : stacks) (cores i : nat) : core :=
  Core p ∅ no_core_state 0 false cores i [] os (fun _ => []) [].
End switching.
End CoopSwitch.

Module CoopIdle.
(** ** A mutex and a condition variable *)

(** One of each, and the threads that use them: who holds the mutex, who is
    blocked in pthread_cond_wait.  [mutex_lock] is [None] where it blocks;
    [stir] is a return from pthread_cond_wait that nobody signalled. *)
Class Pthread := {
  sync : Type;
  owner : sync -> option nat;
  blocked : sync -> nat -> bool;
  mutex_lock : nat -> sync -> option sync;
  mutex_unlock : nat -> sync -> sync;
  cond_wait : nat -> sync -> sync;
  cond_signal : sync -> sync;
  stir : nat -> sync -> sync
}.

(** What POSIX promises of them: a wait lets the mutex go and blocks in one; a
    signal unblocks some of those blocked, one at least, and touches no mutex. *)
Class PthreadLaws (P : Pthread) : Prop := {
  lock_blocks w x : mutex_lock w x = None <-> owner x <> None;
  lock_takes w x y : mutex_lock w x = Some y -> owner y = Some w /\ forall v, blocked y v = blocked x v;
  unlock_gives w x : owner x = Some w -> owner (mutex_unlock w x) = None /\ forall v, blocked (mutex_unlock w x) v = blocked x v;
  wait_gives w x : owner x = Some w -> owner (cond_wait w x) = None /\ forall v, blocked (cond_wait w x) v = (v =? w)%nat || blocked x v;
  signal_keeps x : owner (cond_signal x) = owner x /\ forall v, blocked (cond_signal x) v = true -> blocked x v = true;
  signal_wakes x v : blocked x v = true -> exists w, blocked x w = true /\ blocked (cond_signal x) w = false;
  stir_wakes w x : owner (stir w x) = owner x /\ forall v, blocked (stir w x) v = negb (v =? w)%nat && blocked x v
}.

Section idling.
Context `{P : Pthread}.

(** Where [cyros_port_idle] is, on the core that idles, number 0. *)
Inductive idling :=
  | Away                  (* not in it: about to hand the core to its pump *)
  | Looking               (* about to exchange, before the mutex *)
  | Locking
  | Checking              (* about to exchange, under it *)
  | Parking               (* about to wait *)
  | Waiting               (* in pthread_cond_wait *)
  | Unlocking.

(** Where a [cyros_port_send_reschedule_ipi] to it is. *)
Inductive sending := Storing | Stored | Holding | Signalled | Sent.

Record core_poke := CorePoke { pending : bool; mutex_and_cond : sync; idler : idling; senders : list sending }.

Definition exchange (found missed : idling) (s : core_poke) : core_poke :=
  CorePoke false (mutex_and_cond s) (if pending s then found else missed) (senders s).
Definition at_ (i : idling) (x : sync) (s : core_poke) : core_poke := CorePoke (pending s) x i (senders s).

(** [cyros_port_idle], the next access; [None]: it blocks, or is not there. *)
Definition idle (s : core_poke) : option core_poke :=
  let x := mutex_and_cond s in
  match idler s with
  | Away => None
  | Looking => Some (exchange Away Locking s)
  | Locking => (fun x => at_ Checking x s) <$> mutex_lock 0 x
  | Checking => Some (exchange Unlocking Parking s)
  | Parking => Some (at_ Waiting (cond_wait 0 x) s)
  | Waiting => if blocked x 0 then None else (fun x => at_ Checking x s) <$> mutex_lock 0 x
  | Unlocking => Some (at_ Away (mutex_unlock 0 x) s)
  end.

(** [cyros_port_send_reschedule_ipi], by sender [k]. *)
Definition send (k : nat) (s : core_poke) : option core_poke :=
  let x := mutex_and_cond s in
  let go p x a := CorePoke p x (idler s) (<[k := a]> (senders s)) in
  match senders s !! k with
  | Some Storing => Some (go true x Stored)
  | Some Stored => (fun x => go (pending s) x Holding) <$> mutex_lock (S k) x
  | Some Holding => Some (go (pending s) (cond_signal x) Signalled)
  | Some Signalled => Some (go (pending s) (mutex_unlock (S k) x) Sent)
  | _ => None
  end.

Definition advance (w : nat) (s : core_poke) : option core_poke := match w with O => idle s | S k => send k s end.

Inductive action := Idle | Poke | Advance (w : nat) | Stir.
Definition act (a : action) (s : core_poke) : option core_poke :=
  match a with
  | Idle => match idler s with Away => Some (at_ Looking (mutex_and_cond s) s) | _ => None end
  | Poke => Some (CorePoke (pending s) (mutex_and_cond s) (idler s) (senders s ++ [Storing]))
  | Advance w => advance w s
  | Stir => Some (at_ (idler s) (stir 0 (mutex_and_cond s)) s)
  end.

Definition then_ {A} (f : A -> core_poke -> option core_poke) : list A -> core_poke -> option core_poke :=
  fix run l s := match l with [] => Some s | a :: l => match f a s with Some s => run l s | None => None end end.
Definition acts := then_ act.
Definition advances := then_ advance.
End idling.
End CoopIdle.
