(* ===== verification/CoopSwitchProperties.v ===== *)
(** * Switching on the cooperative Linux port: what it implements

    [spec] is a core whose threads are left somewhere and go on there.  It knows
    no handles: who keeps which, and whose jump stores whose, is what [rep] says
    and every call keeps. *)

From S2P Require Import Prelude State CoopSwitch.
Import CoopSwitch.
Local Open Scope Z_scope.

(** ** The abstract core *)
Inductive stage := Before | During | After.
#[global] Instance stage_eq_dec : EqDecision stage.
Proof. solve_decision. Defined.

Record spec_core := SpecCore {
  on : fiber;                       (* who runs *)
  left_at : gmap nat site;          (* the threads that do not, and where each goes on *)
  idepth : Z;
  pdepth : Z;
  asked : bool;                     (* for a reschedule, at the end of a mask *)
  when : stage;
  count : Z;
  stopping : bool;
  cores : nat;
  pokes : list nat;
  chores : list work;
  events : list (fiber * site)
}.

Section spec.
Context (COUNT : nat) (me : nat).

Definition upd_masks i p k a := SpecCore (on a) (left_at a) i p k (when a) (count a) (stopping a) (cores a) (pokes a) (chores a) (events a).
Definition upd_chores w a := SpecCore (on a) (left_at a) (idepth a) (pdepth a) (asked a) (when a) (count a) (stopping a) (cores a) (pokes a) w (events a).
Definition upd_pokes c a := SpecCore (on a) (left_at a) (idepth a) (pdepth a) (asked a) (when a) (count a) (stopping a) (cores a) (c :: pokes a) (chores a) (events a).
Definition upd_left l n a := SpecCore (on a) l (idepth a) (pdepth a) (asked a) (when a) n (stopping a) (cores a) (pokes a) (chores a) (events a).
Definition upd_shared n b c a := SpecCore (on a) (left_at a) (idepth a) (pdepth a) (asked a) (when a) n b c (pokes a) (chores a) (events a).

(** Control passes to [e], the runner left at [s] if it is a thread. *)
Definition pass (s : site) (e : fiber * site) (w : stage) (a : spec_core) : spec_core :=
  let l := match on a with thread t => <[t := s]> (left_at a) | _ => left_at a end in
  SpecCore e.1 (match e.1 with thread t => delete t l | _ => l end)
    (idepth a) (pdepth a) false w (count a) (stopping a) (cores a) (pokes a) (chores a) (e :: events a).

Definition is_thread (f : fiber) : bool := match f with thread _ => true | _ => false end.
Definition baseline (a : spec_core) : bool := is_thread (on a) && (idepth a =? 0) && (pdepth a =? 0).
Definition unoccupied (a : spec_core) : bool := match chores a with [] => true | _ => false end.

Definition reschedule (a : spec_core) : spec_core := pass in_switch_to_scheduler_context (scheduler, in_cyros_port_switch) (when a) a.
Definition pended (a : spec_core) : spec_core :=
  if negb (is_thread (on a)) then a else if baseline a then reschedule a else upd_masks (idepth a) (pdepth a) true a.
Definition unmasked (a : spec_core) : spec_core := if asked a && baseline a then reschedule a else a.

Definition chore (a : spec_core) : spec_core :=
  match chores a with
  | [] => a
  | Drop t :: rest => upd_left (delete t (left_at a)) (count a) (upd_chores rest a)
  | Shutdown Count :: rest => upd_chores (if Z.of_nat (cores a) <? count a then rest else Shutdown Claim :: rest) a
  | Shutdown Claim :: rest =>
      if stopping a then upd_chores rest a
      else upd_shared (count a) true (cores a) (upd_chores (map (fun c => Shutdown (Poke c)) (seq 0 (cores a)) ++ rest) a)
  | Shutdown (Poke c) :: rest => upd_pokes c (upd_chores rest a)
  end.

(** [None]: not what a caller may do there. *)
Definition goes (b : bool) (a : spec_core) : option spec_core := if b then Some a else None.
Definition dispatched (t : nat) (a : spec_core) : option spec_core :=
  match left_at a !! t with
  | Some s => goes (bool_decide (on a = scheduler) && (idepth a =? 0) && (pdepth a =? 0)) (pass in_cyros_port_switch (thread t, s) (when a) a)
  | None => None
  end.

Definition spec_idle (l : label) (a : spec_core) : option spec_core :=
  match l with
  | Launch n => goes (bool_decide (on a = os) && bool_decide (when a = Before) && (idepth a =? 0) && (pdepth a =? 0) && (0 <? n)%nat && (n <=? COUNT)%nat) (upd_shared (count a) (stopping a) n a)
  | Start ok => goes (ok && bool_decide (on a = os) && bool_decide (when a = Before)) (pass in_start_scheduler (scheduler, at_scheduler_trampoline) During a)
  | Reset => goes (bool_decide (on a = os) && bool_decide (when a = After)) (upd_shared (count a) false 0 a)
  | Init t _ _ _ _ => goes (negb (bool_decide (is_Some (left_at a !! t))) && negb (bool_decide (on a = thread t)) && (count a + 1 <? 2 ^ 32)) (upd_left (<[t := at_thread_trampoline]> (left_at a)) (count a + 1) a)
  | Destroy t => goes (negb (is_thread (on a)) && bool_decide (is_Some (left_at a !! t)) && (0 <? count a))
                      (upd_chores ((if (0 <? cores a)%nat then [Shutdown Count] else []) ++ [Drop t]) (upd_left (left_at a) (count a - 1) a))
  | First t | Switch t => dispatched t a
  | Returned => goes (bool_decide (on a = scheduler)) (if stopping a then pass in_scheduler_trampoline (os, in_start_scheduler) After a else a)
  | Save => goes (idepth a + 1 <? 2 ^ 32) (upd_masks (idepth a + 1) (pdepth a) (asked a) a)
  | Restore_ => goes (0 <? idepth a) (unmasked (upd_masks (idepth a - 1) (pdepth a) (asked a) a))
  | Disable => goes (pdepth a + 1 <? 2 ^ 32) (upd_masks (idepth a) (pdepth a + 1) (asked a) a)
  | Enable => goes (0 <? pdepth a) (unmasked (upd_masks (idepth a) (pdepth a - 1) (asked a) a))
  | Yield | Idle_ => goes (baseline a) (reschedule a)
  | Direct t =>
      match left_at a !! t with
      | Some s => goes (is_thread (on a) && (idepth a =? 1) && (pdepth a =? 0) && negb (asked a))
                       (pass in_cyros_port_direct_switch (thread t, s) (when a) (upd_masks 0 0 false a))
      | None => None
      end
  | Pend => Some (pended a)
  | Ipi c => goes (c <? cores a)%nat (let a := upd_pokes c a in if (c =? me)%nat then pended a else a)
  | Elsewhere _ _ | Work => None
  end.

Definition spec (l : label) (a : spec_core) : option spec_core :=
  match l with
  | Elsewhere n b => goes ((0 <=? n) && (n <? 2 ^ 32)) (upd_shared n (b || stopping a) (cores a) a)
  | Work => Some (chore a)
  | _ => if unoccupied a then spec_idle l a else None
  end.

Fixpoint specs (ls : list label) (a : spec_core) : option spec_core :=
  match ls with [] => Some a | l :: ls => match spec l a with Some a => specs ls a | None => None end end.

Definition spec_booted (n : nat) : spec_core := SpecCore os ∅ 0 0 false Before 0 false n [] [] [].

(** ** What stands for it *)
Context `{F : Fcontext} {L : FcontextLaws F}.
Local Abbreviation core := (@core F).

(** [h] is a handle to where [f] was left. *)
Definition refers (p : stacks) (h : option fcontext_t) (f : fiber) (x : site) : Prop :=
  exists k, h = Some k /\ resumes p k = Some (f, x).

(** Where a thread can be left: all of these take in who jumped to them. *)
Definition threads_site (x : site) : Prop :=
  match x with at_thread_trampoline | in_switch_to_scheduler_context | in_cyros_port_direct_switch => True | _ => False end.

(** Each thread's own context refers to where it was left. *)
Definition kept (p : stacks) (cs : gmap nat cyros_port_context) (l : gmap nat site) : Prop :=
  forall t x, l !! t = Some x -> threads_site x /\ exists c, cs !! t = Some c /\ refers p (thread_ c) (thread t) x.

(** A context that is being destroyed is dropped in the end. *)
Definition sound (n : nat) (q : quiescing) : Prop := match q with Poke c => (c < n)%nat | _ => True end.
Definition tidy (a : spec_core) : Prop :=
  chores a = [] \/
  (is_thread (on a) = false /\ exists qs t, chores a = map Shutdown qs ++ [Drop t] /\ (is_Some (left_at a !! t)) /\ Forall (sound (cores a)) qs).

Record rep (s : core) (a : spec_core) : Prop := Rep {
  rep_shared : active_contexts s = count a /\ shutdown_requested s = stopping a /\ launched s = cores a /\ core_id s = me /\ poked s = pokes a /\ 0 <= count a < 2 ^ 32;
  rep_masks : interrupt_disable_depth (current_core s) = idepth a /\ preempt_disable_depth (current_core s) = pdepth a /\ reschedule_pending (current_core s) = asked a /\ 0 <= idepth a < 2 ^ 32 /\ 0 <= pdepth a < 2 ^ 32;
  rep_asked : asked a = true -> is_thread (on a) = true /\ 0 < idepth a + pdepth a;
  rep_todo : todo s (on a) = chores a /\ forall f, f <> on a -> todo s f = [];
  rep_chores : tidy a;
  rep_went : running s = on a /\ went_on s = events a;
  rep_stage : when a = During <-> on a <> os;
  rep_left : kept (stacks_ s) (contexts s) (left_at a);
  rep_there : forall t, is_Some (contexts s !! t) -> is_Some (left_at a !! t) \/ on a = thread t;
  rep_on : match on a with
           | os => current_context (current_core s) = None
           | scheduler => current_context (current_core s) = None /\ refers (stacks_ s) (os_caller (current_core s)) os in_start_scheduler
           | thread t => current_context (current_core s) = Some t /\ left_at a !! t = None /\ (exists c, contexts s !! t = Some c /\ thread_ c = None) /\ refers (stacks_ s) (thread_caller (current_core s)) scheduler in_cyros_port_switch /\ refers (stacks_ s) (os_caller (current_core s)) os in_start_scheduler
           end
}.

(** ** Jumps *)

(** What a jump leaves of the others' handles. *)
Definition spared (p p' : stacks) (f g : fiber) : Prop :=
  forall j e, resumes p j = Some e -> e.1 <> f -> e.1 <> g -> resumes p' j = Some e.

Lemma wp_jump (s s1 : core) k h spend x d e (Q : unit -> core -> Prop) :
  h = Some k -> resumes (stacks_ s) k = Some e -> e.1 <> running s ->
  spend s = Ok (tt, s1) -> stacks_ s1 = stacks_ s -> running s1 = running s ->
  (forall k' p', resumes p' k' = Some (running s, x) -> spared (stacks_ s) p' (running s) e.1 ->
    wp (go_on e.2 (Transfer k' d)) Q (enter e (set_stacks p' s1))) ->
  wp (jump h spend x d) Q s.
Proof.
  intros -> Hk Hne Hs Hp Hr H. unfold jump. apply wp_bind. unfold wp at 1. rewrite Hs. apply wp_bind, wp_get. unfold id. rewrite Hp, Hk, Hr.
  apply wp_bind, wp_modify, wp_bind, wp_modify. apply H; [apply (jump_resumes _ _ _ _ e); assumption |].
  intros j e' Hj Hf Hg. apply (jump_keeps _ _ _ _ e); assumption.
Qed.

Lemma refers_spared p p' h f x g1 g2 : refers p h f x -> spared p p' g1 g2 -> f <> g1 -> f <> g2 -> refers p' h f x.
Proof. intros (k & -> & Hk) Hs H1 H2. exists k. split; [reflexivity |]. apply Hs; assumption. Qed.

Lemma kept_spared p p' cs l f g : kept p cs l -> spared p p' f g -> (forall t, f = thread t \/ g = thread t -> l !! t = None) -> kept p' cs l.
Proof.
  intros Hk Hs Hn t x Ht. destruct (Hk t x Ht) as (Hx & c & Hc & Hr). split; [exact Hx |]. exists c. split; [exact Hc |].
  apply (refers_spared p p' _ _ _ f g Hr Hs); intros E; rewrite (Hn t) in Ht by auto; discriminate.
Qed.

Lemma kept_drop p cs l t d : kept p cs l -> kept p (<[t := d]> cs) (delete t l).
Proof. intros Hk u x Hu. apply lookup_delete_Some in Hu as [Hne Hu]. destruct (Hk u x Hu) as (Hx & c & Hc & Hr). split; [exact Hx |]. exists c. rewrite lookup_insert_ne by exact Hne. auto. Qed.

Lemma kept_leave p cs l t d x : kept p cs l -> threads_site x -> refers p (thread_ d) (thread t) x -> kept p (<[t := d]> cs) (<[t := x]> l).
Proof.
  intros Hk Hx Hd u y Hu. destruct (decide (t = u)) as [-> | Hne].
  - rewrite lookup_insert_eq in Hu. injection Hu as <-. split; [exact Hx |]. exists d. rewrite lookup_insert_eq. auto.
  - rewrite lookup_insert_ne in Hu by exact Hne. rewrite lookup_insert_ne by exact Hne. apply Hk, Hu.
Qed.

(** A call that only changes what both sides count. *)
Ltac opened s a Hr :=
  destruct s as [p cs cu ac st la ci po ru td we], a as [o lf ip pp ak wh co sp cn pk ch ev];
  destruct cu as [sc sm cc tc oc id_ pd rp];
  destruct Hr as [Hsh Hma Has Htd Hch Hwe Hst Hlf Hth Hon]; cbn in *;
  destruct Hsh as (-> & -> & -> & -> & -> & Hco), Hma as (-> & -> & -> & Hid & Hpd), Hwe as [-> ->].

Lemma wp_set_thread (s : core) t h c (Q : unit -> core -> Prop) :
  contexts s !! t = Some c ->
  Q tt (set_contexts (<[t := Context_ h (stack_top c) (stack_size c) (entry c) (arg c)]> (contexts s)) s) -> wp (set_thread t h) Q s.
Proof. intros Hc HQ. unfold set_thread, get_context, wp, kbind. rewrite Hc. exact HQ. Qed.

Lemma wp_context (s : core) t c (Q : cyros_port_context -> core -> Prop) : contexts s !! t = Some c -> Q c s -> wp (get_context t) Q s.
Proof. intros Hc HQ. unfold get_context, wp. rewrite Hc. exact HQ. Qed.

#[local] Arguments jump : simpl never.
#[local] Arguments Z.mul : simpl never.

Ltac call :=
  lazymatch goal with
  | |- wp (here _) _ _ => unfold here; apply wp_get
  | |- wp (put _) _ _ => unfold put; apply wp_modify
  | |- wp (set_thread _ _) _ _ => eapply wp_set_thread
  | |- wp (get_context _) _ _ => eapply wp_context
  | |- _ => wp_step
  end.

(** Where it switches, nothing of a call is left. *)
Lemma tidy_thread a : tidy a -> is_thread (on a) = true -> chores a = [].
Proof. intros [E | [E _]] Ht; [exact E | congruence]. Qed.

Lemma nothing_todo (td : fiber -> list work) f : td f = [] /\ (forall g, g <> f -> td g = []) -> forall g, td g = [].
Proof. intros [H1 H2] g. destruct (decide (g = f)) as [-> | Hne]; auto. Qed.

Ltac settled := constructor; cbn; try assumption; try (split_and?; (assumption || reflexivity || lia || congruence || solve [auto])); try discriminate.

(** A thread's switch to its scheduler. *)
Lemma to_scheduler_spec (s : core) a : rep s a -> is_thread (on a) = true -> idepth a = 0 -> pdepth a = 0 ->
  wp switch_to_scheduler_context (fun _ s' => rep s' (reschedule a)) s.
Proof.
  intros Hr Ht Hi Hp. pose proof (tidy_thread a (rep_chores _ _ Hr) Ht) as Hch0. opened s a Hr.
  destruct o as [| | t]; try discriminate. destruct Hon as (-> & Hlt & (c & Hc & Hcn) & (k & -> & Hk) & Hos). subst ip pp ch. cbn in *.
  unfold switch_to_scheduler_context. do 2 call. unfold id; cbn. do 2 (call; call; [reflexivity |]).
  eapply wp_jump; [reflexivity | exact Hk | discriminate | reflexivity | reflexivity | reflexivity |].
  intros k' p' Hk' Hsp. cbn in *. call. call. cbn. call. eapply wp_set_thread; [exact Hc |]. call. cbn.
  assert (ak = false) as -> by (destruct ak; [destruct (Has eq_refl); lia | reflexivity]).
  apply kept_spared with (p' := p') (f := thread t) (g := scheduler) in Hlf; [| exact Hsp | intros u [[= <-] | [=]]; exact Hlt].
  pose proof (nothing_todo _ _ Htd) as Hno. settled.
  - left. reflexivity.
  - rewrite Hst. split; discriminate.
  - apply kept_leave; [exact Hlf | exact I | exists k'; auto].
  - intros u Hu. left. apply lookup_insert_is_Some. apply lookup_insert_is_Some in Hu as [-> | [Hne Hu]]; [left; reflexivity |].
    right. split; [exact Hne |]. destruct (Hth u Hu) as [| [= ->]]; [assumption | congruence].
  - split; [reflexivity |]. apply (refers_spared _ _ _ _ _ _ _ Hos Hsp); discriminate.
Qed.

(** The scheduler's switch to a thread. *)
Lemma dispatched_spec (s : core) a a' t : rep s a -> chores a = [] -> dispatched t a = Some a' -> wp (cyros_port_switch t) (fun _ s' => rep s' a') s.
Proof.
  intros Hr Hch0 Hd. unfold dispatched in Hd. destruct (left_at a !! t) as [x |] eqn:Hx; [| discriminate]. unfold goes in Hd.
  destruct (bool_decide (on a = scheduler)) eqn:Ho; [| discriminate]. apply bool_decide_eq_true in Ho.
  destruct (idepth a =? 0) eqn:Hi; [| discriminate]. destruct (pdepth a =? 0) eqn:Hp; [| discriminate]. apply Z.eqb_eq in Hi, Hp. injection Hd as <-.
  opened s a Hr. subst o ip pp ch. destruct Hon as [-> Hos]. pose proof (nothing_todo _ _ Htd) as Hno.
  destruct (Hlf t x Hx) as (Hts & c & Hc & k & Hk & Hrk).
  assert (ak = false) as -> by (destruct ak; [destruct (Has eq_refl); discriminate | reflexivity]).
  unfold cyros_port_switch. call. eapply wp_context; [exact Hc |]. call. call; [rewrite Hk; reflexivity |].
  eapply wp_jump; [exact Hk | exact Hrk | discriminate | unfold set_thread, get_context, kbind; cbn; rewrite Hc; reflexivity | reflexivity | reflexivity |].
  intros k' p' Hk' Hsp. cbn in *.
  apply kept_drop with (t := t) (d := Context_ None (stack_top c) (stack_size c) (entry c) (arg c)) in Hlf.
  apply kept_spared with (p' := p') (f := scheduler) (g := thread t) in Hlf; [| exact Hsp | intros u [[=] | [= <-]]; apply lookup_delete_eq].
  replace (go_on x) with arrive by (destruct x; try destruct Hts; reflexivity). unfold arrive; cbn. settled.
  - left. reflexivity.
  - rewrite Hst. split; discriminate.
  - intros u Hu. apply lookup_insert_is_Some in Hu as [-> | [Hne Hu]]; [right; reflexivity |].
    left. rewrite lookup_delete_ne by exact Hne. destruct (Hth u Hu) as [| [=]]; assumption.
  - split_and!; [reflexivity | apply lookup_delete_eq | eexists; split; [apply lookup_insert_eq | reflexivity] | exists k'; auto |].
    apply (refers_spared _ _ _ _ _ _ _ Hos Hsp); discriminate.
Qed.

(** A thread's switch to another. *)
Lemma direct_spec (s : core) a t u x : rep s a -> on a = thread u -> left_at a !! t = Some x -> idepth a = 1 -> pdepth a = 0 -> asked a = false ->
  wp (cyros_port_direct_switch u t) (fun _ s' => rep s' (pass in_cyros_port_direct_switch (thread t, x) (when a) (upd_masks 0 0 false a))) s.
Proof.
  intros Hr Ho Hx Hi Hp Hak. pose proof (tidy_thread a (rep_chores _ _ Hr) ltac:(rewrite Ho; reflexivity)) as Hch0. opened s a Hr.
  subst o ip pp ak ch. destruct Hon as (-> & Hlt & (b & Hb & Hbn) & Hca & Hos). pose proof (nothing_todo _ _ Htd) as Hno.
  destruct (Hlf t x Hx) as (Hts & c & Hc & k & Hk & Hrk). assert (Hne : t <> u) by (intros ->; congruence).
  unfold cyros_port_direct_switch. do 2 call. unfold id; cbn. call. call; [apply bool_decide_eq_true; reflexivity |]. do 3 (call; call; [reflexivity |]).
  call. eapply wp_context; [exact Hc |]. call. call; [rewrite Hk; reflexivity |]. call. call.
  eapply wp_jump; [exact Hk | exact Hrk | intros [= E]; congruence | unfold set_thread, get_context, kbind; cbn; rewrite Hc; reflexivity | reflexivity | reflexivity |].
  intros k' p' Hk' Hsp. cbn in *.
  apply kept_drop with (t := t) (d := Context_ None (stack_top c) (stack_size c) (entry c) (arg c)) in Hlf.
  apply kept_spared with (p' := p') (f := thread u) (g := thread t) in Hlf;
    [| exact Hsp | intros v [[= <-] | [= <-]]; [rewrite lookup_delete_ne by congruence; exact Hlt | apply lookup_delete_eq]].
  replace (go_on x) with arrive by (destruct x; try destruct Hts; reflexivity). unfold arrive; cbn. call. eapply wp_modify, wp_set_thread; [cbn; rewrite lookup_insert_ne by exact Hne; exact Hb |].
  cbn. settled.
  - left. reflexivity.
  - rewrite Hst. split; discriminate.
  - rewrite delete_insert_ne by exact Hne. apply kept_leave; [exact Hlf | exact I | exists k'; auto].
  - intros v Hv. rewrite delete_insert_ne by exact Hne. apply lookup_insert_is_Some in Hv as [-> | [Hv1 Hv]]; [left; rewrite lookup_insert_eq; eauto |].
    apply lookup_insert_is_Some in Hv as [-> | [Hv2 Hv]]; [right; reflexivity |]. left. rewrite lookup_insert_ne, lookup_delete_ne by assumption.
    destruct (Hth v Hv) as [| [= ->]]; [assumption | congruence].
  - split_and!; [reflexivity | apply lookup_delete_eq | eexists; split; [rewrite lookup_insert_ne by congruence; apply lookup_insert_eq | reflexivity] | |].
    + apply (refers_spared _ _ _ _ _ _ _ Hca Hsp); discriminate.
    + apply (refers_spared _ _ _ _ _ _ _ Hos Hsp); discriminate.
Qed.

(** ** Masks *)
Definition masked i p k (s : core) : core := set_current_core (set_reschedule_pending k (set_preempt_disable_depth p (set_interrupt_disable_depth i (current_core s)))) s.

Lemma masked_rep (s : core) a i i' k : rep s a -> 0 <= i < 2 ^ 32 -> 0 <= i' < 2 ^ 32 -> (k = true -> is_thread (on a) = true /\ 0 < i + i') ->
  rep (masked i i' k s) (upd_masks i i' k a).
Proof. intros Hr Hi Hp Hk. opened s a Hr. settled. Qed.

Lemma masked_eq (s : core) i p k : i = interrupt_disable_depth (current_core s) -> p = preempt_disable_depth (current_core s) ->
  set_current_core (set_reschedule_pending k (current_core s)) s = masked i p k s.
Proof. intros -> ->. reflexivity. Qed.

Lemma baseline_true a : baseline a = true -> is_thread (on a) = true /\ idepth a = 0 /\ pdepth a = 0.
Proof. unfold baseline. rewrite !andb_true_iff, !Z.eqb_eq. tauto. Qed.

Lemma reschedule_unmasked a : idepth a = 0 -> pdepth a = 0 -> reschedule a = reschedule (upd_masks 0 0 false a).
Proof. destruct a; cbn. intros -> ->. reflexivity. Qed.

Lemma reschedule_masked i p k a : reschedule (upd_masks i p k a) = reschedule (upd_masks i p false a).
Proof. reflexivity. Qed.

Lemma pended_spec (s : core) a : rep s a -> wp cyros_port_pend_reschedule (fun _ s' => rep s' (pended a)) s.
Proof.
  intros Hr. pose proof (rep_on _ _ Hr) as Hon. pose proof (rep_masks _ _ Hr) as (Ei & Ep & Ek & Hi & Hp). unfold cyros_port_pend_reschedule, pended, baseline. do 2 call. unfold id.
  destruct (on a) as [| | t] eqn:Ho; cbn.
  - rewrite Hon. exact Hr.
  - destruct Hon as [-> _]. exact Hr.
  - destruct Hon as [-> _]. cbn. rewrite Ei, Ep. destruct ((idepth a =? 0) && (pdepth a =? 0)) eqn:Hb.
    + apply andb_true_iff in Hb as [Hb1 Hb2]. apply Z.eqb_eq in Hb1, Hb2. do 2 call.
      rewrite (reschedule_unmasked a) by assumption. apply (to_scheduler_spec _ (upd_masks 0 0 false a)); [| cbn; rewrite Ho; reflexivity | reflexivity | reflexivity].
      rewrite (masked_eq s 0 0) by congruence.
      apply masked_rep; [exact Hr | lia | lia | discriminate].
    + call. rewrite (masked_eq s (idepth a) (pdepth a)) by congruence.
      apply masked_rep; [exact Hr | lia | lia |]. intros _. rewrite Ho. split; [reflexivity |].
      apply andb_false_iff in Hb as [Hb | Hb]; apply Z.eqb_neq in Hb; lia.
Qed.

(** The end of a mask, the depths let down already. *)
Lemma unmasked_spec (s : core) a i p : rep s a -> 0 <= i <= idepth a -> 0 <= p <= pdepth a ->
  wp resolve_pending_reschedule_if_baseline (fun _ s' => rep s' (unmasked (upd_masks i p (asked a) a))) (masked i p (asked a) s).
Proof.
  intros Hr Hi Hp. pose proof (rep_on _ _ Hr) as Hon. pose proof (rep_masks _ _ Hr) as (_ & _ & _ & Hi2 & Hp2). pose proof (rep_asked _ _ Hr) as Hak.
  unfold resolve_pending_reschedule_if_baseline, unmasked, baseline. do 2 call. unfold id. cbn.
  destruct (asked a) eqn:Ek; cbn; [| apply masked_rep; [exact Hr | lia | lia | discriminate]].
  destruct (Hak eq_refl) as [Ht _]. destruct (on a) as [| | t] eqn:Ho; try discriminate. cbn.
  destruct (i =? 0) eqn:Ei; cbn; [| apply masked_rep; [exact Hr | lia | lia |]; intros _; rewrite Ho; apply Z.eqb_neq in Ei; split; [reflexivity | lia]].
  destruct (p =? 0) eqn:Ep; cbn; [| apply masked_rep; [exact Hr | lia | lia |]; intros _; rewrite Ho; apply Z.eqb_neq in Ep; split; [reflexivity | lia]].
  apply Z.eqb_eq in Ei, Ep. destruct Hon as [-> _]. cbn. do 2 call. rewrite reschedule_masked.
  apply (to_scheduler_spec (masked i p false s)); [apply masked_rep; [exact Hr | lia | lia | discriminate] | cbn; rewrite Ho; reflexivity | exact Ei | exact Ep].
Qed.

(** ** The scheduler's context *)
Lemma start_spec (s : core) a : rep s a -> chores a = [] -> on a = os ->
  wp (start_scheduler true) (fun _ s' => rep s' (pass in_start_scheduler (scheduler, at_scheduler_trampoline) During a)) s.
Proof.
  intros Hr Hch0 Ho. opened s a Hr. subst o ch. pose proof (nothing_todo _ _ Htd) as Hno.
  assert (ak = false) as -> by (destruct ak; [destruct (Has eq_refl); discriminate | reflexivity]).
  unfold start_scheduler, allocate_scheduler_stack. call. call. call; [reflexivity |]. do 6 call. cbn.
  assert (Hmk : forall j e, resumes p j = Some e -> e.1 <> scheduler -> resumes (make_fcontext scheduler at_scheduler_trampoline p).2 j = Some e).
  { intros j e Hj He. apply make_keeps; assumption. }
  eapply wp_jump; [reflexivity | apply make_resumes | discriminate | reflexivity | reflexivity | reflexivity |].
  intros k' p' Hk' Hsp. cbn in *. settled.
  - split; [intros _; discriminate | reflexivity].
  - apply (kept_spared (make_fcontext scheduler at_scheduler_trampoline p).2 p' cs lf os scheduler); [| exact Hsp | intros v [[=] | [=]]].
    apply (kept_spared p _ cs lf os scheduler); [exact Hlf | intros j e Hj _ He; apply Hmk; assumption | intros v [[=] | [=]]].
  - intros v Hv. destruct (Hth v Hv) as [| [=]]. left. assumption.
  - split; [exact Hon |]. exists k'. auto.
Qed.

Lemma returned_spec (s : core) a : rep s a -> chores a = [] -> on a = scheduler ->
  wp scheduler_trampoline_loop (fun _ s' => rep s' (if stopping a then pass in_scheduler_trampoline (os, in_start_scheduler) After a else a)) s.
Proof.
  intros Hr Hch0 Ho. unfold scheduler_trampoline_loop. call. call. destruct (rep_shared _ _ Hr) as (_ & Es & _). rewrite Es.
  destruct (stopping a) eqn:Est; [| exact Hr]. cbn.
  opened s a Hr. subst o ch sp. pose proof (nothing_todo _ _ Htd) as Hno. destruct Hon as [-> (k & -> & Hk)].
  assert (ak = false) as -> by (destruct ak; [destruct (Has eq_refl); discriminate | reflexivity]).
  do 2 call. eapply wp_jump; [reflexivity | exact Hk | discriminate | reflexivity | reflexivity | reflexivity |].
  intros k' p' Hk' Hsp. cbn in *. settled.
  - split; [discriminate | intros []; reflexivity].
  - apply (kept_spared p p' cs lf scheduler os); [exact Hlf | exact Hsp | intros v [[=] | [=]]].
  - intros v Hv. destruct (Hth v Hv) as [| [=]]. left. assumption.
Qed.

(** ** Contexts *)
Lemma init_spec (s : core) a t base size en ar : rep s a -> chores a = [] -> left_at a !! t = None -> on a <> thread t -> count a + 1 < 2 ^ 32 ->
  wp (cyros_port_context_init t base size en ar) (fun _ s' => rep s' (upd_left (<[t := at_thread_trampoline]> (left_at a)) (count a + 1) a)) s.
Proof.
  intros Hr Hch0 Hlt Hot Hlt2. opened s a Hr. subst ch. pose proof (nothing_todo _ _ Htd) as Hno.
  unfold cyros_port_context_init. do 7 call. cbn. eapply wp_set_thread; [apply lookup_insert_eq |]. cbn.
  assert (Hmk : forall j e, resumes p j = Some e -> e.1 <> thread t -> resumes (make_fcontext (thread t) at_thread_trampoline p).2 j = Some e).
  { intros j e Hj He. apply make_keeps; assumption. }
  rewrite insert_insert_eq, (u32_small (co + 1)) by lia. settled.
  - left. reflexivity.
  - apply kept_leave; [| exact I | eexists; split; [reflexivity | apply make_resumes]].
    apply (kept_spared p _ cs lf os (thread t)); [exact Hlf | intros j e Hj _ He; apply Hmk; assumption | intros v [[=] | [= <-]]; exact Hlt].
  - intros v Hv. apply lookup_insert_is_Some in Hv as [-> | [Hne Hv]]; [left; rewrite lookup_insert_eq; eauto |].
    destruct (Hth v Hv) as [| ->]; [left; rewrite lookup_insert_ne by exact Hne; assumption | right; reflexivity].
  - assert (Hre : forall h f x, refers p h f x -> f <> thread t -> refers (make_fcontext (thread t) at_thread_trampoline p).2 h f x).
    { intros h f x (k & -> & Hk) Hf. exists k. split; [reflexivity | apply Hmk; assumption]. }
    destruct o as [| | u]; [exact Hon | destruct Hon; split; [assumption | apply Hre; [assumption | discriminate]] |].
    assert (Hne : t <> u) by congruence. destruct Hon as (E1 & E2 & E3 & E4 & E5).
    split_and!; [exact E1 | rewrite lookup_insert_ne by exact Hne; exact E2 | rewrite lookup_insert_ne by exact Hne; exact E3 | |]; apply Hre; (assumption || discriminate).
Qed.

Lemma destroy_spec (s : core) a t : rep s a -> chores a = [] -> is_thread (on a) = false -> is_Some (left_at a !! t) -> 0 < count a ->
  wp (cyros_port_context_destroy t)
     (fun _ s' => rep s' (upd_chores ((if (0 <? cores a)%nat then [Shutdown Count] else []) ++ [Drop t]) (upd_left (left_at a) (count a - 1) a))) s.
Proof.
  intros Hr Hch0 Hot Hlt Hlt2. opened s a Hr. subst ch. pose proof (nothing_todo _ _ Htd) as Hno.
  unfold cyros_port_context_destroy. call. call. unfold id; cbn. call. call; [apply negb_true_iff, Z.eqb_neq; lia |]. do 3 call. cbn.
  rewrite (u32_small (co - 1)) by lia. settled.
  - split; [rewrite decide_True by reflexivity; reflexivity | intros f Hf; rewrite decide_False by exact Hf; auto].
  - right. cbn. split; [exact Hot |]. destruct cn; [exists [] | exists [Count]]; exists t; (split_and!; [reflexivity | exact Hlt | repeat constructor]).
Qed.

Lemma todo_set (td : fiber -> list work) o l : (forall f, f <> o -> td f = []) ->
  (if decide (o = o) then l else td o) = l /\ (forall f, f <> o -> (if decide (f = o) then l else td f) = []).
Proof. intros H. split; [apply decide_True; reflexivity |]. intros f Hf. rewrite decide_False by exact Hf. auto. Qed.

Lemma chores_rep (s : core) a w : rep s a -> tidy (upd_chores w a) -> rep (set_todo (on a) w s) (upd_chores w a).
Proof. intros Hr Ht. opened s a Hr. settled. apply todo_set, Htd. Qed.

Lemma stop_rep (s : core) a : rep s a -> rep (set_shutdown_requested true s) (upd_shared (count a) true (cores a) a).
Proof. intros Hr. opened s a Hr. settled. Qed.

Lemma poke_rep (s : core) a c : rep s a -> rep (set_poked (c :: poked s) s) (upd_pokes c a).
Proof. intros Hr. opened s a Hr. settled. Qed.

Lemma ipi_spec (s : core) a c : rep s a -> (c < cores a)%nat ->
  wp (cyros_port_send_reschedule_ipi c) (fun _ s' => rep s' (let a := upd_pokes c a in if (c =? me)%nat then pended a else a)) s.
Proof.
  intros Hr Hc. pose proof (rep_shared _ _ Hr) as (_ & _ & El & Ei & _). unfold cyros_port_send_reschedule_ipi. do 3 call. call; [unfold id; rewrite El; apply Nat.ltb_lt, Hc |]. do 2 call.
  unfold id. rewrite Ei. pose proof (poke_rep s a c Hr) as Hr'. destruct (c =? me)%nat; cbn [andb]; [| exact Hr'].
  pose proof (pended_spec _ _ Hr') as Hp. pose proof (rep_on _ _ Hr) as Hon. unfold pended in *. cbn [on upd_pokes] in *.
  destruct (on a) as [| | t] eqn:Ho; [rewrite Hon; exact Hr' | destruct Hon as [-> _]; exact Hr' |].
  destruct Hon as [-> _]. exact Hp.
Qed.

Lemma drop_spec (s : core) a t : rep s a -> is_Some (left_at a !! t) -> is_thread (on a) = false ->
  chores a = [] -> wp (drop t) (fun _ s' => rep s' (upd_left (delete t (left_at a)) (count a) a)) s.
Proof.
  intros Hr [x Hx] Hnt Hch0. destruct (rep_left _ _ Hr t x Hx) as (_ & c & Hc & _). unfold drop. call. eapply wp_context; [exact Hc |]. call.
  opened s a Hr. subst ch. settled.
  - left. reflexivity.
  - intros u y Hu. apply lookup_delete_Some in Hu as [Hne Hu]. destruct (Hlf u y Hu) as (Hy & d & Hd & Hrd). split; [exact Hy |]. exists d. rewrite lookup_delete_ne by exact Hne. auto.
  - intros u [d Hu]. apply lookup_delete_Some in Hu as [Hne Hu]. rewrite lookup_delete_ne by exact Hne. apply Hth. eauto.
  - destruct o; try discriminate; exact Hon.
Qed.

Lemma work_spec (s : core) a : rep s a -> wp work_on (fun _ s' => rep s' (chore a)) s.
Proof.
  intros Hr. unfold work_on, chore. call. call. unfold id. destruct (rep_todo _ _ Hr) as [Ht _], (rep_went _ _ Hr) as [Ho _].
  pose proof (rep_chores _ _ Hr) as Htidy. rewrite Ho, Ht. destruct Htidy as [E | (Hnt & qs & t & E & Hlt & Hqs)]; [rewrite E; call; exact Hr |].
  destruct qs as [| q qs]; cbn [map app] in E; rewrite E; do 2 call.
  - apply (drop_spec _ (upd_chores [] a)); [apply chores_rep; [exact Hr | left; reflexivity] | exact Hlt | exact Hnt | reflexivity].
  - inversion Hqs as [| ? ? Hq Hqs']; subst.
    assert (Hti : tidy (upd_chores (map Shutdown qs ++ [Drop t]) a)) by (right; split; [exact Hnt | exists qs, t; auto]). pose proof (chores_rep s a _ Hr Hti) as Hr1.
    set (rest := map Shutdown qs ++ [Drop t]) in *.
    destruct (rep_shared _ _ Hr1) as (Ec & Es & El & Ei & _). unfold request_shutdown_if_quiesced. do 2 call. unfold id.
    destruct q as [| | c].
    + rewrite El, Ec. cbn. destruct (Z.of_nat (cores a) <? count a); [exact Hr1 |]. call. rewrite Ho. apply (chores_rep _ _ (Shutdown Claim :: rest) Hr1).
      right. split; [exact Hnt |]. exists (Claim :: qs), t. split_and!; [reflexivity | exact Hlt | constructor; [exact I | exact Hqs']].
    + rewrite Es. cbn. destruct (stopping a); [exact Hr1 |]. do 2 call. cbn in El. rewrite El, Ho.
      apply (chores_rep _ _ (map (fun c => Shutdown (Poke c)) (seq 0 (cores a)) ++ rest) (stop_rep _ _ Hr1)).
      right. split; [exact Hnt |]. exists (map Poke (seq 0 (cores a)) ++ qs), t. split_and!; [unfold rest; rewrite map_app, map_map, app_assoc; reflexivity | exact Hlt |].
      apply Forall_app. split; [| exact Hqs']. apply Forall_map, Forall_seq. intros c Hc. exact (proj2 Hc).
    + eapply wp_mono; [apply (ipi_spec _ _ c Hr1), Hq |]. cbn. intros _ s' Hs'. unfold pended in Hs'. cbn in Hs'. rewrite Hnt in Hs'. cbn in Hs'. destruct (c =? me)%nat; exact Hs'.
Qed.

(** ** Every call *)
Lemma goes_inv b a a' : goes b a = Some a' -> b = true /\ a' = a.
Proof. destruct b; [intros [= ->]; auto | discriminate]. Qed.

Lemma launch_spec (s : core) a n : rep s a -> chores a = [] -> on a = os -> idepth a = 0 -> pdepth a = 0 -> (0 < n <= COUNT)%nat ->
  wp (cyros_port_start_cores COUNT n) (fun _ s' => rep s' (upd_shared (count a) (stopping a) n a)) s.
Proof.
  intros Hr Hch0 Ho Hi Hp Hn. unfold cyros_port_start_cores. call. call; [apply Nat.ltb_lt; lia |]. call. call; [apply Nat.leb_le; lia |]. do 3 call.
  opened s a Hr. subst o ip pp ch. assert (ak = false) as -> by (destruct ak; [destruct (Has eq_refl); discriminate | reflexivity]). settled. left. reflexivity.
Qed.

Lemma set_i_masked i (s : core) :
  set_current_core (set_interrupt_disable_depth i (current_core s)) s = masked i (preempt_disable_depth (current_core s)) (reschedule_pending (current_core s)) s.
Proof. destruct s as [p cs [] ac st la ci po ru td we]. reflexivity. Qed.
Lemma set_p_masked p (s : core) :
  set_current_core (set_preempt_disable_depth p (current_core s)) s = masked (interrupt_disable_depth (current_core s)) p (reschedule_pending (current_core s)) s.
Proof. destruct s as [p' cs [] ac st la ci po ru td we]. reflexivity. Qed.

Lemma deeper_spec (s : core) a i p : rep s a -> idepth a <= i < 2 ^ 32 -> pdepth a <= p < 2 ^ 32 -> rep (masked i p (asked a) s) (upd_masks i p (asked a) a).
Proof.
  intros Hr Hi Hp. pose proof (rep_masks _ _ Hr) as (_ & _ & _ & H1 & H2). apply masked_rep; [exact Hr | lia | lia |]. intros E. destruct (rep_asked _ _ Hr E). split; [assumption | lia].
Qed.

Lemma mask_calls (s : core) a l a' : rep s a -> spec_idle l a = Some a' ->
  match l with Save | Restore_ | Disable | Enable => wp (step COUNT l) (fun _ s' => rep s' a') s | _ => True end.
Proof.
  intros Hr Hl. pose proof (rep_masks _ _ Hr) as (Ei & Ep & Ek & Hi & Hp). destruct l; try exact I; cbn in Hl; apply goes_inv in Hl as [Hb ->]; apply Z.ltb_lt in Hb;
    unfold step, cyros_port_irq_save, cyros_port_irq_restore, cyros_port_preempt_disable, cyros_port_preempt_enable.
  1, 3: do 4 call; rewrite ?set_i_masked, ?set_p_masked, ?Ei, ?Ep, Ek, u32_small by lia; apply deeper_spec; (exact Hr || lia).
  all: do 3 call; call; [unfold id; apply Z.ltb_lt; lia |]; do 2 call; rewrite ?set_i_masked, ?set_p_masked, ?Ei, ?Ep, Ek, u32_small by lia; apply unmasked_spec; (exact Hr || lia).
Qed.

Lemma switch_calls (s : core) a l a' : rep s a -> chores a = [] -> spec_idle l a = Some a' ->
  match l with Yield | Idle_ | Direct _ | Pend | Ipi _ | First _ | Switch _ => wp (step COUNT l) (fun _ s' => rep s' a') s | _ => True end.
Proof.
  intros Hr Hch Hl. pose proof (rep_masks _ _ Hr) as (Ei & Ep & Ek & Hi & Hp). pose proof (rep_on _ _ Hr) as Hon. destruct l as [| | | | | | t | t | | | | | | | | t | | c |]; try exact I; cbn in Hl.
  1, 2: apply (dispatched_spec _ a); assumption.
  1, 2: apply goes_inv in Hl as [Hb ->]; destruct (baseline_true a Hb) as (Ht & Hi0 & Hp0); destruct (on a) as [| | u] eqn:Ho; try discriminate;
    destruct Hon as (Hcc & _).
  - unfold step, cyros_port_thread_yield. do 2 call. unfold id. cbv beta. rewrite Hcc, Ei, Ep, Hi0, Hp0. do 3 (call; call; [reflexivity |]).
    apply to_scheduler_spec; [exact Hr | rewrite Ho; reflexivity | exact Hi0 | exact Hp0].
  - unfold step, cyros_port_idle. apply to_scheduler_spec; [exact Hr | rewrite Ho; reflexivity | exact Hi0 | exact Hp0].
  - destruct (left_at a !! t) as [x |] eqn:Hx; [| discriminate]. apply goes_inv in Hl as [Hb ->]. destruct (on a) as [| | u] eqn:Ho; try discriminate.
    destruct Hon as (Hcc & _). rewrite !andb_true_iff, !Z.eqb_eq, negb_true_iff in Hb. destruct Hb as [[[_ Hi1] Hp1] Hak].
    unfold step, cyros_port_masked_from_baseline. do 4 call. unfold id. rewrite Hcc, Ei, Ep, Hi1, Hp1. call. call; [reflexivity |]. do 2 call. rewrite Hcc.
    apply direct_spec; assumption.
  - injection Hl as <-. apply pended_spec, Hr.
  - apply goes_inv in Hl as [Hb ->]. apply ipi_spec; [exact Hr | apply Nat.ltb_lt, Hb].
Qed.

Lemma step_spec (s : core) a l a' : rep s a -> spec l a = Some a' -> wp (step COUNT l) (fun _ s' => rep s' a') s.
Proof.
  intros Hr Hl.
  assert (Hidle : spec_idle l a = Some a' -> chores a = [] -> wp (step COUNT l) (fun _ s' => rep s' a') s).
  { clear Hl. intros Hl Hch0. pose proof (mask_calls s a l a' Hr Hl) as Hm. pose proof (switch_calls s a l a' Hr Hch0 Hl) as Hs.
    destruct l as [n | ok | | t b z e g | t | | t | t | | | | | | | | t | | c | n b]; try exact Hm; try exact Hs; clear Hm Hs; cbn [spec_idle] in Hl; try discriminate.
    all: apply goes_inv in Hl as [Hb ->]; rewrite ?andb_true_iff, ?bool_decide_eq_true, ?Z.eqb_eq, ?Z.ltb_lt, ?Nat.ltb_lt, ?Nat.leb_le, ?negb_true_iff, ?bool_decide_eq_false in Hb.
    - apply launch_spec; (tauto || lia).
    - destruct Hb as [[-> Ho] _]. apply start_spec; assumption.
    - unfold step, reset. do 3 call. opened s a Hr. subst ch. destruct Hb as [-> ->]. settled. left. reflexivity.
    - destruct Hb as [[Hx Ho] Hc]. apply init_spec; try assumption. apply eq_None_not_Some, Hx.
    - destruct Hb as [[Hx Ho] Hc]. apply destroy_spec; assumption.
    - apply returned_spec; assumption. }
  destruct l; try (cbn [spec] in Hl; destruct (unoccupied a) eqn:Hu; [| discriminate]; apply Hidle; [exact Hl | unfold unoccupied in Hu; destruct (chores a); [reflexivity | discriminate]]).
  - injection Hl as <-. apply work_spec, Hr.
  - cbn in Hl. apply goes_inv in Hl as [Hb ->]. apply andb_true_iff in Hb as [H1 H2]. apply Z.leb_le in H1. apply Z.ltb_lt in H2.
    unfold step. call. opened s a Hr. settled.
Qed.

Lemma booted_rep p n : rep (booted p n me) (spec_booted n).
Proof.
  constructor; cbn; try (split_and?; (reflexivity || lia || discriminate || auto; fail)); try discriminate.
  - left. reflexivity.
  - split; [discriminate | intros []; reflexivity].
  - intros t [x Hx]. rewrite lookup_empty in Hx. discriminate.
Qed.

Lemma steps_spec ls : forall (s : core) a a', rep s a -> specs ls a = Some a' -> wp (steps COUNT ls) (fun _ s' => rep s' a') s.
Proof.
  induction ls as [| l ls IH]; intros s a a' Hr Hl; cbn in Hl |- *; [injection Hl as <-; exact Hr |].
  destruct (spec l a) as [b |] eqn:Hb; [| discriminate]. call. eapply wp_mono; [apply (step_spec s a l b Hr Hb) |].
  cbv beta. intros _ s' Hs'. apply (IH s' b a' Hs' Hl).
Qed.
End spec.

(** ** The property *)

(** C19: on the cooperative port every context goes on where it was left.
    Whatever a core's kernel and threads do within the contract, from the start
    of its scheduler to its return: no call fails or jumps to a spent handle,
    control passes as [spec] says, which has no handles, to where the one it
    passes to was left, and each handle is again in its own place, the
    scheduler's with the core and a thread's in its context, whichever road a
    thread was left or taken up on; a reschedule asked for under a mask is made
    when the last mask ends; and a context destroyed with no more left than one
    per core has every core poked, and told to leave to its pthread. *)
Theorem coop_threads_go_on (COUNT me : nat) {F : Fcontext} {L : FcontextLaws F} (p : stacks) (n : nat) (ls : list label) (a : spec_core) :
  specs COUNT me ls (spec_booted n) = Some a -> exists s, steps COUNT ls (booted p n me) = Ok (tt, s) /\ rep me s a.
Proof. intros H. destruct (wp_elim _ _ _ (steps_spec COUNT me ls _ _ _ (booted_rep me p n) H)) as ([] & s & E & Hr). exists s. auto. Qed.

(** What is not within the contract is refused, mostly by its assertions: a
    yield off baseline, a mask let down that is not up, a direct switch but from
    the one mask, and a switch to the thread that runs, whose handle is spent,
    or to one that is not there. *)
Theorem coop_refuses_misuse (COUNT me : nat) {F : Fcontext} (s : core) (a : spec_core) :
  rep me s a ->
  (baseline a = false -> cyros_port_thread_yield s = Panic assert_failed) /\
  (idepth a = 0 -> forall k, cyros_port_irq_restore k s = Panic assert_failed) /\
  (pdepth a = 0 -> forall k, cyros_port_preempt_enable k s = Panic assert_failed) /\
  (forall t, on a = thread t -> cyros_port_switch t s = Panic assert_failed) /\
  (forall t, left_at a !! t = None -> on a <> thread t -> cyros_port_switch t s = Panic bad_pointer) /\
  (forall t u, on a = thread t -> ~ (idepth a = 1 /\ pdepth a = 0 /\ asked a = false) -> cyros_port_direct_switch t u s = Panic assert_failed).
Proof.
  intros Hr. destruct (rep_masks _ _ _ Hr) as (Ei & Ep & Ek & _). pose proof (rep_on _ _ _ Hr) as Hon. pose proof (rep_there _ _ _ Hr) as Hth. split_and!.
  - unfold baseline. intros Hb. unfold cyros_port_thread_yield, here, kget, kbind, kensure, id. rewrite Ei, Ep.
    destruct (on a) as [| | t]; cbn in Hb; [rewrite Hon; reflexivity | destruct Hon as [-> _]; reflexivity |]. destruct Hon as [-> _]. cbn.
    destruct (idepth a =? 0); [| reflexivity]. cbn in *. rewrite Hb. reflexivity.
  - intros Hi k. unfold cyros_port_irq_restore, here, kget, kbind, kensure, id. rewrite Ei, Hi. reflexivity.
  - intros Hp k. unfold cyros_port_preempt_enable, here, kget, kbind, kensure, id. rewrite Ep, Hp. reflexivity.
  - intros t Ht. rewrite Ht in Hon. destruct Hon as (_ & _ & (c & Hc & Hn) & _). unfold cyros_port_switch, get_context, kbind, kensure. rewrite Hc, Hn. reflexivity.
  - intros t Hl Ht. unfold cyros_port_switch, get_context, kbind. destruct (contexts s !! t) as [c |] eqn:Hc; [| reflexivity].
    destruct (Hth t) as [[x Hx] | Hx]; [eauto | congruence | congruence].
  - intros t u Ht Hno. rewrite Ht in Hon. destruct Hon as (Hcc & _). unfold cyros_port_direct_switch, here, kget, kbind, kensure, id. rewrite Hcc, Ei, Ep, Ek.
    rewrite bool_decide_true by reflexivity. destruct (idepth a =? 1) eqn:H1; [| reflexivity]. destruct (pdepth a =? 0) eqn:H2; [| reflexivity].
    destruct (asked a); [reflexivity |]. apply Z.eqb_eq in H1, H2. tauto.
Qed.

(** ** An example *)

(** Each stack's handle is the stack itself. *)
#[export] Instance stack_handles : Fcontext := {|
  fcontext_t := fiber; stacks := fiber -> option site;
  resumes p k := (fun x => (k, x)) <$> p k;
  make_fcontext f a p := (f, fun g => if decide (g = f) then Some a else p g);
  jump_fcontext k f a p := (f, fun g => if decide (g = f) then Some a else if decide (g = k) then None else p g)
|}.

#[export] Instance stack_handles_laws : FcontextLaws stack_handles.
Proof.
  split; cbn.
  - intros. rewrite decide_True by reflexivity. reflexivity.
  - intros f a p j e Hj He. destruct (p j); [| discriminate]. injection Hj as <-. rewrite decide_False by exact He. reflexivity.
  - intros. rewrite decide_True by reflexivity. reflexivity.
  - intros k f a p e j e' Hk He Hj He' Hne. destruct (p k); [| discriminate]. destruct (p j); [| discriminate]. injection Hk as <-. injection Hj as <-.
    rewrite !decide_False by assumption. reflexivity.
Qed.

(** One core: an idle thread, 7, and two more, from the first to the last. *)
Definition script : list label := [
  Init 7 0 4096 1 0; Init 1 8192 4096 2 0; Init 2 16384 4096 3 0; Launch 1; Start true;
  First 1; Save; Direct 2; Disable; Pend; Ipi 0; Save; Restore_; Enable;
  Save; Pend; Restore_; Switch 1; Yield; Destroy 1; Work; Work;
  Switch 2; Yield; Destroy 2; Work; Work; Work; Work;
  Switch 7; Idle_; Returned; Reset; Destroy 7; Work ].

Lemma coop_threads_go_on_witness :
  exists s, steps 1 script (booted (fun _ => None) 0 0) = Ok (tt, s) /\ running s = os /\ active_contexts s = 0 /\ poked s = [0; 0]%nat /\
    rev (went_on s) = [
      (scheduler, at_scheduler_trampoline); (thread 1, at_thread_trampoline); (thread 2, at_thread_trampoline);
      (scheduler, in_cyros_port_switch); (thread 1, in_cyros_port_direct_switch); (scheduler, in_cyros_port_switch);
      (thread 2, in_switch_to_scheduler_context); (scheduler, in_cyros_port_switch); (thread 7, at_thread_trampoline);
      (scheduler, in_cyros_port_switch); (os, in_start_scheduler)].
Proof.
  destruct (coop_threads_go_on 1 0 (F := stack_handles) (fun _ => None) 0 script _ ltac:(vm_compute; reflexivity)) as (s & E & Hr).
  exists s. destruct (rep_went _ _ _ Hr) as [H1 H2], (rep_shared _ _ _ Hr) as (H3 & _ & _ & _ & H4 & _).
  rewrite H1, H2, H3, H4. split; [exact E | repeat split].
Defined.

(** ** Idling *)
Section idling.
Import CoopIdle.
Context `{P : Pthread} {L : PthreadLaws P}.

(** Whose mutex it is follows from where everyone is. *)
Definition inside (i : idling) : bool := match i with Checking | Parking | Unlocking => true | _ => false end.
Definition sends_inside (a : sending) : bool := match a with Holding | Signalled => true | _ => false end.
Definition will_signal (a : sending) : bool := match a with Stored | Holding => true | _ => false end.

Record awake (s : core_poke) : Prop := {
  owner_idler : owner (mutex_and_cond s) = Some 0%nat <-> inside (idler s) = true;
  owner_sender k : owner (mutex_and_cond s) = Some (S k) <-> exists a, senders s !! k = Some a /\ sends_inside a = true;
  blocked_idler : blocked (mutex_and_cond s) 0 = true -> idler s = Waiting;
  blocked_sender k : blocked (mutex_and_cond s) (S k) = false;
  (* the core is asleep, or about to be, on a poke only if its sender has yet to signal *)
  no_missed : idler s = Parking \/ blocked (mutex_and_cond s) 0 = true -> pending s = true -> exists k a, senders s !! k = Some a /\ will_signal a = true
}.

(** What is left to do, each waking counted with its signal. *)
Definition idler_effort (s : core_poke) : nat :=
  match idler s with
  | Away => 0 | Unlocking => 1 | Parking => 3 | Checking => 4 | Locking => 5 | Looking => 6
  | Waiting => if blocked (mutex_and_cond s) 0 then 2 else 5
  end.
Definition sender_effort (a : sending) : nat := match a with Storing => 7 | Stored => 6 | Holding => 5 | Signalled => 1 | Sent => 0 end.
Definition effort (s : core_poke) : nat := idler_effort s + sum_list_with sender_effort (senders s).

Lemma sum_cons c l : sum_list_with sender_effort (c :: l) = (sender_effort c + sum_list_with sender_effort l)%nat.
Proof. reflexivity. Qed.

Lemma sum_insert (l : list sending) k a b : l !! k = Some a ->
  (sum_list_with sender_effort (<[k := b]> l) + sender_effort a = sum_list_with sender_effort l + sender_effort b)%nat.
Proof. revert k. induction l as [| c l IH]; intros [| k] H; try discriminate; [injection H as ->; cbn; lia |].
  specialize (IH k H). change (<[S k := b]> (c :: l)) with (c :: <[k := b]> l). rewrite !sum_cons. lia. Qed.

Lemma lock_free w x y : mutex_lock w x = Some y -> owner x = None /\ owner y = Some w /\ forall v, blocked y v = blocked x v.
Proof.
  intros E. split; [| apply lock_takes, E]. destruct (owner x) eqn:Hx; [| reflexivity].
  assert (mutex_lock w x = None) by (apply lock_blocks; congruence). congruence.
Qed.

(** An idler that found a poke is on its way out, and one that has not found it
    can still. *)
Definition leaving (s : core_poke) : Prop := pending s = true \/ idler s = Away \/ idler s = Unlocking.

Ltac leaves := intros [|[|]]; first [discriminate | auto].

Lemma exchange_keeps f m (s : core_poke) : awake s -> inside (idler s) = inside f -> inside m = inside f -> idler s <> Waiting -> awake (exchange f m s).
Proof.
  intros [Hi Hk Hb Hbs Hm] H1 H2 Hw. unfold exchange. split; cbn.
  - rewrite Hi, H1. destruct (pending s); [| rewrite H2]; reflexivity.
  - exact Hk.
  - intros E. destruct (Hw (Hb E)).
  - exact Hbs.
  - discriminate.
Qed.

(** Taking and leaving the mutex, as the idler. *)
Lemma idler_locks (s : core_poke) y : awake s -> blocked (mutex_and_cond s) 0 = false -> mutex_lock 0 (mutex_and_cond s) = Some y -> awake (at_ Checking y s).
Proof.
  intros [Hi Hk Hb Hbs Hm] Hnb Hl. destruct (lock_free _ _ _ Hl) as (Hx & Hy & Hyb). unfold at_. split; cbn; rewrite ?Hyb, ?Hy, ?Hnb.
  - tauto.
  - intros k. split; [discriminate |]. intros Ha. apply Hk in Ha. congruence.
  - discriminate.
  - intros k. rewrite Hyb. apply Hbs.
  - intros [|]; discriminate.
Qed.

Lemma idler_leaves (s : core_poke) i y : awake s -> inside (idler s) = true -> inside i = false -> i <> Parking ->
  owner y = None -> (forall k, blocked y (S k) = false) -> (blocked y 0 = true -> i = Waiting /\ (idler s = Parking \/ blocked (mutex_and_cond s) 0 = true)) -> awake (at_ i y s).
Proof.
  intros [Hi Hk Hb Hbs Hm] H1 H2 H3 Hy Hyk Hy0. pose proof (proj2 Hi H1) as Hx. unfold at_. split; cbn.
  - rewrite Hy, H2. split; discriminate.
  - intros k. rewrite Hy. split; [discriminate |]. intros Ha. apply Hk in Ha. congruence.
  - intros E. apply Hy0, E.
  - exact Hyk.
  - intros [E | E]; [contradiction |]. apply Hm, Hy0, E.
Qed.

Lemma idle_keeps (s s' : core_poke) : awake s -> idle s = Some s' -> awake s' /\ (effort s' < effort s)%nat /\ (leaving s -> leaving s').
Proof.
  intros Ha E. pose proof (blocked_idler s Ha) as Hb. pose proof (owner_idler s Ha) as Hi. pose proof (blocked_sender s Ha) as Hbs.
  assert (Hnb : idler s <> Waiting -> blocked (mutex_and_cond s) 0 = false) by (intros Hn; destruct (blocked _ 0); [destruct (Hn (Hb eq_refl)) | reflexivity]).
  unfold idle in E. unfold effort, idler_effort, leaving. destruct (idler s) eqn:Ei; [discriminate | | | | | |].
  - injection E as <-. split; [apply exchange_keeps; try rewrite Ei; try exact Ha; (reflexivity || discriminate) |].
    unfold exchange; cbn. destruct (pending s); (split; [lia | leaves]).
  - destruct (mutex_lock 0 _) as [y |] eqn:Hl; [| discriminate]. injection E as <-. split; [apply idler_locks; auto; apply Hnb; discriminate |]. cbn. split; [lia | leaves].
  - injection E as <-. split; [apply exchange_keeps; try rewrite Ei; try exact Ha; (reflexivity || discriminate) |].
    unfold exchange; cbn. destruct (pending s); (split; [lia | leaves]).
  - injection E as <-. destruct (wait_gives 0 _ (proj2 Hi eq_refl)) as [Hx Hxb]. cbn. rewrite Hxb. cbn. split; [| split; [lia | leaves]].
    apply idler_leaves; try rewrite Ei; try exact Ha; try reflexivity; try discriminate; [exact Hx | intros k; rewrite Hxb; apply Hbs | auto].
  - destruct (blocked _ 0) eqn:Hxb; [discriminate |]. destruct (mutex_lock 0 _) as [y |] eqn:Hl; [| discriminate]. injection E as <-.
    split; [apply idler_locks; assumption |]. cbn. split; [lia | leaves].
  - injection E as <-. destruct (unlock_gives 0 _ (proj2 Hi eq_refl)) as [Hx Hxb]. cbn. split; [| split; [lia | leaves]].
    apply idler_leaves; try rewrite Ei; try exact Ha; try reflexivity; try discriminate; [exact Hx | intros k; rewrite Hxb; apply Hbs |].
    rewrite Hxb. rewrite Hnb by discriminate. discriminate.
Qed.

Lemma changed (l : list sending) k a b (Q : sending -> bool) j : l !! k = Some a ->
  (exists c, <[k := b]> l !! j = Some c /\ Q c = true) <-> (if decide (j = k) then Q b = true else exists c, l !! j = Some c /\ Q c = true).
Proof.
  intros Hk. pose proof (lookup_lt_Some _ _ _ Hk) as Hlt. destruct (decide (j = k)) as [-> | Hne].
  - rewrite list_lookup_insert_eq by exact Hlt. split; [intros (c & [= <-] & H); exact H | eauto].
  - rewrite list_lookup_insert_ne by congruence. reflexivity.
Qed.

(** A sender's step, whatever it does to the mutex and who is blocked. *)
Lemma sender_keeps (s : core_poke) k a b p y : awake s -> senders s !! k = Some a ->
  (owner y = Some 0%nat <-> owner (mutex_and_cond s) = Some 0%nat) ->
  (owner y = Some (S k) <-> sends_inside b = true) -> (forall j, j <> k -> owner y = Some (S j) <-> owner (mutex_and_cond s) = Some (S j)) ->
  (forall v, blocked y v = true -> blocked (mutex_and_cond s) v = true) ->
  (will_signal b = true \/ p = pending s /\ (will_signal a = false \/ idler s <> Parking /\ blocked y 0 = false)) ->
  awake (CorePoke p y (idler s) (<[k := b]> (senders s))).
Proof.
  intros [Hi Hk Hb Hbs Hm] Ha H0 H1 H2 H3 H4. split; cbn.
  - rewrite H0. exact Hi.
  - intros j. rewrite (changed _ k a) by exact Ha. destruct (decide (j = k)) as [-> | Hne]; [exact H1 | rewrite H2 by exact Hne; apply Hk].
  - intros E. apply Hb, H3, E.
  - intros j. destruct (blocked y (S j)) eqn:E; [| reflexivity]. rewrite <- (Hbs j). symmetry. apply H3, E.
  - intros Hw Hp. destruct H4 as [H4 | [-> [H4 | [H4 H5]]]].
    + exists k. apply (changed _ k a _ will_signal k Ha). rewrite decide_True by reflexivity. exact H4.
    + destruct (Hm ltac:(destruct Hw; auto) Hp) as (j & Hj). exists j. apply (changed _ k a _ will_signal j Ha).
      destruct (decide (j = k)) as [-> | _]; [| exact Hj]. destruct Hj as (c & Hc & Hcw). congruence.
    + destruct Hw; [contradiction | congruence].
Qed.

Lemma send_keeps k (s s' : core_poke) : awake s -> send k s = Some s' -> awake s' /\ (effort s' < effort s)%nat /\ (leaving s -> leaving s').
Proof.
  intros Ha E. unfold send in E. destruct (senders s !! k) as [a |] eqn:Hk; [| discriminate].
  assert (Heff : forall b, (sum_list_with sender_effort (<[k := b]> (senders s)) + sender_effort a = sum_list_with sender_effort (senders s) + sender_effort b)%nat) by (intros b; apply sum_insert, Hk).
  assert (Hown : owner (mutex_and_cond s) = Some (S k) <-> sends_inside a = true).
  { rewrite (owner_sender s Ha k), Hk. split; [intros (c & [= <-] & H); exact H | eauto]. }
  unfold effort, idler_effort, leaving. destruct a; try discriminate; cbn in *.
  - injection E as <-. cbn. specialize (Heff Stored). cbn in Heff. split; [| split; [lia | auto]].
    apply (sender_keeps s k Storing); try assumption; auto; (try reflexivity); (try (rewrite Hown; reflexivity)).
  - destruct (mutex_lock (S k) _) as [y |] eqn:Hl; [| discriminate]. injection E as <-. destruct (lock_free _ _ _ Hl) as (Hx & Hy & Hyb). cbn.
    specialize (Heff Holding). cbn in Heff. rewrite Hyb. split; [| split; [lia | auto]].
    apply (sender_keeps s k Stored); try assumption; rewrite ?Hy, ?Hx; try (split; discriminate); auto.
    + split; reflexivity.
    + intros j Hj. split; [intros [= E]; congruence | discriminate].
    + intros v. rewrite Hyb. auto.
  - injection E as <-. cbn. specialize (Heff Signalled). cbn in Heff. pose proof (proj2 Hown eq_refl) as Ho.
    destruct (signal_keeps (mutex_and_cond s)) as [Hy Hyb].
    assert (H0 : blocked (cond_signal (mutex_and_cond s)) 0 = false).
    { destruct (blocked (cond_signal _) 0) eqn:E0; [| reflexivity]. destruct (signal_wakes _ 0 (Hyb _ E0)) as ([| w] & Hw & Hw'); [congruence | rewrite (blocked_sender s Ha) in Hw; discriminate]. }
    split; [| split; [rewrite H0; destruct (idler s); try destruct (blocked (mutex_and_cond s) 0); lia | auto]].
    apply (sender_keeps s k Holding); try assumption; rewrite ?Hy; auto; (try reflexivity).
    right. split; [reflexivity |]. right. split; [| exact H0]. intros Ep. pose proof (proj2 (owner_idler s Ha) ltac:(rewrite Ep; reflexivity)). congruence.
  - injection E as <-. cbn. specialize (Heff Sent). cbn in Heff. pose proof (proj2 Hown eq_refl) as Ho.
    destruct (unlock_gives _ _ Ho) as [Hy Hyb]. rewrite Hyb. split; [| split; [lia | auto]].
    apply (sender_keeps s k Signalled); try assumption; rewrite ?Hy, ?Ho; try (split; discriminate); auto.
    + intros j Hj. split; [discriminate | intros [= E]; congruence].
    + intros v. rewrite Hyb. auto.
Qed.

Lemma advance_keeps w (s s' : core_poke) : awake s -> advance w s = Some s' -> awake s' /\ (effort s' < effort s)%nat /\ (leaving s -> leaving s').
Proof. destruct w; [apply idle_keeps | apply send_keeps]. Qed.

Lemma act_keeps a (s s' : core_poke) : awake s -> act a s = Some s' -> awake s'.
Proof.
  intros Ha E. destruct a as [| | w |]; [| | exact (proj1 (advance_keeps w s s' Ha E)) |]; cbn in E; destruct Ha as [Hi Hk Hb Hbs Hm].
  - destruct (idler s) eqn:Ei; try discriminate. injection E as <-. unfold at_. split; cbn; [exact Hi | exact Hk | intros E; discriminate (Hb E) | exact Hbs |].
    intros [|]; [discriminate |]. apply Hm. auto.
  - injection E as <-. split; cbn; try assumption.
    + intros k. rewrite Hk. split; intros (a & Hl & Hs); exists a; (split; [| exact Hs]); [apply lookup_app_l_Some, Hl |].
      apply lookup_app_Some in Hl as [Hl | [_ Hl]]; [exact Hl |]. apply list_lookup_singleton_Some in Hl as [_ <-]. discriminate.
    + intros Hw Hp. destruct (Hm Hw Hp) as (k & a & Hl & Hs). exists k, a. split; [apply lookup_app_l_Some, Hl | exact Hs].
  - injection E as <-. destruct (stir_wakes 0 (mutex_and_cond s)) as [Hy Hyb]. unfold at_. split; cbn; rewrite ?Hy, ?Hyb; cbn; [exact Hi | intros k; apply Hk | discriminate | intros k; rewrite Hyb; apply Hbs |].
    intros [|]; [auto | discriminate].
Qed.

(** Nobody can go on only once the core is back. *)
Lemma not_stuck (s : core_poke) : awake s -> leaving s -> (forall w, advance w s = None) -> idler s = Away.
Proof.
  intros Ha Hl Hn. pose proof (Hn 0%nat) as H0. cbn in H0. unfold idle in H0.
  assert (Hown : owner (mutex_and_cond s) <> None -> inside (idler s) = true).
  { intros Ho. destruct (owner _) as [[| k] |] eqn:Eo; [apply (owner_idler s Ha), Eo | | contradiction].
    apply (owner_sender s Ha) in Eo as (a & Hk & Hs). specialize (Hn (S k)). cbn in Hn. unfold send in Hn. rewrite Hk in Hn. destruct a; discriminate. }
  assert (Hlock : forall k, mutex_lock k (mutex_and_cond s) = None -> inside (idler s) = true) by (intros k E; apply Hown, (proj1 (lock_blocks _ _) E)).
  destruct (idler s) eqn:Ei; try discriminate; try reflexivity.
  - destruct (mutex_lock 0 _) eqn:E; [discriminate | discriminate (Hlock _ E)].
  - destruct (blocked _ 0) eqn:Eb; [| destruct (mutex_lock 0 _) eqn:E; [discriminate | discriminate (Hlock _ E)]].
    assert (Hp : pending s = true) by (destruct Hl as [| [|]]; congruence).
    destruct (no_missed s Ha (or_intror Eb) Hp) as (k & a & Hk & Hs). specialize (Hn (S k)). cbn in Hn. unfold send in Hn. rewrite Hk in Hn.
    destruct a; try discriminate. destruct (mutex_lock (S k) _) eqn:E; [discriminate | discriminate (Hlock _ E)].
Qed.

Lemma advances_keep ws : forall s s' : core_poke, awake s -> leaving s -> advances ws s = Some s' -> awake s' /\ leaving s' /\ (length ws + effort s' <= effort s)%nat.
Proof.
  induction ws as [| w ws IH]; intros s s' Ha Hl E; cbn in E; [injection E as <-; auto |].
  destruct (advance w s) as [t |] eqn:Et; [| discriminate]. destruct (advance_keeps w s t Ha Et) as (Ha' & He & Hl').
  destruct (IH t s' Ha' (Hl' Hl) E) as (H1 & H2 & H3). split; [exact H1 |]. split; [exact H2 |]. cbn. lia.
Qed.

Lemma acts_keep l : forall s s' : core_poke, awake s -> acts l s = Some s' -> awake s'.
Proof.
  induction l as [| a l IH]; intros s s' Ha E; cbn in E; [injection E as <-; exact Ha |].
  destruct (act a s) as [t |] eqn:Et; [| discriminate]. exact (IH t s' (act_keeps a s t Ha Et) E).
Qed.
End idling.

Section no_poke_missed.
Import CoopIdle.

(** C20: a core that idles misses no poke.  Whatever the interleaving of its
    [cyros_port_idle]s with any number of [cyros_port_send_reschedule_ipi]s to
    it, access by access, and whoever else pthread_cond_wait returns for: once a
    poke is pending, the idle's and the senders' own steps are bounded, and they
    only stop when the core is out of its idle.  It never sleeps on a poke, and
    nobody is left waiting for the mutex. *)
Theorem coop_idle_misses_no_poke {P : Pthread} {L : PthreadLaws P} (x : sync) (l : list action) (s : core_poke) :
  owner x = None -> (forall v, blocked x v = false) -> acts l (CorePoke false x Away []) = Some s -> pending s = true ->
  forall ws s', advances ws s = Some s' -> (length ws <= effort s)%nat /\ ((forall w, advance w s' = None) -> idler s' = Away).
Proof.
  intros Hx Hb Hl Hp ws s' Hw.
  assert (Ha : awake s).
  { apply (acts_keep l _ s) in Hl; [exact Hl |]. split; cbn; rewrite ?Hx; [split; discriminate | | | intros k; apply Hb | intros [| E]; [discriminate | rewrite Hb in E; discriminate]].
    - intros k. split; [discriminate | intros (a & E & _); discriminate].
    - rewrite Hb. discriminate. }
  destruct (advances_keep ws s s' Ha (or_introl Hp) Hw) as (H1 & H2 & H3). split; [lia | apply not_stuck; assumption].
Qed.

(** A mutex and a condition variable whose signal wakes all. *)
#[export] Instance plain_pthread : Pthread := {|
  sync := option nat * (nat -> bool);
  owner x := x.1; blocked x := x.2;
  mutex_lock w x := match x.1 with None => Some (Some w, x.2) | Some _ => None end;
  mutex_unlock _ x := (None, x.2);
  cond_wait w x := (None, fun v => (v =? w)%nat || x.2 v);
  cond_signal x := (x.1, fun _ => false);
  stir w x := (x.1, fun v => negb (v =? w)%nat && x.2 v)
|}.

#[export] Instance plain_pthread_laws : PthreadLaws plain_pthread.
Proof.
  split; cbn; try (intros; split; reflexivity).
  - intros w [[o |] b]; cbn; split; congruence.
  - intros w [[o |] b] y [= <-]. split; reflexivity.
  - intros x. split; [reflexivity | discriminate].
  - intros x v H. exists v. auto.
Qed.

(** The poke comes between the look under the mutex and the wait. *)
Definition late_poke : list action := [Idle; Advance 0; Advance 0; Advance 0; Poke; Advance 1; Advance 0].

Lemma coop_idle_misses_no_poke_witness :
  exists s s', acts late_poke (CorePoke false (None, fun _ => false) Away []) = Some s /\ blocked (mutex_and_cond s) 0 = true /\ pending s = true /\
    advances [1; 1; 1; 0; 0; 0]%nat s = Some s' /\ (6 <= effort s)%nat /\ idler s' = Away.
Proof.
  eexists. eexists. split; [vm_compute; reflexivity |]. split; [reflexivity |]. split; [reflexivity |]. split; [vm_compute; reflexivity |].
  match goal with |- (6 <= effort ?s)%nat /\ idler ?s' = Away =>
    destruct (coop_idle_misses_no_poke (P := plain_pthread) (None, fun _ => false) late_poke s eq_refl (fun _ => eq_refl) eq_refl eq_refl [1; 1; 1; 0; 0; 0]%nat s' eq_refl) as [H1 H2] end.
  split; [exact H1 |]. apply H2. intros [| [| w]]; reflexivity.
Defined.
End no_poke_missed.
